(* ===== verification/_CoqProject ===== *)
-Q . S2P
Prelude.v
PyText.v
Utf8.v
Billing.v
Category.v
VendorCodes.v
Routing.v
Failover.v
OutboxContract.v
Outbox.v
Effects.v
Redis.v
TokenBucket.v
AppRateLimit.v
CostWindow.v
Cutover.v
CutoverSafety.v
CutoverRun.v
SendState.v
SendStore.v
SendSafety.v
SendFinalize.v
SendBudget.v
SendWorker.v
WorkerSafety.v
SendSystem.v
SystemSafety.v
Inflight.v
InflightSafety.v
InflightLaws.v
ResendSource.v
IdempotencyStore.v
IdempotencySafety.v
Idempotency.v
UsageStore.v
UsageFrequency.v
UsageSafety.v
UsageLedger.v
UsageDecision.v
UsageMerge.v
UsageRedis.v
UsageVersions.v
UsageProjected.v
UsageService.v
UsageRebuild.v
ReportStore.v
ReportSafety.v
ReportCounts.v
PyTime.v
Crypto.v
CryptoSafety.v
ReportParse.v
ReportKey.v
ReportIngest.v
ReportSweep.v
RawLog.v
RawSafety.v
RawReplay.v
Callbacks.v
CallbackSafety.v
CallbackDelivery.v
CallbackWorker.v
