(* ===== verification/Prelude.v ===== *)
(** * A verification development of the enterprise SMS platform

    The platform accepts messages of applications, plans them into chunks,
    submits each chunk to a vendor over HTTP, takes in the vendor's delivery
    reports and tells the applications about them.  Its promise is that a
    recipient is not sent the same message twice: a call whose outcome is
    unknown is never repeated, at this vendor or another, and every state change
    survives lost workers, duplicate deliveries of tasks and late answers.  The
    development models the backend ([src/backend/app]) as Rocq functions and
    proves what makes it correct.

    ** The parts and how they interact

    A request takes a claim on its business key, reserves quota and in-flight
    capacity, and is accepted in one transaction that inserts the batch, the
    result of the key and the first event of the transactional outbox.  A
    dispatcher leases due events and publishes them; a consumer claims an event,
    runs the effect under a lease with heartbeats, and completes it.  The effect
    of [chunk.ready] runs the send worker: it asks the router for a vendor,
    takes a token of the vendor's bucket, claims the chunk, starts an attempt,
    calls the vendor and finalizes the attempt; a contractual rejection moves
    the chunk to the next vendor.  A recovery job settles attempts whose worker
    disappeared.  The payloads the vendor delivers are stored raw, parsed under
    a lease, and their reports projected onto the messages and the counters of
    the batches; reports that never come are expired by sweeps.  What an
    application is to be told is queued as callback tasks, which a worker signs
    and delivers.

    ** Files

    Foundations.
    - [Prelude]: results and exceptions, state-passing transactions, symbolic
      execution of monadic code, reasoning about effects ([within], [returns],
      [raises]), list lemmas, tactics and hint databases.
    - [PyText], [Utf8], [PyTime]: Python [str] as code points, character
      classes, decimal printing, regular expressions by derivatives, scanning
      for phone numbers; encoding; the calendar.
    - [Redis]: the Redis commands of the Lua scripts, scripts as programs over
      the key space, expiry.
    - [Effects]: programs over calls to collaborators, as a free monad with
      exceptions; their traces and a weakest precondition over a monitor.

    Decisions.
    - [Billing], [Category]: [services/billing.py], [services/category.py].
    - [VendorCodes], [Routing], [Failover]: [vendor/codes.py],
      [vendor/routing.py], [vendor/failover.py].

    Outbox.
    - [OutboxContract], [Outbox]: [services/outbox.py],
      [services/outbox_repository.py] and the sender of manual jobs
      ([services/ops_dispatch.py]); every repository method as a transaction,
      and a step relation of all of them in any order.

    Sending.
    - [SendState], [SendStore]: the rows and the transactions of
      [tasks/send_repository.py] and its mixins, [services/send_locks.py],
      [services/vendor_test_budget.py] and [services/reconcile_repository.py].
    - [SendSafety], [SendFinalize], [SendBudget]: the theorems about these
      transactions in any interleaving.
    - [SendWorker], [WorkerSafety]: [SendWorker] of [tasks/send.py] as a program
      over the calls it makes, and what holds of every run.
    - [SendSystem], [SystemSafety]: any number of workers and the recovery jobs
      on one database.

    Admission.
    - [TokenBucket], [AppRateLimit], [CostWindow]: [core/ratelimit.py] and the
      scripts of [services/app_ratelimit.py].
    - [Cutover], [CutoverSafety], [CutoverRun]:
      [services/app_ratelimit_cutover.py].
    - [Inflight], [InflightSafety], [InflightLaws]: [services/send_inflight.py]
      with the triggers of its two tables.
    - [ResendSource], [IdempotencyStore], [IdempotencySafety], [Idempotency]:
      the proofs of source of a resend and the insertion of a batch
      ([services/pipeline_repository.py], [services/resend_supplement_commit.py],
      [services/uncertain_resolution.py]), claims and results
      ([services/idempotency_*.py]) and the coordinator
      ([services/idempotency.py]).
    - [UsageStore], [UsageFrequency], [UsageSafety], [UsageLedger],
      [UsageDecision], [UsageMerge]: the ledger of [services/usage_ledger*.py]
      in PostgreSQL; [UsageRedis], [UsageVersions], [UsageProjected]: its
      projection to Redis; [UsageService], [UsageRebuild]: the service over both.

    Reports.
    - [ReportStore], [ReportSafety], [ReportCounts]: the transactions of
      [services/report_repository.py] and their laws.
    - [Crypto], [CryptoSafety]: [services/crypto.py].
    - [ReportParse], [ReportKey], [ReportIngest], [ReportSweep]: the parser, the
      event keys, the ingestion of a payload ([services/report_ingest.py]) and
      the sweep of overdue reports ([services/report_timeout.py]).
    - [RawLog], [RawSafety], [RawReplay]: the stored payloads, their leases and
      their replay ([services/raw_*.py]).

    Callbacks.
    - [Callbacks], [CallbackSafety]: the transactions of
      [services/callback_repository.py], [services/callback_authority.py] and
      [services/callback_batch_event.py].
    - [CallbackDelivery], [CallbackWorker]: bodies, signature, delivery and
      transport of [services/callback.py], and [services/callback_worker.py].

    ** What the theorems show

    - Sending: of all calls launched for a chunk by any number of workers at
      most one is not answered with an error code ([one_unresolved_call]); a
      chunk with an attempt that is submitted, uncertain or inconsistent is
      never authorized again ([never_resent]); a run of the worker calls the
      vendor only under its own fresh authorization and not again after an
      unknown outcome ([called_once]), and what it records of an attempt is what
      the vendor answered since its authorization ([settled_truthfully]).
    - Finalizing: atomic ([finalize_atomic]), idempotent
      ([finalize_idempotent]), and the only door to another vendor
      ([failover_after_rejection]); a chain of rejections ends
      ([rejection_chain_exhausts]).
    - Capacity: the in-flight balance is the sum of its reservations
      ([inflight_conserved]), a reservation is given back once
      ([released_once]), a drifted balance comes back ([reconcile_converges]);
      the live-test ledger is exact and bounded ([live_test_budget]).
    - Rates: the token bucket grants no more than its capacity
      ([bucket_bound], [second_bound]) while the clock is not set back behind
      an expired bucket, and keeps the realtime reservation
      ([reservation_kept]); the two windows of an application are exact
      ([sliding_window_exact], [cost_window_exact]), and the change from one
      cost counter to the next leaves no gap ([cutover_window]).
    - Idempotency: a business key has one result, which goes only when it has
      expired and nothing of its batch is open ([one_result_per_key]); a claim
      commits at most one batch ([claim_commits_once]); the coordinator reports
      only what the database confirmed ([coordinator_confirmed]).
    - Usage: quota and frequency are decided on exact ledgers
      ([quota_ledger_exact], [quota_decision], [frequency_decision],
      [frequency_merge]), Redis never shows a wrong sum under a current version
      ([projection_faithful]), and a rebuild is complete ([rebuild_complete]).
    - Reports: they converge in any order ([reports_converge]), the counters of
      a batch are exact ([batch_counters_exact]), none is lost
      ([reports_not_lost]), a sweep does not claim more than it saw
      ([sweep_honest]), event keys survive a rotation ([event_key_stable]).
    - Stored fields: what one key ring reads its successors read
      ([rotation_transparent], [packed_round_trip]), and a ciphertext belongs to
      its context ([bound_to_context]).
    - Stored payloads: a lost lease never writes ([raw_fencing]), a replay is
      guarded ([replay_guarded]).
    - Callbacks: a confirmed authority fixes the configuration
      ([callback_authority]), a lost lease never writes ([callback_fencing]),
      a report is told once ([report_told_once]), a summary is frozen
      ([summary_frozen]); a delivery is posted only under a confirmed authority,
      which is given back ([delivery_guarded]), each address is offered the
      request once ([post_offered_once]), and retries are bounded and spaced
      ([retries_bounded], [retry_waits]).
    - Outbox: well-formed in every reachable state ([reachable_wf]), a completed
      event is not run ([run_once]), and the contract of manual jobs against
      the constraint of the table is decided exactly ([manual_job_decided]).
    - Decisions: the bill is minimal ([segments_minimal]); the router, the
      follow-up of an error code and the dispatch time of marketing messages are
      characterised exactly.

    ** Conventions, bounds and parameters

    Times are integers: microseconds for [datetime], milliseconds in Redis.
    Database sequences are counters; a violated constraint raises
    [IntegrityError] and rolls the transaction back.  A read before the locks of
    its transaction takes the database it saw as an argument, any earlier one in
    the theorems.  Python integers are unbounded; the 64-bit columns and the
    doubles of Lua are kept inside their exact range by the checks of the code.
    Durations the code holds as floating-point seconds are exact numbers of
    milliseconds.  [except Exception] lets cancellations pass ([is_exception]).
    Digests, ciphers, clocks, identifiers and the answers of the vendor, of
    Redis and of HTTP servers are arguments or quantified; AES-GCM and HMAC come
    with the laws of [CipherLaws], which an example instance satisfies.  Ghost
    logs record rows and calls, never a decision of the code.  Fuel: [rounds]
    for the wait of the worker for a token, after which the task is cancelled,
    and [depth] for nested submissions, beyond which Python raises
    [RecursionError], are arbitrary in the theorems; the loop over the pages of
    a rebuild is proved independent of its fuel beyond one page per row.

    ** Not modelled

    The HTTP routes, settings, migrations, deployment scripts and the browser
    client, which only carry data in and out; the vendor's HTTP client and TLS;
    templates, signs, approvals, imports, exports, accounts and dashboards,
    which are administration around the modelled tables; the planning of a batch
    into chunks, whose result is the initial state of the send model; the
    smoothed admission gate; the spill files on disk and the timers of
    heartbeats. *)

From stdpp Require Export base list gmap strings sets.
From Stdlib Require Export ZArith Lia.

#[global] Open Scope Z_scope.

(** ** Results: a Python call either returns a value or raises. *)

Inductive result (E A : Type) : Type :=
| Ok (a : A)
| Raise (e : E).
Arguments Ok {E A} a.
Arguments Raise {E A} e.

#[export] Instance result_ret E : MRet (result E) := fun A a => Ok a.
#[export] Instance result_bind E : MBind (result E) :=
  fun A B f r => match r with Ok a => f a | Raise e => Raise e end.
#[export] Instance result_fmap E : FMap (result E) :=
  fun A B f r => match r with Ok a => Ok (f a) | Raise e => Raise e end.

(** [require b e] is the statement [if not b: raise e]. *)
Definition require {E} (b : bool) (e : E) : result E unit :=
  if b then Ok tt else Raise e.

(** [refuse b e] is the statement [if b: raise e]. *)
Definition refuse {E} (b : bool) (e : E) : result E unit :=
  if b then Raise e else Ok tt.

(** ** Stateful code: explicit state passing with exceptions.  A computation
    that raises has no final state: its caller decides what survives. *)

Definition stex (S E A : Type) : Type := S -> result E (A * S).

#[export] Instance stex_ret S E : MRet (stex S E) := fun A a s => Ok (a, s).
#[export] Instance stex_bind S E : MBind (stex S E) :=
  fun A B f m s => match m s with
                   | Ok (a, s') => f a s'
                   | Raise e => Raise e
                   end.

Definition get {S E} : stex S E S := fun s => Ok (s, s).
Definition put {S E} (s' : S) : stex S E unit := fun _ => Ok (tt, s').
Definition modify {S E} (f : S -> S) : stex S E unit := fun s => Ok (tt, f s).
Definition throw {S E A} (e : E) : stex S E A := fun _ => Raise e.
Definition lift {S E A} (r : result E A) : stex S E A :=
  fun s => match r with Ok a => Ok (a, s) | Raise e => Raise e end.

(** A database transaction ([async with engine.begin()]): an exception rolls
    every write back. *)
Definition transaction {S E A} (m : stex S E A) (s : S) : result E A * S :=
  match m s with
  | Ok (a, s') => (Ok a, s')
  | Raise e => (Raise e, s)
  end.

(** ** Lemmas on results *)

Lemma require_ok {E} (b : bool) (e : E) u : require b e = Ok u <-> b = true.
Proof. destruct b, u; simpl; split; congruence. Qed.

Lemma require_raise {E} (b : bool) (e e' : E) :
  require b e = Raise e' <-> b = false /\ e' = e.
Proof. destruct b; simpl; naive_solver. Qed.

Lemma refuse_ok {E} (b : bool) (e : E) u : refuse b e = Ok u <-> b = false.
Proof. destruct b, u; simpl; split; congruence. Qed.

Lemma bind_ok {E A B} (r : result E A) (f : A -> result E B) b :
  r ≫= f = Ok b <-> exists a, r = Ok a /\ f a = Ok b.
Proof. destruct r; simpl; naive_solver. Qed.

Lemma bind_raise {E A B} (r : result E A) (f : A -> result E B) e :
  r ≫= f = Raise e <-> r = Raise e \/ exists a, r = Ok a /\ f a = Raise e.
Proof. destruct r; simpl; naive_solver. Qed.

Lemma stex_bind_ok {S E A B} (m : stex S E A) (f : A -> stex S E B) s b s'' :
  (m ≫= f) s = Ok (b, s'') <-> exists a s', m s = Ok (a, s') /\ f a s' = Ok (b, s'').
Proof.
  unfold mbind, stex_bind. destruct (m s) as [[a s']|e]; naive_solver.
Qed.

(** ** Booleans and decisions *)

Lemma bool_decide_true_iff (P : Prop) `{Decision P} : bool_decide P = true <-> P.
Proof. apply bool_decide_eq_true. Qed.

Lemma bool_decide_false_iff (P : Prop) `{Decision P} : bool_decide P = false <-> ~ P.
Proof. apply bool_decide_eq_false. Qed.

(** Boolean tests of the code in hypotheses and goal become propositions. *)
Ltac bool_prop :=
  repeat match goal with
  | H : (_ && _) = true |- _ => apply andb_true_iff in H as [? ?]
  | H : (_ || _) = false |- _ => apply orb_false_iff in H as [? ?]
  | H : (_ || _) = true |- _ => apply orb_true_iff in H
  | H : (_ && _) = false |- _ => apply andb_false_iff in H
  | H : negb _ = true |- _ => apply negb_true_iff in H
  | H : negb _ = false |- _ => apply negb_false_iff in H
  | H : bool_decide _ = true |- _ => apply bool_decide_true_iff in H
  | H : bool_decide _ = false |- _ => apply bool_decide_false_iff in H
  | H : (_ <? _) = true |- _ => apply Z.ltb_lt in H
  | H : (_ <? _) = false |- _ => apply Z.ltb_ge in H
  | H : (_ <=? _) = true |- _ => apply Z.leb_le in H
  | H : (_ <=? _) = false |- _ => apply Z.leb_gt in H
  | H : (_ =? _) = true |- _ => apply Z.eqb_eq in H
  | H : (_ =? _) = false |- _ => apply Z.eqb_neq in H
  end.

(** One step of symbolic execution of monadic code known to have returned. *)
Ltac exec_step :=
  match goal with
  | H : Ok _ = Ok _ |- _ => injection H as H; try subst
  | H : Raise _ = Ok _ |- _ => discriminate H
  | H : Ok _ = Raise _ |- _ => discriminate H
  | H : require _ _ = Ok _ |- _ => apply require_ok in H
  | H : refuse _ _ = Ok _ |- _ => apply refuse_ok in H
  | H : mbind (M:=result _) _ _ = Ok _ |- _ => apply bind_ok in H as (? & ? & ?)
  | H : context [match ?x with _ => _ end] |- _ =>
      lazymatch x with
      | context [match _ with _ => _ end] => fail
      | _ => destruct x eqn:?
      end
  end.

Ltac exec := repeat (exec_step; simpl in *; try congruence).

Lemma stex_lift_ok {S E A} (r : result E A) (s : S) x s' :
  lift r s = Ok (x, s') -> r = Ok x /\ s' = s.
Proof. unfold lift. destruct r; [|done]. by intros [= <- <-]. Qed.

(** The same for a transaction: what a statement that returned has done. *)
Ltac stx_step :=
  match goal with
  | H : mbind (M:=?M) _ _ _ = Ok _ |- _ =>
      apply stex_bind_ok in H as (? & ? & ? & H); cbv beta zeta in H
  | H : lift _ _ = Ok _ |- _ => apply stex_lift_ok in H as [? ->]
  | H : get _ = Ok _ |- _ => injection H as <- <-
  | H : mret _ _ = Ok _ |- _ => first [injection H as <- <- | injection H as <-]
  | H : modify _ _ = Ok _ |- _ => first [injection H as <- <- | injection H as <-]
  | H : throw _ _ = Ok _ |- _ => discriminate H
  | H : require _ _ = Ok _ |- _ => apply require_ok in H
  | H : refuse _ _ = Ok _ |- _ => apply refuse_ok in H
  | x : unit |- _ => destruct x
  end.
Ltac stx := repeat stx_step.

(** ** Lists *)

Definition last_opt {A} (l : list A) : option A := last l.

Lemma last_opt_in {A} (l : list A) x : last_opt l = Some x -> x ∈ l.
Proof.
  unfold last_opt. intros H. apply last_Some in H as [l' ->]. set_solver.
Qed.

Lemma filter_in {A} (f : A -> bool) l x : x ∈ List.filter f l <-> x ∈ l /\ f x = true.
Proof. by rewrite !list_elem_of_In, List.filter_In. Qed.

Lemma filter_sublist {A} (f : A -> bool) l : List.filter f l `sublist_of` l.
Proof. induction l as [|x l IH]; simpl; [done|]. destruct (f x); by constructor. Qed.

Lemma filter_all {A} (f : A -> bool) l :
  Forall (fun x => f x = true) l -> List.filter f l = l.
Proof. induction 1 as [|x l H _ IH]; simpl; [done|]. by rewrite H, IH. Qed.

(** The head of a filter is the first element that satisfies the test. *)
Lemma filter_cons_inv {A} (f : A -> bool) l x xs :
  List.filter f l = x :: xs ->
  exists pre post, l = pre ++ x :: post /\ f x = true /\ Forall (fun y => f y = false) pre /\
    xs = List.filter f post.
Proof.
  induction l as [|y l IH]; simpl; [done|]. destruct (f y) eqn:F.
  - intros [= -> <-]. by exists [], l.
  - intros (pre & post & -> & ? & ? & ?)%IH. exists (y :: pre), post. auto.
Qed.

Lemma filter_first {A} (f : A -> bool) pre x post :
  f x = true -> Forall (fun y => f y = false) pre ->
  List.filter f (pre ++ x :: post) = x :: List.filter f post.
Proof.
  intros Hx. induction 1 as [|y pre Hy _ IH]; simpl; [by rewrite Hx | by rewrite Hy].
Qed.

Lemma filter_nil_iff {A} (f : A -> bool) l :
  List.filter f l = [] <-> Forall (fun y => f y = false) l.
Proof.
  induction l as [|y l IH]; simpl; [by split|]. rewrite Forall_cons.
  destruct (f y) eqn:F; naive_solver.
Qed.

(** The cases of membership in an explicit list. *)
Ltac elem_inv H :=
  repeat first [ apply elem_of_cons in H as [H|H] | by apply not_elem_of_nil in H ].

Definition sumZ (l : list Z) : Z := foldr Z.add 0 l.

Lemma sumZ_app l1 l2 : sumZ (l1 ++ l2) = sumZ l1 + sumZ l2.
Proof. induction l1; simpl; lia. Qed.

Lemma nodup_key {A B} (f : A -> B) l x y : NoDup (f <$> l) -> x ∈ l -> y ∈ l -> f x = f y -> x = y.
Proof.
  intros N [i X]%list_elem_of_lookup [j Y]%list_elem_of_lookup E.
  assert (i = j) as ->; [|congruence].
  apply (NoDup_lookup (f <$> l) i j (f x) N); rewrite list_lookup_fmap; [by rewrite X | by rewrite Y, E].
Qed.

Lemma sumZ_perm l l' : l ≡ₚ l' -> sumZ l = sumZ l'.
Proof. induction 1; simpl; lia. Qed.

Lemma sumZ_nonneg l : Forall (fun x => 0 <= x) l -> 0 <= sumZ l.
Proof. induction 1; simpl; lia. Qed.

(** ** Reachability: the reflexive-transitive closure used for step relations
    is stdpp's [rtc]; an invariant of every step holds of every reachable
    state. *)

Lemma rtc_invariant {S} (step : S -> S -> Prop) (I : S -> Prop) :
  (forall s s', I s -> step s s' -> I s') ->
  forall s s', rtc step s s' -> I s -> I s'.
Proof. intros Hstep s s' Hr. induction Hr; eauto. Qed.

(** ** Computations whose effect on the state stays within a relation *)

Definition within {S E A} (R : relation S) (m : stex S E A) : Prop :=
  forall s x s', m s = Ok (x, s') -> R s s'.

Section Within.
Context {S E : Type} (R : relation S) `{!PreOrder R}.

Lemma within_ret {A} (x : A) : within (E:=E) R (mret x).
Proof. intros s y s' [= <- <-]. reflexivity. Qed.

Lemma within_get : within (E:=E) R get.
Proof. intros s y s' [= <- <-]. reflexivity. Qed.

Lemma within_throw {A} (e : E) : within (A:=A) R (throw e).
Proof. intros s y s'. discriminate. Qed.

Lemma within_lift {A} (r : result E A) : within R (lift r).
Proof. intros s y s'. destruct r; [|done]. intros [= <- <-]. reflexivity. Qed.

Lemma within_bind {A B} (m : stex S E A) (f : A -> stex S E B) :
  within R m -> (forall x, within R (f x)) -> within R (m ≫= f).
Proof.
  intros Hm Hf s y s' (x & s1 & H1 & H2)%stex_bind_ok.
  transitivity s1; [by eapply Hm | by eapply Hf].
Qed.

Lemma within_modify (f : S -> S) : (forall s, R s (f s)) -> within (E:=E) R (modify f).
Proof. intros H s y s' [= <- <-]. apply H. Qed.

Lemma within_transaction {A} (m : stex S E A) s : within R m -> R s (snd (transaction m s)).
Proof.
  intros M. unfold transaction. destruct (m s) as [[x s']|e] eqn:H; simpl; [|reflexivity].
  by eapply M.
Qed.

End Within.

Create HintDb within.
#[export] Hint Extern 1 (within _ (mret _)) => apply within_ret; apply _ : within.
#[export] Hint Extern 1 (within _ get) => apply within_get; apply _ : within.
#[export] Hint Extern 1 (within _ (throw _)) => apply within_throw : within.
#[export] Hint Extern 1 (within _ (lift _)) => apply within_lift; apply _ : within.

(** A transaction is a composition of statements and case distinctions. *)
Ltac within_tac :=
  repeat first
    [ solve [eauto 2 with within]
    | apply within_bind; [apply _| |intros ?]
    | case_match ].

(** What a computation returns, whatever its effects. *)
Definition returns {S E A} (Q : A -> Prop) (m : stex S E A) : Prop :=
  forall s x s', m s = Ok (x, s') -> Q x.

Lemma returns_ret {S E A} (Q : A -> Prop) (x : A) : Q x -> returns (S:=S) (E:=E) Q (mret x).
Proof. intros H s y s' [= <- <-]. done. Qed.

Lemma returns_bind {S E A B} (Q : B -> Prop) (m : stex S E A) (f : A -> stex S E B) :
  (forall x, returns Q (f x)) -> returns Q (m ≫= f).
Proof. intros Hf s y s' (x & s1 & H1 & H2)%stex_bind_ok. by eapply Hf. Qed.

Ltac returns_tac :=
  repeat first [ apply returns_bind; intros ? | apply returns_ret; done | case_match ].

(** What a computation raises. *)
Definition raises {S E A} (Q : E -> Prop) (m : stex S E A) : Prop :=
  forall s e, m s = Raise e -> Q e.

Lemma raises_ret {S E A} (Q : E -> Prop) (x : A) : raises (S:=S) Q (mret x).
Proof. intros s e. discriminate. Qed.

Lemma raises_throw {S E A} (Q : E -> Prop) (e : E) : Q e -> raises (S:=S) (A:=A) Q (throw e).
Proof. by intros H s e' [= <-]. Qed.

Lemma raises_bind {S E A B} (Q : E -> Prop) (m : stex S E A) (f : A -> stex S E B) :
  raises Q m -> (forall x, raises Q (f x)) -> raises Q (m ≫= f).
Proof.
  intros Hm Hf s e H. unfold mbind, stex_bind in H.
  destruct (m s) as [[x s1]|e'] eqn:M; [by eapply Hf|]. injection H as <-. by eapply Hm.
Qed.

Ltac raises_tac :=
  repeat first
    [ solve [eauto 2 with raises]
    | apply raises_ret
    | apply raises_throw; done
    | apply raises_bind; [|intros ?]
    | case_match ].
Create HintDb raises.

(** ** The hint database of the development *)

Create HintDb sms.
Create Rewrite HintDb sms.
#[export] Hint Resolve sumZ_nonneg last_opt_in : sms.
#[export] Hint Rewrite sumZ_app : sms.
