(* ===== verification/PyText.v ===== *)
(** * Python strings

    A Python [str] is a sequence of Unicode code points: [text] is [list Z].
    The file holds what the sources use of [str] and [re]: literals, [len],
    [strip], [isdecimal], [int], the digit class of [re], and a matcher for
    the regular expressions the code gives to [fullmatch]. *)

From S2P Require Import Prelude.

Abbreviation text := (list Z).

(** [tx "abc"] is the literal ["abc"]. *)
Fixpoint tx (s : string) : text :=
  match s with
  | EmptyString => []
  | String a s' => Z.of_nat (Ascii.nat_of_ascii a) :: tx s'
  end.

Arguments tx _ : simpl never.

(** A raised exception: its class and its message. *)
Inductive exc := Exc (cls msg : text).
Definition ValueError (msg : string) : exc := Exc (tx "ValueError") (tx msg).
Definition RuntimeError (msg : string) : exc := Exc (tx "RuntimeError") (tx msg).
Definition LookupError (msg : string) : exc := Exc (tx "LookupError") (tx msg).

(** [utx "..."] is a literal with non-ASCII characters: the bytes of the
    source file are decoded as UTF-8. *)
Fixpoint utf8_decode (bs : text) : text :=
  match bs with
  | [] => []
  | a :: bs1 =>
      if a <? 128 then a :: utf8_decode bs1 else
      match bs1 with
      | [] => []
      | b :: bs2 =>
          if a <? 224 then ((a - 192) * 64 + (b - 128)) :: utf8_decode bs2 else
          match bs2 with
          | [] => []
          | c :: bs3 =>
              if a <? 240
              then ((a - 224) * 4096 + (b - 128) * 64 + (c - 128)) :: utf8_decode bs3 else
              match bs3 with
              | [] => []
              | d :: bs4 =>
                  ((a - 240) * 262144 + (b - 128) * 4096 + (c - 128) * 64 + (d - 128))
                    :: utf8_decode bs4
              end
          end
      end
  end.

Definition utx (s : string) : text := utf8_decode (tx s).
Arguments utx _ : simpl never.

Definition teqb (a b : text) : bool := bool_decide (a = b).

Definition len (s : text) : Z := Z.of_nat (length s).

(** [value in {"a", "b"}] *)
Definition tmem (a : text) (l : list text) : bool := bool_decide (a ∈ l).

(** Every class but the ones that do not derive from [Exception]. *)
Definition is_exception (e : exc) : bool :=
  let 'Exc cls _ := e in
  negb (tmem cls [tx "CancelledError"; tx "KeyboardInterrupt"; tx "SystemExit"; tx "GeneratorExit"]).

(** ** Character classes of Unicode 15.0 (Python 3.12) *)

(** The zeros of the 68 decimal-digit blocks (general category Nd); each block
    is ten consecutive code points. *)
Definition decimal_zeros : list Z :=
  [48; 1632; 1776; 1984; 2406; 2534; 2662; 2790; 2918; 3046; 3174; 3302; 3430;
   3558; 3664; 3792; 3872; 4160; 4240; 6112; 6160; 6470; 6608; 6784; 6800; 6992;
   7088; 7232; 7248; 42528; 43216; 43264; 43472; 43504; 43600; 44016; 65296;
   66720; 68912; 69734; 69872; 69942; 70096; 70384; 70736; 70864; 71248; 71360;
   71472; 71904; 72016; 72784; 73040; 73120; 73552; 92768; 92864; 93008; 120782;
   120792; 120802; 120812; 120822; 123200; 123632; 124144; 125264; 130032].

(** The digit value of a code point, [None] when it is not in Nd. *)
Definition digit_value (c : Z) : option Z :=
  (fun z => c - z) <$> List.find (fun z => (z <=? c) && (c <=? z + 9)) decimal_zeros.

(** [\d] of a [str] pattern, and [str.isdecimal] on one character. *)
Definition is_digit (c : Z) : bool :=
  match digit_value c with Some _ => true | None => false end.

(** [str.isspace] on one character, what [str.strip] removes. *)
Definition is_space (c : Z) : bool :=
  bool_decide (c ∈ [9; 10; 11; 12; 13; 28; 29; 30; 31; 32; 133; 160; 5760; 8192;
                    8193; 8194; 8195; 8196; 8197; 8198; 8199; 8200; 8201; 8202;
                    8232; 8233; 8239; 8287; 12288]).

Fixpoint drop_while (f : Z -> bool) (s : text) : text :=
  match s with
  | [] => []
  | c :: s' => if f c then drop_while f s' else s
  end.

(** [s.strip()] *)
Definition strip (s : text) : text :=
  reverse (drop_while is_space (reverse (drop_while is_space s))).

(** SQL [trim(s)]: spaces at both ends. *)
Definition sql_trim (s : text) : text :=
  reverse (drop_while (Z.eqb 32) (reverse (drop_while (Z.eqb 32) s))).

(** [s.isdecimal()]: false on the empty string. *)
Definition isdecimal (s : text) : bool :=
  match s with [] => false | _ => forallb is_digit s end.

(** [int(s)] on a string of decimal digits. *)
Definition int_of (s : text) : Z :=
  foldl (fun acc c => acc * 10 + default 0 (digit_value c)) 0 s.

(** [int(s)]: surrounding spaces, a sign, decimal digits of any script with
    single underscores between them, at most 4300 digits; [None] where it raises
    [ValueError]. *)
Fixpoint int_digits (after_digit : bool) (count acc : Z) (s : text) : option Z :=
  match s with
  | [] => if after_digit && (count <=? 4300) then Some acc else None
  | c :: s' =>
      match digit_value c with
      | Some d => int_digits true (count + 1) (acc * 10 + d) s'
      | None => if after_digit && (c =? 95) then int_digits false count acc s' else None
      end
  end.
Definition py_int (s : text) : option Z :=
  match strip s with
  | 43 :: r => int_digits false 0 0 r
  | 45 :: r => Z.opp <$> int_digits false 0 0 r
  | r => int_digits false 0 0 r
  end.

(** [str(n)] and [f"{n}"] of a natural number, most significant digit first. *)
Fixpoint dec_digits (fuel : nat) (n : Z) (acc : text) : text :=
  match fuel with
  | O => acc
  | S f => let acc' := (48 + n mod 10) :: acc in
           if n <? 10 then acc' else dec_digits f (n / 10) acc'
  end.

(** Every decimal digit consumes more than three bits: the bit length is
    enough fuel. *)
Definition str_nat (n : Z) : text := dec_digits (S (Z.to_nat (Z.log2 n))) n [].

Definition str_int (n : Z) : text :=
  if n <? 0 then 45 :: str_nat (- n) else str_nat n.

Fixpoint starts_with (p s : text) : bool :=
  match p, s with
  | [], _ => true
  | a :: p', b :: s' => (a =? b) && starts_with p' s'
  | _ :: _, [] => false
  end.

(** [s.removeprefix(p)] *)
Definition remove_prefix (p s : text) : text :=
  if starts_with p s then drop (length p) s else s.

(** [c in s] for a one-character string. *)
Definition contains (c : Z) (s : text) : bool := bool_decide (c ∈ s).

(** [s.partition(c)] for a one-character separator: the part before the first
    [c], whether [c] occurs, and the part after it. *)
Fixpoint partition (c : Z) (s : text) : text * bool * text :=
  match s with
  | [] => ([], false, [])
  | x :: s' => if x =? c then ([], true, s')
               else let '(a, b, r) := partition c s' in (x :: a, b, r)
  end.

(** [s.rsplit(c, 1)[-1]]: what follows the last [c], the whole string when
    there is none. *)
Definition after_last (c : Z) (s : text) : text :=
  reverse ((partition c (reverse s)).1.1).

(** ** Regular expressions for [fullmatch], by derivatives *)

Inductive regex :=
| RNone
| REps
| RClass (f : Z -> bool)
| RCat (a b : regex)
| RAlt (a b : regex)
| RStar (a : regex).

Fixpoint nullable (r : regex) : bool :=
  match r with
  | RNone | RClass _ => false
  | REps | RStar _ => true
  | RCat a b => nullable a && nullable b
  | RAlt a b => nullable a || nullable b
  end.

Fixpoint deriv (c : Z) (r : regex) : regex :=
  match r with
  | RNone | REps => RNone
  | RClass f => if f c then REps else RNone
  | RCat a b => if nullable a then RAlt (RCat (deriv c a) b) (deriv c b)
                else RCat (deriv c a) b
  | RAlt a b => RAlt (deriv c a) (deriv c b)
  | RStar a => RCat (deriv c a) (RStar a)
  end.

(** [re.compile(r).fullmatch(s) is not None] *)
Definition fullmatch (r : regex) (s : text) : bool :=
  nullable (fold_left (fun r c => deriv c r) s r).

(** A literal, [r{n}], [r{0,n}], [r*]. *)
Definition rlit (s : string) : regex :=
  foldr (fun c r => RCat (RClass (Z.eqb c)) r) REps (tx s).
Fixpoint rrep (n : nat) (r : regex) : regex :=
  match n with O => REps | S n' => RCat r (rrep n' r) end.
Fixpoint rupto (n : nat) (r : regex) : regex :=
  match n with O => REps | S n' => RAlt REps (RCat r (rupto n' r)) end.
Definition rseq (l : list regex) : regex := foldr RCat REps l.
Definition ralts (l : list regex) : regex := foldr RAlt RNone l.
Definition between (lo hi : Z) (c : Z) : bool := (lo <=? c) && (c <=? hi).
Definition ascii_lower (c : Z) : bool := between 97 122 c.
Definition ascii_upper (c : Z) : bool := between 65 90 c.
Definition ascii_digit (c : Z) : bool := between 48 57 c.
Definition ascii_hex (c : Z) : bool := ascii_digit c || between 97 102 c.
(** [[0-9a-f]{n}] *)
Definition rhex (n : nat) : regex := rrep n (RClass ascii_hex).
(** [[1-9][0-9]*] *)
Definition rposnum : regex := RCat (RClass (between 49 57)) (RStar (RClass ascii_digit)).

(** The language a regular expression denotes. *)
Inductive lang : regex -> text -> Prop :=
| lang_eps : lang REps []
| lang_class f c : f c = true -> lang (RClass f) [c]
| lang_cat a b s t : lang a s -> lang b t -> lang (RCat a b) (s ++ t)
| lang_alt_l a b s : lang a s -> lang (RAlt a b) s
| lang_alt_r a b s : lang b s -> lang (RAlt a b) s
| lang_star_nil a : lang (RStar a) []
| lang_star_cons a s t : lang a s -> lang (RStar a) t -> lang (RStar a) (s ++ t).

(** ** Lemmas *)

Lemma teqb_spec a b : teqb a b = true <-> a = b.
Proof. apply bool_decide_true_iff. Qed.

Lemma teqb_refl a : teqb a a = true.
Proof. by apply teqb_spec. Qed.

Lemma teqb_false a b : teqb a b = false <-> a <> b.
Proof. apply bool_decide_false_iff. Qed.

Lemma tmem_spec a l : tmem a l = true <-> a ∈ l.
Proof. apply bool_decide_true_iff. Qed.

Lemma len_nonneg s : 0 <= len s.
Proof. unfold len; lia. Qed.

Lemma len_app s t : len (s ++ t) = len s + len t.
Proof. unfold len. rewrite length_app. lia. Qed.

Lemma digit_value_range c d : digit_value c = Some d -> 0 <= d <= 9.
Proof.
  unfold digit_value. destruct (List.find _ _) as [z|] eqn:F; [|done]. simpl.
  intros [= <-]. apply List.find_some in F as [_ F]. bool_prop. lia.
Qed.

Lemma starts_with_spec p s : starts_with p s = true <-> exists r, s = p ++ r.
Proof.
  revert s. induction p as [|a p IH]; intros s; simpl; [naive_solver|].
  destruct s as [|b s]; [split; [done|intros (r & ?); done]|].
  rewrite andb_true_iff, Z.eqb_eq, IH. split.
  - intros (-> & r & ->). by exists r.
  - intros (r & [= -> ->]). eauto.
Qed.

Lemma remove_prefix_app p s : remove_prefix p (p ++ s) = s.
Proof.
  unfold remove_prefix. assert (starts_with p (p ++ s) = true) as ->.
  { apply starts_with_spec. eauto. }
  by rewrite drop_app_length.
Qed.

Lemma partition_app c s t :
  c ∉ s -> partition c (s ++ c :: t) = (s, true, t).
Proof.
  induction s as [|x s IH]; intros H; simpl; [by rewrite Z.eqb_refl|].
  apply not_elem_of_cons in H as [Hx H]. rewrite (IH H).
  destruct (Z.eqb_spec x c); congruence.
Qed.

Lemma nullable_spec r : nullable r = true <-> lang r [].
Proof.
  split.
  - induction r; simpl; intros H; try discriminate; bool_prop; try by constructor.
    + apply (lang_cat r1 r2 [] []); auto.
    + destruct H; [apply lang_alt_l | apply lang_alt_r]; auto.
  - remember [] as s. induction 1; simpl; try done; subst.
    + apply app_eq_nil in Heqs as [-> ->]. rewrite IHlang1, IHlang2; auto.
    + rewrite IHlang; auto.
    + rewrite IHlang; auto using orb_true_r.
Qed.

Lemma lang_star_inv a c s :
  lang (RStar a) (c :: s) ->
  exists t u, s = t ++ u /\ lang a (c :: t) /\ lang (RStar a) u.
Proof.
  remember (RStar a) as r eqn:Er. remember (c :: s) as w eqn:Ew.
  intros H. revert s Ew.
  induction H as [| | | | | |a' s1 s2 H1 _ H2 IH2]; intros w Ew; try done.
  injection Er as ->. destruct s1 as [|c' s1].
  - apply IH2; auto.
  - simpl in Ew. injection Ew as <- <-. eauto 6.
Qed.

Lemma deriv_spec c r s : lang (deriv c r) s <-> lang r (c :: s).
Proof.
  revert s. induction r as [| |f|a IHa b IHb|a IHa b IHb|a IHa]; intros s; simpl.
  - split; inversion 1.
  - split; inversion 1.
  - destruct (f c) eqn:Hf; split; inversion 1; subst; try congruence.
    + by constructor.
    + constructor.
  - assert (Hc : lang (RCat (deriv c a) b) s <->
                 exists t u, s = t ++ u /\ lang a (c :: t) /\ lang b u).
    { split.
      - inversion 1; subst. exists s0, t. rewrite <- IHa. auto.
      - intros (t & u & -> & Ht & Hu). constructor; [by apply IHa|done]. }
    assert (Hi : lang (RCat a b) (c :: s) <->
                 (exists t u, s = t ++ u /\ lang a (c :: t) /\ lang b u)
                 \/ (lang a [] /\ lang b (c :: s))).
    { split.
      - inversion 1; subst. destruct s0 as [|c' s0]; simpl in *; simplify_eq; eauto 8.
      - intros [(t & u & -> & Ht & Hu)|[Ha Hb]].
        + apply (lang_cat a b (c :: t) u); auto.
        + apply (lang_cat a b [] (c :: s)); auto. }
    rewrite Hi. destruct (nullable a) eqn:Hn.
    + apply nullable_spec in Hn. split.
      * inversion 1; subst; [left; by apply Hc | right; split; [done|by apply IHb]].
      * intros [H|[_ H]]; [apply lang_alt_l; by apply Hc | apply lang_alt_r; by apply IHb].
    + rewrite Hc. split; [auto|]. intros [H|[Ha _]]; [done|].
      apply nullable_spec in Ha. congruence.
  - split; inversion 1; subst; try (apply lang_alt_l; by apply IHa);
      apply lang_alt_r; by apply IHb.
  - split.
    + inversion 1; subst. apply (lang_star_cons a (c :: s0) t); [by apply IHa|done].
    + intros (t & u & -> & Ht & Hu)%lang_star_inv. constructor; [by apply IHa|done].
Qed.

(** The matcher decides the language of the expression. *)
Lemma fullmatch_spec r s : fullmatch r s = true <-> lang r s.
Proof.
  unfold fullmatch. revert r. induction s as [|c s IH]; intros r; simpl.
  - apply nullable_spec.
  - rewrite IH. apply deriv_spec.
Qed.

(** A class repeated. *)
Lemma lang_repeat n f s : lang (rrep n (RClass f)) s -> length s = n /\ forallb f s = true.
Proof.
  revert s. induction n as [|n IH]; intros s H; simpl in H; inversion H; subst; [done|].
  match goal with H : lang (RClass _) _ |- _ => inversion H; subst end.
  match goal with H : lang (rrep _ _) _ |- _ => apply IH in H as [<- H] end.
  simpl. split; [done|]. by apply andb_true_iff.
Qed.

#[export] Hint Resolve teqb_refl len_nonneg : sms.
#[export] Hint Rewrite len_app : sms.

(** ** Scanning: [findall] and [sub] *)

Section Scan.
Context {A : Type}.

(** A matcher at a position: the previous character (for a lookbehind) and
    the rest of the subject; a match gives a value and what follows it. *)
Variable m : option Z -> text -> option (A * text).

(** What was consumed before the tail [rest] of [s]: its last character. *)
Definition consumed_last (s rest : text) : option Z :=
  last (take (length s - length rest)%nat s).

(** Leftmost, non-overlapping matches from left to right: [inl] a match,
    [inr] a character that belongs to none. *)
Fixpoint scan_fuel (fuel : nat) (prev : option Z) (s : text) : list (A + Z) :=
  match fuel, s with
  | O, _ => []
  | _, [] => []
  | S f, c :: s' =>
      match m prev s with
      | Some (a, rest) => inl a :: scan_fuel f (consumed_last s rest) rest
      | None => inr c :: scan_fuel f (Some c) s'
      end
  end.

Definition scan (prev : option Z) (s : text) : list (A + Z) :=
  scan_fuel (length s) prev s.

(** [pattern.findall(s)] *)
Definition findall (s : text) : list A := omap (sum_rect _ Some (fun _ => None)) (scan None s).

(** [pattern.sub(f, s)] *)
Definition sub_pieces (f : A -> text) (ps : list (A + Z)) : text :=
  concat (map (fun p => match p with inl a => f a | inr c => [c] end) ps).

Definition sub (f : A -> text) (s : text) : text := sub_pieces f (scan None s).

(** [pattern.search] finds nothing in a text that follows [prev]. *)
Fixpoint no_match (prev : option Z) (s : text) : bool :=
  match s with
  | [] => match m prev [] with None => true | Some _ => false end
  | c :: s' => match m prev s with
               | None => no_match (Some c) s'
               | Some _ => false
               end
  end.

(** A match consumes at least one character. *)
Hypothesis m_progress : forall prev s a rest,
  m prev s = Some (a, rest) -> (length rest < length s)%nat.

Lemma scan_fuel_enough f1 f2 prev s :
  (length s <= f1)%nat -> (length s <= f2)%nat ->
  scan_fuel f1 prev s = scan_fuel f2 prev s.
Proof using m_progress.
  revert f2 prev s. induction f1 as [|f1 IH]; intros f2 prev s H1 H2.
  - destruct s; [|simpl in H1; lia]. by destruct f2.
  - destruct s as [|c s]; [by destruct f2|]. destruct f2 as [|f2]; [simpl in H2; lia|].
    simpl in *. destruct (m prev (c :: s)) as [[a rest]|] eqn:E.
    + apply m_progress in E. simpl in E. f_equal. apply IH; lia.
    + f_equal. apply IH; lia.
Qed.

Lemma scan_nil prev : scan prev [] = [].
Proof. done. Qed.

Lemma scan_match prev s a rest :
  m prev s = Some (a, rest) ->
  scan prev s = inl a :: scan (consumed_last s rest) rest.
Proof using m_progress.
  intros E. pose proof (m_progress _ _ _ _ E) as L. unfold scan.
  destruct s as [|c s]; [simpl in L; lia|]. simpl. rewrite E. f_equal.
  simpl in L. apply scan_fuel_enough; lia.
Qed.

Lemma scan_skip prev c s :
  m prev (c :: s) = None -> scan prev (c :: s) = inr c :: scan (Some c) s.
Proof. intros E. unfold scan. simpl. by rewrite E. Qed.

Lemma sub_pieces_app f p q : sub_pieces f (p ++ q) = sub_pieces f p ++ sub_pieces f q.
Proof. unfold sub_pieces. by rewrite map_app, concat_app. Qed.

End Scan.

Fixpoint take_while (f : Z -> bool) (s : text) : text :=
  match s with
  | [] => []
  | c :: s' => if f c then c :: take_while f s' else []
  end.

Lemma take_drop_while f s : take_while f s ++ drop_while f s = s.
Proof. induction s; simpl; [done|]. destruct (f a); simpl; congruence. Qed.

Lemma take_while_all f s : Forall (fun c => f c = true) (take_while f s).
Proof. induction s; simpl; [done|]. destruct (f a) eqn:?; by constructor. Qed.

Lemma drop_while_head f s c t : drop_while f s = c :: t -> f c = false.
Proof.
  induction s as [|a s IH]; simpl; [done|]. destruct (f a) eqn:?; [done|congruence].
Qed.

Lemma take_while_app f s c t :
  Forall (fun x => f x = true) s -> f c = false -> take_while f (s ++ c :: t) = s.
Proof. induction 1; simpl; intros; [by rewrite H|]. rewrite H. f_equal; auto. Qed.

Lemma drop_while_app f s c t :
  Forall (fun x => f x = true) s -> f c = false -> drop_while f (s ++ c :: t) = c :: t.
Proof. induction 1; simpl; intros; [by rewrite H|]. rewrite H. auto. Qed.

Lemma consumed_last_app c s rest : consumed_last (s ++ [c] ++ rest) rest = Some c.
Proof.
  unfold consumed_last. rewrite !length_app. simpl.
  replace (length s + S (length rest) - length rest)%nat with (length (s ++ [c]))
    by (rewrite length_app; simpl; lia).
  replace (s ++ c :: rest) with ((s ++ [c]) ++ rest) by (by rewrite <- app_assoc).
  by rewrite take_app_length, last_snoc.
Qed.

(** ** The mobile number pattern [(?<!\d)1\d{10}(?!\d)], for a digit class *)

Definition phone_at (dig : Z -> bool) (prev : option Z) (s : text) : option (text * text) :=
  if match prev with Some p => dig p | None => false end then None else
  match s with
  | c :: s' =>
      if (c =? 49) && (length (take 10 s') =? 10)%nat && forallb dig (take 10 s')
         && match drop 10 s' with d :: _ => negb (dig d) | [] => true end
      then Some (take 11 s, drop 11 s) else None
  | [] => None
  end.

(** [PHONE_IN_TEXT.search(s)] with Python's Unicode [\d], and the database's
    [s ~ '(^|[^0-9])1[0-9]{10}([^0-9]|$)']. *)
Definition phone_in_text (s : text) : bool := negb (no_match (phone_at is_digit) None s).
Definition phone_in_ascii (s : text) : bool := negb (no_match (phone_at ascii_digit) None s).
