(* ===== verification/Utf8.v ===== *)
(** * Texts and bytes

    UTF-8 as the codec of the standard library has it (strict: neither
    surrogates nor overlong forms), the hexadecimal digits of a byte, the
    escapes of a JSON string and base64.  A byte string is a list of numbers
    below 256.  The lemmas are the round trips the encodings of the program
    rest on. *)

From S2P Require Import Prelude PyText.

Abbreviation bytes := (list Z) (only parsing).
Definition is_byte (b : Z) : bool := between 0 255 b.

(** ** UTF-8 *)

Definition utf8_width (c : Z) : Z :=
  if c <? 128 then 1 else if c <? 2048 then 2 else if c <? 65536 then 3 else 4.
Definition surrogate (c : Z) : bool := (55296 <=? c) && (c <=? 57343).

(** The characters of a Python string. *)
Definition code_point (c : Z) : bool := between 0 1114111 c.

Definition utf8_char (c : Z) : bytes :=
  if c <? 128 then [c]
  else if c <? 2048 then [192 + c / 64; 128 + c mod 64]
  else if c <? 65536 then [224 + c / 4096; 128 + c / 64 mod 64; 128 + c mod 64]
  else [240 + c / 262144; 128 + c / 4096 mod 64; 128 + c / 64 mod 64; 128 + c mod 64].

(** [s.encode('utf-8')] *)
Definition utf8_encode (s : text) : result exc bytes :=
  if existsb surrogate s then Raise (Exc (tx "UnicodeEncodeError") (tx "surrogates not allowed"))
  else Ok (s ≫= utf8_char).

Definition continuation (b : Z) : bool := between 128 191 b.
Definition UnicodeDecodeError : exc := Exc (tx "UnicodeDecodeError") (tx "invalid utf-8").

(** [b.decode('utf-8')] *)
Fixpoint utf8_strict (bs : bytes) : option text :=
  match bs with
  | [] => Some []
  | a :: r1 =>
      if a <? 128 then (a ::.) <$> utf8_strict r1 else
      match r1 with
      | [] => None
      | b :: r2 =>
          if a <? 224 then
            if (194 <=? a) && continuation b then (((a - 192) * 64 + (b - 128)) ::.) <$> utf8_strict r2 else None
          else
          match r2 with
          | [] => None
          | c :: r3 =>
              if a <? 240 then
                let v := (a - 224) * 4096 + (b - 128) * 64 + (c - 128) in
                if continuation b && continuation c && (2048 <=? v) && negb (surrogate v)
                then (v ::.) <$> utf8_strict r3 else None
              else
              match r3 with
              | [] => None
              | d :: r4 =>
                  let v := (a - 240) * 262144 + (b - 128) * 4096 + (c - 128) * 64 + (d - 128) in
                  if (a <=? 244) && continuation b && continuation c && continuation d && (65536 <=? v) && (v <=? 1114111)
                  then (v ::.) <$> utf8_strict r4 else None
              end
          end
      end
  end.
Definition utf8_decode_strict (bs : bytes) : result exc text :=
  match utf8_strict bs with Some s => Ok s | None => Raise UnicodeDecodeError end.

(** The digits of a number below 64 in front of its last six bits. *)
Lemma div64 c : c = 64 * (c / 64) + c mod 64 /\ 0 <= c mod 64 < 64.
Proof. split; [apply Z.div_mod; lia | apply Z.mod_pos_bound; lia]. Qed.

Lemma div4096 c : c / 4096 = c / 64 / 64.
Proof. by rewrite Z.div_div. Qed.

Lemma div262144 c : c / 262144 = c / 64 / 64 / 64.
Proof. by rewrite !Z.div_div. Qed.

Ltac utf8_digits c :=
  pose proof (div64 c); pose proof (div64 (c / 64)); pose proof (div64 (c / 64 / 64));
  rewrite ?div4096, ?div262144 in *.

Ltac decide_bools :=
  repeat match goal with
         | |- context [?a <? ?b] => first [rewrite (proj2 (Z.ltb_lt a b)) by lia | rewrite (proj2 (Z.ltb_ge a b)) by lia]
         | |- context [?a <=? ?b] => first [rewrite (proj2 (Z.leb_le a b)) by lia | rewrite (proj2 (Z.leb_gt a b)) by lia]
         end.

Lemma utf8_char_strict c rest : code_point c = true -> surrogate c = false ->
  utf8_strict (utf8_char c ++ rest) = (c ::.) <$> utf8_strict rest.
Proof.
  unfold code_point, surrogate, between. intros R S. bool_prop. utf8_digits c. unfold utf8_char.
  destruct (Z.ltb_spec c 128); [simpl; by decide_bools|].
  destruct (Z.ltb_spec c 2048).
  { cbn [app utf8_strict]. unfold continuation, between. decide_bools. simpl.
    by replace ((192 + c / 64 - 192) * 64 + (128 + c mod 64 - 128)) with c by lia. }
  destruct (Z.ltb_spec c 65536); cbn [app utf8_strict]; cbv zeta; unfold continuation, surrogate, between.
  - rewrite div4096.
    replace ((224 + c / 64 / 64 - 224) * 4096 + (128 + c / 64 mod 64 - 128) * 64 + (128 + c mod 64 - 128)) with c by lia.
    replace ((55296 <=? c) && (c <=? 57343)) with false by (symmetry; apply andb_false_iff; rewrite !Z.leb_gt; lia).
    by decide_bools.
  - rewrite div4096, div262144.
    replace ((240 + c / 64 / 64 / 64 - 240) * 262144 + (128 + c / 64 / 64 mod 64 - 128) * 4096
             + (128 + c / 64 mod 64 - 128) * 64 + (128 + c mod 64 - 128)) with c by lia.
    by decide_bools.
Qed.

Lemma utf8_encode_ok s bs : utf8_encode s = Ok bs <-> existsb surrogate s = false /\ bs = s ≫= utf8_char.
Proof. unfold utf8_encode. destruct (existsb surrogate s); split; [done | by intros [] | by intros [= <-] | by intros [_ ->]]. Qed.

Lemma utf8_round_trip s bs : forallb code_point s = true -> utf8_encode s = Ok bs -> utf8_decode_strict bs = Ok s.
Proof.
  intros C [S ->]%utf8_encode_ok. unfold utf8_decode_strict.
  assert (E : utf8_strict (s ≫= utf8_char) = Some s); [|by rewrite E].
  induction s as [|c s IH]; [done|]. cbn [forallb existsb] in C, S. bool_prop.
  change ((c :: s) ≫= utf8_char) with (utf8_char c ++ (s ≫= utf8_char)). rewrite utf8_char_strict by done. by rewrite IH.
Qed.

(** A first byte tells how many follow. *)
Lemma utf8_char_head c c' x x' : utf8_char c ++ x = utf8_char c' ++ x' -> c = c' /\ x = x'.
Proof.
  unfold utf8_char. utf8_digits c. utf8_digits c'.
  repeat match goal with |- context [?a <? ?b] => destruct (Z.ltb_spec a b) end;
    simpl; intros E; simplify_eq; try lia; (split; [lia | done]).
Qed.

Lemma utf8_concat_inj s : forall s', (s ≫= utf8_char) = (s' ≫= utf8_char) -> s = s'.
Proof.
  assert (N : forall c x, [] <> utf8_char c ++ x).
  { intros c x. unfold utf8_char. by repeat case_match. }
  induction s as [|c s IH]; intros [|c' s'] E; [done | | |].
  - by apply N in E.
  - symmetry in E. by apply N in E.
  - change ((c :: s) ≫= utf8_char) with (utf8_char c ++ (s ≫= utf8_char)) in E.
    change ((c' :: s') ≫= utf8_char) with (utf8_char c' ++ (s' ≫= utf8_char)) in E.
    apply utf8_char_head in E as [-> E]. by rewrite (IH s').
Qed.

Lemma utf8_encode_inj s s' bs : utf8_encode s = Ok bs -> utf8_encode s' = Ok bs -> s = s'.
Proof. intros [_ ->]%utf8_encode_ok [_ E]%utf8_encode_ok. by apply utf8_concat_inj. Qed.

Lemma utf8_char_width c : len (utf8_char c) = utf8_width c.
Proof. unfold utf8_char, utf8_width. by repeat case_match. Qed.

Lemma utf8_encode_app s t bs bt : utf8_encode s = Ok bs -> utf8_encode t = Ok bt -> utf8_encode (s ++ t) = Ok (bs ++ bt).
Proof.
  intros [S ->]%utf8_encode_ok [T ->]%utf8_encode_ok. apply utf8_encode_ok. rewrite existsb_app, S, T.
  by rewrite bind_app.
Qed.

Lemma utf8_ascii s : forallb (between 0 127) s = true -> utf8_encode s = Ok s.
Proof.
  intros A. apply utf8_encode_ok. induction s as [|c s IH]; [done|]. cbn [forallb] in A. bool_prop.
  match goal with H : between 0 127 c = true |- _ => unfold between in H; bool_prop end.
  destruct IH as [S E]; [done|]. split.
  - cbn [existsb]. rewrite S. unfold surrogate. by decide_bools.
  - change ((c :: s) ≫= utf8_char) with (utf8_char c ++ (s ≫= utf8_char)). rewrite <- E. unfold utf8_char. by decide_bools.
Qed.

(** ** JSON strings *)

Definition hex_char (d : Z) : Z := if d <? 10 then 48 + d else 87 + d.

(** The escape of a character in [json.dumps(..., ensure_ascii=False)]. *)
Definition json_escape (c : Z) : text :=
  if c =? 34 then [92; 34]
  else if c =? 92 then [92; 92]
  else if c =? 10 then tx "\n"
  else if c =? 13 then tx "\r"
  else if c =? 9 then tx "\t"
  else if c =? 12 then tx "\f"
  else if c =? 8 then tx "\b"
  else if between 0 31 c then tx "\u00" ++ [hex_char (c / 16); hex_char (c mod 16)]
  else [c].
Definition json_string (s : text) : text := [34] ++ (s ≫= json_escape) ++ [34].

Definition hex_value (c : Z) : Z := if c <? 58 then c - 48 else c - 87.

(** What an escape stands for, with the text behind it. *)
Definition json_unescape (s : text) : option (Z * text) :=
  match s with
  | 92 :: 34 :: r => Some (34, r)
  | 92 :: 92 :: r => Some (92, r)
  | 92 :: 110 :: r => Some (10, r)
  | 92 :: 114 :: r => Some (13, r)
  | 92 :: 116 :: r => Some (9, r)
  | 92 :: 102 :: r => Some (12, r)
  | 92 :: 98 :: r => Some (8, r)
  | 92 :: 117 :: 48 :: 48 :: a :: b :: r => Some (hex_value a * 16 + hex_value b, r)
  | 34 :: _ => None
  | c :: r => Some (c, r)
  | [] => None
  end.

Lemma hex_value_char d : 0 <= d < 16 -> hex_value (hex_char d) = d.
Proof.
  intros H. unfold hex_value, hex_char. destruct (Z.ltb_spec d 10); decide_bools; lia.
Qed.

Lemma json_unescape_escape c r : json_unescape (json_escape c ++ r) = Some (c, r).
Proof.
  unfold json_escape.
  repeat match goal with |- context [?a =? ?b] => destruct (Z.eqb_spec a b) as [->|]; [done|] end.
  unfold between. destruct ((0 <=? c) && (c <=? 31)) eqn:E.
  - bool_prop. assert (0 <= c / 16 < 16) by (split; [apply Z.div_pos | apply Z.div_lt_upper_bound]; lia).
    pose proof (Z.mod_pos_bound c 16 ltac:(lia)).
    transitivity (Some (hex_value (hex_char (c / 16)) * 16 + hex_value (hex_char (c mod 16)), r)); [done|].
    rewrite !hex_value_char by lia. do 2 f_equal. rewrite (Z.div_mod c 16) at 3 by lia. lia.
  - assert (json_unescape (c :: r) = Some (c, r)) as <-; [|done]. unfold json_unescape.
    destruct (decide (c = 34)), (decide (c = 92)); [congruence..|].
    destruct c as [|p|p]; try done. repeat (destruct p as [p|p|]; try done).
Qed.

(** A JSON string ends where it ends. *)
Lemma json_string_head s : forall s' r r', (s ≫= json_escape) ++ [34] ++ r = (s' ≫= json_escape) ++ [34] ++ r' ->
  s = s' /\ r = r'.
Proof.
  induction s as [|c s IH]; intros [|c' s'] r r' E.
  - by simplify_eq/=.
  - change ((c' :: s') ≫= json_escape) with (json_escape c' ++ (s' ≫= json_escape)) in E. rewrite <- app_assoc in E.
    apply (f_equal json_unescape) in E. by rewrite json_unescape_escape in E.
  - change ((c :: s) ≫= json_escape) with (json_escape c ++ (s ≫= json_escape)) in E. rewrite <- app_assoc in E.
    apply (f_equal json_unescape) in E. by rewrite json_unescape_escape in E.
  - change ((c :: s) ≫= json_escape) with (json_escape c ++ (s ≫= json_escape)) in E.
    change ((c' :: s') ≫= json_escape) with (json_escape c' ++ (s' ≫= json_escape)) in E. rewrite <- !app_assoc in E.
    apply (f_equal json_unescape) in E. rewrite !json_unescape_escape in E. injection E as -> E.
    apply IH in E as [-> ->]. done.
Qed.

(** ** Base64 *)

Definition base64_value (c : Z) : option Z :=
  if ascii_upper c then Some (c - 65)
  else if ascii_lower c then Some (c - 71)
  else if ascii_digit c then Some (c + 4)
  else if c =? 43 then Some 62
  else if c =? 47 then Some 63
  else None.

Definition base64_error : exc := Exc (tx "binascii.Error") (tx "invalid base64").

(** [binascii.a2b_base64(s, strict_mode=True)] after its first character:
    [quad] characters of the current group were read, [left] holds the bits not
    yet emitted, [pads] paddings in a row, [padding] whether one was seen. *)
Fixpoint base64_loop (quad left pads : Z) (padding : bool) (s : text) : result exc bytes :=
  match s with
  | [] => if quad =? 0 then Ok [] else Raise base64_error
  | c :: s =>
      if c =? 61 then
        if (2 <=? quad) && (4 <=? quad + pads + 1)
        then match s with [] => Ok [] | _ => Raise base64_error end
        else base64_loop quad left (if 2 <=? quad then pads + 1 else pads) true s
      else
      match base64_value c with
      | None => Raise base64_error
      | Some v =>
          if padding then Raise base64_error else
          if quad =? 0 then base64_loop 1 v 0 false s
          else if quad =? 1 then cons (left * 4 + v / 16) <$> base64_loop 2 (v mod 16) 0 false s
          else if quad =? 2 then cons (left * 16 + v / 4) <$> base64_loop 3 (v mod 4) 0 false s
          else cons (left * 64 + v) <$> base64_loop 0 0 0 false s
      end
  end.

(** [base64.b64decode(s, validate=True)] *)
Definition b64decode (s : text) : result exc bytes :=
  if negb (forallb (between 0 127) s) then Raise (ValueError "string argument should contain only ASCII characters")
  else match s with
       | 61 :: _ => Raise base64_error
       | _ => base64_loop 0 0 0 false s
       end.

Lemma base64_value_range c v : base64_value c = Some v -> 0 <= v < 64.
Proof.
  unfold base64_value, ascii_upper, ascii_lower, ascii_digit, between. intros H.
  repeat (case_match; bool_prop; simplify_eq; try lia).
Qed.

(** Only bytes are decoded. *)
Lemma base64_loop_bytes s : forall quad left pads padding bs,
  quad = 0 \/ quad = 1 /\ 0 <= left < 64 \/ quad = 2 /\ 0 <= left < 16 \/ quad = 3 /\ 0 <= left < 4 ->
  base64_loop quad left pads padding s = Ok bs -> forallb is_byte bs = true.
Proof.
  assert (B : forall b (r : result exc bytes) bs, 0 <= b < 256 ->
    (forall bs', r = Ok bs' -> forallb is_byte bs' = true) -> cons b <$> r = Ok bs -> forallb is_byte bs = true).
  { intros b [bs'|e] bs R F E; [|done]. injection E as <-. cbn [forallb]. rewrite (F bs') by done.
    unfold is_byte, between. by decide_bools. }
  induction s as [|c s IH]; intros quad left pads padding bs Q E; cbn [base64_loop] in E.
  { case_match; by simplify_eq. }
  destruct (c =? 61).
  { destruct (_ && _); [by destruct s; simplify_eq | by eapply IH]. }
  destruct (base64_value c) as [v|] eqn:V; [|done]. apply base64_value_range in V. destruct padding; [done|].
  pose proof (Z.div_mod v 16 ltac:(lia)). pose proof (Z.div_mod v 4 ltac:(lia)).
  pose proof (Z.mod_pos_bound v 16 ltac:(lia)). pose proof (Z.mod_pos_bound v 4 ltac:(lia)).
  destruct (Z.eqb_spec quad 0); [eapply IH; [|exact E]; auto|].
  destruct (Z.eqb_spec quad 1); [eapply B; [| |exact E]; [lia | intros bs'; apply IH; auto]|].
  destruct (Z.eqb_spec quad 2); [eapply B; [| |exact E]; [lia | intros bs'; apply IH; auto]|].
  eapply B; [| |exact E]; [lia | intros bs'; apply IH; auto].
Qed.

Lemma b64decode_bytes s bs : b64decode s = Ok bs -> forallb is_byte bs = true.
Proof.
  unfold b64decode. destruct (negb _); [done|]. intros H.
  assert (L : base64_loop 0 0 0 false s = Ok bs) by (by repeat case_match; simplify_eq).
  eapply base64_loop_bytes; [|exact L]. auto.
Qed.
