(* ===== verification/Billing.v ===== *)
(** * Billing segments ([services/billing.py])

    The single implementation of the number of billed segments of a final
    message content and of the quota cost of a batch. *)

From S2P Require Import Prelude PyText.

Module Billing.

Definition SINGLE_SEGMENT_CHARS : Z := 70.
Definition MULTI_SEGMENT_CHARS : Z := 67.

Inductive error := ValueError.

Definition calculate_segments (final_content : text) : Z :=
  let length := len final_content in
  if length <=? SINGLE_SEGMENT_CHARS then 1
  else (length + MULTI_SEGMENT_CHARS - 1) / MULTI_SEGMENT_CHARS.

Definition segment_capacity (segments : Z) : result error Z :=
  if segments <? 1 then Raise ValueError
  else Ok (if segments =? 1 then SINGLE_SEGMENT_CHARS else MULTI_SEGMENT_CHARS).

Definition calculate_quota_cost (final_content : text) (recipient_count : Z) : result error Z :=
  if recipient_count <? 0 then Raise ValueError
  else Ok (calculate_segments final_content * recipient_count).

(** A content fits [n] segments when [n] segments of their capacity hold it. *)
Definition fits (n : Z) (content : text) : Prop :=
  exists cap, segment_capacity n = Ok cap /\ len content <= n * cap.

Lemma fits_iff n content :
  fits n content <->
  (n = 1 /\ len content <= 70) \/ (2 <= n /\ len content <= n * 67).
Proof.
  unfold fits, segment_capacity, SINGLE_SEGMENT_CHARS, MULTI_SEGMENT_CHARS.
  destruct (Z.ltb_spec n 1); [split; [intros (? & ? & _); done | lia]|].
  destruct (Z.eqb_spec n 1) as [->|]; split.
  - intros (? & [= <-] & ?). lia.
  - intros ?. eexists. split; [reflexivity | lia].
  - intros (? & [= <-] & ?). lia.
  - intros ?. eexists. split; [reflexivity | lia].
Qed.

Lemma calculate_segments_cases content :
  (len content <= 70 /\ calculate_segments content = 1) \/
  (70 < len content /\ 2 <= calculate_segments content /\
   67 * (calculate_segments content - 1) < len content <= 67 * calculate_segments content).
Proof.
  unfold calculate_segments, SINGLE_SEGMENT_CHARS, MULTI_SEGMENT_CHARS.
  destruct (Z.leb_spec (len content) 70); [by left|right].
  pose proof (Z.div_mod (len content + 67 - 1) 67).
  pose proof (Z.mod_pos_bound (len content + 67 - 1) 67). lia.
Qed.

Lemma calculate_segments_pos content : 1 <= calculate_segments content.
Proof. destruct (calculate_segments_cases content); lia. Qed.

Lemma calculate_segments_mono a b :
  len a <= len b -> calculate_segments a <= calculate_segments b.
Proof.
  intros. destruct (calculate_segments_cases a), (calculate_segments_cases b); lia.
Qed.

(** The number of billed segments of a content is the least number of
    segments that holds it, with 70 characters in a single segment and 67 in
    each segment of a longer message. *)
Theorem segments_minimal content n :
  fits (calculate_segments content) content /\
  (fits n content -> calculate_segments content <= n).
Proof.
  rewrite !fits_iff. pose proof (calculate_segments_cases content).
  pose proof (len_nonneg content). lia.
Qed.

Lemma segments_minimal_witness :
  fits 3 (replicate 200 97) /\ calculate_segments (replicate 200 97) <= 3.
Proof.
  assert (H : fits 3 (replicate 200 97)) by (apply fits_iff; vm_compute; right; split; discriminate).
  split; [exact H | exact (proj2 (segments_minimal (replicate 200 97) 3) H)].
Defined.

#[export] Hint Resolve calculate_segments_pos calculate_segments_mono : sms.

End Billing.
