(* ===== verification/Category.v ===== *)
(** * Message categories ([services/category.py])

    The policy matrix of the three categories and the sending window of
    marketing messages.  An aware [datetime] is its instant in microseconds
    since the epoch; Asia/Shanghai is UTC+8 without daylight saving (true of
    every date since 1992). *)

From S2P Require Import Prelude PyText.

Module Category.

Definition DEFAULT_MARKET_WINDOW : text := tx "08:00-21:00".

Record CategoryPolicy := mkPolicy {
  category : text;
  queue : text;
  blacklist_required : bool;
  approval_threshold_key : option text;
  qps_lane : text
}.

Definition CategoryNotAllowed : exc :=
  Exc (tx "CategoryNotAllowed") (utx "应用无权发送该消息类别").

Definition policy_for_category (cat : text) (allowed : list text) (notice_blacklist : bool)
    : result exc CategoryPolicy :=
  _ ← require (tmem cat [tx "verify"; tx "notice"; tx "market"])
        (ValueError "category must be verify, notice or market");
  _ ← require (tmem cat allowed) CategoryNotAllowed;
  Ok (if teqb cat (tx "verify")
      then mkPolicy (tx "verify") (tx "realtime") false None (tx "realtime")
      else if teqb cat (tx "notice")
      then mkPolicy (tx "notice") (tx "realtime") notice_blacklist
             (Some (tx "approval_threshold")) (tx "realtime")
      else mkPolicy (tx "market") (tx "bulk") true
             (Some (tx "market_approval_threshold")) (tx "bulk")).

Definition queue_for_category (cat : text) : text :=
  if teqb cat (tx "market") then tx "bulk" else tx "realtime".

(** ** The marketing window *)

Definition HOUR : Z := 3600000000.
Definition MINUTE : Z := 60000000.
Definition DAY : Z := 86400000000.

(** [astimezone(SHANGHAI)]: local microseconds; their day and time of day. *)
Definition local (t : Z) : Z := t + 8 * HOUR.
Definition local_date (t : Z) : Z := local t / DAY.
Definition local_clock (t : Z) : Z := local t mod DAY.
(** [datetime.combine(date, time, tzinfo=SHANGHAI)] *)
Definition combine (date clock : Z) : Z := date * DAY + clock - 8 * HOUR.

(** Two decimal digits below a bound. *)
Definition two_digits (bound : Z) (a b : Z) : option Z :=
  if ascii_digit a && ascii_digit b then
    let n := 10 * (a - 48) + (b - 48) in if n <? bound then Some n else None
  else None.

(** [time.fromisoformat] on the form [HH:MM] the runtime policy admits. *)
Definition time_fromisoformat (s : text) : result exc Z :=
  match s with
  | [a; b; 58; c; d] =>
      match two_digits 24 a b, two_digits 60 c d with
      | Some h, Some m => Ok (h * HOUR + m * MINUTE)
      | _, _ => Raise (ValueError "Invalid isoformat string")
      end
  | _ => Raise (ValueError "Invalid isoformat string")
  end.

Inductive dispatch_state := queued | scheduled.

Definition coerce_market_dispatch (now : Z) (window : text) (scheduled_at : option Z)
    : result exc (dispatch_state * option text * option Z) :=
  let '(start_raw, found, end_raw) := partition 45 window in
  _ ← require found (ValueError "not enough values to unpack (expected 2, got 1)");
  start ← time_fromisoformat start_raw;
  stop ← time_fromisoformat end_raw;
  _ ← refuse (stop <=? start)
        (ValueError "market window must be a same-day half-open interval");
  let reference := match scheduled_at with Some t => t | None => now end in
  let clock := local_clock reference in
  if (start <=? clock) && (clock <? stop) then
    Ok (match scheduled_at with
        | Some t => (scheduled, None, Some t)
        | None => (queued, None, None)
        end)
  else
    let target_date :=
      if clock <? start then local_date reference else local_date reference + 1 in
    Ok (scheduled, Some (tx "market_window"), Some (combine target_date start)).

(** ** Lemmas *)

Lemma local_split t : local t = local_date t * DAY + local_clock t /\ 0 <= local_clock t < DAY.
Proof.
  unfold local_date, local_clock. pose proof (Z.div_mod (local t) DAY ltac:(done)).
  pose proof (Z.mod_pos_bound (local t) DAY ltac:(done)). lia.
Qed.

Lemma local_combine date clock : 0 <= clock < DAY ->
  local_date (combine date clock) = date /\ local_clock (combine date clock) = clock.
Proof.
  intros H. unfold local_date, local_clock, local, combine.
  replace (date * DAY + clock - 8 * HOUR + 8 * HOUR) with (clock + date * DAY) by lia.
  rewrite Z.div_add, Z.mod_add by done.
  split; [rewrite Z.div_small; lia | apply Z.mod_small; lia].
Qed.

Lemma two_digits_range bound a b n : two_digits bound a b = Some n -> 0 <= n < bound.
Proof.
  unfold two_digits, ascii_digit, between. intros H. repeat case_match; try done.
  simplify_eq. bool_prop. lia.
Qed.

Lemma time_range s t : time_fromisoformat s = Ok t -> 0 <= t < DAY.
Proof.
  unfold time_fromisoformat, HOUR, MINUTE, DAY. intros H. repeat (case_match; try done).
  simplify_eq. repeat match goal with
  | X : two_digits _ _ _ = Some _ |- _ => apply two_digits_range in X end. lia.
Qed.

(** A window text that the configuration admits, and its bounds. *)
Definition window_bounds (window : text) (start stop : Z) : Prop :=
  exists a b, partition 45 window = (a, true, b) /\ time_fromisoformat a = Ok start /\
    time_fromisoformat b = Ok stop /\ start < stop.

Definition open_at (start stop t : Z) : Prop := start <= local_clock t < stop.

(** The start of the next window is the earliest open instant. *)
Lemma next_open_earliest start stop r :
  0 <= start -> start < stop -> stop <= DAY -> ~ open_at start stop r ->
  let t := combine (if local_clock r <? start then local_date r else local_date r + 1) start in
  open_at start stop t /\ r <= t /\ forall u, r <= u -> open_at start stop u -> t <= u.
Proof.
  unfold open_at. intros H0 Hs Hd Hn. cbv zeta.
  destruct (local_split r) as [Er Hr].
  set (d := if local_clock r <? start then local_date r else local_date r + 1).
  destruct (local_combine d start) as [Ed Ec]; [lia|]. rewrite Ec.
  assert (Ht : local (combine d start) = d * DAY + start) by (unfold local, combine; lia).
  assert (Hle : local r <= local (combine d start)).
  { rewrite Ht, Er. unfold d. destruct (Z.ltb_spec (local_clock r) start); unfold DAY in *; lia. }
  split; [lia|]. split; [unfold local in Hle; lia|].
  intros u Hu Ho. destruct (local_split u) as [Eu Hu'].
  assert (local r <= local u) by (unfold local; lia).
  enough (local (combine d start) <= local u) by (unfold local in *; lia).
  assert (Hdu : local_date r <= local_date u) by (apply Z.div_le_mono; [done|lia]).
  assert (Hd' : d <= local_date u).
  { unfold d. destruct (Z.ltb_spec (local_clock r) start); [done|].
    destruct (Z.eq_dec (local_date r) (local_date u)) as [E|]; [|lia]. rewrite E in *. lia. }
  rewrite Ht, Eu. apply Z.add_le_mono; [|lia]. apply Z.mul_le_mono_nonneg_r; [done|lia].
Qed.

(** ** Properties *)

(** Marketing messages leave only inside the window, and as early as it
    allows.  For a window the configuration admits, the dispatch decision
    returns; sending at once means that now is inside the window; otherwise the
    planned instant is the earliest one, not before the requested instant (now,
    or the explicit schedule), at which the local clock is inside the window. *)
Theorem market_dispatch_earliest now window scheduled_at start stop
    (Hw : window_bounds window start stop) :
  let reference := match scheduled_at with Some t => t | None => now end in
  exists st why at_, coerce_market_dispatch now window scheduled_at = Ok (st, why, at_) /\
    match st, at_ with
    | queued, None => scheduled_at = None /\ open_at start stop now
    | scheduled, Some t =>
        open_at start stop t /\ reference <= t /\
        (forall u, reference <= u -> open_at start stop u -> t <= u)
    | _, _ => False
    end.
Proof.
  destruct Hw as (a & b & P & Ha & Hb & Hlt). intros reference.
  pose proof (time_range _ _ Ha). pose proof (time_range _ _ Hb).
  unfold coerce_market_dispatch. rewrite P, Ha, Hb. simpl.
  rewrite (proj2 (Z.leb_gt stop start)) by lia. simpl. fold reference.
  destruct ((start <=? local_clock reference) && (local_clock reference <? stop)) eqn:E.
  - assert (Ho : open_at start stop reference) by (unfold open_at; bool_prop; lia).
    destruct scheduled_at as [t|]; do 3 eexists; (split; [reflexivity|]); simpl.
    + split; [done|]. subst reference. split; [lia|]. intros; lia.
    + done.
  - do 3 eexists. split; [reflexivity|]. simpl.
    apply next_open_earliest; try lia. unfold open_at. intros Ho.
    assert (X : (start <=? local_clock reference) && (local_clock reference <? stop) = true).
    { apply andb_true_iff. split; lia. } congruence.
Qed.

(** 22:30 in Shanghai: the next window opens at 08:00. *)
Lemma market_dispatch_earliest_witness :
  window_bounds DEFAULT_MARKET_WINDOW (8 * HOUR) (21 * HOUR) /\
  exists st why at_, coerce_market_dispatch (14 * HOUR + 30 * MINUTE) DEFAULT_MARKET_WINDOW None
    = Ok (st, why, at_) /\ st = scheduled.
Proof.
  assert (W : window_bounds DEFAULT_MARKET_WINDOW (8 * HOUR) (21 * HOUR)).
  { exists (tx "08:00"), (tx "21:00"). repeat split; vm_compute; reflexivity. }
  split; [exact W|].
  destruct (market_dispatch_earliest (14 * HOUR + 30 * MINUTE) DEFAULT_MARKET_WINDOW None _ _ W)
    as (st & why & at_ & E & H).
  exists st, why, at_. split; [exact E|]. vm_compute in E. injection E as <- <- <-. reflexivity.
Defined.

End Category.
