(* ===== verification/VendorCodes.v ===== *)
(** * Vendor error codes ([vendor/codes.py])

    The table from the provider's error codes to the platform's handling
    policy, and the set of codes that are a contractual rejection. *)

From S2P Require Import Prelude PyText.

Module Codes.

Definition BACKOFF_DELAYS_S : list Z := [1; 2; 4; 8; 16].
Definition DELAYED_RETRY_LIMIT : Z := 8.
Definition DELAYED_RETRY_EXHAUSTED : text := tx "delayed_retry_exhausted".

Record VendorErrorPolicy := mkPolicy {
  description : text;
  retry_delays_s : list Z;
  delay_s : option Z;
  pause_queues : bool;
  balance_blocked : bool;
  shrink_batch_once : bool;
  alert_level : option text;
  sync_resource : option text;
  not_applicable : bool;
  return_to_caller : bool;
  safe_to_failover : bool
}.

(** The dataclass defaults; the table overrides single fields. *)
Definition default_policy (d : text) : VendorErrorPolicy :=
  mkPolicy d [] None false false false None None false false false.
Definition with_retry (l : list Z) (p : VendorErrorPolicy) : VendorErrorPolicy :=
  mkPolicy (description p) l (delay_s p) (pause_queues p) (balance_blocked p)
    (shrink_batch_once p) (alert_level p) (sync_resource p) (not_applicable p)
    (return_to_caller p) (safe_to_failover p).
Definition with_delay (n : Z) (p : VendorErrorPolicy) : VendorErrorPolicy :=
  mkPolicy (description p) (retry_delays_s p) (Some n) (pause_queues p) (balance_blocked p)
    (shrink_batch_once p) (alert_level p) (sync_resource p) (not_applicable p)
    (return_to_caller p) (safe_to_failover p).
Definition with_pause (p : VendorErrorPolicy) : VendorErrorPolicy :=
  mkPolicy (description p) (retry_delays_s p) (delay_s p) true (balance_blocked p)
    (shrink_batch_once p) (alert_level p) (sync_resource p) (not_applicable p)
    (return_to_caller p) (safe_to_failover p).
Definition with_balance (p : VendorErrorPolicy) : VendorErrorPolicy :=
  mkPolicy (description p) (retry_delays_s p) (delay_s p) (pause_queues p) true
    (shrink_batch_once p) (alert_level p) (sync_resource p) (not_applicable p)
    (return_to_caller p) (safe_to_failover p).
Definition with_shrink (p : VendorErrorPolicy) : VendorErrorPolicy :=
  mkPolicy (description p) (retry_delays_s p) (delay_s p) (pause_queues p) (balance_blocked p)
    true (alert_level p) (sync_resource p) (not_applicable p)
    (return_to_caller p) (safe_to_failover p).
Definition with_crit (p : VendorErrorPolicy) : VendorErrorPolicy :=
  mkPolicy (description p) (retry_delays_s p) (delay_s p) (pause_queues p) (balance_blocked p)
    (shrink_batch_once p) (Some (tx "crit")) (sync_resource p) (not_applicable p)
    (return_to_caller p) (safe_to_failover p).
Definition with_sync (r : text) (p : VendorErrorPolicy) : VendorErrorPolicy :=
  mkPolicy (description p) (retry_delays_s p) (delay_s p) (pause_queues p) (balance_blocked p)
    (shrink_batch_once p) (alert_level p) (Some r) (not_applicable p)
    (return_to_caller p) (safe_to_failover p).
Definition with_not_applicable (p : VendorErrorPolicy) : VendorErrorPolicy :=
  mkPolicy (description p) (retry_delays_s p) (delay_s p) (pause_queues p) (balance_blocked p)
    (shrink_batch_once p) (alert_level p) (sync_resource p) true
    (return_to_caller p) (safe_to_failover p).
Definition with_return (p : VendorErrorPolicy) : VendorErrorPolicy :=
  mkPolicy (description p) (retry_delays_s p) (delay_s p) (pause_queues p) (balance_blocked p)
    (shrink_batch_once p) (alert_level p) (sync_resource p) (not_applicable p)
    true (safe_to_failover p).
(** [replace(policy, safe_to_failover=True)] *)
Definition with_safe (p : VendorErrorPolicy) : VendorErrorPolicy :=
  mkPolicy (description p) (retry_delays_s p) (delay_s p) (pause_queues p) (balance_blocked p)
    (shrink_batch_once p) (alert_level p) (sync_resource p) (not_applicable p)
    (return_to_caller p) true.

Definition ERROR_POLICIES : list (Z * VendorErrorPolicy) :=
  let policy s := default_policy (utx s) in
  [ (9, policy "失败");
    (429, with_retry BACKOFF_DELAYS_S (policy "请求过多"));
    (999, with_crit (with_pause (with_balance (policy "余额不足"))));
    (1000, with_crit (with_pause (policy "账号或密码错误")));
    (1001, policy "手机号码错误");
    (1002, policy "内容格式错误");
    (1003, with_sync (tx "template") (policy "模板 id 错误"));
    (1004, with_not_applicable (policy "定时时间格式错误"));
    (1005, with_crit (policy "自定义 id 超过 36 位"));
    (1006, with_shrink (policy "号码数达到上限"));
    (1007, with_not_applicable (policy "定时时间小于 10 分钟"));
    (1008, with_crit (policy "未支持的套餐"));
    (1009, with_crit (with_pause (policy "账户未启用")));
    (1010, with_crit (policy "IP 校验未通过"));
    (1011, with_delay 1800 (policy "未在服务时间范围"));
    (1012, policy "内容字数达到上限");
    (5000, with_crit (with_pause (policy "缺省参数未配置")));
    (5001, policy "其他错误");
    (5002, with_retry BACKOFF_DELAYS_S (policy "调用间隔过快"));
    (5003, with_retry BACKOFF_DELAYS_S (policy "每秒调用频次过快"));
    (10000, with_crit (policy "扩展号错误"));
    (10001, with_sync (tx "sign") (policy "短信签名错误"));
    (10002, with_sync (tx "template") (policy "短信模板不匹配"));
    (10003, with_crit (with_pause (policy "短信密钥账号不存在")));
    (10004, with_crit (with_pause (policy "未激活短信业务")));
    (10005, policy "内容存在全局关键字");
    (10006, with_not_applicable (policy "Excel 短信格式错误"));
    (10007, policy "短信内容中存在签名");
    (10008, with_crit (policy "未开通短信模板"));
    (10009, with_crit (policy "连接方式错误"));
    (10010, with_delay 300 (policy "当前操作已被锁定"));
    (10011, with_return (policy "模板数量达到上限"));
    (10012, with_return (policy "存在相同模板"));
    (10013, with_return (policy "存在相同签名"));
    (10014, with_return (policy "签名数量达到上限")) ].

Definition UNKNOWN_ERROR_POLICY : VendorErrorPolicy := default_policy (utx "未知厂商错误").

Definition SAFE_TO_FAILOVER_CODES : list Z :=
  [999; 1000; 1001; 1002; 1003; 1005; 1008; 1009; 1010; 1012; 5000; 10000; 10001;
   10002; 10003; 10004; 10005; 10007; 10008].

(** [ERROR_POLICIES.get(code, UNKNOWN_ERROR_POLICY)] *)
Definition lookup_policy (code : Z) : VendorErrorPolicy :=
  match List.find (fun e => fst e =? code) ERROR_POLICIES with
  | Some (_, p) => p
  | None => UNKNOWN_ERROR_POLICY
  end.

Definition policy_for (code : Z) : VendorErrorPolicy :=
  let policy := lookup_policy code in
  if bool_decide (code ∈ SAFE_TO_FAILOVER_CODES) then with_safe policy else policy.

(** ** Lemmas *)

(** Every code of the safe set has an entry in the table. *)
Lemma safe_codes_known c :
  c ∈ SAFE_TO_FAILOVER_CODES -> List.existsb (fun e => fst e =? c) ERROR_POLICIES = true.
Proof.
  intros H.
  assert (A : List.forallb (fun c => List.existsb (fun e => fst e =? c) ERROR_POLICIES)
                SAFE_TO_FAILOVER_CODES = true) by (vm_compute; reflexivity).
  rewrite List.forallb_forall in A. apply A. by apply list_elem_of_In.
Qed.

(** A boolean fact about every policy is checked on the table and on the
    policy of unknown codes. *)
Lemma policy_for_cases (P : Z -> VendorErrorPolicy -> bool) code :
  List.forallb (fun e => P (fst e) (policy_for (fst e))) ERROR_POLICIES = true ->
  (code ∉ SAFE_TO_FAILOVER_CODES -> P code UNKNOWN_ERROR_POLICY = true) ->
  P code (policy_for code) = true.
Proof.
  intros Htab Hunk. rewrite List.forallb_forall in Htab.
  destruct (List.find (fun e => fst e =? code) ERROR_POLICIES) as [[c p]|] eqn:F.
  - apply List.find_some in F as [Hin Hc]. simpl in Hc. bool_prop. subst c.
    apply (Htab _ Hin).
  - assert (Hs : code ∉ SAFE_TO_FAILOVER_CODES).
    { intros (e & He & Hc)%safe_codes_known%List.existsb_exists.
      apply (List.find_none _ _ F) in He. congruence. }
    unfold policy_for, lookup_policy. rewrite F, bool_decide_false by done. auto.
Qed.

End Codes.
