(* ===== verification/Routing.v ===== *)
(** * Vendor routing ([vendor/routing.py])

    The decision which vendor a chunk goes to next, from the attempts made so
    far and the vendors' health.  The attempt outcome, an open string in the
    code, is the closed set the database constraint of [sms_vendor_attempt]
    admits. *)

From S2P Require Import Prelude PyText.

Module Outcome.

Inductive t :=
| not_invoked | rejected | submitted | uncertain | failed | retry_scheduled
| delayed | paused | stale | invoking | cancelled_before_invoke | inconsistent.

#[export] Instance eq_dec : EqDecision t.
Proof. solve_decision. Defined.

End Outcome.
Export (hints) Outcome.

Module Routing.

Definition PRIMARY_VENDOR_ID : text := tx "zhihui".
Definition ROUTE_POLICY_VERSION : Z := 1.
Definition IRREVERSIBLE_OUTCOMES : list Outcome.t :=
  [Outcome.submitted; Outcome.uncertain; Outcome.invoking].
Definition HOLD_OUTCOMES : list Outcome.t :=
  [Outcome.retry_scheduled; Outcome.delayed; Outcome.paused].
Definition ATTEMPT_OUTCOMES : list Outcome.t :=
  [Outcome.not_invoked; Outcome.rejected; Outcome.submitted; Outcome.uncertain;
   Outcome.failed; Outcome.retry_scheduled; Outcome.delayed; Outcome.paused;
   Outcome.stale; Outcome.invoking; Outcome.cancelled_before_invoke].

(** [^[a-z][a-z0-9_]{0,31}$] *)
Definition VENDOR_ID_PATTERN : regex :=
  RCat (RClass ascii_lower)
       (rupto 31 (RClass (fun c => ascii_lower c || ascii_digit c || (c =? 95)))).

Definition validate_vendor_id (value : text) : result exc text :=
  if fullmatch VENDOR_ID_PATTERN value then Ok value
  else Raise (ValueError "vendor_id is invalid").

Record VendorRecord := mkVendor {
  vr_vendor_id : text;
  enabled : bool;
  categories : list text;
  adapter : text;
  token_bucket_key : text;
  pause_prefix : text;
  credential_domain : text
}.

Record VendorAttempt := mkAttempt {
  vendor_id : text;
  generation : Z;
  outcome : Outcome.t;
  safe_to_failover : bool;
  vendor_code : option Z
}.

Record VendorHealth := mkHealth {
  vh_vendor_id : text;
  available : bool;
  pause_reason : option text
}.

Record RouteRequest := mkRequest {
  registered : list text;
  attempts : list VendorAttempt;
  health : list VendorHealth;
  category : text;
  policy_version : Z
}.

Inductive route_action := invoke | hold | terminal_uncertain | terminal_failed | exhausted.

#[export] Instance route_action_eq_dec : EqDecision route_action.
Proof. solve_decision. Defined.

Record RouteDecision := mkDecision {
  action : route_action;
  rd_vendor_id : option text;
  reason : text;
  rd_generation : Z;
  rd_policy_version : Z
}.

Definition decision (a : route_action) (v : option text) (r : string) (g : Z) : RouteDecision :=
  mkDecision a v (tx r) g ROUTE_POLICY_VERSION.

Definition default_vendor_registry : list VendorRecord :=
  [ mkVendor PRIMARY_VENDOR_ID true [tx "verify"; tx "notice"; tx "market"] (tx "zhihui")
      (tx "ratelimit:vendor") (tx "queue:paused") (tx "zhihui") ].

Definition report_may_apply (report_vendor_id selected_vendor : text)
    (irreversible_vendors : list text) : result exc bool :=
  report ← validate_vendor_id report_vendor_id;
  selected ← validate_vendor_id selected_vendor;
  Ok (if tmem report irreversible_vendors then true
      else bool_decide (irreversible_vendors = []) && teqb report selected).

Definition outcome_in (l : list Outcome.t) (a : VendorAttempt) : bool :=
  bool_decide (outcome a ∈ l).
Definition hard_rejected (a : VendorAttempt) : bool :=
  bool_decide (outcome a = Outcome.rejected) && negb (safe_to_failover a).
Definition safe_rejected (a : VendorAttempt) : bool :=
  bool_decide (outcome a = Outcome.rejected) && safe_to_failover a.
Definition skipped (a : VendorAttempt) : bool :=
  bool_decide (outcome a = Outcome.not_invoked).

(** The ids of the attempts that satisfy [f] (a set comprehension). *)
Definition ids_of (f : VendorAttempt -> bool) (l : list VendorAttempt) : list text :=
  vendor_id <$> List.filter f l.

Definition candidates (reg avail : list text) (atts : list VendorAttempt) : list text :=
  List.filter (fun v => tmem v avail && negb (tmem v (ids_of hard_rejected atts))
                   && negb (tmem v (ids_of safe_rejected atts))
                   && negb (tmem v (ids_of skipped atts))) reg.

Definition decide (request : RouteRequest) : result exc RouteDecision :=
  reg ← mapM validate_vendor_id (registered request);
  if bool_decide (reg = []) then Ok (decision exhausted None "empty_registry" 0) else
  match last_opt (List.filter (outcome_in IRREVERSIBLE_OUTCOMES) (attempts request)) with
  | Some last =>
      Ok (match outcome last with
          | Outcome.uncertain =>
              decision terminal_uncertain (Some (vendor_id last)) "uncertain_blocks_failover"
                (generation last)
          | Outcome.invoking =>
              decision terminal_uncertain (Some (vendor_id last)) "invoking_blocks_failover"
                (generation last)
          | _ => decision terminal_failed (Some (vendor_id last)) "already_submitted"
                   (generation last)
          end)
  | None =>
      let previous := last_opt (attempts request) in
      let select : result exc RouteDecision :=
        avail ← mapM validate_vendor_id
                  (vh_vendor_id <$> List.filter available (health request));
        let cands := candidates reg avail (attempts request) in
        let gen := match previous with Some p => generation p + 1 | None => 1 end in
        match cands with
        | [] =>
            match previous with
            | Some p =>
                if bool_decide (outcome p = Outcome.rejected)
                then Ok (decision terminal_failed (Some (vendor_id p)) "failover_exhausted"
                           (generation p))
                else Ok (decision exhausted None "no_available_vendor" gen)
            | None => Ok (decision exhausted None "no_available_vendor" gen)
            end
        | chosen :: _ =>
            let why :=
              match previous with
              | None => if bool_decide (head reg = Some chosen) then "primary"%string
                        else "pre_invoke_unavailable"%string
              | Some p => if safe_rejected p then "safe_failover"%string
                          else "pre_invoke_unavailable"%string
              end in
            Ok (decision invoke (Some chosen) why gen)
        end in
      match previous with
      | Some p =>
          if outcome_in HOLD_OUTCOMES p
          then Ok (decision invoke (Some (vendor_id p)) "same_vendor_retry" (generation p + 1))
          else if hard_rejected p
          then Ok (decision terminal_failed (Some (vendor_id p)) "failover_exhausted"
                     (generation p))
          else select
      | None => select
      end
  end.

(** [VendorRouter(registered)]: an empty or absent list is the primary vendor. *)
Definition VendorRouter_init (vendors : option (list text)) : result exc (list text) :=
  mapM validate_vendor_id
    (match vendors with Some (v :: vs) => v :: vs | _ => [PRIMARY_VENDOR_ID] end).

Definition VendorRouter_decide (self_registered : list text) (request : RouteRequest)
    : result exc RouteDecision :=
  if negb (bool_decide (registered request = [])) then decide request
  else decide (mkRequest self_registered (attempts request) (health request)
                 (category request) (policy_version request)).

(** ** Specification *)

Definition valid_id (v : text) : Prop := fullmatch VENDOR_ID_PATTERN v = true.

(** A request whose identifiers are well formed: [decide] cannot raise. *)
Definition valid_request (r : RouteRequest) : Prop :=
  Forall valid_id (registered r) /\ Forall valid_id (vh_vendor_id <$> health r).

(** A vendor that already gave a final answer before acceptance. *)
Definition tried (atts : list VendorAttempt) (v : text) : Prop :=
  exists a, a ∈ atts /\ vendor_id a = v /\
    (outcome a = Outcome.rejected \/ outcome a = Outcome.not_invoked).

Definition is_available (r : RouteRequest) (v : text) : Prop :=
  exists h, h ∈ health r /\ vh_vendor_id h = v /\ available h = true.

Definition next_generation (r : RouteRequest) : Z :=
  match last_opt (attempts r) with Some p => generation p + 1 | None => 1 end.

(** What may be invoked next: nothing once an attempt may have reached a
    vendor; the same vendor after a temporary refusal; nothing after a refusal
    that is no contractual rejection; otherwise the first registered vendor
    that is available and has not answered yet. *)
Definition may_invoke (r : RouteRequest) (v : text) : Prop :=
  registered r <> [] /\
  Forall (fun a => outcome a ∉ IRREVERSIBLE_OUTCOMES) (attempts r) /\
  ((exists p, last_opt (attempts r) = Some p /\ outcome p ∈ HOLD_OUTCOMES /\ v = vendor_id p)
   \/ ((forall p, last_opt (attempts r) = Some p ->
          (outcome p ∉ HOLD_OUTCOMES) /\
          ~ (outcome p = Outcome.rejected /\ safe_to_failover p = false)) /\
       exists pre post, registered r = pre ++ v :: post /\
         is_available r v /\ ~ tried (attempts r) v /\
         Forall (fun w => ~ is_available r w \/ tried (attempts r) w) pre)).

(** ** Lemmas *)

Lemma validate_vendor_id_ok v r : validate_vendor_id v = Ok r <-> r = v /\ valid_id v.
Proof. unfold validate_vendor_id, valid_id. case_match; naive_solver. Qed.

Lemma mapM_validate l l' :
  mapM validate_vendor_id l = Ok l' <-> l' = l /\ Forall valid_id l.
Proof.
  revert l'. induction l as [|v l IH]; intros l'; simpl.
  - split; [intros [= <-]; auto | intros [-> _]; done].
  - rewrite bind_ok. setoid_rewrite bind_ok. setoid_rewrite validate_vendor_id_ok.
    setoid_rewrite IH. rewrite Forall_cons. split.
    + intros (a & [-> ?] & b & [-> ?] & [= <-]). auto.
    + intros (-> & ? & ?). eexists; split; [eauto|]. by eexists.
Qed.

Lemma ids_of_in f atts v : v ∈ ids_of f atts <-> exists a, a ∈ atts /\ f a = true /\ vendor_id a = v.
Proof.
  unfold ids_of. rewrite list_elem_of_fmap. split.
  - intros (a & -> & [? ?]%filter_in). eauto.
  - intros (a & Ha & Hf & <-). exists a. by rewrite filter_in.
Qed.

Lemma tried_iff atts v :
  tried atts v <->
  v ∈ ids_of hard_rejected atts \/ v ∈ ids_of safe_rejected atts \/ v ∈ ids_of skipped atts.
Proof.
  rewrite !ids_of_in. unfold tried, hard_rejected, safe_rejected, skipped. split.
  - intros (a & ? & ? & [E|E]); rewrite ?E.
    + destruct (safe_to_failover a) eqn:S; [right; left | left];
        exists a; rewrite E, S; by rewrite bool_decide_true.
    + right; right. exists a. rewrite E. by rewrite bool_decide_true.
  - intros [(a & ? & H & ?) | [(a & ? & H & ?) | (a & ? & H & ?)]]; bool_prop; naive_solver.
Qed.

Lemma available_ids r v : v ∈ vh_vendor_id <$> List.filter available (health r) <-> is_available r v.
Proof.
  rewrite list_elem_of_fmap. unfold is_available. split.
  - intros (h & -> & [? ?]%filter_in). eauto.
  - intros (h & ? & <- & ?). exists h. by rewrite filter_in.
Qed.

Definition candidate (r : RouteRequest) (v : text) : bool :=
  tmem v (vh_vendor_id <$> List.filter available (health r))
  && negb (tmem v (ids_of hard_rejected (attempts r)))
  && negb (tmem v (ids_of safe_rejected (attempts r)))
  && negb (tmem v (ids_of skipped (attempts r))).

Lemma candidate_true r v : candidate r v = true <-> is_available r v /\ ~ tried (attempts r) v.
Proof.
  unfold candidate, tmem. rewrite !andb_true_iff, !negb_true_iff, !bool_decide_eq_false,
    bool_decide_eq_true, available_ids, tried_iff. tauto.
Qed.

Lemma candidate_false r v : candidate r v = false <-> ~ is_available r v \/ tried (attempts r) v.
Proof.
  unfold candidate, tmem. rewrite !andb_false_iff, !negb_false_iff, !bool_decide_eq_true,
    bool_decide_eq_false, available_ids, tried_iff. tauto.
Qed.

Lemma no_irreversible atts :
  last_opt (List.filter (outcome_in IRREVERSIBLE_OUTCOMES) atts) = None <->
  Forall (fun a => outcome a ∉ IRREVERSIBLE_OUTCOMES) atts.
Proof.
  unfold last_opt. rewrite last_None, filter_nil_iff. unfold outcome_in.
  rewrite !Forall_forall. setoid_rewrite bool_decide_eq_false. done.
Qed.

(** The decision of [decide] in terms of the specification's vocabulary. *)
Lemma decide_unfold r :
  valid_request r -> registered r <> [] ->
  Forall (fun a => outcome a ∉ IRREVERSIBLE_OUTCOMES) (attempts r) ->
  decide r =
  let select :=
    match List.filter (candidate r) (registered r) with
    | [] => match last_opt (attempts r) with
            | Some p => if bool_decide (outcome p = Outcome.rejected)
                        then decision terminal_failed (Some (vendor_id p)) "failover_exhausted"
                               (generation p)
                        else decision exhausted None "no_available_vendor" (next_generation r)
            | None => decision exhausted None "no_available_vendor" (next_generation r)
            end
    | v :: _ =>
        decision invoke (Some v)
          match last_opt (attempts r) with
          | None => if bool_decide (head (registered r) = Some v) then "primary"
                    else "pre_invoke_unavailable"
          | Some p => if safe_rejected p then "safe_failover" else "pre_invoke_unavailable"
          end (next_generation r)
    end in
  Ok match last_opt (attempts r) with
     | Some p =>
         if outcome_in HOLD_OUTCOMES p
         then decision invoke (Some (vendor_id p)) "same_vendor_retry" (generation p + 1)
         else if hard_rejected p
         then decision terminal_failed (Some (vendor_id p)) "failover_exhausted" (generation p)
         else select
     | None => select
     end.
Proof.
  intros [Hreg Hh] Hne Hirr. unfold decide.
  assert (Er : mapM validate_vendor_id (registered r) = Ok (registered r))
    by (by apply mapM_validate).
  rewrite Er; simpl. rewrite bool_decide_false by done.
  assert (Ha : mapM validate_vendor_id (vh_vendor_id <$> List.filter available (health r))
               = Ok (vh_vendor_id <$> List.filter available (health r))).
  { apply mapM_validate. split; [done|]. rewrite Forall_fmap, Forall_forall in Hh |- *.
    intros h [Hin _]%filter_in. by apply Hh. }
  rewrite (proj2 (no_irreversible _) Hirr), Ha. simpl. unfold next_generation.
  change (candidates _ _ _) with (List.filter (candidate r) (registered r)).
  repeat (case_match; simpl; try done).
Qed.

Lemma decide_irreversible r d a :
  decide r = Ok d -> a ∈ attempts r -> outcome a ∈ IRREVERSIBLE_OUTCOMES -> action d <> invoke.
Proof.
  unfold decide. intros H Ha Ho. apply bind_ok in H as (reg & _ & H).
  destruct (bool_decide (reg = [])); [by injection H as <-|].
  destruct (last_opt (List.filter _ _)) as [l|] eqn:L.
  - injection H as <-. by destruct (outcome l).
  - apply no_irreversible in L. rewrite Forall_forall in L. by apply L in Ha.
Qed.

Lemma candidates_first r v :
  (exists vs, List.filter (candidate r) (registered r) = v :: vs) <->
  exists pre post, registered r = pre ++ v :: post /\
    is_available r v /\ ~ tried (attempts r) v /\
    Forall (fun w => ~ is_available r w \/ tried (attempts r) w) pre.
Proof.
  split.
  - intros [vs H]. apply filter_cons_inv in H as (pre & post & -> & Hv & Hpre & _).
    apply candidate_true in Hv as [? ?]. exists pre, post. do 3 (split; [done|]).
    eapply Forall_impl; [exact Hpre|]. intros w. by rewrite candidate_false.
  - intros (pre & post & -> & ? & ? & Hpre). eexists. apply filter_first.
    + by apply candidate_true.
    + eapply Forall_impl; [exact Hpre|]. intros w. by rewrite candidate_false.
Qed.

(** ** Properties *)

(** The router is exact.  On well-formed identifiers it returns, and it
    tells the sender to invoke vendor [v] precisely when the specification
    allows it: never once an attempt was submitted, is in flight or has an
    uncertain result; the same vendor after a temporary refusal; otherwise the
    first available registered vendor without a final answer, unless the last
    refusal is no contractual rejection.  The generation it assigns is the
    successor of the last one. *)
Theorem decide_exact r v g (Hv : valid_request r) :
  (exists d, decide r = Ok d /\ action d = invoke /\ rd_vendor_id d = Some v /\
             rd_generation d = g)
  <-> may_invoke r v /\ g = next_generation r.
Proof.
  unfold may_invoke. split.
  - intros (d & Hd & Hact & Hvd & Hg).
    assert (Hirr : Forall (fun a => outcome a ∉ IRREVERSIBLE_OUTCOMES) (attempts r)).
    { apply Forall_forall. intros a Ha Ho. by eapply decide_irreversible. }
    assert (Hne : registered r <> []).
    { intros E. unfold decide in Hd. rewrite E in Hd. simpl in Hd. by injection Hd as <-. }
    rewrite decide_unfold in Hd by done. injection Hd as <-. unfold next_generation in *.
    assert (Hsel := candidates_first r v).
    destruct (last_opt (attempts r)) as [p|] eqn:L.
    + unfold outcome_in, hard_rejected in *. case_bool_decide as Hh.
      { simpl in *. simplify_eq. naive_solver. }
      destruct (_ && _) eqn:R; [done|].
      destruct (List.filter _ _) as [|w ws] eqn:F; [by case_bool_decide|].
      simpl in *. simplify_eq. split; [|done]. do 2 (split; [done|]). right. split; [|by apply Hsel; eauto].
      intros p' [= <-]. split; [done|]. intros [E S]. by rewrite E, S in R.
    + destruct (List.filter _ _) as [|w ws] eqn:F; [done|].
      simpl in *. simplify_eq. split; [|done]. do 2 (split; [done|]). right. split; [done|by apply Hsel; eauto].
  - intros ((Hne & Hirr & Hcase) & ->). eexists. split; [by apply decide_unfold|].
    unfold next_generation, outcome_in.
    destruct Hcase as [(p & -> & Hh & ->) | (Hp & Hsel)].
    + by rewrite bool_decide_true.
    + apply candidates_first in Hsel as [vs ->].
      destruct (last_opt (attempts r)) as [p|]; [|done].
      destruct (Hp p eq_refl) as [Hn Hr]. rewrite bool_decide_false by done.
      unfold hard_rejected. destruct (_ && _) eqn:R; [|done]. bool_prop. naive_solver.
Qed.

(** Two vendors, the first of which rejected generation 1 by contract. *)
Lemma decide_exact_witness :
  let r := mkRequest [tx "zhihui"; tx "backup"]
             [mkAttempt (tx "zhihui") 1 Outcome.rejected true (Some 1001)]
             [mkHealth (tx "zhihui") true None; mkHealth (tx "backup") true None]
             (tx "notice") 1 in
  valid_request r /\ may_invoke r (tx "backup").
Proof.
  assert (V : valid_request
    (mkRequest [tx "zhihui"; tx "backup"]
       [mkAttempt (tx "zhihui") 1 Outcome.rejected true (Some 1001)]
       [mkHealth (tx "zhihui") true None; mkHealth (tx "backup") true None] (tx "notice") 1))
    by (split; repeat constructor; vm_compute; reflexivity).
  split; [exact V|]. apply (decide_exact _ _ 2 V).
  eexists. split; [vm_compute; reflexivity|]. repeat split.
Defined.

End Routing.
Export (hints) Routing.
