(* ===== verification/Failover.v ===== *)
(** * Failover after a contractual rejection ([vendor/failover.py])

    The follow-up action of a vendor's error code, the choice of the next
    vendor from the registry, and the guards of claiming the next hop. *)

From S2P Require Import Prelude PyText VendorCodes Routing.

Module ChunkStatus.

(** [sms_chunk.status]; [inconsistent] is named by the code's isolating set and
    not by the table's constraint. *)
Inductive t :=
| pending | submitting | submitted | failed | retrying | uncertain | unknown_terminal
| split_capacity_blocked | failover_pending | inconsistent.

#[export] Instance eq_dec : EqDecision t.
Proof. solve_decision. Defined.

Definition name (s : t) : text :=
  match s with
  | pending => tx "pending" | submitting => tx "submitting" | submitted => tx "submitted"
  | failed => tx "failed" | retrying => tx "retrying" | uncertain => tx "uncertain"
  | unknown_terminal => tx "unknown_terminal"
  | split_capacity_blocked => tx "split_capacity_blocked"
  | failover_pending => tx "failover_pending" | inconsistent => tx "inconsistent"
  end.

End ChunkStatus.
Export (hints) ChunkStatus.

Module BatchStatus.

Inductive t :=
| pending_approval | rejected | scheduled | queued | sending | completed
| completed_unknown | cancelled | balance_blocked | expired.

#[export] Instance eq_dec : EqDecision t.
Proof. solve_decision. Defined.

End BatchStatus.
Export (hints) BatchStatus.

Module Failover.
Import Routing.

Inductive followup := fu_hold | failover_or_fail | fail_.

Definition PAUSE_FAILOVER_POLICY : list (Z * followup) :=
  [(999, fu_hold); (1000, fu_hold); (1009, fu_hold); (5000, fu_hold); (10003, fu_hold);
   (10004, fu_hold)].

Definition BLOCKING_ATTEMPT_OUTCOMES : list Outcome.t :=
  [Outcome.submitted; Outcome.uncertain; Outcome.invoking; Outcome.inconsistent].
Definition CONTRACT_REJECTED_OUTCOME : Outcome.t := Outcome.rejected.
Definition FIRST_INVOKE_CHUNK_STATES : list ChunkStatus.t := [ChunkStatus.submitting].
Definition CLAIMABLE_CHUNK_STATES : list ChunkStatus.t := [ChunkStatus.failover_pending].
Definition ISOLATING_CHUNK_STATES : list ChunkStatus.t :=
  [ChunkStatus.uncertain; ChunkStatus.unknown_terminal; ChunkStatus.inconsistent;
   ChunkStatus.failed; ChunkStatus.submitted].

Inductive InvokeClaimKind := AUTHORIZED | ALREADY_HANDLED | DENIED.
Inductive NextAction := FAILED | FAILOVER_PENDING | RETRYING | BALANCE_BLOCKED.

#[export] Instance followup_eq_dec : EqDecision followup.
Proof. solve_decision. Defined.
#[export] Instance NextAction_eq_dec : EqDecision NextAction.
Proof. solve_decision. Defined.

Record InvokeAuthorization := mkAuthorization {
  attempt_id : Z;
  ia_generation : Z;
  ia_vendor_id : text;
  adapter_id : text;
  route_policy_version : Z
}.

Record InvokeClaim := mkClaim {
  kind : InvokeClaimKind;
  authorization : option InvokeAuthorization;
  ic_reason : text;
  reset_at : option Z
}.

Record PersistedNextAction := mkNext {
  na_action : NextAction;
  next_vendor : option text;
  na_route_generation : option Z;
  previous_attempt_id : option Z;
  na_policy_version : Z;
  na_reason : text
}.

Definition followup_for_policy (policy : Codes.VendorErrorPolicy) (code : option Z) : followup :=
  if Codes.balance_blocked policy || Codes.pause_queues policy then
    let code := match code with Some c => c | None => -1 end in
    match List.find (fun e => fst e =? code) PAUSE_FAILOVER_POLICY with
    | Some (_, f) => f
    | None => fu_hold
    end
  else if Codes.safe_to_failover policy then failover_or_fail
  else fail_.

Definition followup_for_code (code : Z) : followup :=
  followup_for_policy (Codes.policy_for code) (Some code).

Definition vendor_matches_route (record : VendorRecord) (cat : text)
    (adapter_ids : option (list text)) : bool :=
  if negb (enabled record) then false
  else if negb (tmem cat (categories record)) then false
  else if bool_decide (adapter record = []) then false
  else match adapter_ids with None => true | Some ids => tmem (adapter record) ids end.

(** [records or default_vendor_registry()]: an empty tuple is the default too. *)
Definition or_default (records : option (list VendorRecord)) : list VendorRecord :=
  match records with Some (r :: rs) => r :: rs | _ => default_vendor_registry end.

(** A dict comprehension: a later record replaces an earlier one of its id. *)
Definition records_by_id (records : option (list VendorRecord)) : gmap text VendorRecord :=
  foldl (fun m item => <[vr_vendor_id item := item]> m) ∅ (or_default records).

Definition eligible_vendor_ids (records : option (list VendorRecord)) (cat : text)
    (adapter_ids : option (list text)) : list text :=
  vr_vendor_id <$>
    List.filter (fun item => vendor_matches_route item cat adapter_ids) (or_default records).

Definition decide_next_after_reject (atts : list VendorAttempt) (cat : text)
    (records : option (list VendorRecord)) (adapter_ids : option (list text))
    (policy_version : Z) : result exc RouteDecision :=
  let reg := eligible_vendor_ids records cat adapter_ids in
  Routing.decide
    (mkRequest reg atts ((fun v => mkHealth v true None) <$> reg) cat policy_version).

Definition next_action_after_safe_reject (atts : list VendorAttempt) (cat : text)
    (prev_id : Z) (records : option (list VendorRecord))
    (adapter_ids : option (list text)) (policy_version : Z)
    : result exc PersistedNextAction :=
  decision ← decide_next_after_reject atts cat records adapter_ids policy_version;
  let last := last_opt atts in
  let gen := match last with Some a => generation a | None => 0 end in
  let failed :=
    mkNext FAILED None (Some gen) (Some prev_id) policy_version
      (if bool_decide (reason decision = []) then tx "failover_exhausted" else reason decision) in
  match action decision, rd_vendor_id decision with
  | invoke, Some v =>
      if match last with None => true | Some a => negb (teqb v (vendor_id a)) end then
        next ← validate_vendor_id v;
        Ok (mkNext FAILOVER_PENDING (Some next) (Some gen) (Some prev_id) policy_version
              (reason decision))
      else Ok failed
  | _, _ => Ok failed
  end.

Definition claim_denied_reason (chunk_status : ChunkStatus.t) (batch_status : BatchStatus.t)
    (expected_route_generation actual_route_generation : Z)
    (previous_attempt : option VendorAttempt) (previous_attempt_chunk_id : option Z)
    (chunk_id : Z) (expected_next_vendor : text) (persisted_next_vendor : option text)
    (expected_policy actual_policy : Z) (retry_due : bool)
    (blocking_outcomes : list Outcome.t) (cat : text)
    (records : option (list VendorRecord)) (adapter_ids : option (list text))
    : result exc (option text) :=
  if bool_decide (chunk_status ∈ ISOLATING_CHUNK_STATES)
  then Ok (Some (tx "chunk_" ++ ChunkStatus.name chunk_status)) else
  if negb (bool_decide (chunk_status ∈ CLAIMABLE_CHUNK_STATES))
  then Ok (Some (tx "chunk_not_claimable")) else
  if negb (bool_decide (batch_status ∈ [BatchStatus.queued; BatchStatus.sending]))
  then Ok (Some (tx "batch_not_callable")) else
  if negb (actual_route_generation =? expected_route_generation)
  then Ok (Some (tx "generation_mismatch")) else
  if negb (actual_policy =? expected_policy)
  then Ok (Some (tx "policy_version_mismatch")) else
  if negb retry_due then Ok (Some (tx "retry_not_due")) else
  match previous_attempt with
  | None => Ok (Some (tx "previous_attempt_mismatch"))
  | Some p =>
      if negb (bool_decide (previous_attempt_chunk_id = Some chunk_id))
      then Ok (Some (tx "previous_attempt_mismatch")) else
      if negb (generation p =? expected_route_generation)
      then Ok (Some (tx "previous_generation_mismatch")) else
      if negb (bool_decide (outcome p = CONTRACT_REJECTED_OUTCOME))
      then Ok (Some (tx "previous_not_rejected")) else
      if negb (safe_to_failover p) then Ok (Some (tx "previous_not_safe_reject")) else
      if negb (bool_decide (persisted_next_vendor = Some expected_next_vendor))
      then Ok (Some (tx "next_vendor_mismatch")) else
      if List.existsb (fun o => bool_decide (o ∈ BLOCKING_ATTEMPT_OUTCOMES)) blocking_outcomes
      then Ok (Some (tx "blocking_attempt")) else
      expected ← validate_vendor_id expected_next_vendor;
      match records_by_id records !! expected with
      | Some record =>
          Ok (if vendor_matches_route record cat adapter_ids then None
              else Some (tx "vendor_not_eligible"))
      | None => Ok (Some (tx "vendor_not_eligible"))
      end
  end.

Definition already_handled_reason (chunk_status : ChunkStatus.t) (invoking_vendor : option text)
    (expected_next_vendor : text) (invoking_generation : option Z)
    (expected_route_generation : Z) : option text :=
  if bool_decide (chunk_status = ChunkStatus.submitting)
     && bool_decide (invoking_vendor = Some expected_next_vendor)
     && bool_decide (invoking_generation = Some (expected_route_generation + 1))
  then Some (tx "already_invoking") else None.

Definition submitting_timeout_includes (status : ChunkStatus.t) : bool :=
  bool_decide (status = ChunkStatus.submitting).

Definition historical_safe_reject_repairable (chunk_status : ChunkStatus.t)
    (atts : list VendorAttempt) : bool :=
  match last_opt atts with
  | None => false
  | Some last =>
      bool_decide (chunk_status = ChunkStatus.submitting)
      && negb (List.existsb (outcome_in BLOCKING_ATTEMPT_OUTCOMES) atts)
      && bool_decide (outcome last = CONTRACT_REJECTED_OUTCOME) && safe_to_failover last
  end.

(** A vendor chain in which every vendor answers with a contractual rejection:
    the vendors invoked one after the other, and the final decision. *)
Fixpoint rejection_chain (fuel : nat) (atts : list VendorAttempt) (cat : text)
    (records : option (list VendorRecord)) (adapter_ids : option (list text))
    : list text * option RouteDecision :=
  match fuel with
  | O => ([], None)
  | S n =>
      match decide_next_after_reject atts cat records adapter_ids ROUTE_POLICY_VERSION with
      | Raise _ => ([], None)
      | Ok d =>
          match action d, rd_vendor_id d with
          | invoke, Some v =>
              let a := mkAttempt v (rd_generation d) Outcome.rejected true None in
              let '(vs, last) := rejection_chain n (atts ++ [a]) cat records adapter_ids in
              (v :: vs, last)
          | _, _ => ([], Some d)
          end
      end
  end.

(** ** Lemmas *)

Lemma eligible_valid_request atts cat records adapter_ids pv :
  Forall (fun r => valid_id (vr_vendor_id r)) (or_default records) ->
  valid_request
    (mkRequest (eligible_vendor_ids records cat adapter_ids) atts
       ((fun v => mkHealth v true None) <$> eligible_vendor_ids records cat adapter_ids) cat pv).
Proof.
  intros H. assert (E : Forall valid_id (eligible_vendor_ids records cat adapter_ids)).
  { unfold eligible_vendor_ids. rewrite Forall_fmap, !Forall_forall in *. intros r Hr.
    apply filter_in in Hr as [? _]. by apply H. }
  split; simpl; [done|]. by rewrite <-list_fmap_compose, Forall_fmap, Forall_forall in *.
Qed.

Lemma eligible_in records cat adapter_ids v :
  v ∈ eligible_vendor_ids records cat adapter_ids <->
  exists r, r ∈ or_default records /\ vr_vendor_id r = v /\
            vendor_matches_route r cat adapter_ids = true.
Proof.
  unfold eligible_vendor_ids. rewrite list_elem_of_fmap. split.
  - intros (r & -> & [? ?]%filter_in). eauto.
  - intros (r & ? & <- & ?). exists r. by rewrite filter_in.
Qed.

(** The guards under which a claim of the next hop passes. *)
Lemma claim_denied_none cs bs eg ag p pcid cid env pnv ep ap due bo cat recs ads :
  claim_denied_reason cs bs eg ag p pcid cid env pnv ep ap due bo cat recs ads = Ok None ->
  cs = ChunkStatus.failover_pending /\
  (bs = BatchStatus.queued \/ bs = BatchStatus.sending) /\
  ag = eg /\ ap = ep /\ due = true /\ pcid = Some cid /\ pnv = Some env /\
  (exists a, p = Some a /\ generation a = eg /\ outcome a = Outcome.rejected /\
             safe_to_failover a = true) /\
  Forall (fun o => o ∉ BLOCKING_ATTEMPT_OUTCOMES) bo /\ valid_id env /\
  exists r, records_by_id recs !! env = Some r /\ vendor_matches_route r cat ads = true.
Proof.
  unfold claim_denied_reason. intros H.
  repeat (match type of H with context [if ?b then _ else _] =>
            lazymatch b with
            | vendor_matches_route _ _ _ => fail
            | _ => destruct b eqn:?; [try discriminate H|try discriminate H]
            end
          | context [match p with _ => _ end] => destruct p as [a|]; [|discriminate H]
          end).
  bool_prop. apply bind_ok in H as (e & [-> Hv]%validate_vendor_id_ok & H).
  assert (cs = ChunkStatus.failover_pending) by set_solver.
  assert (bs = BatchStatus.queued \/ bs = BatchStatus.sending) by set_solver.
  destruct (records_by_id recs !! env) as [r|] eqn:R; [|done].
  destruct (vendor_matches_route r cat ads) eqn:M; [|done].
  assert (Forall (fun o => o ∉ BLOCKING_ATTEMPT_OUTCOMES) bo).
  { rewrite Forall_forall. intros o Ho Hb.
    enough (List.existsb (fun o => bool_decide (o ∈ BLOCKING_ATTEMPT_OUTCOMES)) bo = true)
      by congruence.
    apply List.existsb_exists. exists o. by rewrite <-list_elem_of_In, bool_decide_eq_true. }
  naive_solver.
Qed.

Lemma rejected_request_filter cat records adapter_ids pre post atts pv :
  NoDup (pre ++ post) ->
  eligible_vendor_ids records cat adapter_ids = pre ++ post ->
  vendor_id <$> atts = pre -> Forall (fun a => safe_rejected a = true) atts ->
  let reg := eligible_vendor_ids records cat adapter_ids in
  let r := mkRequest reg atts ((fun v => mkHealth v true None) <$> reg) cat pv in
  List.filter (candidate r) (registered r) = post.
Proof.
  intros Hnd Hel Hids Hrej reg r. subst reg. simpl.
  assert (Hav : forall v, v ∈ pre ++ post -> is_available r v).
  { intros v Hv. exists (mkHealth v true None). rewrite <-Hel in Hv. simpl.
    by rewrite list_elem_of_fmap; naive_solver. }
  assert (Htr : forall v, tried atts v <-> v ∈ pre).
  { intros v. rewrite <-Hids, list_elem_of_fmap. unfold tried. rewrite Forall_forall in Hrej.
    split; [naive_solver|]. intros (a & -> & Ha). exists a. split; [done|]. split; [done|left].
    apply Hrej in Ha. unfold safe_rejected in Ha. bool_prop. done. }
  apply NoDup_app in Hnd as (_ & Hdis & _).
  rewrite Hel, List.filter_app, (proj2 (filter_nil_iff _ pre)), filter_all; [done| |].
  - apply Forall_forall. intros v Hv. apply candidate_true.
    split; [apply Hav; set_solver|]. simpl. rewrite Htr. intros ?. by apply (Hdis v).
  - apply Forall_forall. intros v Hv. apply candidate_false. right. by apply Htr.
Qed.

Lemma rejected_decide cat records adapter_ids pre post atts pv :
  Forall (fun r => valid_id (vr_vendor_id r)) (or_default records) ->
  NoDup (pre ++ post) -> pre ++ post <> [] ->
  eligible_vendor_ids records cat adapter_ids = pre ++ post ->
  vendor_id <$> atts = pre -> Forall (fun a => safe_rejected a = true) atts ->
  exists d, decide_next_after_reject atts cat records adapter_ids pv = Ok d /\
    match post with
    | v :: _ => action d = invoke /\ rd_vendor_id d = Some v
    | [] => action d = terminal_failed /\ reason d = tx "failover_exhausted"
    end.
Proof.
  intros Hv Hnd Hne Hel Hids Hrej. unfold decide_next_after_reject.
  assert (Hsr : forall p, last_opt atts = Some p ->
            outcome p = Outcome.rejected /\ safe_to_failover p = true).
  { intros p Hp%last_opt_in. rewrite Forall_forall in Hrej. apply Hrej in Hp.
    unfold safe_rejected in Hp. bool_prop. done. }
  rewrite decide_unfold; simpl.
  - eexists. split; [reflexivity|]. simpl.
    pose proof (rejected_request_filter cat records adapter_ids pre post atts pv) as F.
    simpl in F. rewrite F by done.
    destruct (last_opt atts) as [p|] eqn:L.
    + destruct (Hsr p eq_refl) as [E S]. unfold outcome_in, hard_rejected. rewrite E, S.
      rewrite bool_decide_false by (unfold HOLD_OUTCOMES; set_solver). simpl. by destruct post.
    + destruct post; [|done]. unfold last_opt in L. apply last_None in L. subst. done.
  - by apply eligible_valid_request.
  - by rewrite Hel.
  - rewrite Forall_forall in Hrej |- *. intros a Ha%Hrej. unfold safe_rejected in Ha. bool_prop.
    replace (outcome a) with Outcome.rejected. by apply (bool_decide_unpack _).
Qed.

Lemma rejection_chain_from cat records adapter_ids pre post atts fuel :
  Forall (fun r => valid_id (vr_vendor_id r)) (or_default records) ->
  NoDup (pre ++ post) -> pre ++ post <> [] ->
  eligible_vendor_ids records cat adapter_ids = pre ++ post ->
  vendor_id <$> atts = pre -> Forall (fun a => safe_rejected a = true) atts ->
  (length post < fuel)%nat ->
  exists d, rejection_chain fuel atts cat records adapter_ids = (post, Some d) /\
    action d = terminal_failed /\ reason d = tx "failover_exhausted".
Proof.
  intros Hv. revert pre atts fuel. induction post as [|v post IH]; intros pre atts fuel;
    intros Hnd Hne Hel Hids Hrej Hf; (destruct fuel as [|fuel]; [simpl in Hf; lia|]).
  - destruct (rejected_decide cat records adapter_ids pre [] atts ROUTE_POLICY_VERSION)
      as (d & E & A & R); [done..|]. exists d. simpl. by rewrite E, A.
  - destruct (rejected_decide cat records adapter_ids pre (v :: post) atts ROUTE_POLICY_VERSION)
      as (d & E & A & R); [done..|].
    destruct (IH (pre ++ [v])
                (atts ++ [mkAttempt v (rd_generation d) Outcome.rejected true None]) fuel)
      as (d' & E' & ?); [by rewrite <-app_assoc..| | | |].
    + by rewrite fmap_app, Hids.
    + apply Forall_app. auto.
    + simpl in Hf. lia.
    + exists d'. simpl. by rewrite E, A, R, E'.
Qed.

(** ** Properties *)

(** The follow-up of every vendor code.  A code outside the contractual
    rejection set fails the chunk; the balance and account codes hold it even
    though they are in the set; exactly the rest of the set may go to another
    vendor, and none of those codes asks for a retry, a delay, a pause or a
    smaller batch. *)
Theorem followup_exact code :
  (followup_for_code code = fail_ <-> code ∉ Codes.SAFE_TO_FAILOVER_CODES) /\
  (followup_for_code code = fu_hold <-> code ∈ PAUSE_FAILOVER_POLICY.*1) /\
  (code ∈ Codes.SAFE_TO_FAILOVER_CODES ->
   let p := Codes.policy_for code in
   Codes.retry_delays_s p = [] /\ Codes.delay_s p = None /\ Codes.shrink_batch_once p = false /\
   (followup_for_code code = failover_or_fail ->
    Codes.pause_queues p = false /\ Codes.balance_blocked p = false)).
Proof.
  assert (H := Codes.policy_for_cases (fun c p =>
    let f := followup_for_policy p (Some c) in
    let safe := bool_decide (c ∈ Codes.SAFE_TO_FAILOVER_CODES) in
    eqb (bool_decide (f = fail_)) (negb safe) &&
    eqb (bool_decide (f = fu_hold)) (bool_decide (c ∈ PAUSE_FAILOVER_POLICY.*1)) &&
    (negb safe ||
     bool_decide (Codes.retry_delays_s p = []) && bool_decide (Codes.delay_s p = None) &&
     negb (Codes.shrink_batch_once p) &&
     (negb (bool_decide (f = failover_or_fail)) ||
      negb (Codes.pause_queues p) && negb (Codes.balance_blocked p)))) code).
  cbv beta zeta in H. ospecialize (H _ _); [vm_compute; reflexivity| |].
  { intros Hs. rewrite (bool_decide_false (code ∈ Codes.SAFE_TO_FAILOVER_CODES)) by done.
    rewrite (bool_decide_false (code ∈ PAUSE_FAILOVER_POLICY.*1)); [done|].
    intros Hp. apply Hs. revert Hp. unfold Codes.SAFE_TO_FAILOVER_CODES. set_solver. }
  change (followup_for_policy (Codes.policy_for code) (Some code))
    with (followup_for_code code) in H.
  apply andb_true_iff in H as [[H1%eqb_prop H2%eqb_prop]%andb_true_iff H3].
  split; [|split].
  - by rewrite <-(bool_decide_eq_true (_ = fail_)), H1, negb_true_iff, bool_decide_eq_false.
  - by rewrite <-(bool_decide_eq_true (_ = fu_hold)), H2, bool_decide_eq_true.
  - intros Hs. bool_prop. destruct H3 as [H3|H3]; bool_prop; [done|].
    do 3 (split; [done|]). intros Hf.
    match goal with D : _ \/ _ |- _ => destruct D end; by bool_prop.
Qed.

(** Failover terminates and is exhaustive.  When every vendor rejects, the
    router visits each eligible vendor of the registry exactly once, in
    registry order, and then ends the chunk as failed with
    [failover_exhausted]; a fuel of one more than the eligible vendors is
    enough. *)
Theorem rejection_chain_exhausts cat records adapter_ids fuel
    (Hv : Forall (fun r => valid_id (vr_vendor_id r)) (or_default records))
    (Hnd : NoDup (eligible_vendor_ids records cat adapter_ids))
    (Hne : eligible_vendor_ids records cat adapter_ids <> [])
    (Hf : (length (eligible_vendor_ids records cat adapter_ids) < fuel)%nat) :
  exists d, rejection_chain fuel [] cat records adapter_ids =
              (eligible_vendor_ids records cat adapter_ids, Some d) /\
    action d = terminal_failed /\ reason d = tx "failover_exhausted".
Proof. apply (rejection_chain_from _ _ _ [] _ []); auto. Qed.

Definition example_registry : list VendorRecord :=
  default_vendor_registry ++
  [ mkVendor (tx "backup") true [tx "notice"] (tx "mock") (tx "ratelimit:backup")
      (tx "queue:paused:backup") (tx "backup");
    mkVendor (tx "spare") false [tx "notice"] (tx "mock") (tx "ratelimit:spare")
      (tx "queue:paused:spare") (tx "spare") ].

Lemma rejection_chain_exhausts_witness :
  exists d, rejection_chain 3 [] (tx "notice") (Some example_registry) None =
              ([tx "zhihui"; tx "backup"], Some d) /\
    action d = terminal_failed /\ reason d = tx "failover_exhausted".
Proof.
  apply (rejection_chain_exhausts (tx "notice") (Some example_registry) None 3).
  - repeat constructor; vm_compute; reflexivity.
  - apply (bool_decide_unpack _). vm_compute. exact I.
  - vm_compute. discriminate.
  - vm_compute. lia.
Defined.

End Failover.
Export (hints) Failover.
