(* ===== verification/OutboxContract.v ===== *)
(** * Outbox event contract ([services/outbox.py], table [outbox_event])

    The specification of an event to be enqueued, its validation in the
    application, and the check constraints the database puts on the row. *)

From S2P Require Import Prelude PyText.

Module OutboxContract.

(** A JSON scalar reference: [str | int]. *)
Inductive arg := AStr (s : text) | AInt (n : Z).

#[export] Instance arg_eq_dec : EqDecision arg.
Proof. solve_decision. Defined.

Record OutboxEventSpec := mkSpec {
  event_type : text;
  aggregate_type : text;
  aggregate_id : text;
  task_name : text;
  queue : text;
  args : list arg;
  dedup_key : text;
  max_attempts : Z;
  correlation_id : option Z
}.

(** Character classes of the reference patterns. *)
Definition r1_5 : regex := RClass (between 49 53).
Definition r89ab : regex := RClass (fun c => between 56 57 c || between 97 98 c).
Definition rdash : regex := rlit "-".

Definition BATCH_REFERENCE : regex := rhex 32.
Definition UUID_REFERENCE : regex :=
  rseq [rhex 8; rdash; rhex 4; rdash; r1_5; rhex 3; rdash; r89ab; rhex 3; rdash; rhex 12].
Definition rdigits1 : regex := RCat (RClass ascii_digit) (RStar (RClass ascii_digit)).
Definition STRUCTURED_REFERENCE : regex :=
  ralts
    [ rseq [rlit "batch.ready:"; rhex 32];
      rseq [rlit "chunk.ready:"; rposnum];
      rseq [rlit "scheduled:"; rhex 32; rlit ":ready"];
      rseq [rlit "batch:"; rhex 32; rlit ":cancelled"];
      rseq [rlit "approval:"; rposnum; rlit ":";
            ralts [rlit "approved"; rlit "rejected"; rlit "expired"]];
      rseq [rlit "callback:"; rposnum; rlit ":attempt:"; rdigits1];
      rseq [rlit "alert:"; rposnum; rlit ":"; ralts [rlit "wecom"; rlit "smtp"]];
      rseq [rlit "template.sync:"; rposnum; rlit ":"; rposnum];
      rseq [rlit "usage.release:"; UUID_REFERENCE];
      rseq [rlit "uncertain.effect:"; rposnum; rlit ":"; rposnum] ].

Definition TASK_NAMES : list text :=
  [ tx "app.tasks.adopt_sign"; tx "app.tasks.bind_sign"; tx "app.tasks.bind_template";
    tx "app.tasks.sync_template"; tx "app.tasks.send.process_batch";
    tx "app.tasks.send.process_chunk"; tx "app.tasks.deliver_callback";
    tx "app.tasks.outbox.compensate_quota"; tx "app.tasks.outbox.deliver_alert";
    tx "app.tasks.outbox.release_usage"; tx "app.tasks.outbox.publish_usage_projection";
    tx "app.tasks.outbox.trigger_job"; tx "app.tasks.outbox.apply_uncertain_effect" ].

Definition MANUAL_JOB_TASK_NAMES : list text :=
  [ tx "app.tasks.poll_report"; tx "app.tasks.expire_report_timeouts"; tx "app.tasks.poll_reply";
    tx "app.tasks.reconcile"; tx "app.tasks.expire_approvals"; tx "app.tasks.dispatch_scheduled";
    tx "app.tasks.sync_templates"; tx "app.tasks.sync_signs"; tx "app.tasks.poll_balance";
    tx "app.tasks.anomaly_scan"; tx "app.tasks.dispatch_callbacks";
    tx "app.tasks.dispatch_exports"; tx "app.tasks.dispatch_imports";
    tx "app.tasks.cleanup_exports"; tx "app.tasks.aggregate_stats"; tx "app.tasks.housekeeping";
    tx "app.tasks.reconcile_usage_projection"; tx "app.tasks.security_daily_generate" ].

Definition ALLOWED_QUEUES : list text :=
  [tx "realtime"; tx "realtime-report"; tx "bulk"; tx "callback"].

(** [_assert_safe] on a string; integers are always safe. *)
Definition _assert_safe (value : text) : result exc unit :=
  if fullmatch BATCH_REFERENCE value || fullmatch STRUCTURED_REFERENCE value then Ok tt
  else refuse (phone_in_text value) (ValueError "outbox args contain a phone number").

Definition _assert_safe_arg (a : arg) : result exc unit :=
  match a with AStr s => _assert_safe s | AInt _ => Ok tt end.

Fixpoint _assert_safe_args (l : list arg) : result exc unit :=
  match l with
  | [] => Ok tt
  | a :: l' => _ ← _assert_safe_arg a; _assert_safe_args l'
  end.

Definition is_uuid (s : text) : bool := fullmatch UUID_REFERENCE s.
Definition starts0 (s : text) : bool := starts_with (tx "0") s.
(** A decimal text without a leading zero. *)
Definition decimal_ref (s : text) : bool := isdecimal s && negb (starts0 s).
Definition colon : Z := 58.
Definition dot : Z := 46.
Definition args_eqb (a b : list arg) : bool := bool_decide (a = b).

Definition _usage_projection_reference (spec : OutboxEventSpec) : bool :=
  let prefix := tx "usage.projection:" ++ aggregate_id spec ++ tx ":" in
  let tail := remove_prefix prefix (dedup_key spec) in
  let '(generation, separator, chunk_id) := partition colon tail in
  teqb (task_name spec) (tx "app.tasks.outbox.publish_usage_projection")
  && teqb (event_type spec) (tx "usage.projection")
  && teqb (aggregate_type spec) (tx "usage_reservation")
  && teqb (queue spec) (tx "realtime")
  && is_uuid (aggregate_id spec)
  && args_eqb (args spec) [AStr (aggregate_id spec)]
  && separator
  && decimal_ref generation && decimal_ref chunk_id.

Definition usage_release_reference (spec : OutboxEventSpec) : bool :=
  teqb (task_name spec) (tx "app.tasks.outbox.release_usage")
  && teqb (event_type spec) (tx "usage.release")
  && teqb (aggregate_type spec) (tx "usage_reservation")
  && is_uuid (aggregate_id spec)
  && args_eqb (args spec) [AStr (aggregate_id spec)]
  && teqb (dedup_key spec) (tx "usage.release:" ++ aggregate_id spec).

Definition uncertain_effect_reference (spec : OutboxEventSpec) : bool :=
  teqb (task_name spec) (tx "app.tasks.outbox.apply_uncertain_effect")
  && teqb (event_type spec) (tx "uncertain.effect")
  && teqb (aggregate_type spec) (tx "sms_uncertain_resolution")
  && teqb (queue spec) (tx "realtime")
  && decimal_ref (aggregate_id spec)
  && args_eqb (args spec) [AInt (int_of (aggregate_id spec))]
  && starts_with (tx "uncertain.effect:" ++ aggregate_id spec ++ tx ":") (dedup_key spec)
  && isdecimal (after_last colon (dedup_key spec)).

Definition chunk_ready_reference (spec : OutboxEventSpec) : bool :=
  teqb (task_name spec) (tx "app.tasks.send.process_chunk")
  && teqb (event_type spec) (tx "chunk.ready")
  && teqb (aggregate_type spec) (tx "sms_chunk")
  && tmem (queue spec) [tx "realtime"; tx "bulk"]
  && decimal_ref (aggregate_id spec)
  && args_eqb (args spec) [AInt (int_of (aggregate_id spec))]
  && teqb (dedup_key spec) (tx "chunk.ready:" ++ aggregate_id spec).

Definition manual_job_reference (spec : OutboxEventSpec) : bool :=
  match args spec with
  | [AStr job] =>
      tmem job MANUAL_JOB_TASK_NAMES
      && teqb (task_name spec) (tx "app.tasks.outbox.trigger_job")
      && teqb (event_type spec) (tx "job.trigger")
      && teqb (aggregate_type spec) (tx "job")
      && teqb (aggregate_id spec) (after_last dot job)
      && starts_with (tx "job.trigger:" ++ aggregate_id spec ++ tx ":") (dedup_key spec)
      && is_uuid (after_last colon (dedup_key spec))
  | _ => false
  end.

Definition exact_sign_sync_reference (spec : OutboxEventSpec) : bool :=
  let prefix := tx "job.trigger:sync_signs:" ++ aggregate_id spec ++ tx ":" in
  teqb (task_name spec) (tx "app.tasks.outbox.trigger_job")
  && teqb (event_type spec) (tx "job.trigger")
  && teqb (aggregate_type spec) (tx "sms_sign")
  && teqb (queue spec) (tx "realtime")
  && (max_attempts spec =? 3)
  && decimal_ref (aggregate_id spec)
  && (int_of (aggregate_id spec) <=? 2147483647)
  && args_eqb (args spec) [AStr (tx "app.tasks.sync_signs"); AInt (int_of (aggregate_id spec))]
  && starts_with prefix (dedup_key spec)
  && decimal_ref (remove_prefix prefix (dedup_key spec)).

Definition vendor_binding_reference (spec : OutboxEventSpec) : bool :=
  let template := teqb (task_name spec) (tx "app.tasks.bind_template") in
  tmem (task_name spec) [tx "app.tasks.bind_template"; tx "app.tasks.bind_sign"]
  && teqb (event_type spec) (if template then tx "template.bind" else tx "sign.bind")
  && teqb (aggregate_type spec) (if template then tx "sms_template" else tx "sms_sign")
  && teqb (queue spec) (tx "realtime")
  && (max_attempts spec =? 1)
  && decimal_ref (aggregate_id spec)
  && args_eqb (args spec) [AInt (int_of (aggregate_id spec))]
  && starts_with (event_type spec ++ tx ":" ++ aggregate_id spec ++ tx ":") (dedup_key spec)
  && is_uuid (after_last colon (dedup_key spec)).

Definition template_sync_reference (spec : OutboxEventSpec) : bool :=
  teqb (task_name spec) (tx "app.tasks.sync_template")
  && teqb (event_type spec) (tx "template.sync")
  && teqb (aggregate_type spec) (tx "sms_template")
  && teqb (queue spec) (tx "realtime")
  && (max_attempts spec =? 3)
  && decimal_ref (aggregate_id spec)
  && args_eqb (args spec) [AInt (int_of (aggregate_id spec))]
  && starts_with (tx "template.sync:" ++ aggregate_id spec ++ tx ":") (dedup_key spec)
  && decimal_ref (after_last colon (dedup_key spec)).

Definition sign_adoption_reference (spec : OutboxEventSpec) : bool :=
  teqb (task_name spec) (tx "app.tasks.adopt_sign")
  && teqb (event_type spec) (tx "sign.adopt")
  && teqb (aggregate_type spec) (tx "sms_sign")
  && teqb (queue spec) (tx "realtime")
  && (max_attempts spec =? 3)
  && decimal_ref (aggregate_id spec)
  && match args spec with
     | [a; AInt v] => bool_decide (a = AInt (int_of (aggregate_id spec)))
                      && (0 <? v) && (v <=? 2147483647)
     | _ => false
     end
  && starts_with (tx "sign.adopt:" ++ aggregate_id spec ++ tx ":") (dedup_key spec)
  && is_uuid (after_last colon (dedup_key spec)).

Definition len_between (lo hi : Z) (s : text) : bool := (lo <=? len s) && (len s <=? hi).

(** A structured reference of one of the nine internal event kinds. *)
Definition internal_reference (spec : OutboxEventSpec) : bool :=
  usage_release_reference spec || _usage_projection_reference spec
  || chunk_ready_reference spec || uncertain_effect_reference spec
  || manual_job_reference spec || exact_sign_sync_reference spec
  || vendor_binding_reference spec || template_sync_reference spec
  || sign_adoption_reference spec.

Definition validate_spec (spec : OutboxEventSpec) : result exc unit :=
  let task s := teqb (task_name spec) (tx s) in
  _ ← refuse (bool_decide (correlation_id spec = Some 0))
        (ValueError "invalid outbox correlation_id");
  _ ← require (len_between 1 64 (event_type spec)) (ValueError "invalid outbox event_type");
  _ ← require (len_between 1 32 (aggregate_type spec)) (ValueError "invalid outbox aggregate_type");
  _ ← require (len_between 1 128 (aggregate_id spec)) (ValueError "invalid outbox aggregate_id");
  _ ← require (tmem (task_name spec) TASK_NAMES) (ValueError "invalid outbox task_name");
  _ ← require (tmem (queue spec) ALLOWED_QUEUES) (ValueError "invalid outbox queue");
  _ ← require (len_between 1 192 (dedup_key spec)) (ValueError "invalid outbox dedup_key");
  _ ← require ((1 <=? max_attempts spec) && (max_attempts spec <=? 100))
        (ValueError "invalid outbox max_attempts");
  _ ← refuse (task "app.tasks.outbox.release_usage" && negb (usage_release_reference spec))
        (ValueError "invalid usage release outbox contract");
  _ ← refuse (task "app.tasks.outbox.publish_usage_projection"
              && negb (_usage_projection_reference spec))
        (ValueError "invalid usage projection outbox contract");
  _ ← refuse (task "app.tasks.send.process_chunk" && negb (chunk_ready_reference spec))
        (ValueError "invalid chunk ready outbox contract");
  _ ← refuse (task "app.tasks.outbox.apply_uncertain_effect"
              && negb (uncertain_effect_reference spec))
        (ValueError "invalid uncertain effect outbox contract");
  _ ← refuse (task "app.tasks.outbox.trigger_job"
              && negb (manual_job_reference spec || exact_sign_sync_reference spec))
        (ValueError "invalid manual job outbox contract");
  _ ← refuse (tmem (task_name spec) [tx "app.tasks.bind_template"; tx "app.tasks.bind_sign"]
              && negb (vendor_binding_reference spec))
        (ValueError "invalid vendor binding outbox contract");
  _ ← refuse (task "app.tasks.sync_template" && negb (template_sync_reference spec))
        (ValueError "invalid template sync outbox contract");
  _ ← refuse (task "app.tasks.adopt_sign" && negb (sign_adoption_reference spec))
        (ValueError "invalid sign adoption outbox contract");
  if internal_reference spec then Ok tt else
  _ ← _assert_safe (aggregate_id spec);
  _ ← _assert_safe_args (args spec);
  _assert_safe (dedup_key spec).

(** ** The check constraints of [outbox_event] *)

(** [s ~ r]: the pattern occurs somewhere. *)
Definition rsearch (r : regex) (s : text) : bool :=
  let any := RStar (RClass (fun _ => true)) in fullmatch (RCat any (RCat r any)) s.

(** The text output of a [jsonb] string. *)
Definition hex_char (n : Z) : Z := if n <? 10 then 48 + n else 87 + n.
Definition escape_char (c : Z) : text :=
  if c =? 34 then [92; 34] else if c =? 92 then [92; 92]
  else if c =? 8 then tx "\b" else if c =? 12 then tx "\f" else if c =? 10 then tx "\n"
  else if c =? 13 then tx "\r" else if c =? 9 then tx "\t"
  else if c <? 32 then tx "\u00" ++ [hex_char (c / 16); hex_char (c mod 16)]
  else [c].
Definition arg_text (a : arg) : text :=
  match a with
  | AStr s => [34] ++ concat (map escape_char s) ++ [34]
  | AInt n => str_int n
  end.
Fixpoint join (sep : text) (l : list text) : text :=
  match l with
  | [] => []
  | [x] => x
  | x :: l' => x ++ sep ++ join sep l'
  end.
(** [args::text] *)
Definition args_text (l : list arg) : text := tx "[" ++ join (tx ", ") (map arg_text l) ++ tx "]".

Definition rquote : regex := RClass (Z.eqb 34).
Definition rforbidden_key : regex :=
  rseq [rquote;
        ralts [rlit "phone"; rlit "phones"; rlit "mobile"; rlit "mobiles"; rlit "phone_enc";
               rlit "phone_hmac"; rlit "content"; rlit "body"; rlit "secret"; rlit "password"];
        rquote; RStar (RClass is_space); rlit ":"].

(** [jsonb_typeof(args->i)='number' AND args->>i ~ r] and its string form. *)
Definition num_arg (r : regex) (a : arg) : bool :=
  match a with AInt n => fullmatch r (str_int n) | AStr _ => false end.
Definition str_arg (f : text -> bool) (a : arg) : bool :=
  match a with AStr s => f s | AInt _ => false end.
(** [args->>i]: the text of either. *)
Definition arg_raw (a : arg) : text := match a with AStr s => s | AInt n => str_int n end.

Definition rcompensation_source : regex :=
  ralts [ rseq [rlit "batch:"; rhex 32; rlit ":cancelled"];
          rseq [rlit "approval:"; rposnum; rlit ":"; ralts [rlit "rejected"; rlit "expired"]] ].

Definition ck_outbox_args_no_pii (spec : OutboxEventSpec) : bool :=
  let task l := tmem (task_name spec) (map tx l) in
  (negb (phone_in_ascii (args_text (args spec)))
   || match args spec with
      | [a] =>
          task ["app.tasks.bind_sign"; "app.tasks.bind_template"; "app.tasks.sync_template";
                "app.tasks.send.process_chunk"; "app.tasks.outbox.apply_uncertain_effect"]%string
            && num_arg rposnum a
          || task ["app.tasks.send.process_batch"]%string && str_arg (fullmatch (rhex 32)) a
          || task ["app.tasks.deliver_callback"]%string && num_arg rdigits1 a
          || task ["app.tasks.outbox.release_usage";
                   "app.tasks.outbox.publish_usage_projection"]%string && str_arg is_uuid a
      | [a; b] =>
          task ["app.tasks.adopt_sign"]%string && num_arg rposnum a && num_arg rposnum b
            && match b with AInt v => v <=? 2147483647 | AStr _ => false end
          || task ["app.tasks.outbox.deliver_alert"]%string && num_arg rdigits1 a
            && tmem (arg_raw b) [tx "wecom"; tx "smtp"]
      | [a0; a1; a2; a3; a4; a5] =>
          task ["app.tasks.outbox.compensate_quota"]%string && num_arg rdigits1 a0
            && str_arg (fun s => negb (phone_in_ascii s)) a1
            && tmem (arg_raw a2) [tx "verify"; tx "notice"; tx "market"]
            && fullmatch (rrep 8 (RClass ascii_digit)) (arg_raw a3)
            && num_arg rdigits1 a4
            && fullmatch rcompensation_source (arg_raw a5)
      | _ => false
      end)
  && negb (rsearch rforbidden_key (args_text (args spec))).

Definition rdedup_reference : regex :=
  ralts
    [ rseq [rlit "batch.ready:"; rhex 32];
      rseq [rlit "chunk.ready:"; rposnum];
      rseq [rlit "uncertain.effect:"; rposnum; rlit ":"; rposnum];
      rseq [rlit "scheduled:"; rhex 32; rlit ":ready"];
      rseq [rlit "batch:"; rhex 32; rlit ":cancelled"];
      rseq [rlit "approval:"; rposnum; rlit ":";
            ralts [rlit "approved"; rlit "rejected"; rlit "expired"]];
      rseq [rlit "callback:"; rposnum; rlit ":attempt:"; rdigits1];
      rseq [rlit "alert:"; rposnum; rlit ":"; ralts [rlit "wecom"; rlit "smtp"]];
      rseq [rlit "template.sync:"; rposnum; rlit ":"; rposnum];
      rseq [ralts [rlit "template.bind"; rlit "sign.bind"; rlit "sign.adopt"]; rlit ":";
            rposnum; rlit ":"; UUID_REFERENCE];
      rseq [rlit "usage.release:"; UUID_REFERENCE];
      rseq [rlit "usage.projection:"; UUID_REFERENCE; rlit ":"; rposnum; rlit ":"; rposnum] ].

Definition ck_outbox_refs_no_pii (spec : OutboxEventSpec) : bool :=
  let task l := tmem (task_name spec) (map tx l) in
  let agg := aggregate_id spec in
  (negb (phone_in_ascii agg)
   || task ["app.tasks.bind_sign"; "app.tasks.bind_template"; "app.tasks.adopt_sign";
            "app.tasks.sync_template"; "app.tasks.outbox.apply_uncertain_effect";
            "app.tasks.send.process_chunk"]%string && fullmatch rposnum agg
   || task ["app.tasks.send.process_batch"]%string && fullmatch (rhex 32) agg
   || task ["app.tasks.outbox.compensate_quota"]%string
        && fullmatch (ralts [rhex 32; rdigits1]) agg
   || task ["app.tasks.deliver_callback"; "app.tasks.outbox.deliver_alert"]%string
        && fullmatch rdigits1 agg
   || task ["app.tasks.outbox.release_usage";
            "app.tasks.outbox.publish_usage_projection"]%string && is_uuid agg)
  && (negb (phone_in_ascii (dedup_key spec)) || fullmatch rdedup_reference (dedup_key spec)).

(** A [jsonb] text cannot hold the NUL character. *)
Definition jsonb_storable (l : list arg) : bool :=
  forallb (fun a => match a with AStr s => negb (contains 0 s) | AInt _ => true end) l.

(** ** Lemmas *)

Lemma validate_spec_ok spec :
  validate_spec spec = Ok tt ->
  1 <= max_attempts spec <= 100 /\ correlation_id spec <> Some 0 /\
  task_name spec ∈ TASK_NAMES /\ queue spec ∈ ALLOWED_QUEUES /\
  (internal_reference spec = true \/
   _assert_safe (aggregate_id spec) = Ok tt /\ _assert_safe_args (args spec) = Ok tt /\
   _assert_safe (dedup_key spec) = Ok tt).
Proof.
  unfold validate_spec. intros H.
  repeat (apply bind_ok in H as (? & ?E & H)).
  repeat match goal with
  | X : require _ _ = Ok _ |- _ => apply require_ok in X
  | X : refuse _ _ = Ok _ |- _ => apply refuse_ok in X
  end.
  assert (A : internal_reference spec = true \/
    _assert_safe (aggregate_id spec) = Ok tt /\ _assert_safe_args (args spec) = Ok tt /\
    _assert_safe (dedup_key spec) = Ok tt).
  { destruct (internal_reference spec); [by left|right].
    apply bind_ok in H as ([] & ? & H). apply bind_ok in H as ([] & ? & ?). done. }
  clear H. unfold tmem in *. bool_prop. auto 10.
Qed.

Lemma assert_safe_ok s :
  _assert_safe s = Ok tt -> phone_in_text s = true ->
  fullmatch BATCH_REFERENCE s = true \/ fullmatch STRUCTURED_REFERENCE s = true.
Proof.
  unfold _assert_safe. intros H P. rewrite P in H.
  destruct (_ || _) eqn:E; [by bool_prop | done].
Qed.

Lemma assert_safe_args_ok l s :
  _assert_safe_args l = Ok tt -> AStr s ∈ l -> _assert_safe s = Ok tt.
Proof.
  induction l as [|a l IH]; simpl; [set_solver|].
  intros ([] & Ha & Hl)%bind_ok [<-|Hin]%elem_of_cons; auto.
Qed.

Lemma manual_jobs_no_phone job : job ∈ MANUAL_JOB_TASK_NAMES -> phone_in_text job = false.
Proof.
  intros H. assert (A : forallb (fun j => negb (phone_in_text j)) MANUAL_JOB_TASK_NAMES = true)
    by (vm_compute; reflexivity).
  rewrite List.forallb_forall in A. apply negb_true_iff, A. by apply list_elem_of_In.
Qed.

(** A reference whose only argument is a number has no string argument. *)
Ltac no_string :=
  match goal with
  | E : args ?spec = [AInt _], H : AStr _ ∈ args ?spec |- _ => rewrite E in H; elem_inv H; done
  end.

(** The string arguments of an internal reference. *)
Lemma internal_string_args spec s :
  internal_reference spec = true -> AStr s ∈ args spec ->
  is_uuid s = true \/ s ∈ MANUAL_JOB_TASK_NAMES.
Proof.
  unfold internal_reference. intros H Hin. rewrite !orb_true_iff in H.
  destruct H as [[[[[[[[H|H]|H]|H]|H]|H]|H]|H]|H].
  - unfold usage_release_reference, args_eqb in H. bool_prop.
    replace (args spec) with [AStr (aggregate_id spec)] in Hin. elem_inv Hin. left. congruence.
  - unfold _usage_projection_reference, args_eqb in H. destruct (partition _ _) as [[g sp] ch].
    bool_prop. replace (args spec) with [AStr (aggregate_id spec)] in Hin.
    elem_inv Hin. left. congruence.
  - unfold chunk_ready_reference, args_eqb in H. bool_prop. no_string.
  - unfold uncertain_effect_reference, args_eqb in H. bool_prop. no_string.
  - unfold manual_job_reference, tmem in H. destruct (args spec) as [|[job|] [|]]; try done.
    bool_prop. elem_inv Hin. right. congruence.
  - unfold exact_sign_sync_reference, args_eqb in H. bool_prop. right.
    replace (args spec) with
      [AStr (tx "app.tasks.sync_signs"); AInt (int_of (aggregate_id spec))] in Hin.
    elem_inv Hin; [|done]. injection Hin as ->. apply (bool_decide_unpack _). vm_compute. exact I.
  - unfold vendor_binding_reference, args_eqb in H. bool_prop. no_string.
  - unfold template_sync_reference, args_eqb in H. bool_prop. no_string.
  - unfold sign_adoption_reference in H. destruct (args spec) as [|a [|[] [|]]] eqn:E;
      rewrite ?andb_false_r in H; try done; try (by bool_prop). bool_prop. subst a.
    elem_inv Hin; done.
Qed.

(** ** Properties *)

(** No mobile number travels in an accepted event.  A string argument in
    which a mobile number can be read is one of the machine references: a
    32-digit hexadecimal batch number, a structured reference or a UUID. *)
Theorem accepted_args_no_phone spec s (Hv : validate_spec spec = Ok tt)
    (Hin : AStr s ∈ args spec) (Hp : phone_in_text s = true) :
  fullmatch BATCH_REFERENCE s = true \/ fullmatch STRUCTURED_REFERENCE s = true \/
  fullmatch UUID_REFERENCE s = true.
Proof.
  destruct (validate_spec_ok _ Hv) as (_ & _ & _ & _ & [Hi | (_ & Ha & _)]).
  - destruct (internal_string_args _ _ Hi Hin) as [Hu | Hj]; [by auto|].
    by rewrite manual_jobs_no_phone in Hp.
  - eapply assert_safe_args_ok, assert_safe_ok in Ha; naive_solver.
Qed.

(** A batch event whose batch number happens to end in a mobile number. *)
Definition example_batch_spec : OutboxEventSpec :=
  let no := tx "abcdefabcdefabcdefabc13800138000" in
  mkSpec (tx "batch.ready") (tx "sms_batch") no (tx "app.tasks.send.process_batch") (tx "bulk")
    [AStr no] (tx "batch.ready:" ++ no) 12 None.

Lemma accepted_args_no_phone_witness :
  validate_spec example_batch_spec = Ok tt /\
  fullmatch BATCH_REFERENCE (tx "abcdefabcdefabcdefabc13800138000") = true.
Proof.
  assert (V : validate_spec example_batch_spec = Ok tt) by (vm_compute; reflexivity).
  split; [exact V|].
  destruct (accepted_args_no_phone example_batch_spec
              (tx "abcdefabcdefabcdefabc13800138000") V) as [H|[H|H]].
  - apply list_elem_of_here.
  - vm_compute; reflexivity.
  - exact H.
  - vm_compute in H; discriminate H.
  - vm_compute in H; discriminate H.
Defined.

(** ** Manual jobs *)

(** The event of [OutboxJobSender.send] ([services/ops_dispatch.py]) for a
    given random request id. *)
Definition manual_job_spec (task_name queue request_id : text) : OutboxEventSpec :=
  let job_name := after_last dot task_name in
  mkSpec (tx "job.trigger") (tx "job") job_name (tx "app.tasks.outbox.trigger_job") queue
    [AStr task_name] (tx "job.trigger:" ++ job_name ++ tx ":" ++ request_id) 12 None.

Definition OutboxJobSender_send (task_name queue request_id : text) : result exc OutboxEventSpec :=
  _ ← require (tmem task_name MANUAL_JOB_TASK_NAMES)
        (ValueError "manual job task is not allowlisted");
  Ok (manual_job_spec task_name queue request_id).

(** The length of the texts of a pattern without repetition. *)
Fixpoint width (r : regex) : option nat :=
  match r with
  | RNone => None
  | REps => Some 0%nat
  | RClass _ => Some 1%nat
  | RCat a b => n ← width a; m ← width b; Some (n + m)%nat
  | RAlt a b => n ← width a; m ← width b; if (n =? m)%nat then Some n else None
  | RStar _ => None
  end.

Lemma lang_width r s : lang r s -> forall n, width r = Some n -> length s = n.
Proof.
  induction 1; intros n; simpl; try (by intros [= <-]); try done.
  - intros (k & K & (m & M & [= <-])%bind_Some)%bind_Some. rewrite length_app. f_equal; auto.
  - intros (k & K & (m & M & E)%bind_Some)%bind_Some. destruct (Nat.eqb_spec k m); simplify_eq. auto.
  - intros (k & K & (m & M & E)%bind_Some)%bind_Some. destruct (Nat.eqb_spec k m); simplify_eq. auto.
Qed.

(** Every character of a pattern is of a class. *)
Fixpoint over (f : Z -> bool) (r : regex) : Prop :=
  match r with
  | RNone | REps => True
  | RClass g => forall c, g c = true -> f c = true
  | RCat a b | RAlt a b => over f a /\ over f b
  | RStar a => over f a
  end.

Lemma lang_over f r s : lang r s -> over f r -> forallb f s = true.
Proof.
  induction 1; simpl; intros O; try done; try (by apply IHlang, O).
  - by rewrite (O c) by done.
  - rewrite forallb_app. destruct O. by rewrite IHlang1, IHlang2.
  - rewrite forallb_app. by rewrite IHlang1, IHlang2.
Qed.

(** A pattern without texts. *)
Fixpoint barren (r : regex) : bool :=
  match r with
  | RNone => true
  | REps | RClass _ | RStar _ => false
  | RCat a b => barren a || barren b
  | RAlt a b => barren a && barren b
  end.

Lemma barren_spec r s : lang r s -> barren r = false.
Proof.
  induction 1; simpl; try done; rewrite ?IHlang, ?IHlang1, ?IHlang2; try done.
  by apply andb_false_r.
Qed.

Definition uuid_char (c : Z) : bool := ascii_hex c || (c =? 45).

Lemma uuid_shape u : is_uuid u = true -> length u = 36%nat /\ forallb uuid_char u = true.
Proof.
  unfold is_uuid. rewrite fullmatch_spec. intros L. split; [by apply (lang_width _ _ L)|].
  apply (lang_over _ _ _ L). unfold uuid_char, ascii_hex, ascii_digit, between, rdash. cbn -[Z.eqb Z.leb].
  split_and!; try done; try (split; [|done]); intros c X; unfold ascii_hex, ascii_digit, between in X;
    first [lia | apply Z.eqb_eq in X; by rewrite <- X].
Qed.

(** What follows the last [c] of a text without [c]. *)
Lemma after_last_app c p u : c ∉ u -> after_last c (p ++ [c] ++ u) = u.
Proof.
  intros N. unfold after_last. rewrite !reverse_app. simpl.
  replace ((reverse u ++ reverse [c]) ++ reverse p) with (reverse u ++ c :: reverse p)
    by (by rewrite <- app_assoc).
  rewrite partition_app by (by rewrite elem_of_reverse). simpl. apply reverse_involutive.
Qed.

(** A text without the digit 1 in front, ending in no digit, hides no number. *)
Lemma phone_behind p c u : 49 ∉ p -> ascii_digit c = false -> c <> 49 ->
  phone_in_ascii (p ++ [c] ++ u) = phone_in_ascii u.
Proof.
  intros N D C. unfold phone_in_ascii. f_equal.
  assert (Skip : forall prev x r, x <> 49 -> phone_at ascii_digit prev (x :: r) = None).
  { intros prev x r X. unfold phone_at. apply Z.eqb_neq in X. rewrite X. simpl. by destruct prev as [q|]; [destruct (ascii_digit q)|]. }
  assert (Same : no_match (phone_at ascii_digit) (Some c) u = no_match (phone_at ascii_digit) None u).
  { assert (E : phone_at ascii_digit (Some c) u = phone_at ascii_digit None u) by (unfold phone_at; by rewrite D).
    destruct u; simpl; by rewrite E. }
  assert (P : forall q prev, 49 ∉ q -> no_match (phone_at ascii_digit) prev (q ++ [c] ++ u) = no_match (phone_at ascii_digit) None u).
  { induction q as [|x q IH]; intros prev Nq; cbn [app no_match].
    - rewrite Skip by done. exact Same.
    - apply not_elem_of_cons in Nq as [X Nq]. rewrite Skip by congruence. by apply IH. }
  by apply P.
Qed.

(** What the names of the manual jobs satisfy. *)
Definition job_name_ok (job : text) : bool :=
  let name := after_last dot job in
  len_between 1 128 name && (len name <=? 32) && negb (contains 49 name) && negb (contains 58 name)
  && negb (phone_in_ascii name) && negb (phone_in_ascii (args_text [AStr job]))
  && negb (rsearch rforbidden_key (args_text [AStr job])).

Lemma job_names_ok job : job ∈ MANUAL_JOB_TASK_NAMES -> job_name_ok job = true.
Proof.
  intros I. assert (A : forallb job_name_ok MANUAL_JOB_TASK_NAMES = true) by (vm_compute; reflexivity).
  rewrite List.forallb_forall in A. by apply A, list_elem_of_In.
Qed.

Lemma job_dedup_unlisted rest : fullmatch rdedup_reference (tx "job.trigger:" ++ rest) = false.
Proof.
  apply not_true_iff_false. rewrite fullmatch_spec. change (tx "job.trigger:" ++ rest) with (106 :: (drop 1 (tx "job.trigger:") ++ rest)).
  intros L%deriv_spec%barren_spec. assert (B : barren (deriv 106 rdedup_reference) = true) by (vm_compute; reflexivity). congruence.
Qed.

Lemma uuid_no c u : uuid_char c = false -> forallb uuid_char u = true -> c ∉ u.
Proof. intros C F I. rewrite List.forallb_forall in F. apply list_elem_of_In, F in I. congruence. Qed.

(** C40: the application's contract and the database's constraint disagree on
    manual jobs.  For every manual job, every allowed queue and every version 4
    UUID as request id the application accepts the event, and so does the
    constraint on its arguments; [ck_outbox_refs_no_pii] accepts the row exactly
    when the UUID holds no isolated eleven-digit run that starts with 1, and
    some UUIDs do. *)
Theorem manual_job_decided task_name queue u :
  task_name ∈ MANUAL_JOB_TASK_NAMES -> queue ∈ ALLOWED_QUEUES -> is_uuid u = true ->
  exists spec, OutboxJobSender_send task_name queue u = Ok spec /\
    validate_spec spec = Ok tt /\ ck_outbox_args_no_pii spec = true /\
    ck_outbox_refs_no_pii spec = negb (phone_in_ascii u).
Proof.
  intros T Q U. exists (manual_job_spec task_name queue u). unfold OutboxJobSender_send.
  rewrite (proj2 (tmem_spec _ _) T). split; [done|]. destruct (uuid_shape u U) as [L C].
  pose proof (job_names_ok _ T) as J. unfold job_name_ok in J. bool_prop.
  assert (K : tx "job.trigger:" ++ after_last dot task_name ++ tx ":" ++ u
              = (tx "job.trigger:" ++ after_last dot task_name) ++ [58] ++ u) by (by rewrite <- app_assoc).
  assert (R : manual_job_reference (manual_job_spec task_name queue u) = true).
  { unfold manual_job_reference, manual_job_spec. cbn [args OutboxContract.task_name event_type aggregate_type aggregate_id dedup_key].
    rewrite (proj2 (tmem_spec _ _) T), !teqb_refl, K, after_last_app, U by (by apply uuid_no).
    rewrite andb_true_r. simpl andb. apply starts_with_spec. exists u. by rewrite <- !app_assoc. }
  split_and!.
  - unfold validate_spec. rewrite R.
    assert (I : internal_reference (manual_job_spec task_name queue u) = true).
    { unfold internal_reference. rewrite R. by rewrite !orb_true_r. }
    rewrite I. unfold manual_job_spec. cbn [args OutboxContract.task_name event_type aggregate_type aggregate_id dedup_key
      correlation_id max_attempts OutboxContract.queue].
    rewrite (proj2 (tmem_spec _ _) Q).
    assert (D : len_between 1 192 (tx "job.trigger:" ++ after_last dot task_name ++ tx ":" ++ u) = true).
    { unfold len_between in *. rewrite !len_app. bool_prop. change (len (tx "job.trigger:")) with 12. change (len (tx ":")) with 1.
      replace (len u) with 36 by (unfold len; lia). lia. }
    rewrite D. match goal with H : len_between 1 128 _ = true |- _ => rewrite H end. reflexivity.
  - unfold ck_outbox_args_no_pii, manual_job_spec. cbn [args].
    repeat match goal with H : _ = false |- _ => rewrite H end. reflexivity.
  - unfold ck_outbox_refs_no_pii, manual_job_spec. cbn [aggregate_id dedup_key OutboxContract.task_name].
    repeat match goal with H : phone_in_ascii (after_last _ _) = false |- _ => rewrite H; clear H end.
    rewrite job_dedup_unlisted. cbn [negb orb andb].
    rewrite K, phone_behind; [apply orb_false_r| |done..].
    unfold contains in *. bool_prop. rewrite not_elem_of_app. split; [|done].
    apply (bool_decide_eq_false_1 (49 ∈ tx "job.trigger:")). vm_compute. reflexivity.
Qed.

Lemma manual_job_decided_witness :
  let u := tx "0b8e7f2a-5c1d-4e9b-9a3f-a13800138000" in
  phone_in_ascii u = true /\
  exists spec, OutboxJobSender_send (tx "app.tasks.reconcile") (tx "bulk") u = Ok spec /\
    validate_spec spec = Ok tt /\ ck_outbox_args_no_pii spec = true /\
    ck_outbox_refs_no_pii spec = negb (phone_in_ascii u).
Proof.
  split; [vm_compute; reflexivity|].
  refine (manual_job_decided (tx "app.tasks.reconcile") (tx "bulk") (tx "0b8e7f2a-5c1d-4e9b-9a3f-a13800138000") _ _ _).
  - apply tmem_spec. vm_compute. reflexivity.
  - apply tmem_spec. vm_compute. reflexivity.
  - vm_compute. reflexivity.
Defined.

End OutboxContract.
