(* ===== verification/Outbox.v ===== *)
(** * Transactional outbox ([services/outbox_repository.py], [services/outbox.py])

    The table [outbox_event] and every statement the repository runs on it:
    enqueueing inside a business transaction, the dispatcher's delivery leases,
    the consumer's execution leases with their fencing token, and the operator's
    retry of a dead event; the dispatcher's publish step and the executor's run
    on top of them.  Times are microseconds.  UUIDs come from a supply that
    never repeats a value. *)

From stdpp Require Import sorting.
From S2P Require Import Prelude PyText OutboxContract.

Module OutboxState.

Inductive t := pending | leased | published | processing | completed | dead.

#[export] Instance eq_dec : EqDecision t.
Proof. solve_decision. Defined.

End OutboxState.
Export (hints) OutboxState.

Module Outbox.
Import OutboxContract.

Definition secs (n : Z) : Z := n * 1000000.

(** A row: the columns written once at the insert, and those the updates set. *)
Record event := mkEvent {
  contract : OutboxEventSpec;
  ev_correlation_id : Z;
  created_at : Z;
  state : OutboxState.t;
  attempts : Z;
  failure_count : Z;
  next_attempt_at : Z;
  capacity_eligible_at : option Z;
  lease_id : option Z;
  lease_expires_at : option Z;
  published_at : option Z;
  completed_at : option Z;
  last_error : option text;
  updated_at : Z
}.

Record SecurityPrincipal := mkPrincipal {
  account_id : Z;
  identity_id : Z;
  login_name : text;
  role : text
}.

(** The [outbox_retry] rows of [audit_log]. *)
Record audit_row := mkAudit {
  au_principal : SecurityPrincipal;
  au_action : text;
  au_object_id : Z;
  au_aggregate_type : text;
  au_batch_no : option text
}.

Record db := mkDb {
  rows : gmap Z event;
  audits : list audit_row;
  next_uuid : Z
}.

Record OutboxLease := mkLease {
  ol_event_id : Z;
  ol_lease_id : Z;
  ol_event_type : text;
  ol_task_name : text;
  ol_queue : text;
  ol_args : list arg;
  ol_attempts : Z;
  ol_correlation_id : Z
}.

Record OutboxClaim := mkClaim {
  oc_event_id : Z;
  oc_lease_id : Z;
  oc_event_type : text;
  oc_args : list arg;
  oc_correlation_id : Z
}.

Definition OutboxLeaseLost (msg : string) : exc := Exc (tx "OutboxLeaseLost") (tx msg).
Definition fencing_lost : exc := OutboxLeaseLost "outbox fencing token lost".
Definition OutboxContractConflict : exc :=
  Exc (tx "OutboxContractConflict") (tx "outbox dedup key contract changed").
Definition IntegrityError (constraint : string) : exc := Exc (tx "IntegrityError") (tx constraint).

(** [^[A-Za-z][A-Za-z0-9_.]{0,63}$] *)
Definition SAFE_ERROR : regex :=
  let letter c := ascii_lower c || ascii_upper c in
  RCat (RClass letter)
       (rupto 63 (RClass (fun c => letter c || ascii_digit c || (c =? 95) || (c =? 46)))).

Definition _safe_error (value : text) : text :=
  if fullmatch SAFE_ERROR value then value else tx "OutboxError".

(** ** Statements *)

Definition fresh_uuid : stex db exc Z :=
  fun s => Ok (next_uuid s, mkDb (rows s) (audits s) (next_uuid s + 1)).

Definition set_rows (f : gmap Z event -> gmap Z event) : stex db exc unit :=
  modify (fun s => mkDb (f (rows s)) (audits s) (next_uuid s)).

(** [UPDATE outbox_event SET <f> WHERE id=:id AND <guard>]; the updated row. *)
Definition update_where (id : Z) (guard : event -> bool) (f : event -> event)
    : stex db exc (option event) :=
  s ← get;
  match rows s !! id with
  | Some e => if guard e then _ ← set_rows (<[id := f e]>); mret (Some (f e)) else mret None
  | None => mret None
  end.

Definition find_dedup (key : text) (m : gmap Z event) : option (Z * event) :=
  List.find (fun p => teqb (dedup_key (contract (snd p))) key) (map_to_list m).

Definition rcallback_attempt : regex :=
  rseq [rlit "callback:"; rposnum; rlit ":attempt:"; rposnum].

(** The contract columns compared after [RETURNING]. *)
Definition same_contract (a b : OutboxEventSpec) : bool :=
  teqb (event_type a) (event_type b) && teqb (aggregate_type a) (aggregate_type b)
  && teqb (aggregate_id a) (aggregate_id b) && teqb (task_name a) (task_name b)
  && teqb (queue a) (queue b) && args_eqb (args a) (args b)
  && (max_attempts a =? max_attempts b).

(** [ck_outbox_capacity_clock] *)
Definition ck_capacity_clock (e : event) : bool :=
  match capacity_eligible_at e with
  | None => true
  | Some c => (created_at e <=? c)
              && tmem (event_type (contract e)) [tx "callback.ready"; tx "chunk.ready"]
  end.

Definition new_row (now : Z) (spec : OutboxEventSpec) (correlation at_ : Z) (eligible : option Z)
    : event :=
  mkEvent spec correlation now OutboxState.pending 0 0 at_ eligible None None None None None now.

(** The checks before the insert, and the correlation id of the row. *)
Definition enqueue_checks (ambient : option Z) (spec : OutboxEventSpec)
    (available_delay_seconds : Z) (callback_retry : bool) : result exc Z :=
  _ ← validate_spec spec;
  _ ← require ((0 <=? available_delay_seconds) && (available_delay_seconds <=? 604800))
        (ValueError "invalid outbox availability delay");
  _ ← refuse (callback_retry &&
        ((available_delay_seconds <=? 0)
         || negb (teqb (event_type spec) (tx "callback.ready"))
         || negb (teqb (aggregate_type spec) (tx "callback_task"))
         || negb (teqb (task_name spec) (tx "app.tasks.deliver_callback"))
         || negb (teqb (queue spec) (tx "callback"))
         || negb (fullmatch rcallback_attempt (dedup_key spec))))
        (ValueError "invalid outbox capacity wait");
  match correlation_id spec with
  | Some c => Ok c
  | None => match ambient with
            | Some c => Ok c
            | None => Raise (Exc (tx "AssertionError") [])
            end
  end.

(** The table's checks on the inserted row. *)
Definition row_checks (e : event) : result exc unit :=
  _ ← require (jsonb_storable (args (contract e))) (Exc (tx "DataError") (tx "jsonb"));
  _ ← require (ck_outbox_args_no_pii (contract e)) (IntegrityError "ck_outbox_args_no_pii");
  _ ← require (ck_outbox_refs_no_pii (contract e)) (IntegrityError "ck_outbox_refs_no_pii");
  require (ck_capacity_clock e) (IntegrityError "ck_outbox_capacity_clock").

Definition enqueue_outbox (now : Z) (ambient : option Z) (spec : OutboxEventSpec)
    (available_delay_seconds : Z) (callback_retry : bool) : stex db exc Z :=
  correlation ← lift (enqueue_checks ambient spec available_delay_seconds callback_retry);
  event_id ← fresh_uuid;
  let at_ := now + secs available_delay_seconds in
  let e := new_row now spec correlation at_ (if callback_retry then Some at_ else None) in
  _ ← lift (row_checks e);
  s ← get;
  match find_dedup (dedup_key spec) (rows s) with
  | None => _ ← set_rows (<[event_id := e]>); mret event_id
  | Some (id, old) =>
      _ ← lift (require (same_contract (contract old) spec) OutboxContractConflict);
      mret id
  end.

(** The attempts-exhausted sweep that opens [lease_due]. *)
Definition active (e : event) : bool :=
  bool_decide (state e ∈ [OutboxState.pending; OutboxState.leased; OutboxState.published;
                          OutboxState.processing]).
Definition in_flight (e : event) : bool :=
  bool_decide (state e ∈ [OutboxState.leased; OutboxState.published; OutboxState.processing]).
Definition is_pending (e : event) : bool := bool_decide (state e = OutboxState.pending).
Definition lease_expired (now : Z) (e : event) : bool :=
  match lease_expires_at e with Some t => t <=? now | None => false end.
Definition no_live_lease (now : Z) (e : event) : bool :=
  match lease_expires_at e with Some t => t <=? now | None => true end.

Definition exhaust_row (now : Z) (e : event) : event :=
  if active e && (max_attempts (contract e) <=? attempts e)
     && (is_pending e || no_live_lease now e)
  then mkEvent (contract e) (ev_correlation_id e) (created_at e) OutboxState.dead (attempts e)
         (failure_count e + (if is_pending e then 0 else 1)) (next_attempt_at e)
         (capacity_eligible_at e) None None (published_at e) (completed_at e)
         (Some (match last_error e with Some x => x | None => tx "AttemptsExhausted" end)) now
  else e.

Definition due (now : Z) (e : event) : bool :=
  (attempts e <? max_attempts (contract e))
  && ((is_pending e && (next_attempt_at e <=? now)) || (in_flight e && lease_expired now e)).

(** [LEAST(3600, 5*2^LEAST(attempts,9))] *)
Definition backoff_seconds (n : Z) : Z := Z.min 3600 (5 * 2 ^ Z.min n 9).

Definition lease_row (now lease_seconds lease : Z) (e : event) : event :=
  mkEvent (contract e) (ev_correlation_id e) (created_at e) OutboxState.leased (attempts e + 1)
    (failure_count e + (if is_pending e then 0 else 1))
    (now + secs (backoff_seconds (attempts e))) (capacity_eligible_at e)
    (Some lease) (Some (now + secs lease_seconds)) (published_at e) (completed_at e)
    (last_error e) now.

(** [ORDER BY next_attempt_at, created_at] *)
Definition due_before (a b : Z * event) : Prop :=
  next_attempt_at (snd a) < next_attempt_at (snd b) \/
  (next_attempt_at (snd a) = next_attempt_at (snd b) /\ created_at (snd a) <= created_at (snd b)).
#[export] Instance due_before_dec a b : Decision (due_before a b).
Proof. unfold due_before. apply _. Defined.

(** The due rows another transaction has not locked, in order, up to the limit. *)
Definition select_due (now : Z) (locked : Z -> bool) (limit : Z) (m : gmap Z event)
    : list (Z * event) :=
  take (Z.to_nat limit)
    (merge_sort due_before
       (List.filter (fun p => due now (snd p) && negb (locked (fst p))) (map_to_list m))).

Fixpoint lease_each (now lease_seconds : Z) (l : list (Z * event)) : stex db exc (list OutboxLease) :=
  match l with
  | [] => mret []
  | (id, e) :: l' =>
      lease ← fresh_uuid;
      let e' := lease_row now lease_seconds lease e in
      _ ← set_rows (<[id := e']>);
      rest ← lease_each now lease_seconds l';
      mret (mkLease id lease (event_type (contract e)) (task_name (contract e))
              (queue (contract e)) (args (contract e)) (attempts e') (ev_correlation_id e) :: rest)
  end.

Definition lease_due (now : Z) (locked : Z -> bool) (limit lease_seconds : Z)
    : stex db exc (list OutboxLease) :=
  _ ← lift (require ((1 <=? limit) && (limit <=? 1000) && (5 <=? lease_seconds))
              (ValueError "invalid outbox lease request"));
  _ ← set_rows (fmap (exhaust_row now));
  s ← get;
  lease_each now lease_seconds (select_due now locked limit (rows s)).

Definition has_lease (l : Z) (e : event) : bool := bool_decide (lease_id e = Some l).
Definition lease_live (now : Z) (e : event) : bool :=
  match lease_expires_at e with Some t => now <? t | None => false end.
Definition in_state (st : OutboxState.t) (e : event) : bool := bool_decide (state e = st).

(** After a publish result lost its CAS: fine when the consumer was faster. *)
Definition already_running (id : Z) : stex db exc unit :=
  s ← get;
  match state <$> (rows s !! id) with
  | Some OutboxState.processing | Some OutboxState.completed => mret tt
  | _ => throw fencing_lost
  end.

Definition published_row (now : Z) (e : event) : event :=
  mkEvent (contract e) (ev_correlation_id e) (created_at e) OutboxState.published (attempts e)
    (failure_count e) (next_attempt_at e) (capacity_eligible_at e) (lease_id e)
    (lease_expires_at e) (Some now) (completed_at e) (last_error e) now.

Definition mark_published (now id lease : Z) : stex db exc unit :=
  r ← update_where id
        (fun e => in_state OutboxState.leased e && has_lease lease e && lease_live now e)
        (published_row now);
  match r with Some _ => mret tt | None => already_running id end.

(** The failed delivery or execution: back to pending, or dead when the
    attempts are used up. *)
Definition fail_row (now : Z) (error : text) (e : event) : event :=
  mkEvent (contract e) (ev_correlation_id e) (created_at e)
    (if max_attempts (contract e) <=? attempts e then OutboxState.dead else OutboxState.pending)
    (attempts e) (failure_count e + 1) (next_attempt_at e) (capacity_eligible_at e) None None
    (published_at e) (completed_at e) (Some error) now.

Definition mark_publish_failed (now id lease : Z) (error_type : text) : stex db exc unit :=
  r ← update_where id
        (fun e => in_state OutboxState.leased e && has_lease lease e && lease_live now e)
        (fail_row now (_safe_error error_type));
  match r with Some _ => mret tt | None => already_running id end.

Definition processing_row (now lease_seconds lease : Z) (e : event) : event :=
  mkEvent (contract e) (ev_correlation_id e) (created_at e) OutboxState.processing (attempts e)
    (failure_count e) (next_attempt_at e) (capacity_eligible_at e) (Some lease)
    (Some (now + secs lease_seconds)) (published_at e) (completed_at e) (last_error e) now.

Definition claim_execution (now id lease_seconds : Z) : stex db exc (option OutboxClaim) :=
  _ ← lift (refuse (lease_seconds <? 15) (ValueError "invalid outbox execution lease"));
  execution_lease ← fresh_uuid;
  r ← update_where id
        (fun e => in_state OutboxState.leased e || in_state OutboxState.published e)
        (processing_row now lease_seconds execution_lease);
  mret ((fun e => mkClaim id execution_lease (event_type (contract e)) (args (contract e))
                    (ev_correlation_id e)) <$> r).

Definition executing (lease : Z) (e : event) : bool :=
  in_state OutboxState.processing e && has_lease lease e.

Definition renewed_row (now lease_seconds : Z) (e : event) : event :=
  mkEvent (contract e) (ev_correlation_id e) (created_at e) (state e) (attempts e)
    (failure_count e) (next_attempt_at e) (capacity_eligible_at e) (lease_id e)
    (Some (now + secs lease_seconds)) (published_at e) (completed_at e) (last_error e) now.

Definition heartbeat (now id lease lease_seconds : Z) : stex db exc bool :=
  r ← update_where id (executing lease) (renewed_row now lease_seconds);
  mret (bool_decide (is_Some r)).

Definition _lease_update (id : Z) (guard : event -> bool) (f : event -> event) : stex db exc unit :=
  r ← update_where id guard f;
  match r with Some _ => mret tt | None => throw fencing_lost end.

Definition completed_row (now : Z) (e : event) : event :=
  mkEvent (contract e) (ev_correlation_id e) (created_at e) OutboxState.completed (attempts e)
    (failure_count e) (next_attempt_at e) (capacity_eligible_at e) None None
    (published_at e) (Some now) None now.

Definition complete (now id lease : Z) : stex db exc unit :=
  _lease_update id (executing lease) (completed_row now).

Definition defer_row (now at_ : Z) (e : event) : event :=
  mkEvent (contract e) (ev_correlation_id e) (created_at e) OutboxState.pending
    (Z.max 0 (attempts e - 1)) (failure_count e) at_ (Some at_) None None
    (published_at e) (completed_at e) (Some (tx "MarketWindowDeferred")) now.

Definition defer_execution (now id lease at_ : Z) : stex db exc unit :=
  s ← get;
  _ ← lift (match rows s !! id with
            | Some e => require (ck_capacity_clock (defer_row now at_ e) || negb
                          (executing lease e && lease_live now e
                           && teqb (event_type (contract e)) (tx "chunk.ready")))
                          (IntegrityError "ck_outbox_capacity_clock")
            | None => Ok tt
            end);
  _lease_update id
    (fun e => executing lease e && lease_live now e
              && teqb (event_type (contract e)) (tx "chunk.ready"))
    (defer_row now at_).

Definition fail_execution (now id lease : Z) (error_type : text) : stex db exc unit :=
  _lease_update id (executing lease) (fail_row now (_safe_error error_type)).

(** The audit payload of a retry: only the batch number of a batch is repeated;
    a number or text that reads as a mobile number is refused. *)
Definition _retry_audit_payload (principal : SecurityPrincipal) (agg_type agg_id : text)
    : result exc (option text) :=
  _ ← refuse (phone_in_text (str_int (account_id principal))
              || phone_in_text (str_int (identity_id principal))
              || phone_in_text agg_type)
        (ValueError "audit payload contains a phone number");
  Ok (if teqb agg_type (tx "sms_batch") && fullmatch (rhex 32) agg_id then Some agg_id else None).

Definition retried_row (now : Z) (e : event) : event :=
  mkEvent (contract e) (ev_correlation_id e) (created_at e) OutboxState.pending 0
    (failure_count e) now (capacity_eligible_at e) None None (published_at e) (completed_at e)
    None now.

Definition retry_dead (now id : Z) (principal : SecurityPrincipal) : stex db exc bool :=
  r ← update_where id (in_state OutboxState.dead) (retried_row now);
  match r with
  | None => mret false
  | Some e =>
      batch_no ← lift (_retry_audit_payload principal (aggregate_type (contract e))
                         (aggregate_id (contract e)));
      _ ← modify (fun s => mkDb (rows s)
             (audits s ++ [mkAudit principal (tx "outbox_retry") id
                             (aggregate_type (contract e)) batch_no]) (next_uuid s));
      mret true
  end.

(** ** Other writers of the table *)

(** [SqlChunkStore._enqueue_chunk_ready] ([tasks/send_repository.py]) and the
    recovery of queued batches ([services/reconcile_repository.py]) enqueue
    under a fixed key and reopen a finished event of that key. *)
Definition reopened_row (now : Z) (e : event) : event :=
  mkEvent (contract e) (ev_correlation_id e) (created_at e) OutboxState.pending 0 0 now
    (capacity_eligible_at e) None None (published_at e) None None now.

Definition reopen_row (now : Z) (key ty : text) (e : event) : event :=
  if teqb (dedup_key (contract e)) key && teqb (event_type (contract e)) ty
     && (in_state OutboxState.completed e || in_state OutboxState.dead e)
  then reopened_row now e else e.

Definition chunk_ready_spec (chunk_id : Z) (lane : text) : OutboxEventSpec :=
  mkSpec (tx "chunk.ready") (tx "sms_chunk") (str_int chunk_id) (tx "app.tasks.send.process_chunk")
    lane [AInt chunk_id] (tx "chunk.ready:" ++ str_int chunk_id) 12 None.

Fixpoint _enqueue_chunk_ready (now : Z) (ambient : option Z) (chunk_ids : list Z) (lane : text)
    : stex db exc unit :=
  match chunk_ids with
  | [] => mret tt
  | chunk_id :: rest =>
      let spec := chunk_ready_spec chunk_id lane in
      _ ← enqueue_outbox now ambient spec 0 false;
      _ ← set_rows (fmap (reopen_row now (dedup_key spec) (tx "chunk.ready")));
      _enqueue_chunk_ready now ambient rest lane
  end.

Definition enqueue_batch_ready (now : Z) (ambient : option Z) (batch_no lane : text)
    : stex db exc unit :=
  let spec := mkSpec (tx "batch.ready") (tx "sms_batch") batch_no
                (tx "app.tasks.send.process_batch") lane [AStr batch_no]
                (tx "batch.ready:" ++ batch_no) 12 None in
  _ ← enqueue_outbox now ambient spec 0 false;
  set_rows (fmap (reopen_row now (dedup_key spec) (tx "batch.ready"))).

(** [SignAdoptionSender._reserve_adoption] ([services/ops_dispatch.py]): a bind
    that is still pending is closed without being delivered. *)
Definition superseded_row (now : Z) (agg : text) (e : event) : event :=
  if teqb (aggregate_type (contract e)) (tx "sms_sign")
     && teqb (aggregate_id (contract e)) agg && teqb (event_type (contract e)) (tx "sign.bind")
     && is_pending e
  then mkEvent (contract e) (ev_correlation_id e) (created_at e) OutboxState.completed (attempts e)
         (failure_count e) (next_attempt_at e) (capacity_eligible_at e) (lease_id e)
         (lease_expires_at e) (published_at e) (Some now) (last_error e) now
  else e.

Definition supersede_bind (now sign_id : Z) : stex db exc unit :=
  set_rows (fmap (superseded_row now (str_int sign_id))).

Record OutboxStats := mkStats {
  st_pending : Z; st_published : Z; st_processing : Z; st_dead : Z;
  failed_attempts : Z; oldest_age_seconds : Z
}.

(** [OUTBOX_CAPACITY_ACTIVE_SQL], [OUTBOX_CAPACITY_AGE_SQL] and
    [OUTBOX_CAPACITY_AGE_ELIGIBLE_SQL] *)
Definition capacity_active (now : Z) (e : event) : bool :=
  active e
  && negb (is_pending e && teqb (event_type (contract e)) (tx "chunk.ready")
           && bool_decide (last_error e = Some (tx "MarketWindowDeferred"))
           && (now <? match capacity_eligible_at e with
                      | Some t => t | None => next_attempt_at e end)).
Definition capacity_age (e : event) : Z :=
  match capacity_eligible_at e with Some t => t | None => created_at e end.
Definition capacity_age_eligible (now : Z) (e : event) : bool :=
  capacity_active now e && (negb (is_pending e) || (capacity_age e <=? now)).

(** [EXTRACT(epoch FROM interval)::integer]: microseconds rounded to seconds. *)
Definition round_seconds (us : Z) : Z := Z.sgn us * ((2 * Z.abs us + 1000000) / 2000000).

Definition count_rows (f : event -> bool) (m : gmap Z event) : Z :=
  Z.of_nat (length (List.filter (fun p => f (snd p)) (map_to_list m))).

Definition stats (now : Z) (s : db) : OutboxStats :=
  let l := snd <$> map_to_list (rows s) in
  let ages := capacity_age <$> List.filter (capacity_age_eligible now) l in
  mkStats
    (count_rows (fun e => in_state OutboxState.pending e || in_state OutboxState.leased e) (rows s))
    (count_rows (in_state OutboxState.published) (rows s))
    (count_rows (in_state OutboxState.processing) (rows s))
    (count_rows (in_state OutboxState.dead) (rows s))
    (sumZ (failure_count <$> List.filter (fun e => negb (in_state OutboxState.completed e)) l))
    (Z.max 0 match ages with
             | [] => 0
             | a :: ages' => round_seconds (now - foldr Z.min a ages')
             end).

(** [ORDER BY (state='dead') DESC, updated_at DESC, id] *)
Definition listed_before (a b : Z * event) : Prop :=
  let dead p := Z.b2z (in_state OutboxState.dead (snd p)) in
  dead b < dead a \/
  (dead a = dead b /\
   (updated_at (snd b) < updated_at (snd a) \/
    (updated_at (snd a) = updated_at (snd b) /\ fst a <= fst b))).
#[export] Instance listed_before_dec a b : Decision (listed_before a b).
Proof. unfold listed_before. apply _. Defined.

(** [core/query_bounds.py] *)
Definition PAGE_MAX : Z := 1000000.
Definition SIGNED_BIGINT_MAX : Z := 2 ^ 63 - 1.
Definition ensure_page_offset (page size : Z) : result exc unit :=
  refuse ((page <? 1) || (PAGE_MAX <? page) || (size <? 1) || (SIGNED_BIGINT_MAX <? size)
          || (SIGNED_BIGINT_MAX / size <? page - 1))
    (ValueError "page or size is out of bounds").

(** One page of event metadata and the total; the metadata of a row is the row
    without its arguments and keys. *)
Definition list_events (st : option OutboxState.t) (page page_size : Z) (s : db)
    : result exc (list (Z * event) * Z) :=
  _ ← refuse ((page <? 1) || (page_size <? 1) || (100 <? page_size))
        (ValueError "invalid outbox event page");
  _ ← ensure_page_offset page page_size;
  let sel := List.filter (fun p => match st with
                                   | None => true
                                   | Some x => in_state x (snd p)
                                   end) (map_to_list (rows s)) in
  Ok (take (Z.to_nat page_size)
        (drop (Z.to_nat ((page - 1) * page_size)) (merge_sort listed_before sel)),
      Z.of_nat (length sel)).

(** ** The dispatcher *)

Section Dispatcher.
(** The broker: publishing an event succeeds or raises an exception. *)
Context (publish : OutboxLease -> result exc unit).

Definition exc_class (e : exc) : text := let '(Exc cls _) := e in cls.

Definition publish_one (now : Z) (ev : OutboxLease) (s : db) : result exc Z * db :=
  match publish ev with
  | Raise e =>
      transaction (_ ← mark_publish_failed now (ol_event_id ev) (ol_lease_id ev) (exc_class e);
                   mret 0) s
  | Ok _ =>
      transaction (_ ← mark_published now (ol_event_id ev) (ol_lease_id ev); mret 1) s
  end.

(** One worker with the rest of the shared budget: the instants of its lease
    and of its publish result. *)
Fixpoint publish_worker (lease_seconds : Z) (budget : list (Z * Z)) (count : Z) (s : db)
    : result exc Z * db :=
  match budget with
  | [] => (Ok count, s)
  | (t_lease, t_mark) :: rest =>
      match transaction (lease_due t_lease (fun _ => false) 1 lease_seconds) s with
      | (Raise e, s1) => (Raise e, s1)
      | (Ok [], s1) => (Ok count, s1)
      | (Ok (ev :: _), s1) =>
          match publish_one t_mark ev s1 with
          | (Raise e, s2) => (Raise e, s2)
          | (Ok n, s2) => publish_worker lease_seconds rest (count + n) s2
          end
      end
  end.
End Dispatcher.

(** ** The executor *)

(** What an effect ends with: a value, a deferral, or any other exception. *)
Inductive effect_result (T : Type) := Done (x : T) | Deferred (at_ : Z) | Failed (e : exc).
Arguments Done {T} x.
Arguments Deferred {T} at_.
Arguments Failed {T} e.

Section Executor.
Context {T : Type}.
(** The effect commits its own transactions; its final state includes what
    other processes did meanwhile.  [lease_lost] is the heartbeat task's flag. *)
Context (effect : OutboxClaim -> db -> effect_result T * db) (lease_lost : bool).

Definition OutboxExecutor_run (now_claim now_end id lease_seconds : Z) (expected_type : text)
    (s : db) : result exc (option T) * db :=
  match transaction (claim_execution now_claim id lease_seconds) s with
  | (Raise e, s1) => (Raise e, s1)
  | (Ok None, s1) => (Ok None, s1)
  | (Ok (Some claim), s1) =>
      let eid := oc_event_id claim in
      let lease := oc_lease_id claim in
      if negb (teqb (oc_event_type claim) expected_type) then
        transaction (_ ← fail_execution now_end eid lease (tx "OutboxEventTypeMismatch");
                     mret None) s1
      else
        let lost := OutboxLeaseLost "outbox execution lease was lost" in
        match effect claim s1 with
        | (Done x, s2) =>
            if lease_lost then (Raise lost, s2)
            else transaction (_ ← complete now_end eid lease; mret (Some x)) s2
        | (Deferred at_, s2) =>
            if lease_lost then (Raise lost, s2)
            else if negb (teqb expected_type (tx "chunk.ready")) then
              match transaction (fail_execution now_end eid lease (tx "InvalidDeferral")) s2 with
              | (Raise e, s3) => (Raise e, s3)
              | (Ok _, s3) => (Raise (Exc (tx "OutboxDeferred") (tx "business window deferred")), s3)
              end
            else transaction (_ ← defer_execution now_end eid lease at_; mret None) s2
        | (Failed e, s2) =>
            if lease_lost then (Raise e, s2)
            else match transaction (fail_execution now_end eid lease (exc_class e)) s2 with
                 | (Raise e', s3) => (Raise e', s3)
                 | (Ok _, s3) => (Raise e, s3)
                 end
        end
  end.
End Executor.

(** ** Operations and reachability *)

(** Every transaction that writes the table, with its arguments; each takes
    effect atomically at an instant [now]. *)
Inductive op :=
| OpEnqueue (ambient : option Z) (spec : OutboxEventSpec) (delay : Z) (callback_retry : bool)
| OpLeaseDue (locked : Z -> bool) (limit lease_seconds : Z)
| OpMarkPublished (id lease : Z)
| OpMarkPublishFailed (id lease : Z) (error_type : text)
| OpClaim (id lease_seconds : Z)
| OpHeartbeat (id lease lease_seconds : Z)
| OpComplete (id lease : Z)
| OpDefer (id lease at_ : Z)
| OpFail (id lease : Z) (error_type : text)
| OpRetryDead (id : Z) (principal : SecurityPrincipal)
| OpChunkReady (ambient : option Z) (chunk_ids : list Z) (lane : text)
| OpBatchReady (ambient : option Z) (batch_no lane : text)
| OpSupersedeBind (sign_id : Z).

Definition run_op (now : Z) (o : op) (s : db) : db :=
  match o with
  | OpEnqueue a spec d c => snd (transaction (enqueue_outbox now a spec d c) s)
  | OpLeaseDue lk n l => snd (transaction (lease_due now lk n l) s)
  | OpMarkPublished id l => snd (transaction (mark_published now id l) s)
  | OpMarkPublishFailed id l e => snd (transaction (mark_publish_failed now id l e) s)
  | OpClaim id l => snd (transaction (claim_execution now id l) s)
  | OpHeartbeat id l n => snd (transaction (heartbeat now id l n) s)
  | OpComplete id l => snd (transaction (complete now id l) s)
  | OpDefer id l t => snd (transaction (defer_execution now id l t) s)
  | OpFail id l e => snd (transaction (fail_execution now id l e) s)
  | OpRetryDead id p => snd (transaction (retry_dead now id p) s)
  | OpChunkReady a ids l => snd (transaction (_enqueue_chunk_ready now a ids l) s)
  | OpBatchReady a b l => snd (transaction (enqueue_batch_ready now a b l) s)
  | OpSupersedeBind i => snd (transaction (supersede_bind now i) s)
  end.

Definition step (s s' : db) : Prop := exists now o, s' = run_op now o s.

Definition empty_db : db := mkDb ∅ [] 1.
Definition reachable (s : db) : Prop := rtc step empty_db s.

(** ** Invariant *)

Definition row_wf (e : event) : Prop :=
  (if in_flight e then is_Some (lease_id e) /\ is_Some (lease_expires_at e) /\ 1 <= attempts e
   else lease_id e = None /\ lease_expires_at e = None) /\
  0 <= attempts e <= max_attempts (contract e) /\
  1 <= max_attempts (contract e) <= 100 /\ 0 <= failure_count e.

Record wf (s : db) : Prop := {
  wf_rows : forall id e, rows s !! id = Some e -> row_wf e;
  wf_ids : forall id e, rows s !! id = Some e -> id < next_uuid s;
  wf_leases : forall id e l, rows s !! id = Some e -> lease_id e = Some l -> l < next_uuid s;
  wf_lease_unique : forall i j e f l, rows s !! i = Some e -> rows s !! j = Some f ->
    lease_id e = Some l -> lease_id f = Some l -> i = j;
  wf_dedup : forall i j e f, rows s !! i = Some e -> rows s !! j = Some f ->
    dedup_key (contract e) = dedup_key (contract f) -> i = j
}.

(** ** Row transitions: every transaction is a sequence of them *)

Inductive row_update : event -> event -> Prop :=
| ru_published now e : state e = OutboxState.leased -> row_update e (published_row now e)
| ru_failed now err e :
    state e = OutboxState.leased \/ state e = OutboxState.processing ->
    row_update e (fail_row now err e)
| ru_renewed now n e : state e = OutboxState.processing -> row_update e (renewed_row now n e)
| ru_completed now e : state e = OutboxState.processing -> row_update e (completed_row now e)
| ru_deferred now t e : state e = OutboxState.processing -> row_update e (defer_row now t e)
| ru_retried now e : state e = OutboxState.dead -> row_update e (retried_row now e).

Inductive row_assign : Z -> event -> event -> Prop :=
| ra_leased now n l e : due now e = true -> row_assign l e (lease_row now n l e)
| ra_claimed now n l e :
    state e = OutboxState.leased \/ state e = OutboxState.published ->
    row_assign l e (processing_row now n l e).

(** The events a sender may reopen. *)
Definition reopenable (e : event) : bool :=
  tmem (event_type (contract e)) [tx "chunk.ready"; tx "batch.ready"].

(** A statement over the whole table. *)
Definition row_map (e e' : event) : Prop :=
  contract e' = contract e /\ (row_wf e -> row_wf e') /\
  (lease_id e' = None \/ lease_id e' = lease_id e) /\
  (state e = OutboxState.completed -> reopenable e = false -> e' = e).

Inductive micro : db -> db -> Prop :=
| micro_fresh s : micro s (mkDb (rows s) (audits s) (next_uuid s + 1))
| micro_audit s a : micro s (mkDb (rows s) (audits s ++ [a]) (next_uuid s))
| micro_insert s now spec c t el :
    validate_spec spec = Ok tt ->
    (forall id e, rows s !! id = Some e -> dedup_key (contract e) <> dedup_key spec) ->
    micro s (mkDb (<[next_uuid s := new_row now spec c t el]> (rows s)) (audits s)
               (next_uuid s + 1))
| micro_map s f : (forall e, row_map e (f e)) ->
    micro s (mkDb (f <$> rows s) (audits s) (next_uuid s))
| micro_update s id e e' : rows s !! id = Some e -> row_update e e' ->
    micro s (mkDb (<[id := e']> (rows s)) (audits s) (next_uuid s))
| micro_assign s id e e' : rows s !! id = Some e -> row_assign (next_uuid s) e e' ->
    micro s (mkDb (<[id := e']> (rows s)) (audits s) (next_uuid s + 1)).

(** ** Lemmas *)

Lemma in_flight_true e :
  in_flight e = true <-> state e = OutboxState.leased \/ state e = OutboxState.published \/
                         state e = OutboxState.processing.
Proof. unfold in_flight. rewrite bool_decide_eq_true. destruct (state e); set_solver. Qed.

Lemma due_attempts now e : due now e = true -> attempts e < max_attempts (contract e).
Proof. unfold due. intros H. by bool_prop. Qed.

Lemma row_update_wf e e' : row_wf e -> row_update e e' -> row_wf e'.
Proof.
  unfold row_wf, in_flight. intros W R. revert W.
  destruct R as [now x Hs|now err x Hs|now n x Hs|now x Hs|now t x Hs|now x Hs];
    intros (Hl & Ha & Hm & Hf); simpl in *; try (destruct Hs as [Hs|Hs]); rewrite Hs in Hl; simpl in Hl;
    try (rewrite Hs; simpl); try (destruct (Z.leb_spec (max_attempts (contract x)) (attempts x)));
    simpl; repeat split; try done; try lia; naive_solver.
Qed.

Lemma row_assign_wf l e e' : row_wf e -> row_assign l e e' -> row_wf e'.
Proof.
  unfold row_wf, in_flight. intros W R. revert W.
  destruct R as [now n l' x Hd|now n l' x Hs]; intros (Hl & Ha & Hm & Hf); simpl.
  - apply due_attempts in Hd. destruct (is_pending x); repeat split; try done; lia.
  - destruct Hs as [Hs|Hs]; rewrite Hs in Hl; simpl in Hl; naive_solver.
Qed.

Lemma exhaust_row_wf now e : row_wf e -> row_wf (exhaust_row now e).
Proof.
  unfold exhaust_row. case_match; [|done]. unfold row_wf. intros (_ & ? & ? & ?). simpl.
  destruct (is_pending e); repeat split; try done; lia.
Qed.

Lemma row_update_facts e e' : row_update e e' ->
  contract e' = contract e /\ state e <> OutboxState.completed /\
  (lease_id e' = None \/ lease_id e' = lease_id e).
Proof. intros []; simpl; repeat split; auto; intuition congruence. Qed.

Lemma row_assign_facts l e e' : row_assign l e e' ->
  contract e' = contract e /\ state e <> OutboxState.completed /\ lease_id e' = Some l.
Proof.
  intros [now n l' x Hd|now n l' x Hs]; simpl; repeat split; try intuition congruence.
  intros Hc. unfold due, is_pending, in_flight in Hd. rewrite Hc in Hd. simpl in Hd.
  rewrite andb_false_r in Hd. done.
Qed.

Lemma exhaust_row_map now e : row_map e (exhaust_row now e).
Proof.
  unfold row_map. pose proof (exhaust_row_wf now e) as Hw. revert Hw.
  unfold exhaust_row. destruct (_ && _) eqn:E; simpl; [|by auto].
  intros Hw. do 2 (split; [done|]). split; [by auto|]. intros Hc _.
  unfold active in E. rewrite Hc in E. bool_prop. set_solver.
Qed.

Lemma reopen_row_map now key ty e : ty = tx "chunk.ready" \/ ty = tx "batch.ready" ->
  row_map e (reopen_row now key ty e).
Proof.
  intros Hty. unfold reopen_row, row_map. destruct (_ && _) eqn:E; simpl; [|by auto].
  split; [done|]. split; [|split; [by auto|]].
  - unfold row_wf. simpl. intros (_ & ? & ? & ?). repeat split; try done; lia.
  - unfold reopenable, tmem. intros _ Hr. bool_prop. exfalso. apply Hr.
    match goal with H : teqb (event_type _) _ = true |- _ => apply teqb_spec in H; rewrite H end.
    destruct Hty as [-> | ->]; [left|right; left].
Qed.

Lemma superseded_row_map now agg e : row_map e (superseded_row now agg e).
Proof.
  unfold superseded_row, row_map. destruct (_ && _) eqn:E; simpl; [|by auto].
  unfold is_pending in E. bool_prop. split; [done|]. split; [|split; [by auto|congruence]].
  unfold row_wf, in_flight. simpl. match goal with H : state e = _ |- _ => rewrite H end.
  simpl. naive_solver.
Qed.

(** What every transition does to an existing row. *)
Lemma micro_row s s' id e : micro s s' -> rows s !! id = Some e -> id < next_uuid s ->
  exists e', rows s' !! id = Some e' /\ contract e' = contract e /\
    (state e = OutboxState.completed -> reopenable e = false -> e' = e) /\
    (lease_id e' = None \/ lease_id e' = lease_id e \/ lease_id e' = Some (next_uuid s)).
Proof.
  intros M He Hid. inversion M as [| |? now spec c t el Hv Hd|? g Hg|? j f f' Hf Hu|? j f f' Hf Hu];
    subst; simpl.
  - exists e. repeat split; auto.
  - exists e. repeat split; auto.
  - exists e. rewrite lookup_insert_ne by lia. repeat split; auto.
  - destruct (Hg e) as (? & ? & ? & ?). rewrite lookup_fmap, He. simpl. naive_solver.
  - destruct (row_update_facts _ _ Hu) as (? & ? & ?). destruct (Z.eq_dec j id) as [->|].
    + rewrite lookup_insert_eq. simplify_eq. naive_solver.
    + rewrite lookup_insert_ne by done. naive_solver.
  - destruct (row_assign_facts _ _ _ Hu) as (? & ? & ?). destruct (Z.eq_dec j id) as [->|].
    + rewrite lookup_insert_eq. simplify_eq. naive_solver.
    + rewrite lookup_insert_ne by done. naive_solver.
Qed.

(** Every row after a transition comes from a row before it or is new. *)
Lemma micro_row_inv s s' id e' : micro s s' -> rows s' !! id = Some e' ->
  (exists e, rows s !! id = Some e /\ contract e' = contract e /\ (row_wf e -> row_wf e') /\
     (lease_id e' = None \/ lease_id e' = lease_id e \/
      (lease_id e' = Some (next_uuid s) /\ next_uuid s' = next_uuid s + 1 /\
       forall j, j <> id -> rows s' !! j = rows s !! j))) \/
  (id = next_uuid s /\ next_uuid s' = next_uuid s + 1 /\ row_wf e' /\ lease_id e' = None /\
   (forall j, j <> id -> rows s' !! j = rows s !! j) /\
   forall j e, rows s !! j = Some e -> dedup_key (contract e) <> dedup_key (contract e')).
Proof.
  intros M He. inversion M as [| |? now spec c t el Hv Hd|? g Hg|? j f f' Hf Hu|? j f f' Hf Hu];
    subst; simpl in *.
  - left. naive_solver.
  - left. naive_solver.
  - destruct (Z.eq_dec id (next_uuid s)) as [->|]; [right|left].
    + rewrite lookup_insert_eq in He. injection He as <-.
      apply validate_spec_ok in Hv as (? & _). unfold row_wf. simpl. repeat split; try done; try lia.
      intros. by rewrite lookup_insert_ne.
    + rewrite lookup_insert_ne in He by done. naive_solver.
  - left. rewrite lookup_fmap in He. destruct (rows s !! id) as [e|]; [|done].
    injection He as <-. destruct (Hg e) as (? & ? & ? & ?). naive_solver.
  - left. destruct (row_update_facts _ _ Hu) as (? & ? & ?). destruct (Z.eq_dec j id) as [->|].
    + rewrite lookup_insert_eq in He. simplify_eq. pose proof (fun H => row_update_wf _ _ H Hu).
      naive_solver.
    + rewrite lookup_insert_ne in He by done. naive_solver.
  - left. destruct (row_assign_facts _ _ _ Hu) as (? & ? & ?). destruct (Z.eq_dec j id) as [->|].
    + rewrite lookup_insert_eq in He. simplify_eq. pose proof (fun H => row_assign_wf _ _ _ H Hu).
      exists f. do 3 (split; [done|]). right; right. do 2 (split; [done|]).
      intros. by rewrite lookup_insert_ne.
    + rewrite lookup_insert_ne in He by done. naive_solver.
Qed.

Lemma micro_uuid s s' : micro s s' -> next_uuid s <= next_uuid s'.
Proof. destruct 1; simpl; lia. Qed.

Lemma micro_wf s s' : wf s -> micro s s' -> wf s'.
Proof.
  intros W M. pose proof (micro_uuid _ _ M) as Hn. split.
  - intros id e' He. destruct (micro_row_inv _ _ _ _ M He) as [(e & H & _ & R & _)|H];
      [apply R; by eapply wf_rows | naive_solver].
  - intros id e' He. destruct (micro_row_inv _ _ _ _ M He) as [(e & H & _)|H]; [|lia].
    apply (wf_ids _ W) in H. lia.
  - intros id e' l He Hl.
    destruct (micro_row_inv _ _ _ _ M He) as [(e & H & _ & _ & [?|[E|(? & ? & _)]])|H].
    + congruence.
    + rewrite E in Hl. apply (wf_leases _ W _ _ _ H) in Hl. lia.
    + assert (l = next_uuid s) by congruence. lia.
    + naive_solver.
  - intros i j e f l He Hf Hle Hlf.
    destruct (micro_row_inv _ _ _ _ M He) as [(e0 & H & _ & _ & Ce)|H]; [|naive_solver].
    destruct (micro_row_inv _ _ _ _ M Hf) as [(f0 & H' & _ & _ & Cf)|H']; [|naive_solver].
    destruct (Z.eq_dec i j) as [|Hij]; [done|exfalso].
    destruct Ce as [?|[Ce|(Ce & _ & Oe)]]; [congruence| |];
      destruct Cf as [?|[Cf|(Cf & _ & Of)]]; try congruence.
    + apply Hij, (wf_lease_unique _ W i j e0 f0 l); congruence.
    + assert (l < next_uuid s) by (eapply (wf_leases _ W i); [exact H|congruence]).
      assert (l = next_uuid s) by congruence. lia.
    + assert (l < next_uuid s) by (eapply (wf_leases _ W j); [exact H'|congruence]).
      assert (l = next_uuid s) by congruence. lia.
    + rewrite Oe in Hf by done. assert (f = f0) by congruence. subst.
      assert (l < next_uuid s) by (eapply (wf_leases _ W j); [exact H'|congruence]).
      assert (l = next_uuid s) by congruence. lia.
  - intros i j e f He Hf Hk. destruct (Z.eq_dec i j) as [|Hij]; [done|exfalso].
    destruct (micro_row_inv _ _ _ _ M He) as [(e0 & H & Ee & _)|(-> & _ & _ & _ & Oe & De)];
    destruct (micro_row_inv _ _ _ _ M Hf) as [(f0 & H' & Ef & _)|(-> & _ & _ & _ & Of & Df)].
    + apply Hij, (wf_dedup _ W i j e0 f0); congruence.
    + apply (Df _ _ H). congruence.
    + apply (De _ _ H'). congruence.
    + done.
Qed.

(** ** Every transaction is a sequence of row transitions *)

Definition set_row (s : db) (id : Z) (e : event) : db :=
  mkDb (<[id := e]> (rows s)) (audits s) (next_uuid s).

Lemma update_where_eq id g f s :
  update_where id g f s =
  match rows s !! id with
  | Some e => if g e then Ok (Some (f e), set_row s id (f e)) else Ok (None, s)
  | None => Ok (None, s)
  end.
Proof.
  unfold update_where, mbind, stex_bind, get. simpl.
  destruct (rows s !! id) as [e|]; [destruct (g e)|]; reflexivity.
Qed.

Lemma update_where_ok id g f s r s' : update_where id g f s = Ok (r, s') ->
  (r = None /\ s' = s) \/
  (exists e, rows s !! id = Some e /\ g e = true /\ r = Some (f e) /\ s' = set_row s id (f e)).
Proof. rewrite update_where_eq. intros H. repeat case_match; naive_solver. Qed.

Lemma lift_ok {S E A} (r : result E A) (s : S) a s' : lift r s = Ok (a, s') <-> r = Ok a /\ s' = s.
Proof. unfold lift. destruct r; naive_solver. Qed.

(** Symbolic execution of a repository transaction known to have returned. *)
Ltac sx_step :=
  match goal with
  | H : mbind (M:=stex _ _) _ _ _ = Ok _ |- _ =>
      apply stex_bind_ok in H as (? & ? & ? & H); cbv beta zeta in H
  | H : lift _ _ = Ok _ |- _ => apply lift_ok in H as [? ->]
  | H : get _ = Ok _ |- _ => injection H as <- <-
  | H : fresh_uuid _ = Ok _ |- _ => injection H as <- <-
  | H : mret _ _ = Ok _ |- _ => injection H as <- <-
  | H : modify _ _ = Ok _ |- _ => injection H as <- <-
  | H : set_rows _ _ = Ok _ |- _ => injection H as <- <-
  | H : throw _ _ = Ok _ |- _ => discriminate H
  | H : require _ _ = Ok _ |- _ => apply require_ok in H
  | H : refuse _ _ = Ok _ |- _ => apply refuse_ok in H
  | H : update_where _ _ _ _ = Ok _ |- _ =>
      apply update_where_ok in H as [[-> ->] | (? & ? & ? & -> & ->)]
  end.
Ltac sx := repeat (sx_step; simpl in * ).

Lemma find_dedup_none key m : find_dedup key m = None ->
  forall id e, m !! id = Some e -> dedup_key (contract e) <> key.
Proof.
  unfold find_dedup. intros H id e He Hk.
  assert (X : In (id, e) (map_to_list m)) by (by apply list_elem_of_In, elem_of_map_to_list).
  apply (List.find_none _ _ H) in X. simpl in X. by apply teqb_false in X.
Qed.

Lemma find_dedup_some key m id e : find_dedup key m = Some (id, e) ->
  m !! id = Some e /\ dedup_key (contract e) = key.
Proof.
  unfold find_dedup. intros [H Hk]%List.find_some.
  split; [by apply elem_of_map_to_list, list_elem_of_In | by apply teqb_spec].
Qed.

Lemma enqueue_checks_ok a spec d c cid : enqueue_checks a spec d c = Ok cid ->
  validate_spec spec = Ok tt /\ 0 <= d /\ (c = true -> event_type spec = tx "callback.ready").
Proof.
  unfold enqueue_checks. intros ([] & V & H)%bind_ok. apply bind_ok in H as (? & D & H).
  apply bind_ok in H as (? & C & _). sx. bool_prop. repeat split; try done.
  intros ->. destruct C as [|C]; [done|]. bool_prop. by apply teqb_spec.
Qed.

Lemma enqueue_ok now a spec d c s id s1 : enqueue_outbox now a spec d c s = Ok (id, s1) ->
  exists cid t el, enqueue_checks a spec d c = Ok cid /\
   ((exists old, find_dedup (dedup_key spec) (rows s) = Some (id, old) /\
       same_contract (contract old) spec = true /\
       s1 = mkDb (rows s) (audits s) (next_uuid s + 1)) \/
    (find_dedup (dedup_key spec) (rows s) = None /\ id = next_uuid s /\
     s1 = mkDb (<[id := new_row now spec cid t el]> (rows s)) (audits s) (next_uuid s + 1))).
Proof.
  unfold enqueue_outbox. intros H. sx. do 3 eexists. split; [eassumption|].
  destruct (find_dedup _ _) as [[i old]|] eqn:F; sx; [left|right]; eauto.
Qed.

Lemma enqueue_micro now a spec d c s id s' :
  enqueue_outbox now a spec d c s = Ok (id, s') -> rtc micro s s'.
Proof.
  intros (cid & t & el & C & H)%enqueue_ok. apply enqueue_checks_ok in C as [V _].
  apply rtc_once. destruct H as [(old & _ & _ & ->) | (F & -> & ->)]; [apply micro_fresh|].
  apply micro_insert; [done | by apply find_dedup_none].
Qed.

Lemma lease_each_micro now n l s r s' :
  NoDup l.*1 -> Forall (fun p => rows s !! fst p = Some (snd p) /\ due now (snd p) = true) l ->
  lease_each now n l s = Ok (r, s') -> rtc micro s s'.
Proof.
  revert s r. induction l as [|[id e] l IH]; simpl; intros s r Hnd Hl H; sx; [done|].
  apply NoDup_cons in Hnd as [Hid Hnd]. apply Forall_cons in Hl as [[He Hd] Hl].
  eapply rtc_l; [eapply (micro_assign s id e); [exact He | by apply (ra_leased now n)]|].
  eapply IH; [done| |eassumption]. rewrite Forall_forall in Hl |- *. intros [j f] Hj. simpl.
  rewrite lookup_insert_ne; [by apply (Hl (j, f))|].
  intros <-. apply Hid. apply list_elem_of_fmap. by exists (id, f).
Qed.

(** The selection before the limit: exactly the due rows that are not locked. *)
Definition due_rows (now : Z) (locked : Z -> bool) (m : gmap Z event) : list (Z * event) :=
  merge_sort due_before
    (List.filter (fun p => due now (snd p) && negb (locked (fst p))) (map_to_list m)).

Lemma due_rows_in now lk m id e :
  (id, e) ∈ due_rows now lk m <-> m !! id = Some e /\ due now e = true /\ lk id = false.
Proof.
  unfold due_rows. rewrite merge_sort_Permutation, filter_in, elem_of_map_to_list. simpl.
  by rewrite andb_true_iff, negb_true_iff.
Qed.

Lemma due_rows_nodup now lk m : NoDup (due_rows now lk m).*1.
Proof.
  apply NoDup_fmap_2_strong.
  - intros [i e] [j f] Hx Hy E. simpl in E. subst j.
    apply due_rows_in in Hx as [Hx _]. apply due_rows_in in Hy as [Hy _]. congruence.
  - unfold due_rows. rewrite merge_sort_Permutation.
    apply NoDup_ListNoDup, List.NoDup_filter, NoDup_ListNoDup, NoDup_map_to_list.
Qed.

Lemma select_due_spec now lk n m :
  NoDup (select_due now lk n m).*1 /\
  Forall (fun p => m !! fst p = Some (snd p) /\ due now (snd p) = true) (select_due now lk n m).
Proof.
  change (select_due now lk n m) with (take (Z.to_nat n) (due_rows now lk m)). split.
  - rewrite fmap_take. eapply sublist_NoDup; [apply due_rows_nodup | apply sublist_take].
  - apply Forall_take, Forall_forall. intros [id e] H%due_rows_in. naive_solver.
Qed.

Lemma lease_due_micro now lk n ls s r s' :
  lease_due now lk n ls s = Ok (r, s') -> rtc micro s s'.
Proof.
  unfold lease_due. intros H. sx. eapply rtc_l; [apply (micro_map s (exhaust_row now)), exhaust_row_map|].
  destruct (select_due_spec now lk n (exhaust_row now <$> rows s)).
  eapply lease_each_micro; [| |eassumption]; done.
Qed.

Lemma in_state_true st e : in_state st e = true <-> state e = st.
Proof. apply bool_decide_eq_true. Qed.

Lemma executing_true l e :
  executing l e = true <-> state e = OutboxState.processing /\ lease_id e = Some l.
Proof. unfold executing, has_lease. by rewrite andb_true_iff, in_state_true, bool_decide_eq_true. Qed.

(** The guards of the updates as facts on the row. *)
Ltac guards := rewrite ?andb_true_iff, ?orb_true_iff, ?executing_true, ?in_state_true in *.

Lemma already_running_same id s u s' : already_running id s = Ok (u, s') -> s' = s.
Proof. unfold already_running. intros H. sx. repeat case_match; by sx. Qed.

Lemma mark_published_micro now id l s u s' : mark_published now id l s = Ok (u, s') -> rtc micro s s'.
Proof.
  unfold mark_published. intros H. sx; [by apply already_running_same in H as ->|].
  apply rtc_once. eapply (micro_update s id); [eassumption|]. guards. apply ru_published. tauto.
Qed.

Lemma mark_publish_failed_micro now id l e s u s' :
  mark_publish_failed now id l e s = Ok (u, s') -> rtc micro s s'.
Proof.
  unfold mark_publish_failed. intros H. sx; [by apply already_running_same in H as ->|].
  apply rtc_once. eapply (micro_update s id); [eassumption|]. guards. apply ru_failed. tauto.
Qed.

Lemma claim_micro now id n s r s' : claim_execution now id n s = Ok (r, s') -> rtc micro s s'.
Proof.
  unfold claim_execution. intros H. sx; apply rtc_once; [apply micro_fresh|].
  eapply (micro_assign s id); [eassumption|]. guards. by apply ra_claimed.
Qed.

Lemma heartbeat_micro now id l n s r s' : heartbeat now id l n s = Ok (r, s') -> rtc micro s s'.
Proof.
  unfold heartbeat. intros H. sx; [done|].
  apply rtc_once. eapply (micro_update s id); [eassumption|]. guards. apply ru_renewed. tauto.
Qed.

Lemma complete_micro now id l s u s' : complete now id l s = Ok (u, s') -> rtc micro s s'.
Proof.
  unfold complete, _lease_update. intros H. sx.
  apply rtc_once. eapply (micro_update s id); [eassumption|]. guards. apply ru_completed. tauto.
Qed.

Lemma defer_micro now id l t s u s' : defer_execution now id l t s = Ok (u, s') -> rtc micro s s'.
Proof.
  unfold defer_execution, _lease_update. intros H. sx.
  apply rtc_once. eapply micro_update; [eassumption|]. guards. apply ru_deferred. tauto.
Qed.

Lemma fail_micro now id l e s u s' : fail_execution now id l e s = Ok (u, s') -> rtc micro s s'.
Proof.
  unfold fail_execution, _lease_update. intros H. sx.
  apply rtc_once. eapply (micro_update s id); [eassumption|]. guards. apply ru_failed. tauto.
Qed.

Lemma retry_dead_micro now id p s b s' : retry_dead now id p s = Ok (b, s') -> rtc micro s s'.
Proof.
  unfold retry_dead. intros H. sx; [done|].
  eapply rtc_l; [eapply (micro_update s id); [eassumption|guards; by apply ru_retried]|].
  apply rtc_once, (micro_audit (set_row s id _)).
Qed.

Lemma reopen_micro now a spec d c ty s u s' :
  ty = tx "chunk.ready" \/ ty = tx "batch.ready" ->
  (_ ← enqueue_outbox now a spec d c;
   set_rows (fmap (reopen_row now (dedup_key spec) ty))) s = Ok (u, s') -> rtc micro s s'.
Proof.
  intros Hty H. apply stex_bind_ok in H as (id & s1 & H1 & H2). sx.
  etransitivity; [by eapply enqueue_micro|].
  apply rtc_once, (micro_map _ (reopen_row now _ ty)). intros e. by apply reopen_row_map.
Qed.

Lemma chunk_ready_micro now a ids lane s u s' :
  _enqueue_chunk_ready now a ids lane s = Ok (u, s') -> rtc micro s s'.
Proof.
  revert s u. induction ids as [|i ids IH]; simpl; intros s u H; sx; [done|].
  etransitivity; [by eapply enqueue_micro|]. eapply rtc_l; [|by eapply IH].
  apply (micro_map _ (reopen_row now _ (tx "chunk.ready"))). intros e. apply reopen_row_map. by left.
Qed.

Lemma batch_ready_micro now a b lane s u s' :
  enqueue_batch_ready now a b lane s = Ok (u, s') -> rtc micro s s'.
Proof. unfold enqueue_batch_ready. apply reopen_micro. by right. Qed.

Lemma supersede_micro now i s u s' : supersede_bind now i s = Ok (u, s') -> rtc micro s s'.
Proof.
  unfold supersede_bind. intros H. sx. apply rtc_once, (micro_map s (superseded_row now _)).
  intros e. apply superseded_row_map.
Qed.

Lemma transaction_micro {A} (m : stex db exc A) s :
  (forall a s', m s = Ok (a, s') -> rtc micro s s') -> rtc micro s (snd (transaction m s)).
Proof.
  unfold transaction. intros H. destruct (m s) as [[a s']|e]; simpl; [by eapply H | constructor].
Qed.

Create HintDb outbox_micro.
#[local] Hint Resolve enqueue_micro lease_due_micro mark_published_micro
  mark_publish_failed_micro claim_micro heartbeat_micro complete_micro defer_micro fail_micro
  retry_dead_micro chunk_ready_micro batch_ready_micro supersede_micro : outbox_micro.

Lemma step_micro s s' : step s s' -> rtc micro s s'.
Proof.
  intros (now & o & ->). unfold run_op.
  destruct o; apply transaction_micro; eauto with outbox_micro.
Qed.

Lemma micro_invariant (I : db -> Prop) s s' :
  (forall a b, I a -> micro a b -> I b) -> I s -> rtc step s s' -> I s'.
Proof.
  intros HI Hs R. induction R as [|a b c H _ IH]; [done|]. apply IH. clear IH.
  apply step_micro in H. revert Hs. induction H; eauto.
Qed.

Lemma wf_empty : wf empty_db.
Proof. split; simpl; intros *; rewrite ?lookup_empty; try done; by rewrite lookup_empty. Qed.

Lemma steps_wf s s' : wf s -> rtc step s s' -> wf s'.
Proof. intros W. apply micro_invariant; [by intros ? ? ? ?; eapply micro_wf|done]. Qed.


(** A completed row that no sender reopens never changes again. *)
Lemma completed_stays s s' id e : wf s -> rows s !! id = Some e ->
  state e = OutboxState.completed -> reopenable e = false -> rtc step s s' -> rows s' !! id = Some e.
Proof.
  intros W He Hc Hr R. cut (wf s' /\ rows s' !! id = Some e); [tauto|]. revert R.
  apply (micro_invariant (fun x => wf x /\ rows x !! id = Some e)); [|done].
  intros a b [Wa Ha] M. split; [by eapply micro_wf|].
  destruct (micro_row a b id e M Ha (wf_ids _ Wa _ _ Ha)) as (e' & ? & _ & E & _).
  by rewrite E in * by done.
Qed.

Lemma steps_contract s s' id e : wf s -> rows s !! id = Some e -> rtc step s s' ->
  exists e', rows s' !! id = Some e' /\ contract e' = contract e.
Proof.
  intros W He R. cut (wf s' /\ exists e', rows s' !! id = Some e' /\ contract e' = contract e); [tauto|].
  revert R. apply (micro_invariant
    (fun x => wf x /\ exists e', rows x !! id = Some e' /\ contract e' = contract e)); [|naive_solver].
  intros a b [Wa (f & Hf & Ef)] M. split; [by eapply micro_wf|].
  destruct (micro_row a b id f M Hf (wf_ids _ Wa _ _ Hf)) as (f' & ? & ? & _).
  exists f'. split; [done|congruence].
Qed.

(** A token that is issued and not the row's current one stays dead. *)
Definition stale (l id : Z) (s : db) : Prop :=
  l < next_uuid s /\ forall e, rows s !! id = Some e -> lease_id e <> Some l.

Lemma stale_stays s s' l id : stale l id s -> rtc step s s' -> stale l id s'.
Proof.
  intros H. apply (micro_invariant (stale l id)); [|done]. clear. intros a b [Hl Hs] M.
  pose proof (micro_uuid _ _ M). split; [lia|]. intros e' He' E.
  destruct (micro_row_inv _ _ _ _ M He') as [(e & He & _ & _ & C)|?]; [|naive_solver].
  specialize (Hs _ He). destruct C as [?|[?|(? & _)]]; [congruence|congruence|].
  assert (l = next_uuid a) by congruence. lia.
Qed.

Lemma stale_refused s l id : stale l id s ->
  forall now, (forall u s', complete now id l s <> Ok (u, s')) /\
    (forall err u s', fail_execution now id l err s <> Ok (u, s')) /\
    (forall t u s', defer_execution now id l t s <> Ok (u, s')) /\
    (forall n, heartbeat now id l n s = Ok (false, s)).
Proof.
  intros [_ Hs] now. repeat split.
  - intros u s' H. unfold complete, _lease_update in H. sx. guards. naive_solver.
  - intros err u s' H. unfold fail_execution, _lease_update in H. sx. guards. naive_solver.
  - intros t u s' H. unfold defer_execution, _lease_update in H. sx. guards. naive_solver.
  - intros n. unfold heartbeat, mbind, stex_bind. rewrite update_where_eq.
    destruct (rows s !! id) as [e|] eqn:He; [|done].
    destruct (executing l e) eqn:X; [|done]. apply executing_true in X as [_ X].
    by apply Hs in X.
Qed.

Lemma claim_some now id n s c s' : claim_execution now id n s = Ok (Some c, s') ->
  exists e, rows s !! id = Some e /\
    (state e = OutboxState.leased \/ state e = OutboxState.published) /\
    oc_event_id c = id /\ oc_lease_id c = next_uuid s /\ oc_event_type c = event_type (contract e) /\
    s' = mkDb (<[id := processing_row now n (next_uuid s) e]> (rows s)) (audits s) (next_uuid s + 1).
Proof. unfold claim_execution. intros H. sx; [done|]. simplify_eq. guards. eauto 10. Qed.

(** ** Properties *)

(** C37: the table's invariant.  In every reachable state an event has a lease
    exactly while it is leased, published or being processed, its attempts stay
    within its budget, no two events share a deduplication key, and no two hold
    the same lease token. *)
Theorem reachable_wf s (H : reachable s) : wf s.
Proof. eapply steps_wf; [apply wf_empty | exact H]. Qed.

Definition example_spec : OutboxEventSpec :=
  mkSpec (tx "chunk.ready") (tx "sms_chunk") (tx "7") (tx "app.tasks.send.process_chunk")
    (tx "bulk") [AInt 7] (tx "chunk.ready:7") 12 (Some 5).

(** An event that was enqueued, leased, and claimed by a consumer. *)
Definition example_ops : list (Z * op) :=
  [ (0, OpEnqueue None example_spec 0 false); (secs 1, OpLeaseDue (fun _ => false) 10 60);
    (secs 2, OpClaim 1 300) ].
Definition run_ops (l : list (Z * op)) (s : db) : db :=
  foldl (fun s p => run_op (fst p) (snd p) s) s l.

Lemma run_ops_steps l s : rtc step s (run_ops l s).
Proof.
  revert s. induction l as [|[t o] l IH]; intros s; [constructor|].
  eapply rtc_l; [by exists t, o | apply IH].
Qed.

Lemma reachable_wf_witness :
  rows (run_ops example_ops empty_db) !! 1 <> None /\ wf (run_ops example_ops empty_db).
Proof.
  split; [vm_compute; discriminate|]. apply reachable_wf, run_ops_steps.
Defined.

(** Fencing.  Once a second consumer has claimed an event, the first
    consumer's token is dead for good: whatever happens afterwards, it can no
    longer complete, fail, defer or renew the event. *)
Theorem stale_consumer_fenced s1 s2 s3 s4 s5 id tA nA tB nB cA cB now
    (HA : claim_execution tA id nA s1 = Ok (Some cA, s2)) (R1 : rtc step s2 s3)
    (HB : claim_execution tB id nB s3 = Ok (Some cB, s4)) (R2 : rtc step s4 s5) :
  (forall u s', complete now id (oc_lease_id cA) s5 <> Ok (u, s')) /\
  (forall err u s', fail_execution now id (oc_lease_id cA) err s5 <> Ok (u, s')) /\
  (forall t u s', defer_execution now id (oc_lease_id cA) t s5 <> Ok (u, s')) /\
  (forall n, heartbeat now id (oc_lease_id cA) n s5 = Ok (false, s5)).
Proof.
  apply stale_refused. eapply stale_stays; [|exact R2].
  apply claim_some in HA as (eA & _ & _ & _ & -> & _ & ->).
  apply claim_some in HB as (eB & _ & _ & _ & _ & _ & ->).
  assert (Hn : next_uuid s1 + 1 <= next_uuid s3).
  { apply (micro_invariant (fun s => next_uuid s1 + 1 <= next_uuid s)) in R1; simpl in *; [done| |lia].
    intros a b ? M%micro_uuid. lia. }
  split; simpl; [lia|]. intros e He. rewrite lookup_insert_eq in He. injection He as <-.
  simpl. intros [= ?]. lia.
Qed.

(** The lease of the first consumer runs out and the event is delivered again. *)
Lemma stale_consumer_fenced_witness :
  exists s5, heartbeat (secs 1000) 1 3 300 s5 = Ok (false, s5).
Proof.
  set (s1 := run_ops [ (0, OpEnqueue None example_spec 0 false);
                       (secs 1, OpLeaseDue (fun _ => false) 10 60) ] empty_db).
  set (s2 := run_op (secs 2) (OpClaim 1 300) s1).
  set (s3 := run_ops [(secs 400, OpLeaseDue (fun _ => false) 10 60)] s2).
  set (s4 := run_op (secs 401) (OpClaim 1 300) s3).
  exists s4.
  destruct (stale_consumer_fenced s1 s2 s3 s4 s4 1 (secs 2) 300 (secs 401) 300
    (mkClaim 1 3 (tx "chunk.ready") [AInt 7] 5) (mkClaim 1 5 (tx "chunk.ready") [AInt 7] 5)
    (secs 1000)) as (_ & _ & _ & H).
  - vm_compute; reflexivity.
  - apply run_ops_steps.
  - vm_compute; reflexivity.
  - constructor.
  - apply H.
Defined.

Lemma complete_ok now id l s u s' : complete now id l s = Ok (u, s') ->
  exists e0 e, rows s !! id = Some e0 /\ rows s' !! id = Some e /\
    state e = OutboxState.completed /\ contract e = contract e0.
Proof.
  unfold complete, _lease_update. intros H. sx. do 2 eexists. rewrite lookup_insert_eq. by eauto.
Qed.

(** The claim of an event that is neither leased nor published. *)
Lemma claim_none now id n s e :
  rows s !! id = Some e -> state e <> OutboxState.leased -> state e <> OutboxState.published ->
  15 <= n -> claim_execution now id n s = Ok (None, mkDb (rows s) (audits s) (next_uuid s + 1)).
Proof.
  intros He H1 H2 Hn. unfold claim_execution, mbind, stex_bind, lift, refuse.
  replace (n <? 15) with false by (symmetry; by apply Z.ltb_ge). simpl.
  rewrite update_where_eq. simpl. rewrite He. unfold in_state.
  by rewrite !bool_decide_false.
Qed.

Lemma transaction_ok {S E A} (m : stex S E A) s a s' :
  transaction m s = (Ok a, s') -> m s = Ok (a, s').
Proof. unfold transaction. repeat case_match; naive_solver. Qed.

Lemma run_some {T} (effect : OutboxClaim -> db -> effect_result T * db) lost t1 t2 id n ty s x s' :
  OutboxExecutor_run effect lost t1 t2 id n ty s = (Ok (Some x), s') ->
  exists c s1, claim_execution t1 id n s = Ok (Some c, s1) /\ oc_event_type c = ty /\
    exists s2, effect c s1 = (Done x, s2) /\ complete t2 id (oc_lease_id c) s2 = Ok (tt, s').
Proof.
  unfold OutboxExecutor_run. intros H.
  destruct (transaction (claim_execution t1 id n) s) as [[[c|]|] s1] eqn:C; try done.
  apply transaction_ok in C. exists c, s1. split; [done|].
  assert (oc_event_id c = id) as Eid by (apply claim_some in C; naive_solver).
  rewrite Eid in H. destruct (negb (teqb (oc_event_type c) ty)) eqn:Ety.
  - apply transaction_ok in H. sx. done.
  - apply negb_false_iff, teqb_spec in Ety. split; [done|]. destruct (effect c s1) as [[y|t|e] s2]; destruct lost; try done.
    + apply transaction_ok in H. sx. simplify_eq. exists s2. by destruct x0.
    + destruct (negb _); [by repeat case_match|]. apply transaction_ok in H. sx. done.
    + by repeat case_match.
Qed.

(** C31: a completed event is not executed.  A run that returns the value of its
    effect leaves the event completed.  While an event is completed, however it
    came to be, a run of it, by any consumer and with any effect, does nothing:
    it returns without running the effect and leaves the table as it is.  And a
    completed event stays as it is for ever, the kinds aside that the senders
    reopen ([chunk.ready], [batch.ready]). *)
Theorem run_once {T T'} (effect : OutboxClaim -> db -> effect_result T * db)
    (effect' : OutboxClaim -> db -> effect_result T' * db) lost lost' t1 t2 t1' t2' id n n'
    ty ty' s s1 (W : wf s)
    (Heff : forall c s, rtc step s (snd (effect c s))) (R : rtc step s s1) (Hn : 15 <= n') :
  (forall x, OutboxExecutor_run effect lost t1 t2 id n ty s = (Ok (Some x), s1) ->
     exists e, rows s1 !! id = Some e /\ state e = OutboxState.completed /\
       event_type (contract e) = ty) /\
  (forall e, rows s1 !! id = Some e -> state e = OutboxState.completed ->
     OutboxExecutor_run effect' lost' t1' t2' id n' ty' s1 =
       (Ok None, mkDb (rows s1) (audits s1) (next_uuid s1 + 1)) /\
     (event_type (contract e) <> tx "chunk.ready" -> event_type (contract e) <> tx "batch.ready" ->
      forall s2, rtc step s1 s2 -> rows s2 !! id = Some e)).
Proof.
  split.
  - intros x Hrun. destruct (run_some _ _ _ _ _ _ _ _ _ _ Hrun) as (c & sc & C & Ec & se & E & D).
    assert (Hse : rtc step sc se) by (specialize (Heff c sc); by rewrite E in Heff).
    assert (Wsc : wf sc).
    { eapply steps_wf; [exact W|apply rtc_once]. exists t1, (OpClaim id n). simpl. unfold transaction. by rewrite C. }
    apply complete_ok in D as (e0 & e & He0 & He & Hc & Hct). exists e. split_and!; [done..|].
    apply claim_some in C as (ec & _ & _ & _ & _ & Ety & ->).
    destruct (steps_contract _ _ id _ Wsc (lookup_insert_eq _ _ _) Hse) as (e0' & He0' & Ect).
    assert (e0' = e0) as -> by congruence. simpl in Ect. by rewrite Hct, Ect, <- Ety, Ec.
  - intros e He Hc. split.
    + unfold OutboxExecutor_run, transaction.
      rewrite (claim_none t1' id n' s1 e); [done|done|congruence|congruence|done].
    + intros H1 H2 s2 R2. eapply completed_stays; [by eapply steps_wf|done|done| |done].
      unfold reopenable, tmem. apply bool_decide_eq_false. intros Hin. elem_inv Hin; done.
Qed.

Definition example_alert : OutboxEventSpec :=
  mkSpec (tx "alert.ready") (tx "alert_log") (tx "3") (tx "app.tasks.outbox.deliver_alert")
    (tx "realtime") [AInt 3; AStr (tx "wecom")] (tx "alert:3:wecom") 12 (Some 5).

Lemma run_once_witness :
  exists s1 e, rows s1 !! 1 = Some e /\ state e = OutboxState.completed /\
    OutboxExecutor_run (fun _ s => (Done 1%nat, s)) false (secs 20) (secs 21) 1 300
      (tx "alert.ready") s1 = (Ok None, mkDb (rows s1) (audits s1) (next_uuid s1 + 1)).
Proof.
  set (s := run_ops [ (0, OpEnqueue None example_alert 0 false);
                      (secs 1, OpLeaseDue (fun _ => false) 10 60) ] empty_db).
  set (eff := fun (_ : OutboxClaim) (s : db) => (Done 1%nat, s)).
  set (ops := [ (secs 2, OpClaim 1 300); (secs 3, OpComplete 1 3) ]).
  set (r := OutboxExecutor_run eff false (secs 2) (secs 3) 1 300 (tx "alert.ready") s).
  assert (E : snd r = run_ops ops s) by (vm_compute; reflexivity).
  exists (snd r). destruct (run_once eff eff false false (secs 2) (secs 3) (secs 20) (secs 21) 1 300 300
    (tx "alert.ready") (tx "alert.ready") s (snd r)) as [A B].
  - eapply steps_wf; [apply wf_empty | apply run_ops_steps].
  - intros. constructor.
  - rewrite E. apply run_ops_steps.
  - lia.
  - destruct (A 1%nat) as (e & He & Hc & _); [vm_compute; reflexivity|].
    exists e. split; [exact He|]. split; [exact Hc|]. exact (proj1 (B e He Hc)).
Defined.

Lemma find_dedup_known s id e : wf s -> rows s !! id = Some e ->
  find_dedup (dedup_key (contract e)) (rows s) = Some (id, e).
Proof.
  intros W He. destruct (find_dedup _ _) as [[j f]|] eqn:F.
  - apply find_dedup_some in F as [Hf E]. assert (j = id) as -> by (by eapply (wf_dedup _ W)).
    congruence.
  - by apply (find_dedup_none _ _ F) in He.
Qed.

Lemma same_contract_refl spec : same_contract spec spec = true.
Proof.
  unfold same_contract, args_eqb. rewrite !teqb_refl, Z.eqb_refl. by rewrite bool_decide_true.
Qed.

(** The checks of an accepted event do not depend on the clock. *)
Lemma row_checks_clock now now' a spec d c cid : enqueue_checks a spec d c = Ok cid ->
  let row t := new_row t spec cid (t + secs d) (if c then Some (t + secs d) else None) in
  row_checks (row now') = row_checks (row now).
Proof.
  intros (_ & Hd & Hc)%enqueue_checks_ok row.
  assert (K : forall t, ck_capacity_clock (row t) = true).
  { intros t. unfold ck_capacity_clock, row, new_row. simpl. destruct c; [|done].
    rewrite Hc by done. simpl. apply andb_true_iff. split; [|done].
    apply Z.leb_le. unfold secs. lia. }
  unfold row_checks. by rewrite !K.
Qed.

Lemma enqueue_again now now' a spec d c s id s1 s2 old :
  enqueue_outbox now a spec d c s = Ok (id, s1) ->
  find_dedup (dedup_key spec) (rows s2) = Some (id, old) ->
  same_contract (contract old) spec = true ->
  enqueue_outbox now' a spec d c s2 = Ok (id, mkDb (rows s2) (audits s2) (next_uuid s2 + 1)).
Proof.
  unfold enqueue_outbox. intros H F S.
  apply stex_bind_ok in H as (cid & s0 & [C ->]%lift_ok & H). sx.
  unfold mbind, stex_bind. rewrite C. cbn [lift fresh_uuid].
  match goal with R : row_checks _ = Ok _ |- _ =>
    rewrite <-(row_checks_clock now now' a spec d c cid C) in R; rewrite R end.
  cbn [lift get rows]. by rewrite F, S.
Qed.

(** Enqueueing is idempotent.  After an event was enqueued, enqueueing
    the same specification again, at any later time and after any other
    transactions, returns the same event id and adds or changes no row; a
    different contract under the same deduplication key is refused. *)
Theorem enqueue_idempotent now a spec d c s id s1 s2 (W : wf s)
    (H : enqueue_outbox now a spec d c s = Ok (id, s1)) (R : rtc step s1 s2) :
  (forall now', enqueue_outbox now' a spec d c s2 =
     Ok (id, mkDb (rows s2) (audits s2) (next_uuid s2 + 1))) /\
  (forall now' a' spec' d' c' id' s3, dedup_key spec' = dedup_key spec ->
     enqueue_outbox now' a' spec' d' c' s2 = Ok (id', s3) ->
     id' = id /\ rows s3 = rows s2 /\ event_type spec' = event_type spec /\
     args spec' = args spec /\ task_name spec' = task_name spec).
Proof.
  assert (W1 : wf s1).
  { eapply steps_wf; [exact W|]. apply rtc_once. exists now, (OpEnqueue a spec d c).
    simpl. unfold transaction. by rewrite H. }
  assert (exists e, rows s1 !! id = Some e /\ dedup_key (contract e) = dedup_key spec /\
            same_contract (contract e) spec = true) as (e & He & Ek & Es).
  { apply enqueue_ok in H as (cid & t & el & _ & [(old & F & S & ->) | (_ & _ & ->)]).
    - apply find_dedup_some in F as [? ?]. eauto.
    - eexists. simpl. rewrite lookup_insert_eq. split; [done|]. simpl.
      by rewrite same_contract_refl. }
  destruct (steps_contract _ _ _ _ W1 He R) as (e2 & He2 & Ec).
  assert (F : find_dedup (dedup_key spec) (rows s2) = Some (id, e2)).
  { rewrite <-Ek, <-Ec. apply find_dedup_known; [by eapply steps_wf|done]. }
  rewrite <-Ec in Es. split.
  - intros now'. by eapply enqueue_again.
  - intros now' a' spec' d' c' id' s3 K (? & ? & ? & _ & H')%enqueue_ok.
    rewrite K, F in H'. destruct H' as [(old & E & S & ->) | (? & _)]; [|done].
    injection E as <- <-. split; [done|]. split; [done|].
    unfold same_contract, args_eqb, teqb in *. bool_prop. repeat split; congruence.
Qed.

Lemma enqueue_idempotent_witness :
  let s1 := run_op 0 (OpEnqueue None example_spec 0 false) empty_db in
  enqueue_outbox (secs 9) None example_spec 0 false s1 =
    Ok (1, mkDb (rows s1) (audits s1) (next_uuid s1 + 1)).
Proof.
  set (s1 := run_op 0 (OpEnqueue None example_spec 0 false) empty_db).
  destruct (enqueue_idempotent 0 None example_spec 0 false empty_db 1 s1 s1 wf_empty) as [H _].
  - vm_compute; reflexivity.
  - constructor.
  - apply H.
Defined.


(** What leasing a list of current rows does to each of them. *)
Lemma lease_each_rows now n l s :
  NoDup l.*1 ->
  exists r s', lease_each now n l s = Ok (r, s') /\
    (forall id, id ∉ l.*1 -> rows s' !! id = rows s !! id) /\
    (forall id e, (id, e) ∈ l -> exists t x, rows s' !! id = Some (lease_row now n t e) /\
       x ∈ r /\ ol_event_id x = id /\ ol_lease_id x = t).
Proof.
  revert s. induction l as [|[id e] l IH]; intros s Hnd.
  - exists [], s. split; [done|]. split; [done|]. intros ? ? H. elem_inv H.
  - rewrite fmap_cons in Hnd. apply NoDup_cons in Hnd as [Hid Hnd].
    destruct (IH (mkDb (<[id := lease_row now n (next_uuid s) e]> (rows s)) (audits s)
                    (next_uuid s + 1)) Hnd) as (r & s' & E & Hout & Hin).
    eexists _, s'. split; [|split].
    + simpl. unfold mbind, stex_bind. simpl. rewrite E. reflexivity.
    + intros j Hj. rewrite fmap_cons, not_elem_of_cons in Hj. destruct Hj as [Hne Hj].
      rewrite Hout by done. simpl. by rewrite lookup_insert_ne by (simpl in Hne; congruence).
    + intros j f [E'|Hj]%elem_of_cons.
      * injection E' as -> ->. do 2 eexists. rewrite Hout by done. simpl.
        rewrite lookup_insert_eq. split; [done|]. split; [left|done].
      * destruct (Hin _ _ Hj) as (t & x & ? & ? & ? & ?). exists t, x. by repeat split; try right.
Qed.

(** A row whose delivery is outstanding: not delivered yet and due, or
    abandoned by its consumer. *)
Definition outstanding (now : Z) (e : event) : Prop :=
  (state e = OutboxState.pending /\ next_attempt_at e <= now) \/
  (in_flight e = true /\ exists t, lease_expires_at e = Some t /\ t <= now).

Lemma outstanding_active now e : outstanding now e ->
  active e = true /\ (is_pending e || no_live_lease now e = true) /\
  (attempts e < max_attempts (contract e) -> due now e = true).
Proof.
  unfold outstanding, active, is_pending, no_live_lease, due, lease_expired.
  intros [[Hs Ht] | [Hf (t & Hl & Ht)]].
  - rewrite Hs. repeat split. intros ?. unfold is_pending. rewrite Hs.
    apply andb_true_iff. split; [lia|]. apply orb_true_iff. left. simpl. lia.
  - rewrite Hl, Hf. pose proof Hf as Hs. apply in_flight_true in Hs. split; [|split].
    + destruct Hs as [-> | [-> | ->] ]; reflexivity.
    + rewrite (proj2 (Z.leb_le t now)) by lia. apply orb_true_r.
    + intros ?. rewrite (proj2 (Z.leb_le t now)) by lia. simpl. rewrite orb_true_r.
      apply andb_true_iff. split; [lia|done].
Qed.

Lemma exhaust_not now e : attempts e < max_attempts (contract e) -> exhaust_row now e = e.
Proof.
  unfold exhaust_row. intros H. replace (max_attempts (contract e) <=? attempts e) with false by
    (symmetry; lia). by rewrite andb_false_r.
Qed.

Lemma exhaust_dead now e : max_attempts (contract e) <= attempts e -> outstanding now e ->
  state (exhaust_row now e) = OutboxState.dead.
Proof.
  intros H (A & B & _)%outstanding_active. unfold exhaust_row. rewrite A, B.
  by rewrite (proj2 (Z.leb_le _ _)) by lia.
Qed.

(** Nothing is forgotten.  When the dispatcher asks for at least as many
    events as are due and none is locked, every outstanding event is either
    handed out under a fresh delivery lease with one more attempt counted, or,
    its attempts being used up, becomes dead for an operator to see. *)
Theorem lease_due_progress now limit ls s id e
    (Hlim : 1 <= limit <= 1000) (Hls : 5 <= ls)
    (Hall : Z.of_nat (length (due_rows now (fun _ => false) (exhaust_row now <$> rows s))) <= limit)
    (He : rows s !! id = Some e) (Ho : outstanding now e) :
  exists r s' e', lease_due now (fun _ => false) limit ls s = Ok (r, s') /\
    rows s' !! id = Some e' /\
    ((attempts e < max_attempts (contract e) /\ state e' = OutboxState.leased /\
      attempts e' = attempts e + 1 /\ lease_expires_at e' = Some (now + secs ls) /\
      exists x, x ∈ r /\ ol_event_id x = id /\ lease_id e' = Some (ol_lease_id x)) \/
     (max_attempts (contract e) <= attempts e /\ state e' = OutboxState.dead)).
Proof.
  set (m := exhaust_row now <$> rows s).
  set (s0 := mkDb m (audits s) (next_uuid s)).
  destruct (lease_each_rows now ls (due_rows now (fun _ => false) m) s0 (due_rows_nodup _ _ _))
    as (r & s' & E & Hout & Hin).
  assert (Sel : select_due now (fun _ => false) limit m = due_rows now (fun _ => false) m).
  { change (take (Z.to_nat limit) (due_rows now (fun _ => false) m)
            = due_rows now (fun _ => false) m). apply take_ge. fold m in Hall. lia. }
  assert (L : lease_due now (fun _ => false) limit ls s = Ok (r, s')).
  { unfold lease_due, mbind, stex_bind, lift, require.
    rewrite !(proj2 (Z.leb_le _ _)) by lia. simpl. fold m. by rewrite Sel. }
  assert (Hm : m !! id = Some (exhaust_row now e)) by (unfold m; by rewrite lookup_fmap, He).
  exists r, s'. destruct (Z.lt_ge_cases (attempts e) (max_attempts (contract e))) as [Ha|Ha].
  - rewrite exhaust_not in Hm by done.
    destruct (Hin id e) as (t & x & Hx & Hr & Hid & Ht).
    { apply due_rows_in. repeat split; [done|]. by apply outstanding_active. }
    eexists. split; [done|]. split; [exact Hx|]. left. simpl. repeat split; try done.
    exists x. by rewrite Ht.
  - eexists. split; [done|]. rewrite Hout; [split; [exact Hm|]|].
    + right. split; [lia|]. by apply exhaust_dead.
    + intros ([? f] & E' & Hf)%list_elem_of_fmap. simpl in E'. subst.
      apply due_rows_in in Hf as (Hf & Hd & _). rewrite Hm in Hf. injection Hf as <-.
      unfold due, is_pending, in_flight in Hd.
      rewrite (exhaust_dead now e) in Hd by done. simpl in Hd. by rewrite andb_false_r in Hd.
Qed.

(** The consumer of [example_ops] died: its lease ran out at second 302. *)
Lemma lease_due_progress_witness :
  let s := run_ops example_ops empty_db in
  exists r s' e', lease_due (secs 400) (fun _ => false) 10 60 s = Ok (r, s') /\
    rows s' !! 1 = Some e' /\ state e' = OutboxState.leased /\ attempts e' = 2.
Proof.
  set (s := run_ops example_ops empty_db).
  destruct (rows s !! 1) as [e|] eqn:He; [|vm_compute in He; discriminate He].
  assert (Hv : rows s !! 1 = Some e) by exact He.
  vm_compute in He. injection He as <-.
  destruct (lease_due_progress (secs 400) 10 60 s 1 _ ltac:(lia) ltac:(lia)
              ltac:(vm_compute; discriminate) Hv) as (r & s' & e' & L & R & [H|H]).
  - right. split; [reflexivity|]. eexists. split; [reflexivity|]. vm_compute. discriminate.
  - exists r, s', e'. destruct H as (_ & ? & Ha & _). repeat split; try done.
  - destruct H as [Hc _]. vm_compute in Hc. exfalso. by apply Hc.
Defined.
End Outbox.
