(* ===== verification/Effects.v ===== *)
(** * Programs over an interface of calls

    Code that only talks to collaborators (a store, a token bucket, a vendor)
    is a program over the calls it makes: a call may return or raise.  A world
    answers calls from the history; executing a program yields its trace.  A
    monitor says which calls are allowed when; a weakest-precondition predicate
    shows that every trace of a program obeys its monitor. *)

From S2P Require Import Prelude.

Section Programs.
Context {call : Type} {answer : call -> Type} {exn : Type}.

Inductive prog (A : Type) : Type :=
| Ret (r : result exn A)
| Call (e : call) (k : result exn (answer e) -> prog A).
Arguments Ret {A} r.
Arguments Call {A} e k.

(** Continue with the result, whether it returned or raised. *)
Fixpoint attempt {A B} (p : prog A) (f : result exn A -> prog B) : prog B :=
  match p with
  | Ret r => f r
  | Call e k => Call e (fun a => attempt (k a) f)
  end.

#[export] Instance prog_ret : MRet prog := fun A a => Ret (Ok a).
#[export] Instance prog_bind : MBind prog := fun A B f p =>
  attempt p (fun r => match r with Ok a => f a | Raise e => Ret (Raise e) end).

Definition perform (e : call) : prog (answer e) := Call e Ret.
Definition raise {A} (e : exn) : prog A := Ret (Raise e).
Definition of_result {A} (r : result exn A) : prog A := Ret r.

(** [try: p except ...: h], where [h] re-raises what it does not catch. *)
Definition catch {A} (p : prog A) (h : exn -> prog A) : prog A :=
  attempt p (fun r => match r with Ok a => Ret (Ok a) | Raise e => h e end).

(** [try: p finally: q] *)
Definition finally {A} (p : prog A) (q : prog unit) : prog A :=
  attempt p (fun r => attempt q (fun r' =>
    match r' with Ok _ => Ret r | Raise e => Ret (Raise e) end)).

(** ** Executions *)

Definition entry : Type := {e : call & result exn (answer e)}.
Definition world : Type := list entry -> forall e, result exn (answer e).

Fixpoint exec {A} (w : world) (history : list entry) (p : prog A)
    : list entry * result exn A :=
  match p with
  | Ret r => (history, r)
  | Call e k => let a := w history e in exec w (history ++ [existT e a]) (k a)
  end.

Lemma exec_attempt {A B} (w : world) (p : prog A) (f : result exn A -> prog B) : forall h,
  exec w h (attempt p f) = exec w (fst (exec w h p)) (f (snd (exec w h p))).
Proof. induction p as [r|e k IH]; intros h; simpl; [done | by rewrite IH]. Qed.

Lemma exec_bind {A B} (w : world) (p : prog A) (f : A -> prog B) h :
  exec w h (p ≫= f) = match exec w h p with
                      | (h', Ok a) => exec w h' (f a)
                      | (h', Raise e) => (h', Raise e)
                      end.
Proof.
  change (exec w h (attempt p (fun r => match r with Ok a => f a | Raise e => Ret (Raise e) end)) =
    match exec w h p with (h', Ok a) => exec w h' (f a) | (h', Raise e) => (h', Raise e) end).
  rewrite exec_attempt. by destruct (exec w h p) as [h' [a|e]].
Qed.

Lemma exec_catch {A} (w : world) (p : prog A) (g : exn -> prog A) h :
  exec w h (catch p g) = match exec w h p with
                         | (h', Ok a) => (h', Ok a)
                         | (h', Raise e) => exec w h' (g e)
                         end.
Proof. unfold catch. rewrite exec_attempt. by destruct (exec w h p) as [h' [a|e]]. Qed.

Lemma exec_finally {A} (w : world) (p : prog A) q h :
  exec w h (finally p q) = match exec w (fst (exec w h p)) q with
                           | (h', Ok _) => (h', snd (exec w h p))
                           | (h', Raise e) => (h', Raise e)
                           end.
Proof. unfold finally. rewrite !exec_attempt. by destruct (exec w (fst (exec w h p)) q) as [h' [[]|e]]. Qed.

Lemma exec_perform (w : world) e h : exec w h (perform e) = (h ++ [existT e (w h e)], w h e).
Proof. done. Qed.

(** Every answer of a trace is the world's answer after what was before it. *)
Lemma exec_answers_from {A} (w : world) (p : prog A) : forall h,
  (forall t1 (x : entry) t2, h = t1 ++ x :: t2 -> projT2 x = w t1 (projT1 x)) ->
  forall t1 (x : entry) t2, fst (exec w h p) = t1 ++ x :: t2 -> projT2 x = w t1 (projT1 x).
Proof.
  induction p as [r|e k IH]; intros h C; simpl; [exact C|]. apply IH. intros t1 x t2 E.
  destruct t2 as [|y t2 _] using rev_ind.
  - by apply app_inj_tail in E as [-> <-].
  - rewrite app_comm_cons, app_assoc in E. apply app_inj_tail in E as [E _]. by eapply C.
Qed.

Lemma exec_answers {A} (w : world) (p : prog A) t1 (x : entry) t2 :
  fst (exec w [] p) = t1 ++ x :: t2 -> projT2 x = w t1 (projT1 x).
Proof. apply exec_answers_from. intros t ? ? E. by destruct t. Qed.

(** ** Which calls a program makes *)

Fixpoint only {A} (P : call -> bool) (p : prog A) : Prop :=
  match p with
  | Ret _ => True
  | Call e k => P e = true /\ forall a, only P (k a)
  end.

Section Only.
Context (P : call -> bool).

Lemma only_ret {A} (r : result exn A) : only P (Ret r).
Proof. done. Qed.

Lemma only_perform e : P e = true -> only P (perform e).
Proof. done. Qed.

Lemma only_attempt {A B} (p : prog A) (f : result exn A -> prog B) :
  only P p -> (forall r, only P (f r)) -> only P (attempt p f).
Proof. intros H F. induction p as [r|e k IH]; simpl in *; [apply F|]. destruct H as [H K]. split; [done|]. auto. Qed.

Lemma only_bind {A B} (p : prog A) (f : A -> prog B) : only P p -> (forall a, only P (f a)) -> only P (p ≫= f).
Proof. intros H F. apply only_attempt; [done|]. intros [a|e]; [apply F | done]. Qed.

Lemma only_catch {A} (p : prog A) (g : exn -> prog A) : only P p -> (forall e, only P (g e)) -> only P (catch p g).
Proof. intros H F. apply only_attempt; [done|]. intros [a|e]; [done | apply F]. Qed.

Lemma only_finally {A} (p : prog A) q : only P p -> only P q -> only P (finally p q).
Proof. intros H F. apply only_attempt; [done|]. intros r. apply only_attempt; [done|]. by intros [a|e]. Qed.

Lemma only_exec {A} (w : world) (p : prog A) : only P p -> forall h,
  exists tr, fst (exec w h p) = h ++ tr /\ Forall (fun x : entry => P (projT1 x) = true) tr.
Proof.
  induction p as [r|e k IH]; intros H h; simpl in *.
  - exists []. by rewrite app_nil_r.
  - destruct H as [H K]. destruct (IH (w h e) (K _) (h ++ [existT e (w h e)])) as (tr & E & F).
    exists (existT e (w h e) :: tr). rewrite E, <- app_assoc. split; [done | by constructor].
Qed.
End Only.

(** ** Monitors *)

Section Monitor.
Context {M : Type}.
Context (allowed : M -> call -> bool) (after : M -> forall e, result exn (answer e) -> M).
(** What the collaborators may answer. *)
Context (possible : forall e, result exn (answer e) -> Prop).

Fixpoint accepts (m : M) (trace : list entry) : option M :=
  match trace with
  | [] => Some m
  | existT e a :: rest => if allowed m e then accepts (after m e a) rest else None
  end.

Fixpoint wp {A} (p : prog A) (Q : M -> result exn A -> Prop) (m : M) : Prop :=
  match p with
  | Ret r => Q m r
  | Call e k => allowed m e = true /\ forall a, possible e a -> wp (k a) Q (after m e a)
  end.

Lemma wp_mono {A} (p : prog A) (P Q : M -> result exn A -> Prop) m :
  (forall m' r, P m' r -> Q m' r) -> wp p P m -> wp p Q m.
Proof.
  intros H. revert m. induction p as [r|e k IH]; simpl; intros m; [apply H|].
  intros [Ha Hk]. split; [done|]. intros a Hp. by apply IH, Hk.
Qed.

Lemma wp_attempt {A B} (p : prog A) (f : result exn A -> prog B) Q m :
  wp p (fun m' r => wp (f r) Q m') m -> wp (attempt p f) Q m.
Proof.
  revert m. induction p as [r|e k IH]; simpl; intros m; [done|].
  intros [Ha Hk]. split; [done|]. intros a Hp. by apply IH, Hk.
Qed.

Lemma wp_bind {A B} (p : prog A) (f : A -> prog B) Q m :
  wp p (fun m' r => match r with Ok a => wp (f a) Q m' | Raise e => Q m' (Raise e) end) m ->
  wp (p ≫= f) Q m.
Proof.
  intros H. apply wp_attempt. revert H. apply wp_mono. intros m' [a|e]; done.
Qed.

Lemma wp_ret {A} (r : result exn A) Q m : Q m r -> wp (Ret r) Q m.
Proof. done. Qed.

Lemma wp_perform e Q m : allowed m e = true ->
  (forall a, possible e a -> Q (after m e a) a) -> wp (perform e) Q m.
Proof. done. Qed.

Lemma wp_catch {A} (p : prog A) h Q m :
  wp p (fun m' r => match r with Ok a => Q m' (Ok a) | Raise e => wp (h e) Q m' end) m ->
  wp (catch p h) Q m.
Proof.
  intros H. apply wp_attempt. revert H. apply wp_mono. intros m' [a|e]; done.
Qed.

Lemma wp_finally {A} (p : prog A) q Q m :
  wp p (fun m' r => wp q (fun m'' r' =>
    Q m'' (match r' with Ok _ => r | Raise e => Raise e end)) m') m ->
  wp (finally p q) Q m.
Proof.
  intros H. apply wp_attempt. revert H. apply wp_mono. intros m' r H. apply wp_attempt.
  revert H. apply wp_mono. intros m'' [u|e]; done.
Qed.

(** Every trace of the program obeys the monitor and ends in the postcondition. *)
Lemma wp_exec {A} (w : world) (p : prog A) Q m history :
  (forall h e, possible e (w h e)) -> wp p Q m ->
  exists trace m', fst (exec w history p) = history ++ trace /\ accepts m trace = Some m' /\
    Q m' (snd (exec w history p)).
Proof.
  intros Hw. revert m history. induction p as [r|e k IH]; intros m history H; simpl in *.
  - exists [], m. by rewrite app_nil_r.
  - destruct H as [Ha Hk].
    destruct (IH (w history e) (after m e (w history e)) (history ++ [existT e (w history e)])
                (Hk _ (Hw history e))) as (t & m' & E & Acc & HQ).
    exists (existT e (w history e) :: t), m'. rewrite E, <-app_assoc. simpl. by rewrite Ha.
Qed.

End Monitor.
(** The entry at a position of a trace. *)
Lemma entry_at (tr : list entry) n (P : call -> bool) :
  match tr !! n with Some p => P (projT1 p) | None => false end = true ->
  exists t1 e r t2, tr = t1 ++ existT e r :: t2 /\ P e = true.
Proof.
  destruct (tr !! n) as [[e r]|] eqn:E; [|done]. intros H. exists (take n tr), e, r, (drop (S n) tr).
  split; [symmetry; by apply take_drop_middle|done].
Qed.

End Programs.

Arguments Ret {call answer exn A} r.
Arguments Call {call answer exn A} e k.
Arguments prog {call} answer exn A.
Arguments entry {call} answer exn.
Arguments world {call} answer exn.
Arguments perform {call answer exn} e : simpl never.
Arguments raise {call answer exn A} e : simpl never.
Arguments catch {call answer exn A} p h : simpl never.
Arguments finally {call answer exn A} p q : simpl never.
