(* ===== verification/Redis.v ===== *)
(** * Redis as the scripts of the platform use it

    The control Redis is reached through Lua scripts ([core/redis_eval.py]);
    each script is one atomic program over the key space.  This file holds the
    commands the modelled scripts call, with their documented behaviour, and the
    decimal strings numbers are stored as.  A command that fails (a key of the
    wrong type, a value that is not an integer) stops its script and keeps the
    writes made before it.  Times are milliseconds.

    Keys leave the key space only when their deadline has passed ([expire]); a
    key may outlive its deadline unobserved by this model, so what is proved
    holds however late Redis collects it. *)

From S2P Require Import Prelude PyText.

Module Redis.

(** ** Decimal integers: what Lua's [tonumber] and [INCRBY] read of the strings
    these scripts store.  A stored string of another form (a fraction, a
    hexadecimal literal) is read as not a number. *)

Definition digits_value (s : text) : Z := foldl (fun acc c => acc * 10 + (c - 48)) 0 s.

Definition unsigned (s : text) : option Z :=
  match s with
  | [] => None
  | _ => if forallb ascii_digit s then Some (digits_value s) else None
  end.

Definition tonumber (s : text) : option Z :=
  match s with
  | 45 :: r => Z.opp <$> unsigned r
  | _ => unsigned s
  end.

(** ** The key space *)

Inductive value :=
| VStr (s : text)
| VHash (h : gmap text text)
| VZset (z : gmap text Z).

Record entry := mkEntry { en_value : value; en_expire : option Z }.

Abbreviation by_text := (@gmap text (@list_eq_dec Z numbers.Z.eq_dec)
                           (@list_countable Z numbers.Z.eq_dec Z_countable)).
Abbreviation redis := (by_text entry).

(** The error replies: [WRONGTYPE], a value that is not a 64-bit integer, a
    deadline that is not positive, and the error a script raises itself by
    arithmetic on [nil]. *)
Inductive error := WRONGTYPE | NOT_INTEGER | INVALID_EXPIRE | LUA_ERROR.

(** A script: an error keeps the writes made before it. *)
Definition script (A : Type) : Type := redis -> result error A * redis.

#[export] Instance script_ret : MRet script := fun A a s => (Ok a, s).
#[export] Instance script_bind : MBind script := fun A B f m s =>
  match m s with
  | (Ok a, s') => f a s'
  | (Raise e, s') => (Raise e, s')
  end.

Definition fail {A} (e : error) : script A := fun s => (Raise e, s).

(** The server clock in microseconds as the scripts read it, in milliseconds:
    [tonumber(t[1]) * 1000 + math.floor(tonumber(t[2]) / 1000)]. *)
Definition clock_ms (now : Z) : Z := (now / 1000000) * 1000 + (now mod 1000000) / 1000.

(** ** Strings *)

Definition GET (k : text) : script (option text) := fun s =>
  match en_value <$> s !! k with
  | None => (Ok None, s)
  | Some (VStr v) => (Ok (Some v), s)
  | Some _ => (Raise WRONGTYPE, s)
  end.

(** [SET k v] with [EX], [KEEPTTL] or neither. *)
Inductive set_option := NoOption | EX (seconds : Z) | KEEPTTL.

Definition SET (now : Z) (k v : text) (o : set_option) : script unit := fun s =>
  let expire := match o with
                | NoOption => None
                | EX n => Some (now + n * 1000)
                | KEEPTTL => s !! k ≫= en_expire
                end in
  (Ok tt, <[k := mkEntry (VStr v) expire]> s).

(** [SET k v PXAT deadline]: a deadline that has passed leaves no key. *)
Definition SET_PXAT (now : Z) (k v : text) (deadline : Z) : script unit := fun s =>
  if deadline <=? 0 then (Raise INVALID_EXPIRE, s)
  else (Ok tt, if deadline <=? now then delete k s
               else <[k := mkEntry (VStr v) (Some deadline)]> s).

(** [SET k v NX EX n]: whether the key was set. *)
Definition SET_NX (now : Z) (k v : text) (seconds : Z) : script bool := fun s =>
  match s !! k with
  | Some _ => (Ok false, s)
  | None => (Ok true, <[k := mkEntry (VStr v) (Some (now + seconds * 1000))]> s)
  end.

Definition in_int64 (n : Z) : bool := (- 2 ^ 63 <=? n) && (n <? 2 ^ 63).

Definition INCRBY (k : text) (n : Z) : script Z := fun s =>
  match s !! k with
  | None => if in_int64 n then (Ok n, <[k := mkEntry (VStr (str_int n)) None]> s)
            else (Raise NOT_INTEGER, s)
  | Some (mkEntry (VStr v) x) =>
      match tonumber v with
      | Some m => if in_int64 m && in_int64 (m + n)
                  then (Ok (m + n), <[k := mkEntry (VStr (str_int (m + n))) x]> s)
                  else (Raise NOT_INTEGER, s)
      | None => (Raise NOT_INTEGER, s)
      end
  | Some _ => (Raise WRONGTYPE, s)
  end.

(** ** Keys *)

Inductive key_type := none | string_ | hash | zset.

Definition TYPE (k : text) : script key_type := fun s =>
  (Ok match en_value <$> s !! k with
      | None => none | Some (VStr _) => string_ | Some (VHash _) => hash | Some (VZset _) => zset
      end, s).

Definition EXISTS (k : text) : script bool := fun s => (Ok (bool_decide (is_Some (s !! k))), s).

Definition DEL (k : text) : script bool := fun s =>
  (Ok (bool_decide (is_Some (s !! k))), delete k s).

(** [PEXPIREAT]: a deadline in the past deletes the key. *)
Definition PEXPIREAT (now : Z) (k : text) (deadline : Z) : script unit := fun s =>
  (Ok tt, if deadline <=? now then delete k s
          else alter (fun e => mkEntry (en_value e) (Some deadline)) k s).
Definition PEXPIRE (now : Z) (k : text) (ms : Z) : script unit := PEXPIREAT now k (now + ms).
Definition EXPIRE (now : Z) (k : text) (seconds : Z) : script unit :=
  PEXPIRE now k (seconds * 1000).

(** ** Hashes *)

Definition HGET (k f : text) : script (option text) := fun s =>
  match en_value <$> s !! k with
  | None => (Ok None, s)
  | Some (VHash h) => (Ok (h !! f), s)
  | Some _ => (Raise WRONGTYPE, s)
  end.

Definition HSET (k : text) (fields : list (text * text)) : script unit := fun s =>
  let put h := foldl (fun h p => <[p.1 := p.2]> h) h fields in
  match s !! k with
  | None => (Ok tt, <[k := mkEntry (VHash (put ∅)) None]> s)
  | Some (mkEntry (VHash h) x) => (Ok tt, <[k := mkEntry (VHash (put h)) x]> s)
  | Some _ => (Raise WRONGTYPE, s)
  end.

(** [HGETALL]: an absent key reads as no fields. *)
Definition HGETALL (k : text) : script (gmap text text) := fun s =>
  match en_value <$> s !! k with
  | None => (Ok ∅, s)
  | Some (VHash h) => (Ok h, s)
  | Some _ => (Raise WRONGTYPE, s)
  end.

Definition HLEN (k : text) : script Z := fun s =>
  match en_value <$> s !! k with
  | None => (Ok 0, s)
  | Some (VHash h) => (Ok (Z.of_nat (size h)), s)
  | Some _ => (Raise WRONGTYPE, s)
  end.

Definition HINCRBY (k f : text) (n : Z) : script Z := fun s =>
  let put h x m := if in_int64 m && in_int64 (m + n)
                   then (Ok (m + n), <[k := mkEntry (VHash (<[f := str_int (m + n)]> h)) x]> s)
                   else (Raise NOT_INTEGER, s) in
  match s !! k with
  | None => put ∅ None 0
  | Some (mkEntry (VHash h) x) =>
      match h !! f with
      | None => put h x 0
      | Some v => match tonumber v with Some m => put h x m | None => (Raise NOT_INTEGER, s) end
      end
  | Some _ => (Raise WRONGTYPE, s)
  end.

(** ** Sorted sets *)

Definition ZADD (k : text) (score : Z) (member : text) : script unit := fun s =>
  match s !! k with
  | None => (Ok tt, <[k := mkEntry (VZset {[member := score]}) None]> s)
  | Some (mkEntry (VZset z) x) => (Ok tt, <[k := mkEntry (VZset (<[member := score]> z)) x]> s)
  | Some _ => (Raise WRONGTYPE, s)
  end.

Definition ZCARD (k : text) : script Z := fun s =>
  match en_value <$> s !! k with
  | None => (Ok 0, s)
  | Some (VZset z) => (Ok (Z.of_nat (size z)), s)
  | Some _ => (Raise WRONGTYPE, s)
  end.

(** [ZREMRANGEBYSCORE k -inf max]; an emptied set is deleted. *)
Definition ZREMRANGEBYSCORE (k : text) (max : Z) : script unit := fun s =>
  match s !! k with
  | None => (Ok tt, s)
  | Some (mkEntry (VZset z) x) =>
      let z' := filter (fun p => max < p.2) z in
      (Ok tt, if bool_decide (z' = ∅) then delete k s else <[k := mkEntry (VZset z') x]> s)
  | Some _ => (Raise WRONGTYPE, s)
  end.

(** ** Expiry *)

(** Redis may collect a key from its deadline on. *)
Inductive expire (now : Z) (k : text) (s : redis) : redis -> Prop :=
| expire_key e d :
    s !! k = Some e -> en_expire e = Some d -> d <= now -> expire now k s (delete k s).


(** ** Reading back what was written *)

Lemma dec_digits_spec fuel n acc : 0 <= n < 2 ^ Z.of_nat (S fuel) ->
  exists p, dec_digits (S fuel) n acc = p ++ acc /\ p <> [] /\ forallb ascii_digit p = true /\
    digits_value p = n.
Proof.
  revert n acc. induction fuel as [|fuel IH]; intros n acc Hn; cbn [dec_digits].
  all: assert (Hm := Z.mod_pos_bound n 10 ltac:(lia)).
  all: assert (Hd : ascii_digit (48 + n mod 10) = true)
         by (apply andb_true_iff; split; apply Z.leb_le; lia).
  all: destruct (n <? 10) eqn:L; bool_prop;
       try (exists [48 + n mod 10]; split_and!; [done|done| |];
            [cbn [forallb]; by rewrite Hd | rewrite Z.mod_small by lia; unfold digits_value; simpl; lia]).
  destruct (IH (n / 10) ((48 + n mod 10) :: acc)) as (p & E & Hp & Hf & Hv).
  { rewrite Nat2Z.inj_succ, Z.pow_succ_r in Hn by lia. split; [apply Z.div_pos; lia|].
    apply Z.div_lt_upper_bound; lia. }
  exists (p ++ [48 + n mod 10]). cbn [dec_digits] in E. rewrite E, <-app_assoc. split_and!; [done| | |].
  - by destruct p.
  - rewrite forallb_app, Hf. cbn [forallb]. by rewrite Hd.
  - unfold digits_value in *. rewrite foldl_app, Hv. simpl.
    pose proof (Z.div_mod n 10 ltac:(lia)). lia.
Qed.

Lemma unsigned_str_nat n : 0 <= n -> unsigned (str_nat n) = Some n.
Proof.
  intros Hn. unfold str_nat. destruct (dec_digits_spec (Z.to_nat (Z.log2 n)) n []) as (p & -> & Hp & Hf & Hv).
  { split; [done|]. rewrite Nat2Z.inj_succ, Z2Nat.id by apply Z.log2_nonneg.
    destruct (decide (n = 0)) as [->|]; [done|]. apply Z.log2_spec. lia. }
  rewrite app_nil_r. unfold unsigned. destruct p; [done|]. by rewrite Hf, Hv.
Qed.

Lemma str_nat_head n : 0 <= n -> exists c r, str_nat n = c :: r /\ c <> 45.
Proof.
  intros Hn. pose proof (unsigned_str_nat n Hn) as H. destruct (str_nat n) as [|c r]; [done|].
  exists c, r. split; [done|]. intros ->. by destruct r.
Qed.

(** A number written by a script is the number the next script reads. *)
Lemma tonumber_str_int n : tonumber (str_int n) = Some n.
Proof.
  unfold str_int. destruct (n <? 0) eqn:L; bool_prop.
  - cbn [tonumber]. rewrite unsigned_str_nat by lia. simpl. f_equal. lia.
  - pose proof (unsigned_str_nat n L) as U. destruct (str_nat_head n L) as (c & r & E & Hc).
    rewrite E in *. unfold tonumber. destruct c as [|c|c]; try exact U.
    do 6 (destruct c as [c|c|]; try exact U). done.
Qed.
#[export] Hint Rewrite tonumber_str_int : sms.

Lemma str_int_inj : Inj (=) (=) str_int.
Proof. intros m n E. apply (f_equal tonumber) in E. rewrite !tonumber_str_int in E. by injection E. Qed.

(** The same for [int] in Python. *)
Definition fits_64 (n : Z) : Prop := 0 <= n < 2 ^ 63.

Lemma digit_value_ascii c : ascii_digit c = true -> digit_value c = Some (c - 48).
Proof.
  unfold ascii_digit, between. intros [H1%Z.leb_le H2%Z.leb_le]%andb_true_iff.
  unfold digit_value, decimal_zeros. cbn [List.find].
  rewrite (proj2 (Z.leb_le 48 c)), (proj2 (Z.leb_le c (48 + 9))) by lia. done.
Qed.

Lemma int_digits_ascii p k acc b : forallb ascii_digit p = true -> p <> [] \/ b = true ->
  k + Z.of_nat (length p) <= 4300 ->
  int_digits b k acc p = Some (foldl (fun acc c => acc * 10 + (c - 48)) acc p).
Proof.
  revert k acc b. induction p as [|c p IH]; intros k acc b Hp Hb Hk; cbn [int_digits foldl].
  - destruct Hb as [ | ->]; [done|]. simpl in Hk. by rewrite (proj2 (Z.leb_le k 4300)) by lia.
  - cbn [forallb] in Hp. apply andb_true_iff in Hp as [Hc Hp]. rewrite (digit_value_ascii c Hc).
    apply IH; [done|by right|]. cbn [length] in Hk. lia.
Qed.

Lemma dec_digits_length fuel n acc : (length (dec_digits fuel n acc) <= fuel + length acc)%nat.
Proof.
  revert n acc. induction fuel as [|fuel IH]; intros n acc; cbn [dec_digits]; [done|].
  destruct (n <? 10); [simpl; lia|]. specialize (IH (n / 10) ((48 + n mod 10) :: acc)). simpl in IH. lia.
Qed.

Lemma drop_while_none f (s : text) : (forall c, c ∈ s -> f c = false) -> drop_while f s = s.
Proof. destruct s as [|c s]; intros H; [done|]. cbn [drop_while]. by rewrite (H c) by left. Qed.

Lemma strip_ascii p : forallb ascii_digit p = true -> strip p = p.
Proof.
  intros H. assert (N : forall c, c ∈ p -> is_space c = false).
  { intros c Hc. apply forallb_forall with (x := c) in H; [|by apply list_elem_of_In].
    unfold ascii_digit, between in H. bool_prop. unfold is_space. apply bool_decide_eq_false.
    intros X. elem_inv X; lia. }
  unfold strip. rewrite (drop_while_none _ p N), drop_while_none, reverse_involutive; [done|].
  intros c Hc. apply N. by apply elem_of_reverse.
Qed.

Lemma py_int_str_int n : fits_64 n -> py_int (str_int n) = Some n.
Proof.
  intros [Hn Hb]. unfold str_int. rewrite (proj2 (Z.ltb_ge n 0)) by lia.
  assert (L : Z.of_nat (length (str_nat n)) <= 64).
  { unfold str_nat. pose proof (dec_digits_length (S (Z.to_nat (Z.log2 n))) n []) as L. cbn [length] in L.
    assert (Z.log2 n <= 63).
    { destruct (decide (n = 0)) as [->|]; [done|].
      pose proof (proj1 (Z.log2_lt_pow2 n 63 ltac:(lia)) Hb). lia. }
    lia. }
  unfold str_nat in *. destruct (dec_digits_spec (Z.to_nat (Z.log2 n)) n []) as (p & E & Hp & Hf & Hv).
  { split; [done|]. rewrite Nat2Z.inj_succ, Z2Nat.id by apply Z.log2_nonneg.
    destruct (decide (n = 0)) as [->|]; [done|]. apply Z.log2_spec. lia. }
  rewrite E, app_nil_r in *. unfold py_int. rewrite (strip_ascii p Hf).
  pose proof (int_digits_ascii p 0 0 false Hf (or_introl Hp) ltac:(lia)) as D.
  unfold digits_value in Hv. rewrite Hv in D. destruct p as [|c p]; [done|]. cbn [forallb] in Hf.
  apply andb_true_iff in Hf as [Hc _]. unfold ascii_digit, between in Hc. bool_prop.
  destruct c as [|c|c]; try exact D; do 6 (destruct c as [c|c|]; try exact D; try lia).
Qed.
Lemma clock_ms_div now : clock_ms now = now / 1000.
Proof.
  unfold clock_ms. change 1000000 with (1000 * 1000). rewrite Z.rem_mul_r by lia.
  rewrite <-Z.div_div by lia. rewrite (Z.add_comm (now mod 1000)), (Z.mul_comm 1000).
  rewrite Z.div_add_l by lia. rewrite (Z.div_small (now mod 1000)) by (apply Z.mod_pos_bound; lia).
  pose proof (Z.div_mod (now / 1000) 1000 ltac:(lia)). lia.
Qed.

Lemma clock_ms_nonneg now : 0 <= now -> 0 <= clock_ms now.
Proof. intros H. rewrite clock_ms_div. by apply Z.div_pos. Qed.

Lemma clock_ms_mono a b : a <= b -> clock_ms a <= clock_ms b.
Proof. intros H. rewrite !clock_ms_div. by apply Z.div_le_mono. Qed.

(** ** Running scripts *)

Lemma script_bind_eq {A B} (m : script A) (f : A -> script B) s a s' :
  m s = (Ok a, s') -> (m ≫= f) s = f a s'.
Proof. unfold mbind, script_bind. by intros ->. Qed.

Lemma HGET_hash s k h x f : s !! k = Some (mkEntry (VHash h) x) -> HGET k f s = (Ok (h !! f), s).
Proof. unfold HGET. by intros ->. Qed.

Lemma HGET_none s k f : s !! k = None -> HGET k f s = (Ok None, s).
Proof. unfold HGET. by intros ->. Qed.

End Redis.
