(* ===== verification/TokenBucket.v ===== *)
(** * The vendor token bucket ([core/ratelimit.py])

    One bucket per vendor in the control Redis, shared by all send workers: at
    most [vendor_qps] calls per refill period of one second, of which the bulk
    lane leaves [reserved_realtime_qps] to the realtime lane.  The two Lua
    scripts are translated command by command; the clock is Redis [TIME] in
    microseconds and may run backwards.

    The theorems: the calls granted in one period, less the ones handed back,
    never exceed the capacity, whatever the interleaving of acquires, refunds,
    expiries and clock steps; hence any second of wall-clock time sees at most
    two capacities; and a bulk grant leaves the realtime reservation usable. *)

From S2P Require Import Prelude PyText Redis.

Module TokenBucket.
Import Redis.

(** ** The scripts *)

Definition f_tokens : text := tx "tokens".
Definition f_last_ms : text := tx "last_ms".

(** What the stored fields are worth now: [None] where the script returns -2. *)
Definition refill (kind : key_type) (capacity now_ms : Z) (tokens last_ms : option Z)
    : option (Z * Z) :=
  match kind with
  | none => Some (capacity, now_ms)
  | _ =>
      match tokens, last_ms with
      | Some tokens, Some last_ms =>
          if (tokens <? 0) || (last_ms <? 0) || (9007199254740991 <? tokens)
             || (9007199254740000 <? last_ms) then None
          else if now_ms <? last_ms then Some (0, last_ms)
          else
            let elapsed_seconds := (now_ms - last_ms) / 1000 in
            if 0 <? elapsed_seconds
            then Some (Z.min capacity (tokens + elapsed_seconds * capacity),
                       last_ms + elapsed_seconds * 1000)
            else Some (tokens, last_ms)
      | _, _ => None
      end
  end.

Definition admits (lane : text) (reserved tokens : Z) : bool :=
  (teqb lane (tx "realtime") && (1 <=? tokens)) || (teqb lane (tx "bulk") && (reserved <? tokens)).

Definition TOKEN_BUCKET_LUA (now : Z) (key lane : text) (capacity reserved : Z) : script Z :=
  let now_ms := clock_ms now in
  kind ← TYPE key;
  match kind with
  | string_ | zset => mret (-2)
  | _ =>
      tokens ← HGET key f_tokens;
      last_ms ← HGET key f_last_ms;
      match refill kind capacity now_ms (tokens ≫= tonumber) (last_ms ≫= tonumber) with
      | None => mret (-2)
      | Some (tokens, last_ms) =>
          let tokens := Z.min capacity tokens in
          let allowed := admits lane reserved tokens in
          let tokens := if allowed then tokens - 1 else tokens in
          _ ← HSET key [(f_tokens, str_int tokens); (f_last_ms, str_int last_ms)];
          _ ← PEXPIRE now_ms key (Z.max 60000 (last_ms - now_ms + 1000));
          mret (if allowed then last_ms else -1)
      end
  end.

Definition TOKEN_REFUND_LUA (now : Z) (key : text) (capacity lease_epoch : Z) : script Z :=
  let now_ms := clock_ms now in
  tokens ← HGET key f_tokens;
  last_ms ← HGET key f_last_ms;
  match tokens ≫= tonumber, last_ms ≫= tonumber with
  | Some tokens, Some last_ms =>
      if negb (last_ms =? lease_epoch) then mret 0
      else if (now_ms <? last_ms) || (last_ms + 1000 <=? now_ms) || (tokens <? 0) then mret 0
      else
        let tokens := Z.min capacity (tokens + 1) in
        _ ← HSET key [(f_tokens, str_int tokens); (f_last_ms, str_int last_ms)];
        _ ← PEXPIRE now_ms key 60000;
        mret 1
  | _, _ => mret 0
  end.

(** ** [TokenBucket] *)

Definition base_key : text := tx "ratelimit:vendor".

Definition _bucket_key (vendor_id : option text) : text :=
  match vendor_id with
  | Some (c :: s) => base_key ++ tx ":" ++ c :: s
  | _ => base_key
  end.

Definition ResponseError : exc := Exc (tx "ResponseError") [].

Definition acquire (now : Z) (lane : text) (vendor_qps reserved_realtime_qps : Z)
    (vendor_id : option text) (db : redis) : result exc (option Z) * redis :=
  if negb (tmem lane [tx "realtime"; tx "bulk"])
  then (Raise (ValueError "lane must be realtime or bulk"), db)
  else if (vendor_qps <? 1) || negb ((0 <=? reserved_realtime_qps)
                                     && (reserved_realtime_qps <? vendor_qps))
  then (Raise (ValueError "invalid vendor QPS reservation"), db)
  else
    match TOKEN_BUCKET_LUA now (_bucket_key vendor_id) lane vendor_qps reserved_realtime_qps db with
    | (Raise _, db') => (Raise ResponseError, db')
    | (Ok lease_epoch, db') =>
        (if lease_epoch <? -1 then Raise (RuntimeError "vendor token bucket state unavailable")
         else Ok (if lease_epoch <? 0 then None else Some lease_epoch), db')
    end.

(** [refund] and whether the script handed a token back. *)
Definition refund (now : Z) (vendor_qps lease_epoch : Z) (vendor_id : option text) (db : redis)
    : result exc bool * redis :=
  if vendor_qps <? 1 then (Raise (ValueError "vendor_qps must be positive"), db)
  else
    match TOKEN_REFUND_LUA now (_bucket_key vendor_id) vendor_qps lease_epoch db with
    | (Raise _, db') => (Raise ResponseError, db')
    | (Ok r, db') => (Ok (r =? 1), db')
    end.

(** ** Runs: acquires, refunds and expiries in any order *)

Inductive event :=
| Granted (key lane : text) (at_ms epoch : Z)
| Refunded (key : text) (epoch : Z).

(** [collected] holds the deadline of each key that expired. *)
Record state := mkState { db : redis; log : list event; collected : gmap text Z }.

Definition empty_state : state := mkState ∅ [] ∅.

Definition do_acquire (now : Z) (lane : text) (qps reserved : Z) (v : option text) (s : state) : state :=
  let '(r, db') := acquire now lane qps reserved v (db s) in
  mkState db'
    (match r with
     | Ok (Some e) => Granted (_bucket_key v) lane (clock_ms now) e :: log s
     | _ => log s
     end) (collected s).

Definition do_refund (now : Z) (qps e : Z) (v : option text) (s : state) : state :=
  let '(r, db') := refund now qps e v (db s) in
  mkState db' (match r with Ok true => Refunded (_bucket_key v) e :: log s | _ => log s end)
    (collected s).

(** The clock is not set back behind the deadline of a key that has expired. *)
Definition clock_ok (s : state) (k : text) (now : Z) : Prop :=
  0 <= now /\ forall d, db s !! k = None -> collected s !! k = Some d -> d <= clock_ms now.

Inductive step (cap : Z) (s : state) : state -> Prop :=
| step_acquire now lane qps reserved v :
    qps <= cap -> clock_ok s (_bucket_key v) now ->
    step cap s (do_acquire now lane qps reserved v s)
| step_refund now qps e v :
    qps <= cap -> step cap s (do_refund now qps e v s)
| step_expire now k e d :
    db s !! k = Some e -> en_expire e = Some d -> d <= now ->
    step cap s (mkState (delete k (db s)) (log s) (<[k := d]> (collected s))).

Definition count (P : event -> bool) (l : list event) : Z := Z.of_nat (length (List.filter P l)).

Definition is_grant (k : text) (e : Z) (ev : event) : bool :=
  match ev with Granted k' _ _ e' => teqb k' k && (e' =? e) | _ => false end.
Definition is_refund (k : text) (e : Z) (ev : event) : bool :=
  match ev with Refunded k' e' => teqb k' k && (e' =? e) | _ => false end.

Definition granted (k : text) (e : Z) (s : state) : Z := count (is_grant k e) (log s).
Definition refunded (k : text) (e : Z) (s : state) : Z := count (is_refund k e) (log s).

(** Grants of bucket [k] in the second that starts at [t]. *)
Definition granted_within (k : text) (t : Z) (s : state) : Z :=
  count (fun ev => match ev with
                   | Granted k' _ at_ms _ => teqb k' k && (t <=? at_ms) && (at_ms <? t + 1000)
                   | _ => false
                   end) (log s).


(** ** What the scripts do to a bucket *)

(** The key holds [t] tokens of period [l] and expires at [d]. *)
Definition stored (t l d : Z) (e : entry) : Prop :=
  exists h, e = mkEntry (VHash h) (Some d) /\
    h !! f_tokens = Some (str_int t) /\ h !! f_last_ms = Some (str_int l).

(** What an acquire finds: a new bucket, or the stored one refilled. *)
Definition finds (capacity now_ms : Z) (o : option entry) (t l : Z) : Prop :=
  match o with
  | None => t = capacity /\ l = now_ms
  | Some e => exists t0 l0 d, stored t0 l0 d e /\
                refill hash capacity now_ms (Some t0) (Some l0) = Some (t, l)
  end.

(** Writing both fields of a hash or absent key, with a deadline to come. *)
Lemma write_bucket {A} (now : Z) (k : text) (t l ms : Z) (f : script A) (s : redis) h x : 0 < ms ->
  (s !! k = None \/ s !! k = Some (mkEntry (VHash h) x)) ->
  exists e, (_ ← HSET k [(f_tokens, str_int t); (f_last_ms, str_int l)]; _ ← PEXPIRE now k ms; f) s
    = f (<[k := e]> s) /\ stored t l (now + ms) e.
Proof.
  intros Hms Hk. unfold mbind, script_bind, HSET, PEXPIRE, PEXPIREAT.
  assert (L : (now + ms <=? now) = false) by (apply Z.leb_gt; lia).
  destruct Hk as [Hk|Hk]; rewrite Hk, L; (eexists; split;
    [rewrite alter_insert_eq; reflexivity
    |eexists; split; [reflexivity|]; simpl; by rewrite lookup_insert_eq, lookup_insert_ne, lookup_insert_eq]).
Qed.

Lemma acquire_run (now : Z) (k lane : text) (cap res : Z) (s : redis) (t l : Z) : finds cap (clock_ms now) (s !! k) t l ->
  let ok := admits lane res (Z.min cap t) in
  exists e, TOKEN_BUCKET_LUA now k lane cap res s = (Ok (if ok then l else -1), <[k := e]> s) /\
    stored (if ok then Z.min cap t - 1 else Z.min cap t) l
      (clock_ms now + Z.max 60000 (l - clock_ms now + 1000)) e.
Proof.
  intros F ok. unfold TOKEN_BUCKET_LUA. cbv zeta.
  erewrite script_bind_eq by reflexivity. destruct (s !! k) as [e|] eqn:K; unfold finds in F.
  - destruct F as (t0 & l0 & d & (h & -> & Ht & Hl) & R). cbn [fmap option_fmap option_map en_value].
    erewrite !script_bind_eq by (by eapply HGET_hash).
    rewrite Ht, Hl. cbn [mbind option_bind]. rewrite !tonumber_str_int, R.
    eapply write_bucket; [lia|by right].
  - destruct F as [-> ->]. cbn [fmap option_fmap option_map].
    erewrite !script_bind_eq by (by eapply HGET_none). cbn [mbind option_bind refill].
    eapply (write_bucket _ _ _ _ _ _ _ ∅ None); [lia|by left].
Qed.

Lemma refund_run (now : Z) (k : text) (cap e : Z) (s : redis) (t d : Z) x : s !! k = Some x -> stored t e d x ->
  0 <= t -> e <= clock_ms now < e + 1000 ->
  exists x', TOKEN_REFUND_LUA now k cap e s = (Ok 1, <[k := x']> s) /\
    stored (Z.min cap (t + 1)) e (clock_ms now + 60000) x'.
Proof.
  intros K (h & -> & Ht & Hl) Hn Hc. unfold TOKEN_REFUND_LUA. cbv zeta.
  erewrite !script_bind_eq by (by eapply HGET_hash).
  rewrite Ht, Hl. cbn [mbind option_bind]. rewrite !tonumber_str_int, Z.eqb_refl. cbn [negb].
  destruct (_ || _) eqn:B; [bool_prop; naive_solver lia|]. eapply write_bucket; [lia|by right].
Qed.

(** Every other refund changes nothing. *)
Lemma refund_refused (now : Z) (k : text) (cap e : Z) (s : redis) (t l d : Z) x : s !! k = Some x -> stored t l d x ->
  ~ (l = e /\ 0 <= t /\ e <= clock_ms now < e + 1000) ->
  TOKEN_REFUND_LUA now k cap e s = (Ok 0, s).
Proof.
  intros K (h & -> & Ht & Hl) Hc. unfold TOKEN_REFUND_LUA. cbv zeta.
  erewrite !script_bind_eq by (by eapply HGET_hash).
  rewrite Ht, Hl. cbn [mbind option_bind]. rewrite !tonumber_str_int.
  destruct (negb _) eqn:E; [done|]. destruct (_ || _) eqn:B; [done|]. bool_prop. lia.
Qed.

Lemma refund_absent (now : Z) (k : text) (cap e : Z) (s : redis) : s !! k = None ->
  TOKEN_REFUND_LUA now k cap e s = (Ok 0, s).
Proof.
  intros K. unfold TOKEN_REFUND_LUA. cbv zeta. by erewrite !script_bind_eq by (by eapply HGET_none).
Qed.

(** ** The invariant *)

Definition key_of (ev : event) : text := match ev with Granted k _ _ _ | Refunded k _ => k end.
Definition epoch_of (ev : event) : Z := match ev with Granted _ _ _ e | Refunded _ e => e end.

Definition occurs (k : text) (e : Z) (s : state) : Prop :=
  exists ev, ev ∈ log s /\ key_of ev = k /\ epoch_of ev = e.

Definition net (k : text) (e : Z) (s : state) : Z := granted k e s - refunded k e s.

Definition bucket_ok (cap : Z) (k : text) (s : state) : Prop :=
  (forall e, net k e s <= cap) /\
  (forall e1 e2, occurs k e1 s -> occurs k e2 s -> e1 = e2 \/ e1 + 1000 <= e2 \/ e2 + 1000 <= e1) /\
  (forall ln a e, Granted k ln a e ∈ log s -> e <= a < e + 1000) /\
  match db s !! k with
  | None => forall e, occurs k e s -> exists d, collected s !! k = Some d /\ e + 1000 <= d
  | Some x => exists t l d, stored t l d x /\ 0 <= t /\ 0 <= l /\ l + 1000 <= d /\
                t + net k l s <= cap /\ (forall e, occurs k e s -> e = l \/ e + 1000 <= l)
  end.

Lemma count_cons P ev l : count P (ev :: l) = Z.b2z (P ev) + count P l.
Proof. unfold count. simpl. destruct (P ev); cbn [length Z.b2z]; lia. Qed.

Lemma count_zero P l : (forall ev, ev ∈ l -> P ev = false) -> count P l = 0.
Proof.
  intros H. unfold count. rewrite (proj2 (filter_nil_iff P l)); [done|]. by apply Forall_forall.
Qed.

Lemma count_le_sum P Q R l : (forall ev, ev ∈ l -> P ev = true -> Q ev = true \/ R ev = true) ->
  count P l <= count Q l + count R l.
Proof.
  induction l as [|ev l IH]; intros H; [done|]. rewrite !count_cons.
  assert (H1 : Z.b2z (P ev) <= Z.b2z (Q ev) + Z.b2z (R ev)).
  { destruct (P ev) eqn:E; [destruct (H ev ltac:(set_solver) E) as [-> | ->]|]; simpl;
      repeat case_match; simpl; destruct (Q ev), (R ev); simpl; lia. }
  assert (H2 : count P l <= count Q l + count R l) by (apply IH; set_solver). lia.
Qed.

Lemma net_absent k e s : ~ occurs k e s -> net k e s = 0.
Proof.
  intros H. unfold net, granted, refunded. rewrite !count_zero; [done| |].
  all: intros ev Hev; destruct ev as [k' ln a e'|k' e']; simpl; try done;
       apply andb_false_iff; destruct (teqb k' k) eqn:E; [|by left]; right;
       apply teqb_spec in E; apply Z.eqb_neq; intros ->; apply H; eexists; split_and!; [exact Hev|done..].
Qed.

Lemma net_cons k e ev d c s :
  net k e (mkState d (ev :: log s) c) = net k e s + Z.b2z (is_grant k e ev) - Z.b2z (is_refund k e ev).
Proof. unfold net, granted, refunded. simpl. rewrite !count_cons. lia. Qed.

Lemma occurs_cons k e ev d c s :
  occurs k e (mkState d (ev :: log s) c) <-> (key_of ev = k /\ epoch_of ev = e) \/ occurs k e s.
Proof. unfold occurs. simpl. setoid_rewrite elem_of_cons. naive_solver. Qed.

Lemma other_key k e ev : key_of ev <> k -> is_grant k e ev = false /\ is_refund k e ev = false.
Proof. intros H. destruct ev; simpl in *; by rewrite (proj2 (teqb_false _ _) H). Qed.

(** A step on another key. *)
Lemma bucket_ok_other cap k s d c evs :
  bucket_ok cap k s -> d !! k = db s !! k -> c !! k = collected s !! k ->
  (evs = [] \/ exists ev, evs = [ev] /\ key_of ev <> k) ->
  bucket_ok cap k (mkState d (evs ++ log s) c).
Proof.
  intros (H1 & H2 & H3 & H4) Hd Hc Hev.
  assert (N : forall e, net k e (mkState d (evs ++ log s) c) = net k e s).
  { intros e. destruct Hev as [->|(ev & -> & Hk)]; [done|]. cbn [app]. rewrite net_cons.
    destruct (other_key k e ev Hk) as [-> ->]. simpl. lia. }
  assert (O : forall e, occurs k e (mkState d (evs ++ log s) c) <-> occurs k e s).
  { intros e. destruct Hev as [->|(ev & -> & Hk)]; [done|]. cbn [app]. rewrite occurs_cons. naive_solver. }
  split_and!.
  - intros e. rewrite N. apply H1.
  - intros e1 e2. rewrite !O. apply H2.
  - intros ln a e Hin. apply (H3 ln). destruct Hev as [->|(ev & -> & Hk)]; [done|].
    apply elem_of_cons in Hin as [<-|Hin]; [by destruct Hk|done].
  - simpl. rewrite Hd. destruct (db s !! k) as [x|].
    + destruct H4 as (t & l & d0 & H). exists t, l, d0. rewrite N. by setoid_rewrite O.
    + intros e. rewrite O, Hc. apply H4.
Qed.

(** What an acquire finds in a well-formed bucket. *)
Lemma found cap k s qps now t l :
  bucket_ok cap k s -> 1 <= qps <= cap -> clock_ok s k now ->
  finds qps (clock_ms now) (db s !! k) t l ->
  0 <= t /\ 0 <= l /\ Z.min qps t + net k l s <= cap /\
  (forall e, occurs k e s -> e = l \/ e + 1000 <= l) /\
  (0 < t -> l <= clock_ms now < l + 1000).
Proof.
  intros (H1 & H2 & H3 & H4) Hq [Hn Hc] F. pose proof (clock_ms_nonneg now Hn) as Hms.
  assert (Fresh : forall l', (forall e, occurs k e s -> e + 1000 <= l') -> net k l' s = 0).
  { intros l' H. apply net_absent. intros O. specialize (H _ O). lia. }
  destruct (db s !! k) as [x|] eqn:K; unfold finds in F.
  - destruct H4 as (t1 & l1 & d1 & S1 & Ht1 & Hl1 & Hd1 & Hnet & Hocc).
    destruct F as (t0 & l0 & d & S0 & R).
    destruct S1 as (h1 & -> & A1 & B1), S0 as (h0 & [= -> ->] & A0 & B0).
    rewrite A1 in A0. rewrite B1 in B0. injection A0 as A0. injection B0 as B0.
    apply str_int_inj in A0 as <-. apply str_int_inj in B0 as <-. unfold refill in R.
    destruct (_ || _); [done|]. destruct (clock_ms now <? l1) eqn:Back; bool_prop.
    { injection R as <- <-. split_and!; try lia. done. }
    destruct (0 <? (clock_ms now - l1) / 1000) eqn:E; bool_prop; injection R as <- <-.
    + pose proof (Z.div_mod (clock_ms now - l1) 1000 ltac:(lia)).
      pose proof (Z.mod_pos_bound (clock_ms now - l1) 1000 ltac:(lia)).
      assert (Old : forall e, occurs k e s -> e + 1000 <= l1 + (clock_ms now - l1) / 1000 * 1000).
      { intros e O. destruct (Hocc e O); lia. }
      rewrite (Fresh _ Old). split_and!; try lia. intros e O. right. by apply Old.
    + pose proof (Z.div_pos (clock_ms now - l1) 1000 ltac:(lia) ltac:(lia)).
      pose proof (Z.div_mod (clock_ms now - l1) 1000 ltac:(lia)).
      pose proof (Z.mod_pos_bound (clock_ms now - l1) 1000 ltac:(lia)).
      split_and!; try lia. done.
  - destruct F as [-> ->].
    assert (Old : forall e, occurs k e s -> e + 1000 <= clock_ms now).
    { intros e O. destruct (H4 e O) as (d & Hd & He). specialize (Hc d eq_refl Hd). lia. }
    rewrite (Fresh _ Old). split_and!; try lia. intros e O. right. by apply Old.
Qed.

Lemma ok_written cap k s t l d x evs :
  bucket_ok cap k s -> stored t l d x -> 0 <= t -> 0 <= l -> l + 1000 <= d ->
  (forall e, occurs k e s -> e = l \/ e + 1000 <= l) ->
  (evs = [] \/ exists ev, evs = [ev] /\ key_of ev = k /\ epoch_of ev = l /\
     match ev with Granted _ _ a _ => l <= a < l + 1000 | _ => True end) ->
  t + net k l (mkState (<[k := x]> (db s)) (evs ++ log s) (collected s)) <= cap ->
  bucket_ok cap k (mkState (<[k := x]> (db s)) (evs ++ log s) (collected s)).
Proof.
  intros (H1 & H2 & H3 & _) St Ht Hl Hd Hocc Hev Hnet. set (s' := mkState _ _ _) in *.
  assert (O : forall e, occurs k e s' -> e = l \/ occurs k e s).
  { intros e He. destruct Hev as [->|(ev & -> & Hk & He' & _)]; [by right|].
    subst s'. cbn [app] in He. apply occurs_cons in He as [[_ <-]|He]; [by left|by right]. }
  assert (L : forall e, occurs k e s' -> e = l \/ e + 1000 <= l) by (intros e He; destruct (O e He); auto).
  split_and!.
  - intros e. destruct (decide (e = l)) as [->|Ne]; [lia|].
    enough (net k e s' = net k e s) as -> by apply H1.
    destruct Hev as [->|(ev & -> & Hk & <- & _)]; [done|]. subst s'. cbn [app]. rewrite net_cons.
    destruct ev; simpl in *; rewrite (proj2 (Z.eqb_neq _ _)) by auto; rewrite andb_false_r; simpl; lia.
  - intros e1 e2 O1 O2. destruct (L e1 O1), (L e2 O2), (O e1 O1), (O e2 O2); try lia. by apply H2.
  - intros ln a e Hin. destruct Hev as [->|(ev & -> & Hk & <- & Hg)]; [by apply (H3 ln)|].
    apply elem_of_cons in Hin as [<-|Hin]; [done|by apply (H3 ln)].
  - simpl. rewrite lookup_insert_eq. exists t, l, d. by split_and!.
Qed.

(** A stored bucket the script does not trust is left alone. *)
Lemma acquire_refused (now : Z) (k lane : text) (cap res : Z) (s : redis) t l d x :
  s !! k = Some x -> stored t l d x ->
  refill hash cap (clock_ms now) (Some t) (Some l) = None ->
  TOKEN_BUCKET_LUA now k lane cap res s = (Ok (-2), s).
Proof.
  intros K (h & -> & Ht & Hl) R. unfold TOKEN_BUCKET_LUA. cbv zeta.
  erewrite script_bind_eq by reflexivity. rewrite K. cbn [fmap option_fmap option_map en_value].
  erewrite !script_bind_eq by (by eapply HGET_hash). rewrite Ht, Hl. cbn [mbind option_bind].
  by rewrite !tonumber_str_int, R.
Qed.

Lemma bucket_cases cap k s qps now_ms : bucket_ok cap k s ->
  (exists t l, finds qps now_ms (db s !! k) t l) \/
  (exists x t l d, db s !! k = Some x /\ stored t l d x /\ refill hash qps now_ms (Some t) (Some l) = None).
Proof.
  intros (_ & _ & _ & H4). destruct (db s !! k) as [x|] eqn:K; [|left; by exists qps, now_ms].
  destruct H4 as (t & l & d & St & _).
  destruct (refill hash qps now_ms (Some t) (Some l)) as [[t' l']|] eqn:R.
  - left. exists t', l', t, l, d. by split.
  - right. by exists x, t, l, d.
Qed.

Lemma admits_pos lane res t : 0 <= res -> admits lane res t = true -> 1 <= t.
Proof. intros Hr H. unfold admits in H. bool_prop. destruct H as [H|H]; bool_prop; lia. Qed.

Lemma acquire_ok cap k s now lane qps res v :
  (forall k, bucket_ok cap k s) -> qps <= cap -> clock_ok s (_bucket_key v) now ->
  bucket_ok cap k (do_acquire now lane qps res v s).
Proof.
  intros Inv Hq Hc. unfold do_acquire, acquire. set (kv := _bucket_key v) in *.
  destruct (negb (tmem _ _)); [exact (Inv k)|].
  destruct ((qps <? 1) || _) eqn:A; [exact (Inv k)|]. bool_prop.
  destruct (bucket_cases cap kv s qps (clock_ms now) (Inv kv)) as [(t & l & F)|(x & t & l & d & K & St & R)].
  2: { rewrite (acquire_refused _ _ _ _ _ _ _ _ _ _ K St R). exact (Inv k). }
  destruct (found cap kv s qps now t l (Inv kv) ltac:(lia) Hc F) as (Ht & Hl & Hnet & Hocc & Htime).
  destruct (acquire_run now kv lane qps res (db s) t l F) as (x & -> & St). cbv zeta in St.
  destruct (admits lane res (Z.min qps t)) eqn:Ad.
  - assert (Hp := admits_pos _ _ _ H0 Ad).
    rewrite (proj2 (Z.ltb_ge l (-1))) by lia. rewrite (proj2 (Z.ltb_ge l 0)) by lia.
    destruct (decide (k = kv)) as [->|Nk].
    + apply (ok_written cap kv s _ l _ x [Granted kv lane (clock_ms now) l] (Inv kv) St); try lia; try done.
      * right. eexists. do 3 (split; [done|]). apply Htime. lia.
      * cbn [app]. rewrite net_cons. simpl. rewrite teqb_refl, Z.eqb_refl. simpl. lia.
    + apply (bucket_ok_other cap k s _ _ [_]); [apply Inv|by rewrite lookup_insert_ne|done|].
      right. eexists. split; [done|]. by intros <-.
  - destruct (decide (k = kv)) as [->|Nk].
    + apply (ok_written cap kv s _ l _ x [] (Inv kv) St); try lia; try done; by left.
    + apply (bucket_ok_other cap k s _ _ []); [apply Inv|by rewrite lookup_insert_ne|done|by left].
Qed.

Lemma refund_ok cap k s now qps e v : (forall k, bucket_ok cap k s) ->
  bucket_ok cap k (do_refund now qps e v s).
Proof.
  intros Inv. unfold do_refund, refund. set (kv := _bucket_key v) in *.
  destruct (qps <? 1) eqn:Q; [exact (Inv k)|]. bool_prop.
  destruct (db s !! kv) as [x|] eqn:K; [|rewrite refund_absent by done; exact (Inv k)].
  pose proof (Inv kv) as (H1 & H2 & H3 & H4). rewrite K in H4.
  destruct H4 as (t & l & d & St & Ht & Hl & Hd & Hnet & Hocc).
  destruct (decide (l = e /\ 0 <= t /\ e <= clock_ms now < e + 1000)) as [(-> & _ & Hc)|N].
  2: { rewrite (refund_refused _ _ _ _ _ _ _ _ _ K St N). exact (Inv k). }
  destruct (refund_run now kv qps e (db s) t d x K St Ht Hc) as (x' & -> & St'). cbn [Z.eqb Pos.eqb].
  destruct (decide (k = kv)) as [->|Nk].
  - apply (ok_written cap kv s _ e _ x' [Refunded kv e] (Inv kv) St'); try lia; try done.
    + right. eexists. by do 3 (split; [done|]).
    + cbn [app]. rewrite net_cons. simpl. rewrite teqb_refl, Z.eqb_refl. simpl. lia.
  - apply (bucket_ok_other cap k s _ _ [_]); [apply Inv|by rewrite lookup_insert_ne|done|].
    right. eexists. split; [done|]. by intros <-.
Qed.

Lemma expire_ok cap k s k' x d : (forall k, bucket_ok cap k s) ->
  db s !! k' = Some x -> en_expire x = Some d ->
  bucket_ok cap k (mkState (delete k' (db s)) (log s) (<[k' := d]> (collected s))).
Proof.
  intros Inv K X. destruct (decide (k = k')) as [->|N].
  - pose proof (Inv k') as (H1 & H2 & H3 & H4). rewrite K in H4.
    destruct H4 as (t & l & d' & (h & -> & _) & Ht & Hl & Hd & _ & Hocc). simpl in X. injection X as ->.
    split_and!; try done. simpl. rewrite lookup_delete_eq. intros e O. exists d.
    rewrite lookup_insert_eq. split; [done|]. destruct (Hocc e O); lia.
  - apply (bucket_ok_other cap k s _ _ []); [apply Inv|by rewrite lookup_delete_ne|
      by rewrite lookup_insert_ne|by left].
Qed.

Lemma reachable_ok cap s : 0 <= cap -> rtc (step cap) empty_state s -> forall k, bucket_ok cap k s.
Proof.
  intros Hcap R. eapply (rtc_invariant (step cap) (fun s => forall k, bucket_ok cap k s)); [|exact R|].
  - intros s1 s2 I St k. destruct St; [by apply acquire_ok|by apply refund_ok|by eapply expire_ok].
  - intros k. split; [done|]. split; [|split; [intros ? ? ? H; by apply not_elem_of_nil in H|]].
    + intros e1 e2 (ev & H & _). by apply not_elem_of_nil in H.
    + cbn [db empty_state]. rewrite lookup_empty. intros e (ev & H & _). by apply not_elem_of_nil in H.
Qed.

(** In a second of wall-clock time fall grants of two periods at most. *)
Lemma two_periods cap k s t : bucket_ok cap k s ->
  exists e1 e2, e1 <= t < e2 /\ granted_within k t s <= granted k e1 s + granted k e2 s.
Proof.
  intros (_ & Hsp & Htime & _).
  set (P := fun (lo : Z) ev => match ev with
         | Granted k' _ a e => teqb k' k && (t <=? a) && (a <? t + 1000) && (lo <=? e) && (e <? lo + 1000)
         | _ => false end).
  assert (Pick : forall lo, exists e, lo <= e < lo + 1000 /\
            forall ev, ev ∈ log s -> P lo ev = true -> is_grant k e ev = true).
  { intros lo. destruct (List.filter (P lo) (log s)) as [|ev0 r] eqn:E.
    - exists lo. split; [lia|]. intros ev Hev Hp. apply filter_nil_iff in E.
      rewrite Forall_forall in E. rewrite (E _ Hev) in Hp. done.
    - assert (ev0 ∈ log s /\ P lo ev0 = true) as [Hin Hp] by (apply filter_in; rewrite E; set_solver).
      destruct ev0 as [k0 ln0 a0 e0|]; [|done]. unfold P in Hp. bool_prop.
      apply teqb_spec in H as ->. exists e0. split; [lia|].
      intros [k1 ln1 a1 e1|] Hin1 Hp1; [|done]. unfold P in Hp1. bool_prop. apply teqb_spec in H as ->.
      simpl. rewrite teqb_refl. simpl. apply Z.eqb_eq.
      assert (O0 : occurs k e0 s) by (by eexists; split_and!; [exact Hin|..]).
      assert (O1 : occurs k e1 s) by (by eexists; split_and!; [exact Hin1|..]).
      destruct (Hsp e0 e1 O0 O1); lia. }
  destruct (Pick (t - 999)) as (e1 & He1 & H1), (Pick (t + 1)) as (e2 & He2 & H2).
  exists e1, e2. split; [lia|]. apply count_le_sum. intros ev Hev Hp.
  destruct ev as [k' ln a e|]; [|done]. bool_prop. apply teqb_spec in H as ->.
  specialize (Htime ln a e Hev).
  destruct (decide (e <= t)); [left; apply H1|right; apply H2]; try done; simpl;
    rewrite teqb_refl; simpl; repeat (apply andb_true_iff; split); first [apply Z.leb_le | apply Z.ltb_lt]; lia.
Qed.

(** ** The reservation *)

(** Realtime acquires of one worker after the other. *)
Fixpoint acquires (times : list Z) (qps reserved : Z) (v : option text) (s : redis)
    : list (result exc (option Z)) :=
  match times with
  | [] => []
  | now :: times =>
      let '(r, s') := acquire now (tx "realtime") qps reserved v s in r :: acquires times qps reserved v s'
  end.

Lemma acquire_stored (now : Z) (lane : text) (qps res : Z) (v : option text) (s s' : redis) (e : Z) :
  acquire now lane qps res v s = (Ok (Some e), s') ->
  exists t d x, s' !! _bucket_key v = Some x /\ stored t e d x /\ 0 <= t <= qps /\
    0 <= e /\ 0 <= res < qps /\ (lane = tx "bulk" -> res <= t).
Proof.
  unfold acquire. destruct (negb _); [done|]. destruct (_ || _) eqn:A; [done|]. bool_prop.
  set (k := _bucket_key v). intros H2.
  assert (W : forall t0 l0 h x, (s !! k = None \/ s !! k = Some (mkEntry (VHash h) x)) ->
    let t1 := Z.min qps t0 in let ok := admits lane res t1 in
    forall r s1, (_ ← HSET k [(f_tokens, str_int (if ok then t1 - 1 else t1)); (f_last_ms, str_int l0)];
      _ ← PEXPIRE (clock_ms now) k (Z.max 60000 (l0 - clock_ms now + 1000));
      mret (if ok then l0 else -1)) s = (Ok r, s1) -> 0 <= r ->
    exists t d x, s1 !! k = Some x /\ stored t r d x /\ 0 <= t <= qps /\ (lane = tx "bulk" -> res <= t)).
  { intros t0 l0 h x Hk t1 ok r s1 Hr Pos.
    destruct (write_bucket (clock_ms now) k (if ok then t1 - 1 else t1) l0
      (Z.max 60000 (l0 - clock_ms now + 1000)) (mret (if ok then l0 else -1)) s h x ltac:(lia) Hk) as (y & Hw & St).
    rewrite Hw in Hr. injection Hr as <- <-. destruct ok eqn:Ok; [|lia].
    subst ok. assert (1 <= t1) by (eapply admits_pos; [|exact Ok]; lia). eexists _, _, y.
    rewrite lookup_insert_eq. split_and!; [done|exact St|lia..|].
    intros ->. unfold admits in Ok. bool_prop. destruct Ok as [Ok|Ok]; bool_prop; [by vm_compute in H4|lia]. }
  destruct (TOKEN_BUCKET_LUA now k lane qps res s) as [[r|] s1] eqn:Run; [|done].
  assert (r = e /\ s1 = s' /\ 0 <= e) as (-> & -> & Pos).
  { destruct (r <? -1) eqn:L1; [done|]. destruct (r <? 0) eqn:L0; [done|].
    injection H2 as -> ->. bool_prop. by split_and!. }
  enough (exists t d x, s' !! k = Some x /\ stored t e d x /\ 0 <= t <= qps /\
            (lane = tx "bulk" -> res <= t)) as (t & d & x & ? & ? & ? & ?) by (by exists t, d, x).
  unfold TOKEN_BUCKET_LUA in Run. cbv zeta in Run. erewrite script_bind_eq in Run by reflexivity.
  destruct (s !! k) as [[[u|h|z] x]|] eqn:K; cbn [fmap option_fmap option_map en_value] in Run;
    try (injection Run as <- <-; lia).
  - erewrite !script_bind_eq in Run by (by eapply HGET_hash).
    destruct (refill _ _ _ _ _) as [[t0 l0]|]; [|injection Run as <- <-; lia].
    exact (W t0 l0 h x (or_intror eq_refl) _ _ Run Pos).
  - erewrite !script_bind_eq in Run by (by eapply HGET_none). cbn [mbind option_bind refill] in Run.
    exact (W _ _ ∅ None (or_introl eq_refl) _ _ Run Pos).
Qed.

(** The largest values the scripts accept from a stored bucket. *)
Definition MAX_MS : Z := 9007199254740000.
Definition MAX_TOKENS : Z := 9007199254740991.

Lemma acquires_all (times : list Z) (qps res : Z) (v : option text) (s : redis) (t e d : Z) x :
  s !! _bucket_key v = Some x -> stored t e d x -> 0 <= res < qps -> qps <= MAX_TOKENS ->
  0 <= e <= MAX_MS -> Z.of_nat (length times) <= t <= qps ->
  Forall (fun now => e <= clock_ms now < e + 1000) times ->
  acquires times qps res v s = replicate (length times) (Ok (Some e)).
Proof.
  intros K St Hr Hq He Ht HF. revert s t d x K St Ht.
  induction HF as [|now times Hnow HF IH]; intros s t d x K St Ht; [done|]. cbn [acquires].
  unfold acquire. replace (negb _) with false by done.
  replace (_ || _) with false by (symmetry; apply orb_false_iff; split; [apply Z.ltb_ge; lia|];
    apply negb_false_iff, andb_true_iff; split; [apply Z.leb_le|apply Z.ltb_lt]; lia).
  assert (F : finds qps (clock_ms now) (s !! _bucket_key v) t e).
  { rewrite K. exists t, e, d. split; [done|]. unfold refill, MAX_MS, MAX_TOKENS in *.
    destruct (_ || _) eqn:B; [bool_prop; naive_solver lia|].
    rewrite (proj2 (Z.ltb_ge _ _)) by lia. rewrite (Z.div_small (clock_ms now - e)) by lia. done. }
  destruct (acquire_run now (_bucket_key v) (tx "realtime") qps res s t e F) as (y & -> & Sy).
  cbn [length] in Ht. rewrite Z.min_r in Sy |- * by lia.
  assert (Ad : admits (tx "realtime") res t = true).
  { unfold admits. rewrite teqb_refl. simpl. rewrite (proj2 (Z.leb_le 1 t)) by lia. done. }
  rewrite Ad in Sy |- *. rewrite (proj2 (Z.ltb_ge e (-1))), (proj2 (Z.ltb_ge e 0)) by lia.
  cbn [length replicate]. f_equal. eapply (IH _ (t - 1)); [apply lookup_insert_eq|exact Sy|lia].
Qed.

(** ** The properties *)

Definition example_log : state :=
  do_acquire 1500000 (tx "realtime") 3 1 None (do_refund 1400000 3 1000 None
    (do_acquire 1300000 (tx "realtime") 3 1 None (do_acquire 1200000 (tx "bulk") 3 1 None
      (do_acquire 1000000 (tx "bulk") 3 1 None empty_state)))).

Lemma collected_acquire now lane qps res v s : collected (do_acquire now lane qps res v s) = collected s.
Proof. unfold do_acquire. by destruct (acquire _ _ _ _ _ _). Qed.
Lemma collected_refund now qps e v s : collected (do_refund now qps e v s) = collected s.
Proof. unfold do_refund. by destruct (refund _ _ _ _ _). Qed.

Lemma example_log_reachable : rtc (step 3) empty_state example_log.
Proof.
  unfold example_log.
  repeat match goal with
  | |- rtc _ _ (do_acquire _ _ _ _ _ _) =>
      eapply rtc_r; [|apply step_acquire; [lia|split; [lia|intros d _]];
        rewrite ?collected_acquire, ?collected_refund, ?collected_acquire; cbn [collected empty_state];
        by rewrite lookup_empty]
  | |- rtc _ _ (do_refund _ _ _ _ _) => eapply rtc_r; [|apply step_refund; lia]
  end.
  apply rtc_refl.
Qed.

(** C30: however acquires, refunds and expiries interleave and however the clock
    steps while the bucket exists, in every refill period the tokens granted
    from a bucket less the tokens handed back never exceed the largest capacity
    in use.  The one assumption on the clock ([clock_ok]): it is not set back
    behind the deadline of a bucket that has expired, which [set_back_grants]
    shows to be needed. *)
Theorem bucket_bound cap s k e : 0 <= cap -> rtc (step cap) empty_state s ->
  granted k e s - refunded k e s <= cap.
Proof. intros Hc R. apply (reachable_ok cap s Hc R k). Qed.

Lemma bucket_bound_witness :
  granted base_key 1000 example_log - refunded base_key 1000 example_log <= 3.
Proof. apply (bucket_bound 3); [lia|exact example_log_reachable]. Defined.

(** A bucket of one token that expires grants a second one for the same period
    to a caller whose clock is still before the deadline. *)
Lemma set_back_grants :
  let s := do_acquire 1000000 (tx "bulk") 1 0 None empty_state in
  granted base_key 1000 (do_acquire 1000000 (tx "bulk") 1 0 None
    (mkState (delete base_key (db s)) (log s) (collected s))) = 2.
Proof. vm_compute. reflexivity. Qed.

(** Any one second of wall-clock time, aligned with the refill periods or
    not, sees grants of two periods at most, and so at most twice the capacity
    besides what was handed back in them. *)
Theorem second_bound cap s k t : 0 <= cap -> rtc (step cap) empty_state s ->
  exists e1 e2, e1 <= t < e2 /\
    granted_within k t s <= 2 * cap + refunded k e1 s + refunded k e2 s.
Proof.
  intros Hc R. pose proof (reachable_ok cap s Hc R k) as I.
  destruct (two_periods cap k s t I) as (e1 & e2 & He & H). exists e1, e2. split; [done|].
  destruct I as [N _]. pose proof (N e1). pose proof (N e2). unfold net in *. lia.
Qed.

Lemma second_bound_witness : granted_within base_key 1000 example_log = 4 /\
  exists e1 e2, e1 <= 1000 < e2 /\ granted_within base_key 1000 example_log
    <= 2 * 3 + refunded base_key e1 example_log + refunded base_key e2 example_log.
Proof.
  split; [vm_compute; reflexivity|].
  apply (second_bound 3); [lia|exact example_log_reachable].
Defined.

(** A bulk grant leaves the realtime reservation: as many realtime acquires
    as are reserved, in the same period, are all granted. *)
Theorem reservation_kept now qps reserved v db1 db2 e times :
  acquire now (tx "bulk") qps reserved v db1 = (Ok (Some e), db2) ->
  e <= MAX_MS -> qps <= MAX_TOKENS -> Z.of_nat (length times) <= reserved ->
  Forall (fun t => e <= clock_ms t < e + 1000) times ->
  acquires times qps reserved v db2 = replicate (length times) (Ok (Some e)).
Proof.
  intros A He Hq Hl HF. destruct (acquire_stored _ _ _ _ _ _ _ _ A) as (t & d & x & K & St & Ht & H0 & Hr & Hb).
  specialize (Hb eq_refl). eapply acquires_all; eauto; lia.
Qed.

Lemma reservation_kept_witness :
  let db2 := snd (acquire 1000000 (tx "bulk") 3 2 None ∅) in
  acquires [1100000; 1200000] 3 2 None db2 = [Ok (Some 1000); Ok (Some 1000)].
Proof.
  apply (reservation_kept 1000000 3 2 None ∅ _ 1000 [1100000; 1200000]);
    [vm_compute; reflexivity|done|done|done|].
  repeat constructor; vm_compute; congruence.
Defined.
End TokenBucket.
