(* ===== verification/AppRateLimit.v ===== *)
(** * Admission rates of an application ([services/app_ratelimit.py])

    Two limits per application in the control Redis: requests per minute as a
    sorted set of accepted requests, and recipients and segments per minute as a
    ring of sixty one-second slots, with the counters of an earlier version of
    the service read until they are out of the window.

    The theorems relate both scripts to the log of what was accepted: a request
    is accepted exactly when the log of the last minute leaves room for it,
    whatever expires in between. *)

From S2P Require Import Prelude PyText Redis.

Module AppRateLimit.
Import Redis.

(** ** The scripts *)

Definition SLIDING_WINDOW_LUA (now : Z) (key : text) (limit : Z) (member : text) : script Z :=
  let now_ms := clock_ms now in
  _ ← ZREMRANGEBYSCORE key (now_ms - 60000);
  count ← ZCARD key;
  if limit <=? count then mret 0 else
  _ ← ZADD key now_ms member;
  _ ← EXPIRE now_ms key 60;
  mret 1.

Definition COST_WINDOW_SECONDS : Z := 60.
Definition COST_BUCKET_TTL_SECONDS : Z := 70.
Definition COST_MIGRATION_TTL_SECONDS : Z := 604800.
Definition WRITER_CUTOVER_MARKER_KEY : text := tx "ratelimit:cost:writer_cutover".

(** [for i = first, last do] *)
Definition range (first last : Z) : list Z := seqZ first (last - first + 1).

(** [tonumber(redis.call('HGET', key, field))] *)
Definition hget_number (key field : text) : script (option Z) :=
  raw ← HGET key field;
  mret (raw ≫= tonumber).

Definition f_epoch (slot : Z) : text := tx "e" ++ str_int slot.
Definition f_weight (slot : Z) : text := tx "w" ++ str_int slot.
Definition f_last_epoch : text := tx "last_epoch".

Fixpoint ring_loop (key : text) (now_sec total : Z) (slots : list Z) : script Z :=
  match slots with
  | [] => mret total
  | slot :: rest =>
      epoch ← hget_number key (f_epoch slot);
      weight ← hget_number key (f_weight slot);
      ring_loop key now_sec
        (match epoch with
         | Some epoch => if (now_sec - 59 <=? epoch) && (epoch <=? now_sec)
                         then total + default 0 weight else total
         | None => total
         end) rest
  end.
Definition ring_total (key : text) (now_sec : Z) : script Z := ring_loop key now_sec 0 (range 0 59).

Fixpoint v1_past (key : text) (total : Z) (epochs : list Z) : script (option Z) :=
  match epochs with
  | [] => mret (Some total)
  | epoch :: rest =>
      raw ← HGET key (str_int epoch);
      match raw with
      | None => v1_past key total rest
      | Some raw =>
          match tonumber raw with
          | Some weight => if weight <? 0 then mret None else v1_past key (total + weight) rest
          | None => mret None
          end
      end
  end.
Fixpoint v1_future (key : text) (epochs : list Z) : script bool :=
  match epochs with
  | [] => mret false
  | epoch :: rest =>
      raw ← HGET key (str_int epoch);
      match raw with None => v1_future key rest | Some _ => mret true end
  end.
Definition v1_active (key : text) (now_sec : Z) : script (option Z) :=
  typ ← TYPE key;
  match typ with
  | none => mret (Some 0)
  | hash =>
      total ← v1_past key 0 (range (now_sec - 59) now_sec);
      match total with
      | None => mret None
      | Some total =>
          found ← v1_future key (range (now_sec + 1) (now_sec + 59));
          mret (if found : bool then None else Some total)
      end
  | _ => mret None
  end.

(** The marker of the cutover: a refusal code, or [None] when version 2 is
    active at [now_sec]. *)
Definition marker_refusal (marker : text) (now_sec : Z) : script (option Z) :=
  typ ← TYPE marker;
  match typ with
  | none => mret (Some (-3))
  | hash =>
      state ← HGET marker (tx "state");
      schema ← HGET marker (tx "schema_version");
      generation ← hget_number marker (tx "generation");
      fence ← hget_number marker (tx "fence_time");
      not_before ← hget_number marker (tx "not_before");
      n ← HLEN marker;
      target ← HGET marker (tx "target_writer_version");
      minimum ← HGET marker (tx "minimum_writer_version");
      window ← HGET marker (tx "window_seconds");
      margin ← HGET marker (tx "safety_margin_seconds");
      reason ← HGET marker (tx "admission_reason");
      mret (if bool_decide (state = Some (tx "active_v2")) && bool_decide (schema = Some (tx "1"))
               && match generation with Some g => 1 <=? g | None => false end
               && (n =? 11) && bool_decide (target = Some (tx "2"))
               && bool_decide (minimum = Some (tx "2")) && bool_decide (window = Some (tx "60"))
               && bool_decide (margin = Some (tx "5"))
               && bool_decide (reason = Some (tx "writer_cutover"))
               && match fence, not_before with
                  | Some fence, Some not_before =>
                      (fence + 65 <=? not_before) && (not_before <=? now_sec)
                  | _, _ => false
                  end
            then None else Some (-4))
  | _ => mret (Some (-2))
  end.

Definition ring_add (now : Z) (key : text) (now_sec weight ttl : Z) : script unit :=
  let slot := now_sec mod 60 in
  owned ← hget_number key (f_epoch slot);
  _ ← (if bool_decide (owned = Some now_sec)
       then _ ← HINCRBY key (f_weight slot) weight; mret tt
       else _ ← HSET key [(f_epoch slot, str_int now_sec)];
            HSET key [(f_weight slot, str_int weight)]);
  _ ← HSET key [(f_last_epoch, str_int now_sec)];
  EXPIRE now key ttl.

(** The keys of one application. *)
Record cost_keys := mkKeys { k_rec : text; k_seg : text; k_v1_rec : text; k_v1_seg : text }.

Definition WEIGHTED_WINDOW_LUA (now : Z) (ks : cost_keys) (marker : text)
    (rec_limit rec_weight seg_limit seg_weight ttl : Z) : script Z :=
  let server_sec := now / 1000000 in
  last ← hget_number (k_rec ks) f_last_epoch;
  let now_sec := match last with
                 | Some last => if server_sec <? last then last else server_sec
                 | None => server_sec
                 end in
  refusal ← marker_refusal marker server_sec;
  match refusal with
  | Some code => mret code
  | None =>
      v2_rec ← ring_total (k_rec ks) now_sec;
      v2_seg ← ring_total (k_seg ks) now_sec;
      v1_rec ← v1_active (k_v1_rec ks) now_sec;
      v1_seg ← v1_active (k_v1_seg ks) now_sec;
      match v1_rec, v1_seg with
      | Some v1_rec, Some v1_seg =>
          let recipients := if v2_rec <? v1_rec then v1_rec else v2_rec in
          let segments := if v2_seg <? v1_seg then v1_seg else v2_seg in
          if rec_limit <? recipients + rec_weight then mret 0 else
          if seg_limit <? segments + seg_weight then mret 0 else
          let rec_add := if v2_rec <? v1_rec then rec_weight + (v1_rec - v2_rec) else rec_weight in
          let seg_add := if v2_seg <? v1_seg then seg_weight + (v1_seg - v2_seg) else seg_weight in
          _ ← ring_add (clock_ms now) (k_rec ks) now_sec rec_add ttl;
          _ ← ring_add (clock_ms now) (k_seg ks) now_sec seg_add ttl;
          mret 1
      | _, _ => mret (-2)
      end
  end.

(** ** The limiter *)

Definition ApplicationRateLimitExceeded : exc :=
  Exc (tx "ApplicationRateLimitExceeded") (utx "应用请求频率超限").
Definition ControlPlaneUnavailable : exc :=
  Exc (tx "ControlPlaneUnavailable") (utx "应用限流控制面不可用").

(** How the call of a script ends: with its answer, or with an error of the
    connection before or after the script ran. *)
Inductive link := Up | Lost | Down.
#[export] Instance link_eq_dec : EqDecision link.
Proof. solve_decision. Defined.

Definition eval {A} (l : link) (m : script A) (s : redis) : option A * redis :=
  match l with
  | Down => (None, s)
  | _ => let '(r, s') := m s in
         (match l, r with Up, Ok a => Some a | _, _ => None end, s')
  end.

Definition _consume_requests (now : Z) (l : link) (key : text) (limit_per_minute : Z)
    (member : text) (s : redis) : result exc unit * redis :=
  if limit_per_minute <? 1 then (Raise (ValueError "application rate limit must be positive"), s) else
  match eval l (SLIDING_WINDOW_LUA now key limit_per_minute member) s with
  | (None, s') => (Raise ControlPlaneUnavailable, s')
  | (Some allowed, s') =>
      (if allowed =? 0 then Raise ApplicationRateLimitExceeded else Ok tt, s')
  end.

Definition app_key (app_id : Z) : text := tx "ratelimit:app:" ++ str_int app_id.

Definition check (now : Z) (l : link) (app_id limit_per_minute : Z) (nonce : text)
    : redis -> result exc unit * redis :=
  _consume_requests now l (app_key app_id) limit_per_minute nonce.
Definition check_replay (now : Z) (l : link) (app_id limit_per_minute : Z) (nonce : text)
    : redis -> result exc unit * redis :=
  _consume_requests now l (app_key app_id ++ tx ":replay") limit_per_minute nonce.

Definition keys_of (app_id : Z) : cost_keys :=
  mkKeys (app_key app_id ++ tx ":recipients:v2") (app_key app_id ++ tx ":segments:v2")
    (app_key app_id ++ tx ":recipients:buckets") (app_key app_id ++ tx ":segments:buckets").

Definition consume_send_cost (now : Z) (l : link) (app_id recipient_count segment_count
    recipient_limit segment_limit : Z) (s : redis) : result exc unit * redis :=
  if (recipient_count <? 1) || (segment_count <? 1) || (recipient_limit <? 1) || (segment_limit <? 1)
  then (Raise (ValueError "application cost limits must be positive"), s) else
  match eval l (WEIGHTED_WINDOW_LUA now (keys_of app_id) WRITER_CUTOVER_MARKER_KEY recipient_limit
                  recipient_count segment_limit segment_count COST_BUCKET_TTL_SECONDS) s with
  | (None, s') => (Raise ControlPlaneUnavailable, s')
  | (Some outcome, s') =>
      (if outcome <? 0 then Raise ControlPlaneUnavailable
       else if outcome =? 0 then Raise ApplicationRateLimitExceeded else Ok tt, s')
  end.


(** ** Runs of the request limiter *)

Record request := mkRequest { rq_now : Z; rq_link : link; rq_limit : Z; rq_member : text }.

Definition history : Type := list (request * result exc unit).

(** The latest time seen, the key space, and the requests of one key with
    their answers, the newest first. *)
Record window_state := mkWindow { ws_now : Z; ws_db : redis; ws_history : history }.

(** The clock does not run backwards and a nonce is used once. *)
Inductive window_step (key : text) (w : window_state) : window_state -> Prop :=
| ws_request r a s' :
    ws_now w <= rq_now r -> rq_member r ∉ (rq_member ∘ fst) <$> ws_history w ->
    _consume_requests (rq_now r) (rq_link r) key (rq_limit r) (rq_member r) (ws_db w) = (a, s') ->
    window_step key w (mkWindow (rq_now r) s' ((r, a) :: ws_history w))
| ws_expire now s' :
    ws_now w <= now -> expire (clock_ms now) key (ws_db w) s' ->
    window_step key w (mkWindow now s' (ws_history w))
| ws_other now s' :
    ws_now w <= now -> s' !! key = ws_db w !! key ->
    window_step key w (mkWindow now s' (ws_history w)).

(** *** What the limiter promises: a log of accepted requests *)

Definition recent (t : Z) (p : text * Z) : bool := t - 60000 <? snd p.

Definition room (limit t : Z) (log : list (text * Z)) : bool :=
  Z.of_nat (length (List.filter (recent t) log)) <? limit.

Fixpoint accepted (rs : list request) : list (text * Z) :=
  match rs with
  | [] => []
  | r :: older =>
      let log := accepted older in
      match rq_link r with
      | Down => log
      | _ => if (1 <=? rq_limit r) && room (rq_limit r) (clock_ms (rq_now r)) log
             then (rq_member r, clock_ms (rq_now r)) :: log else log
      end
  end.

Definition promised (r : request) (log : list (text * Z)) : result exc unit :=
  if rq_limit r <? 1 then Raise (ValueError "application rate limit must be positive") else
  match rq_link r with
  | Up => if room (rq_limit r) (clock_ms (rq_now r)) log then Ok tt
          else Raise ApplicationRateLimitExceeded
  | _ => Raise ControlPlaneUnavailable
  end.

Fixpoint as_promised (h : history) : Prop :=
  match h with
  | [] => True
  | (r, a) :: older => a = promised r (accepted (fst <$> older)) /\ as_promised older
  end.

(** *** The stored set is the recent log *)

(** What the key holds: nothing, or a set with a deadline. *)
Definition zset_at (s : redis) (key : text) (z : gmap text Z) (d : Z) : Prop :=
  (s !! key = None /\ z = ∅) \/ s !! key = Some (mkEntry (VZset z) (Some d)).

Record tracks (now : Z) (z : gmap text Z) (d : Z) (log : list (text * Z)) : Prop := {
  tr_old : forall m x, z !! m = Some x -> (m, x) ∈ log;
  tr_new : forall m x, (m, x) ∈ log -> clock_ms now - 60000 < x -> z !! m = Some x;
  tr_bound : forall m x, (m, x) ∈ log -> x <= clock_ms now;
  tr_deadline : forall m x, (m, x) ∈ log -> x + 60000 <= d \/ x <= clock_ms now - 60000 }.

Definition window_ok (key : text) (w : window_state) : Prop :=
  let log := accepted (fst <$> ws_history w) in
  as_promised (ws_history w) /\
  (fst <$> log) `sublist_of` ((rq_member ∘ fst) <$> ws_history w) /\ NoDup (fst <$> log) /\
  exists z d, zset_at (ws_db w) key z d /\ tracks (ws_now w) z d log.

Lemma recent_size t z log now d : NoDup (fst <$> log) -> tracks now z d log -> now <= t ->
  Z.of_nat (size (filter (fun p => clock_ms t - 60000 < p.2) z)) =
  Z.of_nat (length (List.filter (recent (clock_ms t)) log)).
Proof.
  intros ND [Ho Hn _ _] Ht. apply clock_ms_mono in Ht. f_equal. rewrite <-length_map_to_list.
  apply Permutation_length, NoDup_Permutation; [apply NoDup_map_to_list| |].
  - apply NoDup_fmap_1 in ND. eapply sublist_NoDup; [exact ND|apply filter_sublist].
  - intros [m x]. rewrite elem_of_map_to_list, map_lookup_filter_Some, filter_in. unfold recent. simpl.
    rewrite Z.ltb_lt. split; [intros [H1 H2]; eauto|]. intros [H1 H2]. split; [|done].
    apply Hn; [done|lia].
Qed.

Lemma sliding_run (now : Z) (key : text) (limit : Z) (member : text) (s : redis) z d :
  zset_at s key z d ->
  let z' := filter (fun p => clock_ms now - 60000 < p.2) z in
  exists s', SLIDING_WINDOW_LUA now key limit member s =
    (Ok (if limit <=? Z.of_nat (size z') then 0 else 1), s') /\
    if limit <=? Z.of_nat (size z') then zset_at s' key z' d
    else zset_at s' key (<[member := clock_ms now]> z') (clock_ms now + 60000).
Proof.
  intros Hz z'. unfold SLIDING_WINDOW_LUA. cbv zeta.
  assert (R : exists s1, ZREMRANGEBYSCORE key (clock_ms now - 60000) s = (Ok tt, s1) /\ zset_at s1 key z' d).
  { unfold ZREMRANGEBYSCORE. destruct Hz as [[K ->]|K]; rewrite K.
    - exists s. split; [done|]. left. split; [done|]. apply map_filter_empty.
    - case_bool_decide as E; eexists; (split; [done|]).
      + left. by rewrite lookup_delete_eq.
      + right. by rewrite lookup_insert_eq. }
  destruct R as (s1 & R & Hz1). rewrite (script_bind_eq _ _ _ _ _ R).
  assert (C : ZCARD key s1 = (Ok (Z.of_nat (size z')), s1)).
  { unfold ZCARD. destruct Hz1 as [[K E]|K]; rewrite K; [|done]. simpl. by rewrite E, map_size_empty. }
  rewrite (script_bind_eq _ _ _ _ _ C). destruct (limit <=? _); [by exists s1|].
  unfold mbind, script_bind, ZADD, EXPIRE, PEXPIRE, PEXPIREAT.
  assert (L : (clock_ms now + 60 * 1000 <=? clock_ms now) = false) by (apply Z.leb_gt; lia).
  destruct Hz1 as [[K E]|K]; rewrite K, L; eexists; (split; [done|]); right;
    rewrite alter_insert_eq, lookup_insert_eq; [by rewrite E|done].
Qed.

(** The script decides as the log does and keeps following it. *)
Lemma sliding_tracks (now t : Z) (key : text) (limit : Z) (member : text) (s : redis)
    (z : gmap text Z) (d : Z) (log : list (text * Z)) :
  NoDup (fst <$> log) -> member ∉ fst <$> log -> now <= t ->
  zset_at s key z d -> tracks now z d log ->
  exists s' z2 d2, SLIDING_WINDOW_LUA t key limit member s =
    (Ok (if room limit (clock_ms t) log then 1 else 0), s') /\ zset_at s' key z2 d2 /\
    tracks t z2 d2 (if room limit (clock_ms t) log then (member, clock_ms t) :: log else log).
Proof.
  intros ND Fr Ht Hz Tr. destruct (sliding_run t key limit member s z d Hz) as (s' & E & Hz').
  rewrite (recent_size t z log now d ND Tr Ht) in E, Hz'. apply clock_ms_mono in Ht.
  set (z' := filter _ z) in *. destruct Tr as [Ho Hn Hb Hd].
  assert (F : forall m x, z' !! m = Some x <-> z !! m = Some x /\ clock_ms t - 60000 < x)
    by (intros m x; apply map_lookup_filter_Some).
  exists s'. unfold room. destruct (Z.leb_spec limit (Z.of_nat (length (List.filter (recent (clock_ms t)) log)))) as [Lm|Lm].
  - rewrite (proj2 (Z.ltb_ge _ _) Lm). exists z', d. split_and!; [done|done|]. split.
    + intros m x [H _]%F. by apply Ho.
    + intros m x H Hx. apply F. split; [apply Hn; [done|lia]|done].
    + intros m x H%Hb. lia.
    + intros m x H%Hd. lia.
  - rewrite (proj2 (Z.ltb_lt _ _) Lm). exists (<[member := clock_ms t]> z'), (clock_ms t + 60000).
    split_and!; [done|done|]. split.
    + intros m x [[<- <-]|[_ [H _]%F]]%lookup_insert_Some; [left|right; by apply Ho].
    + intros m x [[= -> ->]|H]%elem_of_cons Hx; [by rewrite lookup_insert_eq|].
      rewrite lookup_insert_ne; [|intros ->; by apply Fr, list_elem_of_fmap; exists (m, x)].
      apply F. split; [apply Hn; [done|lia]|done].
    + intros m x [[= -> ->]|H%Hb]%elem_of_cons; lia.
    + intros m x [[= -> ->]|H%Hb]%elem_of_cons; lia.
Qed.

Lemma tracks_later now t z d log : now <= t -> tracks now z d log -> tracks t z d log.
Proof.
  intros Ht%clock_ms_mono [Ho Hn Hb Hd]. split; [done| | |].
  - intros m x H Hx. apply Hn; [done|lia].
  - intros m x H%Hb. lia.
  - intros m x H%Hd. lia.
Qed.

(** From the deadline on nothing of the log is recent. *)
Lemma tracks_expired now z d log : d <= clock_ms now -> tracks now z d log -> tracks now ∅ d log.
Proof.
  intros Hd' [Ho Hn Hb Hd]. split; [set_solver| |done|done].
  intros m x H Hx. destruct (Hd m x H); lia.
Qed.

(** A request the log does not see. *)
Lemma accepted_skip r older : rq_link r = Down \/ rq_limit r < 1 ->
  accepted (r :: older) = accepted older.
Proof.
  intros H. cbn [accepted]. destruct H as [->|H]; [done|].
  rewrite (proj2 (Z.leb_gt _ _)) by lia. by destruct (rq_link r).
Qed.

Lemma window_request key w r a s' : window_ok key w ->
  ws_now w <= rq_now r -> rq_member r ∉ (rq_member ∘ fst) <$> ws_history w ->
  _consume_requests (rq_now r) (rq_link r) key (rq_limit r) (rq_member r) (ws_db w) = (a, s') ->
  window_ok key (mkWindow (rq_now r) s' ((r, a) :: ws_history w)).
Proof.
  intros (P & Sub & ND & z & d & Hz & Tr) Ht Fr H.
  assert (Fr' : rq_member r ∉ fst <$> accepted (fst <$> ws_history w))
    by (intros X; apply Fr; by eapply elem_of_sublist).
  assert (Sk : rq_link r = Down \/ rq_limit r < 1 -> s' = ws_db w ->
    a = promised r (accepted (fst <$> ws_history w)) ->
    window_ok key (mkWindow (rq_now r) s' ((r, a) :: ws_history w))).
  { intros K -> ->. unfold window_ok. cbn [ws_history ws_db ws_now fmap list_fmap fst].
    rewrite (accepted_skip r _ K). split_and!; [done|by apply sublist_cons|done|].
    exists z, d. split; [done|by eapply tracks_later]. }
  unfold _consume_requests in H. destruct (Z.ltb_spec (rq_limit r) 1) as [Lm|Lm].
  { injection H as <- <-. apply Sk; [by right|done|]. unfold promised.
    by rewrite (proj2 (Z.ltb_lt _ _) Lm). }
  destruct (decide (rq_link r = Down)) as [Dn|Up_].
  { rewrite Dn in H. injection H as <- <-. apply Sk; [by left|done|]. unfold promised.
    rewrite (proj2 (Z.ltb_ge _ _) Lm). by rewrite Dn. }
  destruct (sliding_tracks _ _ _ (rq_limit r) _ _ _ _ _ ND Fr' Ht Hz Tr) as (s1 & z2 & d2 & E & Hz2 & Tr2).
  assert (A : accepted ((r, a).1 :: (fst <$> ws_history w)) =
    if room (rq_limit r) (clock_ms (rq_now r)) (accepted (fst <$> ws_history w))
    then (rq_member r, clock_ms (rq_now r)) :: accepted (fst <$> ws_history w)
    else accepted (fst <$> ws_history w)).
  { cbn [accepted fst]. rewrite (proj2 (Z.leb_le _ _) Lm). by destruct (rq_link r). }
  assert (B : s' = s1 /\ a = promised r (accepted (fst <$> ws_history w))).
  { unfold promised. rewrite (proj2 (Z.ltb_ge _ _) Lm). unfold eval in H. rewrite E in H.
    destruct (rq_link r); try done; injection H as <- <-; by destruct (room _ _ _). }
  destruct B as [-> ->]. unfold window_ok. cbn [ws_history ws_db ws_now fmap list_fmap].
  fold (fmap (M := list) fst (ws_history w)). rewrite A. split_and!; [done| | |].
  - destruct (room _ _ _); [by constructor|by apply sublist_cons].
  - destruct (room _ _ _); [by apply NoDup_cons|done].
  - by exists z2, d2.
Qed.

(** *** At most the limit in any minute *)

Definition in_minute (t : Z) (p : text * Z) : bool := recent t p && (snd p <=? t).
Definition per_minute (t : Z) (log : list (text * Z)) : Z :=
  Z.of_nat (length (List.filter (in_minute t) log)).

Lemma filter_length_le {A} (f g : A -> bool) l : (forall x, x ∈ l -> f x = true -> g x = true) ->
  (length (List.filter f l) <= length (List.filter g l))%nat.
Proof.
  induction l as [|x l IH]; intros H; simpl; [lia|].
  assert (IH' : (length (List.filter f l) <= length (List.filter g l))%nat)
    by (apply IH; intros; apply H; [by right|done]).
  destruct (f x) eqn:F; [rewrite (H x); [simpl; lia|by left|done]|]. destruct (g x); simpl; lia.
Qed.

Lemma per_minute_cons limit L m T log : (forall p, p ∈ log -> snd p <= T) ->
  room limit T log = true -> limit <= L -> (forall t, per_minute t log <= L) ->
  forall t, per_minute t ((m, T) :: log) <= L.
Proof.
  unfold per_minute, room. intros Hb Hr HL IH t. apply Z.ltb_lt in Hr. specialize (IH t).
  cbn [List.filter]. destruct (in_minute t (m, T)) eqn:E; [|done].
  unfold in_minute, recent in E. bool_prop. simpl in *.
  assert (Le := filter_length_le (in_minute t) (recent T) log).
  rewrite Nat2Z.inj_succ. enough ((length (List.filter (in_minute t) log) <= length (List.filter (recent T) log))%nat) by lia.
  apply Le. intros p Hp Hm. unfold in_minute, recent in *. bool_prop. apply Z.ltb_lt. lia.
Qed.

Definition limits_at_most (L : Z) (h : history) : Prop := Forall (fun p => rq_limit (fst p) <= L) h.

Definition bounded (w : window_state) : Prop := forall L t, 0 <= L -> limits_at_most L (ws_history w) ->
  per_minute t (accepted (fst <$> ws_history w)) <= L.

Lemma bounded_request key w r a s' : window_ok key w -> bounded w -> ws_now w <= rq_now r ->
  bounded (mkWindow (rq_now r) s' ((r, a) :: ws_history w)).
Proof.
  intros (_ & _ & _ & z & d & _ & Tr) B Ht L t HL HF. apply Forall_cons in HF as [Hl HF]. simpl in Hl.
  cbn [ws_history fmap list_fmap accepted fst]. specialize (fun t => B L t HL HF).
  assert (Hb : forall p, p ∈ accepted (fst <$> ws_history w) -> snd p <= clock_ms (rq_now r)).
  { intros [m x] H. apply (tr_bound _ _ _ _ Tr) in H. apply clock_ms_mono in Ht. simpl. lia. }
  destruct (rq_link r); [| |by apply B]; (destruct (_ && _) eqn:E; [|by apply B]); bool_prop;
    by apply (per_minute_cons (rq_limit r)).
Qed.

Lemma window_preserved key w w' : window_ok key w /\ bounded w -> window_step key w w' ->
  window_ok key w' /\ bounded w'.
Proof.
  intros [W B] St. destruct St as [r a s' Ht Fr H|now s' Ht Ex|now s' Ht K].
  - split; [by eapply window_request|by eapply bounded_request].
  - split; [|done]. destruct W as (P & Sub & ND & z & d & Hz & Tr). split_and!; try done.
    destruct Ex as [e d' Hk He Hd]. exists ∅, d. split; [left; split; [apply lookup_delete_eq|done]|].
    destruct Hz as [[Hn _]|Hs]; [congruence|]. rewrite Hs in Hk. injection Hk as <-. injection He as <-.
    eapply tracks_expired; [done|]. by eapply tracks_later.
  - split; [|done]. destruct W as (P & Sub & ND & z & d & Hz & Tr). split_and!; try done.
    exists z, d. split; [unfold zset_at; cbn [ws_db]; by rewrite K|by eapply tracks_later].
Qed.

(** *** A concrete run: two requests a minute *)

Definition serve (key : text) (r : request) (w : window_state) : window_state :=
  let a := _consume_requests (rq_now r) (rq_link r) key (rq_limit r) (rq_member r) (ws_db w) in
  mkWindow (rq_now r) (snd a) ((r, fst a) :: ws_history w).

Lemma serve_step key r w :
  (ws_now w <=? rq_now r) && negb (tmem (rq_member r) ((rq_member ∘ fst) <$> ws_history w)) = true ->
  window_step key w (serve key r w).
Proof.
  intros [Ht%Z.leb_le Fr%negb_true_iff]%andb_true_iff. unfold serve.
  apply ws_request; [done| |apply surjective_pairing]. intros H%tmem_spec. congruence.
Qed.

Definition example_key : text := app_key 7.
Definition example_window : window_state :=
  foldr (serve example_key) (mkWindow 0 ∅ [])
    [mkRequest 75000000 Up 2 (tx "e"); mkRequest 70000000 Lost 2 (tx "d");
     mkRequest 30000000 Up 2 (tx "c"); mkRequest 20000000 Up 2 (tx "b");
     mkRequest 10000000 Up 2 (tx "a")].

(** ** The properties *)

(** C27: the request limiter is a log of the last minute.  For any sequence of
    requests of one key, with lost answers, expiry of the key at any time after
    its deadline and anything happening to other keys, every request is answered
    as the log of accepted requests says: accepted exactly when fewer than its
    limit were accepted in the sixty seconds before it; and whatever minute is
    looked at, at most the limit was accepted in it. *)
Theorem sliding_window_exact key w0 w :
  ws_db w0 !! key = None -> ws_history w0 = [] -> rtc (window_step key) w0 w ->
  as_promised (ws_history w) /\
  forall L t, 0 <= L -> limits_at_most L (ws_history w) ->
    per_minute t (accepted (fst <$> ws_history w)) <= L.
Proof.
  intros K H R.
  assert (J : window_ok key w /\ bounded w).
  { apply (rtc_invariant (window_step key) (fun w => window_ok key w /\ bounded w)
             (window_preserved key) w0 w R).
    unfold window_ok, bounded. rewrite H. split; [|by intros L t HL _].
    split_and!; [done|done|constructor|]. exists ∅, 0. split; [by left|]. split; set_solver. }
  destruct J as [(P & _) B]. by split.
Qed.

Lemma sliding_window_exact_witness :
  snd <$> ws_history example_window =
    [Raise ApplicationRateLimitExceeded; Raise ControlPlaneUnavailable;
     Raise ApplicationRateLimitExceeded; Ok tt; Ok tt] /\
  per_minute 75000 (accepted (fst <$> ws_history example_window)) <= 2.
Proof.
  split; [vm_compute; reflexivity|].
  apply (sliding_window_exact example_key (mkWindow 0 ∅ []) example_window); [done|done| |done|].
  - unfold example_window. cbn [foldr].
    do 5 (eapply rtc_r; [|apply serve_step; vm_compute; reflexivity]). constructor.
  - by repeat constructor.
Defined.

End AppRateLimit.
