(* ===== verification/CostWindow.v ===== *)
(** * The cost window of an application is a log of the last minute

    [WEIGHTED_WINDOW_LUA] keeps the recipients and segments of a minute in rings
    of sixty slots.  This file relates the rings to the log of granted costs: a
    cost is granted exactly when the log of the last sixty seconds leaves room
    for its recipients and its segments. *)

From S2P Require Import Prelude PyText Redis AppRateLimit.

Module CostWindow.
Import Redis AppRateLimit.

(** ** Costs granted so far *)

(** The seconds and weights granted, the newest first. *)
Definition cost_log : Type := list (Z * Z).

Definition in_window (now : Z) (p : Z * Z) : bool := (now - 59 <=? fst p) && (fst p <=? now).
Definition used (now : Z) (log : cost_log) : Z := sumZ (snd <$> List.filter (in_window now) log).
Definition sum_at (e : Z) (log : cost_log) : Z :=
  sumZ (snd <$> List.filter (fun p => fst p =? e) log).

Definition log_ok (last : Z) (log : cost_log) : Prop := forall e w, (e, w) ∈ log -> e <= last /\ 0 <= w.

(** ** A ring that follows a log *)

(** The slot holds the newest second of the log that falls on it, as far as
    the log is newer than [floor]. *)
Definition slot_ok (h : by_text text) (last floor : Z) (log : cost_log) (slot : Z) : Prop :=
  (h !! f_epoch slot = None /\ forall e w, (e, w) ∈ log -> e mod 60 = slot -> e <= floor) \/
  (exists e, h !! f_epoch slot = Some (str_int e) /\ e mod 60 = slot /\ floor < e <= last /\
     h !! f_weight slot = Some (str_int (sum_at e log)) /\
     forall e' w, (e', w) ∈ log -> e' mod 60 = slot -> floor < e' -> e' <= e).

Record ring_ok (h : by_text text) (last floor : Z) (log : cost_log) : Prop := {
  ro_last : h !! f_last_epoch = Some (str_int last);
  ro_log : log_ok last log;
  ro_slots : forall slot, 0 <= slot < 60 -> slot_ok h last floor log slot }.

(** What the key of a ring holds at second [now]. *)
Definition key_ring (s : redis) (k : text) (now : Z) (log : cost_log) : Prop :=
  exists last floor, last <= now /\ floor <= now - 60 /\ log_ok last log /\
    ((s !! k = None /\ forall e w, (e, w) ∈ log -> e <= floor) \/
     (exists h d, s !! k = Some (mkEntry (VHash h) (Some d)) /\ ring_ok h last floor log /\
        last * 1000 + 70000 <= d)).

(** ** Sums over slots *)

Lemma range_in a b x : x ∈ range a b <-> a <= x <= b.
Proof. unfold range. rewrite elem_of_seqZ. lia. Qed.

Lemma range_NoDup a b : NoDup (range a b).
Proof. apply NoDup_seqZ. Qed.

Lemma sum_one (l : list Z) (x w : Z) : NoDup l -> x ∈ l ->
  sumZ ((fun slot => if x =? slot then w else 0) <$> l) = w.
Proof.
  intros ND Hx. induction ND as [|y l Hy ND IH]; [by apply elem_of_nil in Hx|].
  cbn [fmap list_fmap sumZ foldr]. fold (sumZ ((fun slot => if x =? slot then w else 0) <$> l)).
  apply elem_of_cons in Hx as [->|Hx].
  - rewrite Z.eqb_refl.
    enough (sumZ ((fun slot => if y =? slot then w else 0) <$> l) = 0) by lia.
    clear -Hy. induction l as [|z l IH]; [done|]. cbn [fmap list_fmap sumZ foldr].
    apply not_elem_of_cons in Hy as [Hn Hy]. rewrite (proj2 (Z.eqb_neq _ _) Hn). by apply IH in Hy.
  - rewrite (proj2 (Z.eqb_neq x y)) by (by intros ->). rewrite IH by done. lia.
Qed.

Lemma sum_plus {A} (f g : A -> Z) l :
  sumZ ((fun x => f x + g x) <$> l) = sumZ (f <$> l) + sumZ (g <$> l).
Proof. induction l as [|x l IH]; [done|]. unfold sumZ in *. cbn [fmap list_fmap foldr] in *. lia. Qed.

Lemma sum_zero {A} (f : A -> Z) l : (forall x, x ∈ l -> f x = 0) -> sumZ (f <$> l) = 0.
Proof.
  induction l as [|x l IH]; intros H; [done|]. unfold sumZ in *. cbn [fmap list_fmap foldr] in *. rewrite H by left.
  rewrite IH; [done|]. intros y Hy. apply H. by right.
Qed.

(** The entries of a log sorted by slot. *)
Lemma sum_by_slot (f : Z * Z -> bool) (log : cost_log) :
  sumZ ((fun slot => sumZ (snd <$> List.filter (fun p => f p && (fst p mod 60 =? slot)) log))
          <$> range 0 59) = sumZ (snd <$> List.filter f log).
Proof.
  induction log as [|[e w] log IH]; [by apply sum_zero|].
  transitivity (sumZ ((fun slot => (if e mod 60 =? slot then (if f (e, w) then w else 0) else 0) +
    sumZ (snd <$> List.filter (fun p => f p && (fst p mod 60 =? slot)) log)) <$> range 0 59)).
  { f_equal. apply list_fmap_ext. intros _ slot _. cbn [List.filter fst].
    destruct (f (e, w)), (e mod 60 =? slot); reflexivity. }
  rewrite sum_plus, IH, sum_one; [|apply range_NoDup|].
  - cbn [List.filter]. by destruct (f (e, w)).
  - apply range_in. pose proof (Z.mod_pos_bound e 60 ltac:(lia)). lia.
Qed.

Lemma filter_none {A} (f : A -> bool) l : (forall x, x ∈ l -> f x = false) -> List.filter f l = [].
Proof. intros H. apply filter_nil_iff. by apply Forall_forall. Qed.

Lemma filter_same {A} (f g : A -> bool) l : (forall x, x ∈ l -> f x = g x) ->
  List.filter f l = List.filter g l.
Proof.
  induction l as [|x l IH]; intros H; simpl; [done|]. rewrite (H x) by left.
  rewrite IH; [done|]. intros y Hy. apply H. by right.
Qed.

(** Two seconds of one window on the same slot are the same. *)
Lemma same_second a b now : a mod 60 = b mod 60 -> now - 59 <= a <= now -> now - 59 <= b <= now -> a = b.
Proof.
  intros E Ha Hb. pose proof (Z.div_mod a 60 ltac:(lia)). pose proof (Z.div_mod b 60 ltac:(lia)). lia.
Qed.

(** What one slot contributes to the total. *)
Definition contribution (h : by_text text) (now slot : Z) : Z :=
  match h !! f_epoch slot ≫= tonumber with
  | Some e => if (now - 59 <=? e) && (e <=? now) then default 0 (h !! f_weight slot ≫= tonumber) else 0
  | None => 0
  end.

Lemma contribution_slot h last floor log now slot : slot_ok h last floor log slot ->
  last <= now -> floor <= now - 60 -> log_ok last log ->
  contribution h now slot =
  sumZ (snd <$> List.filter (fun p => in_window now p && (fst p mod 60 =? slot)) log).
Proof.
  intros Sl Hl Hf Ok. unfold contribution.
  destruct Sl as [(-> & Hold)|(e & -> & Hs & He & -> & Hnew)]; cbn [mbind option_bind].
  - rewrite filter_none; [done|]. intros [e w] Hp. unfold in_window. simpl.
    destruct (Z.eqb_spec (e mod 60) slot) as [Es|]; [|by rewrite andb_false_r].
    pose proof (Hold e w Hp Es). rewrite (proj2 (Z.leb_gt (now - 59) e)) by lia. done.
  - rewrite !tonumber_str_int. cbn [from_option]; unfold id. destruct (_ && _) eqn:W; bool_prop.
    + unfold sum_at. do 2 f_equal. apply filter_same. intros [e' w] Hp. unfold in_window. simpl.
      destruct (Z.eqb_spec e' e) as [->|N].
      * rewrite Hs, Z.eqb_refl. symmetry. rewrite andb_true_r. apply andb_true_iff. rewrite !Z.leb_le. lia.
      * symmetry. apply not_true_iff_false. intros Hc. bool_prop. apply N.
        apply (same_second e' e now); [congruence|lia|lia].
    + rewrite filter_none; [done|]. intros [e' w] Hp. apply not_true_iff_false. intros Hc.
      unfold in_window in Hc. bool_prop. simpl in *. pose proof (Hnew e' w Hp ltac:(done) ltac:(lia)).
      destruct (Ok e' w Hp). destruct W as [W|W]; bool_prop; lia.
Qed.

(** The total of a ring is what the log says was used. *)
Lemma ring_used h last floor log now : ring_ok h last floor log -> last <= now -> floor <= now - 60 ->
  sumZ (contribution h now <$> range 0 59) = used now log.
Proof.
  intros [_ Ok Sl] Hl Hf. unfold used. rewrite <-sum_by_slot. f_equal. apply list_fmap_ext.
  intros i slot Hi. apply list_elem_of_lookup_2, range_in in Hi. apply (contribution_slot h last floor); try done.
  apply Sl. lia.
Qed.

Lemma ring_loop_run (k : text) (now total : Z) slots (s : redis) (h : by_text text) x :
  s !! k = Some (mkEntry (VHash h) x) ->
  ring_loop k now total slots s = (Ok (total + sumZ (contribution h now <$> slots)), s).
Proof.
  intros K. revert total. induction slots as [|slot slots IH]; intros total; cbn [ring_loop].
  - unfold mret, script_ret, sumZ. simpl. by rewrite Z.add_0_r.
  - unfold hget_number. erewrite !script_bind_eq by (erewrite script_bind_eq by (by eapply HGET_hash); reflexivity).
    rewrite IH. do 2 f_equal. unfold sumZ. cbn [fmap list_fmap foldr].
    generalize (foldr Z.add 0 (contribution h now <$> slots)). intros rest. unfold contribution.
    destruct (h !! f_epoch slot ≫= tonumber) as [e|]; [destruct (_ && _)|]; lia.
Qed.

Lemma hget_absent (k f : text) (s : redis) : s !! k = None -> hget_number k f s = (Ok None, s).
Proof. intros K. unfold hget_number. by erewrite script_bind_eq by (by eapply HGET_none). Qed.
Lemma hget_hash (k f : text) (s : redis) (h : by_text text) x : s !! k = Some (mkEntry (VHash h) x) ->
  hget_number k f s = (Ok (h !! f ≫= tonumber), s).
Proof. intros K. unfold hget_number. by erewrite script_bind_eq by (by eapply HGET_hash). Qed.

Lemma ring_loop_absent (k : text) (now total : Z) slots (s : redis) : s !! k = None ->
  ring_loop k now total slots s = (Ok total, s).
Proof.
  intros K. revert total. induction slots as [|slot slots IH]; intros total; cbn [ring_loop]; [done|].
  erewrite !script_bind_eq by (by apply hget_absent). apply IH.
Qed.

Lemma log_used_zero now log floor : (forall e w, (e, w) ∈ log -> e <= floor) -> floor <= now - 60 ->
  used now log = 0.
Proof.
  intros H Hf. unfold used. rewrite filter_none; [done|]. intros [e w] Hp. unfold in_window. simpl.
  pose proof (H e w Hp). by rewrite (proj2 (Z.leb_gt (now - 59) e)) by lia.
Qed.

Lemma ring_total_run (k : text) (now : Z) (s : redis) (log : cost_log) : key_ring s k now log ->
  ring_total k now s = (Ok (used now log), s).
Proof.
  intros (last & floor & Hl & Hf & Ok & [[K Old]|(h & d & K & R & _)]); unfold ring_total.
  - rewrite ring_loop_absent by done. by rewrite (log_used_zero now log floor Old Hf).
  - erewrite ring_loop_run by done. by rewrite (ring_used h last floor log now R Hl Hf).
Qed.

(** ** Adding to a ring *)

Lemma f_epoch_inj a b : f_epoch a = f_epoch b -> a = b.
Proof. intros H. apply (app_inv_head (tx "e")) in H. by apply str_int_inj. Qed.
Lemma f_weight_inj a b : f_weight a = f_weight b -> a = b.
Proof. intros H. apply (app_inv_head (tx "w")) in H. by apply str_int_inj. Qed.
Lemma f_epoch_weight a b : f_epoch a <> f_weight b.
Proof. done. Qed.
Lemma f_epoch_last a : f_epoch a <> f_last_epoch.
Proof. done. Qed.
Lemma f_weight_last a : f_weight a <> f_last_epoch.
Proof. done. Qed.

Lemma sum_at_cons e w e' log : sum_at e' ((e, w) :: log) = (if e =? e' then w else 0) + sum_at e' log.
Proof. unfold sum_at. cbn [List.filter fst]. by destruct (e =? e'). Qed.

Lemma sum_at_zero e log : (forall w, (e, w) ∉ log) -> sum_at e log = 0.
Proof.
  intros H. unfold sum_at. rewrite filter_none; [done|]. intros [e' w] Hp. simpl. apply Z.eqb_neq.
  intros ->. by apply (H w).
Qed.

(** The hash after an addition at second [now]. *)
Definition added (h : by_text text) (now total : Z) : by_text text :=
  <[f_last_epoch := str_int now]> (<[f_weight (now mod 60) := str_int total]>
    (<[f_epoch (now mod 60) := str_int now]> h)).

Lemma added_other h now total slot : slot <> now mod 60 ->
  added h now total !! f_epoch slot = h !! f_epoch slot /\
  added h now total !! f_weight slot = h !! f_weight slot.
Proof.
  intros N. unfold added. split.
  - rewrite !lookup_insert_ne; [done|..]; try done. intros E%f_epoch_inj. congruence.
  - rewrite !lookup_insert_ne; [done|..]; try done. intros E%f_weight_inj. congruence.
Qed.

Lemma added_ring h last floor log now w : log_ok last log ->
  (forall slot, 0 <= slot < 60 -> slot_ok h last floor log slot) -> last <= now -> floor <= now - 60 ->
  0 <= w -> ring_ok (added h now (w + sum_at now log)) now floor ((now, w) :: log).
Proof.
  intros Ok Sl Hl Hf Hw. split.
  - unfold added. by rewrite lookup_insert_eq.
  - intros e x [[= -> ->]|H]%elem_of_cons; [done|]. destruct (Ok e x H). lia.
  - intros slot Hs. destruct (decide (slot = now mod 60)) as [->|N].
    + right. exists now. unfold added.
      rewrite (lookup_insert_ne _ f_last_epoch), lookup_insert_ne, lookup_insert_eq by done.
      rewrite (lookup_insert_ne _ f_last_epoch), lookup_insert_eq by done.
      rewrite sum_at_cons, Z.eqb_refl. split_and!; try done; try lia.
      intros e x [[= -> ->]|H]%elem_of_cons _ _; [done|]. destruct (Ok e x H). lia.
    + destruct (added_other h now (w + sum_at now log) slot N) as [Ee Ew]. unfold slot_ok. rewrite Ee, Ew.
      destruct (Sl slot Hs) as [(K & Old)|(e & K & Hm & He & Kw & New)].
      * left. split; [done|]. intros e x [[= -> ->]|H]%elem_of_cons Hm; [congruence|eauto].
      * right. exists e. rewrite sum_at_cons, (proj2 (Z.eqb_neq now e)) by congruence.
        split_and!; try done; try lia. intros e' x [[= -> ->]|H]%elem_of_cons Hm' Hf'; [congruence|eauto].
Qed.

(** The second a slot holds is the current one, or nothing was granted in it. *)
Lemma slot_now h last floor log now : slot_ok h last floor log (now mod 60) -> log_ok last log ->
  last <= now -> floor <= now - 60 ->
  (h !! f_epoch (now mod 60) = Some (str_int now) /\
   h !! f_weight (now mod 60) = Some (str_int (sum_at now log))) \/
  (h !! f_epoch (now mod 60) ≫= tonumber <> Some now /\ sum_at now log = 0).
Proof.
  intros Sl Ok Hl Hf. destruct Sl as [(K & Old)|(e & K & Hm & He & Kw & New)]; rewrite K; cbn [mbind option_bind].
  - right. split; [done|]. apply sum_at_zero. intros w Hp. pose proof (Old now w Hp eq_refl). lia.
  - destruct (decide (e = now)) as [->|N]; [by left|].
    right. rewrite tonumber_str_int. split; [congruence|]. apply sum_at_zero. intros w Hp.
    pose proof (New now w Hp eq_refl ltac:(lia)). lia.
Qed.

Lemma HSET_hash (k f v : text) (s : redis) (h : by_text text) x : s !! k = Some (mkEntry (VHash h) x) ->
  HSET k [(f, v)] s = (Ok tt, <[k := mkEntry (VHash (<[f := v]> h)) x]> s).
Proof. unfold HSET. by intros ->. Qed.
Lemma HSET_absent (k f v : text) (s : redis) : s !! k = None ->
  HSET k [(f, v)] s = (Ok tt, <[k := mkEntry (VHash {[f := v]}) None]> s).
Proof. unfold HSET. by intros ->. Qed.
Lemma EXPIRE_run (now : Z) (k : text) (ttl : Z) (s : redis) v x : 0 < ttl ->
  EXPIRE now k ttl (<[k := mkEntry v x]> s) = (Ok tt, <[k := mkEntry v (Some (now + ttl * 1000))]> s).
Proof.
  intros H. unfold EXPIRE, PEXPIRE, PEXPIREAT. rewrite (proj2 (Z.leb_gt _ _)) by lia.
  by rewrite alter_insert_eq.
Qed.

(** The last writes of an addition. *)
Lemma ring_add_tail (ms : Z) (k : text) (now : Z) (s : redis) (h : by_text text) x :
  (_ ← HSET k [(f_last_epoch, str_int now)]; EXPIRE ms k 70) (<[k := mkEntry (VHash h) x]> s)
  = (Ok tt, <[k := mkEntry (VHash (<[f_last_epoch := str_int now]> h)) (Some (ms + 70000))]> s).
Proof.
  erewrite script_bind_eq by (eapply HSET_hash; by rewrite lookup_insert_eq).
  rewrite insert_insert_eq. by rewrite EXPIRE_run.
Qed.

Lemma ring_add_absent (ms : Z) (k : text) (now w : Z) (s : redis) : s !! k = None ->
  ring_add ms k now w 70 s =
    (Ok tt, <[k := mkEntry (VHash (added ∅ now w)) (Some (ms + 70000))]> s).
Proof.
  intros K. unfold ring_add. cbv zeta. erewrite script_bind_eq by (by apply hget_absent).
  rewrite bool_decide_false by done.
  erewrite script_bind_eq; [apply ring_add_tail|].
  erewrite script_bind_eq by (by apply HSET_absent).
  erewrite HSET_hash by (by rewrite lookup_insert_eq). rewrite insert_insert_eq.
  by rewrite <-insert_empty.
Qed.

Lemma ring_add_new (ms : Z) (k : text) (now w : Z) (s : redis) (h : by_text text) x :
  s !! k = Some (mkEntry (VHash h) x) -> h !! f_epoch (now mod 60) ≫= tonumber <> Some now ->
  ring_add ms k now w 70 s =
    (Ok tt, <[k := mkEntry (VHash (added h now w)) (Some (ms + 70000))]> s).
Proof.
  intros K N. unfold ring_add. cbv zeta. erewrite script_bind_eq by (by eapply hget_hash).
  rewrite bool_decide_false by done.
  erewrite script_bind_eq; [apply ring_add_tail|].
  erewrite script_bind_eq by (by eapply HSET_hash).
  erewrite HSET_hash by (by rewrite lookup_insert_eq). by rewrite insert_insert_eq.
Qed.

Lemma ring_add_more (ms : Z) (k : text) (now w old : Z) (s : redis) (h : by_text text) x :
  s !! k = Some (mkEntry (VHash h) x) -> h !! f_epoch (now mod 60) = Some (str_int now) ->
  h !! f_weight (now mod 60) = Some (str_int old) -> in_int64 old = true -> in_int64 (old + w) = true ->
  ring_add ms k now w 70 s =
    (Ok tt, <[k := mkEntry (VHash (added h now (w + old))) (Some (ms + 70000))]> s).
Proof.
  intros K E W I1 I2. unfold ring_add. cbv zeta. erewrite script_bind_eq by (by eapply hget_hash).
  rewrite E. cbn [mbind option_bind]. rewrite tonumber_str_int, bool_decide_true by done.
  assert (H : HINCRBY k (f_weight (now mod 60)) w s =
    (Ok (old + w), <[k := mkEntry (VHash (<[f_weight (now mod 60) := str_int (old + w)]> h)) x]> s))
    by (unfold HINCRBY; rewrite K, W, tonumber_str_int, I1, I2; done).
  erewrite script_bind_eq by (by erewrite script_bind_eq by exact H).
  rewrite ring_add_tail. do 5 f_equal. unfold added. f_equal.
  rewrite (insert_id _ (f_epoch _)) by done. by rewrite Z.add_comm.
Qed.


Definition exact : Z := 2 ^ 53.

Lemma used_nonneg now log last : log_ok last log -> 0 <= used now log.
Proof.
  intros Ok. apply sumZ_nonneg, Forall_fmap, Forall_forall. intros [e w] [Hp _]%filter_in. by destruct (Ok e w).
Qed.
Lemma sum_at_used now log last : log_ok last log -> 0 <= sum_at now log <= used now log.
Proof.
  intros Ok. split.
  - apply sumZ_nonneg, Forall_fmap, Forall_forall. intros [e w] [Hp _]%filter_in. by destruct (Ok e w).
  - unfold sum_at, used. induction log as [|[e w] log IH]; [done|]. cbn [List.filter fst].
    assert (Ok' : log_ok last log) by (intros e' w' H'; apply Ok; by right). specialize (IH Ok').
    destruct (Ok e w) as [_ Hw]; [left|]. destruct (Z.eqb_spec e now) as [->|].
    + assert (in_window now (now, w) = true) as ->
        by (unfold in_window; simpl; apply andb_true_iff; rewrite !Z.leb_le; lia).
      unfold sumZ in *. cbn [fmap list_fmap foldr snd]. lia.
    + destruct (in_window now (e, w)); [|done]. unfold sumZ in *. cbn [fmap list_fmap foldr snd]. lia.
Qed.

(** An addition keeps the ring following the log. *)
Lemma ring_add_run (ms : Z) (k : text) (now w : Z) (s : redis) (log : cost_log) :
  key_ring s k now log -> now * 1000 <= ms -> 0 <= w -> used now log + w < exact ->
  exists e, ring_add ms k now w 70 s = (Ok tt, <[k := e]> s) /\
    key_ring (<[k := e]> s) k now ((now, w) :: log).
Proof.
  intros (last & floor & Hl & Hf & Ok & Hk) Hms Hw Hu.
  assert (Ok' : log_ok now ((now, w) :: log)).
  { intros e x [[= -> ->]|H]%elem_of_cons; [done|]. destruct (Ok e x H). lia. }
  assert (Fin : forall h, log_ok last log -> (forall slot, 0 <= slot < 60 -> slot_ok h last floor log slot) ->
    key_ring (<[k := mkEntry (VHash (added h now (w + sum_at now log))) (Some (ms + 70000))]> s) k now
      ((now, w) :: log)).
  { intros h _ Sl. exists now, floor. split_and!; [done|done|done|]. right. eexists _, _.
    split; [by rewrite lookup_insert_eq|]. split; [by eapply added_ring|lia]. }
  destruct Hk as [[K Old]|(h & d & K & [Rl _ Sl] & _)].
  - eexists. split; [by apply ring_add_absent|].
    assert (Z0 : sum_at now log = 0) by (apply sum_at_zero; intros x Hx; pose proof (Old now x Hx); lia).
    replace (added ∅ now w) with (added ∅ now (w + sum_at now log)) by (f_equal; lia).
    apply Fin; [done|]. intros slot _. left. split; [by rewrite lookup_empty|]. intros e x Hx _. eauto.
  - pose proof (sum_at_used now log last Ok) as Hs. unfold exact in Hu.
    assert (Sn : slot_ok h last floor log (now mod 60))
      by (apply Sl; apply Z.mod_pos_bound; lia).
    destruct (slot_now h last floor log now Sn Ok Hl Hf) as [[E W]|[N Z0]].
    + eexists. split; [|by apply Fin]. eapply ring_add_more; try done;
        unfold in_int64; apply andb_true_iff; rewrite Z.leb_le, Z.ltb_lt; lia.
    + eexists. split; [by eapply ring_add_new|].
      replace (added h now w) with (added h now (w + sum_at now log)) by (f_equal; lia). by apply Fin.
Qed.

(** ** The cutover marker and the counters of version 1 *)

(** The stored fence of the marker. *)
Definition fence_of (s : redis) (marker : text) (fence : Z) : Prop :=
  exists h x, s !! marker = Some (mkEntry (VHash h) x) /\ h !! tx "fence_time" ≫= tonumber = Some fence.

Definition active_marker (s : redis) (marker : text) : Prop :=
  exists h x, s !! marker = Some (mkEntry (VHash h) x) /\ h !! tx "state" = Some (tx "active_v2").

(** Once version 1 is fenced, it counts nothing after the fence. *)
Definition v1_frozen (s : redis) (marker key : text) : Prop :=
  forall fence h x, fence_of s marker fence -> s !! key = Some (mkEntry (VHash h) x) ->
    forall e, fence < e -> h !! str_int e = None.

Lemma marker_run (marker : text) (now : Z) (s : redis) :
  exists r, marker_refusal marker now s = (Ok r, s) /\
    match r with
    | Some code => code < 0
    | None => active_marker s marker /\ exists fence, fence_of s marker fence /\ fence + 65 <= now
    end.
Proof.
  unfold marker_refusal. erewrite script_bind_eq by reflexivity.
  destruct (s !! marker) as [[[v|h|z] x]|] eqn:K; cbn [fmap option_fmap option_map en_value];
    [by exists (Some (-2))| |by exists (Some (-2))|by exists (Some (-3))].
  unfold hget_number.
  erewrite !script_bind_eq by (first [by eapply HGET_hash | by unfold HLEN; rewrite K
    | by erewrite script_bind_eq by (by eapply HGET_hash)]).
  eexists. split; [reflexivity|]. destruct (_ && _) eqn:C; [|done].
  apply andb_true_iff in C as [C1 C].
  destruct (h !! tx "fence_time" ≫= tonumber) as [fence|] eqn:F; [|done].
  destruct (h !! tx "not_before" ≫= tonumber) as [nb|]; [|done]. bool_prop.
  split; [by exists h, x|]. exists fence. split; [by exists h, x|lia].
Qed.

Lemma v1_past_none (k : text) (total : Z) es (s : redis) (h : by_text text) x :
  s !! k = Some (mkEntry (VHash h) x) -> (forall e, e ∈ es -> h !! str_int e = None) ->
  v1_past k total es s = (Ok (Some total), s).
Proof.
  intros K. induction es as [|e es IH]; intros H; cbn [v1_past]; [done|].
  erewrite script_bind_eq by (by eapply HGET_hash). rewrite H by left. apply IH.
  intros e' He. apply H. by right.
Qed.

Lemma v1_future_none (k : text) es (s : redis) (h : by_text text) x :
  s !! k = Some (mkEntry (VHash h) x) -> (forall e, e ∈ es -> h !! str_int e = None) ->
  v1_future k es s = (Ok false, s).
Proof.
  intros K. induction es as [|e es IH]; intros H; cbn [v1_future]; [done|].
  erewrite script_bind_eq by (by eapply HGET_hash). rewrite H by left. apply IH.
  intros e' He. apply H. by right.
Qed.

(** From 65 seconds after the fence on, version 1 counts nothing. *)
Lemma v1_active_run (marker k : text) (now fence : Z) (s : redis) :
  v1_frozen s marker k -> fence_of s marker fence -> fence + 65 <= now ->
  exists v, v1_active k now s = (Ok v, s) /\ (v = None \/ v = Some 0).
Proof.
  intros Fr F Hn. unfold v1_active. erewrite script_bind_eq by reflexivity.
  destruct (s !! k) as [[[y|h|z] x]|] eqn:K; cbn [fmap option_fmap option_map en_value];
    [exists None; by auto| |exists None; by auto|exists (Some 0); by auto].
  assert (N : forall e, now - 59 <= e -> h !! str_int e = None)
    by (intros e He; apply (Fr fence h x F K); lia).
  erewrite script_bind_eq by (eapply v1_past_none; [done|]; intros e [He _]%range_in; by apply N).
  cbv beta iota. erewrite script_bind_eq by (eapply v1_future_none; [done|]; intros e [He _]%range_in; apply N; lia).
  exists (Some 0). auto.
Qed.

(** ** One run of the script *)

Record cost := mkCost { c_now : Z; c_rec : Z; c_seg : Z; c_rec_limit : Z; c_seg_limit : Z }.

Definition second (c : cost) : Z := c_now c / 1000000.

Definition fits (c : cost) (recs segs : cost_log) : bool :=
  (used (second c) recs + c_rec c <=? c_rec_limit c) && (used (second c) segs + c_seg c <=? c_seg_limit c).

Definition weighted (ks : cost_keys) (c : cost) : script Z :=
  WEIGHTED_WINDOW_LUA (c_now c) ks WRITER_CUTOVER_MARKER_KEY (c_rec_limit c) (c_rec c)
    (c_seg_limit c) (c_seg c) COST_BUCKET_TTL_SECONDS.

Definition cost_ok (c : cost) : Prop :=
  1 <= c_rec c /\ 1 <= c_seg c /\ 1 <= c_rec_limit c < exact /\ 1 <= c_seg_limit c < exact.

Lemma last_epoch_run (k : text) (now : Z) (s : redis) (log : cost_log) : key_ring s k now log ->
  exists l, hget_number k f_last_epoch s = (Ok l, s) /\
    match l with Some l => if now <? l then l else now | None => now end = now.
Proof.
  intros (last & floor & Hl & _ & _ & [[K _]|(h & d & K & [R _ _] & _)]).
  - exists None. by rewrite hget_absent.
  - exists (Some last). erewrite hget_hash by done. rewrite R. cbn [mbind option_bind].
    rewrite tonumber_str_int. by rewrite (proj2 (Z.ltb_ge _ _) Hl).
Qed.

Lemma key_ring_other (s : redis) (k k' : text) e now log : k <> k' ->
  key_ring s k now log -> key_ring (<[k' := e]> s) k now log.
Proof. intros N. unfold key_ring. by rewrite lookup_insert_ne. Qed.

Lemma weighted_run (ks : cost_keys) (c : cost) (s : redis) (recs segs : cost_log) :
  k_rec ks <> k_seg ks -> cost_ok c ->
  key_ring s (k_rec ks) (second c) recs -> key_ring s (k_seg ks) (second c) segs ->
  v1_frozen s WRITER_CUTOVER_MARKER_KEY (k_v1_rec ks) ->
  v1_frozen s WRITER_CUTOVER_MARKER_KEY (k_v1_seg ks) ->
  exists code s', weighted ks c s = (Ok code, s') /\
    ((code < 0 /\ s' = s) \/
     (fits c recs segs = false /\ code = 0 /\ s' = s) \/
     (fits c recs segs = true /\ code = 1 /\
      key_ring s' (k_rec ks) (second c) ((second c, c_rec c) :: recs) /\
      key_ring s' (k_seg ks) (second c) ((second c, c_seg c) :: segs))).
Proof.
  intros Ne (Hr & Hs & Lr & Ls) Kr Ks Fr Fs. unfold weighted, WEIGHTED_WINDOW_LUA. cbv zeta.
  fold (second c). destruct (last_epoch_run _ _ _ _ Kr) as (l & El & Hl).
  rewrite (script_bind_eq _ _ _ _ _ El), Hl. clear l El Hl.
  destruct (marker_run WRITER_CUTOVER_MARKER_KEY (second c) s) as (r & Em & Hm).
  rewrite (script_bind_eq _ _ _ _ _ Em). destruct r as [code|]; [exists code, s; by auto|].
  destruct Hm as (_ & fence & F & Hf).
  rewrite (script_bind_eq _ _ _ _ _ (ring_total_run _ _ _ _ Kr)).
  rewrite (script_bind_eq _ _ _ _ _ (ring_total_run _ _ _ _ Ks)).
  destruct (v1_active_run _ _ _ _ _ Fr F Hf) as (v & Ev & Hv).
  destruct (v1_active_run _ _ _ _ _ Fs F Hf) as (v' & Ev' & Hv').
  rewrite (script_bind_eq _ _ _ _ _ Ev), (script_bind_eq _ _ _ _ _ Ev').
  destruct Hv as [-> | ->], Hv' as [-> | ->]; try (exists (-2), s; split; [done|by left]).
  assert (Pr : 0 <= used (second c) recs) by (destruct Kr as (? & ? & _ & _ & Ok & _); by eapply used_nonneg).
  assert (Ps : 0 <= used (second c) segs) by (destruct Ks as (? & ? & _ & _ & Ok & _); by eapply used_nonneg).
  cbv beta iota. rewrite !(proj2 (Z.ltb_ge _ _) Pr), !(proj2 (Z.ltb_ge _ _) Ps).
  unfold fits. rewrite !Z.leb_antisym.
  destruct (Z.ltb_spec (c_rec_limit c) (used (second c) recs + c_rec c)) as [Xr|Xr];
    [exists 0, s; split; [done|by right; left]|].
  destruct (Z.ltb_spec (c_seg_limit c) (used (second c) segs + c_seg c)) as [Xs|Xs];
    [exists 0, s; split; [done|by right; left]|].
  assert (Ms : second c * 1000 <= clock_ms (c_now c)).
  { rewrite clock_ms_div. unfold second. change 1000000 with (1000 * 1000). rewrite <-Z.div_div by lia.
    pose proof (Z.div_mod (c_now c / 1000) 1000 ltac:(lia)).
    pose proof (Z.mod_pos_bound (c_now c / 1000) 1000 ltac:(lia)). lia. }
  destruct (ring_add_run (clock_ms (c_now c)) (k_rec ks) (second c) (c_rec c) s recs Kr Ms
              ltac:(lia) ltac:(lia)) as (e1 & A1 & K1).
  assert (Ks1 : key_ring (<[k_rec ks := e1]> s) (k_seg ks) (second c) segs)
    by (apply key_ring_other; [congruence|done]).
  destruct (ring_add_run (clock_ms (c_now c)) (k_seg ks) (second c) (c_seg c) _ segs Ks1 Ms
              ltac:(lia) ltac:(lia)) as (e2 & A2 & K2).
  unfold COST_BUCKET_TTL_SECONDS.
  rewrite (script_bind_eq _ _ _ _ _ A1), (script_bind_eq _ _ _ _ _ A2). eexists 1, _. split; [done|].
  right; right. split_and!; try done. by apply key_ring_other.
Qed.


(** ** Runs of the cost limiter *)

(** A request, how its call ended, its answer and whether the script granted it. *)
Record charge := mkCharge { ch_cost : cost; ch_link : link; ch_answer : result exc unit; ch_granted : bool }.

Record cost_state := mkCosts { cs_now : Z; cs_db : redis; cs_history : list charge }.

Definition log_of (weight : cost -> Z) (h : list charge) : cost_log :=
  (fun x => (second (ch_cost x), weight (ch_cost x))) <$> List.filter ch_granted h.

Definition script_grants (ks : cost_keys) (c : cost) (l : link) (s : redis) : bool :=
  match l, fst (weighted ks c s) with
  | Down, _ => false
  | _, Ok code => code =? 1
  | _, Raise _ => false
  end.

(** The clock does not run backwards. *)
Inductive cost_step (app : Z) (w : cost_state) : cost_state -> Prop :=
| cs_request c l a s' :
    cs_now w <= c_now c -> cost_ok c ->
    v1_frozen (cs_db w) WRITER_CUTOVER_MARKER_KEY (k_v1_rec (keys_of app)) ->
    v1_frozen (cs_db w) WRITER_CUTOVER_MARKER_KEY (k_v1_seg (keys_of app)) ->
    consume_send_cost (c_now c) l app (c_rec c) (c_seg c) (c_rec_limit c) (c_seg_limit c) (cs_db w)
      = (a, s') ->
    cost_step app w (mkCosts (c_now c) s'
      (mkCharge c l a (script_grants (keys_of app) c l (cs_db w)) :: cs_history w))
| cs_expire now k s' :
    cs_now w <= now -> k ∈ [k_rec (keys_of app); k_seg (keys_of app)] ->
    expire (clock_ms now) k (cs_db w) s' -> cost_step app w (mkCosts now s' (cs_history w))
| cs_other now s' :
    cs_now w <= now ->
    (forall k, k ∈ [k_rec (keys_of app); k_seg (keys_of app)] -> s' !! k = cs_db w !! k) ->
    cost_step app w (mkCosts now s' (cs_history w)).

(** *** What is promised *)

Definition charged_as_promised (x : charge) (older : list charge) : Prop :=
  let ok := fits (ch_cost x) (log_of c_rec older) (log_of c_seg older) in
  (ch_answer x = Ok tt /\ ch_granted x = true /\ ok = true) \/
  (ch_answer x = Raise ApplicationRateLimitExceeded /\ ch_granted x = false /\ ok = false) \/
  (ch_answer x = Raise ControlPlaneUnavailable /\ (ch_granted x = true -> ch_link x = Lost /\ ok = true)).

Fixpoint all_as_promised (h : list charge) : Prop :=
  match h with
  | [] => True
  | x :: older => charged_as_promised x older /\ all_as_promised older
  end.

Definition cost_inv (app : Z) (w : cost_state) : Prop :=
  all_as_promised (cs_history w) /\
  key_ring (cs_db w) (k_rec (keys_of app)) (cs_now w / 1000000) (log_of c_rec (cs_history w)) /\
  key_ring (cs_db w) (k_seg (keys_of app)) (cs_now w / 1000000) (log_of c_seg (cs_history w)).

Lemma key_ring_later (s : redis) (k : text) (now t : Z) log : now <= t -> key_ring s k now log -> key_ring s k t log.
Proof.
  intros Ht (last & floor & Hl & Hf & Ok & K). exists last, floor. split_and!; try done; lia.
Qed.

(** From the deadline on nothing of the log is in the window. *)
Lemma key_ring_expired (s s' : redis) (k : text) (now : Z) log :
  key_ring s k (now / 1000000) log -> expire (clock_ms now) k s s' -> key_ring s' k (now / 1000000) log.
Proof.
  intros (last & floor & Hl & Hf & Ok & K) [e d Hk He Hd].
  destruct K as [[K _]|(h & d' & K & R & D)]; rewrite Hk in K; [done|]. injection K as ->. injection He as ->.
  assert (last <= now / 1000000 - 60).
  { rewrite clock_ms_div in Hd. change 1000000 with (1000 * 1000). rewrite <-Z.div_div by lia.
    pose proof (Z.div_mod (now / 1000) 1000 ltac:(lia)).
    pose proof (Z.mod_pos_bound (now / 1000) 1000 ltac:(lia)). lia. }
  exists last, last. split_and!; try done. left. split; [by rewrite lookup_delete_eq|].
  intros e w H'. by destruct (Ok e w H').
Qed.

Lemma keys_distinct app : k_rec (keys_of app) <> k_seg (keys_of app).
Proof. unfold keys_of. cbn [k_rec k_seg]. intros H%app_inv_head. done. Qed.

Lemma cost_request app w c l a s' : cost_inv app w -> cs_now w <= c_now c -> cost_ok c ->
  v1_frozen (cs_db w) WRITER_CUTOVER_MARKER_KEY (k_v1_rec (keys_of app)) ->
  v1_frozen (cs_db w) WRITER_CUTOVER_MARKER_KEY (k_v1_seg (keys_of app)) ->
  consume_send_cost (c_now c) l app (c_rec c) (c_seg c) (c_rec_limit c) (c_seg_limit c) (cs_db w) = (a, s') ->
  cost_inv app (mkCosts (c_now c) s'
    (mkCharge c l a (script_grants (keys_of app) c l (cs_db w)) :: cs_history w)).
Proof.
  intros (P & Kr & Ks) Ht Ok Fr Fs H.
  assert (Ht' : cs_now w / 1000000 <= second c) by (apply Z.div_le_mono; lia).
  apply (key_ring_later _ _ _ _ _ Ht') in Kr, Ks.
  destruct (weighted_run (keys_of app) c _ _ _ (keys_distinct app) Ok Kr Ks Fr Fs) as (code & s1 & E & R).
  unfold consume_send_cost in H. destruct Ok as (O1 & O2 & [O3 _] & [O4 _]).
  rewrite (proj2 (Z.ltb_ge _ _) O1), (proj2 (Z.ltb_ge _ _) O2), (proj2 (Z.ltb_ge _ _) O3),
    (proj2 (Z.ltb_ge _ _) O4) in H. cbn [orb] in H. fold (weighted (keys_of app) c) in H.
  set (x := mkCharge c l a (script_grants (keys_of app) c l (cs_db w))).
  assert (Xc : ch_cost x = c) by done. assert (Xl : ch_link x = l) by done.
  assert (Xa : ch_answer x = a) by done.
  assert (Skip : ch_granted x = false -> s' = cs_db w -> charged_as_promised x (cs_history w) ->
    cost_inv app (mkCosts (c_now c) s' (x :: cs_history w))).
  { intros G -> C. unfold cost_inv, log_of. cbn [cs_history cs_db cs_now List.filter]. by rewrite G. }
  assert (G : l <> Down -> ch_granted x = (code =? 1))
    by (intros N; simpl; unfold script_grants; rewrite E; by destruct l).
  destruct (decide (l = Down)) as [->|Nd].
  { injection H as <- <-. apply Skip; [done|done|]. right; right. by split. }
  specialize (G Nd). unfold eval in H. rewrite E in H.
  assert (A : s' = s1 /\ a = match l with
    | Up => if code <? 0 then Raise ControlPlaneUnavailable
            else if code =? 0 then Raise ApplicationRateLimitExceeded else Ok tt
    | _ => Raise ControlPlaneUnavailable end) by (destruct l; [|..]; by injection H as <- <-).
  destruct A as [-> Ha].
  destruct R as [[Hc ->]|[(Hf & -> & ->)|(Hf & -> & Kr' & Ks')]].
  - apply Skip; [rewrite G; apply Z.eqb_neq; lia|done|]. right; right.
    split; [|rewrite G, Z.eqb_eq; lia]. rewrite Xa, Ha, (proj2 (Z.ltb_lt _ _) Hc). by destruct l.
  - apply Skip; [done|done|]. unfold charged_as_promised. rewrite G, Xa, Xc, Ha.
    destruct l; [right; left; by split_and!|right; right; by split|done].
  - unfold cost_inv, log_of. cbn [cs_history cs_db cs_now List.filter]. rewrite G. split_and!; try done.
    split; [|done]. unfold charged_as_promised. rewrite G, Xa, Xc, Xl, Ha.
    destruct l; [left; by split_and!|right; right; by split_and!|done].
Qed.

Lemma cost_preserved app w w' : cost_inv app w -> cost_step app w w' -> cost_inv app w'.
Proof.
  intros J St. destruct St as [c l a s' Ht Ok Fr Fs H|now k s' Ht Hk Ex|now s' Ht K].
  - by apply cost_request.
  - destruct J as (P & Kr & Ks). assert (Ht' : cs_now w / 1000000 <= now / 1000000) by (apply Z.div_le_mono; lia).
    apply (key_ring_later _ _ _ _ _ Ht') in Kr, Ks. split; [done|].
    pose proof (keys_distinct app) as Ne.
    assert (D : forall k', k' <> k -> s' !! k' = cs_db w !! k')
      by (intros k' N; destruct Ex; by rewrite lookup_delete_ne).
    elem_inv Hk; subst k; split.
    + by eapply key_ring_expired.
    + unfold key_ring in *. cbn [cs_db cs_now cs_history]. by rewrite D.
    + unfold key_ring in *. cbn [cs_db cs_now cs_history]. by rewrite D.
    + by eapply key_ring_expired.
  - destruct J as (P & Kr & Ks). assert (Ht' : cs_now w / 1000000 <= now / 1000000) by (apply Z.div_le_mono; lia).
    apply (key_ring_later _ _ _ _ _ Ht') in Kr, Ks. split; [done|].
    unfold key_ring in *. cbn [cs_db cs_now cs_history]. rewrite !K by set_solver. done.
Qed.


(** *** At most the limit in any minute *)

Lemma used_le t now log : log_ok now log -> now <= t -> used t log <= used now log.
Proof.
  intros Ok Ht. induction log as [|[e w] log IH]; [done|].
  assert (Ok' : log_ok now log) by (intros e' w' H'; apply Ok; by right). specialize (IH Ok').
  destruct (Ok e w) as [He Hw]; [left|]. unfold used in *. cbn [List.filter].
  destruct (in_window t (e, w)) eqn:W.
  - assert (in_window now (e, w) = true) as ->.
    { unfold in_window in *. simpl in *. bool_prop. apply andb_true_iff. rewrite !Z.leb_le. lia. }
    unfold sumZ in *. cbn [fmap list_fmap foldr snd]. lia.
  - destruct (in_window now (e, w)); [|done]. unfold sumZ in *. cbn [fmap list_fmap foldr snd]. lia.
Qed.

Lemma used_cons_bound L now w log : log_ok now log -> 0 <= w -> used now log + w <= L ->
  (forall t, used t log <= L) -> forall t, used t ((now, w) :: log) <= L.
Proof.
  intros Ok Hw Hu IH t. unfold used. cbn [List.filter]. destruct (in_window t (now, w)) eqn:W; [|apply IH].
  cbn [fmap list_fmap snd]. change (w + used t log <= L).
  unfold in_window in W. simpl in W. bool_prop. pose proof (used_le t now log Ok ltac:(done)). lia.
Qed.

Definition costs_at_most (limit : cost -> Z) (L : Z) (h : list charge) : Prop :=
  Forall (fun x => limit (ch_cost x) <= L) h.

Definition minutes_bounded (h : list charge) : Prop :=
  (forall L t, 0 <= L -> costs_at_most c_rec_limit L h -> used t (log_of c_rec h) <= L) /\
  (forall L t, 0 <= L -> costs_at_most c_seg_limit L h -> used t (log_of c_seg h) <= L).

(** A granted charge fits, so that its minute stays within the limit. *)
Lemma bounded_charge weight limit x h :
  (ch_granted x = true -> log_ok (second (ch_cost x)) (log_of weight h) /\ 0 <= weight (ch_cost x) /\
     used (second (ch_cost x)) (log_of weight h) + weight (ch_cost x) <= limit (ch_cost x)) ->
  (forall L t, 0 <= L -> costs_at_most limit L h -> used t (log_of weight h) <= L) ->
  forall L t, 0 <= L -> costs_at_most limit L (x :: h) -> used t (log_of weight (x :: h)) <= L.
Proof.
  intros G IH L t HL HF. apply Forall_cons in HF as [Hl HF]. cbv beta in Hl. unfold log_of. cbn [List.filter].
  destruct (ch_granted x); [|by apply IH]. destruct (G eq_refl) as (Ok & Hw & Hu).
  cbn [fmap list_fmap]. fold (log_of weight h). apply used_cons_bound; [done|done|lia|]. intros t'. by apply IH.
Qed.

Lemma key_ring_log_ok (s : redis) k now log : key_ring s k now log -> log_ok now log.
Proof.
  intros (last & floor & Hl & _ & Ok & _) e w H. destruct (Ok e w H). lia.
Qed.

Lemma bounded_preserved app w w' : cost_inv app w /\ minutes_bounded (cs_history w) ->
  cost_step app w w' -> cost_inv app w' /\ minutes_bounded (cs_history w').
Proof.
  intros [J B] St. split; [by eapply cost_preserved|].
  destruct St as [c l a s' Ht Ok Fr Fs H|now k s' Ht Hk Ex|now s' Ht K]; [|done|done].
  pose proof (cost_request app w c l a s' J Ht Ok Fr Fs H) as ((P & _) & _).
  destruct J as (_ & Kr & Ks). assert (Ht' : cs_now w / 1000000 <= second c) by (apply Z.div_le_mono; lia).
  apply (key_ring_later _ _ _ _ _ Ht') in Kr, Ks. apply key_ring_log_ok in Kr, Ks.
  destruct Ok as (O1 & O2 & _). destruct B as [Br Bs].
  assert (F : script_grants (keys_of app) c l (cs_db w) = true ->
    fits c (log_of c_rec (cs_history w)) (log_of c_seg (cs_history w)) = true).
  { intros G. unfold charged_as_promised in P. simpl in P. rewrite G in P. naive_solver. }
  unfold fits in F. cbn [cs_history].
  split; apply bounded_charge; try done; simpl; intros G; specialize (F G); bool_prop; split_and!; try done; lia.
Qed.

(** *** A concrete run: a hundred recipients a minute *)

Definition example_marker : by_text text := list_to_map
  [(tx "schema_version", tx "1"); (tx "generation", tx "3"); (tx "target_writer_version", tx "2");
   (tx "minimum_writer_version", tx "2"); (tx "fence_time", tx "100"); (tx "not_before", tx "165");
   (tx "state", tx "active_v2"); (tx "release_binding", tx "r"); (tx "admission_reason", tx "writer_cutover");
   (tx "window_seconds", tx "60"); (tx "safety_margin_seconds", tx "5")].
Definition example_costs : cost_state :=
  mkCosts 0 {[WRITER_CUTOVER_MARKER_KEY := mkEntry (VHash example_marker) None]} [].

Definition charge_step (app : Z) (x : cost * link) (w : cost_state) : cost_state :=
  let '(c, l) := x in
  let a := consume_send_cost (c_now c) l app (c_rec c) (c_seg c) (c_rec_limit c) (c_seg_limit c) (cs_db w) in
  mkCosts (c_now c) (snd a)
    (mkCharge c l (fst a) (script_grants (keys_of app) c l (cs_db w)) :: cs_history w).

Lemma charge_step_steps app c l w :
  cs_now w <= c_now c -> cost_ok c -> cs_db w !! k_v1_rec (keys_of app) = None ->
  cs_db w !! k_v1_seg (keys_of app) = None -> cost_step app w (charge_step app (c, l) w).
Proof.
  intros Ht Ok N1 N2. apply cs_request; try done; [| |apply surjective_pairing];
    intros f h x _ K; congruence.
Qed.

Definition example_charges : cost_state :=
  foldr (charge_step 7) example_costs
    [(mkCost 261000000 60 60 100 500, Up); (mkCost 202000000 50 50 100 500, Up);
     (mkCost 201000000 40 40 100 500, Lost); (mkCost 200000000 50 50 100 500, Up);
     (mkCost 150000000 50 50 100 500, Up)].

(** ** The properties *)

(** C28: the cost limiter is a log of the last sixty seconds.  Once the earlier
    version is fenced and while the clock does not run backwards, for any
    sequence of requests of one application, with lost answers, expiry of its keys at any time after their deadlines and
    anything happening to other keys, a cost is accepted exactly when the
    recipients and the segments granted in the sixty seconds up to its own leave
    room for it, refused when they do not, and an unavailable control plane
    grants nothing but through a lost answer; and in any sixty seconds at most
    the limits were granted. *)
Theorem cost_window_exact app w0 w :
  cs_db w0 !! k_rec (keys_of app) = None -> cs_db w0 !! k_seg (keys_of app) = None ->
  cs_history w0 = [] -> rtc (cost_step app) w0 w ->
  all_as_promised (cs_history w) /\ minutes_bounded (cs_history w).
Proof.
  intros Kr Ks H R.
  assert (J : cost_inv app w /\ minutes_bounded (cs_history w)).
  { apply (rtc_invariant (cost_step app) (fun w => cost_inv app w /\ minutes_bounded (cs_history w))
             (bounded_preserved app) w0 w R).
    unfold cost_inv, minutes_bounded. rewrite H. split_and!; try (by intros L t HL _); try done;
      exists (cs_now w0 / 1000000), (cs_now w0 / 1000000 - 60); split_and!; try lia;
      first [by intros e x Hx%elem_of_nil | left; split; [done|by intros e x Hx%elem_of_nil]]. }
  destruct J as [(P & _) B]. by split.
Qed.

Lemma cost_window_exact_witness :
  (fun x => (ch_answer x, ch_granted x)) <$> cs_history example_charges =
    [(Ok tt, true); (Raise ApplicationRateLimitExceeded, false); (Raise ControlPlaneUnavailable, true);
     (Ok tt, true); (Raise ControlPlaneUnavailable, false)] /\
  used 261 (log_of c_rec (cs_history example_charges)) <= 100.
Proof.
  split; [vm_compute; reflexivity|].
  refine (proj1 (proj2 (cost_window_exact 7 example_costs example_charges eq_refl eq_refl eq_refl _))
            100 261 _ _); [|done|].
  - unfold example_charges. cbn [foldr].
    do 5 (eapply rtc_r; [|apply charge_step_steps; vm_compute; done]). constructor.
  - by repeat constructor.
Defined.
End CostWindow.
