(* ===== verification/Cutover.v ===== *)
(** * The cutover of the cost counters ([services/app_ratelimit_cutover.py])

    One marker in the control Redis says which version of the service counts
    costs.  An operator's run closes admission, isolates the old writers, fences
    them, waits until the old window is over and activates the new version; each
    step is one compare-and-set on the marker, so that runs may be repeated,
    resumed and taken over by others.

    The file holds the script, the marker and its parser, and the run as a
    program over the calls it makes. *)

From S2P Require Import Prelude PyText Redis AppRateLimit Effects.

Module Cutover.
Import Redis AppRateLimit.

(** ** The marker *)

Definition CUTOVER_MARKER_KEY : text := WRITER_CUTOVER_MARKER_KEY.
Definition CUTOVER_SCHEMA_VERSION : Z := 1.
Definition WRITER_PROTOCOL_VERSION : Z := 2.
Definition CUTOVER_SAFETY_MARGIN_SECONDS : Z := 5.
Definition CUTOVER_ADMISSION_REASON : text := tx "writer_cutover".

Inductive CutoverState :=
| preparing | old_writers_fenced | waiting_window | active_v2 | active_v1 | aborted_closed.
#[export] Instance cutover_state_eq_dec : EqDecision CutoverState.
Proof. solve_decision. Defined.

Definition CUTOVER_STATES : list CutoverState :=
  [preparing; old_writers_fenced; waiting_window; active_v2; active_v1; aborted_closed].
Definition state_text (s : CutoverState) : text :=
  match s with
  | preparing => tx "preparing" | old_writers_fenced => tx "old_writers_fenced"
  | waiting_window => tx "waiting_window" | active_v2 => tx "active_v2"
  | active_v1 => tx "active_v1" | aborted_closed => tx "aborted_closed"
  end.
Definition state_of (s : text) : option CutoverState :=
  List.find (fun c => teqb (state_text c) s) CUTOVER_STATES.

Definition MARKER_FIELDS : list text :=
  [tx "schema_version"; tx "generation"; tx "target_writer_version"; tx "minimum_writer_version";
   tx "fence_time"; tx "not_before"; tx "state"; tx "release_binding"; tx "admission_reason";
   tx "window_seconds"; tx "safety_margin_seconds"].

(** ** The script *)

Record cas_args := mkCas {
  ca_action : text; ca_generation : text; ca_state : text; ca_binding : text; ca_target : text;
  ca_minimum : text; ca_reason : text; ca_window : text; ca_margin : text }.

Record cas_reply := mkReply { cr_code : Z; cr_state : text; cr_generation : text; cr_time : Z }.

Definition field (h : by_text text) (name : string) : text := default [] (h !! tx name).
Definition positive (raw : text) : bool :=
  match tonumber raw with Some n => 1 <=? n | None => false end.
Definition active (state : text) : bool := teqb state (tx "active_v2") || teqb state (tx "active_v1").
Definition in_fence (state : text) : bool :=
  teqb state (tx "old_writers_fenced") || teqb state (tx "waiting_window").
Definition legacy_bootstrap (h : by_text text) : bool :=
  teqb (field h "state") (tx "active_v2") && teqb (field h "release_binding") []
  && teqb (field h "target_writer_version") (tx "2") && teqb (field h "minimum_writer_version") (tx "2")
  && negb (teqb (field h "fence_time") []) && teqb (field h "fence_time") (field h "not_before").

(** The arithmetic of the script on a string that is no number is an error. *)
Definition number (raw : text) : result error Z :=
  match tonumber raw with Some n => Ok n | None => Raise LUA_ERROR end.

(** The stored marker is refused with -2. *)
Definition window_corrupt (a : cas_args) (h : by_text text) : result error bool :=
  match tonumber (field h "fence_time"), tonumber (field h "not_before") with
  | Some fence, Some after =>
      if fence <? 0 then Ok true else
      if legacy_bootstrap h then Ok false else
      window ← number (ca_window a);
      margin ← number (ca_margin a);
      Ok (after <? fence + window + margin)
  | _, _ => Ok true
  end.
Definition marker_corrupt (a : cas_args) (h : by_text text) : result error bool :=
  let state := field h "state" in
  if negb (forallb (fun name => bool_decide (is_Some (h !! name))) MARKER_FIELDS) then Ok true else
  if negb (Z.of_nat (size h) =? 11) || negb (teqb (field h "schema_version") (tx "1"))
     || negb (positive (field h "generation")) || negb (positive (field h "target_writer_version"))
     || negb (positive (field h "minimum_writer_version"))
     || negb (teqb (field h "window_seconds") (ca_window a))
     || negb (teqb (field h "safety_margin_seconds") (ca_margin a))
     || negb (teqb (field h "admission_reason") (ca_reason a)) then Ok true else
  if negb (active state) && negb (teqb state (tx "preparing")) && negb (in_fence state)
     && negb (teqb state (tx "aborted_closed")) then Ok true else
  if active state || in_fence state then
    bad ← window_corrupt a h;
    if bad : bool then Ok true else
    if active state && negb (teqb (field h "minimum_writer_version") (field h "target_writer_version"))
    then Ok true else
    Ok (negb (Bool.eqb (teqb state (tx "active_v1"))
                       (active state && teqb (field h "target_writer_version") (tx "1"))))
  else Ok false.

(** What the script does: answer a code, or write the marker and answer 1. *)
Inductive decision :=
| Answer (code : Z)
| Write (generation state fence after minimum : text).

Definition prepares (action : text) : bool :=
  teqb action (tx "prepare") || teqb action (tx "rollback_prepare").

Definition decide_begin (a : cas_args) (exists_ : bool) (h : by_text text) : result error decision :=
  let state := field h "state" in
  if negb exists_ then
    Ok (if teqb (ca_action a) (tx "rollback_prepare") then Answer 0
        else Write (tx "1") (tx "preparing") [] [] (ca_minimum a))
  else if active state || teqb state (tx "aborted_closed") then
    minimum ← number (ca_minimum a);
    stored ← number (field h "minimum_writer_version");
    if minimum <? stored then Ok (Answer (-2)) else
    g ← number (field h "generation");
    Ok (Write (str_int (g + 1)) (tx "preparing") [] [] (ca_minimum a))
  else if negb (teqb (field h "target_writer_version") (ca_target a)) then Ok (Answer (-6))
  else Ok (Answer (if teqb state (tx "preparing") || in_fence state then 1 else 0)).

Definition decide_fence (now : Z) (a : cas_args) (h : by_text text) : result error decision :=
  let state := field h "state" in
  let fence := teqb (ca_action a) (tx "fence") in
  if fence && in_fence state then Ok (Answer 1) else
  if negb (teqb state (tx "preparing")) && negb (negb fence && in_fence state) then Ok (Answer 0) else
  window ← number (ca_window a);
  margin ← number (ca_margin a);
  Ok (Write (field h "generation") (tx "old_writers_fenced") (str_int now)
        (str_int (now + window + margin)) (ca_minimum a)).

Definition decide_wait (now : Z) (a : cas_args) (h : by_text text) : result error decision :=
  let state := field h "state" in
  if teqb state (tx "waiting_window") then Ok (Answer 1) else
  if negb (teqb state (tx "old_writers_fenced")) then Ok (Answer 0) else
  fence ← number (field h "fence_time");
  if now <? fence then Ok (Answer (-5)) else
  Ok (Write (field h "generation") (tx "waiting_window") (field h "fence_time")
        (field h "not_before") (ca_minimum a)).

Definition decide_finish (now : Z) (a : cas_args) (h : by_text text) : result error decision :=
  if negb (teqb (field h "state") (tx "waiting_window")) then Ok (Answer 0) else
  fence ← number (field h "fence_time");
  if now <? fence then Ok (Answer (-5)) else
  after ← number (field h "not_before");
  if now <? after then Ok (Answer (-3)) else
  let completed := if teqb (ca_target a) (tx "1") then tx "active_v1" else tx "active_v2" in
  Ok (Write (field h "generation") completed (field h "fence_time") (field h "not_before")
        (ca_target a)).

(** The actions, once the marker and the arguments are sound and the expected
    generation and state are the stored ones. *)
Definition decide_action (now : Z) (a : cas_args) (exists_ : bool) (h : by_text text)
    : result error decision :=
  let state := field h "state" in
  let action := ca_action a in
  let new_operation := prepares action && (active state || teqb state (tx "aborted_closed")) in
  if exists_ && negb new_operation && negb (teqb action (tx "takeover_prepare"))
     && negb (teqb (field h "release_binding") (ca_binding a)) then Ok (Answer (-6)) else
  if teqb action (tx "takeover_prepare") then
    if negb exists_ || negb (teqb state (tx "preparing")) then Ok (Answer 0) else
    g ← number (field h "generation");
    Ok (Write (str_int (g + 1)) (tx "preparing") [] [] (ca_minimum a))
  else if prepares action then decide_begin a exists_ h
  else if negb exists_ || negb (teqb (field h "target_writer_version") (ca_target a)) then Ok (Answer 0)
  else if teqb action (tx "invalidate_fence") then
    Ok (if negb (in_fence state) then Answer 0
        else Write (field h "generation") (tx "preparing") [] [] (ca_minimum a))
  else if teqb action (tx "fence") || teqb action (tx "refence") then decide_fence now a h
  else if teqb action (tx "wait") then decide_wait now a h
  else if teqb action (tx "activate") || teqb action (tx "rollback_finish") then decide_finish now a h
  else if teqb action (tx "abort") then
    Ok (Write (field h "generation") (tx "aborted_closed") (field h "fence_time")
          (field h "not_before") (ca_minimum a))
  else Ok (Answer (-4)).

Definition decide_cas (now : Z) (a : cas_args) (exists_ : bool) (h : by_text text)
    : result error decision :=
  let state := field h "state" in
  bad ← (if exists_ then marker_corrupt a h else Ok false);
  if bad : bool then Ok (Answer (-2)) else
  if negb (positive (ca_target a)) || negb (positive (ca_minimum a)) || teqb (ca_binding a) []
     || negb (teqb (ca_reason a) (tx "writer_cutover")) || negb (teqb (ca_window a) (tx "60"))
     || negb (teqb (ca_margin a) (tx "5")) then Ok (Answer (-2)) else
  if exists_ && (teqb (ca_generation a) [] || teqb (ca_state a) []) then Ok (Answer 0) else
  if negb (teqb (ca_generation a) []) && negb (teqb (field h "generation") (ca_generation a))
  then Ok (Answer 0) else
  if negb (teqb (ca_state a) []) && negb (teqb state (ca_state a)) then Ok (Answer 0) else
  if prepares (ca_action a) && active state && negb (legacy_bootstrap h)
     && teqb (field h "target_writer_version") (ca_target a) then
    after ← number (field h "not_before");
    Ok (Answer (if now <? after then -5 else 2))
  else decide_action now a exists_ h.

Definition marker_fields (a : cas_args) (generation state fence after minimum : text)
    : list (text * text) :=
  [(tx "schema_version", tx "1"); (tx "generation", generation);
   (tx "target_writer_version", ca_target a); (tx "minimum_writer_version", minimum);
   (tx "fence_time", fence); (tx "not_before", after); (tx "state", state);
   (tx "release_binding", ca_binding a); (tx "admission_reason", ca_reason a);
   (tx "window_seconds", ca_window a); (tx "safety_margin_seconds", ca_margin a)].

Definition of_lua {A} (r : result error A) : script A := fun s => (r, s).

(** [now]: the seconds of [TIME]. *)
Definition CUTOVER_CAS_LUA (now : Z) (marker : text) (a : cas_args) : script cas_reply :=
  typ ← TYPE marker;
  match typ with
  | none | hash =>
      h ← HGETALL marker;
      d ← of_lua (decide_cas now a (match typ with hash => true | _ => false end) h);
      match d with
      | Answer code => mret (mkReply code (field h "state") (field h "generation") now)
      | Write generation state fence after minimum =>
          _ ← HSET marker (marker_fields a generation state fence after minimum);
          mret (mkReply 1 state generation now)
      end
  | _ => mret (mkReply (-2) [] [] now)
  end.


(** ** The marker in Python *)

Record CutoverMarker := mkMarker {
  schema_version : Z; generation : Z; target_writer_version : Z; minimum_writer_version : Z;
  fence_time : option Z; not_before : option Z; state : CutoverState; release_binding : text;
  admission_reason : text; window_seconds : Z; safety_margin_seconds : Z }.

Definition requires_recovery (m : CutoverMarker) : bool :=
  bool_decide (state m = active_v2) && teqb (release_binding m) []
  && (target_writer_version m =? 2) && (minimum_writer_version m =? 2)
  && match fence_time m with Some f => bool_decide (not_before m = Some f) | None => false end.

Definition opt_text (o : option Z) : text := match o with Some n => str_int n | None => [] end.

Definition as_hash (m : CutoverMarker) : by_text text := list_to_map
  [(tx "schema_version", str_int (schema_version m)); (tx "generation", str_int (generation m));
   (tx "target_writer_version", str_int (target_writer_version m));
   (tx "minimum_writer_version", str_int (minimum_writer_version m));
   (tx "fence_time", opt_text (fence_time m)); (tx "not_before", opt_text (not_before m));
   (tx "state", state_text (state m)); (tx "release_binding", release_binding m);
   (tx "admission_reason", admission_reason m); (tx "window_seconds", str_int (window_seconds m));
   (tx "safety_margin_seconds", str_int (safety_margin_seconds m))].

(** [CutoverError] and everything else a call may raise. *)
Inductive exn := CutoverError (msg : text) | OtherError.

Definition corrupt (name : string) : exn :=
  CutoverError (tx "cutover marker " ++ tx name ++ tx " is corrupt").

Definition _optional_int (raw : text) (name : string) : result exn (option Z) :=
  if teqb raw [] then Ok None else
  match py_int raw with
  | None => Raise (corrupt name)
  | Some value => if value <? 0 then Raise (corrupt name) else Ok (Some value)
  end.
Definition _required_int (raw : text) (name : string) (minimum : Z) : result exn Z :=
  value ← _optional_int raw name;
  match value with
  | Some v => if v <? minimum then Raise (corrupt name) else Ok v
  | None => Raise (corrupt name)
  end.

Definition guards_window (m : CutoverMarker) : bool :=
  bool_decide (state m ∈ [active_v1; active_v2; old_writers_fenced; waiting_window]).
Definition is_active (m : CutoverMarker) : bool := bool_decide (state m ∈ [active_v1; active_v2]).

(** The marker is consistent in itself. *)
Definition consistent (m : CutoverMarker) : result exn unit :=
  if negb (schema_version m =? CUTOVER_SCHEMA_VERSION) || negb (window_seconds m =? COST_WINDOW_SECONDS)
     || negb (safety_margin_seconds m =? CUTOVER_SAFETY_MARGIN_SECONDS)
     || negb (teqb (admission_reason m) CUTOVER_ADMISSION_REASON)
  then Raise (CutoverError (tx "cutover marker is inconsistent")) else
  if guards_window m && negb (requires_recovery m)
     && match fence_time m, not_before m with
        | Some f, Some n => n <? f + window_seconds m + safety_margin_seconds m
        | _, _ => true
        end
  then Raise (CutoverError (tx "cutover marker window is inconsistent")) else
  if is_active m
     && (negb (minimum_writer_version m =? target_writer_version m)
         || negb (Bool.eqb (bool_decide (state m = active_v1)) (target_writer_version m =? 1)))
  then Raise (CutoverError (tx "cutover marker protocol is inconsistent")) else Ok tt.

Definition parse_cutover_marker (fields : by_text text) : result exn CutoverMarker :=
  if negb (bool_decide (dom fields = list_to_set MARKER_FIELDS :> gset text))
  then Raise (CutoverError (tx "cutover marker fields are corrupt")) else
  match state_of (field fields "state") with
  | None => Raise (CutoverError (tx "cutover marker state is corrupt"))
  | Some st =>
      sv ← _required_int (field fields "schema_version") "schema_version" 1;
      g ← _required_int (field fields "generation") "generation" 1;
      tw ← _required_int (field fields "target_writer_version") "target_writer_version" 1;
      mw ← _required_int (field fields "minimum_writer_version") "minimum_writer_version" 1;
      ft ← _optional_int (field fields "fence_time") "fence_time";
      nb ← _optional_int (field fields "not_before") "not_before";
      ws ← _required_int (field fields "window_seconds") "window_seconds" 1;
      sm ← _required_int (field fields "safety_margin_seconds") "safety_margin_seconds" 0;
      let m := mkMarker sv g tw mw ft nb st (field fields "release_binding")
                 (field fields "admission_reason") ws sm in
      _ ← consistent m;
      Ok m
  end.

(** ** The calls of a run *)

Inductive ProbeStatus := absent | present | timeout | error_.
#[export] Instance probe_status_eq_dec : EqDecision ProbeStatus.
Proof. solve_decision. Defined.
Definition confirmed_absent (p : ProbeStatus) : bool := bool_decide (p = absent).

Record AdmissionView := mkAdmission { av_state : text; av_reason : text; av_owned : bool }.

(** [redis.hgetall], the compare-and-set, and the methods of the executor. *)
Inductive call :=
| HGetAll
| Cas (a : cas_args)
| TrustedWriterVersion
| CloseAdmission (generation : Z)
| QueryAdmission
| OpenAdmissionIfOwned
| IsolateWriters
| ProbeWriters
| ProbeInFlightAccepts.

Definition answer (c : call) : Type :=
  match c with
  | HGetAll => by_text text
  | Cas _ => cas_reply
  | TrustedWriterVersion => Z
  | CloseAdmission _ | QueryAdmission | OpenAdmissionIfOwned => AdmissionView
  | IsolateWriters | ProbeWriters | ProbeInFlightAccepts => ProbeStatus
  end.

Abbreviation run := (prog answer exn).

Definition of_res {A} (r : result exn A) : run A := Ret r.

Definition read_cutover_marker : run (option CutoverMarker) :=
  raw ← perform HGetAll;
  if bool_decide (raw = ∅) then mret None else
  m ← of_res (parse_cutover_marker raw);
  mret (Some m).

Definition args (action : string) (binding : text) (target minimum : Z) (expect_generation : option Z)
    (expect_state : text) : cas_args :=
  mkCas (tx action) (opt_text expect_generation) expect_state binding (str_int target)
    (str_int minimum) CUTOVER_ADMISSION_REASON (str_int COST_WINDOW_SECONDS)
    (str_int CUTOVER_SAFETY_MARGIN_SECONDS).

(** Errors of the connection become [CutoverError]. *)
Definition cas_cutover (a : cas_args) : run cas_reply :=
  catch (perform (Cas a)) (fun e =>
    match e with
    | CutoverError m => raise (CutoverError m)
    | OtherError => raise (CutoverError (tx "cutover control plane is unavailable"))
    end).

Record CutoverResult := mkResult {
  cu_ok : bool; cu_state : option CutoverState; cu_generation : Z; cu_redis_time : Z;
  cu_admission : AdmissionView; cu_opened : bool; cu_error : text }.

Definition _result (ok : bool) (m : option CutoverMarker) (a : AdmissionView) (redis_time : Z)
    (opened : bool) (error : text) : CutoverResult :=
  mkResult ok (state <$> m) (from_option generation 0 m) redis_time a opened error.

Definition _reprobe (first : ProbeStatus) (retry : run ProbeStatus) : run ProbeStatus :=
  match first with absent => mret absent | _ => retry end.

(** ** The run *)

(** The body of the [try] block: programs that keep [redis_time], also when
    they raise. *)
Definition body (A : Type) : Type := Z -> run (result exn A * Z).
#[export] Instance body_ret : MRet body := fun A a t => Ret (Ok (Ok a, t)).
#[export] Instance body_bind : MBind body := fun A B f m t =>
  attempt (m t) (fun r =>
    match r with
    | Ok (Ok a, t') => f a t'
    | Ok (Raise e, t') => Ret (Ok (Raise e, t'))
    | Raise e => Ret (Raise e)
    end).
Definition doing {A} (p : run A) : body A := fun t => attempt p (fun r => Ret (Ok (r, t))).
Definition stop {A} (msg : string) : body A := fun t => Ret (Ok (Raise (CutoverError (tx msg)), t)).
Definition broken {A} : body A := fun t => Ret (Ok (Raise OtherError, t)).
Definition redis_time : body Z := fun t => Ret (Ok (Ok t, t)).
Definition set_redis_time (t : Z) : body unit := fun _ => Ret (Ok (Ok tt, t)).

(** [code, state, generation, redis_time = cas_cutover(...)] *)
Definition cas (a : cas_args) : body cas_reply :=
  r ← doing (cas_cutover a);
  _ ← set_redis_time (cr_time r);
  mret r.

Section Run.
Context (binding : text) (rollback : bool) (target min_writer : Z).

Definition owned_marker (operation_generation : Z) (st : text) : body CutoverMarker :=
  current ← doing read_cutover_marker;
  match current with
  | Some m =>
      if (generation m =? operation_generation) && teqb (release_binding m) binding
         && teqb (state_text (state m)) st && (target_writer_version m =? target)
      then mret m else stop "cutover state conflict"
  | None => stop "cutover state conflict"
  end.

Definition fenced (m : CutoverMarker) : bool :=
  bool_decide (state m ∈ [old_writers_fenced; waiting_window]).

Definition invalidate_fence (operation_generation : Z) (m : CutoverMarker) (probe : ProbeStatus)
    : body CutoverMarker :=
  if confirmed_absent probe || negb (fenced m) then mret m else
  r ← cas (args "invalidate_fence" binding target min_writer (Some operation_generation)
             (state_text (state m)));
  if negb (cr_code r =? 1) then stop "cutover fence invalidation rejected"
  else owned_marker operation_generation (cr_state r).

Definition status_text (p : ProbeStatus) : text :=
  match p with
  | absent => tx "absent" | present => tx "present" | timeout => tx "timeout" | error_ => tx "error"
  end.

(** A probe that is not absent ends the run. *)
Definition failed_probe (m : CutoverMarker) (what : string) (p : ProbeStatus) : body CutoverResult :=
  a ← doing (perform QueryAdmission);
  t ← redis_time;
  mret (_result false (Some m) a t false (tx what ++ tx " probe " ++ status_text p)).

(** One of the compare-and-sets after the probes. *)
Definition advance_marker (m : CutoverMarker) (action : string) (minimum : Z) : body cas_reply :=
  cas (args action binding target minimum (Some (generation m)) (state_text (state m))).

Definition finish_cutover (operation_generation : Z) (m : CutoverMarker) : body CutoverResult :=
  r ← advance_marker m (if rollback then "rollback_finish" else "activate") target;
  if cr_code r =? -3 then
    a ← doing (perform QueryAdmission);
    t ← redis_time;
    mret (_result true (Some m) a t false (tx "waiting for not_before"))
  else if cr_code r =? -5 then stop "redis time anomaly"
  else if cr_code r <=? 0 then stop "cutover activate rejected"
  else
    m ← owned_marker operation_generation (cr_state r);
    if (target =? 1) && (negb (bool_decide (state m = active_v1)) || negb (minimum_writer_version m =? 1))
    then stop "cutover rollback did not finish"
    else if negb (target =? 1) && negb (bool_decide (state m = active_v2))
    then stop "cutover did not activate"
    else
      launch_version ← doing (perform TrustedWriterVersion);
      if launch_version <? minimum_writer_version m then stop "unsupported old writer binary" else
      a ← doing (perform QueryAdmission);
      if av_owned a then
        a ← doing (perform OpenAdmissionIfOwned);
        t ← redis_time;
        mret (_result true (Some m) a t (teqb (av_state a) (tx "open")) [])
      else
        t ← redis_time;
        mret (_result true (Some m) a t false []).

Definition fence_and_finish (operation_generation : Z) (m : CutoverMarker) : body CutoverResult :=
  r ← advance_marker m "fence" min_writer;
  if cr_code r =? -5 then stop "redis time anomaly"
  else if cr_code r <=? 0 then stop "cutover fence rejected" else
  m ← owned_marker operation_generation (cr_state r);
  r ← advance_marker m "wait" min_writer;
  if cr_code r =? -5 then stop "redis time anomaly"
  else if cr_code r <=? 0 then stop "cutover wait rejected" else
  m ← owned_marker operation_generation (cr_state r);
  finish_cutover operation_generation m.

(** The old writers are still gone, or the run ends. *)
Definition confirm_and_fence (operation_generation : Z) (m : CutoverMarker) : body CutoverResult :=
  isolate ← doing (perform ProbeWriters);
  m ← invalidate_fence operation_generation m isolate;
  if negb (confirmed_absent isolate) then failed_probe m "old writer" isolate else
  fence_and_finish operation_generation m.

(** No request is in flight, or the run ends. *)
Definition drain_and_fence (operation_generation : Z) (m : CutoverMarker) : body CutoverResult :=
  inflight ← doing (perform ProbeInFlightAccepts);
  m ← invalidate_fence operation_generation m inflight;
  inflight ← doing (_reprobe inflight (perform ProbeInFlightAccepts));
  if negb (confirmed_absent inflight) then failed_probe m "in-flight" inflight else
  confirm_and_fence operation_generation m.

Definition isolate_and_fence (operation_generation : Z) (m : CutoverMarker) : body CutoverResult :=
  m ← (if fenced m then p ← doing (perform ProbeWriters); invalidate_fence operation_generation m p
       else mret m);
  isolate ← doing (perform IsolateWriters);
  m ← invalidate_fence operation_generation m isolate;
  isolate ← doing (_reprobe isolate (perform ProbeWriters));
  if negb (confirmed_absent isolate) then failed_probe m "old writer" isolate else
  drain_and_fence operation_generation m.

Definition cutover_body (marker : option CutoverMarker) : body CutoverResult :=
  r ← cas (args (if rollback then "rollback_prepare" else "prepare") binding target min_writer
             (generation <$> marker) (from_option (state_text ∘ state) [] marker));
  if cr_code r <? 0 then stop "cutover marker conflict"
  else if cr_code r =? 0 then stop "cutover state conflict" else
  current ← doing read_cutover_marker;
  match current with
  | None => stop "cutover marker is missing"
  | Some m =>
      match py_int (cr_generation r) with
      | None => broken
      | Some g =>
          if negb (generation m =? g) || negb (teqb (state_text (state m)) (cr_state r))
          then stop "cutover state conflict" else
          if cr_code r =? 2 then
            a ← doing (perform QueryAdmission);
            t ← redis_time;
            mret (_result true (Some m) a t false [])
          else
            let operation_generation := generation m in
            m ← owned_marker operation_generation (cr_state r);
            _ ← doing (perform (CloseAdmission (generation m)));
            a ← doing (perform QueryAdmission);
            if negb (teqb (av_state a) (tx "closed")) then stop "send admission did not stay closed" else
            isolate_and_fence operation_generation m
      end
  end.

End Run.

Definition closed_view : AdmissionView := mkAdmission (tx "closed") CUTOVER_ADMISSION_REASON false.

(** [except CutoverError]: report what can be read. *)
Definition report_failure (t : Z) (msg : text) : run CutoverResult :=
  a ← catch (perform QueryAdmission)
        (fun e => match e with CutoverError _ => mret closed_view | OtherError => raise OtherError end);
  m ← catch read_cutover_marker
        (fun e => match e with CutoverError _ => mret None | OtherError => raise OtherError end);
  mret (_result false m a t false msg).

Definition trusted_target (requested : option Z) : run Z :=
  v ← perform TrustedWriterVersion;
  match requested with
  | Some t => if t =? v then mret v
              else raise (CutoverError (tx "target writer protocol does not match trusted metadata"))
  | None => mret v
  end.

Definition run_writer_cutover (binding : text) (target_writer_version : option Z) (rollback : bool)
    : run CutoverResult :=
  if teqb binding [] || (128 <? len binding)
  then raise (CutoverError (tx "release binding is invalid")) else
  attempt read_cutover_marker (fun r =>
    match r with
    | Raise (CutoverError msg) => mret (_result false None closed_view 0 false msg)
    | Raise OtherError => raise OtherError
    | Ok marker =>
        attempt (trusted_target target_writer_version) (fun r =>
          match r with
          | Raise (CutoverError msg) => mret (_result false marker closed_view 0 false msg)
          | Raise OtherError => raise OtherError
          | Ok target =>
              let min_writer := Z.max target (from_option minimum_writer_version 1 marker) in
              out ← cutover_body binding rollback target min_writer marker 0;
              match out with
              | (Ok res, _) => mret res
              | (Raise (CutoverError msg), t) => report_failure t msg
              | (Raise OtherError, _) => raise OtherError
              end
          end)
    end).
(** The old entry point only confirms a finished cutover. *)
Definition bootstrap_greenfield_cutover (target : Z) : run CutoverResult :=
  version ← perform TrustedWriterVersion;
  if version <? target then raise (CutoverError (tx "unsupported old writer binary")) else
  marker ← read_cutover_marker;
  valid ← match marker with
          | Some m =>
              if bool_decide (state m = active_v2) && negb (requires_recovery m)
                 && (target_writer_version m =? target)
              then version ← perform TrustedWriterVersion; mret (version =? target)
              else mret false
          | None => mret false
          end;
  mret (_result valid marker
          (mkAdmission (if valid : bool then tx "open" else tx "closed") CUTOVER_ADMISSION_REASON false)
          0 false (if valid : bool then [] else tx "controlled writer cutover required")).

(** What a launcher checks before it starts the service. *)
Definition check_supported_launch (version : Z) (marker : option CutoverMarker) : result exn unit :=
  match marker with
  | None => refuse (version <? WRITER_PROTOCOL_VERSION)
              (CutoverError (tx "unsupported old writer binary"))
  | Some m =>
      refuse ((version <? minimum_writer_version m)
              || (bool_decide (state m = active_v2) && (version <? target_writer_version m)))
        (CutoverError (tx "unsupported old writer binary"))
  end.

End Cutover.
