(* ===== verification/CutoverSafety.v ===== *)
(** * The cutover never skips the window

    Whatever runs of the cutover interleave, the marker becomes active only by
    fencing, waiting and activating in this order in one generation, with the
    old window and its margin between fence and activation; and a run fences only
    after it saw admission closed, the old writers absent and no request in
    flight. *)

From S2P Require Import Prelude PyText Redis AppRateLimit CostWindow Effects Cutover.

Module CutoverSafety.
Import Redis AppRateLimit CostWindow Cutover.

(** ** What the script writes *)

Lemma number_ok raw n : number raw = Ok n <-> tonumber raw = Some n.
Proof. unfold number. destruct (tonumber raw); naive_solver. Qed.

(** The shape of a write, from the stored marker. *)
Definition write_ok (now : Z) (exists_ : bool) (h : by_text text) (g st f n : text) : Prop :=
  (st = tx "preparing" /\ f = [] /\ n = [] /\
     ((exists_ = false /\ g = tx "1") \/
      (exists_ = true /\ (g = field h "generation" \/
         exists k, tonumber (field h "generation") = Some k /\ g = str_int (k + 1))))) \/
  (exists_ = true /\ g = field h "generation" /\
     ((st = tx "old_writers_fenced" /\ f = str_int now /\ n = str_int (now + 65)) \/
      (f = field h "fence_time" /\ n = field h "not_before" /\
        ((st = tx "waiting_window" /\ field h "state" = tx "old_writers_fenced" /\
            exists k, tonumber f = Some k /\ k <= now) \/
         (active st = true /\ field h "state" = tx "waiting_window" /\
            exists k, tonumber n = Some k /\ k <= now) \/
         st = tx "aborted_closed")))).

Ltac decide_tac :=
  repeat match goal with
  | H : (if ?b then _ else _) = Ok _ |- _ => destruct b eqn:?
  | H : (_ ← _; _) = Ok _ |- _ => apply bind_ok in H as (? & ? & H)
  | H : Ok _ = Ok _ |- _ => injection H as H
  | H : Answer _ = Write _ _ _ _ _ |- _ => discriminate H
  | H : (if ?b then _ else _) = Write _ _ _ _ _ |- _ => destruct b eqn:?
  | H : Write _ _ _ _ _ = Write _ _ _ _ _ |- _ => injection H as <- <- <- <- <-
  end; subst.

Lemma decide_begin_write now a e h g st f n m : decide_begin a e h = Ok (Write g st f n m) ->
  write_ok now e h g st f n.
Proof.
  unfold decide_begin. intros H. decide_tac; left; bool_prop; subst; split_and!; try done.
  - by left.
  - right. split; [done|]. right. exists x1. by apply number_ok in H2.
Qed.

Lemma decide_fence_write now a h g st f n m : ca_window a = tx "60" -> ca_margin a = tx "5" ->
  decide_fence now a h = Ok (Write g st f n m) -> write_ok now true h g st f n.
Proof.
  intros W M. unfold decide_fence. intros H. decide_tac. right. split_and!; try done. left.
  rewrite W in *. rewrite M in *. split_and!; try done.
  repeat match goal with K : number _ = Ok _ |- _ => apply number_ok in K; vm_compute in K; injection K as <- end.
  f_equal. lia.
Qed.

Lemma decide_wait_write now a h g st f n m : decide_wait now a h = Ok (Write g st f n m) ->
  write_ok now true h g st f n.
Proof.
  unfold decide_wait. intros H. decide_tac. right. split_and!; try done. right. split_and!; try done. left.
  bool_prop. split_and!; try done; [by apply teqb_spec|]. exists x. split; [by apply number_ok|lia].
Qed.

Lemma decide_finish_write now a h g st f n m : decide_finish now a h = Ok (Write g st f n m) ->
  write_ok now true h g st f n.
Proof.
  unfold decide_finish. intros H. decide_tac. right. split_and!; try done. right. split_and!; try done. right; left.
  bool_prop. split_and!; [by destruct (teqb (ca_target a) _)|by apply teqb_spec|].
  exists x0. split; [by apply number_ok|lia].
Qed.

Lemma decide_action_write now a e h g st f n m : ca_window a = tx "60" -> ca_margin a = tx "5" ->
  decide_action now a e h = Ok (Write g st f n m) -> write_ok now e h g st f n.
Proof.
  intros W M. unfold decide_action. intros H. decide_tac; bool_prop;
    try match goal with K : e = true |- _ => subst e end.
  - left. split_and!; try done. right. split; [done|]. right. exists x. by apply number_ok in H0.
  - by eapply decide_begin_write.
  - left. split_and!; try done. right. by auto.
  - by eapply decide_fence_write.
  - by eapply decide_wait_write.
  - by eapply decide_finish_write.
  - right. split_and!; try done. by auto 10.
Qed.

Lemma decide_cas_write now a e h g st f n m : decide_cas now a e h = Ok (Write g st f n m) ->
  write_ok now e h g st f n /\ ca_binding a <> [] /\ ca_window a = tx "60" /\ ca_margin a = tx "5" /\
  ca_reason a = tx "writer_cutover".
Proof.
  unfold decide_cas. intros H. decide_tac; bool_prop;
    repeat match goal with K : teqb _ _ = true |- _ => apply teqb_spec in K end.
  all: split_and!; try done; [by eapply decide_action_write|by apply teqb_false].
Qed.

(** ** The writes of the marker *)

Record wrote := mkWrote {
  wr_time : Z; wr_generation : text; wr_state : text; wr_fence : text; wr_after : text }.

(** How a write follows the one before it. *)
Definition follows (log : list wrote) (w : wrote) : Prop :=
  match log with
  | [] => wr_generation w = tx "1" /\ wr_state w = tx "preparing"
  | p :: _ =>
      (exists k, tonumber (wr_generation p) = Some k /\
         (wr_generation w = wr_generation p \/
          (wr_generation w = str_int (k + 1) /\ wr_state w = tx "preparing"))) /\
      (wr_state w = tx "old_writers_fenced" ->
         wr_fence w = str_int (wr_time w) /\ wr_after w = str_int (wr_time w + 65)) /\
      (wr_state w = tx "waiting_window" ->
         wr_state p = tx "old_writers_fenced" /\ wr_fence w = wr_fence p /\ wr_after w = wr_after p /\
         wr_generation w = wr_generation p /\ exists k, tonumber (wr_fence p) = Some k /\ k <= wr_time w) /\
      (active (wr_state w) = true ->
         wr_state p = tx "waiting_window" /\ wr_fence w = wr_fence p /\ wr_after w = wr_after p /\
         wr_generation w = wr_generation p /\ exists k, tonumber (wr_after p) = Some k /\ k <= wr_time w)
  end.

Fixpoint history_ok (log : list wrote) : Prop :=
  match log with [] => True | w :: older => follows older w /\ history_ok older end.

(** The key space and what was written to the marker, the newest first. *)
Record marker_state := mkMarkers { ms_db : redis; ms_log : list wrote }.

(** What a call of the script writes. *)
Definition writes (now : Z) (a : cas_args) (s : redis) : list wrote :=
  let d := match s !! CUTOVER_MARKER_KEY with
           | None => decide_cas now a false ∅
           | Some (mkEntry (VHash h) _) => decide_cas now a true h
           | Some _ => Ok (Answer (-2))
           end in
  match d with Ok (Write g st f n _) => [mkWrote now g st f n] | _ => [] end.

(** Any call of the script at any time, and anything that leaves the marker alone. *)
Inductive marker_step (m : marker_state) : marker_state -> Prop :=
| mk_cas now a r s' :
    CUTOVER_CAS_LUA now CUTOVER_MARKER_KEY a (ms_db m) = (r, s') ->
    marker_step m (mkMarkers s' (writes now a (ms_db m) ++ ms_log m))
| mk_other s' :
    s' !! CUTOVER_MARKER_KEY = ms_db m !! CUTOVER_MARKER_KEY ->
    marker_step m (mkMarkers s' (ms_log m)).

(** The stored marker is the last write. *)
Definition stored (s : redis) (log : list wrote) : Prop :=
  match log with
  | [] => s !! CUTOVER_MARKER_KEY = None
  | w :: _ => exists h x, s !! CUTOVER_MARKER_KEY = Some (mkEntry (VHash h) x) /\
      field h "generation" = wr_generation w /\ field h "state" = wr_state w /\
      field h "fence_time" = wr_fence w /\ field h "not_before" = wr_after w /\
      (exists k, tonumber (wr_generation w) = Some k)
  end.

Definition put_fields (h : by_text text) (l : list (text * text)) : by_text text :=
  foldl (fun h p => <[p.1 := p.2]> h) h l.

Lemma put_marker h a g st f n mn :
  let h' := put_fields h (marker_fields a g st f n mn) in
  field h' "generation" = g /\ field h' "state" = st /\ field h' "fence_time" = f /\
  field h' "not_before" = n.
Proof.
  unfold put_fields, marker_fields, field. cbn [foldl fst snd].
  split_and!; repeat (first [rewrite lookup_insert_eq by done | rewrite lookup_insert_ne by done]); done.
Qed.

(** The script writes the marker as decided, or leaves it. *)
Lemma cas_run (now : Z) (a : cas_args) (s s' : redis) r :
  CUTOVER_CAS_LUA now CUTOVER_MARKER_KEY a s = (r, s') ->
  (writes now a s = [] /\ s' = s) \/
  (exists e h g st f n mn h' x, s !! CUTOVER_MARKER_KEY = (if e : bool then Some (mkEntry (VHash h) x) else None) /\
     (e = false -> h = ∅) /\
     decide_cas now a e h = Ok (Write g st f n mn) /\ writes now a s = [mkWrote now g st f n] /\
     h' = put_fields h (marker_fields a g st f n mn) /\
     s' !! CUTOVER_MARKER_KEY = Some (mkEntry (VHash h') (if e then x else None))).
Proof.
  unfold CUTOVER_CAS_LUA, writes. erewrite script_bind_eq by reflexivity.
  destruct (s !! CUTOVER_MARKER_KEY) as [[[v|h|z] x]|] eqn:K; cbn [fmap option_fmap option_map en_value];
    [intros [= <- <-]; by left| |intros [= <- <-]; by left|].
  - erewrite script_bind_eq by (unfold HGETALL; rewrite K; done).
    destruct (decide_cas now a true h) as [d|ex] eqn:D; [|intros [= <- <-]; by left].
    erewrite script_bind_eq by reflexivity. destruct d as [code|g st f n mn]; [intros [= <- <-]; by left|].
    intros H. right. exists true, h, g, st, f, n, mn. eexists _, x. split_and!; try done.
    revert H. unfold HSET, mbind, script_bind. rewrite K. intros [= <- <-]. by rewrite lookup_insert_eq.
  - erewrite script_bind_eq by (unfold HGETALL; rewrite K; done).
    destruct (decide_cas now a false ∅) as [d|ex] eqn:D; [|intros [= <- <-]; by left].
    erewrite script_bind_eq by reflexivity. destruct d as [code|g st f n mn]; [intros [= <- <-]; by left|].
    intros H. right. exists false, ∅, g, st, f, n, mn. eexists _, None. split_and!; try done.
    revert H. unfold HSET, mbind, script_bind. rewrite K. intros [= <- <-]. by rewrite lookup_insert_eq.
Qed.


Lemma write_follows now h log g st f n p : 
  field h "generation" = wr_generation p -> field h "state" = wr_state p ->
  field h "fence_time" = wr_fence p -> field h "not_before" = wr_after p ->
  (exists k, tonumber (wr_generation p) = Some k) ->
  write_ok now true h g st f n -> follows (p :: log) (mkWrote now g st f n) /\
    exists k, tonumber g = Some k.
Proof.
  intros Eg Es Ef En [k Hk] W. unfold write_ok in W. rewrite Eg, Es, Ef, En in W. unfold follows.
  cbn [wr_generation wr_state wr_fence wr_after wr_time].
  destruct W as [(-> & -> & -> & [[? _]|[_ Hg]])|(_ & -> & [(-> & -> & ->)|(-> & -> & W)])]; [done| | |].
  - destruct Hg as [->|(k' & Hk' & ->)].
    + split; [|by exists k]. split_and!; try done. exists k. auto.
    + split; [|exists (k' + 1); apply tonumber_str_int]. split_and!; try done. exists k'. auto.
  - split; [|by exists k]. split_and!; try done. exists k. auto.
  - split; [|by exists k].
    destruct W as [(-> & Hs & Hn)|[(Ha & Hs & Hn)| ->]]; split_and!; try done; try (exists k; by auto).
    + intros ->. by vm_compute in Ha.
    + intros ->. by vm_compute in Ha.
Qed.

Definition marker_inv (m : marker_state) : Prop := stored (ms_db m) (ms_log m) /\ history_ok (ms_log m).

Lemma marker_preserved m m' : marker_inv m -> marker_step m m' -> marker_inv m'.
Proof.
  intros [St Hi] [now a r s' H|s' K]; [|split; [|done]; unfold stored; cbn [ms_db ms_log]; by rewrite K].
  apply cas_run in H as [[-> ->]|(e & h & g & st & f & n & mn & h' & x & K & He & D & -> & -> & K')]; [done|].
  apply decide_cas_write in D as [W _]. cbn [app].
  assert (F : follows (ms_log m) (mkWrote now g st f n) /\ exists k, tonumber g = Some k).
  { destruct (ms_log m) as [|p log]; cbn [stored] in St.
    - destruct e; [congruence|]. unfold write_ok in W.
      destruct W as [(-> & -> & -> & [[_ ->]|[? _]])|(? & _)]; try done. split; [done|]. by exists 1.
    - destruct St as (h0 & x0 & K0 & Eg & Es & Ef & En & Hk). destruct e; [|congruence].
      rewrite K in K0. injection K0 as -> ->. by eapply write_follows. }
  destruct F as [F Hk]. split; [|by split].
  cbn [stored ms_log ms_db wr_generation wr_state wr_fence wr_after].
  destruct (put_marker h a g st f n mn) as (E1 & E2 & E3 & E4). eexists _, _. split_and!; done.
Qed.

(** An active marker: the last three writes are fence, wait and activation. *)
Definition window_kept (m : marker_state) (fence : Z) : Prop :=
  exists ta tw g st log, ms_log m =
    mkWrote ta g st (str_int fence) (str_int (fence + 65)) ::
    mkWrote tw g (tx "waiting_window") (str_int fence) (str_int (fence + 65)) ::
    mkWrote fence g (tx "old_writers_fenced") (str_int fence) (str_int (fence + 65)) :: log /\
    fence <= tw /\ fence + 65 <= ta.

Lemma active_window m w log : history_ok (ms_log m) -> ms_log m = w :: log ->
  active (wr_state w) = true -> exists fence, window_kept m fence /\ wr_fence w = str_int fence.
Proof.
  intros Hi E Ha. rewrite E in Hi. destruct Hi as [F Hi].
  destruct log as [|p log]; [destruct F as [_ F]; rewrite F in Ha; by vm_compute in Ha|].
  destruct F as (_ & _ & _ & F). destruct (F Ha) as (Sp & Ef & En & Eg & k & Hk & Lk).
  destruct Hi as [Fp Hi].
  destruct log as [|q log]; [destruct Fp as [_ Fp]; rewrite Fp in Sp; by vm_compute in Sp|].
  destruct Fp as (_ & _ & Fp & _). destruct (Fp Sp) as (Sq & Ef' & En' & Eg' & k' & Hk' & Lk').
  destruct Hi as [Fq _].
  destruct log as [|z log]; [destruct Fq as [_ Fq]; rewrite Fq in Sq; by vm_compute in Sq|].
  destruct Fq as (_ & Fq & _). destruct (Fq Sq) as [E1 E2].
  destruct w as [tw' gw sw fw nw], p as [tp gp sp fp np], q as [tq gq sq fq nq]; simpl in *; subst.
  rewrite tonumber_str_int in Hk, Hk'. injection Hk as <-. injection Hk' as <-.
  exists tq. split; [|done]. exists tw', tp, gq, sw, (z :: log). split_and!; [done|lia|lia].
Qed.
(** ** Costs are counted under an active marker only *)

Lemma weighted_active (now : Z) ks rl rw sl sw ttl code (s s' : redis) :
  WEIGHTED_WINDOW_LUA now ks CUTOVER_MARKER_KEY rl rw sl sw ttl s = (Ok code, s') -> 0 <= code ->
  active_marker s CUTOVER_MARKER_KEY /\
  exists fence, fence_of s CUTOVER_MARKER_KEY fence /\ fence + 65 <= now / 1000000.
Proof.
  unfold WEIGHTED_WINDOW_LUA. cbv zeta. intros H Hc.
  assert (L : exists r, hget_number (k_rec ks) f_last_epoch s = (r, s)).
  { unfold hget_number, mbind, script_bind, HGET. repeat case_match; simplify_eq; by eexists. }
  destruct L as [[l|e] L]; [|unfold mbind, script_bind in H; by rewrite L in H].
  rewrite (script_bind_eq _ _ _ _ _ L) in H.
  destruct (marker_run CUTOVER_MARKER_KEY (now / 1000000) s) as (r & Em & Hm).
  rewrite (script_bind_eq _ _ _ _ _ Em) in H. destruct r as [c|]; [|done].
  injection H as <- <-. lia.
Qed.

Lemma consume_active now l app rc sc rl sl (s s' : redis) a :
  consume_send_cost now l app rc sc rl sl s = (a, s') ->
  a = Ok tt \/ a = Raise ApplicationRateLimitExceeded ->
  active_marker s CUTOVER_MARKER_KEY /\
  exists fence, fence_of s CUTOVER_MARKER_KEY fence /\ fence + 65 <= now / 1000000.
Proof.
  unfold consume_send_cost. intros H Ha. destruct (_ || _ || _ || _); [injection H as <- _; naive_solver|].
  unfold eval in H. destruct (WEIGHTED_WINDOW_LUA _ _ _ _ _ _ _ _ s) as [[code|e] t] eqn:E;
    [|destruct l; injection H as <- _; naive_solver].
  destruct l; injection H as <- <-; [|naive_solver..].
  destruct (Z.ltb_spec code 0); [naive_solver|]. by eapply weighted_active.
Qed.

(** ** A concrete cutover *)

Definition example_args (action : string) (g st : text) : cas_args :=
  mkCas (tx action) g st (tx "release-7") (tx "2") (tx "2") (tx "writer_cutover") (tx "60") (tx "5").
Definition cas_at (m : marker_state) (p : Z * cas_args) : marker_state :=
  mkMarkers (snd (CUTOVER_CAS_LUA (fst p) CUTOVER_MARKER_KEY (snd p) (ms_db m)))
    (writes (fst p) (snd p) (ms_db m) ++ ms_log m).
Definition example_cutover : marker_state :=
  fold_left cas_at
    [(1000, example_args "prepare" [] []); (1010, example_args "fence" (tx "1") (tx "preparing"));
     (1011, example_args "wait" (tx "1") (tx "old_writers_fenced"));
     (1020, example_args "activate" (tx "1") (tx "waiting_window"));
     (1080, example_args "activate" (tx "1") (tx "waiting_window"))] (mkMarkers ∅ []).

Definition example_consume : result exc unit * redis :=
  consume_send_cost 2000000000 Up 7 1 1 100 100 (ms_db example_cutover).

Lemma cas_at_steps l m : rtc marker_step m (fold_left cas_at l m).
Proof.
  revert m. induction l as [|p l IH]; intros m; [reflexivity|]. cbn [fold_left].
  eapply rtc_l; [|apply IH]. eapply mk_cas. apply surjective_pairing.
Qed.

(** ** The properties *)

(** C29: costs are counted only after a fenced window.  However calls of the
    compare-and-set script by any number of runs interleave, whatever their
    arguments and the clock: when the cost limiter accepts or refuses a cost by
    its counters, the last three writes of the marker were, in one generation,
    the fence of the old writers at some second, the wait and the activation at
    least 65 seconds after the fence, and the cost is at least 65 seconds after
    it too. *)
Theorem cutover_window m0 m now l app rc sc rl sl a s' :
  ms_db m0 !! CUTOVER_MARKER_KEY = None -> ms_log m0 = [] -> rtc marker_step m0 m ->
  consume_send_cost now l app rc sc rl sl (ms_db m) = (a, s') ->
  a = Ok tt \/ a = Raise ApplicationRateLimitExceeded ->
  exists fence, window_kept m fence /\ fence + 65 <= now / 1000000.
Proof.
  intros K0 L0 R H Ha.
  assert (J : marker_inv m).
  { apply (rtc_invariant marker_step marker_inv marker_preserved m0 m R).
    unfold marker_inv. by rewrite L0. }
  destruct J as [St Hi].
  destruct (consume_active _ _ _ _ _ _ _ _ _ _ H Ha) as ((h & x & K & Hs) & fence & (h' & x' & K' & Hf) & Hn).
  rewrite K in K'. injection K' as <- <-.
  destruct (ms_log m) as [|w log] eqn:E; [cbn [stored] in St; congruence|].
  destruct St as (h0 & x0 & K1 & _ & Es & Ef & _). rewrite K in K1. injection K1 as <- <-.
  unfold field in Es, Ef. rewrite Hs in Es. rewrite <-E in Hi.
  destruct (active_window m w log Hi E) as (f & Wk & Wf); [by rewrite <-Es|].
  exists f. split; [done|].
  destruct (h !! tx "fence_time") as [ft|]; [|done]. cbn [default from_option mbind option_bind] in *.
  unfold id in Ef. rewrite Ef, Wf, tonumber_str_int in Hf. by injection Hf as ->.
Qed.

Lemma cutover_window_witness :
  length (ms_log example_cutover) = 4%nat /\
  exists fence, window_kept example_cutover fence /\ fence + 65 <= 2000.
Proof.
  split; [vm_compute; reflexivity|].
  assert (A : fst example_consume = Ok tt) by (vm_compute; reflexivity).
  exact (cutover_window (mkMarkers ∅ []) example_cutover 2000000000 Up 7 1 1 100 100 _ _
           eq_refl eq_refl (cas_at_steps _ _) (surjective_pairing example_consume) (or_introl A)).
Defined.

End CutoverSafety.
