(* ===== verification/CutoverRun.v ===== *)
(** * What a run of the cutover has seen before it fences

    The run is followed through its calls: what the last look at admission, at
    the old writers and at the requests in flight showed, and whether the marker
    was activated. *)

From S2P Require Import Prelude PyText Redis AppRateLimit Effects Cutover.

Module CutoverRun.
Import Redis AppRateLimit Cutover.

Record seen := mkSeen { sn_closed : bool; sn_writers : bool; sn_inflight : bool; sn_active : bool }.
Definition nothing_seen : seen := mkSeen false false false false.

Definition says_absent (r : result exn ProbeStatus) : bool :=
  match r with Ok p => confirmed_absent p | Raise _ => false end.
Definition says_closed (r : result exn AdmissionView) : bool :=
  match r with Ok v => teqb (av_state v) (tx "closed") | Raise _ => false end.
Definition activates (a : cas_args) (r : result exn cas_reply) : bool :=
  (teqb (ca_action a) (tx "activate") || teqb (ca_action a) (tx "rollback_finish"))
  && match r with Ok c => 0 <? cr_code c | Raise _ => false end.

Definition after (m : seen) (e : call) : result exn (answer e) -> seen :=
  match e with
  | QueryAdmission => fun r => mkSeen (says_closed r) (sn_writers m) (sn_inflight m) (sn_active m)
  | CloseAdmission _ | OpenAdmissionIfOwned => fun _ =>
      mkSeen false (sn_writers m) (sn_inflight m) (sn_active m)
  | IsolateWriters | ProbeWriters => fun r =>
      mkSeen (sn_closed m) (says_absent r) (sn_inflight m) (sn_active m)
  | ProbeInFlightAccepts => fun r =>
      mkSeen (sn_closed m) (sn_writers m) (says_absent r) (sn_active m)
  | Cas a => fun r => mkSeen (sn_closed m) (sn_writers m) (sn_inflight m) (sn_active m || activates a r)
  | HGetAll | TrustedWriterVersion => fun _ => m
  end.

Definition may_fence (m : seen) : bool := sn_closed m && sn_writers m && sn_inflight m.

Definition allowed (m : seen) (e : call) : bool :=
  match e with
  | Cas a => negb (teqb (ca_action a) (tx "fence")) || may_fence m
  | OpenAdmissionIfOwned => sn_active m
  | _ => true
  end.

Definition seen_in (t : list (Effects.entry answer exn)) : seen :=
  fold_left (fun m p => after m (projT1 p) (projT2 p)) t nothing_seen.

Abbreviation wpr := (wp allowed after (fun _ _ => True)).

(** ** Programs that neither fence nor open *)

(** Programs that leave what was seen alone. *)
Definition stays {A} (p : run A) : Prop := forall Q m, (forall r, Q m r) -> wpr p Q m.

Lemma quiet_attempt {A B} (p : run A) (f : result exn A -> run B) :
  stays p -> (forall r, stays (f r)) -> stays (attempt p f).
Proof. intros Hp Hf Q m H. apply wp_attempt, Hp. intros r. by apply Hf. Qed.
Lemma quiet_ret {A} (r : result exn A) : stays (Ret r).
Proof. intros Q m H. apply H. Qed.
Lemma quiet_read : stays read_cutover_marker.
Proof.
  unfold read_cutover_marker. apply quiet_attempt.
  - intros Q m H. split; [done|]. intros r _. apply H.
  - intros [raw|e]; [|apply quiet_ret]. case_bool_decide; [apply quiet_ret|].
    apply quiet_attempt; [apply quiet_ret|]. intros [x|e]; apply quiet_ret.
Qed.

(** A compare-and-set that is no fence and no activation. *)
Definition plain_action (a : string) : Prop :=
  tx a <> tx "fence" /\ tx a <> tx "activate" /\ tx a <> tx "rollback_finish".

Lemma quiet_cas a b t mn g st : plain_action a -> stays (cas_cutover (args a b t mn g st)).
Proof.
  intros (N1 & N2 & N3) Q m H. unfold cas_cutover. apply wp_catch. split.
  - simpl. by rewrite (proj2 (teqb_false _ _) N1).
  - intros r _. assert (after m (Cas (args a b t mn g st)) r = m) as ->.
    { destruct m. simpl. unfold activates. simpl. rewrite (proj2 (teqb_false _ _) N2), (proj2 (teqb_false _ _) N3).
      simpl. by rewrite orb_false_r. }
    destruct r as [c|[]]; apply H.
Qed.

(** ** The same for bodies *)

Definition bstays {A} (b : body A) : Prop := forall t, stays (b t).

Lemma bstays_bind {A B} (b : body A) (f : A -> body B) :
  bstays b -> (forall a, bstays (f a)) -> bstays (b ≫= f).
Proof.
  intros Hb Hf t. apply quiet_attempt; [apply Hb|]. intros [[[a|e] t']|e]; [apply Hf|apply quiet_ret..].
Qed.
Lemma bstays_ret {A} (a : A) : bstays (mret a).
Proof. intros t. apply quiet_ret. Qed.
Lemma bstays_stop {A} msg : bstays (A := A) (stop msg).
Proof. intros t. apply quiet_ret. Qed.
Lemma bstays_doing {A} (p : run A) : stays p -> bstays (doing p).
Proof. intros Hp t. apply quiet_attempt; [done|]. intros r. apply quiet_ret. Qed.
Lemma bstays_cas a b t mn g st : plain_action a -> bstays (cas (args a b t mn g st)).
Proof.
  intros N. apply bstays_bind; [by apply bstays_doing, quiet_cas|]. intros r.
  apply bstays_bind; [intros u; apply quiet_ret|]. intros _. apply bstays_ret.
Qed.

Section Pieces.
Context (binding : text) (rollback : bool) (target min_writer : Z).

Lemma stays_owned g st : bstays (owned_marker binding target g st).
Proof.
  apply bstays_bind; [apply bstays_doing, quiet_read|]. intros [m|]; [|apply bstays_stop].
  case_match; [apply bstays_ret|apply bstays_stop].
Qed.

Lemma stays_invalidate g m p : bstays (invalidate_fence binding target min_writer g m p).
Proof.
  unfold invalidate_fence. case_match; [apply bstays_ret|].
  apply bstays_bind; [by apply bstays_cas|]. intros r. case_match; [apply bstays_stop|apply stays_owned].
Qed.

End Pieces.


(** ** Runs *)

Definition safe {A} (b : body A) (m : seen) : Prop := forall t, wpr (b t) (fun _ _ => True) m.

Lemma safe_stays {A} (b : body A) m : bstays b -> safe b m.
Proof. intros H t. by apply H. Qed.
Lemma safe_bind_stays {A B} (b : body A) (f : A -> body B) m :
  bstays b -> (forall a, safe (f a) m) -> safe (b ≫= f) m.
Proof.
  intros Hb Hf t. apply wp_attempt, Hb. intros [[[a|e] t']|e]; [apply Hf|done..].
Qed.
Lemma safe_call {A} e (f : answer e -> body A) m : allowed m e = true ->
  (forall a, safe (f a) (after m e (Ok a))) -> safe (doing (perform e) ≫= f) m.
Proof.
  intros Al Hf t. apply wp_attempt, wp_attempt. split; [done|]. intros [a|x] _; [apply Hf|done].
Qed.
(** A compare-and-set, whatever it answers. *)
Lemma safe_cas {A} a (f : cas_reply -> body A) m : allowed m (Cas a) = true ->
  (forall r, safe (f r) (after m (Cas a) (Ok r))) -> safe (cas a ≫= f) m.
Proof.
  intros Al Hf t. apply wp_attempt. unfold cas. apply wp_attempt, wp_attempt. unfold cas_cutover.
  apply wp_catch. split; [done|]. intros [r|[]] _; try done. apply wp_attempt. apply Hf.
Qed.

Section Runs.
Context (binding : text) (rollback : bool) (target min_writer : Z).

Lemma safe_report m (r : Z -> AdmissionView -> CutoverResult) :
  safe (a ← doing (perform QueryAdmission); t ← redis_time; mret (r t a)) m.
Proof.
  apply safe_call; [done|]. intros a t. done.
Qed.

Lemma safe_finish g mk m : safe (finish_cutover binding rollback target g mk) m.
Proof.
  unfold finish_cutover, advance_marker. apply safe_cas; [by destruct rollback|]. intros r.
  destruct (cr_code r =? -3); [apply safe_report|]. destruct (cr_code r =? -5); [by intros t|].
  destruct (Z.leb_spec (cr_code r) 0) as [L|L]; [by intros t|].
  apply safe_bind_stays; [apply stays_owned|]. intros mk'. case_match; [by intros t|].
  case_match; [by intros t|]. apply safe_call; [done|]. intros v. case_match; [by intros t|].
  apply safe_call; [done|]. intros a. case_match; [|by intros t].
  apply safe_call; [|by intros a' t]. simpl. unfold activates. simpl.
  rewrite (proj2 (Z.ltb_lt _ _) L). destruct rollback; simpl; apply orb_true_r.
Qed.

Lemma safe_fence g mk m : may_fence m = true ->
  safe (fence_and_finish binding rollback target min_writer g mk) m.
Proof.
  intros Hm. unfold fence_and_finish, advance_marker. apply safe_cas; [simpl; by rewrite Hm|]. intros r.
  case_match; [by intros t|]. case_match; [by intros t|].
  apply safe_bind_stays; [apply stays_owned|]. intros mk'.
  apply safe_bind_stays; [by apply bstays_cas|]. intros r'.
  case_match; [by intros t|]. case_match; [by intros t|].
  apply safe_bind_stays; [apply stays_owned|]. intros mk2. apply safe_finish.
Qed.

Lemma safe_failed mk what p m : safe (failed_probe mk what p) m.
Proof. apply safe_report. Qed.

Lemma safe_confirm g mk m : sn_closed m = true -> sn_inflight m = true ->
  safe (confirm_and_fence binding rollback target min_writer g mk) m.
Proof.
  intros Hc Hi. apply safe_call; [done|]. intros p.
  apply safe_bind_stays; [apply stays_invalidate|]. intros mk'.
  destruct (confirmed_absent p) eqn:P; [|apply safe_failed].
  apply safe_fence. unfold may_fence. simpl. by rewrite Hc, Hi, P.
Qed.

Lemma safe_drain g mk m : sn_closed m = true ->
  safe (drain_and_fence binding rollback target min_writer g mk) m.
Proof.
  intros Hc. apply safe_call; [done|]. intros p.
  apply safe_bind_stays; [apply stays_invalidate|]. intros mk'. destruct p; cbn [_reprobe].
  { apply safe_bind_stays; [apply bstays_doing, quiet_ret|]. intros a. case_match; [apply safe_failed|].
    by apply safe_confirm. }
  all: apply safe_call; [done|]; intros p; destruct (confirmed_absent p) eqn:P; [|apply safe_failed];
    by apply safe_confirm.
Qed.

Lemma safe_isolate g mk m : sn_closed m = true ->
  safe (isolate_and_fence binding rollback target min_writer g mk) m.
Proof.
  intros Hc. unfold isolate_and_fence.
  assert (K : forall m mk, sn_closed m = true -> safe (
    isolate ← doing (perform IsolateWriters);
    m ← invalidate_fence binding target min_writer g mk isolate;
    isolate ← doing (_reprobe isolate (perform ProbeWriters));
    if negb (confirmed_absent isolate) then failed_probe m "old writer" isolate else
    drain_and_fence binding rollback target min_writer g m) m).
  { clear m mk Hc. intros m mk Hc. apply safe_call; [done|]. intros p.
    apply safe_bind_stays; [apply stays_invalidate|]. intros mk'. destruct p; cbn [_reprobe].
    { apply safe_bind_stays; [apply bstays_doing, quiet_ret|]. intros a. case_match; [apply safe_failed|].
      by apply safe_drain. }
    all: apply safe_call; [done|]; intros p; case_match; [apply safe_failed|]; by apply safe_drain. }
  destruct (fenced mk); [|by apply safe_bind_stays; [apply bstays_ret|]; intros a; apply K].
  intros t. apply wp_attempt. apply wp_attempt, wp_attempt. split; [done|]. intros [p|x] _; [|done].
  apply stays_invalidate. intros [[[mk'|x] t']|x]; [|done..]. by apply K.
Qed.

Lemma safe_body marker m : safe (cutover_body binding rollback target min_writer marker) m.
Proof.
  unfold cutover_body. apply safe_bind_stays; [apply bstays_cas; by destruct rollback|]. intros r.
  case_match; [by intros t|]. case_match; [by intros t|].
  apply safe_bind_stays; [apply bstays_doing, quiet_read|]. intros [mk|]; [|by intros t].
  destruct (py_int (cr_generation r)); [|by intros t]. case_match; [by intros t|].
  case_match; [apply safe_report|].
  apply safe_bind_stays; [apply stays_owned|]. intros mk'. apply safe_call; [done|]. intros v.
  apply safe_call; [done|]. intros a. destruct (teqb (av_state a) (tx "closed")) eqn:C; [|by intros t].
  by apply safe_isolate.
Qed.

End Runs.

Lemma safe_run binding target rollback m :
  wpr (run_writer_cutover binding target rollback) (fun _ _ => True) m.
Proof.
  unfold run_writer_cutover. case_match; [done|]. apply wp_attempt, quiet_read.
  intros [marker|[]]; [|done..]. apply wp_attempt. unfold trusted_target. apply wp_attempt.
  split; [done|]. intros r _.
  assert (K : forall (o : result exn Z), wpr (
    match o with
    | Raise (CutoverError msg) => mret (_result false marker closed_view 0 false msg)
    | Raise OtherError => raise OtherError
    | Ok target =>
        let min_writer := Z.max target (from_option minimum_writer_version 1 marker) in
        out ← cutover_body binding rollback target min_writer marker 0;
        match out with
        | (Ok res, _) => mret res
        | (Raise (CutoverError msg), t) => report_failure t msg
        | (Raise OtherError, _) => raise OtherError
        end
    end) (fun _ _ => True) m).
  { intros [tg|[]]; try done. cbv zeta. apply wp_bind. eapply wp_mono; [|apply safe_body].
    intros m' [[[res|[]] t]|x] _; try done. unfold report_failure. apply wp_bind, wp_catch.
    split; [done|]. intros [a|[]] _; try done; apply wp_bind, wp_catch, quiet_read; by intros [mk|[]]. }
  destruct r as [v|x]; cbn [wp after]; [|apply (K (Raise x))].
  destruct target as [t|]; [destruct (t =? v)|]; [apply (K (Ok v))|done|apply (K (Ok v))].
Qed.


Lemma accepts_allowed m t1 e r t2 m' :
  accepts allowed after m (t1 ++ existT e r :: t2) = Some m' ->
  allowed (fold_left (fun m p => after m (projT1 p) (projT2 p)) t1 m) e = true.
Proof.
  revert m. induction t1 as [|[e1 r1] t1 IH]; intros m; cbn [app accepts fold_left projT1 projT2].
  - by destruct (allowed m e).
  - destruct (allowed m e1); [|done]. apply IH.
Qed.

(** ** Reading a marker back *)

Definition opt_fits (o : option Z) : Prop := match o with Some n => fits_64 n | None => True end.

(** A marker as the operators write it. *)
Record valid_marker (m : CutoverMarker) : Prop := {
  vm_schema : fits_64 (schema_version m) /\ 1 <= schema_version m;
  vm_generation : fits_64 (generation m) /\ 1 <= generation m;
  vm_target : fits_64 (target_writer_version m) /\ 1 <= target_writer_version m;
  vm_minimum : fits_64 (minimum_writer_version m) /\ 1 <= minimum_writer_version m;
  vm_fence : opt_fits (fence_time m);
  vm_not_before : opt_fits (not_before m);
  vm_window : fits_64 (window_seconds m) /\ 1 <= window_seconds m;
  vm_margin : fits_64 (safety_margin_seconds m);
  vm_consistent : consistent m = Ok tt }.

Lemma state_of_text s : state_of (state_text s) = Some s.
Proof. by destruct s. Qed.

Lemma str_int_nonempty n : fits_64 n -> teqb (str_int n) [] = false.
Proof.
  intros [Hn _]. unfold str_int. rewrite (proj2 (Z.ltb_ge n 0)) by lia.
  destruct (str_nat_head n Hn) as (c & r & -> & _). done.
Qed.

Lemma optional_int_read n name : fits_64 n -> _optional_int (str_int n) name = Ok (Some n).
Proof.
  intros H. unfold _optional_int. rewrite str_int_nonempty, py_int_str_int by done.
  destruct H as [H _]. by rewrite (proj2 (Z.ltb_ge n 0) H).
Qed.
Lemma optional_int_opt o name : opt_fits o -> _optional_int (opt_text o) name = Ok o.
Proof. destruct o as [n|]; [apply optional_int_read|done]. Qed.
Lemma required_int_read n name minimum : fits_64 n -> minimum <= n ->
  _required_int (str_int n) name minimum = Ok n.
Proof.
  intros H Hm. unfold _required_int. rewrite optional_int_read by done. cbn.
  by rewrite (proj2 (Z.ltb_ge n minimum) Hm).
Qed.

(** The stored fields, by name. *)
Ltac field_tac := unfold field, as_hash; cbn [list_to_map foldr fst snd uncurry];
  repeat (first [rewrite lookup_insert_eq | rewrite lookup_insert_ne by done]); reflexivity.

Lemma as_hash_numbers m :
  field (as_hash m) "schema_version" = str_int (schema_version m) /\
  field (as_hash m) "generation" = str_int (generation m) /\
  field (as_hash m) "target_writer_version" = str_int (target_writer_version m) /\
  field (as_hash m) "minimum_writer_version" = str_int (minimum_writer_version m) /\
  field (as_hash m) "window_seconds" = str_int (window_seconds m) /\
  field (as_hash m) "safety_margin_seconds" = str_int (safety_margin_seconds m).
Proof. split_and!; field_tac. Qed.
Lemma as_hash_texts m :
  field (as_hash m) "fence_time" = opt_text (fence_time m) /\
  field (as_hash m) "not_before" = opt_text (not_before m) /\
  field (as_hash m) "state" = state_text (state m) /\
  field (as_hash m) "release_binding" = release_binding m /\
  field (as_hash m) "admission_reason" = admission_reason m.
Proof. split_and!; field_tac. Qed.

(** ** A concrete run *)

Definition example_marker : CutoverMarker :=
  mkMarker 1 4 2 2 (Some 1000) (Some 1065) active_v2 (tx "release-7") (tx "writer_cutover") 60 5.

(** The cutover is under way in generation 4, nobody writes, and the window is over. *)
Definition example_world : world answer exn := fun history e =>
  let stage st := as_hash (mkMarker 1 4 2 2
    (match st with preparing => None | _ => Some 1000 end)
    (match st with preparing => None | _ => Some 1065 end) st (tx "release-7") (tx "writer_cutover") 60 5) in
  let n := length (List.filter (fun p => match projT1 p with Cas _ => true | _ => false end) history) in
  let st := nth n [preparing; preparing; old_writers_fenced; waiting_window; active_v2] active_v2 in
  match e return result exn (answer e) with
  | HGetAll => Ok (stage st)
  | Cas _ => Ok (mkReply 1 (state_text (nth (S n) [preparing; preparing; old_writers_fenced;
                                                   waiting_window; active_v2] active_v2)) (tx "4") 2000)
  | TrustedWriterVersion => Ok 2
  | CloseAdmission _ => Ok (mkAdmission (tx "closed") (tx "writer_cutover") true)
  | QueryAdmission => Ok (mkAdmission (tx "closed") (tx "writer_cutover") true)
  | OpenAdmissionIfOwned => Ok (mkAdmission (tx "open") [] false)
  | IsolateWriters | ProbeWriters | ProbeInFlightAccepts => Ok absent
  end.
Definition example_trace : list (Effects.entry answer exn) :=
  fst (exec example_world [] (run_writer_cutover (tx "release-7") None false)).

(** ** The properties *)

(** A run fences only what it has looked at.  In every run of the cutover,
    whatever the marker store and the executor answer or raise: when it fences
    the old writers, the last look at admission said closed, the last probe of
    the old writers and the last probe of the requests in flight said absent;
    and it opens admission only after its activation was applied. *)
Theorem fence_after_probes binding target rollback (w : world answer exn) t1 e r t2 :
  fst (exec w [] (run_writer_cutover binding target rollback)) = t1 ++ existT e r :: t2 ->
  (forall a, e = Cas a -> ca_action a = tx "fence" ->
     sn_closed (seen_in t1) = true /\ sn_writers (seen_in t1) = true /\
     sn_inflight (seen_in t1) = true) /\
  (e = OpenAdmissionIfOwned -> sn_active (seen_in t1) = true).
Proof.
  intros E.
  destruct (wp_exec allowed after (fun _ _ => True) w _ _ nothing_seen [] (fun _ _ => I)
              (safe_run binding target rollback nothing_seen)) as (tr & m' & Et & Acc & _).
  rewrite app_nil_l in Et. rewrite <-Et, E in Acc. apply accepts_allowed in Acc. fold (seen_in t1) in Acc.
  split.
  - intros a -> Ha. simpl in Acc. rewrite Ha, teqb_refl in Acc. simpl in Acc. unfold may_fence in Acc.
    bool_prop. done.
  - intros ->. exact Acc.
Qed.

Lemma fence_after_probes_witness : exists t1 a r t2,
  example_trace = t1 ++ existT (Cas a) r :: t2 /\ ca_action a = tx "fence" /\
  sn_writers (seen_in t1) = true.
Proof.
  destruct (entry_at example_trace 10 (fun e => match e with Cas a => teqb (ca_action a) (tx "fence")
                                              | _ => false end)) as (t1 & e & r & t2 & E & Ha);
    [vm_compute; reflexivity|].
  destruct e as [|a| | | | | | |]; try discriminate Ha. apply teqb_spec in Ha.
  exists t1, a, r, t2. split_and!; [exact E|exact Ha|].
  exact (proj1 (proj2 (proj1 (fence_after_probes (tx "release-7") None false example_world t1 (Cas a) r t2 E)
                 a eq_refl Ha))).
Defined.

(** A marker is read back as it was written.  Every consistent marker of
    the operators, stored as the fields of the hash, is parsed to the same
    marker. *)
Theorem marker_roundtrip m : valid_marker m -> parse_cutover_marker (as_hash m) = Ok m.
Proof.
  intros [[V1 V1'] [V2 V2'] [V3 V3'] [V4 V4'] V5 V6 [V7 V7'] V8 V9].
  destruct (as_hash_numbers m) as (F1 & F2 & F3 & F4 & F5 & F6).
  destruct (as_hash_texts m) as (F7 & F8 & F9 & F10 & F11).
  unfold parse_cutover_marker. rewrite F1, F2, F3, F4, F5, F6, F7, F8, F9, F10, F11.
  rewrite bool_decide_true by (unfold as_hash; by rewrite dom_list_to_map_L).
  rewrite state_of_text, (required_int_read _ _ 1 V1 V1'), (required_int_read _ _ 1 V2 V2'),
    (required_int_read _ _ 1 V3 V3'), (required_int_read _ _ 1 V4 V4'), (required_int_read _ _ 1 V7 V7'),
    (required_int_read _ _ 0 V8 (proj1 V8)), (optional_int_opt _ _ V5), (optional_int_opt _ _ V6).
  cbn [mbind result_bind].
  destruct m. cbn in *. by rewrite V9.
Qed.

Lemma marker_roundtrip_witness : parse_cutover_marker (as_hash example_marker) = Ok example_marker.
Proof. apply marker_roundtrip. split; try done; unfold fits_64; simpl; lia. Defined.

End CutoverRun.
