(* ===== verification/SendState.v ===== *)
(** * The send tables

    The rows the send worker's repository works on: chunks, batches, vendor
    attempts, messages, the live-test budget and the usage allocation of a
    chunk, with one setter per column, and the database that holds them beside
    the outbox. *)

From S2P Require Import Prelude PyText Category Routing Failover OutboxContract Outbox.

Module MessageStatus.

Inductive t := pending | sent | delivered | failed | unknown | other.

#[export] Instance eq_dec : EqDecision t.
Proof. solve_decision. Defined.

End MessageStatus.
Export (hints) MessageStatus.

(** [vendor_test_send_attempt.status] *)
Module TestStatus.

Inductive t := reserved | confirmed | uncertain | released.

#[export] Instance eq_dec : EqDecision t.
Proof. solve_decision. Defined.

End TestStatus.
Export (hints) TestStatus.

Module Chunk.

(** [sms_chunk]; the id is the key. *)
Record t := mk {
  batch_id : Z;
  chunk_no : Z;
  custom_id : text;
  phone_count : Z;
  status : ChunkStatus.t;
  vendor_task_id : option text;
  vendor_code : option Z;
  vendor_msg : option text;
  retry_count : Z;
  vendor_attempt_count : Z;
  retry_not_before : option Z;
  submitted_at : option Z;
  submitting_since : option Z;
  uncertain_since : option Z;
  selected_vendor : text;
  route_generation : Z;
  next_vendor : option text;
  route_policy_version : Z;
  failover_from_attempt_id : option Z;
  parent_chunk_id : option Z;
  split_generation : option Z;
  child_ordinal : option Z
}.

(** [SET column = v] *)
Definition set_batch_id (v : Z) (r : t) : t := mk v (chunk_no r) (custom_id r) (phone_count r)
  (status r) (vendor_task_id r) (vendor_code r) (vendor_msg r) (retry_count r)
  (vendor_attempt_count r) (retry_not_before r) (submitted_at r) (submitting_since r)
  (uncertain_since r) (selected_vendor r) (route_generation r) (next_vendor r)
  (route_policy_version r) (failover_from_attempt_id r) (parent_chunk_id r) (split_generation r)
  (child_ordinal r).
Definition set_chunk_no (v : Z) (r : t) : t := mk (batch_id r) v (custom_id r) (phone_count r)
  (status r) (vendor_task_id r) (vendor_code r) (vendor_msg r) (retry_count r)
  (vendor_attempt_count r) (retry_not_before r) (submitted_at r) (submitting_since r)
  (uncertain_since r) (selected_vendor r) (route_generation r) (next_vendor r)
  (route_policy_version r) (failover_from_attempt_id r) (parent_chunk_id r) (split_generation r)
  (child_ordinal r).
Definition set_custom_id (v : text) (r : t) : t := mk (batch_id r) (chunk_no r) v (phone_count r)
  (status r) (vendor_task_id r) (vendor_code r) (vendor_msg r) (retry_count r)
  (vendor_attempt_count r) (retry_not_before r) (submitted_at r) (submitting_since r)
  (uncertain_since r) (selected_vendor r) (route_generation r) (next_vendor r)
  (route_policy_version r) (failover_from_attempt_id r) (parent_chunk_id r) (split_generation r)
  (child_ordinal r).
Definition set_phone_count (v : Z) (r : t) : t := mk (batch_id r) (chunk_no r) (custom_id r) v
  (status r) (vendor_task_id r) (vendor_code r) (vendor_msg r) (retry_count r)
  (vendor_attempt_count r) (retry_not_before r) (submitted_at r) (submitting_since r)
  (uncertain_since r) (selected_vendor r) (route_generation r) (next_vendor r)
  (route_policy_version r) (failover_from_attempt_id r) (parent_chunk_id r) (split_generation r)
  (child_ordinal r).
Definition set_status (v : ChunkStatus.t) (r : t) : t := mk (batch_id r) (chunk_no r) (custom_id
  r) (phone_count r) v (vendor_task_id r) (vendor_code r) (vendor_msg r) (retry_count r)
  (vendor_attempt_count r) (retry_not_before r) (submitted_at r) (submitting_since r)
  (uncertain_since r) (selected_vendor r) (route_generation r) (next_vendor r)
  (route_policy_version r) (failover_from_attempt_id r) (parent_chunk_id r) (split_generation r)
  (child_ordinal r).
Definition set_vendor_task_id (v : option text) (r : t) : t := mk (batch_id r) (chunk_no r)
  (custom_id r) (phone_count r) (status r) v (vendor_code r) (vendor_msg r) (retry_count r)
  (vendor_attempt_count r) (retry_not_before r) (submitted_at r) (submitting_since r)
  (uncertain_since r) (selected_vendor r) (route_generation r) (next_vendor r)
  (route_policy_version r) (failover_from_attempt_id r) (parent_chunk_id r) (split_generation r)
  (child_ordinal r).
Definition set_vendor_code (v : option Z) (r : t) : t := mk (batch_id r) (chunk_no r) (custom_id
  r) (phone_count r) (status r) (vendor_task_id r) v (vendor_msg r) (retry_count r)
  (vendor_attempt_count r) (retry_not_before r) (submitted_at r) (submitting_since r)
  (uncertain_since r) (selected_vendor r) (route_generation r) (next_vendor r)
  (route_policy_version r) (failover_from_attempt_id r) (parent_chunk_id r) (split_generation r)
  (child_ordinal r).
Definition set_vendor_msg (v : option text) (r : t) : t := mk (batch_id r) (chunk_no r) (custom_id
  r) (phone_count r) (status r) (vendor_task_id r) (vendor_code r) v (retry_count r)
  (vendor_attempt_count r) (retry_not_before r) (submitted_at r) (submitting_since r)
  (uncertain_since r) (selected_vendor r) (route_generation r) (next_vendor r)
  (route_policy_version r) (failover_from_attempt_id r) (parent_chunk_id r) (split_generation r)
  (child_ordinal r).
Definition set_retry_count (v : Z) (r : t) : t := mk (batch_id r) (chunk_no r) (custom_id r)
  (phone_count r) (status r) (vendor_task_id r) (vendor_code r) (vendor_msg r) v
  (vendor_attempt_count r) (retry_not_before r) (submitted_at r) (submitting_since r)
  (uncertain_since r) (selected_vendor r) (route_generation r) (next_vendor r)
  (route_policy_version r) (failover_from_attempt_id r) (parent_chunk_id r) (split_generation r)
  (child_ordinal r).
Definition set_vendor_attempt_count (v : Z) (r : t) : t := mk (batch_id r) (chunk_no r) (custom_id
  r) (phone_count r) (status r) (vendor_task_id r) (vendor_code r) (vendor_msg r) (retry_count r)
  v (retry_not_before r) (submitted_at r) (submitting_since r) (uncertain_since r)
  (selected_vendor r) (route_generation r) (next_vendor r) (route_policy_version r)
  (failover_from_attempt_id r) (parent_chunk_id r) (split_generation r) (child_ordinal r).
Definition set_retry_not_before (v : option Z) (r : t) : t := mk (batch_id r) (chunk_no r)
  (custom_id r) (phone_count r) (status r) (vendor_task_id r) (vendor_code r) (vendor_msg r)
  (retry_count r) (vendor_attempt_count r) v (submitted_at r) (submitting_since r)
  (uncertain_since r) (selected_vendor r) (route_generation r) (next_vendor r)
  (route_policy_version r) (failover_from_attempt_id r) (parent_chunk_id r) (split_generation r)
  (child_ordinal r).
Definition set_submitted_at (v : option Z) (r : t) : t := mk (batch_id r) (chunk_no r) (custom_id
  r) (phone_count r) (status r) (vendor_task_id r) (vendor_code r) (vendor_msg r) (retry_count r)
  (vendor_attempt_count r) (retry_not_before r) v (submitting_since r) (uncertain_since r)
  (selected_vendor r) (route_generation r) (next_vendor r) (route_policy_version r)
  (failover_from_attempt_id r) (parent_chunk_id r) (split_generation r) (child_ordinal r).
Definition set_submitting_since (v : option Z) (r : t) : t := mk (batch_id r) (chunk_no r)
  (custom_id r) (phone_count r) (status r) (vendor_task_id r) (vendor_code r) (vendor_msg r)
  (retry_count r) (vendor_attempt_count r) (retry_not_before r) (submitted_at r) v
  (uncertain_since r) (selected_vendor r) (route_generation r) (next_vendor r)
  (route_policy_version r) (failover_from_attempt_id r) (parent_chunk_id r) (split_generation r)
  (child_ordinal r).
Definition set_uncertain_since (v : option Z) (r : t) : t := mk (batch_id r) (chunk_no r)
  (custom_id r) (phone_count r) (status r) (vendor_task_id r) (vendor_code r) (vendor_msg r)
  (retry_count r) (vendor_attempt_count r) (retry_not_before r) (submitted_at r) (submitting_since
  r) v (selected_vendor r) (route_generation r) (next_vendor r) (route_policy_version r)
  (failover_from_attempt_id r) (parent_chunk_id r) (split_generation r) (child_ordinal r).
Definition set_selected_vendor (v : text) (r : t) : t := mk (batch_id r) (chunk_no r) (custom_id
  r) (phone_count r) (status r) (vendor_task_id r) (vendor_code r) (vendor_msg r) (retry_count r)
  (vendor_attempt_count r) (retry_not_before r) (submitted_at r) (submitting_since r)
  (uncertain_since r) v (route_generation r) (next_vendor r) (route_policy_version r)
  (failover_from_attempt_id r) (parent_chunk_id r) (split_generation r) (child_ordinal r).
Definition set_route_generation (v : Z) (r : t) : t := mk (batch_id r) (chunk_no r) (custom_id r)
  (phone_count r) (status r) (vendor_task_id r) (vendor_code r) (vendor_msg r) (retry_count r)
  (vendor_attempt_count r) (retry_not_before r) (submitted_at r) (submitting_since r)
  (uncertain_since r) (selected_vendor r) v (next_vendor r) (route_policy_version r)
  (failover_from_attempt_id r) (parent_chunk_id r) (split_generation r) (child_ordinal r).
Definition set_next_vendor (v : option text) (r : t) : t := mk (batch_id r) (chunk_no r)
  (custom_id r) (phone_count r) (status r) (vendor_task_id r) (vendor_code r) (vendor_msg r)
  (retry_count r) (vendor_attempt_count r) (retry_not_before r) (submitted_at r) (submitting_since
  r) (uncertain_since r) (selected_vendor r) (route_generation r) v (route_policy_version r)
  (failover_from_attempt_id r) (parent_chunk_id r) (split_generation r) (child_ordinal r).
Definition set_route_policy_version (v : Z) (r : t) : t := mk (batch_id r) (chunk_no r) (custom_id
  r) (phone_count r) (status r) (vendor_task_id r) (vendor_code r) (vendor_msg r) (retry_count r)
  (vendor_attempt_count r) (retry_not_before r) (submitted_at r) (submitting_since r)
  (uncertain_since r) (selected_vendor r) (route_generation r) (next_vendor r) v
  (failover_from_attempt_id r) (parent_chunk_id r) (split_generation r) (child_ordinal r).
Definition set_failover_from_attempt_id (v : option Z) (r : t) : t := mk (batch_id r) (chunk_no r)
  (custom_id r) (phone_count r) (status r) (vendor_task_id r) (vendor_code r) (vendor_msg r)
  (retry_count r) (vendor_attempt_count r) (retry_not_before r) (submitted_at r) (submitting_since
  r) (uncertain_since r) (selected_vendor r) (route_generation r) (next_vendor r)
  (route_policy_version r) v (parent_chunk_id r) (split_generation r) (child_ordinal r).
Definition set_parent_chunk_id (v : option Z) (r : t) : t := mk (batch_id r) (chunk_no r)
  (custom_id r) (phone_count r) (status r) (vendor_task_id r) (vendor_code r) (vendor_msg r)
  (retry_count r) (vendor_attempt_count r) (retry_not_before r) (submitted_at r) (submitting_since
  r) (uncertain_since r) (selected_vendor r) (route_generation r) (next_vendor r)
  (route_policy_version r) (failover_from_attempt_id r) v (split_generation r) (child_ordinal r).
Definition set_split_generation (v : option Z) (r : t) : t := mk (batch_id r) (chunk_no r)
  (custom_id r) (phone_count r) (status r) (vendor_task_id r) (vendor_code r) (vendor_msg r)
  (retry_count r) (vendor_attempt_count r) (retry_not_before r) (submitted_at r) (submitting_since
  r) (uncertain_since r) (selected_vendor r) (route_generation r) (next_vendor r)
  (route_policy_version r) (failover_from_attempt_id r) (parent_chunk_id r) v (child_ordinal r).
Definition set_child_ordinal (v : option Z) (r : t) : t := mk (batch_id r) (chunk_no r) (custom_id
  r) (phone_count r) (status r) (vendor_task_id r) (vendor_code r) (vendor_msg r) (retry_count r)
  (vendor_attempt_count r) (retry_not_before r) (submitted_at r) (submitting_since r)
  (uncertain_since r) (selected_vendor r) (route_generation r) (next_vendor r)
  (route_policy_version r) (failover_from_attempt_id r) (parent_chunk_id r) (split_generation r)
  v.

End Chunk.

Module Batch.

(** [sms_batch], the columns the send transactions read and write. *)
Record t := mk {
  status : BatchStatus.t;
  category : text;
  route_policy_version : Z;
  segments : Z;
  app_id : option Z;
  delivered : Z;
  failed : Z;
  unknown_cnt : Z;
  active_message_count : Z;
  updated_at : Z
}.

(** [SET column = v] *)
Definition set_status (v : BatchStatus.t) (r : t) : t := mk v (category r) (route_policy_version
  r) (segments r) (app_id r) (delivered r) (failed r) (unknown_cnt r) (active_message_count r)
  (updated_at r).
Definition set_category (v : text) (r : t) : t := mk (status r) v (route_policy_version r)
  (segments r) (app_id r) (delivered r) (failed r) (unknown_cnt r) (active_message_count r)
  (updated_at r).
Definition set_route_policy_version (v : Z) (r : t) : t := mk (status r) (category r) v (segments
  r) (app_id r) (delivered r) (failed r) (unknown_cnt r) (active_message_count r) (updated_at r).
Definition set_segments (v : Z) (r : t) : t := mk (status r) (category r) (route_policy_version r)
  v (app_id r) (delivered r) (failed r) (unknown_cnt r) (active_message_count r) (updated_at r).
Definition set_app_id (v : option Z) (r : t) : t := mk (status r) (category r)
  (route_policy_version r) (segments r) v (delivered r) (failed r) (unknown_cnt r)
  (active_message_count r) (updated_at r).
Definition set_delivered (v : Z) (r : t) : t := mk (status r) (category r) (route_policy_version
  r) (segments r) (app_id r) v (failed r) (unknown_cnt r) (active_message_count r) (updated_at r).
Definition set_failed (v : Z) (r : t) : t := mk (status r) (category r) (route_policy_version r)
  (segments r) (app_id r) (delivered r) v (unknown_cnt r) (active_message_count r) (updated_at r).
Definition set_unknown_cnt (v : Z) (r : t) : t := mk (status r) (category r) (route_policy_version
  r) (segments r) (app_id r) (delivered r) (failed r) v (active_message_count r) (updated_at r).
Definition set_active_message_count (v : Z) (r : t) : t := mk (status r) (category r)
  (route_policy_version r) (segments r) (app_id r) (delivered r) (failed r) (unknown_cnt r) v
  (updated_at r).
Definition set_updated_at (v : Z) (r : t) : t := mk (status r) (category r) (route_policy_version
  r) (segments r) (app_id r) (delivered r) (failed r) (unknown_cnt r) (active_message_count r) v.

End Batch.

Module Attempt.

(** [sms_vendor_attempt] *)
Record t := mk {
  chunk_id : Z;
  vendor_id : text;
  generation : Z;
  outcome : Outcome.t;
  adapter_id : text;
  routing_reason : option text;
  safe_to_failover : bool;
  vendor_code : option Z;
  invoke_started_at : option Z;
  updated_at : Z
}.

(** [SET column = v] *)
Definition set_chunk_id (v : Z) (r : t) : t := mk v (vendor_id r) (generation r) (outcome r)
  (adapter_id r) (routing_reason r) (safe_to_failover r) (vendor_code r) (invoke_started_at r)
  (updated_at r).
Definition set_vendor_id (v : text) (r : t) : t := mk (chunk_id r) v (generation r) (outcome r)
  (adapter_id r) (routing_reason r) (safe_to_failover r) (vendor_code r) (invoke_started_at r)
  (updated_at r).
Definition set_generation (v : Z) (r : t) : t := mk (chunk_id r) (vendor_id r) v (outcome r)
  (adapter_id r) (routing_reason r) (safe_to_failover r) (vendor_code r) (invoke_started_at r)
  (updated_at r).
Definition set_outcome (v : Outcome.t) (r : t) : t := mk (chunk_id r) (vendor_id r) (generation r)
  v (adapter_id r) (routing_reason r) (safe_to_failover r) (vendor_code r) (invoke_started_at r)
  (updated_at r).
Definition set_adapter_id (v : text) (r : t) : t := mk (chunk_id r) (vendor_id r) (generation r)
  (outcome r) v (routing_reason r) (safe_to_failover r) (vendor_code r) (invoke_started_at r)
  (updated_at r).
Definition set_routing_reason (v : option text) (r : t) : t := mk (chunk_id r) (vendor_id r)
  (generation r) (outcome r) (adapter_id r) v (safe_to_failover r) (vendor_code r)
  (invoke_started_at r) (updated_at r).
Definition set_safe_to_failover (v : bool) (r : t) : t := mk (chunk_id r) (vendor_id r)
  (generation r) (outcome r) (adapter_id r) (routing_reason r) v (vendor_code r)
  (invoke_started_at r) (updated_at r).
Definition set_vendor_code (v : option Z) (r : t) : t := mk (chunk_id r) (vendor_id r) (generation
  r) (outcome r) (adapter_id r) (routing_reason r) (safe_to_failover r) v (invoke_started_at r)
  (updated_at r).
Definition set_invoke_started_at (v : option Z) (r : t) : t := mk (chunk_id r) (vendor_id r)
  (generation r) (outcome r) (adapter_id r) (routing_reason r) (safe_to_failover r) (vendor_code
  r) v (updated_at r).
Definition set_updated_at (v : Z) (r : t) : t := mk (chunk_id r) (vendor_id r) (generation r)
  (outcome r) (adapter_id r) (routing_reason r) (safe_to_failover r) (vendor_code r)
  (invoke_started_at r) v.

End Attempt.

Module Message.

(** [sms_message]; [report_evidence]: one of the four report columns is set. *)
Record t := mk {
  batch_id : Z;
  chunk_id : option Z;
  status : MessageStatus.t;
  report_evidence : bool
}.

(** [SET column = v] *)
Definition set_batch_id (v : Z) (r : t) : t := mk v (chunk_id r) (status r) (report_evidence r).
Definition set_chunk_id (v : option Z) (r : t) : t := mk (batch_id r) v (status r)
  (report_evidence r).
Definition set_status (v : MessageStatus.t) (r : t) : t := mk (batch_id r) (chunk_id r) v
  (report_evidence r).
Definition set_report_evidence (v : bool) (r : t) : t := mk (batch_id r) (chunk_id r) (status r)
  v.

End Message.

Module Usage.

(** [vendor_test_daily_usage], by day *)
Record t := mk {
  in_flight_segments : Z;
  confirmed_segments : Z;
  uncertain_segments : Z
}.

(** [SET column = v] *)
Definition set_in_flight_segments (v : Z) (r : t) : t := mk v (confirmed_segments r)
  (uncertain_segments r).
Definition set_confirmed_segments (v : Z) (r : t) : t := mk (in_flight_segments r) v
  (uncertain_segments r).
Definition set_uncertain_segments (v : Z) (r : t) : t := mk (in_flight_segments r)
  (confirmed_segments r) v.

End Usage.

Module Test.

(** [vendor_test_send_attempt] *)
Record t := mk {
  usage_date : Z;
  chunk_id : Z;
  attempt_no : Z;
  segments : Z;
  status : TestStatus.t
}.

(** [SET column = v] *)
Definition set_usage_date (v : Z) (r : t) : t := mk v (chunk_id r) (attempt_no r) (segments r)
  (status r).
Definition set_chunk_id (v : Z) (r : t) : t := mk (usage_date r) v (attempt_no r) (segments r)
  (status r).
Definition set_attempt_no (v : Z) (r : t) : t := mk (usage_date r) (chunk_id r) v (segments r)
  (status r).
Definition set_segments (v : Z) (r : t) : t := mk (usage_date r) (chunk_id r) (attempt_no r) v
  (status r).
Definition set_status (v : TestStatus.t) (r : t) : t := mk (usage_date r) (chunk_id r) (attempt_no
  r) (segments r) v.

End Test.

Module Alloc.

(** [usage_chunk_allocation], by chunk *)
Record t := mk {
  batch_id : Z;
  recipient_count : Z;
  segment_count : Z;
  request_count : Z
}.

(** [SET column = v] *)
Definition set_batch_id (v : Z) (r : t) : t := mk v (recipient_count r) (segment_count r)
  (request_count r).
Definition set_recipient_count (v : Z) (r : t) : t := mk (batch_id r) v (segment_count r)
  (request_count r).
Definition set_segment_count (v : Z) (r : t) : t := mk (batch_id r) (recipient_count r) v
  (request_count r).
Definition set_request_count (v : Z) (r : t) : t := mk (batch_id r) (recipient_count r)
  (segment_count r) v.

End Alloc.

Module SendState.

(** Calls into components whose tables are not part of this state: the final
    callback of a batch, the release of its in-flight reservation, and the
    re-evaluation of its usage after confirmed non-use. *)
Inductive effect :=
| BatchFinished (batch_id : Z)
| InflightRelease (batch_id : Z) (reason : text)
| ReevaluateUnused (batch_id : Z).

Record db := mkDb {
  chunks : gmap Z Chunk.t;
  batches : gmap Z Batch.t;
  attempts : gmap Z Attempt.t;
  messages : gmap Z Message.t;
  usage : gmap Z Usage.t;
  tests : list Test.t;
  allocs : gmap Z Alloc.t;
  outbox : Outbox.db;
  effects : list effect;
  next_attempt_id : Z;
  next_chunk_id : Z
}.

Definition set_chunks f (s : db) : db :=
  mkDb (f (chunks s)) (batches s) (attempts s) (messages s) (usage s) (tests s) (allocs s)
    (outbox s) (effects s) (next_attempt_id s) (next_chunk_id s).
Definition set_batches f (s : db) : db :=
  mkDb (chunks s) (f (batches s)) (attempts s) (messages s) (usage s) (tests s) (allocs s)
    (outbox s) (effects s) (next_attempt_id s) (next_chunk_id s).
Definition set_attempts f (s : db) : db :=
  mkDb (chunks s) (batches s) (f (attempts s)) (messages s) (usage s) (tests s) (allocs s)
    (outbox s) (effects s) (next_attempt_id s) (next_chunk_id s).
Definition set_messages f (s : db) : db :=
  mkDb (chunks s) (batches s) (attempts s) (f (messages s)) (usage s) (tests s) (allocs s)
    (outbox s) (effects s) (next_attempt_id s) (next_chunk_id s).
Definition set_usage f (s : db) : db :=
  mkDb (chunks s) (batches s) (attempts s) (messages s) (f (usage s)) (tests s) (allocs s)
    (outbox s) (effects s) (next_attempt_id s) (next_chunk_id s).
Definition set_tests f (s : db) : db :=
  mkDb (chunks s) (batches s) (attempts s) (messages s) (usage s) (f (tests s)) (allocs s)
    (outbox s) (effects s) (next_attempt_id s) (next_chunk_id s).
Definition set_allocs f (s : db) : db :=
  mkDb (chunks s) (batches s) (attempts s) (messages s) (usage s) (tests s) (f (allocs s))
    (outbox s) (effects s) (next_attempt_id s) (next_chunk_id s).
Definition set_outbox o (s : db) : db :=
  mkDb (chunks s) (batches s) (attempts s) (messages s) (usage s) (tests s) (allocs s)
    o (effects s) (next_attempt_id s) (next_chunk_id s).
Definition log_effect e (s : db) : db :=
  mkDb (chunks s) (batches s) (attempts s) (messages s) (usage s) (tests s) (allocs s)
    (outbox s) (effects s ++ [e]) (next_attempt_id s) (next_chunk_id s).
Definition take_attempt_id (s : db) : db :=
  mkDb (chunks s) (batches s) (attempts s) (messages s) (usage s) (tests s) (allocs s)
    (outbox s) (effects s) (next_attempt_id s + 1) (next_chunk_id s).
Definition take_chunk_id (s : db) : db :=
  mkDb (chunks s) (batches s) (attempts s) (messages s) (usage s) (tests s) (allocs s)
    (outbox s) (effects s) (next_attempt_id s) (next_chunk_id s + 1).

(** ** Statements *)

Definition tx_ (A : Type) : Type := stex db exc A.

(** [UPDATE sms_chunk SET <f> WHERE id=:id AND <guard> RETURNING id] *)
Definition update_chunk (id : Z) (guard : Chunk.t -> bool) (f : Chunk.t -> Chunk.t)
    : tx_ (option Chunk.t) :=
  s ← get;
  match chunks s !! id with
  | Some c => if guard c then _ ← modify (set_chunks (<[id := f c]>)); mret (Some (f c))
              else mret None
  | None => mret None
  end.

Definition update_batch (id : Z) (f : Batch.t -> Batch.t) : tx_ unit :=
  modify (set_batches (alter f id)).

(** Run an outbox statement inside the transaction. *)
Definition in_outbox {A} (m : stex Outbox.db exc A) : tx_ A :=
  fun s => match m (outbox s) with
           | Ok (a, o) => Ok (a, set_outbox o s)
           | Raise e => Raise e
           end.

Definition in_status (l : list ChunkStatus.t) (c : Chunk.t) : bool :=
  bool_decide (Chunk.status c ∈ l).
Definition callable (b : Batch.t) : bool :=
  bool_decide (Batch.status b ∈ [BatchStatus.queued; BatchStatus.sending]).

(** The attempts of a chunk in the order [ORDER BY generation, id]. *)
Definition before (a b : Z * Attempt.t) : Prop :=
  Attempt.generation (snd a) < Attempt.generation (snd b) \/
  (Attempt.generation (snd a) = Attempt.generation (snd b) /\ fst a <= fst b).
#[export] Instance before_dec a b : Decision (before a b).
Proof. unfold before. apply _. Defined.

Definition of_chunk (chunk_id : Z) (p : Z * Attempt.t) : bool :=
  Attempt.chunk_id (snd p) =? chunk_id.

Definition chunk_attempts (chunk_id : Z) (s : db) : list (Z * Attempt.t) :=
  sorting.merge_sort before (List.filter (of_chunk chunk_id) (map_to_list (attempts s))).

(** The [VendorAttempt] value of a row. *)
Definition view (a : Attempt.t) : Routing.VendorAttempt :=
  Routing.mkAttempt (Attempt.vendor_id a) (Attempt.generation a) (Attempt.outcome a)
    (Attempt.safe_to_failover a) (Attempt.vendor_code a).

(** [services/send_locks.py]: the locked chunk, its batch and its attempts. *)
Record LockedSendContext := mkContext {
  lc_chunk : Chunk.t;
  lc_batch : Batch.t;
  lc_attempts : list (Z * Attempt.t)
}.

Definition lock_send_context (chunk_id : Z) (s : db) : option LockedSendContext :=
  c ← chunks s !! chunk_id;
  b ← batches s !! Chunk.batch_id c;
  Some (mkContext c b (chunk_attempts chunk_id s)).

(** The outcomes of the unique index [uk_sms_vendor_attempt_irreversible]. *)
Definition irreversible (a : Attempt.t) : bool :=
  bool_decide (Attempt.outcome a ∈ [Outcome.submitted; Outcome.uncertain; Outcome.invoking]).

(** The constraints of [sms_vendor_attempt] on an inserted row. *)
Definition attempt_constraints (a : Attempt.t) (s : db) : result exc unit :=
  let same := snd <$> chunk_attempts (Attempt.chunk_id a) s in
  _ ← require (fullmatch Routing.VENDOR_ID_PATTERN (Attempt.vendor_id a)
               && fullmatch Routing.VENDOR_ID_PATTERN (Attempt.adapter_id a)
               && (1 <=? Attempt.generation a)) (Outbox.IntegrityError "check");
  _ ← require (bool_decide (is_Some (chunks s !! Attempt.chunk_id a)))
        (Outbox.IntegrityError "sms_vendor_attempt_chunk_id_fkey");
  _ ← refuse (List.existsb (fun b => Attempt.generation b =? Attempt.generation a) same)
        (Outbox.IntegrityError "uk_sms_vendor_attempt_generation");
  refuse (irreversible a && List.existsb irreversible same)
    (Outbox.IntegrityError "uk_sms_vendor_attempt_irreversible").

Definition insert_attempt (a : Attempt.t) : tx_ Z :=
  s ← get;
  _ ← lift (attempt_constraints a s);
  _ ← modify (fun s => take_attempt_id (set_attempts (<[next_attempt_id s := a]>) s));
  mret (next_attempt_id s).

(** [UPDATE sms_vendor_attempt SET <f> WHERE id=:id AND outcome='invoking'] *)
Definition settle_attempt (id : Z) (f : Attempt.t -> Attempt.t) : tx_ bool :=
  s ← get;
  match attempts s !! id with
  | Some a =>
      if bool_decide (Attempt.outcome a = Outcome.invoking)
      then _ ← modify (set_attempts (<[id := f a]>)); mret true
      else mret false
  | None => mret false
  end.

End SendState.
