(* ===== verification/SendStore.v ===== *)
(** * The chunk repository ([tasks/send_repository*.py])

    Every transaction the send worker runs on its tables: claiming a chunk for
    submission with the live-test budget, beginning and finalizing a vendor
    attempt, claiming the next vendor after a contractual rejection, the state
    changes of a chunk, the split of an oversized chunk and the recovery of
    stalled ones. *)

From S2P Require Import Prelude PyText Category VendorCodes Routing Failover.
From S2P Require Import OutboxContract Outbox SendState.

Module SendStore.
Import SendState.

(** ** Reports ([tasks/send.py]) *)

Inductive FinalizeKind :=
| APPLIED | ALREADY_FINALIZED_SAME_RESULT | FINALIZED_DIFFERENT_RESULT
| RECOVERY_MARKED_UNCERTAIN | STATE_CORRUPTION | LOST_CAS.

#[export] Instance FinalizeKind_eq_dec : EqDecision FinalizeKind.
Proof. solve_decision. Defined.

Record FinalizeReport := mkReport {
  fr_kind : FinalizeKind;
  fr_result : Outcome.t;
  fr_next_action : option Failover.NextAction;
  fr_next_vendor : option text;
  fr_route_generation : option Z;
  fr_previous_attempt_id : option Z;
  fr_route_policy_version : option Z;
  fr_chunk_status : option ChunkStatus.t
}.

Definition bare_report (k : FinalizeKind) (r : Outcome.t) : FinalizeReport :=
  mkReport k r None None None None None None.

Definition classify_finalize_conflict (attempt_outcome : Outcome.t) (chunk_status : ChunkStatus.t)
    (requested : Outcome.t) : FinalizeKind :=
  if bool_decide (attempt_outcome = requested) then
    match requested, chunk_status with
    | Outcome.submitted, ChunkStatus.submitted
    | Outcome.uncertain, ChunkStatus.uncertain
    | (Outcome.retry_scheduled | Outcome.delayed | Outcome.paused), ChunkStatus.retrying
    | (Outcome.rejected | Outcome.failed), ChunkStatus.failed
    | Outcome.rejected, ChunkStatus.failover_pending => ALREADY_FINALIZED_SAME_RESULT
    | _, _ => STATE_CORRUPTION
    end
  else if bool_decide (attempt_outcome = Outcome.uncertain)
          || bool_decide (chunk_status = ChunkStatus.uncertain) then RECOVERY_MARKED_UNCERTAIN
  else if bool_decide (requested = Outcome.submitted)
          && bool_decide (chunk_status = ChunkStatus.submitted) then STATE_CORRUPTION
  else if bool_decide (attempt_outcome ∈ [Outcome.submitted; Outcome.uncertain; Outcome.failed;
                                          Outcome.inconsistent]) then FINALIZED_DIFFERENT_RESULT
  else STATE_CORRUPTION.

Definition _report_from_locked_state (a : Attempt.t) (c : Chunk.t) (requested : Outcome.t)
    : FinalizeReport :=
  let st := Chunk.status c in
  let actual := Attempt.outcome a in
  let requested :=
    if bool_decide (requested = Outcome.delayed) && bool_decide (actual = Outcome.failed)
       && bool_decide (st = ChunkStatus.failed)
       && bool_decide (Chunk.vendor_msg c = Some Codes.DELAYED_RETRY_EXHAUSTED)
    then actual else requested in
  mkReport (classify_finalize_conflict actual st requested) actual
    match st with
    | ChunkStatus.failed => Some Failover.FAILED
    | ChunkStatus.failover_pending => Some Failover.FAILOVER_PENDING
    | ChunkStatus.retrying => Some Failover.RETRYING
    | _ => None
    end
    match st with ChunkStatus.failover_pending => Chunk.next_vendor c | _ => None end
    (Some (Chunk.route_generation c)) (Chunk.failover_from_attempt_id c)
    (Some (Chunk.route_policy_version c)) (Some st).

(** ** The live-test budget ([services/vendor_test_budget.py]) *)

Definition LIVE_TEST_DAILY_SEGMENT_LIMIT : Z := 100.

Inductive SubmissionClaimStatus := CLAIMED | STALE | DAILY_LIMIT.
Record SubmissionClaim := mkSubmission {
  sc_status : SubmissionClaimStatus;
  sc_reset_at : option Z
}.

(** The Shanghai day of an instant and the start of the next one. *)
Definition live_test_usage_window (now : Z) : Z * Z :=
  let d := Category.local_date now in (d, Category.combine (d + 1) 0).

Definition reserved_for (chunk_id : Z) (t : Test.t) : bool :=
  (Test.chunk_id t =? chunk_id) && bool_decide (Test.status t = TestStatus.reserved).

Definition settle_usage (status : TestStatus.t) (segments : Z) (u : Usage.t) : Usage.t :=
  Usage.mk (Usage.in_flight_segments u - segments)
    (Usage.confirmed_segments u + match status with TestStatus.confirmed => segments | _ => 0 end)
    (Usage.uncertain_segments u + match status with TestStatus.uncertain => segments | _ => 0 end).

(** The update joins each day with one settled row of that day. *)
Fixpoint settle_days (status : TestStatus.t) (settled : list Test.t) (done : list Z)
    (u : gmap Z Usage.t) : gmap Z Usage.t :=
  match settled with
  | [] => u
  | t :: rest =>
      let d := Test.usage_date t in
      if bool_decide (d ∈ done) then settle_days status rest done u
      else settle_days status rest (d :: done) (alter (settle_usage status (Test.segments t)) d u)
  end.

Definition settle_live_test_attempt (chunk_id : Z) (status : TestStatus.t) : tx_ unit :=
  s ← get;
  let settled := List.filter (reserved_for chunk_id) (tests s) in
  _ ← modify (set_tests (map (fun t => if reserved_for chunk_id t
                                       then Test.set_status status t else t)));
  modify (set_usage (settle_days status settled [])).

Definition usage_total (u : Usage.t) : Z :=
  Usage.in_flight_segments u + Usage.confirmed_segments u + Usage.uncertain_segments u.

Definition _reserve_submission_budget (now chunk_id segments attempt_no : Z)
    : tx_ SubmissionClaim :=
  _ ← lift (refuse ((segments <? 1) || (attempt_no <? 1))
              (ValueError "submission budget identity invalid"));
  let '(usage_date, reset_at) := live_test_usage_window now in
  _ ← modify (set_usage (fun m => match m !! usage_date with
                                  | Some _ => m
                                  | None => <[usage_date := Usage.mk 0 0 0]> m
                                  end));
  s ← get;
  let u := default (Usage.mk 0 0 0) (usage s !! usage_date) in
  if LIVE_TEST_DAILY_SEGMENT_LIMIT <? usage_total u + segments
  then mret (mkSubmission DAILY_LIMIT (Some reset_at))
  else
    _ ← lift (refuse (List.existsb (fun t => (Test.chunk_id t =? chunk_id)
                                             && (Test.attempt_no t =? attempt_no)) (tests s))
                (Outbox.IntegrityError "vendor_test_send_attempt_chunk_id_attempt_no_key"));
    _ ← lift (refuse (List.existsb (reserved_for chunk_id) (tests s))
                (Outbox.IntegrityError "uk_vendor_test_reserved_chunk"));
    _ ← modify (set_tests (fun l => l ++ [Test.mk usage_date chunk_id attempt_no segments
                                            TestStatus.reserved]));
    _ ← modify (set_usage (alter (fun u => Usage.set_in_flight_segments
                                   (Usage.in_flight_segments u + segments) u) usage_date));
    mret (mkSubmission CLAIMED None).

(** ** Claiming a chunk for submission *)

Definition due_for_retry (now : Z) (c : Chunk.t) : bool :=
  match Chunk.retry_not_before c with None => true | Some t => t <=? now end.

(** The guard shared by [mark_submitting] and [claim_submission]. *)
Definition submittable (now expected_retry_count : Z) (s : db) (c : Chunk.t) : bool :=
  in_status [ChunkStatus.pending; ChunkStatus.retrying] c
  && (Chunk.retry_count c =? expected_retry_count)
  && match batches s !! Chunk.batch_id c with Some b => callable b | None => false end
  && due_for_retry now c.

Definition to_submitting (now : Z) (c : Chunk.t) : Chunk.t :=
  Chunk.set_status ChunkStatus.submitting
    (Chunk.set_submitting_since (Some now) (Chunk.set_retry_not_before None c)).

Definition touch_batch (now id : Z) : tx_ unit := update_batch id (Batch.set_updated_at now).

Definition mark_submitting (now chunk_id expected_retry_count : Z) : tx_ bool :=
  s ← get;
  r ← update_chunk chunk_id (submittable now expected_retry_count s) (to_submitting now);
  match r with
  | Some c => _ ← touch_batch now (Chunk.batch_id c); mret true
  | None => mret false
  end.

(** [denied]: the number of recipients of the chunk outside the live-test list. *)
Definition claim_submission (now chunk_id expected_retry_count segments : Z)
    (enforce_live_test_budget vendor_live_test : bool) (denied : Z -> Z)
    : tx_ SubmissionClaim :=
  _ ← lift (refuse (segments <? 1) (ValueError "segments must be positive"));
  if negb enforce_live_test_budget then
    claimed ← mark_submitting now chunk_id expected_retry_count;
    mret (mkSubmission (if claimed : bool then CLAIMED else STALE) None)
  else if vendor_live_test && negb (denied chunk_id =? 0) then mret (mkSubmission STALE None)
  else
    s ← get;
    match chunks s !! chunk_id with
    | None => mret (mkSubmission STALE None)
    | Some c =>
        if negb (submittable now expected_retry_count s c) then mret (mkSubmission STALE None)
        else
          budget ← _reserve_submission_budget now chunk_id segments
                     (Chunk.vendor_attempt_count c + 1);
          match sc_status budget with
          | CLAIMED =>
              r ← update_chunk chunk_id
                    (fun c => in_status [ChunkStatus.pending; ChunkStatus.retrying] c
                              && (Chunk.retry_count c =? expected_retry_count))
                    (fun c => Chunk.set_vendor_attempt_count (Chunk.vendor_attempt_count c + 1)
                                (to_submitting now c));
              match r with
              | None => throw (RuntimeError "submission claim lost cas")
              | Some c => _ ← touch_batch now (Chunk.batch_id c); mret (mkSubmission CLAIMED None)
              end
          | _ => mret budget
          end
    end.

(** ** Releasing a claim before the vendor call *)

Definition submitting (c : Chunk.t) : bool := in_status [ChunkStatus.submitting] c.

Definition to_retrying (not_before : option Z) (c : Chunk.t) : Chunk.t :=
  Chunk.set_status ChunkStatus.retrying
    (Chunk.set_submitting_since None (Chunk.set_retry_not_before not_before c)).

(** A chunk update followed by the settlement of its budget when it applied. *)
Definition update_and_settle (chunk_id : Z) (guard : Chunk.t -> bool) (f : Chunk.t -> Chunk.t)
    (st : TestStatus.t) : tx_ bool :=
  r ← update_chunk chunk_id guard f;
  match r with
  | Some _ => _ ← settle_live_test_attempt chunk_id st; mret true
  | None => mret false
  end.

Definition release_unsent (now chunk_id : Z) : tx_ unit :=
  _ ← update_and_settle chunk_id submitting
        (fun c => to_retrying (Some now)
           (Chunk.set_vendor_msg (Some (tx "submit aborted before vendor call")) c))
        TestStatus.released;
  mret tt.

Definition release_control_claim (now chunk_id : Z) : tx_ unit :=
  _ ← update_and_settle chunk_id submitting
        (fun c => to_retrying (Some now)
           (Chunk.set_vendor_code None
              (Chunk.set_vendor_msg (Some (tx "vendor control state unavailable")) c)))
        TestStatus.released;
  mret tt.

(** ** Failed messages and the aggregate of their batch *)

Definition msg_in (l : list MessageStatus.t) (m : Message.t) : bool :=
  bool_decide (Message.status m ∈ l).
Definition msg_of_chunk (chunk_id : Z) (m : Message.t) : bool :=
  bool_decide (Message.chunk_id m = Some chunk_id).

(** [status IN (...) AND <no report evidence>] of a chunk's messages *)
Definition unreported (chunk_id : Z) (l : list MessageStatus.t) (m : Message.t) : bool :=
  msg_of_chunk chunk_id m && msg_in l m && negb (Message.report_evidence m).

Definition count_messages (f : Message.t -> bool) (m : gmap Z Message.t) : Z :=
  Z.of_nat (length (List.filter (fun p => f (snd p)) (map_to_list m))).

Definition set_unreported (chunk_id : Z) (l : list MessageStatus.t) (st : MessageStatus.t)
    : tx_ Z :=
  s ← get;
  _ ← modify (set_messages (fmap (fun m => if unreported chunk_id l m
                                           then Message.set_status st m else m)));
  mret (count_messages (unreported chunk_id l) (messages s)).

Definition aggregate_batch (now batch_id : Z) (ms : gmap Z Message.t) (b : Batch.t) : Batch.t :=
  let n l := count_messages (fun m => (Message.batch_id m =? batch_id) && msg_in l m) ms in
  let active := n [MessageStatus.pending; MessageStatus.sent] in
  Batch.set_delivered (n [MessageStatus.delivered])
    (Batch.set_failed (n [MessageStatus.failed])
    (Batch.set_unknown_cnt (n [MessageStatus.unknown])
    (Batch.set_active_message_count active
    (Batch.set_status
       (if bool_decide (Batch.status b = BatchStatus.completed_unknown)
        then BatchStatus.completed_unknown
        else if active =? 0 then BatchStatus.completed else Batch.status b)
    (Batch.set_updated_at now b))))).

Definition _finalize_failed_messages (now chunk_id batch_id : Z) : tx_ unit :=
  count ← set_unreported chunk_id [MessageStatus.pending; MessageStatus.sent] MessageStatus.failed;
  if count =? 0 then modify (log_effect (ReevaluateUnused batch_id)) else
  s ← get;
  match batches s !! batch_id with
  | Some b =>
      if count_messages (fun m => Message.batch_id m =? batch_id) (messages s) =? 0
      then throw (Exc (tx "NoResultFound") [])
      else
        let b' := aggregate_batch now batch_id (messages s) b in
        _ ← modify (set_batches (<[batch_id := b']>));
        _ ← (if bool_decide (Batch.status b' = BatchStatus.completed) then
               _ ← modify (log_effect (BatchFinished batch_id));
               modify (log_effect (InflightRelease batch_id (tx "batch-completed")))
             else mret tt);
        modify (log_effect (ReevaluateUnused batch_id))
  | None => throw (Exc (tx "NoResultFound") [])
  end.

(** The chunk ends as failed: budget released, messages failed. *)
Definition fail_chunk (now chunk_id : Z) (guard : Chunk.t -> bool) (f : Chunk.t -> Chunk.t)
    : tx_ bool :=
  r ← update_chunk chunk_id guard f;
  match r with
  | None => mret false
  | Some c =>
      _ ← settle_live_test_attempt chunk_id TestStatus.released;
      _ ← _finalize_failed_messages now chunk_id (Chunk.batch_id c);
      mret true
  end.

Definition to_failed (code : option Z) (message : text) (c : Chunk.t) : Chunk.t :=
  Chunk.set_status ChunkStatus.failed
    (Chunk.set_vendor_code code (Chunk.set_vendor_msg (Some message)
    (Chunk.set_submitting_since None (Chunk.set_retry_not_before None c)))).

Definition mark_failed (now chunk_id code : Z) (message : text) : tx_ unit :=
  _ ← fail_chunk now chunk_id submitting (to_failed (Some code) message); mret tt.

(** Before any attempt exists: no budget was reserved for the chunk. *)
Definition reject_disallowed_recipient (now chunk_id denied_count : Z) : tx_ unit :=
  _ ← lift (refuse (denied_count <? 1) (ValueError "denied_count must be positive"));
  s ← get;
  r ← update_chunk chunk_id
        (fun c => in_status [ChunkStatus.pending; ChunkStatus.retrying;
                             ChunkStatus.failover_pending] c
                  && match batches s !! Chunk.batch_id c with
                     | Some b => callable b | None => false end)
        (to_failed None (tx "live-test recipient denied: count=" ++ str_int denied_count));
  match r with
  | Some c => _finalize_failed_messages now chunk_id (Chunk.batch_id c)
  | None => mret tt
  end.

Definition mark_submitted (now chunk_id : Z) (task_pseudonym : text) : tx_ unit :=
  ok ← update_and_settle chunk_id submitting
         (fun c => Chunk.set_status ChunkStatus.submitted
            (Chunk.set_vendor_task_id (Some task_pseudonym)
            (Chunk.set_submitted_at (Some now) (Chunk.set_submitting_since None
            (Chunk.set_retry_not_before None c))))) TestStatus.confirmed;
  if ok : bool
  then _ ← set_unreported chunk_id [MessageStatus.pending] MessageStatus.sent; mret tt
  else mret tt.

Definition to_uncertain (now : Z) (c : Chunk.t) : Chunk.t :=
  Chunk.set_status ChunkStatus.uncertain
    (Chunk.set_uncertain_since
       (Some match Chunk.submitting_since c with Some t => t | None => now end)
    (Chunk.set_submitting_since None (Chunk.set_retry_not_before None c))).

Definition mark_uncertain (now chunk_id : Z) : tx_ unit :=
  _ ← update_and_settle chunk_id submitting (to_uncertain now) TestStatus.uncertain; mret tt.

Definition to_delayed_retry (now code delay_s : Z) (c : Chunk.t) : Chunk.t :=
  Chunk.set_vendor_code (Some code) (Chunk.set_retry_count (Chunk.retry_count c + 1)
    (to_retrying (Some (now + Outbox.secs delay_s)) c)).

Definition has_batch (s : db) (c : Chunk.t) : bool :=
  bool_decide (is_Some (batches s !! Chunk.batch_id c)).

Definition schedule_retry (now chunk_id code expected_retry_count delay_s : Z) : tx_ bool :=
  s ← get;
  update_and_settle chunk_id
    (fun c => submitting c && (Chunk.retry_count c =? expected_retry_count)
              && (Chunk.retry_count c <? 5) && has_batch s c)
    (to_delayed_retry now code delay_s) TestStatus.released.

Definition delay (now chunk_id code delay_s : Z) : tx_ unit :=
  s ← get;
  ok ← update_and_settle chunk_id
         (fun c => submitting c && has_batch s c
                   && (Chunk.retry_count c <? Codes.DELAYED_RETRY_LIMIT))
         (to_delayed_retry now code delay_s) TestStatus.released;
  if ok : bool then mret tt
  else _ ← fail_chunk now chunk_id submitting
             (to_failed (Some code) Codes.DELAYED_RETRY_EXHAUSTED); mret tt.

Definition balance_blocked (now batch_id chunk_id : Z) : tx_ unit :=
  r ← update_chunk chunk_id (fun c => (Chunk.batch_id c =? batch_id) && submitting c)
        (fun c => Chunk.set_vendor_code (Some 999) (to_retrying (Some now) c));
  match r with
  | None => mret tt
  | Some _ =>
      _ ← update_batch batch_id (Batch.set_status BatchStatus.balance_blocked);
      settle_live_test_attempt chunk_id TestStatus.released
  end.

Definition pause_blocked (now chunk_id code : Z) : tx_ unit :=
  _ ← update_and_settle chunk_id submitting
        (fun c => Chunk.set_vendor_code (Some code) (to_retrying (Some now) c))
        TestStatus.released;
  mret tt.

Definition defer_daily_limit (chunk_id reset_at : Z) : tx_ (option text) :=
  s ← get;
  r ← update_chunk chunk_id
        (fun c => in_status [ChunkStatus.pending; ChunkStatus.retrying;
                             ChunkStatus.failover_pending] c
                  && match batches s !! Chunk.batch_id c with
                     | Some b => callable b | None => false end)
        (fun c => Chunk.set_status
                    (if bool_decide (Chunk.status c = ChunkStatus.failover_pending)
                     then ChunkStatus.failover_pending else ChunkStatus.retrying)
                    (Chunk.set_vendor_code None (Chunk.set_retry_not_before (Some reset_at) c)));
  mret (c ← r; b ← batches s !! Chunk.batch_id c; Some (Batch.category b)).

(** ** Vendor attempts *)

Definition list_vendor_attempts (chunk_id : Z) (s : db) : list Routing.VendorAttempt :=
  (fun p => view (snd p)) <$> chunk_attempts chunk_id s.

Definition blocking (a : Attempt.t) : bool :=
  bool_decide (Attempt.outcome a ∈ Failover.BLOCKING_ATTEMPT_OUTCOMES).

(** The chunk's columns of a started attempt. *)
Definition route_to (vendor : text) (generation : Z) (c : Chunk.t) : Chunk.t :=
  Chunk.set_selected_vendor vendor (Chunk.set_route_generation generation c).

Definition begin_vendor_invoke (now chunk_id : Z) (vendor adapter reason : text)
    : tx_ (Z * Attempt.t) :=
  s ← get;
  match lock_send_context chunk_id s with
  | None => throw (RuntimeError "vendor attempt chunk missing")
  | Some ctx =>
      let st := Chunk.status (lc_chunk ctx) in
      _ ← lift (refuse (bool_decide (st ∈ Failover.ISOLATING_CHUNK_STATES))
                  (RuntimeError "vendor attempt blocked by terminal chunk"));
      _ ← lift (require (bool_decide (st ∈ Failover.FIRST_INVOKE_CHUNK_STATES))
                  (RuntimeError "vendor attempt not first-invoke"));
      let history := snd <$> lc_attempts ctx in
      _ ← lift (refuse (List.existsb blocking history)
                  (RuntimeError "vendor attempt already irreversible"));
      let next_generation := foldr Z.max 0 (Attempt.generation <$> history) + 1 in
      let a := Attempt.mk chunk_id vendor next_generation Outcome.invoking adapter
                 (Some (take 64 reason)) false None (Some now) now in
      id ← insert_attempt a;
      _ ← update_chunk chunk_id (fun _ => true) (route_to vendor next_generation);
      mret (id, a)
  end.

Definition complete_vendor_attempt (now attempt_id : Z) (outcome : Outcome.t) (safe : bool)
    (code : option Z) : tx_ bool :=
  settle_attempt attempt_id
    (fun a => Attempt.set_outcome outcome (Attempt.set_safe_to_failover safe
                (Attempt.set_vendor_code code (Attempt.set_updated_at now a)))).

Definition record_vendor_attempt (now chunk_id : Z) (vendor : text) (generation : Z)
    (outcome : Outcome.t) (safe : bool) (code : option Z) : tx_ unit :=
  _ ← insert_attempt (Attempt.mk chunk_id vendor generation outcome Routing.PRIMARY_VENDOR_ID
                        None safe code None now);
  _ ← update_chunk chunk_id (fun _ => true) (route_to vendor generation);
  mret tt.

(** *** Finalizing: the attempt and the chunk change together or not at all *)

(** [_FinalizeRollback] rolls the transaction back and carries the report. *)
Inductive ferr := Err (e : exc) | Rollback (r : FinalizeReport).

Definition fin {A} (m : tx_ A) : stex db ferr A :=
  fun s => match m s with Ok x => Ok x | Raise e => Raise (Err e) end.

Definition need {A} (result : Outcome.t) (m : tx_ (option A)) : stex db ferr A :=
  r ← fin m;
  match r with Some x => mret x | None => throw (Rollback (bare_report LOST_CAS result)) end.

Lemma within_fin (R : relation db) {A} (m : tx_ A) : within R m -> within R (fin m).
Proof.
  intros H s x s'. unfold fin. destruct (m s) as [[y t]|] eqn:E; [|done].
  intros [= <- <-]. by eapply H.
Qed.
#[export] Hint Extern 2 (within _ (fin _)) => apply within_fin : within.

Section Store.
(** The vendor registry of the store and the keyed pseudonym of a task id. *)
Context (registry : list Routing.VendorRecord) (pseudonym : text -> text).
(** The correlation id of the running task, for the events it enqueues. *)
Context (ambient : option Z).

Definition adapter_ids : list text :=
  List.filter (fun a => negb (bool_decide (a = []))) (Routing.adapter <$> registry).

Definition hard_fail (generation attempt_id policy_version : Z) : Failover.PersistedNextAction :=
  Failover.mkNext Failover.FAILED None (Some generation) (Some attempt_id) policy_version
    (tx "hard_fail").

Definition to_failover_pending (now : Z) (generation attempt_id : Z) (code : option Z)
    (msg : text) (n : Failover.PersistedNextAction) (c : Chunk.t) : Chunk.t :=
  Chunk.set_status ChunkStatus.failover_pending
    (Chunk.set_selected_vendor (default (Chunk.selected_vendor c) (Failover.next_vendor n))
    (Chunk.set_next_vendor (Failover.next_vendor n)
    (Chunk.set_route_generation generation
    (Chunk.set_route_policy_version (Failover.na_policy_version n)
    (Chunk.set_failover_from_attempt_id (Some attempt_id)
    (Chunk.set_vendor_code code (Chunk.set_vendor_msg (Some msg)
    (Chunk.set_submitting_since None (Chunk.set_retry_not_before (Some now) c))))))))).

Definition clear_next (c : Chunk.t) : Chunk.t :=
  Chunk.set_next_vendor None (Chunk.set_failover_from_attempt_id None c).

Definition outcome_name (o : Outcome.t) : text :=
  match o with Outcome.rejected => tx "rejected" | _ => tx "failed" end.

Definition _apply_reject_or_fail (now chunk_id : Z) (ctx : LockedSendContext)
    (attempt_id expected_generation : Z) (result : Outcome.t) (code : option Z) (safe : bool)
    (failure_reason : option text) : stex db ferr Failover.PersistedNextAction :=
  let category := Batch.category (lc_batch ctx) in
  let policy_version := Z.max 1 (Batch.route_policy_version (lc_batch ctx)) in
  s ← fin get;
  persisted ←
    (if bool_decide (result = Outcome.failed) || negb safe
     then mret (hard_fail expected_generation attempt_id policy_version)
     else fin (lift (Failover.next_action_after_safe_reject (list_vendor_attempts chunk_id s)
                       category attempt_id (Some registry) (Some adapter_ids) policy_version)));
  if bool_decide (Failover.na_action persisted = Failover.FAILOVER_PENDING) then
    _ ← need result (update_chunk chunk_id submitting
          (to_failover_pending now expected_generation attempt_id code
             (tx "safe_rejected_failover_pending") persisted));
    _ ← fin (settle_live_test_attempt chunk_id TestStatus.released);
    _ ← fin (in_outbox (Outbox._enqueue_chunk_ready now ambient [chunk_id]
                          (Category.queue_for_category category)));
    mret persisted
  else
    c ← need result (update_chunk chunk_id submitting
          (fun c => clear_next (to_failed code
             (match failure_reason with Some r => r | None => outcome_name result end) c)));
    _ ← fin (settle_live_test_attempt chunk_id TestStatus.released);
    _ ← fin (_finalize_failed_messages now chunk_id (Chunk.batch_id c));
    mret persisted.

Definition FINALIZE_RESULTS : list Outcome.t :=
  [Outcome.submitted; Outcome.uncertain; Outcome.retry_scheduled; Outcome.delayed;
   Outcome.paused; Outcome.rejected; Outcome.failed; Outcome.cancelled_before_invoke].

Record finalize_args := mkFinalize {
  fa_result : Outcome.t;
  fa_task_id : option text;
  fa_code : option Z;
  fa_safe : bool;
  fa_retry_delay_s : option Z;
  fa_expected_retry_count : option Z;
  fa_batch_id : option Z;
  fa_balance_blocked : bool
}.

(** The chunk's part of a finalize that CAS-updated its attempt. *)
Definition finalize_chunk (now chunk_id attempt_id expected_generation : Z)
    (ctx : LockedSendContext) (a : finalize_args) (result : Outcome.t) (safe exhausted : bool)
    : stex db ferr (FinalizeReport * option (Z * text * Z)) :=
  let settle st := fin (settle_live_test_attempt chunk_id st) in
  let applied := (bare_report APPLIED result, None) in
  let delay_s := match fa_retry_delay_s a with Some 0 | None => 1 | Some d => d end in
  match result with
  | Outcome.submitted =>
      let task := match fa_task_id a with
                  | Some (_ :: _) => pseudonym <$> fa_task_id a
                  | _ => None
                  end in
      _ ← need result (update_chunk chunk_id submitting
            (fun c => Chunk.set_status ChunkStatus.submitted (Chunk.set_vendor_task_id task
               (Chunk.set_submitted_at (Some now) (Chunk.set_submitting_since None
               (Chunk.set_retry_not_before None c))))));
      _ ← settle TestStatus.confirmed;
      _ ← fin (set_unreported chunk_id [MessageStatus.pending] MessageStatus.sent);
      mret applied
  | Outcome.uncertain =>
      _ ← need result (update_chunk chunk_id submitting (to_uncertain now));
      _ ← settle TestStatus.uncertain;
      mret applied
  | Outcome.retry_scheduled | Outcome.delayed =>
      _ ← need result (update_chunk chunk_id
            (fun c => submitting c &&
               match result with
               | Outcome.retry_scheduled =>
                   bool_decide (fa_expected_retry_count a = Some (Chunk.retry_count c))
                   && (Chunk.retry_count c <? 5)
               | _ => Chunk.retry_count c <? Codes.DELAYED_RETRY_LIMIT
               end)
            (fun c => Chunk.set_vendor_code (fa_code a)
               (Chunk.set_retry_count (Chunk.retry_count c + 1)
                  (to_retrying (Some (now + Outbox.secs delay_s)) c))));
      _ ← settle TestStatus.released;
      mret (bare_report APPLIED result,
            Some (chunk_id, Batch.category (lc_batch ctx), delay_s))
  | Outcome.paused =>
      _ ← need result (update_chunk chunk_id submitting
            (fun c => Chunk.set_vendor_code (if fa_balance_blocked a then Some 999 else fa_code a)
                        (to_retrying (Some now) c)));
      _ ← settle TestStatus.released;
      _ ← fin (if fa_balance_blocked a
               then update_batch (match fa_batch_id a with
                                  | Some 0 | None => Chunk.batch_id (lc_chunk ctx)
                                  | Some b => b
                                  end) (Batch.set_status BatchStatus.balance_blocked)
               else mret tt);
      mret applied
  | Outcome.rejected | Outcome.failed =>
      n ← _apply_reject_or_fail now chunk_id ctx attempt_id expected_generation result
            (fa_code a) safe (if exhausted then Some Codes.DELAYED_RETRY_EXHAUSTED else None);
      mret (mkReport APPLIED result (Some (Failover.na_action n)) (Failover.next_vendor n)
              (Failover.na_route_generation n) (Failover.previous_attempt_id n)
              (Some (Failover.na_policy_version n))
              (Some (if bool_decide (Failover.na_action n = Failover.FAILOVER_PENDING)
                     then ChunkStatus.failover_pending else ChunkStatus.failed)), None)
  | _ => mret applied
  end.

Definition finalize_body (now attempt_id chunk_id expected_generation : Z) (a : finalize_args)
    : stex db ferr (FinalizeReport * option (Z * text * Z)) :=
  let corrupt := (bare_report STATE_CORRUPTION (fa_result a), None) in
  s ← fin get;
  match lock_send_context chunk_id s with
  | None => mret corrupt
  | Some ctx =>
      let c := lc_chunk ctx in
      if match fa_batch_id a with Some b => negb (b =? Chunk.batch_id c) | None => false end
      then mret corrupt else
      match List.find (fun p => fst p =? attempt_id) (lc_attempts ctx) with
      | None => mret corrupt
      | Some (_, at_) =>
          if negb (Attempt.generation at_ =? expected_generation) then mret corrupt else
          if negb (bool_decide (Attempt.outcome at_ = Outcome.invoking))
          then mret (_report_from_locked_state at_ c (fa_result a), None) else
          if negb (Chunk.route_generation c =? expected_generation) then mret corrupt else
          let exhausted := bool_decide (fa_result a = Outcome.delayed)
                           && (Codes.DELAYED_RETRY_LIMIT <=? Chunk.retry_count c) in
          let result := if exhausted then Outcome.failed else fa_result a in
          let safe := if exhausted then false else fa_safe a in
          _ ← fin (complete_vendor_attempt now attempt_id result safe (fa_code a));
          finalize_chunk now chunk_id attempt_id expected_generation ctx a result safe exhausted
      end
  end.

(** [_finalize_vendor_attempt_once]: the report, the retry to enqueue after the
    commit, and the committed state. *)
Definition finalize_vendor_attempt (now attempt_id chunk_id expected_generation : Z)
    (a : finalize_args) (s : db)
    : result exc (FinalizeReport * option (Z * text * Z)) * db :=
  if negb (bool_decide (fa_result a ∈ FINALIZE_RESULTS))
  then (Raise (ValueError "unsupported vendor finalize result"), s) else
  match transaction (finalize_body now attempt_id chunk_id expected_generation a) s with
  | (Ok r, s') => (Ok r, s')
  | (Raise (Rollback r), s') => (Ok (r, None), s')
  | (Raise (Err e), s') => (Raise e, s')
  end.

(** *** Claiming the next vendor ([send_repository_failover.py]) *)

(** [send_db_reason] of the exceptions a claim can raise. *)
Definition send_db_reason (e : exc) : text :=
  let '(Exc cls _) := e in
  if teqb cls (tx "SendCasLost") then tx "cas_lost" else tx "unexpected".

Definition denied_claim (reason : text) : Failover.InvokeClaim :=
  Failover.mkClaim Failover.DENIED None reason None.

Record claim_args := mkClaimArgs {
  ca_generation : Z;
  ca_previous : Z;
  ca_next_vendor : text;
  ca_policy_version : Z;
  ca_segments : Z;
  ca_enforce_budget : bool;
  ca_live_test : bool
}.

(** The guards hold: reserve the budget, write the invoking attempt, move the
    chunk; only the commit of all three authorizes the call. *)
Definition authorize_next (now chunk_id : Z) (a : claim_args) (c : Chunk.t)
    : tx_ Failover.InvokeClaim :=
  let g := ca_generation a in
  let v := ca_next_vendor a in
  budget ← (if ca_enforce_budget a
            then _reserve_submission_budget now chunk_id (ca_segments a)
                   (Chunk.vendor_attempt_count c + 1)
            else mret (mkSubmission CLAIMED None));
  match sc_status budget with
  | CLAIMED =>
      let att := Attempt.mk chunk_id v (g + 1) Outcome.invoking v
                   (Some (tx "safe_failover")) false None (Some now) now in
      id ← insert_attempt att;
      r ← update_chunk chunk_id
            (fun c => in_status [ChunkStatus.failover_pending] c
                      && (Chunk.route_generation c =? g)
                      && bool_decide (Chunk.next_vendor c = Some v))
            (fun c => to_submitting now (route_to v (g + 1)
               (Chunk.set_vendor_attempt_count
                  (Chunk.vendor_attempt_count c + Z.b2z (ca_enforce_budget a)) c)));
      match r with
      | None => throw (Exc (tx "SendCasLost") (tx "cas_lost"))
      | Some _ =>
          mret (Failover.mkClaim Failover.AUTHORIZED
                  (Some (Failover.mkAuthorization id (g + 1) v v
                           (ca_policy_version a))) (tx "authorized") None)
      end
  | _ => mret (Failover.mkClaim Failover.DENIED None (tx "daily_limit")
                 (sc_reset_at budget))
  end.

Definition claim_body (now chunk_id : Z) (denied : Z -> Z) (a : claim_args)
    : tx_ Failover.InvokeClaim :=
  let g := ca_generation a in
  let v := ca_next_vendor a in
  s ← get;
  match lock_send_context chunk_id s with
  | None => mret (denied_claim (tx "chunk_missing"))
  | Some ctx =>
      let c := lc_chunk ctx in
      let history := lc_attempts ctx in
      let previous := List.find (fun p => fst p =? ca_previous a) history in
      let invoking := List.find (fun p => bool_decide (Attempt.outcome (snd p) = Outcome.invoking))
                        history in
      if ca_live_test a && negb (denied chunk_id =? 0)
      then mret (denied_claim (tx "recipient_denied")) else
      match Failover.already_handled_reason (Chunk.status c)
              ((fun p => Attempt.vendor_id (snd p)) <$> invoking) v
              ((fun p => Attempt.generation (snd p)) <$> invoking) g, invoking with
      | Some handled, Some (iid, ia) =>
          mret (Failover.mkClaim Failover.ALREADY_HANDLED
                  (Some (Failover.mkAuthorization iid (Attempt.generation ia)
                           (Attempt.vendor_id ia) (Attempt.vendor_id ia) (ca_policy_version a)))
                  handled None)
      | _, _ =>
          reason ← lift (Failover.claim_denied_reason (Chunk.status c)
                           (Batch.status (lc_batch ctx)) g (Chunk.route_generation c)
                           ((fun p => view (snd p)) <$> previous)
                           ((fun p => Attempt.chunk_id (snd p)) <$> previous) chunk_id v
                           (Chunk.next_vendor c) (ca_policy_version a)
                           (Chunk.route_policy_version c) true
                           ((fun p => Attempt.outcome (snd p)) <$> history)
                           (Batch.category (lc_batch ctx)) (Some registry) (Some adapter_ids));
          match reason with
          | Some r => mret (denied_claim r)
          | None =>
              if negb (due_for_retry now c) then mret (denied_claim (tx "retry_not_due")) else
              authorize_next now chunk_id a c
          end
      end
  end.

Definition claim_next_vendor_invoke (now chunk_id : Z) (denied : Z -> Z) (a : claim_args) (s : db)
    : result exc Failover.InvokeClaim * db :=
  match Routing.validate_vendor_id (ca_next_vendor a) with
  | Raise e => (Raise e, s)
  | Ok _ =>
      match transaction (claim_body now chunk_id denied a) s with
      | (Ok c, s') => (Ok c, s')
      | (Raise e, s') => (Ok (denied_claim (send_db_reason e)), s')
      end
  end.

Definition load_authoritative_next_action (chunk_id attempt_id expected_generation : Z) (s : db)
    : option FinalizeReport :=
  a ← attempts s !! attempt_id;
  c ← chunks s !! Attempt.chunk_id a;
  if (Attempt.chunk_id a =? chunk_id) && (Attempt.generation a =? expected_generation)
  then Some (_report_from_locked_state a (Chunk.set_vendor_msg None c) (Attempt.outcome a))
  else None.

(** *** Repair of chunks left submitting by a contractual rejection *)

Definition repair_one (now chunk_id attempt_id : Z) : tx_ bool :=
  s ← get;
  match lock_send_context chunk_id s with
  | None => mret false
  | Some ctx =>
      if negb (callable (lc_batch ctx)) then mret false else
      match last_opt (lc_attempts ctx) with
      | None => mret false
      | Some (last_id, _) =>
          if negb (last_id =? attempt_id) then mret false else
          let atts := (fun p => view (snd p)) <$> lc_attempts ctx in
          if negb (Failover.historical_safe_reject_repairable (Chunk.status (lc_chunk ctx)) atts)
          then mret false else
          let category := Batch.category (lc_batch ctx) in
          n ← lift (Failover.next_action_after_safe_reject atts category last_id (Some registry)
                      (Some adapter_ids)
                      (if Batch.route_policy_version (lc_batch ctx) =? 0 then 1
                       else Batch.route_policy_version (lc_batch ctx)));
          if bool_decide (Failover.na_action n = Failover.FAILOVER_PENDING) then
            r ← update_chunk chunk_id submitting
                  (fun c => to_failover_pending now
                     (default (Chunk.route_generation c) (Failover.na_route_generation n))
                     last_id (Chunk.vendor_code c) (tx "repaired_legacy_safe_reject") n c);
            match r with
            | None => mret false
            | Some _ =>
                _ ← in_outbox (Outbox._enqueue_chunk_ready now ambient [chunk_id]
                                 (Category.queue_for_category category));
                mret true
            end
          else
            fail_chunk now chunk_id submitting
              (fun c => clear_next (to_failed (Chunk.vendor_code c)
                                      (tx "repaired_legacy_safe_reject") c))
      end
  end.

(** The candidate rows: submitting chunks with their newest attempt, a
    contractual rejection, in chunk order. *)
Definition repair_before (a b : Z * Z) : Prop := fst a <= fst b.
#[local] Instance repair_before_dec a b : Decision (repair_before a b).
Proof. unfold repair_before. apply _. Defined.

Definition repair_candidates (s : db) : list (Z * Z) :=
  sorting.merge_sort repair_before
    (omap (fun p =>
       match last_opt (chunk_attempts (fst p) s) with
       | Some (id, a) =>
           if submitting (snd p) && has_batch s (snd p)
              && bool_decide (Attempt.outcome a = Outcome.rejected) && Attempt.safe_to_failover a
           then Some (fst p, id) else None
       | None => None
       end) (map_to_list (chunks s))).

Fixpoint repair_each (now : Z) (ids : list (Z * Z)) (repaired : Z) : tx_ Z :=
  match ids with
  | [] => mret repaired
  | (id, attempt_id) :: rest =>
      ok ← repair_one now id attempt_id;
      repair_each now rest (if ok : bool then repaired + 1 else repaired)
  end.

Definition repair_legacy_safe_reject_submitting (now limit : Z) : tx_ Z :=
  s ← get;
  repair_each now (take (Z.to_nat limit) (repair_candidates s)) 0.

(** ** Splitting an oversized chunk ([send_repository_split.py]) *)

Definition SPLIT_GENERATION : Z := 1.
Definition InFlightInvariantViolation (msg : string) : exc :=
  Exc (tx "InFlightInvariantViolation") (tx msg).

Definition child_before (a b : Z * Chunk.t) : Prop :=
  default 0 (Chunk.child_ordinal (snd a)) <= default 0 (Chunk.child_ordinal (snd b)).
#[local] Instance child_before_dec a b : Decision (child_before a b).
Proof. unfold child_before. apply _. Defined.

Definition is_child (parent : Z) (c : Chunk.t) : bool :=
  bool_decide (Chunk.parent_chunk_id c = Some parent)
  && bool_decide (Chunk.split_generation c = Some SPLIT_GENERATION).

Definition _existing_split_children (parent : Z) (s : db) : list Z :=
  fst <$> sorting.merge_sort child_before
            (List.filter (fun p => is_child parent (snd p)) (map_to_list (chunks s))).

Definition _settle_split_vendor_attempt (now chunk_id : Z) : tx_ unit :=
  modify (set_attempts (fmap (fun a =>
    if (Attempt.chunk_id a =? chunk_id) && bool_decide (Attempt.outcome a = Outcome.invoking)
    then Attempt.set_outcome Outcome.rejected (Attempt.set_vendor_code (Some 1006)
           (Attempt.set_updated_at now a))
    else a))).

Definition splittable (c : Chunk.t) : bool :=
  in_status [ChunkStatus.submitting; ChunkStatus.split_capacity_blocked] c.

Definition _mark_split_capacity_blocked (now chunk_id : Z) : tx_ unit :=
  r ← update_chunk chunk_id splittable
        (fun c => Chunk.set_status ChunkStatus.split_capacity_blocked
           (Chunk.set_vendor_code (Some 1006)
           (Chunk.set_vendor_msg (Some (tx "split capacity blocked"))
           (Chunk.set_submitting_since None (Chunk.set_retry_not_before None c)))));
  match r with
  | None => mret tt
  | Some _ =>
      _ ← settle_live_test_attempt chunk_id TestStatus.released;
      _settle_split_vendor_attempt now chunk_id
  end.

(** [f"{n:08d}"] *)
Definition pad8 (n : Z) : text :=
  let d := str_int n in repeat 48 (8 - length d)%nat ++ d.

Definition child_row (batch number : Z) (custom : text) (count parent ordinal : Z) : Chunk.t :=
  Chunk.mk batch number custom count ChunkStatus.pending None None None 0 0 None None None None
    Routing.PRIMARY_VENDOR_ID 1 None 1 None (Some parent) (Some SPLIT_GENERATION) (Some ordinal).

Definition insert_child (c : Chunk.t) : tx_ Z :=
  s ← get;
  let id := next_chunk_id s in
  _ ← lift (refuse (List.existsb (fun p =>
                bool_decide (Chunk.parent_chunk_id (snd p) = Chunk.parent_chunk_id c)
                && bool_decide (Chunk.split_generation (snd p) = Chunk.split_generation c)
                && bool_decide (Chunk.child_ordinal (snd p) = Chunk.child_ordinal c))
              (map_to_list (chunks s)))
              (InFlightInvariantViolation "child identity conflict"));
  _ ← lift (refuse (List.existsb (fun p =>
                teqb (Chunk.custom_id (snd p)) (Chunk.custom_id c)
                || ((Chunk.batch_id (snd p) =? Chunk.batch_id c)
                    && (Chunk.chunk_no (snd p) =? Chunk.chunk_no c)))
              (map_to_list (chunks s))) (Outbox.IntegrityError "sms_chunk_unique"));
  _ ← modify (fun s => take_chunk_id (set_chunks (<[id := c]>) s));
  mret id.

Definition move_messages (ids : list Z) (child : Z) : tx_ unit :=
  modify (set_messages (fun m =>
    foldr (fun i m => alter (Message.set_chunk_id (Some child)) i m) m ids)).

(** One child: its row, its messages and its allocation. *)
Definition create_child (batch_id number parent ordinal segments : Z) (custom : text)
    (group : list Z) : tx_ Z :=
  let count := Z.of_nat (length group) in
  child ← insert_child (child_row batch_id number (take 24 custom ++ pad8 number) count parent
                          ordinal);
  _ ← move_messages group child;
  _ ← modify (set_allocs (fun m => match m !! child with
                                   | Some _ => m
                                   | None => <[child := Alloc.mk batch_id count
                                                          (segments * count) 0]> m
                                   end));
  mret child.

Definition message_ids (chunk_id : Z) (s : db) : list Z :=
  sorting.merge_sort Z.le
    (fst <$> List.filter (fun p => msg_of_chunk chunk_id (snd p)) (map_to_list (messages s))).

Definition max_chunk_no (batch_id : Z) (s : db) : Z :=
  match Chunk.chunk_no ∘ snd <$> List.filter (fun p => Chunk.batch_id (snd p) =? batch_id)
                                   (map_to_list (chunks s)) with
  | [] => 0
  | n :: ns => foldr Z.max n ns
  end.

Definition _create_split_children (now chunk_id batch_id : Z) (custom : text) : tx_ (list Z) :=
  r ← update_chunk chunk_id splittable
        (to_failed (Some 1006) (tx "split into smaller chunks"));
  match r with
  | None => throw (InFlightInvariantViolation "parent cas missed")
  | Some _ =>
      _ ← settle_live_test_attempt chunk_id TestStatus.released;
      _ ← _settle_split_vendor_attempt now chunk_id;
      s ← get;
      let ids := message_ids chunk_id s in
      if (length ids <? 2)%nat
      then throw (InFlightInvariantViolation "parent message set too small") else
      match batches s !! batch_id with
      | None => throw (Exc (tx "NoResultFound") [])
      | Some b =>
          let next_no := max_chunk_no batch_id s + 1 in
          let middle := ((length ids + 1) / 2)%nat in
          c1 ← create_child batch_id next_no chunk_id 1 (Batch.segments b) custom
                 (take middle ids);
          c2 ← create_child batch_id (next_no + 1) chunk_id 2 (Batch.segments b) custom
                 (drop middle ids);
          _ ← modify (set_allocs (alter (fun a => Alloc.set_recipient_count 0
                                           (Alloc.set_segment_count 0 a)) chunk_id));
          _ ← in_outbox (Outbox._enqueue_chunk_ready now ambient [c1; c2]
                           (Category.queue_for_category (Batch.category b)));
          mret [c1; c2]
      end
  end.

(** [expansion]: whether the application's in-flight limit admits one more
    chunk ([expand_in_flight_for_split]); [None] when the batch has no
    application. *)
Definition complete_vendor_split (now chunk_id batch_id : Z) (custom : text)
    (expansion : option (result exc bool)) : tx_ (list Z) :=
  s ← get;
  match _existing_split_children chunk_id s with
  | [a; b] => mret [a; b]
  | _ :: _ => throw (InFlightInvariantViolation "incomplete children")
  | [] =>
      match chunks s !! chunk_id with
      | Some c =>
          if negb (splittable c) then mret [] else
          expanded ← match expansion with
                     | None => mret false
                     | Some r => lift r
                     end;
          if expanded : bool then _create_split_children now chunk_id batch_id custom
          else _ ← _mark_split_capacity_blocked now chunk_id; mret []
      | None => mret []
      end
  end.

Fixpoint retry_splits (now : Z) (expansion : Z -> option (result exc bool)) (ids : list Z)
    (retried : Z) : tx_ Z :=
  match ids with
  | [] => mret retried
  | id :: rest =>
      s ← get;
      match chunks s !! id with
      | Some c =>
          if Chunk.phone_count c <? 2 then retry_splits now expansion rest retried else
          children ← complete_vendor_split now id (Chunk.batch_id c) (Chunk.custom_id c)
                       (expansion id);
          retry_splits now expansion rest
            (if bool_decide (children = []) then retried else retried + 1)
      | None => retry_splits now expansion rest retried
      end
  end.

Definition retry_capacity_blocked_splits (now limit : Z)
    (expansion : Z -> option (result exc bool)) : tx_ Z :=
  s ← get;
  let ids := sorting.merge_sort Z.le
    (fst <$> List.filter (fun p => in_status [ChunkStatus.split_capacity_blocked] (snd p))
               (map_to_list (chunks s))) in
  retry_splits now expansion (take (Z.to_nat limit) ids) 0.

(** ** Recovery of stalled chunks ([services/reconcile_repository.py]) *)

Definition STALE_INVOKING_CUTOFF_S : Z := 15 * 60.
Definition MAX_VENDOR_PERSIST_BUDGET_S : Z := 30.
Definition SCHEDULER_JITTER_S : Z := 60.
Definition VENDOR_TIMEOUT_S : Z := 10.
Definition stale_invoking_cutoff_is_safe (vendor_timeout_s : Z) : bool :=
  vendor_timeout_s + MAX_VENDOR_PERSIST_BUDGET_S + SCHEDULER_JITTER_S <? STALE_INVOKING_CUTOFF_S.

(** One statement reads one snapshot [s]; its sub-statements do not see each
    other's writes. *)
Definition is_invoking (a : Attempt.t) : bool :=
  bool_decide (Attempt.outcome a = Outcome.invoking).

Definition repaired_attempt (s : db) (ids : list Z) (a : Attempt.t) : bool :=
  bool_decide (Attempt.chunk_id a ∈ ids) && is_invoking a
  && match chunks s !! Attempt.chunk_id a with
     | Some c => in_status [ChunkStatus.submitted] c
                 && (Chunk.route_generation c =? Attempt.generation a)
                 && bool_decide (is_Some (Chunk.vendor_task_id c))
                 && bool_decide (is_Some (Chunk.submitted_at c))
                 && negb (count_messages (fun m => msg_of_chunk (Attempt.chunk_id a) m
                                                   && msg_in [MessageStatus.sent] m)
                            (messages s) =? 0)
     | None => false
     end.

Definition inconsistent_attempt (s : db) (ids : list Z) (a : Attempt.t) : bool :=
  bool_decide (Attempt.chunk_id a ∈ ids) && is_invoking a && negb (repaired_attempt s ids a)
  && match chunks s !! Attempt.chunk_id a with
     | Some c => in_status [ChunkStatus.submitted; ChunkStatus.failed; ChunkStatus.uncertain;
                            ChunkStatus.unknown_terminal] c
     | None => false
     end.

Definition stale_attempt (now : Z) (s : db) (ids : list Z) (a : Attempt.t) : bool :=
  bool_decide (Attempt.chunk_id a ∈ ids) && is_invoking a
  && match chunks s !! Attempt.chunk_id a with
     | Some c => submitting c && (Chunk.route_generation c =? Attempt.generation a)
     | None => false
     end
  && match Attempt.invoke_started_at a with
     | Some t => t <? now - Outbox.secs STALE_INVOKING_CUTOFF_S
     | None => false
     end.

Definition recover_attempt (now : Z) (s : db) (ids : list Z) (a : Attempt.t) : Attempt.t :=
  if repaired_attempt s ids a
  then Attempt.set_outcome Outcome.submitted (Attempt.set_updated_at now a)
  else if inconsistent_attempt s ids a
  then Attempt.set_outcome Outcome.inconsistent (Attempt.set_updated_at now a)
  else if stale_attempt now s ids a
  then Attempt.set_outcome Outcome.uncertain (Attempt.set_updated_at now a)
  else a.

(** A contractual rejection is the newest attempt and none is blocking: the
    chunk waits for its repair and is not declared uncertain. *)
Definition awaiting_failover (s : db) (id : Z) : bool :=
  match last_opt (chunk_attempts id s) with
  | Some (_, a) => bool_decide (Attempt.outcome a = Outcome.rejected) && Attempt.safe_to_failover a
  | None => false
  end && negb (List.existsb (fun p => blocking (snd p)) (chunk_attempts id s)).

Definition stale_chunk (now : Z) (s : db) (ids : list Z) (id : Z) (c : Chunk.t) : bool :=
  bool_decide (id ∈ ids)
  && match batches s !! Chunk.batch_id c with Some b => callable b | None => false end
  && submitting c
  && (match Chunk.submitting_since c with
      | Some t => t <? now - Outbox.secs 300
      | None => false
      end || List.existsb (fun p => stale_attempt now s ids (snd p)) (chunk_attempts id s))
  && negb (awaiting_failover s id).

Definition recover_chunk (now : Z) (s : db) (ids : list Z) (id : Z) (c : Chunk.t) : Chunk.t :=
  if stale_chunk now s ids id c
  then Chunk.set_status ChunkStatus.uncertain
         (Chunk.set_uncertain_since
            (Some match Chunk.submitting_since c with Some t => t | None => now end)
         (Chunk.set_submitting_since None c))
  else c.

Definition stale_test (now : Z) (s : db) (ids : list Z) (t : Test.t) : bool :=
  bool_decide (Test.status t = TestStatus.reserved)
  && match chunks s !! Test.chunk_id t with
     | Some c => stale_chunk now s ids (Test.chunk_id t) c
     | None => false
     end.

(** The totals of the settled rows per day. *)
Definition settled_total (settled : list Test.t) (day : Z) : Z :=
  sumZ (Test.segments <$> List.filter (fun t => Test.usage_date t =? day) settled).

Definition recovery_candidates (s : db) : list Z :=
  take 500 (sorting.merge_sort Z.le
    (fst <$> List.filter (fun p =>
       submitting (snd p) || List.existsb (fun q => is_invoking (snd q)) (chunk_attempts (fst p) s))
       (map_to_list (chunks s)))).

Definition recover_stalled (now : Z) : tx_ unit :=
  s ← get;
  let ids := recovery_candidates s in
  let settled := List.filter (stale_test now s ids) (tests s) in
  _ ← modify (set_attempts (fmap (recover_attempt now s ids)));
  _ ← modify (set_chunks (map_imap (fun id c => Some (recover_chunk now s ids id c))));
  _ ← modify (set_tests (map (fun t => if stale_test now s ids t
                                       then Test.set_status TestStatus.uncertain t else t)));
  modify (set_usage (map_imap (fun day u =>
    Some (settle_usage TestStatus.uncertain (settled_total settled day) u)))).

(** The last phase enqueues again what waits in a batch that made no progress
    for five minutes. *)
Definition requeue_before (a b : Z * (Chunk.t * Batch.t)) : Prop :=
  let ua := Batch.updated_at (snd (snd a)) in
  let ub := Batch.updated_at (snd (snd b)) in
  ua < ub \/ (ua = ub /\ Chunk.chunk_no (fst (snd a)) <= Chunk.chunk_no (fst (snd b))).
#[local] Instance requeue_before_dec a b : Decision (requeue_before a b).
Proof. unfold requeue_before. apply _. Defined.

Definition requeueable (now : Z) (c : Chunk.t) (b : Batch.t) : bool :=
  bool_decide (Batch.status b = BatchStatus.sending)
  && (in_status [ChunkStatus.pending] c
      || (in_status [ChunkStatus.retrying; ChunkStatus.failover_pending] c && due_for_retry now c))
  && (Batch.updated_at b <? now - Outbox.secs 300).

Definition stalled_chunks (now : Z) (s : db) : list (Z * text) :=
  (fun p => (fst p, Category.queue_for_category (Batch.category (snd (snd p))))) <$>
  take 500 (sorting.merge_sort requeue_before
    (omap (fun p => b ← batches s !! Chunk.batch_id (snd p);
                    if requeueable now (snd p) b then Some (fst p, (snd p, b)) else None)
       (map_to_list (chunks s)))).

Fixpoint requeue_each (now : Z) (l : list (Z * text)) : tx_ unit :=
  match l with
  | [] => mret tt
  | (id, lane) :: rest =>
      _ ← in_outbox (Outbox._enqueue_chunk_ready now ambient [id] lane);
      requeue_each now rest
  end.

Definition requeue_stalled (now : Z) : tx_ unit :=
  s ← get; requeue_each now (stalled_chunks now s).
End Store.

End SendStore.
