(* ===== verification/SendSafety.v ===== *)
(** * Safety of sending: a chunk is never resent

    The transactions of the chunk repository as steps on the vendor attempts.
    At most one attempt of a chunk is in flight, submitted, uncertain or
    inconsistent; the last three are final, and nothing authorizes another
    vendor call for the chunk afterwards, whatever other transactions do to the
    remaining tables. *)

From S2P Require Import Prelude PyText Category VendorCodes Routing Failover.
From S2P Require Import OutboxContract Outbox SendState SendStore.

Module SendSafety.
Import SendState SendStore.

(** ** What a transaction may do to the attempts *)

(** The columns of an attempt no transaction changes. *)
Definition identity (a : Attempt.t) : Z * text * Z :=
  (Attempt.chunk_id a, Attempt.vendor_id a, Attempt.generation a).

Definition unblocked (m : gmap Z Attempt.t) (chunk_id : Z) : Prop :=
  forall i a, m !! i = Some a -> Attempt.chunk_id a = chunk_id -> blocking a = false.

Inductive astep (s s' : db) : Prop :=
| as_keep : attempts s' = attempts s -> next_attempt_id s' = next_attempt_id s -> astep s s'
| as_insert a :
    (blocking a = true -> unblocked (attempts s) (Attempt.chunk_id a)) ->
    (forall i b, attempts s !! i = Some b -> Attempt.chunk_id b = Attempt.chunk_id a ->
       Attempt.generation b <> Attempt.generation a) ->
    1 <= Attempt.generation a ->
    attempts s' = <[next_attempt_id s := a]> (attempts s) ->
    next_attempt_id s' = next_attempt_id s + 1 -> astep s s'
| as_settle f :
    (forall a, identity (f a) = identity a /\ (Attempt.outcome a <> Outcome.invoking -> f a = a)) ->
    attempts s' = f <$> attempts s -> next_attempt_id s' = next_attempt_id s -> astep s s'
| as_settle_one i a a' :
    attempts s !! i = Some a -> Attempt.outcome a = Outcome.invoking -> identity a' = identity a ->
    attempts s' = <[i := a']> (attempts s) -> next_attempt_id s' = next_attempt_id s -> astep s s'.

(** ** Transactions as steps *)

Section Steps.
Context (registry : list Routing.VendorRecord) (pseudonym : text -> text) (ambient : option Z).

(** One committed transaction: one of those that write attempts, or any
    transaction at all that leaves the attempts alone.  The worker records an
    attempt directly only as cancelled before the call. *)
Inductive step (s : db) : db -> Prop :=
| step_begin now c v ad r : step s (snd (transaction (begin_vendor_invoke now c v ad r) s))
| step_finalize now i c g a :
    step s (snd (finalize_vendor_attempt registry pseudonym ambient now i c g a s))
| step_claim now c denied a :
    step s (snd (claim_next_vendor_invoke registry now c denied a s))
| step_complete now i o safe code :
    step s (snd (transaction (complete_vendor_attempt now i o safe code) s))
| step_record now c v g :
    step s (snd (transaction
      (record_vendor_attempt now c v g Outcome.cancelled_before_invoke false None) s))
| step_split now c b cu ex :
    step s (snd (transaction (complete_vendor_split ambient now c b cu ex) s))
| step_retry_splits now n ex :
    step s (snd (transaction (retry_capacity_blocked_splits ambient now n ex) s))
| step_repair now n :
    step s (snd (transaction (repair_legacy_safe_reject_submitting registry ambient now n) s))
| step_recover now : step s (snd (transaction (recover_stalled now) s))
| step_other s' :
    attempts s' = attempts s -> next_attempt_id s' = next_attempt_id s -> step s s'.

(** Before the first attempt. *)
Definition initial (s : db) : Prop := attempts s = ∅.
Definition reachable (s : db) : Prop := exists s0, initial s0 /\ rtc step s0 s.

(** Nothing authorizes a vendor call for the chunk. *)
Definition no_authorization (s : db) (chunk_id : Z) : Prop :=
  (forall now v ad r x, begin_vendor_invoke now chunk_id v ad r s <> Ok x) /\
  (forall now denied a c s', claim_next_vendor_invoke registry now chunk_id denied a s = (Ok c, s') ->
     Failover.kind c <> Failover.AUTHORIZED).

End Steps.

(** ** Composition of transactions *)

(** [m] changes the attempts only by [astep]s. *)
Abbreviation moves := (within (rtc astep)).

Lemma moves_in_outbox {A} (m : stex Outbox.db exc A) : moves (in_outbox m).
Proof.
  intros s x s'. unfold in_outbox. destruct (m (outbox s)) as [[y o]|]; [|done].
  intros [= <- <-]. by apply rtc_once, as_keep.
Qed.

#[local] Hint Resolve moves_in_outbox : within.
#[local] Hint Extern 1 (moves (modify _)) =>
  (apply within_modify; intros ?; apply rtc_once, as_keep; reflexivity) : within.

Lemma moves_update_chunk i g f : moves (update_chunk i g f).
Proof. unfold update_chunk. within_tac. Qed.

Lemma moves_settle_test i st : moves (settle_live_test_attempt i st).
Proof. unfold settle_live_test_attempt. within_tac. Qed.
#[local] Hint Resolve moves_update_chunk moves_settle_test : within.

Lemma moves_set_unreported i l st : moves (set_unreported i l st).
Proof. unfold set_unreported. within_tac. Qed.

Lemma moves_update_batch i f : moves (update_batch i f).
Proof. unfold update_batch. within_tac. Qed.
#[local] Hint Resolve moves_set_unreported moves_update_batch : within.

Lemma moves_finalize_failed now i b : moves (_finalize_failed_messages now i b).
Proof. unfold _finalize_failed_messages. within_tac. Qed.
#[local] Hint Resolve moves_finalize_failed : within.

Lemma moves_fail_chunk now i g f : moves (fail_chunk now i g f).
Proof. unfold fail_chunk. within_tac. Qed.

Lemma moves_reserve now i n k : moves (_reserve_submission_budget now i n k).
Proof. unfold _reserve_submission_budget. within_tac. Qed.
#[local] Hint Resolve moves_fail_chunk moves_reserve : within.

Lemma moves_settle_attempt i f :
  (forall a, identity (f a) = identity a) -> moves (settle_attempt i f).
Proof.
  intros Hf s x s' H. unfold settle_attempt in H.
  apply stex_bind_ok in H as (s0 & s1 & [= <- <-] & H).
  destruct (attempts s !! i) as [a|] eqn:E; [|injection H as <- <-; constructor].
  case_bool_decide as O; [|injection H as <- <-; constructor].
  apply stex_bind_ok in H as (u & s2 & [= <- <-] & [= <- <-]).
  apply rtc_once, (as_settle_one _ _ i a (f a)); auto.
Qed.

Lemma moves_complete now i o safe code : moves (complete_vendor_attempt now i o safe code).
Proof. apply moves_settle_attempt. done. Qed.
#[local] Hint Resolve moves_complete : within.

Lemma moves_need {A} r (m : tx_ (option A)) : moves m -> moves (need r m).
Proof. intros H. unfold need. within_tac. Qed.
#[local] Hint Resolve moves_need : within.

Lemma moves_reject reg amb now i ctx aid g r code safe why :
  moves (_apply_reject_or_fail reg amb now i ctx aid g r code safe why).
Proof. unfold _apply_reject_or_fail. within_tac. Qed.
#[local] Hint Resolve moves_reject : within.

Lemma moves_finalize_chunk reg ps amb now i aid g ctx a r safe ex :
  moves (finalize_chunk reg ps amb now i aid g ctx a r safe ex).
Proof. unfold finalize_chunk. within_tac. Qed.
#[local] Hint Resolve moves_finalize_chunk : within.

Lemma moves_finalize reg ps amb now aid i g a : moves (finalize_body reg ps amb now aid i g a).
Proof. unfold finalize_body. within_tac. Qed.

Lemma moves_split_settle now i : moves (_settle_split_vendor_attempt now i).
Proof.
  intros s x s' [= <- <-]. apply rtc_once. eapply as_settle; [|done|done].
  intros a. unfold is_invoking. destruct (_ && _) eqn:E; [|done]. split; [done|].
  bool_prop. done.
Qed.
#[local] Hint Resolve moves_split_settle : within.

Lemma moves_insert_child c : moves (insert_child c).
Proof. unfold insert_child. within_tac. Qed.

Lemma moves_create_child b n p o sg cu gr : moves (create_child b n p o sg cu gr).
Proof. unfold create_child, move_messages. pose proof moves_insert_child. within_tac. Qed.
#[local] Hint Resolve moves_create_child : within.

Lemma moves_create_children amb now i b cu : moves (_create_split_children amb now i b cu).
Proof. unfold _create_split_children. within_tac. Qed.

Lemma moves_blocked now i : moves (_mark_split_capacity_blocked now i).
Proof. unfold _mark_split_capacity_blocked. within_tac. Qed.
#[local] Hint Resolve moves_create_children moves_blocked : within.

Lemma moves_split amb now i b cu ex : moves (complete_vendor_split amb now i b cu ex).
Proof. unfold complete_vendor_split. within_tac. Qed.
#[local] Hint Resolve moves_split : within.

Lemma moves_retry_splits amb now ex ids n : moves (retry_splits amb now ex ids n).
Proof. revert n. induction ids; intros n; simpl; within_tac. Qed.

Lemma moves_retry_capacity amb now n ex : moves (retry_capacity_blocked_splits amb now n ex).
Proof. unfold retry_capacity_blocked_splits. pose proof moves_retry_splits. within_tac. Qed.

Lemma moves_repair_one reg amb now i aid : moves (repair_one reg amb now i aid).
Proof. unfold repair_one. within_tac. Qed.
#[local] Hint Resolve moves_repair_one : within.

Lemma moves_repair_each reg amb now ids n : moves (repair_each reg amb now ids n).
Proof. revert n. induction ids as [|[]]; intros n; simpl; within_tac. Qed.

Lemma moves_repair reg amb now n :
  moves (repair_legacy_safe_reject_submitting reg amb now n).
Proof.
  unfold repair_legacy_safe_reject_submitting. pose proof moves_repair_each. within_tac.
Qed.

Lemma recover_attempt_settles now s ids a :
  identity (recover_attempt now s ids a) = identity a /\
  (Attempt.outcome a <> Outcome.invoking -> recover_attempt now s ids a = a).
Proof.
  assert (Hi : forall b, b && is_invoking a = true -> Attempt.outcome a = Outcome.invoking).
  { intros b H. unfold is_invoking in H. by bool_prop. }
  unfold recover_attempt, repaired_attempt, inconsistent_attempt, stale_attempt.
  destruct (_ && match _ with Some _ => _ | None => _ end) eqn:R; simpl.
  { split; [done|]. intros Hn. apply andb_true_iff in R as [R _]. by apply Hi in R. }
  destruct (_ && match _ with Some _ => in_status _ _ | None => _ end) eqn:I.
  { split; [done|]. intros Hn. apply andb_true_iff in I as [I _].
    apply andb_true_iff in I as [I _]. by apply Hi in I. }
  destruct (_ && match Attempt.invoke_started_at a with Some _ => _ | None => _ end) eqn:T; [|done].
  split; [done|]. intros Hn. apply andb_true_iff in T as [T _].
  apply andb_true_iff in T as [T _]. by apply Hi in T.
Qed.

Lemma moves_recover now : moves (recover_stalled now).
Proof.
  unfold recover_stalled. intros s x s' H.
  apply stex_bind_ok in H as (s0 & s1 & [= <- <-] & H). cbv zeta in H.
  apply stex_bind_ok in H as (? & s1 & [= <- <-] & H).
  eapply (rtc_l _ _ (set_attempts (fmap (recover_attempt now s (recovery_candidates s))) s)).
  - apply (as_settle _ _ (recover_attempt now s (recovery_candidates s))); [|done|done].
    intros a. apply recover_attempt_settles.
  - revert H. match goal with |- ?m ?t = _ -> _ => assert (M : moves m) by within_tac end.
    intros H. by eapply M.
Qed.

(** ** Inserted attempts *)

Lemma chunk_attempts_in c s i a :
  (i, a) ∈ chunk_attempts c s <-> attempts s !! i = Some a /\ Attempt.chunk_id a = c.
Proof.
  unfold chunk_attempts. rewrite sorting.merge_sort_Permutation, filter_in, elem_of_map_to_list.
  unfold of_chunk. simpl. by rewrite Z.eqb_eq.
Qed.

Lemma chunk_attempts_existsb c s (f : Attempt.t -> bool) :
  List.existsb f (snd <$> chunk_attempts c s) = false <->
  forall i a, attempts s !! i = Some a -> Attempt.chunk_id a = c -> f a = false.
Proof.
  split.
  - intros H i a Ha Hc. destruct (f a) eqn:F; [|done]. rewrite <-H. symmetry.
    apply List.existsb_exists. exists a. split; [|done]. apply list_elem_of_In, list_elem_of_fmap.
    exists (i, a). by rewrite chunk_attempts_in.
  - intros H. destruct (List.existsb _ _) eqn:E; [|done].
    apply List.existsb_exists in E as (a & Ha & F). apply list_elem_of_In in Ha.
    apply list_elem_of_fmap in Ha as ([i b] & -> & Hin). apply chunk_attempts_in in Hin as [? ?].
    simpl in F. by rewrite (H i b) in F.
Qed.

Lemma insert_attempt_ok a s id s' : insert_attempt a s = Ok (id, s') ->
  id = next_attempt_id s /\ s' = take_attempt_id (set_attempts (<[next_attempt_id s := a]>) s) /\
  1 <= Attempt.generation a /\
  forall i b, attempts s !! i = Some b -> Attempt.chunk_id b = Attempt.chunk_id a ->
    Attempt.generation b <> Attempt.generation a.
Proof.
  unfold insert_attempt. intros H. Outbox.sx.
  match goal with C : attempt_constraints a s = Ok _ |- _ =>
    unfold attempt_constraints in C; apply bind_ok in C as (? & C1 & C);
    apply bind_ok in C as (? & _ & C); apply bind_ok in C as (? & C2 & _) end.
  apply require_ok in C1. apply refuse_ok in C2. bool_prop. do 3 (split; [done|]).
  intros i b Hb Hc. apply Z.eqb_neq.
  by apply (proj1 (chunk_attempts_existsb (Attempt.chunk_id a) s _) C2 i b Hb).
Qed.

Lemma insert_attempt_step a s id s' : insert_attempt a s = Ok (id, s') ->
  (blocking a = true -> unblocked (attempts s) (Attempt.chunk_id a)) -> astep s s'.
Proof.
  intros (-> & -> & Hg & Hu)%insert_attempt_ok Hb. by apply (as_insert _ _ a).
Qed.

Lemma lock_send_context_attempts c s ctx : lock_send_context c s = Some ctx ->
  lc_attempts ctx = chunk_attempts c s.
Proof.
  unfold lock_send_context. intros L. destruct (chunks s !! c) as [ch|]; [|done]. simpl in L.
  destruct (batches s !! Chunk.batch_id ch); [|done]. by injection L as <-.
Qed.

(** The guards of [begin_vendor_invoke] when it succeeds. *)
Lemma begin_ok now c v ad r s x s' : begin_vendor_invoke now c v ad r s = Ok (x, s') ->
  unblocked (attempts s) c /\ rtc astep s s'.
Proof.
  unfold begin_vendor_invoke. intros H.
  apply stex_bind_ok in H as (s0 & s1 & [= <- <-] & H).
  destruct (lock_send_context c s) as [ctx|] eqn:L; [|done].
  pose proof (lock_send_context_attempts _ _ _ L) as E.
  apply stex_bind_ok in H as (? & ? & [_ ->]%Outbox.lift_ok & H).
  apply stex_bind_ok in H as (? & ? & [_ ->]%Outbox.lift_ok & H).
  apply stex_bind_ok in H as (? & ? & [Hb ->]%Outbox.lift_ok & H).
  apply refuse_ok in Hb. rewrite E in Hb. cbv zeta in H.
  assert (U : unblocked (attempts s) c) by exact (proj1 (chunk_attempts_existsb c s blocking) Hb).
  apply stex_bind_ok in H as (id & s1 & HI & H). split; [done|].
  eapply rtc_l; [by eapply insert_attempt_step|]. revert H.
  match goal with |- ?m _ = _ -> _ => assert (M : moves m) by within_tac end. apply M.
Qed.

Lemma moves_record now c v g safe code :
  moves (record_vendor_attempt now c v g Outcome.cancelled_before_invoke safe code).
Proof.
  unfold record_vendor_attempt. apply within_bind; [apply _| |intros; within_tac].
  intros s x s' H. by apply rtc_once, (insert_attempt_step _ _ _ _ H).
Qed.

Lemma reserve_attempts now c n k s x s' : _reserve_submission_budget now c n k s = Ok (x, s') ->
  attempts s' = attempts s /\ next_attempt_id s' = next_attempt_id s.
Proof.
  unfold _reserve_submission_budget. intros H.
  apply stex_bind_ok in H as (? & ? & [_ ->]%Outbox.lift_ok & H).
  destruct (live_test_usage_window now) as [ud ra].
  apply stex_bind_ok in H as (? & s1 & [= <- <-] & H).
  apply stex_bind_ok in H as (? & s2 & [= <- <-] & H). cbv zeta in H.
  case_match; [by injection H as <- <-|].
  do 2 apply stex_bind_ok in H as (? & ? & [_ ->]%Outbox.lift_ok & H).
  by injection H as <- <-.
Qed.

Lemma authorize_moves now c a ch s cl s' : unblocked (attempts s) c ->
  authorize_next now c a ch s = Ok (cl, s') -> rtc astep s s'.
Proof.
  intros U. unfold authorize_next. cbv zeta. intros H.
  apply stex_bind_ok in H as (budget & s1 & HB & H).
  assert (K : attempts s1 = attempts s /\ next_attempt_id s1 = next_attempt_id s).
  { destruct (ca_enforce_budget a); [|by injection HB as <- <-].
    by eapply reserve_attempts. }
  eapply rtc_l; [apply as_keep; apply K|]. destruct K as [K _].
  destruct (sc_status budget); [|injection H as <- <-; constructor..].
  apply stex_bind_ok in H as (id & s2 & HI & H).
  eapply rtc_l; [eapply insert_attempt_step; [exact HI|]; intros _; simpl; by rewrite K|].
  revert H. match goal with |- ?m _ = _ -> _ => assert (M : moves m) by within_tac end. apply M.
Qed.

(** A claim that passes its guards finds no blocking attempt. *)
Lemma claim_ok reg now c denied a s cl s' : claim_body reg now c denied a s = Ok (cl, s') ->
  (Failover.kind cl = Failover.AUTHORIZED -> unblocked (attempts s) c) /\ rtc astep s s'.
Proof.
  unfold claim_body. intros H.
  apply stex_bind_ok in H as (s0 & s1 & [= <- <-] & H). cbv zeta in H.
  destruct (lock_send_context c s) as [ctx|] eqn:L; [|injection H as <- <-; by split; [|constructor]].
  pose proof (lock_send_context_attempts _ _ _ L) as E.
  destruct (ca_live_test a && _); [injection H as <- <-; by split; [|constructor]|].
  match type of H with context [lift ?d ≫= ?k] => assert (T : (lift d ≫= k) s = Ok (cl, s') ->
    (Failover.kind cl = Failover.AUTHORIZED -> unblocked (attempts s) c) /\ rtc astep s s') end.
  { intros T. apply stex_bind_ok in T as ([r|] & s2 & [Hd ->]%Outbox.lift_ok & T);
      [injection T as <- <-; by split; [|constructor]|].
    apply Failover.claim_denied_none in Hd as (_ & _ & _ & _ & _ & _ & _ & _ & Hb & _).
    assert (U : unblocked (attempts s) c).
    { intros i x Hx Hc. unfold blocking. apply bool_decide_eq_false.
      rewrite Forall_forall in Hb. apply Hb. apply list_elem_of_fmap. exists (i, x).
      by rewrite E, chunk_attempts_in. }
    destruct (negb _); [injection T as <- <-; by split; [|constructor]|].
    split; [done|]. by eapply authorize_moves. }
  destruct (Failover.already_handled_reason _ _ _ _ _); [|by apply T].
  destruct (find _ _) as [[]|]; [|by apply T]. injection H as <- <-. by split; [|constructor].
Qed.


(** ** The invariant of the attempts *)

Record attempts_ok (s : db) : Prop := {
  ao_ids : forall i a, attempts s !! i = Some a -> i < next_attempt_id s;
  ao_gen : forall i a, attempts s !! i = Some a -> 1 <= Attempt.generation a;
  ao_one_per_generation : forall i j a b,
    attempts s !! i = Some a -> attempts s !! j = Some b ->
    Attempt.chunk_id a = Attempt.chunk_id b -> Attempt.generation a = Attempt.generation b -> i = j;
  ao_one_blocking : forall i j a b,
    attempts s !! i = Some a -> attempts s !! j = Some b ->
    Attempt.chunk_id a = Attempt.chunk_id b ->
    blocking a = true -> blocking b = true -> i = j }.

Lemma invoking_blocks a : Attempt.outcome a = Outcome.invoking -> blocking a = true.
Proof. intros H. unfold blocking. by rewrite H. Qed.

(** A settlement never makes an attempt block that did not. *)
Lemma settled_blocking (f : Attempt.t -> Attempt.t) a :
  (Attempt.outcome a <> Outcome.invoking -> f a = a) -> blocking (f a) = true -> blocking a = true.
Proof.
  intros Hf. destruct (decide (Attempt.outcome a = Outcome.invoking)) as [E|E].
  - intros _. by apply invoking_blocks.
  - by rewrite Hf.
Qed.

Lemma attempts_ok_insert s a :
  (blocking a = true -> unblocked (attempts s) (Attempt.chunk_id a)) ->
  (forall i b, attempts s !! i = Some b -> Attempt.chunk_id b = Attempt.chunk_id a ->
     Attempt.generation b <> Attempt.generation a) ->
  1 <= Attempt.generation a -> forall s', attempts s' = <[next_attempt_id s := a]> (attempts s) ->
  next_attempt_id s' = next_attempt_id s + 1 -> attempts_ok s -> attempts_ok s'.
Proof.
  intros Hb Hu Hg s' E N I. split; rewrite E, ?N.
  - intros i b [[<- <-]|[_ Hi]]%lookup_insert_Some; [lia|]. apply (ao_ids _ I) in Hi. lia.
  - intros i b [[<- <-]|[_ Hi]]%lookup_insert_Some; [done|]. by apply (ao_gen _ I) in Hi.
  - intros i j x y [[<- <-]|[_ Hi]]%lookup_insert_Some [[<- <-]|[_ Hj]]%lookup_insert_Some ??;
      [done| | |by eapply (ao_one_per_generation _ I)]; exfalso; by eapply Hu.
  - intros i j x y [[<- <-]|[_ Hi]]%lookup_insert_Some [[<- <-]|[_ Hj]]%lookup_insert_Some ? Bx By;
      [done| | |by eapply (ao_one_blocking _ I)]; exfalso.
    + by rewrite (Hb Bx j y) in By.
    + by rewrite (Hb By i x) in Bx.
Qed.

Lemma attempts_ok_settle s f :
  (forall a, identity (f a) = identity a /\ (Attempt.outcome a <> Outcome.invoking -> f a = a)) ->
  forall s', attempts s' = f <$> attempts s -> next_attempt_id s' = next_attempt_id s ->
  attempts_ok s -> attempts_ok s'.
Proof.
  intros Hf s' E N I. unfold identity in Hf. split; rewrite E, ?N.
  - intros i b (a & _ & Ha)%lookup_fmap_Some. by eapply (ao_ids _ I).
  - intros i b (a & <- & Ha)%lookup_fmap_Some. destruct (Hf a) as [[= _ _ Hg] _]. rewrite Hg.
    by eapply (ao_gen _ I).
  - intros i j x y (a & <- & Ha)%lookup_fmap_Some (b & <- & Hb)%lookup_fmap_Some.
    destruct (Hf a) as [[= Ca _ Ga] _], (Hf b) as [[= Cb _ Gb] _]. rewrite Ca, Cb, Ga, Gb.
    by eapply (ao_one_per_generation _ I).
  - intros i j x y (a & <- & Ha)%lookup_fmap_Some (b & <- & Hb)%lookup_fmap_Some.
    destruct (Hf a) as [[= Ca _ _] Sa], (Hf b) as [[= Cb _ _] Sb]. rewrite Ca, Cb. intros Hc Bx By.
    eapply (ao_one_blocking _ I); eauto using settled_blocking.
Qed.

Lemma attempts_ok_settle_one s i a a' :
  attempts s !! i = Some a -> Attempt.outcome a = Outcome.invoking -> identity a' = identity a ->
  forall s', attempts s' = <[i := a']> (attempts s) -> next_attempt_id s' = next_attempt_id s ->
  attempts_ok s -> attempts_ok s'.
Proof.
  intros Ha Ho Hid s' E N I. unfold identity in Hid. injection Hid as Hc Hv Hg.
  apply invoking_blocks in Ho. split; rewrite E, ?N.
  - intros j b [[<- <-]|[_ Hj]]%lookup_insert_Some; by eapply (ao_ids _ I).
  - intros j b [[<- <-]|[_ Hj]]%lookup_insert_Some; [rewrite Hg|]; by eapply (ao_gen _ I).
  - intros j k x y [[<- <-]|[_ Hj]]%lookup_insert_Some [[<- <-]|[_ Hk]]%lookup_insert_Some;
      rewrite ?Hc, ?Hg; try done; by eapply (ao_one_per_generation _ I).
  - intros j k x y [[<- <-]|[_ Hj]]%lookup_insert_Some [[<- <-]|[_ Hk]]%lookup_insert_Some;
      rewrite ?Hc; try done; intros; by eapply (ao_one_blocking _ I).
Qed.

Lemma attempts_ok_astep s s' : attempts_ok s -> astep s s' -> attempts_ok s'.
Proof.
  intros I [E N|a Hb Hu Hg E N|f Hf E N|i a a' Ha Ho Hid E N].
  - destruct I. by split; rewrite E, ?N.
  - by eapply attempts_ok_insert.
  - by eapply attempts_ok_settle.
  - by eapply (attempts_ok_settle_one s i a a').
Qed.

(** Final attempts stay as they are. *)
Lemma final_astep s s' i a : attempts_ok s -> attempts s !! i = Some a ->
  Attempt.outcome a <> Outcome.invoking -> astep s s' -> attempts s' !! i = Some a.
Proof.
  intros I Ha Ho [E _|b _ _ _ E _|f Hf E _|j b b' Hj Hb _ E _]; rewrite E.
  - done.
  - rewrite lookup_insert_ne; [done|]. apply (ao_ids _ I) in Ha. lia.
  - rewrite lookup_fmap, Ha. simpl. f_equal. by apply Hf.
  - rewrite lookup_insert_ne; [done|]. intros ->. naive_solver.
Qed.

Lemma step_moves reg ps amb s s' : step reg ps amb s s' -> rtc astep s s'.
Proof.
  destruct 1 as [now c v ad r|now i c g a|now c denied a| | | | | | |]; 
    try apply (within_transaction (rtc astep)).
  - intros t x t' H. by eapply begin_ok.
  - unfold finalize_vendor_attempt. case_match; [constructor|].
    pose proof (within_transaction _ _ s (moves_finalize reg ps amb now i c g a)) as M.
    destruct (transaction _ s) as [[r|[r|e]] t]; exact M.
  - unfold claim_next_vendor_invoke. destruct (Routing.validate_vendor_id _); [|constructor].
    assert (M : moves (claim_body reg now c denied a)) by (intros t x t' H; by eapply claim_ok).
    apply (within_transaction _ _ s) in M. destruct (transaction _ s) as [[r|e] t]; exact M.
  - apply moves_complete.
  - apply moves_record.
  - apply moves_split.
  - apply moves_retry_capacity.
  - apply moves_repair.
  - apply moves_recover.
  - by apply rtc_once, as_keep.
Qed.

Lemma reachable_attempts_ok reg ps amb s : reachable reg ps amb s -> attempts_ok s.
Proof.
  intros (s0 & E & Hr). assert (attempts_ok s0) by (split; rewrite E; set_solver).
  revert H. apply (rtc_invariant _ _) with (2 := Hr). intros t t' I St.
  eapply (rtc_invariant astep); [exact attempts_ok_astep|by eapply step_moves|done].
Qed.

Lemma rtc_step_moves reg ps amb s s' : rtc (step reg ps amb) s s' -> rtc astep s s'.
Proof. induction 1; [constructor|]. etransitivity; [by eapply step_moves|done]. Qed.

Lemma final_kept s s' i a : attempts_ok s -> attempts s !! i = Some a ->
  Attempt.outcome a <> Outcome.invoking -> rtc astep s s' -> attempts s' !! i = Some a.
Proof.
  intros I Ha Ho Hr. induction Hr as [|s s1 s' H1 _ IH]; [done|].
  apply IH; [by eapply attempts_ok_astep|by eapply final_astep].
Qed.

Lemma blocking_no_authorization reg s i a : attempts s !! i = Some a -> blocking a = true ->
  no_authorization reg s (Attempt.chunk_id a).
Proof.
  intros Ha B. split.
  - intros now v ad r [x s'] H. apply begin_ok in H as [U _]. by rewrite (U i a) in B.
  - intros now denied cl c s' H K. unfold claim_next_vendor_invoke in H.
    destruct (Routing.validate_vendor_id _); [|done]. unfold transaction in H.
    destruct (claim_body _ _ _ _ _ _) as [[cl' t]|e] eqn:E; injection H as <- <-; [|done].
    apply claim_ok in E as [U _]. by rewrite (U K i a) in B.
Qed.

(** ** A concrete run *)

(** One chunk of one queued batch, claimed for submission. *)
Definition example_chunk : Chunk.t :=
  Chunk.mk 1 0 (tx "c1") 1 ChunkStatus.submitting None None None 0 0 None None (Some 0) None
    (tx "zhihui") 0 None 1 None None None None.
Definition example_batch : Batch.t :=
  Batch.mk BatchStatus.queued (tx "notice") 1 1 None 0 0 0 1 0.
Definition example_db : db :=
  mkDb {[7 := example_chunk]} {[1 := example_batch]} ∅ {[3 := Message.mk 1 (Some 7)
    MessageStatus.pending false]} ∅ [] ∅ Outbox.empty_db [] 1 8.
Definition example_registry := Routing.default_vendor_registry.
Definition example_step := step example_registry id None.

(** The attempt is written, then the call times out. *)
Definition example_invoking : db :=
  snd (transaction (begin_vendor_invoke 5 7 (tx "zhihui") (tx "zhihui") (tx "primary")) example_db).
Definition example_uncertain : db :=
  snd (finalize_vendor_attempt example_registry id None 6 1 7 1
         (mkFinalize Outcome.uncertain None None false None None (Some 1) false) example_invoking).

Lemma example_reachable : reachable example_registry id None example_uncertain.
Proof.
  exists example_db. split; [reflexivity|].
  eapply rtc_l; [apply step_begin|]. eapply rtc_l; [apply step_finalize|]. constructor.
Qed.

(** ** The properties *)

(** C2: a chunk is never resent.  In every reachable state, an attempt that
    was submitted, is uncertain or is inconsistent keeps its row through every
    later transaction, and afterwards neither a first invoke nor a failover
    claim of its chunk is ever authorized, whatever the transactions in
    between do to the chunk, the batch and the other tables. *)
Theorem never_resent registry pseudonym ambient s s' i a :
  reachable registry pseudonym ambient s -> attempts s !! i = Some a ->
  Attempt.outcome a ∈ [Outcome.submitted; Outcome.uncertain; Outcome.inconsistent] ->
  rtc (step registry pseudonym ambient) s s' ->
  attempts s' !! i = Some a /\ no_authorization registry s' (Attempt.chunk_id a).
Proof.
  intros Hs Ha Ho Hr.
  assert (B : blocking a = true /\ Attempt.outcome a <> Outcome.invoking)
    by (elem_inv Ho; unfold blocking; by rewrite Ho).
  destruct B as [B N].
  assert (K : attempts s' !! i = Some a)
    by (eapply final_kept; eauto using reachable_attempts_ok, rtc_step_moves).
  split; [done|]. by eapply blocking_no_authorization.
Qed.

Lemma never_resent_witness :
  no_authorization example_registry (snd (transaction (recover_stalled 99) example_uncertain)) 7.
Proof.
  assert (E : exists a, attempts example_uncertain !! 1 = Some a /\ Attempt.chunk_id a = 7 /\
                Attempt.outcome a = Outcome.uncertain)
    by (eexists; split; [vm_compute; reflexivity|done]).
  destruct E as (a & Ha & <- & Ho).
  refine (proj2 (never_resent example_registry id None example_uncertain _ 1 a
                   example_reachable Ha _ _)).
  - rewrite Ho. right. left.
  - apply rtc_once, step_recover.
Defined.

(** At most one call of a chunk is in flight or irreversible.  In every
    reachable state two attempts of one chunk that are invoking, submitted,
    uncertain or inconsistent are the same attempt, attempts of one generation
    are the same attempt, and such an attempt excludes a further
    authorization. *)
Theorem one_blocking_attempt registry pseudonym ambient s i j a b :
  reachable registry pseudonym ambient s ->
  attempts s !! i = Some a -> attempts s !! j = Some b ->
  Attempt.chunk_id a = Attempt.chunk_id b ->
  (blocking a = true -> blocking b = true -> i = j) /\
  (Attempt.generation a = Attempt.generation b -> i = j) /\
  (blocking a = true -> no_authorization registry s (Attempt.chunk_id a)).
Proof.
  intros I%reachable_attempts_ok Ha Hb Hc. repeat split; intros.
  - by eapply (ao_one_blocking _ I).
  - by eapply (ao_one_per_generation _ I).
  - by eapply (blocking_no_authorization registry s i a).
  - by eapply (blocking_no_authorization registry s i a).
Qed.

Lemma one_blocking_attempt_witness : no_authorization example_registry example_uncertain 7.
Proof.
  assert (E : exists a, attempts example_uncertain !! 1 = Some a /\ Attempt.chunk_id a = 7 /\
                blocking a = true) by (eexists; split; [vm_compute; reflexivity|done]).
  destruct E as (a & Ha & <- & B).
  by apply (one_blocking_attempt example_registry id None example_uncertain 1 1 a a
              example_reachable Ha Ha eq_refl).
Defined.

End SendSafety.
