(* ===== verification/SendFinalize.v ===== *)
(** * Finalizing a vendor attempt

    [finalize_vendor_attempt] settles the attempt, the chunk, the budget and
    the messages in one transaction: it applies completely or changes nothing,
    and repeating it changes nothing and recognises its own result. *)

From S2P Require Import Prelude PyText Category VendorCodes Routing Failover.
From S2P Require Import OutboxContract Outbox SendState SendStore SendSafety.

Module SendFinalize.
Import SendState SendStore.

(** ** Statements beside the chunk and the attempts *)

(** No chunk and no attempt changes, and no batch disappears. *)
Record quiet (s s' : db) : Prop := {
  q_chunks : chunks s' = chunks s;
  q_attempts : attempts s' = attempts s;
  q_next : next_attempt_id s' = next_attempt_id s;
  q_batches : forall b, is_Some (batches s !! b) -> is_Some (batches s' !! b) }.

#[export] Instance quiet_preorder : PreOrder quiet.
Proof.
  split; [by split|]. intros s1 s2 s3 [] []. split; try congruence. auto.
Qed.

#[local] Hint Extern 1 (within quiet (modify _)) =>
  (apply within_modify; intros ?; split; [reflexivity..|done]) : within.

Lemma quiet_in_outbox {A} (m : stex Outbox.db exc A) : within quiet (in_outbox m).
Proof.
  intros s x s'. unfold in_outbox. destruct (m (outbox s)) as [[y o]|]; [|done].
  intros [= <- <-]. by split.
Qed.

Lemma quiet_settle_test i st : within quiet (settle_live_test_attempt i st).
Proof. unfold settle_live_test_attempt. within_tac. Qed.

Lemma quiet_set_unreported i l st : within quiet (set_unreported i l st).
Proof. unfold set_unreported. within_tac. Qed.

Lemma quiet_update_batch i f : within quiet (update_batch i f).
Proof.
  apply within_modify. intros s. split; [done..|]. intros b Hb. simpl.
  by rewrite lookup_alter_is_Some.
Qed.
#[local] Hint Resolve quiet_in_outbox quiet_settle_test quiet_set_unreported quiet_update_batch
  : within.

Lemma quiet_failed_messages now i b : within quiet (_finalize_failed_messages now i b).
Proof.
  unfold _finalize_failed_messages. within_tac.
  apply within_modify. intros s. split; [done..|]. intros d Hd. simpl.
  apply lookup_insert_is_Some'. by right.
Qed.
#[local] Hint Resolve quiet_failed_messages : within.

(** ** One chunk changes *)

Definition updates (chunk_id : Z) (P : Chunk.t -> Chunk.t -> Prop) (s s' : db) : Prop :=
  exists c c', chunks s !! chunk_id = Some c /\ P c c' /\
    chunks s' = <[chunk_id := c']> (chunks s) /\ attempts s' = attempts s /\
    next_attempt_id s' = next_attempt_id s /\
    (forall b, is_Some (batches s !! b) -> is_Some (batches s' !! b)).

Lemma updates_mono c (P Q : Chunk.t -> Chunk.t -> Prop) s s' :
  (forall x y, P x y -> Q x y) -> updates c P s s' -> updates c Q s s'.
Proof. intros H (x & y & ? & ? & ?). exists x, y. auto. Qed.

Lemma need_update_then {A} r c g f (k : Chunk.t -> stex db ferr A) s x s' :
  (need r (update_chunk c g f) ≫= k) s = Ok (x, s') -> (forall y, within quiet (k y)) ->
  updates c (fun c0 c1 => g c0 = true /\ c1 = f c0) s s'.
Proof.
  intros (y & s1 & H1 & H2)%stex_bind_ok Hk. apply Hk in H2 as [Hc Ha Hn Hb].
  unfold need in H1. apply stex_bind_ok in H1 as (o & s2 & H1 & H2).
  unfold fin in H1. destruct (update_chunk _ _ _ _) as [[o' s3]|] eqn:U; [|done].
  injection H1 as <- <-. unfold update_chunk in U. apply stex_bind_ok in U as (? & ? & [= <- <-] & U).
  destruct (chunks s !! c) as [c0|] eqn:C; [|by injection U as <- <-].
  destruct (g c0) eqn:G; [|by injection U as <- <-].
  apply stex_bind_ok in U as (? & ? & [= <- <-] & [= <- <-]). injection H2 as <- <-.
  exists c0, (f c0). do 5 (split; [by auto|]). done.
Qed.

(** The chunk and the attempt of an applied result tell the same story. *)
Definition agrees (result : Outcome.t) (c c' : Chunk.t) : Prop :=
  submitting c = true /\ Chunk.batch_id c' = Chunk.batch_id c /\
  classify_finalize_conflict result (Chunk.status c') result = ALREADY_FINALIZED_SAME_RESULT.

Lemma reject_agrees reg amb now i ctx aid g r code safe why s n s' :
  r = Outcome.rejected \/ r = Outcome.failed ->
  _apply_reject_or_fail reg amb now i ctx aid g r code safe why s = Ok (n, s') ->
  updates i (fun c c' => agrees r c c' /\
    (r = Outcome.failed -> forall w, why = Some w -> Chunk.vendor_msg c' = Some w)) s s'.
Proof.
  intros Hr. unfold _apply_reject_or_fail. cbv zeta. intros H.
  apply stex_bind_ok in H as (? & ? & [= <- <-] & H).
  apply stex_bind_ok in H as (p & s1 & HP & H).
  assert (E : s1 = s /\ (r = Outcome.failed -> Failover.na_action p = Failover.FAILED)).
  { destruct (_ || _) eqn:B in HP; [by injection HP as <- <-|]. bool_prop.
    unfold fin in HP. destruct (lift _ s) as [[q t]|] eqn:L; [|done]. injection HP as <- <-.
    apply Outbox.lift_ok in L as [_ ->]. split; [done|]. intros ->. naive_solver. }
  destruct E as [-> E]. clear HP. case_bool_decide as B.
  - apply need_update_then in H; [|intros; within_tac]. revert H. apply updates_mono.
    intros c c' [G ->]. destruct Hr as [-> | ->]; [|by rewrite E in B].
    split; [|done]. by repeat split.
  - apply need_update_then in H; [|intros; within_tac]. revert H. apply updates_mono.
    intros c c' [G ->]. split; [|by intros _ w ->]. by destruct Hr as [-> | ->]; repeat split.
Qed.


Lemma finalize_chunk_applied reg ps amb now i aid g ctx a r safe ex :
  returns (fun p => fr_kind (fst p) = APPLIED)
    (finalize_chunk reg ps amb now i aid g ctx a r safe ex).
Proof. unfold finalize_chunk. returns_tac. Qed.

Lemma finalize_chunk_updates reg ps amb now i aid g ctx a r safe ex s x s' :
  r ∈ FINALIZE_RESULTS -> r <> Outcome.cancelled_before_invoke ->
  finalize_chunk reg ps amb now i aid g ctx a r safe ex s = Ok (x, s') ->
  updates i (fun c c' => agrees r c c' /\
    (r = Outcome.failed -> ex = true ->
     Chunk.vendor_msg c' = Some Codes.DELAYED_RETRY_EXHAUSTED)) s s'.
Proof.
  intros Hr Hn H. unfold finalize_chunk in H. cbv zeta in H.
  destruct r; try done; try (exfalso; set_solver).
  all: try (apply need_update_then in H; [|intros; within_tac]; revert H; apply updates_mono;
            intros c c' [G ->]; bool_prop; by repeat split).
  - apply stex_bind_ok in H as (n & s1 & H & [= _ <-]).
    apply reject_agrees in H; [|by left]. revert H. apply updates_mono. by intros c c' [? _].
  - apply stex_bind_ok in H as (n & s1 & H & [= _ <-]).
    apply reject_agrees in H; [|by right]. revert H. apply updates_mono.
    intros c c' [? W]. split; [done|]. intros _ ->. by apply W.
Qed.

(** ** The whole transaction *)

(** The result a finalize settles on: a delay beyond the limit is a failure. *)
Definition exhausts (a : finalize_args) (c : Chunk.t) : bool :=
  bool_decide (fa_result a = Outcome.delayed) && (Codes.DELAYED_RETRY_LIMIT <=? Chunk.retry_count c).
Definition settled_result (a : finalize_args) (c : Chunk.t) : Outcome.t :=
  if exhausts a c then Outcome.failed else fa_result a.

Lemma settled_result_in a c : fa_result a ∈ FINALIZE_RESULTS -> settled_result a c ∈ FINALIZE_RESULTS.
Proof. unfold settled_result. destruct (exhausts a c); [set_solver|done]. Qed.

Lemma classify_not_applied o st r : classify_finalize_conflict o st r <> APPLIED.
Proof. unfold classify_finalize_conflict. by repeat case_match. Qed.

Lemma locked_attempt c s ctx i p : lock_send_context c s = Some ctx ->
  List.find (fun p => fst p =? i) (lc_attempts ctx) = Some p ->
  fst p = i /\ attempts s !! i = Some (snd p) /\ Attempt.chunk_id (snd p) = c.
Proof.
  intros L F. rewrite (SendSafety.lock_send_context_attempts _ _ _ L) in F.
  apply List.find_some in F as [Hin E]. apply Z.eqb_eq in E. destruct p as [j x].
  apply list_elem_of_In, SendSafety.chunk_attempts_in in Hin as [? ?]. simpl in *. by subst.
Qed.

Lemma locked_chunk c s ctx : lock_send_context c s = Some ctx ->
  chunks s !! c = Some (lc_chunk ctx) /\
  batches s !! Chunk.batch_id (lc_chunk ctx) = Some (lc_batch ctx).
Proof.
  unfold lock_send_context. destruct (chunks s !! c) as [ch|] eqn:C; [|done]. simpl.
  destruct (batches s !! Chunk.batch_id ch) eqn:B; [|done]. by intros [= <-].
Qed.

(** The attempt, the chunk and the result of an applied finalize. *)
Record applied (attempt_id chunk_id generation : Z) (a : finalize_args) (s s' : db) : Prop := {
  ap_attempt : exists x x', attempts s !! attempt_id = Some x /\
    Attempt.outcome x = Outcome.invoking /\ Attempt.chunk_id x = chunk_id /\
    Attempt.generation x = generation /\ SendSafety.identity x' = SendSafety.identity x /\
    attempts s' = <[attempt_id := x']> (attempts s) /\
    (forall c, chunks s !! chunk_id = Some c -> Attempt.outcome x' = settled_result a c);
  ap_batch : forall c b, chunks s !! chunk_id = Some c -> fa_batch_id a = Some b ->
    b = Chunk.batch_id c;
  ap_chunk : exists c c', chunks s !! chunk_id = Some c /\
    Chunk.route_generation c = generation /\ Chunk.batch_id c' = Chunk.batch_id c /\
    chunks s' = <[chunk_id := c']> (chunks s) /\
    (fa_result a = Outcome.cancelled_before_invoke /\ c' = c \/
     fa_result a <> Outcome.cancelled_before_invoke /\ agrees (settled_result a c) c c' /\
     (exhausts a c = true -> Chunk.vendor_msg c' = Some Codes.DELAYED_RETRY_EXHAUSTED));
  ap_locked : forall c, chunks s !! chunk_id = Some c -> is_Some (batches s' !! Chunk.batch_id c) }.

Lemma complete_attempt_ok now i o safe code s x ok s' : attempts s !! i = Some x ->
  Attempt.outcome x = Outcome.invoking ->
  fin (complete_vendor_attempt now i o safe code) s = Ok (ok, s') ->
  exists x', SendSafety.identity x' = SendSafety.identity x /\ Attempt.outcome x' = o /\
    s' = set_attempts (<[i := x']>) s.
Proof.
  intros Hx Ho H. unfold fin in H.
  destruct (complete_vendor_attempt _ _ _ _ _ _) as [[b t]|] eqn:C; [|done]. injection H as <- <-.
  unfold complete_vendor_attempt, settle_attempt in C.
  apply stex_bind_ok in C as (? & ? & [= <- <-] & C). rewrite Hx, bool_decide_true in C by done.
  apply stex_bind_ok in C as (? & ? & [= <- <-] & [= <- <-]). eexists. split_and!; [| |reflexivity]; done.
Qed.

Lemma finalize_body_ok reg ps amb now i c g a s rep enq s' :
  fa_result a ∈ FINALIZE_RESULTS ->
  finalize_body reg ps amb now i c g a s = Ok ((rep, enq), s') ->
  (s' = s /\ fr_kind rep <> APPLIED) \/ (fr_kind rep = APPLIED /\ applied i c g a s s').
Proof.
  intros Hr H. unfold finalize_body in H. cbv zeta in H.
  apply stex_bind_ok in H as (? & ? & [= <- <-] & H).
  destruct (lock_send_context c s) as [ctx|] eqn:L; [|injection H as <- <- <-; by left].
  destruct (match fa_batch_id a with Some b => _ | None => _ end) eqn:B;
    [injection H as <- <- <-; by left|].
  destruct (List.find _ _) as [[j x]|] eqn:F; [|injection H as <- <- <-; by left].
  destruct (negb _) eqn:G in H; [injection H as <- <- <-; by left|].
  destruct (negb _) eqn:I in H; [injection H as <- <- <-; left; split; [done|]; apply classify_not_applied|].
  destruct (negb _) eqn:R in H; [injection H as <- <- <-; by left|].
  right. bool_prop. destruct (locked_chunk _ _ _ L) as [Lc Lb].
  destruct (locked_attempt _ _ _ _ _ L F) as (E & Ha & Hc). simpl in *. subst j.
  apply stex_bind_ok in H as (ok & s1 & H1 & H).
  apply (complete_attempt_ok _ _ _ _ _ _ _ _ _ Ha I) in H1 as (x' & Hid & Ho & ->).
  split; [by apply (finalize_chunk_applied _ _ _ _ _ _ _ _ _ _ _ _ _ _ _ H)|].
  fold (exhausts a (lc_chunk ctx)) in H, Ho.
  assert (X : Attempt.outcome x' = settled_result a (lc_chunk ctx)) by exact Ho.
  destruct (decide (fa_result a = Outcome.cancelled_before_invoke)) as [C|C].
  - unfold exhausts in H. rewrite C in H. injection H as _ _ <-. split.
    + exists x, x'. split_and!; try done. by rewrite Lc; intros ? [= <-].
    + rewrite Lc. intros ? b [= <-] Hb. rewrite Hb in B. by bool_prop.
    + exists (lc_chunk ctx), (lc_chunk ctx). split_and!; try done; [|by left].
      by rewrite insert_id.
    + intros ? [= <-]%(eq_trans (eq_sym Lc)). by eexists.
  - apply finalize_chunk_updates in H as (c0 & c1 & C0 & [[A1 [A2 A3]] A4] & C1 & K1 & K2 & K3);
      [|by apply settled_result_in|by destruct (exhausts _ _)].
    simpl in *. rewrite Lc in C0. injection C0 as <-. split.
    + exists x, x'. split_and!; try done. by rewrite Lc; intros ? [= <-].
    + rewrite Lc. intros ? b [= <-] Hb. rewrite Hb in B. by bool_prop.
    + exists (lc_chunk ctx), c1. split_and!; try done. right. split_and!; try done.
      intros Hx. apply A4; [|done]. by rewrite Hx.
    + intros ? [= <-]%(eq_trans (eq_sym Lc)). apply K3. by eexists.
Qed.

(** A rolled back finalize reports the lost comparison, nothing else. *)
Definition lost (e : ferr) : Prop := forall r, e = Rollback r -> fr_kind r = LOST_CAS.

Lemma raises_fin {A} (m : tx_ A) : raises lost (fin m).
Proof. intros s e. unfold fin. destruct (m s); [done|]. by intros [= <-]. Qed.

Lemma raises_need {A} r (m : tx_ (option A)) : raises lost (need r m).
Proof.
  unfold need. apply raises_bind; [apply raises_fin|]. intros [x|]; [apply raises_ret|].
  apply raises_throw. by intros r' [= <-].
Qed.
#[local] Hint Resolve raises_fin raises_need : raises.

Lemma raises_reject reg amb now i ctx aid g r code safe why :
  raises lost (_apply_reject_or_fail reg amb now i ctx aid g r code safe why).
Proof. unfold _apply_reject_or_fail. raises_tac. Qed.
#[local] Hint Resolve raises_reject : raises.

Lemma raises_finalize_chunk reg ps amb now i aid g ctx a r safe ex :
  raises lost (finalize_chunk reg ps amb now i aid g ctx a r safe ex).
Proof. unfold finalize_chunk. raises_tac. Qed.
#[local] Hint Resolve raises_finalize_chunk : raises.

Lemma raises_finalize_body reg ps amb now i c g a :
  raises lost (finalize_body reg ps amb now i c g a).
Proof. unfold finalize_body. raises_tac. Qed.

Lemma find_attempt c s i x : attempts s !! i = Some x -> Attempt.chunk_id x = c ->
  List.find (fun p => fst p =? i) (chunk_attempts c s) = Some (i, x).
Proof.
  intros Hx Hc. assert (In (i, x) (chunk_attempts c s))
    by (by apply list_elem_of_In, SendSafety.chunk_attempts_in).
  destruct (List.find _ _) as [[j y]|] eqn:F.
  - apply List.find_some in F as [Hin E]. apply Z.eqb_eq in E. simpl in E. subst j.
    apply list_elem_of_In, SendSafety.chunk_attempts_in in Hin as [? _]. congruence.
  - apply (List.find_none _ _ F) in H. simpl in H. by rewrite Z.eqb_refl in H.
Qed.

Lemma same_result a c c' x' : agrees (settled_result a c) c c' ->
  (exhausts a c = true -> Chunk.vendor_msg c' = Some Codes.DELAYED_RETRY_EXHAUSTED) ->
  Attempt.outcome x' = settled_result a c ->
  fr_kind (_report_from_locked_state x' c' (fa_result a)) = ALREADY_FINALIZED_SAME_RESULT.
Proof.
  intros (_ & _ & K) M Ho. unfold _report_from_locked_state. cbv zeta. simpl. rewrite Ho.
  unfold settled_result in *. destruct (exhausts a c) eqn:X.
  - rewrite (M eq_refl). unfold exhausts in X. bool_prop. rewrite H.
    destruct (Chunk.status c'); by vm_compute in K.
  - destruct (_ && _) eqn:B; [|done]. bool_prop. congruence.
Qed.

(** What an applied finalize leaves behind answers the same request. *)
Lemma applied_again reg ps amb now i c g a s s' : applied i c g a s s' ->
  fa_result a <> Outcome.cancelled_before_invoke ->
  exists rep, finalize_body reg ps amb now i c g a s' = Ok ((rep, None), s') /\
    fr_kind rep = ALREADY_FINALIZED_SAME_RESULT.
Proof.
  intros [(x & x' & Hx & Hi & Hc & Hg & Hid & Ha & Ho) Hb (c0 & c1 & C0 & R & B & C1 & Cs) Bs] C.
  destruct Cs as [[? _]|(_ & A & M)]; [done|]. injection Hid as Ic _ Ig.
  pose proof (same_result a c0 c1 x' A M (Ho _ C0)) as S.
  exists (_report_from_locked_state x' c1 (fa_result a)). split; [|done].
  destruct (Bs _ C0) as [b Hbt]. rewrite <-B in Hbt.
  assert (L : lock_send_context c s' = Some (mkContext c1 b (chunk_attempts c s'))).
  { unfold lock_send_context. rewrite C1, lookup_insert_eq. simpl. by rewrite Hbt. }
  unfold finalize_body, mbind, stex_bind, fin, get. cbv beta iota zeta. rewrite L. simpl.
  rewrite (find_attempt c s' i x') by (rewrite ?Ha, ?lookup_insert_eq; congruence).
  rewrite Ig, Hg, Z.eqb_refl. simpl.
  assert (N : Attempt.outcome x' <> Outcome.invoking).
  { rewrite (Ho _ C0). destruct A as (_ & _ & K). intros E. by rewrite E in K. }
  rewrite bool_decide_false by done. simpl.
  destruct (fa_batch_id a) as [b0|] eqn:E; [|done].
  by rewrite (Hb c0 b0 C0 eq_refl), <-B, Z.eqb_refl.
Qed.

(** C17: a finalize is atomic.  When it reports APPLIED the attempt moved from
    invoking to the settled result, the chunk was submitting and is now in the
    state of that result (or untouched by a cancelled attempt), and no other
    attempt or chunk changed; with any other report, a lost comparison or an
    exception, the database is the one before. *)
Theorem finalize_atomic registry pseudonym ambient now attempt_id chunk_id generation a s :
  let '(r, s') := finalize_vendor_attempt registry pseudonym ambient now attempt_id chunk_id
                    generation a s in
  match r with
  | Ok (rep, _) => if bool_decide (fr_kind rep = APPLIED)
                   then applied attempt_id chunk_id generation a s s' else s' = s
  | Raise _ => s' = s
  end.
Proof.
  unfold finalize_vendor_attempt. case_bool_decide as Hr; [|done]. simpl. unfold transaction.
  destruct (finalize_body _ _ _ _ _ _ _ _ _) as [[[rep enq] s']|e] eqn:H.
  - apply (finalize_body_ok _ _ _ _ _ _ _ _ _ _ _ _ Hr) in H as [[-> K]|[K A]];
      by case_bool_decide.
  - apply raises_finalize_body in H. destruct e as [e|r]; [done|].
    by rewrite (H r eq_refl), bool_decide_false.
Qed.

(** A finalize is idempotent.  Once a result other than a cancellation was
    applied, the same finalize run again, at any time, reports that it was
    already finalized with the same result and changes nothing, also when a
    delay was turned into a failure at the retry limit. *)
Theorem finalize_idempotent registry pseudonym ambient now now' attempt_id chunk_id generation a
    s s' rep enq :
  finalize_vendor_attempt registry pseudonym ambient now attempt_id chunk_id generation a s
    = (Ok (rep, enq), s') ->
  fr_kind rep = APPLIED -> fa_result a <> Outcome.cancelled_before_invoke ->
  exists rep',
    finalize_vendor_attempt registry pseudonym ambient now' attempt_id chunk_id generation a s'
      = (Ok (rep', None), s') /\
    fr_kind rep' = ALREADY_FINALIZED_SAME_RESULT.
Proof.
  unfold finalize_vendor_attempt. case_bool_decide as Hr; [|done]. simpl. intros H K C.
  unfold transaction in *.
  destruct (finalize_body _ _ _ now _ _ _ _ _) as [[p t]|[e|r]] eqn:B; [|done|].
  - injection H as -> <-.
    apply (finalize_body_ok _ _ _ _ _ _ _ _ _ _ _ _ Hr) in B as [[_ N]|[_ A]]; [done|].
    destruct (applied_again registry pseudonym ambient now' _ _ _ _ _ _ A C) as (rep' & -> & K').
    by exists rep'.
  - injection H as <- <- <-. by rewrite (raises_finalize_body _ _ _ _ _ _ _ _ _ _ B r eq_refl) in K.
Qed.

Lemma finalize_idempotent_witness :
  exists rep', finalize_vendor_attempt SendSafety.example_registry id None 9 1 7 1
      (mkFinalize Outcome.uncertain None None false None None (Some 1) false)
      SendSafety.example_uncertain = (Ok (rep', None), SendSafety.example_uncertain) /\
    fr_kind rep' = ALREADY_FINALIZED_SAME_RESULT.
Proof.
  apply (finalize_idempotent SendSafety.example_registry id None 6 9 1 7 1
           (mkFinalize Outcome.uncertain None None false None None (Some 1) false)
           SendSafety.example_invoking SendSafety.example_uncertain
           (bare_report APPLIED Outcome.uncertain) None); [|reflexivity|discriminate].
  vm_compute. reflexivity.
Defined.

(** ** Claiming the next vendor *)

(** The two writes of an authorized claim. *)
Lemma authorize_next_ok now c a ch s cl s' :
  authorize_next now c a ch s = Ok (cl, s') -> Failover.kind cl = Failover.AUTHORIZED ->
  exists c0 c1,
    chunks s !! c = Some c0 /\ chunks s' = <[c := c1]> (chunks s) /\
    Chunk.status c1 = ChunkStatus.submitting /\ Chunk.selected_vendor c1 = ca_next_vendor a /\
    Chunk.route_generation c1 = ca_generation a + 1 /\
    attempts s' = <[next_attempt_id s := Attempt.mk c (ca_next_vendor a) (ca_generation a + 1)
      Outcome.invoking (ca_next_vendor a) (Some (tx "safe_failover")) false None (Some now) now]>
      (attempts s) /\
    Failover.authorization cl = Some (Failover.mkAuthorization (next_attempt_id s)
      (ca_generation a + 1) (ca_next_vendor a) (ca_next_vendor a) (ca_policy_version a)).
Proof.
  unfold authorize_next. cbv zeta. intros H K.
  apply stex_bind_ok in H as (budget & s1 & HB & H).
  assert (Q : chunks s1 = chunks s /\ attempts s1 = attempts s /\
              next_attempt_id s1 = next_attempt_id s).
  { destruct (ca_enforce_budget a); [|by injection HB as <- <-].
    assert (W : within quiet (_reserve_submission_budget now c (ca_segments a)
                                (Chunk.vendor_attempt_count ch + 1)))
      by (unfold _reserve_submission_budget; within_tac).
    by apply W in HB as []. }
  destruct Q as (Q1 & Q2 & Q3).
  destruct (sc_status budget); [|injection H as <- <-; done..].
  apply stex_bind_ok in H as (id & s2 & HI & H).
  apply SendSafety.insert_attempt_ok in HI as (-> & -> & _ & _).
  apply stex_bind_ok in H as (o & s3 & U & H).
  unfold update_chunk in U. apply stex_bind_ok in U as (? & ? & [= <- <-] & U). simpl in U.
  rewrite Q1 in U. destruct (chunks s !! c) as [c0|]; [|by injection U as <- <-].
  destruct (_ && _); [|by injection U as <- <-].
  apply stex_bind_ok in U as (? & ? & [= <- <-] & [= <- <-]). injection H as <- <-.
  exists c0. eexists. simpl. by rewrite Q1, Q2, Q3.
Qed.

Lemma claim_authorized reg now c denied a s cl s' : claim_body reg now c denied a s = Ok (cl, s') ->
  Failover.kind cl = Failover.AUTHORIZED ->
  exists ctx, lock_send_context c s = Some ctx /\
    (ca_live_test a = true -> denied c = 0) /\ due_for_retry now (lc_chunk ctx) = true /\
    (let previous := List.find (fun p => fst p =? ca_previous a) (lc_attempts ctx) in
     Failover.claim_denied_reason (Chunk.status (lc_chunk ctx)) (Batch.status (lc_batch ctx))
       (ca_generation a) (Chunk.route_generation (lc_chunk ctx))
       ((fun p => view (snd p)) <$> previous) ((fun p => Attempt.chunk_id (snd p)) <$> previous) c
       (ca_next_vendor a) (Chunk.next_vendor (lc_chunk ctx)) (ca_policy_version a)
       (Chunk.route_policy_version (lc_chunk ctx)) true
       ((fun p => Attempt.outcome (snd p)) <$> lc_attempts ctx) (Batch.category (lc_batch ctx))
       (Some reg) (Some (adapter_ids reg)) = Ok None) /\
    authorize_next now c a (lc_chunk ctx) s = Ok (cl, s').
Proof.
  unfold claim_body. intros H K. apply stex_bind_ok in H as (? & ? & [= <- <-] & H). cbv zeta in H.
  destruct (lock_send_context c s) as [ctx|] eqn:L; [|by injection H as <- <-].
  exists ctx. split; [done|].
  destruct (ca_live_test a && _) eqn:T; [by injection H as <- <-|].
  match type of H with context [lift ?d ≫= ?k] => assert (X : (lift d ≫= k) s = Ok (cl, s')) end.
  { destruct (Failover.already_handled_reason _ _ _ _ _); [|done].
    destruct (find _ _) as [[]|]; [by injection H as <- <-|done]. }
  apply stex_bind_ok in X as ([r|] & s2 & [Hd ->]%Outbox.lift_ok & X); [by injection X as <- <-|].
  destruct (negb _) eqn:N in X; [by injection X as <- <-|]. bool_prop.
  split_and!; try done. intros E. rewrite E in T. destruct T; [done|]. by bool_prop.
Qed.

(** A failover call is authorized only after a contractual rejection.
    The claim that authorizes it finds the chunk pending a failover of the
    claimed generation to exactly this vendor, the previous attempt rejected
    with a code that guarantees the vendor did not accept it, every earlier
    attempt reversible, the vendor enabled for the category; it writes one
    invoking attempt of the next generation and moves the chunk to
    submitting. *)
Theorem failover_after_rejection registry now chunk_id denied a s cl s' :
  claim_next_vendor_invoke registry now chunk_id denied a s = (Ok cl, s') ->
  Failover.kind cl = Failover.AUTHORIZED ->
  exists c b prev r att c',
    (chunks s !! chunk_id = Some c /\ batches s !! Chunk.batch_id c = Some b /\ callable b = true /\
     Chunk.status c = ChunkStatus.failover_pending /\ Chunk.route_generation c = ca_generation a /\
     Chunk.next_vendor c = Some (ca_next_vendor a)) /\
    (attempts s !! ca_previous a = Some prev /\ Attempt.chunk_id prev = chunk_id /\
     Attempt.outcome prev = Outcome.rejected /\ Attempt.safe_to_failover prev = true /\
     Attempt.generation prev = ca_generation a /\ SendSafety.unblocked (attempts s) chunk_id) /\
    (Failover.records_by_id (Some registry) !! ca_next_vendor a = Some r /\
     Failover.vendor_matches_route r (Batch.category b) (Some (adapter_ids registry)) = true) /\
    (attempts s' = <[next_attempt_id s := att]> (attempts s) /\
     SendSafety.identity att = (chunk_id, ca_next_vendor a, ca_generation a + 1) /\
     Attempt.outcome att = Outcome.invoking) /\
    (chunks s' = <[chunk_id := c']> (chunks s) /\ Chunk.status c' = ChunkStatus.submitting /\
     Chunk.selected_vendor c' = ca_next_vendor a /\ Chunk.route_generation c' = ca_generation a + 1).
Proof.
  intros H K. unfold claim_next_vendor_invoke in H.
  destruct (Routing.validate_vendor_id _); [|done]. unfold transaction in H.
  destruct (claim_body _ _ _ _ _ _) as [[cl' t]|e] eqn:B; injection H as <- <-; [|done].
  pose proof (SendSafety.claim_ok _ _ _ _ _ _ _ _ B) as [U _]. specialize (U K).
  apply claim_authorized in B as (ctx & L & _ & _ & D & A); [|done]. cbv zeta in D.
  apply Failover.claim_denied_none in D
    as (D1 & D2 & D3 & D4 & _ & D5 & D6 & (p & D7 & D8 & D9 & D10) & _ & _ & r & R1 & R2).
  destruct (locked_chunk _ _ _ L) as [Lc Lb].
  destruct (List.find _ _) as [[j prev]|] eqn:F; [|done].
  destruct (locked_attempt _ _ _ _ _ L F) as (_ & P1 & P2). simpl in *. injection D7 as <-.
  apply authorize_next_ok in A as (c0 & c1 & C0 & C1 & S1 & S2 & S3 & At & _); [|done].
  exists (lc_chunk ctx), (lc_batch ctx), prev, r. eexists. exists c1.
  split_and!; try done. unfold callable. apply bool_decide_true. set_solver.
Qed.

(** Two vendors: the first rejects the number, the second is claimed. *)
Definition two_vendors : list Routing.VendorRecord :=
  Routing.default_vendor_registry ++
  [Routing.mkVendor (tx "backup") true [tx "notice"] (tx "backup") (tx "ratelimit:backup")
     (tx "queue:paused") (tx "backup")].
Definition example_rejected : db :=
  snd (finalize_vendor_attempt two_vendors id (Some 1) 6 1 7 1
         (mkFinalize Outcome.rejected None (Some 1001) true None None (Some 1) false)
         SendSafety.example_invoking).
Definition example_claim : claim_args := mkClaimArgs 1 1 (tx "backup") 1 1 false false.

Definition example_claimed : result exc Failover.InvokeClaim * db :=
  claim_next_vendor_invoke two_vendors 7 7 (fun _ => 0) example_claim example_rejected.
Definition example_authorized : Failover.InvokeClaim :=
  match fst example_claimed with Ok cl => cl | Raise _ => denied_claim [] end.

Lemma failover_after_rejection_witness : exists prev,
  attempts example_rejected !! 1 = Some prev /\ Attempt.outcome prev = Outcome.rejected /\
  Attempt.safe_to_failover prev = true.
Proof.
  destruct (failover_after_rejection two_vendors 7 7 (fun _ => 0) example_claim example_rejected
              example_authorized (snd example_claimed))
    as (c & b & prev & rec & att & c' & _ & (P & _ & O & S & _) & _).
  - vm_compute. reflexivity.
  - vm_compute. reflexivity.
  - exists prev. split; [exact P|]. split; [exact O|exact S].
Defined.

End SendFinalize.
