(* ===== verification/SendBudget.v ===== *)
(** * The live-test budget

    A live test reserves the segments of a chunk before the vendor is called
    and settles them with the result.  The daily row is an exact ledger of the
    reservations, and a day never holds more than its hundred segments, whatever
    order the transactions of the chunk repository run in. *)

From S2P Require Import Prelude PyText Category VendorCodes Routing Failover.
From S2P Require Import OutboxContract Outbox SendState SendStore SendSafety.

Module SendBudget.
Import SendState SendStore.

(** ** The ledger of a day *)

Definition of_day (day : Z) (st : TestStatus.t) (t : Test.t) : bool :=
  (Test.usage_date t =? day) && bool_decide (Test.status t = st).

(** The segments the day's attempts hold in a status. *)
Definition held (st : TestStatus.t) (day : Z) (l : list Test.t) : Z :=
  sumZ (Test.segments <$> List.filter (of_day day st) l).

Definition settle_test (f : Test.t -> bool) (st : TestStatus.t) (t : Test.t) : Test.t :=
  if f t then Test.set_status st t else t.

Lemma held_cons st d t l :
  held st d (t :: l) = (if of_day d st t then Test.segments t else 0) + held st d l.
Proof. unfold held. simpl. by destruct (of_day d st t). Qed.

Lemma held_nil st d : held st d [] = 0.
Proof. done. Qed.

Lemma held_app st d l1 l2 : held st d (l1 ++ l2) = held st d l1 + held st d l2.
Proof. unfold held. by rewrite List.filter_app, fmap_app, sumZ_app. Qed.

Lemma held_nonneg st d l : Forall (fun t => 1 <= Test.segments t) l -> 0 <= held st d l.
Proof.
  induction 1 as [|t l H _ IH]; [done|]. rewrite held_cons. destruct (of_day d st t); lia.
Qed.

Lemma settled_total_cons d t l :
  settled_total (t :: l) d = (if Test.usage_date t =? d then Test.segments t else 0) + settled_total l d.
Proof. unfold settled_total. simpl. by destruct (Test.usage_date t =? d). Qed.

(** Settling the rows a test selects moves their segments. *)
Lemma held_settled f st d l :
  st <> TestStatus.reserved ->
  Forall (fun t => f t = true -> Test.status t = TestStatus.reserved) l ->
  let n := settled_total (List.filter f l) d in
  forall x, held x d (map (settle_test f st) l) = held x d l +
    match x with
    | TestStatus.reserved => - n
    | _ => if bool_decide (x = st) then n else 0
    end.
Proof.
  intros Hst HF. induction HF as [|t l H _ IH]; intros n x; subst n.
  - destruct x; simpl; try case_bool_decide; reflexivity.
  - simpl. rewrite !held_cons, IH. unfold settle_test. destruct (f t) eqn:F; [|lia].
    rewrite settled_total_cons. unfold of_day. simpl. rewrite (H eq_refl).
    destruct (Test.usage_date t =? d); simpl;
    destruct x, st; try done; repeat case_bool_decide; try done; lia.
Qed.

(** ** The invariant *)

Record budget_ok (s : db) : Prop := {
  bo_segments : Forall (fun t => 1 <= Test.segments t) (tests s);
  bo_unique : forall c, (length (List.filter (reserved_for c) (tests s)) <= 1)%nat;
  bo_day : Forall (fun t => is_Some (usage s !! Test.usage_date t)) (tests s);
  bo_ledger : forall d u, usage s !! d = Some u ->
    Usage.in_flight_segments u = held TestStatus.reserved d (tests s) /\
    Usage.confirmed_segments u = held TestStatus.confirmed d (tests s) /\
    Usage.uncertain_segments u = held TestStatus.uncertain d (tests s) /\
    usage_total u <= LIVE_TEST_DAILY_SEGMENT_LIMIT }.

Definition keeps_budget (s s' : db) : Prop := budget_ok s -> budget_ok s'.

#[export] Instance keeps_budget_preorder : PreOrder keeps_budget.
Proof. split; unfold keeps_budget; [by intros s|]. intros s1 s2 s3. auto. Qed.

Lemma keeps_same s s' : tests s' = tests s -> usage s' = usage s -> keeps_budget s s'.
Proof. intros Et Eu []. by split; rewrite ?Et, ?Eu. Qed.

Lemma filter_settled c f st l : st <> TestStatus.reserved ->
  (length (List.filter (reserved_for c) (map (settle_test f st) l)) <=
   length (List.filter (reserved_for c) l))%nat.
Proof.
  intros Hst. induction l as [|t l IH]; simpl; [done|].
  assert (E : reserved_for c (settle_test f st t) = true -> reserved_for c t = true).
  { unfold settle_test. destruct (f t); [|done]. unfold reserved_for. simpl.
    rewrite (bool_decide_false (st = _)) by done. by rewrite andb_false_r. }
  destruct (reserved_for c (settle_test f st t)), (reserved_for c t); simpl; try lia.
Qed.

(** Settling keeps the ledger when the daily rows take the settled segments. *)
Lemma budget_settled s s' f st : st <> TestStatus.reserved ->
  (forall t, f t = true -> Test.status t = TestStatus.reserved) ->
  tests s' = map (settle_test f st) (tests s) ->
  (forall d, usage s' !! d = settle_usage st (settled_total (List.filter f (tests s)) d) <$> usage s !! d) ->
  keeps_budget s s'.
Proof.
  intros Hst Hf Et Eu I. assert (W : forall t, Test.segments (settle_test f st t) = Test.segments t /\
    Test.usage_date (settle_test f st t) = Test.usage_date t).
  { intros t. unfold settle_test. by destruct (f t). }
  split; rewrite Et.
  - apply Forall_map, (Forall_impl _ _ _ (bo_segments _ I)). intros t. by destruct (W t) as [-> _].
  - intros c. pose proof (filter_settled c f st (tests s) Hst). pose proof (bo_unique _ I c). lia.
  - apply Forall_map, (Forall_impl _ _ _ (bo_day _ I)). intros t. simpl. destruct (W t) as [_ ->].
    rewrite Eu. by intros [u ->].
  - intros d u'. rewrite Eu. intros (u & Hu & ->)%fmap_Some.
    destruct (bo_ledger _ I d u Hu) as (L1 & L2 & L3 & L4).
    rewrite !(held_settled f st d) by (try done; apply Forall_true; auto).
    set (n := settled_total _ d).
    assert (0 <= n).
    { apply sumZ_nonneg, Forall_fmap, Forall_forall. intros t [[Ht _]%filter_in _]%filter_in.
      simpl. pose proof (proj1 (Forall_forall _ _) (bo_segments _ I) t Ht). simpl in *. lia. }
    unfold usage_total in *. destruct st; simpl in *; [done|..]; repeat split; lia.
Qed.


(** ** Statements *)

Lemma settle_days_one st l u d : (length l <= 1)%nat ->
  settle_days st l [] u !! d = settle_usage st (settled_total l d) <$> u !! d.
Proof.
  assert (Z0 : forall x : option Usage.t, settle_usage st 0 <$> x = x).
  { intros [[]|]; [|done]. unfold settle_usage. simpl. do 2 f_equal; destruct st; lia. }
  destruct l as [|t [|t' l]]; simpl; [by rewrite Z0| |lia].
  intros _. rewrite settled_total_cons.
  destruct (Test.usage_date t =? d) eqn:E; bool_prop.
  - subst d. rewrite lookup_alter_eq. unfold settled_total. simpl. by rewrite Z.add_0_r.
  - rewrite lookup_alter_ne by done. symmetry. apply Z0.
Qed.

Lemma budget_settle i st : st <> TestStatus.reserved ->
  within keeps_budget (settle_live_test_attempt i st).
Proof.
  intros Hst s x s' [= _ <-] B. apply (budget_settled s _ (reserved_for i) st); [done| |done| |done].
  - intros t H. unfold reserved_for in H. by bool_prop.
  - intros d. simpl. by apply settle_days_one, (bo_unique _ B).
Qed.

(** The row of the day is created empty: no attempt names the day yet. *)
Lemma budget_open d s : keeps_budget s (set_usage (fun m => match m !! d with
  | Some _ => m | None => <[d := Usage.mk 0 0 0]> m end) s).
Proof.
  intros I. destruct (usage s !! d) as [u|] eqn:E; [by destruct I; split; simpl; rewrite ?E|].
  assert (N : forall st, held st d (tests s) = 0).
  { intros st. unfold held. replace (List.filter _ _) with (@nil Test.t); [done|]. symmetry.
    apply filter_nil_iff, (Forall_impl _ _ _ (bo_day _ I)). intros t [u Hu].
    unfold of_day. destruct (Test.usage_date t =? d) eqn:T; [|done]. bool_prop. congruence. }
  split; simpl; rewrite ?E; try apply I.
  - apply (Forall_impl _ _ _ (bo_day _ I)). intros t Ht. apply lookup_insert_is_Some'. by right.
  - intros d' u [[<- <-]|[_ Hu]]%lookup_insert_Some; [|by apply I]. by rewrite !N.
Qed.

Lemma budget_append d c k n s : 1 <= n -> List.existsb (reserved_for c) (tests s) = false ->
  (forall u, usage s !! d = Some u -> usage_total u + n <= LIVE_TEST_DAILY_SEGMENT_LIMIT) ->
  is_Some (usage s !! d) ->
  keeps_budget s (set_usage (alter (fun u => Usage.set_in_flight_segments
                                     (Usage.in_flight_segments u + n) u) d)
    (set_tests (fun l => l ++ [Test.mk d c k n TestStatus.reserved]) s)).
Proof.
  intros Hn Hu Ht Hd I. split; simpl.
  - apply Forall_app. split; [apply I|]. by constructor.
  - intros c'. rewrite List.filter_app, length_app. simpl. pose proof (bo_unique _ I c').
    destruct (reserved_for c' _) eqn:R; simpl; [|lia].
    unfold reserved_for in R. simpl in R. bool_prop. subst c'.
    replace (List.filter (reserved_for c) (tests s)) with (@nil Test.t); [simpl; lia|].
    symmetry. apply filter_nil_iff, Forall_forall. intros t Hin.
    destruct (reserved_for c t) eqn:F; [|done]. rewrite <-Hu. symmetry.
    apply List.existsb_exists. exists t. by rewrite <-list_elem_of_In.
  - apply Forall_app. split; [apply (Forall_impl _ _ _ (bo_day _ I))|constructor; [|done]];
      simpl; intros; by rewrite lookup_alter_is_Some.
  - intros d' u'. rewrite !held_app, !held_cons, !held_nil. unfold of_day. simpl.
    destruct (decide (d = d')) as [<-|N].
    + rewrite lookup_alter_eq, Z.eqb_refl. intros (u & Hu' & ->)%fmap_Some.
      destruct (bo_ledger _ I d u Hu') as (L1 & L2 & L3 & L4). specialize (Ht u Hu').
      unfold usage_total in *. simpl in *. repeat split; lia.
    + rewrite lookup_alter_ne by done. rewrite (proj2 (Z.eqb_neq d d') N). intros Hu'.
      destruct (bo_ledger _ I d' u' Hu') as (L1 & L2 & L3 & L4). simpl. repeat split; lia.
Qed.

Lemma budget_reserve now i n k : within keeps_budget (_reserve_submission_budget now i n k).
Proof.
  unfold _reserve_submission_budget. intros s x s' H I.
  apply stex_bind_ok in H as (? & ? & [Hn ->]%Outbox.lift_ok & H). apply refuse_ok in Hn. bool_prop.
  destruct (live_test_usage_window now) as [ud ra].
  apply stex_bind_ok in H as (? & s1 & HO & H). injection HO as _ <-.
  apply (budget_open ud) in I. set (t := set_usage _ s) in *.
  assert (Hd : is_Some (usage t !! ud)).
  { subst t. simpl. destruct (usage s !! ud) eqn:E; rewrite ?E; [by eexists|].
    rewrite lookup_insert_eq. by eexists. }
  apply stex_bind_ok in H as (? & ? & [= <- <-] & H). cbv zeta in H.
  destruct (_ <? _) eqn:L in H; [by injection H as _ <-|]. bool_prop.
  apply stex_bind_ok in H as (? & ? & [_ ->]%Outbox.lift_ok & H).
  apply stex_bind_ok in H as (? & ? & [Hr ->]%Outbox.lift_ok & H). apply refuse_ok in Hr.
  injection H as _ <-. apply (budget_append ud i k n t); try done.
  intros u Hu. by rewrite Hu in L.
Qed.

#[local] Hint Extern 1 (within keeps_budget (modify _)) =>
  (apply within_modify; intros ?; apply keeps_same; reflexivity) : within.
#[local] Hint Extern 1 (within keeps_budget (settle_live_test_attempt _ _)) =>
  (apply budget_settle; discriminate) : within.
#[local] Hint Resolve budget_reserve : within.

Lemma budget_in_outbox {A} (m : stex Outbox.db exc A) : within keeps_budget (in_outbox m).
Proof.
  intros s x s'. unfold in_outbox. destruct (m (outbox s)) as [[y o]|]; [|done].
  intros [= <- <-]. by apply keeps_same.
Qed.

Lemma budget_update_chunk i g f : within keeps_budget (update_chunk i g f).
Proof. unfold update_chunk. within_tac. Qed.

Lemma budget_update_batch i f : within keeps_budget (update_batch i f).
Proof. unfold update_batch. within_tac. Qed.

Lemma budget_settle_attempt i f : within keeps_budget (settle_attempt i f).
Proof. unfold settle_attempt. within_tac. Qed.

Lemma budget_insert_attempt a : within keeps_budget (insert_attempt a).
Proof. unfold insert_attempt. within_tac. Qed.

Lemma budget_set_unreported i l st : within keeps_budget (set_unreported i l st).
Proof. unfold set_unreported. within_tac. Qed.
#[local] Hint Resolve budget_in_outbox budget_update_chunk budget_update_batch
  budget_settle_attempt budget_insert_attempt budget_set_unreported : within.

Lemma budget_failed_messages now i b : within keeps_budget (_finalize_failed_messages now i b).
Proof. unfold _finalize_failed_messages. within_tac. Qed.
#[local] Hint Resolve budget_failed_messages : within.

(** ** Transactions *)

Lemma budget_update_and_settle i g f st : st <> TestStatus.reserved ->
  within keeps_budget (update_and_settle i g f st).
Proof. intros Hst. pose proof (budget_settle i st Hst). unfold update_and_settle. within_tac. Qed.
#[local] Hint Extern 1 (within keeps_budget (update_and_settle _ _ _ _)) =>
  (apply budget_update_and_settle; discriminate) : within.

Lemma budget_fail_chunk now i g f : within keeps_budget (fail_chunk now i g f).
Proof. unfold fail_chunk. within_tac. Qed.

Lemma budget_need {A} r (m : tx_ (option A)) :
  within keeps_budget m -> within keeps_budget (need r m).
Proof. intros H. unfold need. within_tac. Qed.

Lemma budget_complete now i o safe code :
  within keeps_budget (complete_vendor_attempt now i o safe code).
Proof. apply budget_settle_attempt. Qed.
#[local] Hint Resolve budget_fail_chunk budget_need budget_complete : within.

Lemma budget_mark_submitting now c r : within keeps_budget (mark_submitting now c r).
Proof. unfold mark_submitting, touch_batch. within_tac. Qed.
#[local] Hint Resolve budget_mark_submitting : within.

Lemma budget_claim_submission now c r n e v d :
  within keeps_budget (claim_submission now c r n e v d).
Proof. unfold claim_submission, touch_batch. within_tac. Qed.

Lemma budget_begin now c v ad r : within keeps_budget (begin_vendor_invoke now c v ad r).
Proof. unfold begin_vendor_invoke. within_tac. Qed.

Lemma budget_record now c v g o safe code :
  within keeps_budget (record_vendor_attempt now c v g o safe code).
Proof. unfold record_vendor_attempt. within_tac. Qed.

Lemma budget_reject reg amb now i ctx aid g r code safe why :
  within keeps_budget (_apply_reject_or_fail reg amb now i ctx aid g r code safe why).
Proof. unfold _apply_reject_or_fail. within_tac. Qed.
#[local] Hint Resolve budget_reject : within.

Lemma budget_finalize_chunk reg ps amb now i aid g ctx a r safe ex :
  within keeps_budget (finalize_chunk reg ps amb now i aid g ctx a r safe ex).
Proof. unfold finalize_chunk. within_tac. Qed.
#[local] Hint Resolve budget_finalize_chunk : within.

Lemma budget_finalize reg ps amb now aid i g a :
  within keeps_budget (finalize_body reg ps amb now aid i g a).
Proof. unfold finalize_body. within_tac. Qed.

Lemma budget_authorize now c a ch : within keeps_budget (authorize_next now c a ch).
Proof. unfold authorize_next. within_tac. Qed.
#[local] Hint Resolve budget_authorize : within.

Lemma budget_claim reg now c d a : within keeps_budget (claim_body reg now c d a).
Proof. unfold claim_body. within_tac. Qed.

Lemma budget_create_child b n p o sg cu gr : within keeps_budget (create_child b n p o sg cu gr).
Proof. unfold create_child, insert_child, move_messages. within_tac. Qed.

Lemma budget_split_settle now i : within keeps_budget (_settle_split_vendor_attempt now i).
Proof. unfold _settle_split_vendor_attempt. within_tac. Qed.

#[local] Hint Resolve budget_create_child budget_split_settle : within.

Lemma budget_split_blocked now i : within keeps_budget (_mark_split_capacity_blocked now i).
Proof. unfold _mark_split_capacity_blocked. within_tac. Qed.
#[local] Hint Resolve budget_split_blocked : within.

Lemma budget_create_children amb now i b cu :
  within keeps_budget (_create_split_children amb now i b cu).
Proof. unfold _create_split_children. within_tac. Qed.
#[local] Hint Resolve budget_create_children : within.

Lemma budget_split amb now i b cu ex : within keeps_budget (complete_vendor_split amb now i b cu ex).
Proof. unfold complete_vendor_split. within_tac. Qed.
#[local] Hint Resolve budget_split : within.

Lemma budget_retry_splits amb now ex ids n : within keeps_budget (retry_splits amb now ex ids n).
Proof. revert n. induction ids; intros n; simpl; within_tac. Qed.

Lemma budget_repair_one reg amb now i aid : within keeps_budget (repair_one reg amb now i aid).
Proof. unfold repair_one. within_tac. Qed.
#[local] Hint Resolve budget_repair_one : within.

Lemma budget_repair_each reg amb now ids n : within keeps_budget (repair_each reg amb now ids n).
Proof. revert n. induction ids as [|[]]; intros n; simpl; within_tac. Qed.

Lemma budget_recover now : within keeps_budget (recover_stalled now).
Proof.
  intros s x s' [= _ <-]. apply (budget_settled s _ (stale_test now s (recovery_candidates s))
    TestStatus.uncertain); [done| |done|].
  - intros t H. unfold stale_test in H. by bool_prop.
  - intros d. simpl. rewrite map_lookup_imap. by destruct (usage s !! d).
Qed.

(** ** Reachable states *)

Section Steps.
Context (registry : list Routing.VendorRecord) (pseudonym : text -> text) (ambient : option Z).

(** One committed transaction: each of those that reserve or settle, or any
    transaction that leaves the two tables of the budget alone. *)
Inductive step (s : db) : db -> Prop :=
| step_claim_submission now c r n e v d :
    step s (snd (transaction (claim_submission now c r n e v d) s))
| step_release_unsent now c : step s (snd (transaction (release_unsent now c) s))
| step_release_control now c : step s (snd (transaction (release_control_claim now c) s))
| step_mark_failed now c code m : step s (snd (transaction (mark_failed now c code m) s))
| step_mark_submitted now c t : step s (snd (transaction (mark_submitted now c t) s))
| step_mark_uncertain now c : step s (snd (transaction (mark_uncertain now c) s))
| step_schedule_retry now c code n d :
    step s (snd (transaction (schedule_retry now c code n d) s))
| step_delay now c code d : step s (snd (transaction (delay now c code d) s))
| step_balance_blocked now b c : step s (snd (transaction (balance_blocked now b c) s))
| step_pause_blocked now c code : step s (snd (transaction (pause_blocked now c code) s))
| step_finalize now i c g a :
    step s (snd (finalize_vendor_attempt registry pseudonym ambient now i c g a s))
| step_claim now c d a : step s (snd (claim_next_vendor_invoke registry now c d a s))
| step_split now c b cu ex :
    step s (snd (transaction (complete_vendor_split ambient now c b cu ex) s))
| step_retry_splits now n ex :
    step s (snd (transaction (retry_capacity_blocked_splits ambient now n ex) s))
| step_repair now n :
    step s (snd (transaction (repair_legacy_safe_reject_submitting registry ambient now n) s))
| step_recover now : step s (snd (transaction (recover_stalled now) s))
| step_other s' : tests s' = tests s -> usage s' = usage s -> step s s'.

Definition initial (s : db) : Prop := tests s = [] /\ usage s = ∅.
Definition reachable (s : db) : Prop := exists s0, initial s0 /\ rtc step s0 s.

Lemma step_keeps s s' : step s s' -> keeps_budget s s'.
Proof.
  destruct 1; try apply (within_transaction keeps_budget); try (by apply keeps_same).
  - apply budget_claim_submission.
  - unfold release_unsent. within_tac.
  - unfold release_control_claim. within_tac.
  - unfold mark_failed. within_tac.
  - unfold mark_submitted. within_tac.
  - unfold mark_uncertain. within_tac.
  - unfold schedule_retry. within_tac.
  - unfold delay. within_tac.
  - unfold balance_blocked. within_tac.
  - unfold pause_blocked. within_tac.
  - unfold finalize_vendor_attempt. case_match; [done|].
    pose proof (within_transaction _ _ s (budget_finalize registry pseudonym ambient now i c g a)) as M.
    destruct (transaction _ s) as [[r|[r|e]] t]; exact M.
  - unfold claim_next_vendor_invoke. destruct (Routing.validate_vendor_id _); [|done].
    pose proof (within_transaction _ _ s (budget_claim registry now c d a)) as M.
    destruct (transaction _ s) as [[r|e] t]; exact M.
  - apply budget_split.
  - unfold retry_capacity_blocked_splits. pose proof budget_retry_splits. within_tac.
  - unfold repair_legacy_safe_reject_submitting. pose proof budget_repair_each. within_tac.
  - apply budget_recover.
Qed.

Lemma reachable_budget_ok s : reachable s -> budget_ok s.
Proof.
  intros (s0 & [Et Eu] & Hr). assert (budget_ok s0).
  { split; rewrite ?Et, ?Eu; [constructor|simpl; lia|constructor|]. intros d u.
    by rewrite lookup_empty. }
  revert H. apply (rtc_invariant step budget_ok) with (2 := Hr). intros t t' I St.
  by apply step_keeps in St; apply St.
Qed.

End Steps.

(** ** The property *)

(** A reservation of sixty segments, settled as uncertain, then a refused one. *)
Definition example_reserved : db :=
  snd (transaction (claim_submission 0 7 0 60 true false (fun _ => 0))
         (set_chunks (fmap (Chunk.set_status ChunkStatus.pending)) SendSafety.example_db)).

(** C18: the daily live-test budget is an exact ledger and is never exceeded.
    In every reachable state the row of a day holds in flight, confirmed and
    uncertain exactly the segments of the day's attempts in that status, none
    is negative, a chunk has at most one reservation, and the segments of all
    attempts that were not released are at most one hundred. *)
Theorem live_test_budget registry pseudonym ambient s d u :
  reachable registry pseudonym ambient s -> usage s !! d = Some u ->
  Usage.in_flight_segments u = held TestStatus.reserved d (tests s) /\
  Usage.confirmed_segments u = held TestStatus.confirmed d (tests s) /\
  Usage.uncertain_segments u = held TestStatus.uncertain d (tests s) /\
  0 <= Usage.in_flight_segments u /\ 0 <= Usage.confirmed_segments u /\
  0 <= Usage.uncertain_segments u /\
  (forall c, (length (List.filter (reserved_for c) (tests s)) <= 1)%nat) /\
  held TestStatus.reserved d (tests s) + held TestStatus.confirmed d (tests s)
    + held TestStatus.uncertain d (tests s) <= LIVE_TEST_DAILY_SEGMENT_LIMIT.
Proof.
  intros I%reachable_budget_ok Hu. destruct (bo_ledger _ I d u Hu) as (L1 & L2 & L3 & L4).
  unfold usage_total in L4. rewrite L1, L2, L3 in *.
  repeat split; auto using held_nonneg, bo_segments. apply (bo_unique _ I).
Qed.

Lemma live_test_budget_witness :
  held TestStatus.reserved 0 (tests example_reserved) = 60 /\
  held TestStatus.reserved 0 (tests example_reserved)
    + held TestStatus.confirmed 0 (tests example_reserved)
    + held TestStatus.uncertain 0 (tests example_reserved) <= LIVE_TEST_DAILY_SEGMENT_LIMIT.
Proof.
  split; [vm_compute; reflexivity|].
  apply (live_test_budget [] id None example_reserved 0 (Usage.mk 60 0 0)).
  - eexists. split; [|apply rtc_once, step_claim_submission]. split; reflexivity.
  - vm_compute. reflexivity.
Defined.

End SendBudget.
