(* ===== verification/SendWorker.v ===== *)
(** * The send worker ([tasks/send.py])

    [SendWorker.submit] drives one chunk: route, preflight, token, claim, vendor
    call, finalize.  The worker is a program over the calls it makes to the
    store, the token bucket, the guards and the vendor gateway; each may return
    or raise.  Whatever they answer, the vendor is called only under a fresh
    authorization and never again after a call whose outcome is unknown. *)

From S2P Require Import Prelude PyText Billing Category VendorCodes Routing Failover.
From S2P Require Import OutboxContract Outbox Effects SendState SendStore.

Module SendWorker.
Import SendStore.

(** ** Data *)

Inductive lane := realtime | bulk.

(** The exception classes the worker tells apart; [VendorError] is a
    [RuntimeError], a cancellation is not an [Exception]. *)
Inductive exn :=
| VendorTransportError | VendorProtocolError | VendorApiError (code : Z)
| RuntimeError | ValueError | CancelledError | OtherError.

Definition is_exception (e : exn) : bool :=
  match e with CancelledError => false | _ => true end.
Definition is_runtime_error (e : exn) : bool :=
  match e with
  | VendorTransportError | VendorProtocolError | VendorApiError _ | RuntimeError => true
  | _ => false
  end.

Inductive SubmitOutcome :=
| SUBMITTED | RETRY_SCHEDULED | DELAYED | PAUSED | REJECTED | STALE_ | FAILED_ | UNCERTAIN
| SPLIT | NO_OP_ALREADY_TERMINAL.

#[export] Instance SubmitOutcome_eq_dec : EqDecision SubmitOutcome.
Proof. solve_decision. Defined.
#[export] Instance exn_eq_dec : EqDecision exn.
Proof. solve_decision. Defined.
#[export] Instance lane_eq_dec : EqDecision lane.
Proof. solve_decision. Defined.

Record ChunkPayload := mkPayload {
  cp_chunk_id : Z;
  cp_batch_id : Z;
  cp_custom_id : text;
  cp_phones : list text;
  cp_content : text;
  cp_template_id : text;
  cp_sign_name : text;
  cp_retry_count : Z;
  cp_denied_recipient_count : Z;
  cp_selected_vendor : text;
  cp_route_generation : Z;
  cp_category : text;
  cp_status : ChunkStatus.t;
  cp_next_vendor : option text;
  cp_route_policy_version : Z;
  cp_failover_from_attempt_id : option Z;
  cp_is_test : bool
}.

(** [services/dispatch_blacklist.py] *)
Inductive DispatchAction := SEND | EMPTY | FROZEN | DA_STALE.
Record DispatchDecision := mkDispatch {
  eligible_phones : list text;
  excluded_count : Z;
  dd_generation : option Z;
  dd_action : DispatchAction
}.

#[export] Instance DispatchAction_eq_dec : EqDecision DispatchAction.
Proof. solve_decision. Defined.

(** ** Pure decisions on reports *)

(** [SubmitOutcome(report.result)], or [None] where it raises. *)
Definition outcome_of_result (o : Outcome.t) : option SubmitOutcome :=
  match o with
  | Outcome.submitted => Some SUBMITTED
  | Outcome.retry_scheduled => Some RETRY_SCHEDULED
  | Outcome.delayed => Some DELAYED
  | Outcome.paused => Some PAUSED
  | Outcome.rejected => Some REJECTED
  | Outcome.stale => Some STALE_
  | Outcome.failed => Some FAILED_
  | Outcome.uncertain => Some UNCERTAIN
  | _ => None
  end.

Definition submit_outcome_from_finalize (report : FinalizeReport) (requested : SubmitOutcome)
    : SubmitOutcome :=
  match fr_kind report with
  | APPLIED | ALREADY_FINALIZED_SAME_RESULT => default UNCERTAIN (outcome_of_result (fr_result report))
  | RECOVERY_MARKED_UNCERTAIN => UNCERTAIN
  | _ => match requested with RETRY_SCHEDULED => STALE_ | _ => UNCERTAIN end
  end.

Definition followup_allowed (report : FinalizeReport) : bool :=
  match fr_kind report with
  | APPLIED => true
  | ALREADY_FINALIZED_SAME_RESULT =>
      match fr_next_action report with
      | Some (Failover.FAILOVER_PENDING | Failover.RETRYING | Failover.BALANCE_BLOCKED
              | Failover.FAILED) | None => true
      end
  | _ => false
  end.

(** ** The calls of the worker *)

Inductive control_state := Fresh | Unavailable (requires_critical_pause : bool).

(** Each call as the worker makes it.  Completing an attempt also names the
    chunk it belongs to, which the store reads from the attempt. *)
Inductive call :=
| IsPaused (l : lane)
| Health
| ListVendorAttempts (chunk_id : Z)
| Acquire (l : lane) (vendor_id : text)
| Refund (lease_epoch : Z) (vendor_id : text)
| Sleep
| RefreshInvokePayload (chunk_id : Z)
| RequireAllowed (phones : list text)
| RejectDisallowedRecipient (chunk_id denied_count : Z)
| RequireFresh
| PauseControlAgentStale
| MarketWindow
| Clock
| SetMarketDefer (t : option Z)
| EligibleDispatchPhones (chunk : ChunkPayload)
| BlacklistGeneration
| ClaimSubmission (chunk_id retry_index segments : Z) (enforce_live_test_budget : bool)
| DeferDailyLimit (chunk_id : Z) (l : lane) (reset_at : Z)
| PauseDailyLimit (l : lane) (reset_at : Z)
| BeginVendorInvoke (chunk_id : Z) (vendor_id adapter_id reason : text)
| ClaimNextVendorInvoke (chunk_id generation previous : Z) (next_vendor : text)
    (policy_version segments : Z) (enforce_live_test_budget : bool)
| FinalizeVendorAttempt (attempt_id chunk_id generation : Z) (a : finalize_args)
| LoadAuthoritativeNextAction (chunk_id attempt_id generation : Z)
| ScheduleRetry (chunk_id code retry_index delay_s : Z)
| Delay (chunk_id code delay_s : Z)
| BalanceBlocked (batch_id chunk_id : Z)
| PauseBlocked (chunk_id code : Z)
| PauseQueues (code : Z)
| MarkFailed (chunk_id code : Z)
| MarkUncertain (chunk_id : Z)
| MarkSubmitted (chunk_id : Z) (task_id : text)
| CompleteVendorAttempt (chunk_id attempt_id : Z) (o : Outcome.t) (safe : bool) (code : option Z)
| RecordVendorAttempt (chunk_id : Z) (vendor_id : text) (generation : Z) (o : Outcome.t)
    (safe : bool) (code : option Z)
| ReleaseControlClaim (chunk_id : Z)
| SplitOnce (chunk : ChunkPayload)
| Send (vendor_id : text) (phones : list text) (chunk : ChunkPayload)
| RecordFailure (code chunk_id batch_id : Z)
| RecordSuccess.

Definition answer (e : call) : Type :=
  match e with
  | IsPaused _ => bool
  | Health => list Routing.VendorHealth
  | ListVendorAttempts _ => list Routing.VendorAttempt
  | Acquire _ _ => option Z
  | RefreshInvokePayload _ => ChunkPayload
  | RequireAllowed _ => option Z
  | RequireFresh => control_state
  | MarketWindow => text
  | Clock => Z
  | EligibleDispatchPhones _ => DispatchDecision
  | BlacklistGeneration => Z
  | ClaimSubmission _ _ _ _ => SubmissionClaim
  | BeginVendorInvoke _ _ _ _ => Z * Z
  | ClaimNextVendorInvoke _ _ _ _ _ _ _ => Failover.InvokeClaim
  | FinalizeVendorAttempt _ _ _ _ => FinalizeReport
  | LoadAuthoritativeNextAction _ _ _ => option FinalizeReport
  | ScheduleRetry _ _ _ _ => bool
  | SplitOnce _ => list ChunkPayload
  | Send _ _ _ => text
  | _ => unit
  end.

Abbreviation worker := (prog answer exn).

(** ** The worker *)

(** The constructor's arguments that decide branches; [rounds] bounds the token
    wait, after which the task is cancelled. *)
Record SendWorker := mkWorker {
  gateways : list text;
  registry : list Routing.VendorRecord;
  router : list text;
  has_health : bool;
  has_recipient_guard : bool;
  has_control_guard : bool;
  has_market_window : bool;
  enforce_live_test_budget : bool;
  enforce_live_test_recipients : bool;
  rounds : nat
}.

Section Worker.
Context (self : SendWorker).

Definition of_exc {A} (r : result exc A) : worker A :=
  match r with Ok a => mret a | Raise _ => raise ValueError end.

Definition _record_failure (chunk : ChunkPayload) (code : Z) : worker unit :=
  catch (perform (RecordFailure code (cp_chunk_id chunk) (cp_batch_id chunk)))
    (fun e => if is_exception e then mret tt else raise e).

Definition _record_success : worker unit :=
  catch (perform RecordSuccess) (fun e => if is_exception e then mret tt else raise e).

Fixpoint _token (n : nat) (l : lane) (vendor_id : text) : worker (option Z) :=
  match n with
  | O => raise CancelledError
  | S n =>
      lease ← perform (Acquire l vendor_id);
      match lease with
      | Some epoch => mret (Some epoch)
      | None =>
          paused ← perform (IsPaused l);
          if paused : bool then mret None else
          _ ← perform Sleep;
          _token n l vendor_id
      end
  end.

Definition _refund_token (epoch : Z) (vendor_id : text) : worker unit :=
  catch (perform (Refund epoch vendor_id)) (fun e => if is_exception e then mret tt else raise e).

Definition refund_lease (lease : option Z) (vendor_id : text) : worker unit :=
  match lease with Some epoch => _refund_token epoch vendor_id | None => mret tt end.

(** [_gateway_for]: whether it finds a gateway. *)
Definition _gateway_for (vendor_id : text) : bool :=
  tmem vendor_id (gateways self) || teqb vendor_id Routing.PRIMARY_VENDOR_ID.

Definition pause_primary (h : Routing.VendorHealth) : Routing.VendorHealth :=
  let primary := teqb (Routing.vh_vendor_id h) Routing.PRIMARY_VENDOR_ID in
  Routing.mkHealth (Routing.vh_vendor_id h) (Routing.available h && negb primary)
    (if primary then Some (tx "platform_paused") else Routing.pause_reason h).

Definition _health_snapshot (platform_paused : bool) : worker (list Routing.VendorHealth) :=
  snapshot ← (if has_health self then perform Health
              else mret ((fun v => Routing.mkHealth v true None) <$> router self));
  mret (if platform_paused then pause_primary <$> snapshot else snapshot).

(** [guard_chunk] ([services/dispatch_blacklist.py]) *)
Definition guard_chunk (chunk : ChunkPayload) (persist_rejection : bool) : worker bool :=
  if enforce_live_test_recipients self && negb (cp_denied_recipient_count chunk =? 0) then
    _ ← (if persist_rejection
         then perform (RejectDisallowedRecipient (cp_chunk_id chunk)
                         (cp_denied_recipient_count chunk)) else mret tt);
    mret false
  else if negb (has_recipient_guard self) then mret true else
  denied ← perform (RequireAllowed (cp_phones chunk));
  match denied with
  | None => mret true
  | Some n =>
      _ ← (if persist_rejection
           then perform (RejectDisallowedRecipient (cp_chunk_id chunk) n) else mret tt);
      mret false
  end.

Definition _control_ready : worker bool :=
  if negb (has_control_guard self) then mret true else
  state ← perform RequireFresh;
  match state with
  | Fresh => mret true
  | Unavailable critical =>
      _ ← (if critical : bool then perform PauseControlAgentStale else mret tt);
      mret false
  end.

Definition _preflight_before_invoke (chunk : ChunkPayload) (l : lane) (vendor_id : text)
    (authorized : bool) : worker (option SubmitOutcome) :=
  paused ← perform (IsPaused l);
  if paused : bool then mret (Some PAUSED) else
  if negb (_gateway_for vendor_id) then mret (Some PAUSED) else
  match List.find (fun r => teqb (Routing.vr_vendor_id r) vendor_id) (registry self) with
  | None => mret (Some PAUSED)
  | Some record =>
      if negb (Failover.vendor_matches_route record (cp_category chunk)
                 (Some (gateways self ++ [Routing.PRIMARY_VENDOR_ID])))
      then mret (Some PAUSED) else
      health ← _health_snapshot false;
      if negb (List.existsb (fun h => teqb (Routing.vh_vendor_id h) vendor_id
                                      && Routing.available h) health)
      then mret (Some PAUSED) else
      chunk ← (if enforce_live_test_recipients self
               then perform (RefreshInvokePayload (cp_chunk_id chunk)) else mret chunk);
      ok ← guard_chunk chunk (negb authorized);
      if negb ok then mret (Some REJECTED) else
      ready ← _control_ready;
      if negb ready then mret (Some PAUSED) else
      if teqb (cp_category chunk) (tx "market") && negb (cp_is_test chunk) then
        window ← (if has_market_window self then perform MarketWindow
                  else mret Category.DEFAULT_MARKET_WINDOW);
        now ← perform Clock;
        d ← of_exc (Category.coerce_market_dispatch now window None);
        let '(state, _, until) := d in
        _ ← perform (SetMarketDefer until);
        match state with
        | Category.queued => mret None
        | Category.scheduled => mret (Some PAUSED)
        end
      else mret None
  end.

(** [phones_for_invoke] ([services/dispatch_blacklist.py]): at most three
    rounds while the blacklist generation moves. *)
Fixpoint phones_rounds (n : nat) (chunk : ChunkPayload) (last : DispatchDecision)
    : worker DispatchDecision :=
  match n with
  | O => mret (mkDispatch [] (excluded_count last) (dd_generation last) DA_STALE)
  | S n =>
      d ← perform (EligibleDispatchPhones chunk);
      match dd_action d, dd_generation d with
      | SEND, Some g =>
          current ← perform BlacklistGeneration;
          if current =? g then mret d else phones_rounds n chunk d
      | _, _ => mret d
      end
  end.

Definition phones_for_invoke (chunk : ChunkPayload) : worker DispatchDecision :=
  phones_rounds 3 chunk (mkDispatch [] 0 None DA_STALE).

Definition sendable (d : DispatchDecision) : bool :=
  bool_decide (dd_action d = SEND) && negb (bool_decide (eligible_phones d = [])).

Definition quota_cost (chunk : ChunkPayload) (recipients : nat) : worker Z :=
  match Billing.calculate_quota_cost (cp_sign_name chunk ++ cp_content chunk)
          (Z.of_nat recipients) with
  | Ok n => mret n
  | Raise _ => raise ValueError
  end.

Definition _claim_after_token (chunk : ChunkPayload) (l : lane) (retry_index : Z)
    : worker SubmissionClaimStatus :=
  d ← phones_for_invoke chunk;
  if negb (sendable d) then mret STALE else
  segments ← quota_cost chunk (length (eligible_phones d));
  claim ← perform (ClaimSubmission (cp_chunk_id chunk) retry_index segments
                     (enforce_live_test_budget self));
  match sc_status claim with
  | DAILY_LIMIT =>
      match sc_reset_at claim with
      | None => raise RuntimeError
      | Some reset_at =>
          _ ← perform (DeferDailyLimit (cp_chunk_id chunk) l reset_at);
          _ ← perform (PauseDailyLimit l reset_at);
          mret DAILY_LIMIT
      end
  | st => mret st
  end.

(** What a finalize call passes besides its identity. *)
Definition finalize_with (result : Outcome.t) (task : option text) (code : option Z) (safe : bool)
    (delay expected : option Z) (balance : bool) (chunk : ChunkPayload) : finalize_args :=
  mkFinalize result task code safe delay expected (Some (cp_batch_id chunk)) balance.

Definition plain (result : Outcome.t) : ChunkPayload -> finalize_args :=
  finalize_with result None None false None None false.

(** [_finalize_invoke]: an exception of the store is settled by reading back
    what the database says. *)
Definition _finalize_invoke (chunk : ChunkPayload) (generation : Z) (attempt_id : option Z)
    (a : ChunkPayload -> finalize_args) : worker (option FinalizeReport) :=
  match attempt_id with
  | None => mret None
  | Some id =>
      catch (r ← perform (FinalizeVendorAttempt id (cp_chunk_id chunk) generation (a chunk));
             mret (Some r))
        (fun e => if is_exception e
                  then perform (LoadAuthoritativeNextAction (cp_chunk_id chunk) id generation)
                  else raise e)
  end.

Definition _persist_attempt (chunk : ChunkPayload) (vendor_id : text) (generation : Z)
    (o : Outcome.t) (attempt_id : option Z) (safe : bool) (code : option Z) : worker unit :=
  match attempt_id with
  | Some id => perform (CompleteVendorAttempt (cp_chunk_id chunk) id o safe code)
  | None => perform (RecordVendorAttempt (cp_chunk_id chunk) vendor_id generation o safe code)
  end.

Definition _apply_terminal_api_error (chunk : ChunkPayload) (code : Z) (persist_chunk : bool)
    : worker SubmitOutcome :=
  let policy := Codes.policy_for code in
  let persist (e : worker unit) : worker unit := if persist_chunk then e else mret tt in
  if Codes.balance_blocked policy then
    _ ← persist (perform (BalanceBlocked (cp_batch_id chunk) (cp_chunk_id chunk)));
    _ ← perform (PauseQueues code);
    _ ← _record_failure chunk code;
    mret PAUSED
  else
  match Codes.delay_s policy with
  | Some d => _ ← persist (perform (Delay (cp_chunk_id chunk) code d)); mret DELAYED
  | None =>
      if Codes.pause_queues policy then
        _ ← persist (perform (PauseBlocked (cp_chunk_id chunk) code));
        _ ← perform (PauseQueues code);
        _ ← _record_failure chunk code;
        mret PAUSED
      else
        _ ← persist (perform (MarkFailed (cp_chunk_id chunk) code));
        _ ← _record_failure chunk code;
        mret FAILED_
  end.

(** The result was not recorded: record the attempt and the chunk as uncertain. *)
Definition persist_uncertain (chunk : ChunkPayload) (vendor_id : text) (generation : Z)
    (attempt_id : option Z) : worker unit :=
  _ ← _persist_attempt chunk vendor_id generation Outcome.uncertain attempt_id false None;
  perform (MarkUncertain (cp_chunk_id chunk)).

Definition _abort_before_http (chunk : ChunkPayload) (vendor_id : text) (generation : Z)
    (attempt_id lease : option Z) (o : SubmitOutcome) : worker SubmitOutcome :=
  finally
    (report ← _finalize_invoke chunk generation attempt_id
                (plain (if bool_decide (o = REJECTED) then Outcome.rejected else Outcome.paused));
     match report with
     | Some r => mret (submit_outcome_from_finalize r o)
     | None =>
         match attempt_id with
         | Some _ => mret UNCERTAIN
         | None => _ ← perform (ReleaseControlClaim (cp_chunk_id chunk)); mret o
         end
     end)
    (refund_lease lease vendor_id).

Definition or_zero (x : option Z) (y : Z) : Z :=
  match x with Some 0 | None => y | Some n => n end.

Definition preflight_reason (o : SubmitOutcome) : text :=
  tx "preflight_" ++ match o with REJECTED => tx "rejected" | _ => tx "paused" end.

Definition is_authorized (c : Failover.InvokeClaim) : bool :=
  match Failover.kind c with Failover.AUTHORIZED => true | _ => false end.

(** The token goes back unless the claim authorized the call. *)
Definition refund_unless_authorized (epoch : Z) (vendor_id : text)
    (r : result exn Failover.InvokeClaim) : worker Failover.InvokeClaim :=
  let authorized := match r with Ok c => is_authorized c | Raise _ => false end in
  finally (of_result r) (if authorized then mret tt else _refund_token epoch vendor_id).

Definition defer_at_limit (chunk : ChunkPayload) (l : lane) (claim : Failover.InvokeClaim)
    : worker unit :=
  match Failover.reset_at claim with
  | Some reset_at =>
      if negb (is_authorized claim) && teqb (Failover.ic_reason claim) (tx "daily_limit") then
        _ ← perform (DeferDailyLimit (cp_chunk_id chunk) l reset_at);
        perform (PauseDailyLimit l reset_at)
      else mret tt
  | None => mret tt
  end.

Definition _claim_persisted_failover (chunk : ChunkPayload) (l : lane) (report : FinalizeReport)
    : worker (Failover.InvokeClaim * option Z) :=
  let denied reason := Failover.mkClaim Failover.DENIED None reason None in
  match fr_next_vendor report, fr_previous_attempt_id report with
  | Some vendor_id, Some previous =>
      preflight ← _preflight_before_invoke chunk l vendor_id false;
      match preflight with
      | Some o => mret (denied (preflight_reason o), None)
      | None =>
          lease ← _token (rounds self) l vendor_id;
          match lease with
          | None => mret (denied (tx "token_unavailable"), None)
          | Some epoch =>
              claim ← attempt
                (preflight ← _preflight_before_invoke chunk l vendor_id false;
                 match preflight with
                 | Some o => mret (denied (preflight_reason o))
                 | None =>
                     segments ← quota_cost chunk (length (cp_phones chunk));
                     perform (ClaimNextVendorInvoke (cp_chunk_id chunk)
                       (or_zero (fr_route_generation report) (cp_route_generation chunk)) previous
                       vendor_id
                       (or_zero (fr_route_policy_version report) (cp_route_policy_version chunk))
                       segments (enforce_live_test_budget self))
                 end)
                (refund_unless_authorized epoch vendor_id);
              _ ← defer_at_limit chunk l claim;
              mret (claim, Some epoch)
          end
      end
  | _, _ => mret (denied (tx "missing_next_action"), None)
  end.

(** The reasons of a denied claim that pause the chunk. *)
Definition paused_reason (reason : text) : bool :=
  tmem reason [tx "token_unavailable"; tx "preflight_paused"; tx "recipient_denied";
               tx "daily_limit"].

(** ** Calling the vendor *)

Section Recursion.
(** [submit] of a child and the next authorized call. *)
Context (rec_submit : ChunkPayload -> lane -> bool -> worker SubmitOutcome).
Context (rec_invoke : ChunkPayload -> lane -> text -> Z -> option Z -> bool -> Z -> option Z ->
                      worker SubmitOutcome).

(** What follows a claim of the persisted next vendor. *)
Definition after_claim (chunk : ChunkPayload) (l : lane) (allow_split : bool) (retry_index : Z)
    (claim : Failover.InvokeClaim) (lease : option Z) : worker SubmitOutcome :=
  match Failover.kind claim with
  | Failover.DENIED =>
      if paused_reason (Failover.ic_reason claim) then mret PAUSED
      else if teqb (Failover.ic_reason claim) (tx "preflight_rejected") then mret REJECTED
      else mret UNCERTAIN
  | Failover.ALREADY_HANDLED => mret STALE_
  | Failover.AUTHORIZED =>
      match Failover.authorization claim with
      | None => mret UNCERTAIN
      | Some a => rec_invoke chunk l (Failover.ia_vendor_id a) (Failover.ia_generation a)
                    (Some (Failover.attempt_id a)) allow_split retry_index lease
      end
  end.

Fixpoint submit_children (l : lane) (children : list ChunkPayload) : worker unit :=
  match children with
  | [] => mret tt
  | c :: rest => _ ← rec_submit c l false; submit_children l rest
  end.

Definition _handle_terminal_api_error (chunk : ChunkPayload) (code : Z) (l : lane)
    (vendor_id : text) (generation : Z) (attempt_id : option Z) (allow_split : bool)
    (retry_index : Z) : worker SubmitOutcome :=
  let policy := Codes.policy_for code in
  let persist o safe := _persist_attempt chunk vendor_id generation o attempt_id safe (Some code) in
  let rejected (_ : unit) : worker SubmitOutcome :=
    let hold_like := match Failover.followup_for_policy policy (Some code) with
                     | Failover.fu_hold => true | _ => false end in
    let result := if hold_like then Outcome.paused else Outcome.rejected in
    report ← _finalize_invoke chunk generation attempt_id
               (finalize_with result None (Some code) (Codes.safe_to_failover policy) None None
                  (Codes.balance_blocked policy));
    match report with
    | None =>
        _ ← persist result (Codes.safe_to_failover policy);
        _apply_terminal_api_error chunk code true
    | Some report =>
        if negb (followup_allowed report)
        then mret (submit_outcome_from_finalize report (if hold_like then PAUSED else FAILED_)) else
        if hold_like || match fr_next_action report with
                        | Some (Failover.RETRYING | Failover.BALANCE_BLOCKED) => true
                        | _ => false
                        end
        then _ ← perform (PauseQueues code); _ ← _record_failure chunk code; mret PAUSED else
        match fr_next_action report with
        | Some Failover.FAILOVER_PENDING =>
            c ← _claim_persisted_failover chunk l report;
            after_claim chunk l allow_split retry_index (fst c) (snd c)
        | Some Failover.FAILED => _ ← _record_failure chunk code; mret FAILED_
        | _ => _apply_terminal_api_error chunk code false
        end
    end in
  match Codes.retry_delays_s policy !! Z.to_nat retry_index with
  | Some delay =>
      report ← _finalize_invoke chunk generation attempt_id
                 (finalize_with Outcome.retry_scheduled None (Some code) false (Some delay)
                    (Some retry_index) false);
      match report with
      | Some r => mret (submit_outcome_from_finalize r RETRY_SCHEDULED)
      | None =>
          ok ← perform (ScheduleRetry (cp_chunk_id chunk) code retry_index delay);
          if negb ok then mret STALE_ else
          _ ← persist Outcome.retry_scheduled false;
          mret RETRY_SCHEDULED
      end
  | None =>
      if Codes.shrink_batch_once policy && allow_split then
        children ← perform (SplitOnce chunk);
        match children with
        | [] => mret STALE_
        | _ => _ ← submit_children l children; mret SPLIT
        end
      else
      match Codes.delay_s policy with
      | Some d =>
          report ← _finalize_invoke chunk generation attempt_id
                     (finalize_with Outcome.delayed None (Some code) false (Some d) None false);
          match report with
          | Some r => mret (submit_outcome_from_finalize r DELAYED)
          | None =>
              _ ← perform (Delay (cp_chunk_id chunk) code d);
              _ ← persist Outcome.delayed false;
              mret DELAYED
          end
      | None => rejected tt
      end
  end.

(** The gateway is called once; everything else settles what happened. *)
Definition call_vendor (chunk : ChunkPayload) (l : lane) (vendor_id : text) (generation : Z)
    (attempt_id : option Z) (allow_split : bool) (retry_index : Z) (lease : option Z)
    : worker SubmitOutcome :=
  let failed (vendor_invoked : bool) (e : exn) : worker SubmitOutcome :=
    match e with
    | VendorTransportError | VendorProtocolError =>
        report ← _finalize_invoke chunk generation attempt_id (plain Outcome.uncertain);
        match report with
        | None => _ ← persist_uncertain chunk vendor_id generation attempt_id; mret UNCERTAIN
        | Some r => mret (submit_outcome_from_finalize r UNCERTAIN)
        end
    | VendorApiError code =>
        _handle_terminal_api_error chunk code l vendor_id generation attempt_id allow_split
          retry_index
    | _ =>
        _ ← (if vendor_invoked then
               report ← _finalize_invoke chunk generation attempt_id (plain Outcome.uncertain);
               match report with
               | None => persist_uncertain chunk vendor_id generation attempt_id
               | Some _ => mret tt
               end
             else mret tt);
        raise e
    end in
  let sent (task_id : text) : worker SubmitOutcome :=
    report ← _finalize_invoke chunk generation attempt_id
               (finalize_with Outcome.submitted (Some task_id) None false None None false);
    match report with
    | Some r =>
        let o := submit_outcome_from_finalize r SUBMITTED in
        _ ← (if bool_decide (o = SUBMITTED) then _record_success else mret tt);
        mret o
    | None =>
        marked ← catch (_ ← perform (MarkSubmitted (cp_chunk_id chunk) task_id); mret true)
                   (fun e => if is_exception e then mret false else raise e);
        if negb marked then
          _ ← persist_uncertain chunk vendor_id generation attempt_id; mret UNCERTAIN
        else
          _ ← _persist_attempt chunk vendor_id generation Outcome.submitted attempt_id false None;
          _ ← _record_success;
          mret SUBMITTED
    end in
  attempt
    (d ← phones_for_invoke chunk;
     if bool_decide (dd_action d = FROZEN) then mret (inl STALE_) else
     if negb (sendable d) then
       o ← _abort_before_http chunk vendor_id generation attempt_id lease
             (if bool_decide (dd_action d = EMPTY) then REJECTED else PAUSED);
       mret (inl o)
     else mret (inr (eligible_phones d)))
    (fun r =>
       match r with
       | Ok (inl o) => mret o
       | Raise e => failed false e
       | Ok (inr phones) =>
           attempt (perform (Send vendor_id phones chunk))
             (fun r' => match r' with Ok task_id => sent task_id | Raise e => failed true e end)
       end).

Definition invoke_body (chunk : ChunkPayload) (l : lane) (vendor_id : text) (generation : Z)
    (attempt_id : option Z) (allow_split : bool) (retry_index : Z) (lease : option Z)
    : worker SubmitOutcome :=
  attempt (_preflight_before_invoke chunk l vendor_id true) (fun r =>
    match r with
    | Raise e =>
        attempt (_abort_before_http chunk vendor_id generation attempt_id lease PAUSED)
          (fun _ => raise e)
    | Ok (Some o) => _abort_before_http chunk vendor_id generation attempt_id lease o
    | Ok None =>
        if negb (_gateway_for vendor_id) then
          report ← _finalize_invoke chunk generation attempt_id (plain Outcome.failed);
          _ ← refund_lease lease vendor_id;
          mret match report with
               | Some r => submit_outcome_from_finalize r FAILED_
               | None => FAILED_
               end
        else call_vendor chunk l vendor_id generation attempt_id allow_split retry_index lease
    end).

(** [submit], given the authorized call. *)
Definition submit_body (chunk : ChunkPayload) (l : lane) (allow_split : bool)
    : worker SubmitOutcome :=
  _ ← perform (SetMarketDefer None);
  let retry_index := cp_retry_count chunk in
  attempts ← perform (ListVendorAttempts (cp_chunk_id chunk));
  if bool_decide (cp_status chunk = ChunkStatus.failover_pending) then
    let report := mkReport APPLIED Outcome.rejected (Some Failover.FAILOVER_PENDING)
                    (cp_next_vendor chunk) (Some (cp_route_generation chunk))
                    (cp_failover_from_attempt_id chunk) (Some (cp_route_policy_version chunk))
                    (Some ChunkStatus.failover_pending) in
    c ← _claim_persisted_failover chunk l report;
    after_claim chunk l allow_split retry_index (fst c) (snd c)
  else
    paused ← perform (IsPaused l);
    if paused : bool then mret PAUSED else
    health ← _health_snapshot false;
    decision ← of_exc (Routing.VendorRouter_decide (router self)
                 (Routing.mkRequest (router self) attempts health (cp_category chunk)
                    (cp_route_policy_version chunk)));
    match Routing.action decision, Routing.rd_vendor_id decision with
    | Routing.terminal_uncertain, _ => mret UNCERTAIN
    | Routing.invoke, Some vendor_id =>
        if negb (_gateway_for vendor_id) then
          _ ← perform (RecordVendorAttempt (cp_chunk_id chunk) vendor_id
                         (Routing.rd_generation decision) Outcome.cancelled_before_invoke false None);
          mret FAILED_
        else
        preflight ← _preflight_before_invoke chunk l vendor_id false;
        match preflight with
        | Some o => mret o
        | None =>
            lease ← _token (rounds self) l vendor_id;
            match lease with
            | None => mret PAUSED
            | Some epoch =>
                claim ← attempt
                  (preflight ← _preflight_before_invoke chunk l vendor_id false;
                   match preflight with
                   | Some o => mret (inl o)
                   | None => st ← _claim_after_token chunk l retry_index; mret (inr st)
                   end)
                  (fun r => finally (of_result r)
                     (match r with
                      | Ok (inr CLAIMED) => mret tt
                      | _ => _refund_token epoch vendor_id
                      end));
                match claim with
                | inl o => mret o
                | inr DAILY_LIMIT => mret DELAYED
                | inr STALE => mret STALE_
                | inr CLAIMED =>
                    started ← attempt (perform (BeginVendorInvoke (cp_chunk_id chunk) vendor_id
                                                  vendor_id (Routing.reason decision)))
                      (fun r => match r with
                                | Raise e => if is_runtime_error e then mret None else raise e
                                | Ok p => mret (Some p)
                                end);
                    match started with
                    | None => mret UNCERTAIN
                    | Some (id, generation) =>
                        rec_invoke chunk l vendor_id generation (Some id) allow_split retry_index
                          (Some epoch)
                    end
                end
            end
        end
    | (Routing.hold | Routing.exhausted), _ => mret PAUSED
    | _, _ => mret FAILED_
    end.

End Recursion.
End Worker.
(** [depth] bounds the nested awaits of one task; beyond it Python raises
    [RecursionError], a [RuntimeError]. *)
Fixpoint _invoke_authorized (self : SendWorker) (depth : nat) (chunk : ChunkPayload) (l : lane)
    (vendor_id : text) (generation : Z) (attempt_id : option Z) (allow_split : bool)
    (retry_index : Z) (lease : option Z) : worker SubmitOutcome :=
  match depth with
  | O => raise RuntimeError
  | S depth =>
      invoke_body self (submit_body self (_invoke_authorized self depth))
        (_invoke_authorized self depth) chunk l vendor_id generation attempt_id allow_split
        retry_index lease
  end.

Definition submit (self : SendWorker) (depth : nat) : ChunkPayload -> lane -> bool ->
    worker SubmitOutcome :=
  submit_body self (_invoke_authorized self depth).

End SendWorker.
