(* ===== verification/WorkerSafety.v ===== *)
(** * Safety of the send worker

    A monitor follows one chunk through the calls of a run of
    [SendWorker.submit] and says which calls its state allows; every run obeys
    it, whatever the collaborators answer or raise. *)

From S2P Require Import Prelude PyText Billing Category VendorCodes Routing Failover.
From S2P Require Import OutboxContract Outbox Effects SendState SendStore SendWorker.

Module WorkerSafety.
Import SendStore SendWorker.

(** ** What a chunk may go through

    The monitor follows one chunk through the calls of a run. *)

Record auth := mkAuth { au_vendor : text; au_attempt : Z; au_generation : Z }.

Inductive phase :=
| Idle                                   (** nothing authorized *)
| Ready (a : auth)                       (** authorized, the vendor not called *)
| Refused (a : auth) (code : Z) (settled : bool)
    (** the vendor answered an error code; whether that was recorded *)
| Gone (a : auth) (task : option text).  (** accepted as [task], or the outcome is unknown *)

(** What a finalize records of an attempt whose vendor call ended with [r], or
    was not made.  An error code is recorded with what its policy prescribes: a
    retry with one of its delays, its delay, or its follow-up, which alone may permit
    another vendor. *)
Definition records_refusal (code : Z) (a : finalize_args) : bool :=
  let policy := Codes.policy_for code in
  let hold := match Failover.followup_for_policy policy (Some code) with Failover.fu_hold => true | _ => false end in
  bool_decide (fa_code a = Some code) && bool_decide (fa_task_id a = None) &&
  match fa_result a with
  | Outcome.retry_scheduled =>
      negb (fa_safe a) &&
      match fa_expected_retry_count a with
      | Some i => bool_decide (fa_retry_delay_s a = Codes.retry_delays_s policy !! Z.to_nat i)
                  && bool_decide (fa_retry_delay_s a <> None)
      | None => false
      end
  | Outcome.delayed =>
      negb (fa_safe a) && bool_decide (fa_retry_delay_s a = Codes.delay_s policy) && bool_decide (fa_retry_delay_s a <> None)
  | Outcome.paused => hold && eqb (fa_safe a) (Codes.safe_to_failover policy)
  | Outcome.rejected => negb hold && eqb (fa_safe a) (Codes.safe_to_failover policy)
  | _ => false
  end.
Definition records (r : option (result exn text)) (a : finalize_args) : bool :=
  match r with
  | Some (Raise (VendorApiError code)) => records_refusal code a
  | Some (Ok task) =>
      bool_decide (fa_result a = Outcome.submitted) && bool_decide (fa_task_id a = Some task)
      && bool_decide (fa_code a = None) && negb (fa_safe a)
  | Some (Raise _) =>
      bool_decide (fa_result a = Outcome.uncertain) && bool_decide (fa_task_id a = None)
      && bool_decide (fa_code a = None) && negb (fa_safe a)
  | None =>
      bool_decide (fa_result a ∈ [Outcome.rejected; Outcome.paused; Outcome.failed])
      && bool_decide (fa_task_id a = None) && bool_decide (fa_code a = None) && negb (fa_safe a)
  end.
(** The answer of a call accepted as [task], or of unknown outcome. *)
Definition gone_answer (task : option text) : result exn text :=
  match task with Some t => Ok t | None => Raise VendorTransportError end.
Definition names (a : auth) (attempt_id generation : Z) : bool :=
  (au_attempt a =? attempt_id) && (au_generation a =? generation).

Section Monitor.
Context (c : Z).

Definition on (chunk_id : Z) (b : bool) : bool := if chunk_id =? c then b else true.

Definition may_authorize (m : phase) : bool :=
  match m with Idle | Refused _ _ _ => true | _ => false end.
Definition refused (m : phase) : bool := match m with Refused _ _ _ => true | _ => false end.

Definition allowed (m : phase) (e : call) : bool :=
  match e with
  | Send v _ chunk =>
      on (cp_chunk_id chunk) match m with Ready a => teqb (au_vendor a) v | _ => false end
  | BeginVendorInvoke i _ _ _ | ClaimNextVendorInvoke i _ _ _ _ _ _ => on i (may_authorize m)
  | FinalizeVendorAttempt id i g a =>
      on i match m with
           | Idle => false
           | Ready u => names u id g && records None a
           | Refused u code _ => names u id g && records (Some (Raise (VendorApiError code))) a
           | Gone u task => names u id g && records (Some (gone_answer task)) a
           end
  | MarkSubmitted i t =>
      on i match m with Gone _ (Some t') => teqb t t' | _ => false end
  | MarkUncertain i => on i match m with Gone _ _ => true | _ => false end
  | ScheduleRetry i _ _ _ | Delay i _ _ | BalanceBlocked _ i | PauseBlocked i _
  | MarkFailed i _ => on i (refused m)
  | SplitOnce chunk =>
      on (cp_chunk_id chunk) match m with Refused _ _ false => true | _ => false end
  | CompleteVendorAttempt i id o _ _ =>
      on i match m with
           | Refused u _ true => au_attempt u =? id
           | Gone u task => (au_attempt u =? id)
                            && bool_decide (o ∈ [Outcome.submitted; Outcome.uncertain])
           | _ => false
           end
  | RecordVendorAttempt _ _ _ o _ _ => bool_decide (o = Outcome.cancelled_before_invoke)
  | _ => true
  end.

Definition after (m : phase) (e : call) : result exn (answer e) -> phase :=
  match e with
  | Send _ _ chunk => fun r =>
      if cp_chunk_id chunk =? c then
        match m with
        | Ready a => match r with
                     | Ok task => Gone a (Some task)
                     | Raise (VendorApiError code) => Refused a code false
                     | Raise _ => Gone a None
                     end
        | _ => m
        end
      else m
  | BeginVendorInvoke i v _ _ => fun r =>
      match r with
      | Ok (id, g) => if i =? c then Ready (mkAuth v id g) else m
      | Raise _ => m
      end
  | ClaimNextVendorInvoke i _ _ _ _ _ _ => fun r =>
      match r with
      | Ok cl =>
          match Failover.kind cl, Failover.authorization cl with
          | Failover.AUTHORIZED, Some a =>
              if i =? c then Ready (mkAuth (Failover.ia_vendor_id a) (Failover.attempt_id a)
                                      (Failover.ia_generation a)) else m
          | _, _ => m
          end
      | Raise _ => m
      end
  | FinalizeVendorAttempt _ i _ _ => fun _ =>
      if i =? c then match m with
                     | Ready _ => Idle
                     | Refused u code _ => Refused u code true
                     | _ => m
                     end else m
  | SplitOnce chunk => fun _ =>
      if cp_chunk_id chunk =? c
      then match m with Refused u code _ => Refused u code true | _ => m end else m
  | _ => fun _ => m
  end.

(** What the collaborators may answer: only the gateway raises vendor errors,
    and the children of a split are distinct chunks. *)
Definition vendor_error (e : exn) : bool :=
  match e with
  | VendorTransportError | VendorProtocolError | VendorApiError _ => true
  | _ => false
  end.
Definition ordinary {A} (r : result exn A) : Prop :=
  match r with Ok _ => True | Raise e => vendor_error e = false end.
Definition possible (e : call) : result exn (answer e) -> Prop :=
  match e with
  | Send _ _ _ => fun _ => True
  | SplitOnce _ => fun r =>
      ordinary r /\ match r with Ok l => NoDup (cp_chunk_id <$> l) | Raise _ => True end
  | _ => fun r => ordinary r
  end.

Abbreviation wpw := (wp allowed after possible).

(** ** Calls that concern no chunk's vendor call *)

(** In phase [m] the program makes only allowed calls and stays in it. *)
Definition stays {A} (m : phase) (p : worker A) : Prop :=
  forall Q, (forall r, ordinary r -> Q m r) -> wpw p Q m.

Lemma stays_ret {A} m (r : result exn A) : ordinary r -> stays m (Ret r).
Proof. intros Hr Q H. by apply H. Qed.

Lemma stays_perform m e : allowed m e = true -> (forall r, after m e r = m) ->
  (forall r, possible e r -> ordinary r) -> stays m (perform e).
Proof.
  intros Ha Hf Hp Q HQ. apply wp_perform; [done|]. intros r Hr. rewrite Hf. auto.
Qed.

Lemma stays_attempt {A B} m (p : worker A) (f : result exn A -> worker B) :
  stays m p -> (forall r, ordinary r -> stays m (f r)) -> stays m (attempt p f).
Proof. intros Hp Hf Q HQ. apply wp_attempt, Hp. intros r Hr. by apply Hf. Qed.

Lemma stays_bind {A B} m (p : worker A) (f : A -> worker B) :
  stays m p -> (forall x, stays m (f x)) -> stays m (p ≫= f).
Proof. intros Hp Hf. apply stays_attempt; [done|]. intros [x|e] Hr; [done|by apply stays_ret]. Qed.

Lemma stays_catch {A} m (p : worker A) h :
  stays m p -> (forall e, vendor_error e = false -> stays m (h e)) -> stays m (catch p h).
Proof. intros Hp Hf. apply stays_attempt; [done|]. intros [x|e] Hr; [by apply stays_ret|auto]. Qed.

Lemma stays_finally {A} m (p : worker A) q : stays m p -> stays m q -> stays m (finally p q).
Proof.
  intros Hp Hq. apply stays_attempt; [done|]. intros r Hr. apply stays_attempt; [done|].
  intros [u|e] He; by apply stays_ret.
Qed.

Create HintDb stays.
Ltac stays_tac :=
  repeat first
    [ solve [eauto 2 with stays]
    | apply stays_ret; done
    | apply stays_bind; [|intros ?]
    | apply stays_catch; [|intros ? ?]
    | apply stays_finally
    | apply stays_attempt; [|intros ? ?]
    | match goal with |- stays _ (perform ?e) =>
        apply (stays_perform _ e); [reflexivity|intros ?; reflexivity|by intros ? ?] end
    | case_match ].

Section Neutral.
Context (self : SendWorker).

Lemma stays_record_failure m chunk code : stays m (_record_failure chunk code).
Proof. unfold _record_failure. stays_tac. Qed.

Lemma stays_record_success m : stays m _record_success.
Proof. unfold _record_success. stays_tac. Qed.

Lemma stays_token m n l v : stays m (_token n l v).
Proof. induction n; cbn [_token]; stays_tac. Qed.

Lemma stays_refund m epoch v : stays m (_refund_token epoch v).
Proof. unfold _refund_token. stays_tac. Qed.

Lemma stays_quota_cost m chunk n : stays m (quota_cost chunk n).
Proof. unfold quota_cost. stays_tac. Qed.

Lemma stays_of_exc {A} m (r : result exc A) : stays m (of_exc r).
Proof. unfold of_exc. stays_tac. Qed.

Lemma stays_health m paused : stays m (_health_snapshot self paused).
Proof. unfold _health_snapshot. stays_tac. Qed.

Lemma stays_guard m chunk b : stays m (guard_chunk self chunk b).
Proof. unfold guard_chunk. stays_tac. Qed.

Lemma stays_control m  : stays m (_control_ready self).
Proof. unfold _control_ready. stays_tac. Qed.
#[local] Hint Resolve stays_record_failure stays_record_success stays_token stays_refund
  stays_quota_cost stays_of_exc stays_health stays_guard stays_control : stays.

Lemma stays_preflight m chunk l v b : stays m (_preflight_before_invoke self chunk l v b).
Proof. unfold _preflight_before_invoke. stays_tac. Qed.

Lemma stays_phones_rounds m n chunk d : stays m (phones_rounds n chunk d).
Proof. revert d. induction n; intros d; cbn [phones_rounds]; stays_tac. Qed.

Lemma stays_phones m chunk : stays m (phones_for_invoke chunk).
Proof. apply stays_phones_rounds. Qed.

Lemma stays_refund_lease m lease v : stays m (refund_lease lease v).
Proof. unfold refund_lease. stays_tac. Qed.

#[local] Hint Resolve stays_preflight stays_phones stays_refund_lease : stays.

Lemma stays_claim_after_token m chunk l r : stays m (_claim_after_token self chunk l r).
Proof. unfold _claim_after_token. stays_tac. Qed.

End Neutral.
#[local] Hint Resolve stays_record_failure stays_record_success stays_token stays_refund
  stays_quota_cost stays_of_exc stays_health stays_guard stays_control stays_preflight
  stays_phones stays_refund_lease stays_claim_after_token : stays.

Lemma stays_defer m chunk l claim : stays m (defer_at_limit chunk l claim).
Proof. unfold defer_at_limit. stays_tac. Qed.

Lemma stays_refund_unless m epoch v r : ordinary r ->
  stays m (refund_unless_authorized epoch v r).
Proof. intros Hr. unfold refund_unless_authorized. stays_tac. Qed.
#[local] Hint Resolve stays_defer stays_refund_unless : stays.

(** ** Calls of another chunk *)

Section Other.
Context (self : SendWorker) (chunk : ChunkPayload) (Hne : cp_chunk_id chunk <> c).

#[local] Hint Extern 1 (stays _ (perform ?e)) =>
  (apply (stays_perform _ e);
   [simpl; unfold on; by rewrite (proj2 (Z.eqb_neq _ _) Hne)
   |intros ?; simpl; rewrite ?(proj2 (Z.eqb_neq _ _) Hne); by repeat case_match
   |by intros ? ?]) : stays.

Lemma other_finalize m g aid a : stays m (_finalize_invoke chunk g aid a).
Proof. unfold _finalize_invoke. stays_tac. Qed.
#[local] Hint Resolve other_finalize : stays.

Lemma other_apply_terminal m code b : stays m (_apply_terminal_api_error chunk code b).
Proof. unfold _apply_terminal_api_error. stays_tac. Qed.

Lemma other_persist m v g o id safe code :
  stays m (_persist_attempt chunk v g o (Some id) safe code).
Proof. unfold _persist_attempt. stays_tac. Qed.
#[local] Hint Resolve other_persist : stays.

Lemma other_persist_uncertain m v g id : stays m (persist_uncertain chunk v g (Some id)).
Proof. unfold persist_uncertain. stays_tac. Qed.

Lemma other_abort m v g aid lease o : stays m (_abort_before_http chunk v g aid lease o).
Proof. unfold _abort_before_http. stays_tac. Qed.

Lemma other_claim m l report : stays m (_claim_persisted_failover self chunk l report).
Proof. unfold _claim_persisted_failover. stays_tac. Qed.

End Other.

Ltac wp_call :=
  match goal with |- wp _ _ _ (perform ?e) ?Q ?m => apply (wp_perform allowed after possible e Q m) end.

(** ** The recursion *)

(** The chunk itself is authorized; a chunk that may be split has not touched
    the one that is followed. *)
Definition self_authorized (chunk : ChunkPayload) (b : bool) (v : text) (id g : Z) (m : phase)
    : Prop :=
  (cp_chunk_id chunk = c -> m = Ready (mkAuth v id g)) /\
  (cp_chunk_id chunk <> c -> b = true -> may_authorize m = true).
Definition can_start (chunk : ChunkPayload) (b : bool) (m : phase) : Prop :=
  cp_chunk_id chunk = c \/ b = true -> may_authorize m = true.
(** Another chunk that may not be split leaves the phase alone. *)
Definition ends (chunk : ChunkPayload) (allow_split : bool) (m m' : phase) : Prop :=
  allow_split = false -> cp_chunk_id chunk <> c -> m' = m.

Definition invoke_ok (inv : ChunkPayload -> lane -> text -> Z -> option Z -> bool -> Z ->
    option Z -> worker SubmitOutcome) : Prop :=
  forall chunk l v g id b r lease m, self_authorized chunk b v id g m ->
    wpw (inv chunk l v g (Some id) b r lease) (fun m' _ => ends chunk b m m') m.
Definition submit_ok (sub : ChunkPayload -> lane -> bool -> worker SubmitOutcome) : Prop :=
  forall chunk l b m, can_start chunk b m ->
    wpw (sub chunk l b) (fun m' _ => ends chunk b m m') m.

Lemma children_ok sub l children m : submit_ok sub -> NoDup (cp_chunk_id <$> children) ->
  Forall (fun ch => can_start ch false m) children ->
  wpw (submit_children sub l children) (fun _ _ => True) m.
Proof.
  intros Hs. revert m. induction children as [|ch rest IH]; intros m ND HF.
  { by apply wp_ret. }
  rewrite fmap_cons in ND. apply NoDup_cons in ND as [Hn ND]. apply Forall_cons in HF as [Hc HF].
  cbn [submit_children]. apply wp_bind. eapply wp_mono; [|apply Hs, Hc].
  intros m' [o|e] He; [|done]. apply IH; [done|].
  destruct (decide (cp_chunk_id ch = c)) as [E|E].
  - apply Forall_forall. intros x Hx [Ex|]; [|done]. destruct Hn. apply list_elem_of_fmap. exists x.
    by rewrite E, Ex.
  - by rewrite (He eq_refl E).
Qed.

Definition after_finalize (m : phase) : phase :=
  match m with Ready _ => Idle | Refused u code _ => Refused u code true | _ => m end.

Section Mine.
Context (self : SendWorker) (chunk : ChunkPayload) (Hc : cp_chunk_id chunk = c).

Lemma mine_eqb : (cp_chunk_id chunk =? c) = true.
Proof. by apply Z.eqb_eq. Qed.

Lemma mine_finalize g id a Q m :
  allowed m (FinalizeVendorAttempt id (cp_chunk_id chunk) g (a chunk)) = true ->
  (forall r, ordinary r -> Q (after_finalize m) r) -> wpw (_finalize_invoke chunk g (Some id) a) Q m.
Proof.
  intros Ha HQ. unfold _finalize_invoke. apply wp_catch, wp_bind, (wp_perform _ _ _ _ _ _ Ha).
  intros r Hr. simpl. rewrite mine_eqb. fold (after_finalize m). destruct r as [r|e]; [by apply HQ|].
  assert (N : stays (after_finalize m) (if is_exception e
    then perform (LoadAuthoritativeNextAction (cp_chunk_id chunk) id g) else raise e)) by stays_tac.
  apply N. apply HQ.
Qed.

Lemma mine_abort v g id lease o Q m : m = Ready (mkAuth v id g) -> (forall m' r, ordinary r -> Q m' r) ->
  wpw (_abort_before_http chunk v g (Some id) lease o) Q m.
Proof.
  intros -> HQ. unfold _abort_before_http. apply wp_finally, wp_bind, mine_finalize.
  - cbn [allowed]. unfold on, names. rewrite mine_eqb. cbn [au_attempt au_generation]. rewrite !Z.eqb_refl.
    by destruct (bool_decide (o = REJECTED)).
  - assert (R : stays Idle (refund_lease lease v)) by stays_tac.
    intros [[r|]|e] Hr; apply R; intros [u|e'] He; by apply HQ.
Qed.

#[local] Hint Extern 2 (stays _ (perform ?e)) =>
  (apply (stays_perform _ e);
   [simpl; unfold on; by rewrite ?mine_eqb|intros ?; simpl; by rewrite ?mine_eqb|by intros ? ?])
  : stays.

Lemma mine_apply_terminal u k st code b :
  stays (Refused u k st) (_apply_terminal_api_error chunk code b).
Proof. unfold _apply_terminal_api_error. stays_tac. Qed.

(** Recording an attempt directly, when its finalize was not confirmed. *)
Lemma mine_persist_gone v g o id safe code u task :
  au_attempt u = id -> o ∈ [Outcome.submitted; Outcome.uncertain] ->
  stays (Gone u task) (_persist_attempt chunk v g o (Some id) safe code).
Proof.
  intros <- Ho. unfold _persist_attempt.
  apply (stays_perform _ (CompleteVendorAttempt _ _ _ _ _)); [|by intros ?|by intros ? ?].
  simpl. unfold on. rewrite mine_eqb, Z.eqb_refl. by apply bool_decide_true_iff.
Qed.

Lemma mine_persist_refused v g o id safe code u k :
  au_attempt u = id -> stays (Refused u k true) (_persist_attempt chunk v g o (Some id) safe code).
Proof.
  intros <-. unfold _persist_attempt.
  apply (stays_perform _ (CompleteVendorAttempt _ _ _ _ _)); [|by intros ?|by intros ? ?].
  simpl. unfold on. by rewrite mine_eqb, Z.eqb_refl.
Qed.

Lemma mine_persist_uncertain v g id u task : au_attempt u = id ->
  stays (Gone u task) (persist_uncertain chunk v g (Some id)).
Proof.
  intros Hu. unfold persist_uncertain. apply stays_bind; [apply mine_persist_gone; set_solver|].
  intros ?. stays_tac.
Qed.

(** The phase after a claim. *)
Definition claimed (m : phase) (cl : Failover.InvokeClaim) : phase :=
  match Failover.kind cl, Failover.authorization cl with
  | Failover.AUTHORIZED, Some a =>
      Ready (mkAuth (Failover.ia_vendor_id a) (Failover.attempt_id a) (Failover.ia_generation a))
  | _, _ => m
  end.

Lemma mine_refund_unless epoch v r Q m : Q m r -> (forall e, Q m (Raise e)) ->
  wpw (refund_unless_authorized epoch v r) Q m.
Proof.
  intros Hr He. unfold refund_unless_authorized. apply wp_finally, wp_ret.
  assert (R : stays m (if match r with Ok c0 => is_authorized c0 | Raise _ => false end
                       then mret tt else _refund_token epoch v)) by stays_tac.
  apply R. intros [u|e] _; auto.
Qed.

Lemma mine_claim l report Q m : may_authorize m = true ->
  (forall cl lease, Q (claimed m cl) (Ok (cl, lease))) -> (forall m' e, Q m' (Raise e)) ->
  wpw (_claim_persisted_failover self chunk l report) Q m.
Proof.
  intros Hm Ho He. unfold _claim_persisted_failover. cbv zeta.
  assert (Hd : forall reason lease,
    Q m (Ok (Failover.mkClaim Failover.DENIED None reason None, lease)))
    by (intros reason lease; exact (Ho (Failover.mkClaim Failover.DENIED None reason None) lease)).
  destruct (fr_next_vendor report) as [v|]; [|apply wp_ret, Hd].
  destruct (fr_previous_attempt_id report) as [prev|]; [|apply wp_ret, Hd].
  apply wp_bind, stays_preflight. intros [[o|]|e] _; [apply wp_ret, Hd| |apply He].
  apply wp_bind, stays_token. intros [[epoch|]|e] _; [|apply wp_ret, Hd|apply He].
  apply wp_bind, wp_attempt.
  assert (T : forall m' r, match r with Ok cl => m' = claimed m cl | Raise _ => True end ->
    wpw (refund_unless_authorized epoch v r) (fun m'' r' => match r' with
      | Ok cl => wpw (defer_at_limit chunk l cl ≫= fun _ => mret (cl, Some epoch)) Q m''
      | Raise e => Q m'' (Raise e) end) m').
  { intros m' r E. apply mine_refund_unless; [|by intros e]. destruct r as [cl|e]; [subst m'|apply He].
    apply wp_bind, stays_defer. intros [u|e] _; [apply wp_ret, Ho|apply He]. }
  apply wp_bind, stays_preflight. intros [[o|]|e] _; [by apply wp_ret, T| |by apply T].
  apply wp_bind, stays_quota_cost. intros [n|e] _; [|by apply T].
  wp_call; [simpl; unfold on; by rewrite mine_eqb|]. intros r _. apply T.
  destruct r as [cl|e]; [|done]. simpl. rewrite mine_eqb. unfold claimed. by repeat case_match.
Qed.

Lemma mine_after_claim inv l b r cl lease m : invoke_ok inv ->
  wpw (after_claim inv chunk l b r cl lease) (fun _ _ => True) (claimed m cl).
Proof.
  intros Hi. unfold after_claim, claimed.
  destruct (Failover.kind cl); [|by apply wp_ret|by repeat case_match; apply wp_ret].
  destruct (Failover.authorization cl) as [a|]; [|by apply wp_ret].
  eapply wp_mono; [|by apply Hi]. done.
Qed.

(** Finalizing what the vendor refused. *)
Lemma mine_refused_finalize g id a u code st (Q : phase -> result exn (option FinalizeReport) -> Prop) :
  names u id g = true -> records_refusal code (a chunk) = true ->
  (forall r, ordinary r -> Q (Refused u code true) r) ->
  wpw (_finalize_invoke chunk g (Some id) a) Q (Refused u code st).
Proof.
  intros Hn Hs HQ. apply mine_finalize; [|done]. cbn [allowed]. unfold on. rewrite mine_eqb, Hn. exact Hs.
Qed.

Lemma mine_handle sub inv code l v g id b r u : submit_ok sub -> invoke_ok inv ->
  names u id g = true ->
  wpw (_handle_terminal_api_error self sub inv chunk code l v g (Some id) b r) (fun _ _ => True)
    (Refused u code false).
Proof.
  intros Hs Hi Hn. unfold _handle_terminal_api_error. cbv zeta.
  assert (St : forall {A} (p : worker A), stays (Refused u code true) p ->
    wpw p (fun _ _ => True) (Refused u code true)) by (intros A p Hp; by apply Hp).
  assert (Hu : au_attempt u = id) by (unfold names in Hn; bool_prop; done).
  pose proof (fun o safe k => mine_persist_refused v g o id safe k u code Hu) as Hper.
  destruct (Codes.retry_delays_s _ !! _) as [delay|] eqn:Rd.
  { apply wp_bind, mine_refused_finalize; [done| |intros [[rep|]|e] _; try done].
    - unfold records_refusal. cbn -[Codes.policy_for Failover.followup_for_policy]. rewrite Rd. by rewrite !bool_decide_true.
    - apply St. stays_tac. }
  destruct (_ && b).
  { apply wp_bind. wp_call; [simpl; unfold on; by rewrite mine_eqb|].
    intros [children|e] [_ Hp]; [|done]. cbn [after]. rewrite mine_eqb.
    destruct children as [|ch rest]; [done|].
    apply wp_bind. eapply wp_mono; [|apply children_ok; [done|done|]].
    - by intros m' [u'|e] _.
    - apply Forall_true. by intros ch' _. }
  destruct (Codes.delay_s _) as [d|] eqn:Dl.
  { apply wp_bind, mine_refused_finalize; [done| |intros [[rep|]|e] _; try done].
    - unfold records_refusal. cbn -[Codes.policy_for Failover.followup_for_policy]. rewrite Dl. by rewrite !bool_decide_true.
    - apply St. stays_tac. }
  apply wp_bind, mine_refused_finalize; [done| |intros [[rep|]|e] _; try done].
  - unfold records_refusal. cbn -[Codes.policy_for Failover.followup_for_policy].
    rewrite !bool_decide_true by done. destruct (Failover.followup_for_policy _ _); cbn; by rewrite eqb_reflx.
  - destruct (negb _); [done|]. destruct (_ || _); [apply St; stays_tac|].
    destruct (fr_next_action rep) as [[]|]; try (apply St; stays_tac; apply mine_apply_terminal).
    apply wp_bind, mine_claim; [done| |done]. intros cl lease. by apply mine_after_claim.
  - apply St. stays_tac. apply mine_apply_terminal.
Qed.

Lemma mine_call_vendor sub inv l v g id b r lease : submit_ok sub -> invoke_ok inv ->
  wpw (call_vendor self sub inv chunk l v g (Some id) b r lease) (fun _ _ => True)
    (Ready (mkAuth v id g)).
Proof.
  intros Hs Hi. unfold call_vendor. cbv zeta. apply wp_attempt, wp_bind, stays_phones.
  assert (U : names (mkAuth v id g) id g = true) by (unfold names; simpl; by rewrite !Z.eqb_refl).
  assert (E : forall e m, vendor_error e = false ->
    match e with VendorTransportError | VendorProtocolError | VendorApiError _ => False | _ =>
      wpw (mret tt ≫= fun _ : unit => raise e) (fun _ (_ : result exn SubmitOutcome) => True) m end)
    by (by intros []).
  intros [d|e] Ho; [|specialize (E e (Ready (mkAuth v id g)) Ho); by destruct e].
  case_bool_decide as F; [done|]. destruct (negb (sendable d)).
  { apply wp_bind, mine_abort; [done|]. intros m' [o|e] He; [done|].
    specialize (E e m' He). by destruct e. }
  apply wp_ret, wp_attempt. wp_call; [simpl; unfold on; rewrite mine_eqb; by apply teqb_spec|].
  cbn [after]. rewrite mine_eqb.
  assert (G : forall task a (Q : phase -> result exn (option FinalizeReport) -> Prop),
    records (Some (gone_answer task)) (a chunk) = true -> (forall r, ordinary r -> Q (Gone (mkAuth v id g) task) r) ->
    wpw (_finalize_invoke chunk g (Some id) a) Q (Gone (mkAuth v id g) task)).
  { intros task a Q Hg HQ. apply mine_finalize; [|done]. cbn [allowed]. unfold on. rewrite mine_eqb, U. exact Hg. }
  intros [task|e] _.
  - apply wp_bind, G; [cbn; by rewrite !bool_decide_true|]. intros [[rep|]|e] _; [| |done].
    + assert (S : stays (Gone (mkAuth v id g) (Some task))
        (if bool_decide (submit_outcome_from_finalize rep SUBMITTED = SUBMITTED)
         then _record_success else mret tt)) by stays_tac.
      apply wp_bind, S. by intros [u|e] _.
    + match goal with |- wpw ?p _ ?m => assert (S : stays m p) end; [|by apply S].
      pose proof (mine_persist_uncertain v g id (mkAuth v id g) (Some task) eq_refl).
      assert (stays (Gone (mkAuth v id g) (Some task))
        (_persist_attempt chunk v g Outcome.submitted (Some id) false None))
        by (apply mine_persist_gone; [done|set_solver]).
      assert (stays (Gone (mkAuth v id g) (Some task)) (perform (MarkSubmitted (cp_chunk_id chunk) task))).
      { apply (stays_perform _ (MarkSubmitted _ _)); [|by intros ?|by intros ? ?].
        simpl. unfold on. rewrite mine_eqb. by apply teqb_spec. }
      stays_tac.
  - destruct e; try by apply mine_handle.
    1,2: apply wp_bind, G; [done|]; intros [[rep|]|e] _; [done| |done];
         apply wp_bind, mine_persist_uncertain; [done|]; by intros [u|e] _.
    all: apply wp_bind, wp_bind, G; [done|]; intros [[rep|]|e] _; [done| |done];
         apply mine_persist_uncertain; [done|]; by intros [u|e] _.
Qed.

End Mine.

Section Another.
Context (self : SendWorker) (chunk : ChunkPayload) (Hne : cp_chunk_id chunk <> c).

Lemma other_after_claim inv l b r cl lease m : invoke_ok inv ->
  (b = true -> may_authorize m = true) ->
  wpw (after_claim inv chunk l b r cl lease) (fun m' _ => ends chunk b m m') m.
Proof.
  intros Hi Hb. unfold after_claim.
  assert (R : forall o, wpw (mret o) (fun m' _ => ends chunk b m m') m)
    by (intros o; apply wp_ret; by intros ? ?).
  destruct (Failover.kind cl); [|by apply R|by repeat case_match].
  destruct (Failover.authorization cl) as [a|]; [|by apply R]. by apply Hi.
Qed.

#[local] Hint Resolve other_finalize other_apply_terminal other_persist other_persist_uncertain other_abort
  other_claim : stays.
#[local] Hint Extern 1 (stays _ (perform ?e)) =>
  (apply (stays_perform _ e);
   [simpl; unfold on; by rewrite (proj2 (Z.eqb_neq _ _) Hne)
   |intros ?; simpl; rewrite ?(proj2 (Z.eqb_neq _ _) Hne); by repeat case_match
   |by intros ? ?]) : stays.

Lemma other_handle sub inv code l v g id b r m : submit_ok sub -> invoke_ok inv ->
  (b = true -> may_authorize m = true) ->
  wpw (_handle_terminal_api_error self sub inv chunk code l v g (Some id) b r)
    (fun m' _ => ends chunk b m m') m.
Proof.
  intros Hs Hi Hb. unfold _handle_terminal_api_error. cbv zeta.
  assert (St : forall {A} (p : worker A), stays m p -> wpw p (fun m' _ => ends chunk b m m') m)
    by (intros A p Hp; apply Hp; by intros ? ? ? ?).
  destruct (Codes.retry_delays_s _ !! _) as [delay|]; [apply St; stays_tac|].
  destruct (_ && b) eqn:B.
  { apply wp_bind. wp_call; [simpl; unfold on; by rewrite (proj2 (Z.eqb_neq _ _) Hne)|].
    bool_prop. subst b. intros [children|e] [_ Hp]; [|by intros ?].
    cbn [after]. rewrite (proj2 (Z.eqb_neq _ _) Hne). destruct children as [|ch rest]; [by intros ?|].
    apply wp_bind. eapply wp_mono; [|apply children_ok; [done|done|]].
    - by intros m' [u'|e] _ ?.
    - apply Forall_true. intros ch' _. by apply Hb. }
  destruct (Codes.delay_s _) as [d|]; [apply St; stays_tac|].
  apply wp_bind, other_finalize; [done|]. intros [[rep|]|e] _; [| |by intros ?].
  - destruct (negb _); [by intros ?|]. destruct (_ || _); [apply St; stays_tac|].
    destruct (fr_next_action rep) as [[]|]; try solve [apply St; stays_tac].
    apply wp_bind, other_claim; [done|]. intros [[cl lease]|e] _; [|by intros ?].
    by apply other_after_claim.
  - apply St. stays_tac.
Qed.

Lemma other_call_vendor sub inv l v g id b r lease m : submit_ok sub -> invoke_ok inv ->
  (b = true -> may_authorize m = true) ->
  wpw (call_vendor self sub inv chunk l v g (Some id) b r lease) (fun m' _ => ends chunk b m m') m.
Proof.
  intros Hs Hi Hb. unfold call_vendor. cbv zeta.
  assert (St : forall {A} (p : worker A), stays m p -> wpw p (fun m' _ => ends chunk b m m') m)
    by (intros A p Hp; apply Hp; by intros ? ? ? ?).
  apply wp_attempt.
  match goal with |- wpw ?p _ _ => assert (S : stays m p) by stays_tac end.
  apply S. clear S. intros [[o|phones]|e] Ho; [by intros ? ?| |].
  - apply wp_attempt. wp_call; [simpl; unfold on; by rewrite (proj2 (Z.eqb_neq _ _) Hne)|].
    cbn [after]. rewrite (proj2 (Z.eqb_neq _ _) Hne). intros [task|e] _; [apply St; stays_tac|].
    destruct e; try by apply other_handle.
    1,2: apply wp_bind, other_finalize; [done|]; intros [[rep|]|e] _; [by intros ? ?| |by intros ? ?];
         apply wp_bind, other_persist_uncertain; [done|]; intros [u|e] _; by intros ? ?.
    all: apply wp_bind, wp_bind, other_finalize; [done|]; intros [[rep|]|e] _; [by intros ? ?| |by intros ? ?];
         apply other_persist_uncertain; [done|]; intros [u|e] _; by intros ? ?.
  - destruct e; try done; apply wp_bind, wp_ret; by intros ? ?.
Qed.

End Another.

Lemma invoke_body_ok self sub inv : submit_ok sub -> invoke_ok inv ->
  invoke_ok (invoke_body self sub inv).
Proof.
  intros Hs Hi chunk l v g id b r lease m [Ha Hb]. unfold invoke_body.
  apply wp_attempt, stays_preflight. destruct (decide (cp_chunk_id chunk = c)) as [E|E].
  - rewrite (Ha E). assert (T : forall m m', ends chunk b m m') by (by intros ? ? ? ?).
    assert (W : forall (p : worker SubmitOutcome) m m0, wpw p (fun _ _ => True) m ->
      wpw p (fun m' _ => ends chunk b m0 m') m) by (intros p m0 m1; apply wp_mono; auto).
    intros [[o|]|e] _; [by apply mine_abort; [..|auto]| |apply wp_attempt, mine_abort; [done..|by intros; apply wp_ret]].
    destruct (negb _); [|by apply W, mine_call_vendor].
    apply wp_bind, mine_finalize; [done| |].
    + simpl. unfold on, names. simpl. by rewrite (mine_eqb _ E), !Z.eqb_refl.
    + intros [rep|e] _; [|apply T]. apply wp_bind, stays_refund_lease. intros [u|e] _; apply T.
  - assert (R : forall o, ordinary o -> (fun m' (_ : result exn SubmitOutcome) => ends chunk b m m') m o)
      by (by intros ? ? ? ?).
    intros [[o|]|e] _; [by apply other_abort| |apply wp_attempt, other_abort; [done|by intros; apply wp_ret]].
    destruct (negb _); [|by apply other_call_vendor; auto].
    apply wp_bind, other_finalize; [done|]. intros [rep|e] _; [|by intros ? ?].
    apply wp_bind, stays_refund_lease. intros [u|e] _; by intros ? ?.
Qed.

Lemma submit_body_ok self inv : invoke_ok inv -> submit_ok (submit_body self inv).
Proof.
  intros Hi chunk l b m Hc. unfold submit_body. cbv zeta.
  assert (R : forall r : result exn SubmitOutcome, ends chunk b m m) by (by intros ? ? ?).
  apply wp_bind. wp_call; [done|]. cbn [after]. intros [u|e] _; [|by intros ? ?].
  apply wp_bind. wp_call; [done|]. cbn [after]. intros [atts|e] _; [|by intros ? ?].
  case_bool_decide.
  { destruct (decide (cp_chunk_id chunk = c)) as [E|E].
    - apply wp_bind, mine_claim; [done|by apply Hc; left| |by intros ? ? ? ?].
      intros cl lease. eapply wp_mono; [|by apply mine_after_claim]. by intros ? ? _ ? ?.
    - apply wp_bind, other_claim; [done|]. intros [[cl lease]|e] _; [|by intros ? ?].
      apply other_after_claim; [done|done|]. intros ->. apply Hc. by right. }
  apply wp_bind. wp_call; [done|]. cbn [after]. intros [[]|e] _; [by intros ? ?| |by intros ? ?].
  apply wp_bind, stays_health. intros [health|e] _; [|by intros ? ?].
  apply wp_bind, stays_of_exc. intros [d|e] _; [|by intros ? ?].
  destruct (Routing.action d); try by intros ? ?.
  destruct (Routing.rd_vendor_id d) as [v|]; [|by intros ? ?].
  destruct (negb _).
  { apply wp_bind. wp_call; [done|]. intros [u'|e] _; by intros ? ?. }
  apply wp_bind, stays_preflight. intros [[o|]|e] _; [by intros ? ?| |by intros ? ?].
  apply wp_bind, stays_token. intros [[epoch|]|e] _; [|by intros ? ?..].
  apply wp_bind. match goal with |- wpw ?p _ _ => assert (S : stays m p) by stays_tac end.
  apply S. clear S. intros [[o|[]]|e] _; try by intros ? ?.
  apply wp_bind, wp_attempt. wp_call.
  { simpl. unfold on. destruct (cp_chunk_id chunk =? c) eqn:E; [|done]. bool_prop. apply Hc. by left. }
  intros [[id g]|e] _; [|case_match; by intros ? ?]. cbn [after]. apply wp_ret.
  destruct (cp_chunk_id chunk =? c) eqn:E; bool_prop.
  - eapply wp_mono; [|apply Hi; by split]. by intros ? ? _ ? ?.
  - apply Hi. split; [done|]. intros _ ->. apply Hc. by right.
Qed.

Lemma invoke_ok_all self n : invoke_ok (_invoke_authorized self n).
Proof.
  induction n as [|n IH]; cbn [_invoke_authorized].
  - intros chunk l v g id b r lease m _. apply wp_ret. by intros ? ?.
  - apply invoke_body_ok; [by apply submit_body_ok|done].
Qed.

Lemma submit_ok_all self n : submit_ok (submit self n).
Proof. apply submit_body_ok, invoke_ok_all. Qed.

(** ** Reading the monitor *)

Definition sends (e : call) : bool :=
  match e with Send _ _ chunk => cp_chunk_id chunk =? c | _ => false end.

(** The authorization an answer gives. *)
Definition authorizes (e : call) : result exn (answer e) -> option auth :=
  match e with
  | BeginVendorInvoke i v _ _ => fun r =>
      match r with Ok (id, g) => if i =? c then Some (mkAuth v id g) else None | _ => None end
  | ClaimNextVendorInvoke i _ _ _ _ _ _ => fun r =>
      match r with
      | Ok cl =>
          match Failover.kind cl, Failover.authorization cl with
          | Failover.AUTHORIZED, Some a =>
              if i =? c then Some (mkAuth (Failover.ia_vendor_id a) (Failover.attempt_id a)
                                     (Failover.ia_generation a)) else None
          | _, _ => None
          end
      | _ => None
      end
  | _ => fun _ => None
  end.

Definition no_call (tr : list (entry answer exn)) : Prop :=
  Forall (fun p => sends (projT1 p) = false /\ authorizes (projT1 p) (projT2 p) = None) tr.

Lemma after_other m e r : sends e = false -> authorizes e r = None ->
  after m e r = m \/ after m e r = Idle \/
  exists u code st, m = Refused u code st /\ after m e r = Refused u code true.
Proof.
  destruct e; simpl; intros Hs Hz; auto; repeat case_match; simplify_eq; eauto 10.
Qed.

Lemma after_authorized m e r a : authorizes e r = Some a -> after m e r = Ready a.
Proof. destruct e; simpl; intros Hz; try done; by repeat case_match; simplify_eq. Qed.

(** An unresolved call is the last one. *)
Lemma gone_final u task tr m' : accepts allowed after (Gone u task) tr = Some m' -> no_call tr.
Proof.
  induction tr as [|[e r] tr IH]; [by constructor|]. cbn [accepts].
  destruct (allowed (Gone u task) e) eqn:Al; [|done]. intros H.
  assert (K : after (Gone u task) e r = Gone u task /\ sends e = false /\ authorizes e r = None).
  { destruct e; simpl in *; unfold on in Al; try done; repeat case_match; by simplify_eq. }
  destruct K as (K & Hs & Hz). rewrite K in H. constructor; [done|]. by apply IH.
Qed.

Lemma accepts_app m t1 t2 :
  accepts allowed after m (t1 ++ t2) = accepts allowed after m t1 ≫= fun m' => accepts allowed after m' t2.
Proof.
  revert m. induction t1 as [|[e r] t1 IH]; intros m; [done|]. cbn [accepts app].
  destruct (allowed m e); [apply IH|done].
Qed.

(** A call is made under the last authorization before it. *)
Lemma ready_authorized tr a : accepts allowed after Idle tr = Some (Ready a) ->
  exists t1 e r t2, tr = t1 ++ existT e r :: t2 /\ authorizes e r = Some a /\ no_call t2.
Proof.
  revert a. induction tr as [|[e r] tr IH] using rev_ind; intros a H; [done|].
  rewrite accepts_app in H. apply bind_Some in H as (m & Hm & H). cbn [accepts] in H.
  destruct (allowed m e) eqn:Al; [|done]. injection H as H.
  destruct (authorizes e r) as [a'|] eqn:Z.
  { rewrite (after_authorized _ _ _ _ Z) in H. injection H as ->. exists tr, e, r, []. split; [done|]. split; [done|constructor]. }
  assert (Hs : sends e = false).
  { destruct e; try done. simpl in *. unfold on in Al. destruct (_ =? c); [|done].
    destruct m; try done. by destruct r as [|[]]. }
  destruct (after_other m e r Hs Z) as [E|[E|(u & code & st & _ & E)]]; rewrite E in H; [|done..]. subst m.
  destruct (IH _ Hm) as (t1 & e1 & r1 & t2 & -> & Hz & Hn). exists t1, e1, r1, (t2 ++ [existT e r]).
  rewrite <-app_assoc. split; [done|]. split; [done|]. apply Forall_app. split; [done|]. by constructor.
Qed.

Definition auth_of (m : phase) : option auth :=
  match m with Idle => None | Ready u | Refused u _ _ | Gone u _ => Some u end.

(** What the vendor answered to the call of a resolved phase. *)
Definition answered (m : phase) (r : result exn text) : Prop :=
  match m with
  | Gone _ (Some task) => r = Ok task
  | Gone _ None => exists e, r = Raise e /\ forall code, e <> VendorApiError code
  | Refused _ code _ => r = Raise (VendorApiError code)
  | _ => False
  end.

(** A resolved phase comes from one vendor call under its authorization. *)
Lemma resolved_sent tr m u : accepts allowed after Idle tr = Some m ->
  (match m with Gone _ _ | Refused _ _ _ => True | _ => False end) -> auth_of m = Some u ->
  exists t1 phones ch (r : result exn text) t2,
    tr = t1 ++ existT (Send (au_vendor u) phones ch) r :: t2 /\ accepts allowed after Idle t1 = Some (Ready u) /\
    cp_chunk_id ch = c /\ answered m r /\ no_call t2.
Proof.
  revert m. induction tr as [|[e r] tr IH] using rev_ind; intros m' H Hm' Hu.
  { simpl in H. by simplify_eq. }
  rewrite accepts_app in H. apply bind_Some in H as (m & Hm & H). cbn [accepts] in H.
  destruct (allowed m e) eqn:Al; [|done]. injection H as H.
  destruct (authorizes e r) as [a'|] eqn:Z.
  { rewrite (after_authorized _ _ _ _ Z) in H. by subst m'. }
  destruct (sends e) eqn:Hs.
  - destruct e as [| | | | | | | | | | | | | | | | | | | | | | | | | | | | | | | | | | |v ph ch| |]; try done.
    simpl in *. rewrite Hs in *. unfold on in Al. rewrite Hs in Al. destruct m as [|w| |]; try done.
    apply teqb_spec in Al as <-. assert (u = w) as -> by (destruct r as [|[]]; subst m'; by simplify_eq/=).
    exists tr, ph, ch, r, []. bool_prop. split_and!; try done; [|constructor].
    destruct r as [task|e]; [by subst m'|]. destruct e; subst m'; simpl; naive_solver.
  - assert (K : (match m with Gone _ _ | Refused _ _ _ => True | _ => False end) /\ auth_of m = Some u /\
                forall q, answered m q -> answered m' q).
    { destruct (after_other m e r Hs Z) as [E|[E|(w & code & st & -> & E)]]; rewrite E in H; by subst m'. }
    destruct K as (Hk & Hk' & K).
    destruct (IH _ Hm Hk Hk') as (t1 & ph & ch & q & t2 & -> & Ht & Hc & Ha & Hn).
    exists t1, ph, ch, q, (t2 ++ [existT e r]). rewrite <-app_assoc. split_and!; auto.
    apply Forall_app. split; [done|]. by constructor.
Qed.

(** What the vendor was asked since the authorization of an attempt, if it was:
    one call, and its answer. *)
Definition asked_since (u : auth) (tr : list (entry answer exn)) (r : option (result exn text)) : Prop :=
  match r with
  | None => no_call tr
  | Some q => exists t1 phones ch t2, tr = t1 ++ existT (Send (au_vendor u) phones ch) q :: t2 /\
                cp_chunk_id ch = c /\ no_call t1 /\ no_call t2
  end.

(** The answer a phase stands for. *)
Definition phase_answer (m : phase) : option (result exn text) :=
  match m with
  | Refused _ code _ => Some (Raise (VendorApiError code))
  | Gone _ task => Some (gone_answer task)
  | _ => None
  end.
Lemma finalize_named m id g a : allowed m (FinalizeVendorAttempt id c g a) = true ->
  exists u, auth_of m = Some u /\ au_attempt u = id /\ au_generation u = g /\ records (phase_answer m) a = true.
Proof.
  cbn [allowed]. unfold on. rewrite Z.eqb_refl.
  destruct m as [|u|u code st|u task]; [done| | |]; intros [An Ar]%andb_prop; exists u; unfold names in An; bool_prop; done.
Qed.

Lemma finalized_after tr m id g a : accepts allowed after Idle tr = Some m ->
  allowed m (FinalizeVendorAttempt id c g a) = true ->
  exists t1 e q t2 u r, tr = t1 ++ existT e q :: t2 /\ authorizes e q = Some u /\ au_attempt u = id /\
    au_generation u = g /\ asked_since u t2 r /\ records r a = true.
Proof.
  intros H Al. destruct (finalize_named m id g a Al) as (u & Hu & Hid & Hg & Hr).
  destruct (decide (match m with Gone _ _ | Refused _ _ _ => true | _ => false end = true)) as [R|R].
  - destruct (resolved_sent tr m u H) as (t1 & ph & ch & q & t2 & -> & Ht & Hc & Ha & Hn); [by destruct m|done|].
    destruct (ready_authorized t1 u Ht) as (x1 & e & q' & x2 & -> & Hz & Hx).
    exists x1, e, q', (x2 ++ existT (Send (au_vendor u) ph ch) q :: t2), u, (Some q). rewrite <- app_assoc.
    split_and!; try done; [by exists x2, ph, ch, t2|].
    destruct m as [| |u' code st|u' [task|]]; try done; cbn in Ha; [by rewrite Ha..|].
    destruct Ha as (e' & -> & He). destruct e'; try exact Hr. by destruct (He code).
  - destruct m as [|u'| |]; try done. injection Hu as ->.
    destruct (ready_authorized tr u H) as (x1 & e & q' & x2 & -> & Hz & Hx). by exists x1, e, q', x2, u, None.
Qed.

Lemma monitored self depth chunk l b (w : world answer exn) :
  (forall h e, possible e (w h e)) ->
  exists m, accepts allowed after Idle (fst (exec w [] (submit self depth chunk l b))) = Some m.
Proof.
  intros Hw. destruct (wp_exec allowed after possible w (submit self depth chunk l b)
    (fun m' _ => ends chunk b Idle m') Idle [] Hw) as (t & m & -> & Hm & _); [|by exists m].
  by apply submit_ok_all.
Qed.

End Monitor.


(** ** A concrete run *)

Definition example_worker : SendWorker :=
  mkWorker [Routing.PRIMARY_VENDOR_ID] Routing.default_vendor_registry [Routing.PRIMARY_VENDOR_ID]
    false false false false false false 3.
Definition example_payload : ChunkPayload :=
  mkPayload 7 1 (tx "c1") [tx "13800000000"] (tx "hello") (tx "t") (tx "s") 0 0
    Routing.PRIMARY_VENDOR_ID 1 (tx "notice") ChunkStatus.pending None 1 None false.

(** Everything is granted and the vendor call times out. *)
Definition example_world : world answer exn := fun _ e =>
  match e return result exn (answer e) with
  | IsPaused _ => Ok false
  | Health => Ok []
  | ListVendorAttempts _ => Ok []
  | Acquire _ _ => Ok (Some 1000)
  | RefreshInvokePayload _ => Ok example_payload
  | RequireAllowed _ => Ok None
  | RequireFresh => Ok Fresh
  | MarketWindow => Ok Category.DEFAULT_MARKET_WINDOW
  | Clock => Ok 0
  | EligibleDispatchPhones ch => Ok (mkDispatch (cp_phones ch) 0 None SEND)
  | BlacklistGeneration => Ok 1
  | ClaimSubmission _ _ _ _ => Ok (mkSubmission CLAIMED None)
  | BeginVendorInvoke _ _ _ _ => Ok (1, 1)
  | FinalizeVendorAttempt _ _ _ a => Ok (bare_report APPLIED (fa_result a))
  | LoadAuthoritativeNextAction _ _ _ => Ok None
  | ScheduleRetry _ _ _ _ => Ok true
  | SplitOnce _ => Ok []
  | Send _ _ _ => Raise VendorTransportError
  | Refund _ _ | SetMarketDefer _ | MarkUncertain _ | CompleteVendorAttempt _ _ _ _ _
  | RecordFailure _ _ _ | RecordSuccess => Ok tt
  | _ => Raise OtherError
  end.

Lemma example_possible : forall h e, possible e (example_world h e).
Proof. intros h []; simpl; try done. split; [done|constructor]. Qed.

Definition example_trace : list (entry answer exn) :=
  fst (exec example_world [] (submit example_worker 5 example_payload realtime true)).

(** ** The properties *)

(** C3: the vendor is called only under a fresh authorization, and never again
    after a call whose outcome is unknown.  In every run of [submit], whatever
    the collaborators answer or raise, each vendor call of a chunk is preceded
    by the authorization of an attempt of this chunk at this vendor, with no
    other vendor call or authorization of the chunk in between; and unless the
    vendor answered with an error code, no later call of the run sends or
    authorizes this chunk. *)
Theorem called_once self depth chunk l allow_split (w : world answer exn) t1 v phones ch r t2 :
  (forall h e, possible e (w h e)) ->
  fst (exec w [] (submit self depth chunk l allow_split))
    = t1 ++ existT (Send v phones ch) r :: t2 ->
  (exists u1 e q u2 a, t1 = u1 ++ existT e q :: u2 /\ authorizes (cp_chunk_id ch) e q = Some a /\
     au_vendor a = v /\ no_call (cp_chunk_id ch) u2) /\
  ((forall code, r <> Raise (VendorApiError code)) -> no_call (cp_chunk_id ch) t2).
Proof.
  intros Hw E. destruct (monitored (cp_chunk_id ch) self depth chunk l allow_split w Hw) as [m Hm].
  rewrite E, accepts_app in Hm. apply bind_Some in Hm as (m1 & H1 & H2). cbn [accepts] in H2.
  simpl in H2. unfold on in H2. rewrite Z.eqb_refl in H2.
  destruct m1 as [|a| |]; try done. destruct (teqb _ v) eqn:V; [|done]. apply teqb_spec in V. split.
  - apply ready_authorized in H1 as (u1 & e & q & u2 & -> & Hz & Hn). by exists u1, e, q, u2, a.
  - intros Hr. destruct r as [task|e]; [by eapply gone_final|].
    destruct e; try by eapply gone_final. by destruct (Hr code).
Qed.

Lemma called_once_witness : exists t1 v phones ch r t2,
  example_trace = t1 ++ existT (Send v phones ch) r :: t2 /\ no_call 7 t2.
Proof.
  assert (E : exists t1 t2, example_trace = t1 ++ existT (Send Routing.PRIMARY_VENDOR_ID
      [tx "13800000000"] example_payload) (Raise VendorTransportError) :: t2).
  { exists (take 11 example_trace), (drop 12 example_trace). vm_compute. reflexivity. }
  destruct E as (t1 & t2 & E).
  destruct (called_once example_worker 5 example_payload realtime true example_world t1 _ _ _ _ t2
              example_possible E) as [_ H].
  do 6 eexists. split; [exact E|]. apply H. by intros code.
Defined.

(** C4: the worker records what the vendor answered.  Every finalize of a
    chunk in a run names an attempt the run was authorized for, and states the fate
    of the one vendor call made since this authorization.  If no call was made it
    records rejected, paused or failed, without task id or code.  If the call
    returned a task id it records submitted with this id.  If the vendor
    answered an error code it records this code with the retry, the delay or the
    follow-up its policy prescribes, and permits a failover exactly as the policy
    does.  Otherwise it records uncertain. *)
Theorem settled_truthfully self depth chunk l allow_split (w : world answer exn) t1 id c g a q t2 :
  (forall h e, possible e (w h e)) ->
  fst (exec w [] (submit self depth chunk l allow_split))
    = t1 ++ existT (FinalizeVendorAttempt id c g a) q :: t2 ->
  exists u1 e q' u2 u r, t1 = u1 ++ existT e q' :: u2 /\ authorizes c e q' = Some u /\
    au_attempt u = id /\ au_generation u = g /\ asked_since c u u2 r /\ records r a = true.
Proof.
  intros Hw E. destruct (monitored c self depth chunk l allow_split w Hw) as [m Hm].
  rewrite E, accepts_app in Hm. apply bind_Some in Hm as (m1 & H1 & H2). cbn [accepts] in H2.
  destruct (allowed c m1 _) eqn:Al; [|done]. by apply (finalized_after c t1 m1).
Qed.

Lemma settled_truthfully_witness : exists t1 id g a q t2 u u2 r,
  example_trace = t1 ++ existT (FinalizeVendorAttempt id 7 g a) q :: t2 /\
  asked_since 7 u u2 r /\ records r a = true.
Proof.
  assert (E : exists a q t1 t2, example_trace = t1 ++ existT (FinalizeVendorAttempt 1 7 1 a) q :: t2).
  { do 2 eexists. exists (take 12 example_trace), (drop 13 example_trace). vm_compute; reflexivity. }
  destruct E as (a & q & t1 & t2 & E).
  destruct (settled_truthfully example_worker 5 example_payload realtime true example_world
              t1 1 7 1 a q t2 example_possible E) as (u1 & e & q' & u2 & u & r & _ & _ & _ & _ & As & R).
  by exists t1, 1, 1, a, q, t2, u, u2, r.
Defined.
End WorkerSafety.
