(* ===== verification/SendSystem.v ===== *)
(** * The sending system: workers, database and recovery together

    Any number of workers run [submit] ([tasks/send.py]) on one database, at the
    same time as the recovery job and every other transaction.  A worker makes
    one call at a time; each store call is one transaction, whose answer may be
    lost after it committed or fail before it ran; a vendor call is launched and
    answered later, or never.

    The theorem: whatever the interleaving, the vendor calls of a chunk are
    never two that may both have been accepted.  All calls launched for it but
    one have been answered with an error code. *)

From S2P Require Import Prelude PyText Category VendorCodes Routing Failover.
From S2P Require Import OutboxContract Outbox Effects SendState SendStore SendSafety SendWorker.
From S2P Require Import WorkerSafety.

Module SendSystem.
Import SendState SendStore SendSafety SendWorker WorkerSafety.

(** ** What the calls of a worker do to the database *)

(** Transactions that write no attempt and put no chunk into the state of a
    split that waits for capacity. *)
Definition waits_split (s : db) (c : Z) : Prop :=
  exists ch, chunks s !! c = Some ch /\ Chunk.status ch = ChunkStatus.split_capacity_blocked.

Definition leaves (s s' : db) : Prop :=
  attempts s' = attempts s /\ next_attempt_id s' = next_attempt_id s /\
  forall c, waits_split s' c -> waits_split s c.

Section System.
Context (registry : list Routing.VendorRecord) (pseudonym : text -> text) (ambient : option Z).

(** The transaction of a store call that writes no attempt; the clock, the mode
    of the live test, the recipients it denies and the text of an error message
    are read where the call runs. *)
Definition chunk_tx (now : Z) (live : bool) (denied : Z -> Z) (message : text) (e : call)
    : option (tx_ unit) :=
  let run {A} (m : tx_ A) : option (tx_ unit) := Some (_ ← m; mret tt) in
  match e with
  | ClaimSubmission c retry segments enforce => 
      run (claim_submission now c retry segments enforce live denied)
  | DeferDailyLimit c _ reset_at => run (defer_daily_limit c reset_at)
  | ScheduleRetry c code retry d => run (schedule_retry now c code retry d)
  | Delay c code d => run (delay now c code d)
  | BalanceBlocked b c => run (balance_blocked now b c)
  | PauseBlocked c code => run (pause_blocked now c code)
  | MarkFailed c code => run (mark_failed now c code message)
  | MarkUncertain c => run (mark_uncertain now c)
  | MarkSubmitted c task => run (mark_submitted now c (pseudonym task))
  | ReleaseControlClaim c => run (release_control_claim now c)
  | RejectDisallowedRecipient c n => run (reject_disallowed_recipient now c n)
  | _ => None
  end.

(** The calls without a transaction on these tables. *)
Definition no_tx (e : call) : bool :=
  match e with
  | IsPaused _ | Health | ListVendorAttempts _ | Acquire _ _ | Refund _ _ | Sleep
  | RefreshInvokePayload _ | RequireAllowed _ | RequireFresh | PauseControlAgentStale
  | MarketWindow | Clock | SetMarketDefer _ | EligibleDispatchPhones _ | BlacklistGeneration
  | PauseDailyLimit _ _ | LoadAuthoritativeNextAction _ _ _ | PauseQueues _ | RecordFailure _ _ _
  | RecordSuccess => true
  | _ => false
  end.

(** A call runs: its effect and its answer. *)
Inductive runs (s : db) : forall e, result exn (answer e) -> db -> Prop :=
| run_begin now c v ad r id a s' :
    transaction (begin_vendor_invoke now c v ad r) s = (Ok (id, a), s') ->
    runs s (BeginVendorInvoke c v ad r) (Ok (id, Attempt.generation a)) s'
| run_claim now c g p v pv seg enforce denied live cl s' :
    claim_next_vendor_invoke registry now c denied (mkClaimArgs g p v pv seg enforce live) s
      = (Ok cl, s') ->
    runs s (ClaimNextVendorInvoke c g p v pv seg enforce) (Ok cl) s'
| run_finalize now id c g a rep retry s' :
    finalize_vendor_attempt registry pseudonym ambient now id c g a s = (Ok (rep, retry), s') ->
    runs s (FinalizeVendorAttempt id c g a) (Ok rep) s'
| run_complete now c id o safe code b s' :
    transaction (complete_vendor_attempt now id o safe code) s = (Ok b, s') ->
    runs s (CompleteVendorAttempt c id o safe code) (Ok tt) s'
| run_record now c v g o safe code x s' :
    transaction (record_vendor_attempt now c v g o safe code) s = (Ok x, s') ->
    runs s (RecordVendorAttempt c v g o safe code) (Ok tt) s'
| run_split_single ch : (length (cp_phones ch) < 2)%nat -> runs s (SplitOnce ch) (Ok []) s
| run_split now ch expansion ids children s' :
    (2 <= length (cp_phones ch))%nat ->
    transaction (complete_vendor_split ambient now (cp_chunk_id ch) (cp_batch_id ch)
                   (cp_custom_id ch) expansion) s = (Ok ids, s') ->
    cp_chunk_id <$> children = ids ->
    runs s (SplitOnce ch) (Ok children) s'
| run_chunk now live denied message e m r :
    chunk_tx now live denied message e = Some m -> ordinary r -> runs s e r (snd (transaction m s))
| run_nothing e r : no_tx e = true -> ordinary r -> runs s e r s.

(** Its answer may be lost, or it may fail without an effect. *)
Inductive served (s : db) (e : call) (r : result exn (answer e)) (s' : db) : Prop :=
| served_ok : runs s e r s' -> served s e r s'
| served_lost r0 ex : runs s e r0 s' -> r = Raise ex -> vendor_error ex = false -> served s e r s'
| served_failed ex : s' = s -> r = Raise ex -> vendor_error ex = false -> served s e r s'.

(** ** The system *)

(** A worker's task: what is left of its program, and whether its vendor call
    is under way. *)
Record thread := mkThread { th_prog : worker SubmitOutcome; th_calling : bool }.

Inductive sevent :=
| Launched (chunk_id : Z)
| Answered (chunk_id : Z) (r : result exn text).

Record system := mkSystem { sy_db : db; sy_threads : list thread; sy_log : list sevent }.

Inductive background (s : db) : db -> Prop :=
| bg_recover now : background s (snd (transaction (recover_stalled now) s))
| bg_repair now n :
    background s (snd (transaction (repair_legacy_safe_reject_submitting registry ambient now n) s))
| bg_retry_splits now n expansion :
    background s (snd (transaction (retry_capacity_blocked_splits ambient now n expansion) s))
| bg_requeue now : background s (snd (transaction (requeue_stalled ambient now) s))
| bg_other s' : leaves s s' -> background s s'.

Inductive sstep (y : system) : system -> Prop :=
| ss_start self depth chunk l allow_split :
    sstep y (mkSystem (sy_db y)
               (sy_threads y ++ [mkThread (submit self depth chunk l allow_split) false]) (sy_log y))
| ss_call i e k r s' :
    sy_threads y !! i = Some (mkThread (Call e k) false) ->
    served (sy_db y) e r s' ->
    sstep y (mkSystem s' (<[i := mkThread (k r) false]> (sy_threads y)) (sy_log y))
| ss_launch i v phones ch k :
    sy_threads y !! i = Some (mkThread (Call (Send v phones ch) k) false) ->
    sstep y (mkSystem (sy_db y) (<[i := mkThread (Call (Send v phones ch) k) true]> (sy_threads y))
               (Launched (cp_chunk_id ch) :: sy_log y))
| ss_answer i v phones ch k (r : result exn text) :
    sy_threads y !! i = Some (mkThread (Call (Send v phones ch) k) true) ->
    sstep y (mkSystem (sy_db y) (<[i := mkThread (k r) false]> (sy_threads y))
               (Answered (cp_chunk_id ch) r :: sy_log y))
| ss_background s' :
    background (sy_db y) s' -> sstep y (mkSystem s' (sy_threads y) (sy_log y)).

(** Before the first attempt: no attempt, no worker. *)
Definition start (y : system) : Prop :=
  attempts (sy_db y) = ∅ /\ sy_threads y = [] /\ sy_log y = [].

Definition is_launch (c : Z) (ev : sevent) : bool :=
  match ev with Launched c' => c' =? c | _ => false end.
Definition is_refusal (c : Z) (ev : sevent) : bool :=
  match ev with Answered c' (Raise (VendorApiError _)) => c' =? c | _ => false end.

Definition count_events (P : sevent -> bool) (l : list sevent) : Z :=
  Z.of_nat (length (List.filter P l)).
Definition launched (c : Z) (y : system) : Z := count_events (is_launch c) (sy_log y).
Definition answered_error (c : Z) (y : system) : Z := count_events (is_refusal c) (sy_log y).

End System.

(** ** The effect of a transaction on attempts and waiting splits *)

(** An attempt in flight may be released when [Q] allows it, or settled to an
    outcome that still blocks; every other attempt is kept. *)
Definition settled (Q : Z -> Z -> Prop) (i : Z) (o o' : option Attempt.t) : Prop :=
  match o, o' with
  | None, None => True
  | Some a, Some a' =>
      identity a' = identity a /\ (Attempt.outcome a <> Outcome.invoking -> a' = a) /\
      (Attempt.outcome a = Outcome.invoking -> Q i (Attempt.chunk_id a) \/ blocking a' = true)
  | _, _ => False
  end.

Record effect (Q : Z -> Z -> Prop) (X : Z -> Prop) (s s' : db) : Prop := {
  ef_next : next_attempt_id s' = next_attempt_id s;
  ef_attempts : forall i, settled Q i (attempts s !! i) (attempts s' !! i);
  ef_waits : forall c, waits_split s' c -> waits_split s c \/ X c }.

Definition nothing : Z -> Prop := fun _ => False.
Definition none_of : Z -> Z -> Prop := fun _ _ => False.

Section Effect.
Context (Q : Z -> Z -> Prop) (X : Z -> Prop).

Lemma settled_refl i o : settled Q i o o.
Proof. destruct o as [a|]; [|done]. split_and!; try done. intros H. right. by apply invoking_blocks. Qed.

Lemma settled_trans i o1 o2 o3 : settled Q i o1 o2 -> settled Q i o2 o3 -> settled Q i o1 o3.
Proof.
  destruct o1 as [a|], o2 as [b|], o3 as [d|]; simpl; try done.
  intros (Hi & Hk & Hv) (Hi' & Hk' & Hv'). split_and!; [congruence| |].
  - intros Hn. specialize (Hk Hn). subst b. auto.
  - intros Ho. destruct (Hv Ho) as [|B]; [by left|].
    destruct (decide (Attempt.outcome b = Outcome.invoking)) as [Eb|Nb].
    + unfold identity in Hi. injection Hi as Hc _ _. rewrite <-Hc. auto.
    + right. by rewrite (Hk' Nb).
Qed.

#[export] Instance effect_preorder : PreOrder (effect Q X).
Proof.
  split.
  - intros s. split; [done|intros i; apply settled_refl|by left].
  - intros s1 s2 s3 [N1 A1 W1] [N2 A2 W2]. split; [congruence| |].
    + intros i. by eapply settled_trans.
    + intros c Hc. destruct (W2 c Hc) as [H|H]; [auto|by right].
Qed.

Lemma effect_leaves s s' : leaves s s' -> effect Q X s s'.
Proof.
  intros (E & N & W). split; [done| |]; [|by left; apply W].
  intros i. rewrite E. apply settled_refl.
Qed.

Lemma effect_same_chunks s s' : attempts s' = attempts s -> next_attempt_id s' = next_attempt_id s ->
  chunks s' = chunks s -> effect Q X s s'.
Proof. intros E N C. apply effect_leaves. split_and!; try done. unfold waits_split. by rewrite C. Qed.

Lemma effect_in_outbox {A} (m : stex Outbox.db exc A) : within (effect Q X) (in_outbox m).
Proof.
  intros s x s'. unfold in_outbox. destruct (m (outbox s)) as [[y o]|]; [|done].
  intros [= <- <-]. by apply effect_same_chunks.
Qed.

(** The update does not put the chunk into the waiting state. *)
Lemma effect_update_chunk i g f :
  (forall c, Chunk.status (f c) = ChunkStatus.split_capacity_blocked ->
     Chunk.status c = ChunkStatus.split_capacity_blocked \/ X i) ->
  within (effect Q X) (update_chunk i g f).
Proof.
  intros Hf s x s'. unfold update_chunk. intros H. apply stex_bind_ok in H as (s0 & s1 & [= <- <-] & H).
  destruct (chunks s !! i) as [c|] eqn:E; [|injection H as <- <-; reflexivity].
  destruct (g c); [|injection H as <- <-; reflexivity].
  apply stex_bind_ok in H as (u & s2 & [= <- <-] & [= <- <-]).
  split; [done|intros j; apply settled_refl|]. intros d (ch & Hd & St). simpl in Hd.
  apply lookup_insert_Some in Hd as [[<- <-]|[_ Hd]]; [|left; by exists ch].
  destruct (Hf c St); [left; by exists c|by right].
Qed.

End Effect.

#[local] Hint Resolve effect_in_outbox : within.
#[local] Hint Extern 1 (within (effect _ _) (modify _)) =>
  (apply within_modify; intros ?; by apply effect_same_chunks) : within.
#[local] Hint Extern 2 (within (effect _ _) (update_chunk _ _ _)) =>
  (apply effect_update_chunk; intros ?; simpl; first [discriminate | by left | by intros; case_match; left]) : within.

Section Effects.
Context {Q : Z -> Z -> Prop} {X : Z -> Prop}.
Abbreviation eff := (within (effect Q X)).

Lemma eff_settle_test i st : eff (settle_live_test_attempt i st).
Proof. unfold settle_live_test_attempt. within_tac. Qed.
Lemma eff_set_unreported i l st : eff (set_unreported i l st).
Proof. unfold set_unreported. within_tac. Qed.
Lemma eff_update_batch i f : eff (update_batch i f).
Proof. unfold update_batch. within_tac. Qed.
Lemma eff_touch_batch now i : eff (touch_batch now i).
Proof. apply eff_update_batch. Qed.
#[local] Hint Resolve eff_settle_test eff_set_unreported eff_update_batch eff_touch_batch : within.

Lemma eff_finalize_failed now i b : eff (_finalize_failed_messages now i b).
Proof. unfold _finalize_failed_messages. within_tac. Qed.
Lemma eff_reserve now i n k : eff (_reserve_submission_budget now i n k).
Proof. unfold _reserve_submission_budget. within_tac. Qed.
#[local] Hint Resolve eff_finalize_failed eff_reserve : within.

Lemma eff_claim_submission now c r n e l d : eff (claim_submission now c r n e l d).
Proof. unfold claim_submission, mark_submitting. within_tac. Qed.

Lemma eff_update_and_settle i g f st :
  eff (update_chunk i g f) -> eff (update_and_settle i g f st).
Proof. intros H. unfold update_and_settle. within_tac. Qed.
Lemma eff_fail_chunk now i g f : eff (update_chunk i g f) -> eff (fail_chunk now i g f).
Proof. intros H. unfold fail_chunk. within_tac. Qed.
#[local] Hint Extern 1 (within (effect _ _) (update_and_settle _ _ _ _)) =>
  (apply eff_update_and_settle; solve [eauto 2 with within]) : within.
#[local] Hint Extern 1 (within (effect _ _) (fail_chunk _ _ _ _)) =>
  (apply eff_fail_chunk; solve [eauto 2 with within]) : within.

(** The store calls that write no attempt. *)
Lemma eff_chunk_tx ps now live denied msg e m : chunk_tx ps now live denied msg e = Some m -> eff m.
Proof.
  pose proof eff_claim_submission.
  destruct e; simpl; try done; intros [= <-];
    unfold defer_daily_limit, schedule_retry, delay, balance_blocked, pause_blocked, mark_failed,
      mark_uncertain, mark_submitted, release_control_claim, reject_disallowed_recipient; within_tac.
Qed.

(** A settlement of one attempt: released when [Q] allows it, or to an outcome
    that still blocks. *)
Lemma eff_settle_attempt id f :
  (forall a, Q id (Attempt.chunk_id a) \/ blocking (f a) = true) ->
  (forall a, identity (f a) = identity a) -> eff (settle_attempt id f).
Proof.
  intros HQ Hf s x s' H. unfold settle_attempt in H.
  apply stex_bind_ok in H as (s0 & s1 & [= <- <-] & H).
  destruct (attempts s !! id) as [a|] eqn:E; [|injection H as <- <-; reflexivity].
  case_bool_decide as O; [|injection H as <- <-; reflexivity].
  apply stex_bind_ok in H as (u & s2 & [= <- <-] & [= <- <-]). split; [done| |by left].
  intros i. simpl. destruct (decide (i = id)) as [->|N]; [|rewrite lookup_insert_ne by done; apply settled_refl].
  rewrite E, lookup_insert_eq. split_and!; [by apply Hf|done|]. intros _. apply HQ.
Qed.

Definition outcome_blocks (o : Outcome.t) : Prop := o ∈ Failover.BLOCKING_ATTEMPT_OUTCOMES.

Lemma eff_complete now id o safe code : (forall c, Q id c) \/ outcome_blocks o ->
  eff (complete_vendor_attempt now id o safe code).
Proof.
  intros H. apply eff_settle_attempt; [|done]. intros a. destruct H as [H|H]; [left; apply H|right].
  unfold blocking. by apply bool_decide_true_iff.
Qed.

Lemma eff_need {A} r (m : tx_ (option A)) : eff m -> eff (need r m).
Proof. intros H. unfold need. within_tac. Qed.
#[local] Hint Resolve eff_need : within.

Lemma eff_reject reg amb now i ctx aid g r code safe why :
  eff (_apply_reject_or_fail reg amb now i ctx aid g r code safe why).
Proof. unfold _apply_reject_or_fail. within_tac. Qed.
#[local] Hint Resolve eff_reject : within.

Lemma eff_finalize_chunk reg ps amb now i aid g ctx a r safe ex :
  eff (finalize_chunk reg ps amb now i aid g ctx a r safe ex).
Proof. unfold finalize_chunk. within_tac. Qed.

#[local] Hint Resolve eff_finalize_chunk : within.

Lemma eff_finalize_body reg ps amb now id c g a :
  (forall c, Q id c) \/ (outcome_blocks (fa_result a) /\ fa_result a <> Outcome.delayed) ->
  eff (finalize_body reg ps amb now id c g a).
Proof.
  intros H. unfold finalize_body. cbv zeta.
  within_tac; apply within_fin, eff_complete; (destruct H as [H|[H N]]; [by left|right]);
    bool_prop; done.
Qed.

Lemma eff_finalize reg ps amb now id c g a s r s' :
  (forall c, Q id c) \/ (outcome_blocks (fa_result a) /\ fa_result a <> Outcome.delayed) ->
  finalize_vendor_attempt reg ps amb now id c g a s = (r, s') -> effect Q X s s'.
Proof.
  intros H. unfold finalize_vendor_attempt. case_match; [intros [= <- <-]; reflexivity|].
  pose proof (within_transaction _ _ s (eff_finalize_body reg ps amb now id c g a H)) as M.
  destruct (transaction _ s) as [[x|[x|e]] t]; intros [= <- <-]; exact M.
Qed.

(** Recovery settles to outcomes that block. *)
Lemma recover_attempt_settled now s ids i a :
  settled Q i (Some a) (Some (recover_attempt now s ids a)).
Proof.
  destruct (recover_attempt_settles now s ids a) as [Hi Hk]. split_and!; [done|done|].
  intros Ho. right. unfold recover_attempt. repeat case_match; try done. by apply invoking_blocks.
Qed.

Lemma eff_recover now : eff (recover_stalled now).
Proof.
  intros s x s' H. unfold recover_stalled in H.
  apply stex_bind_ok in H as (s0 & s1 & [= <- <-] & H). cbv zeta in H.
  do 3 (apply stex_bind_ok in H as (? & ? & [= <- <-] & H)). injection H as <- <-.
  split; [done| |].
  - intros i. simpl. rewrite lookup_fmap. destruct (attempts s !! i) as [a|]; [|done]. simpl.
    apply recover_attempt_settled.
  - intros c (ch & Hc & St). left. simpl in Hc. rewrite map_lookup_imap in Hc.
    destruct (chunks s !! c) as [ch0|] eqn:E; [|done]. simpl in Hc. injection Hc as <-.
    exists ch0. split; [done|]. revert St. unfold recover_chunk. by case_match.
Qed.

Lemma eff_repair reg amb now n : eff (repair_legacy_safe_reject_submitting reg amb now n).
Proof.
  unfold repair_legacy_safe_reject_submitting.
  assert (R : forall i aid, eff (repair_one reg amb now i aid)) by (intros; unfold repair_one; within_tac).
  assert (L : forall ids k, eff (repair_each reg amb now ids k)).
  { intros ids. induction ids as [|[]]; intros k; simpl; within_tac. }
  within_tac.
Qed.

Lemma eff_requeue amb now : eff (requeue_stalled amb now).
Proof.
  assert (L : forall l, eff (requeue_each amb now l)).
  { intros l. induction l as [|[]]; simpl; within_tac. }
  unfold requeue_stalled. within_tac.
Qed.

End Effects.

(** ** Splits *)

(** Splitting the chunks of [X] releases their attempts and nothing else. *)
Section Split.
Context (X : Z -> Prop).
Abbreviation eff := (within (effect (fun _ c => X c) X)).

Lemma eff_settle_split now c : X c -> eff (_settle_split_vendor_attempt now c).
Proof.
  intros Hc s x s' [= <- <-]. split; [done| |by left]. intros i. simpl. rewrite lookup_fmap.
  destruct (attempts s !! i) as [a|]; [|done]. simpl. destruct (_ && _) eqn:E; bool_prop.
  - subst c. split_and!; [done|done|]. intros _. by left.
  - apply (settled_refl _ i (Some a)).
Qed.

Lemma eff_insert_child c : Chunk.status c <> ChunkStatus.split_capacity_blocked -> eff (insert_child c).
Proof.
  intros Hc. unfold insert_child. within_tac. apply within_modify. intros t.
  split; [done|intros i; apply settled_refl|]. intros d (ch & Hd & St). left. simpl in Hd.
  apply lookup_insert_Some in Hd as [[<- <-]|[_ Hd]]; [done|]. by exists ch.
Qed.

#[local] Hint Resolve eff_settle_split eff_settle_test eff_update_batch : within.
#[local] Hint Extern 3 (within (effect _ _) (update_chunk _ _ _)) =>
  (apply effect_update_chunk; intros ?; simpl; by right) : within.

Lemma eff_create_child b n p o sg cu gr : eff (create_child b n p o sg cu gr).
Proof.
  assert (I : eff (insert_child (child_row b n (take 24 cu ++ pad8 n) (Z.of_nat (length gr)) p o)))
    by (by apply eff_insert_child).
  unfold create_child, move_messages. within_tac.
Qed.
#[local] Hint Resolve eff_create_child : within.

Lemma eff_split amb now c b cu ex : X c -> eff (complete_vendor_split amb now c b cu ex).
Proof.
  intros Hc. unfold complete_vendor_split, _create_split_children, _mark_split_capacity_blocked.
  within_tac.
Qed.

Lemma eff_retry_splits amb now ex ids n : Forall X ids -> eff (retry_splits amb now ex ids n).
Proof.
  intros HF. revert n. induction HF as [|c ids Hc HF IH]; intros n; simpl; [within_tac|].
  pose proof (eff_split amb now c). within_tac; eauto.
Qed.

End Split.

(** ** Waiting splits have no attempt in flight *)

Definition idle_on (s : db) (c : Z) : Prop :=
  forall i a, attempts s !! i = Some a -> Attempt.chunk_id a = c -> Attempt.outcome a <> Outcome.invoking.
Definition waits_idle (s : db) : Prop := forall c, waits_split s c -> idle_on s c.

Lemma effect_idle Q X s s' c : effect Q X s s' -> idle_on s c -> idle_on s' c.
Proof.
  intros [_ A _] Hi i a' Ha' Hc Ho. specialize (A i). rewrite Ha' in A.
  destruct (attempts s !! i) as [a|] eqn:E; [|done]. destruct A as (Hid & Hk & _).
  unfold identity in Hid. injection Hid as Hid _ _.
  destruct (decide (Attempt.outcome a = Outcome.invoking)) as [O|O].
  - apply (Hi i a); [done|congruence|done].
  - by rewrite (Hk O) in Ho.
Qed.

Lemma effect_waits_idle Q X s s' : effect Q X s s' -> waits_idle s ->
  (forall c, X c -> waits_split s' c -> idle_on s' c) -> waits_idle s'.
Proof.
  intros E W HX c Hc. destruct (ef_waits _ _ _ _ E c Hc) as [H|H]; [|by apply HX].
  eapply effect_idle; [exact E|by apply W].
Qed.

Lemma settle_split_idle now c s x s' : _settle_split_vendor_attempt now c s = Ok (x, s') -> idle_on s' c.
Proof.
  intros [= <- <-] i a' Ha' Hc. simpl in Ha'. rewrite lookup_fmap in Ha'.
  destruct (attempts s !! i) as [a|]; [|done]. simpl in Ha'. injection Ha' as <-.
  destruct (_ && _) eqn:E; [done|]. intros Ho.
  by rewrite Hc, Z.eqb_refl, bool_decide_eq_true_2 in E.
Qed.

Section SplitIdle.
Context (c : Z).
Abbreviation eff0 := (within (effect (fun _ d => d = c) (fun d => d = c))).

(** Steps after the settlement keep the chunk idle. *)
Lemma idle_after {A B} (m : tx_ A) (f : A -> tx_ B) s r s' :
  (forall s x s', m s = Ok (x, s') -> idle_on s' c) -> (forall x, eff0 (f x)) ->
  (m ≫= f) s = Ok (r, s') -> idle_on s' c.
Proof.
  intros Hm Hf H. apply stex_bind_ok in H as (x & s1 & H1 & H2).
  eapply effect_idle; [by eapply Hf|by eapply Hm].
Qed.

Lemma create_children_idle amb now b cu s r s' :
  _create_split_children amb now c b cu s = Ok (r, s') -> idle_on s' c.
Proof.
  unfold _create_split_children. intros H. apply stex_bind_ok in H as ([ch|] & s1 & _ & H); [|done].
  apply stex_bind_ok in H as (u0 & s2 & _ & H). revert H. apply idle_after.
  - intros t u t'. apply settle_split_idle.
  - intros u. pose proof (eff_create_child (fun d => d = c)). within_tac.
Qed.

Lemma split_waits_idle amb now b cu ex s r s' : waits_idle s ->
  complete_vendor_split amb now c b cu ex s = Ok (r, s') -> waits_idle s'.
Proof.
  intros W H. pose proof (eff_split (fun d => d = c) amb now c b cu ex eq_refl s r s' H) as E.
  enough (waits_split s' c -> idle_on s' c) as K
    by (eapply effect_waits_idle; [exact E|done|]; intros d -> ?; by apply K).
  intros Wc. unfold complete_vendor_split in H.
  apply stex_bind_ok in H as (s0 & s1 & [= <- <-] & H).
  assert (Same : s' = s -> idle_on s' c) by (intros ->; by apply W).
  destruct (_existing_split_children c s) as [|x [|y [|]]];
    [|done|by injection H as <- <-; apply Same|done].
  destruct (chunks s !! c) as [ch|]; [|by injection H as <- <-; apply Same].
  destruct (negb _); [by injection H as <- <-; apply Same|].
  apply stex_bind_ok in H as (expanded & s1 & H1 & H).
  assert (s1 = s) as ->.
  { destruct ex as [r0|]; [by apply Outbox.lift_ok in H1 as [_ ->]|by injection H1 as <- <-]. }
  destruct expanded; [by eapply create_children_idle|].
  apply stex_bind_ok in H as (? & s2 & H & [= <- <-]). unfold _mark_split_capacity_blocked in H.
  apply stex_bind_ok in H as ([ch'|] & s3 & H3 & H).
  - apply stex_bind_ok in H as (? & s4 & _ & H). by eapply settle_split_idle.
  - injection H as <- <-. apply Same. unfold update_chunk in H3.
    apply stex_bind_ok in H3 as (t & t1 & [= <- <-] & H3). destruct (chunks s !! c); [|by injection H3].
    destruct (splittable _); [|by injection H3]. by apply stex_bind_ok in H3 as (? & ? & [= <- <-] & [=]).
Qed.

End SplitIdle.

Lemma retry_waits_idle amb now n ex s r s' : waits_idle s ->
  retry_capacity_blocked_splits amb now n ex s = Ok (r, s') ->
  waits_idle s' /\ effect none_of (waits_split s) s s'.
Proof.
  intros W H. unfold retry_capacity_blocked_splits in H.
  apply stex_bind_ok in H as (s0 & s1 & [= <- <-] & H). cbv zeta in H.
  apply (eff_retry_splits (waits_split s)) in H.
  - split.
    + eapply effect_waits_idle; [exact H|done|]. intros c Hc _. eapply effect_idle; [exact H|by apply W].
    + destruct H as [N A Hw]. split; [done| |done]. intros i. specialize (A i). unfold settled in *.
      destruct (attempts s !! i) as [a|] eqn:E, (attempts s' !! i); try done.
      destruct A as (A1 & A2 & A3). split_and!; try done. intros Ho.
      destruct (A3 Ho) as [Q|B]; [|by right]. by destruct (W _ Q i a E eq_refl).
  - apply Forall_take, Forall_forall. intros c Hc. rewrite sorting.merge_sort_Permutation in Hc.
    apply list_elem_of_fmap in Hc as ([i ch] & -> & Hin). apply list_elem_of_In, List.filter_In in Hin as [Hin St].
    apply list_elem_of_In, elem_of_map_to_list in Hin. exists ch. split; [done|].
    unfold in_status in St. simpl in St. apply bool_decide_eq_true in St. set_solver.
Qed.

(** ** The calls that write an attempt *)

Record adds (a : Attempt.t) (s s' : db) : Prop := {
  ad_attempts : attempts s' = <[next_attempt_id s := a]> (attempts s);
  ad_next : next_attempt_id s' = next_attempt_id s + 1;
  ad_waits : forall c, waits_split s' c ->
    waits_split s c /\ (Attempt.outcome a = Outcome.invoking -> c <> Attempt.chunk_id a) }.

Lemma adds_waits_idle a s s' : adds a s s' -> waits_idle s -> waits_idle s'.
Proof.
  intros [E _ W] I c Hc i b Hb Hcb Ho. destruct (W c Hc) as [Hw N]. rewrite E in Hb.
  apply lookup_insert_Some in Hb as [[_ <-]|[_ Hb]]; [by apply N|by apply (I c Hw i b)].
Qed.

Lemma update_chunk_ok i g f s r s' : update_chunk i g f s = Ok (r, s') ->
  (r = None /\ s' = s) \/
  (exists c, chunks s !! i = Some c /\ g c = true /\ s' = set_chunks (<[i := f c]>) s).
Proof.
  unfold update_chunk. intros H. apply stex_bind_ok in H as (s0 & s1 & [= <- <-] & H).
  destruct (chunks s !! i) as [c|]; [|injection H as <- <-; by left].
  destruct (g c) eqn:G; [|injection H as <- <-; by left].
  apply stex_bind_ok in H as (? & ? & [= <- <-] & [= <- <-]). right. by exists c.
Qed.

(** The row is inserted and its chunk updated. *)
Lemma insert_update_adds c a g f s id s1 r s' :
  insert_attempt a s = Ok (id, s1) -> Attempt.chunk_id a = c -> update_chunk c g f s1 = Ok (r, s') ->
  (forall ch, chunks s !! c = Some ch -> g ch = true ->
     Chunk.status (f ch) = ChunkStatus.split_capacity_blocked ->
     Chunk.status ch = ChunkStatus.split_capacity_blocked /\ Attempt.outcome a <> Outcome.invoking) ->
  (r = None -> waits_split s c -> Attempt.outcome a <> Outcome.invoking) ->
  id = next_attempt_id s /\ adds a s s'.
Proof.
  intros (-> & -> & _)%insert_attempt_ok <- H Hf HN. split; [done|].
  apply update_chunk_ok in H as [[Hr ->]|(c & Hc & G & ->)]; (split; [done|done|]); intros d Hd.
  - split; [done|]. intros Ho ->. by apply (HN Hr Hd).
  - destruct Hd as (ch & Hd & St). simpl in Hd, Hc.
    apply lookup_insert_Some in Hd as [[<- <-]|[N Hd]].
    + destruct (Hf c Hc G St) as [K1 K2]. split; [by exists c|done].
    + split; [by exists ch|]. intros _ ->. by apply N.
Qed.

Lemma lock_send_context_chunk c s ctx : lock_send_context c s = Some ctx ->
  chunks s !! c = Some (lc_chunk ctx).
Proof.
  unfold lock_send_context. intros L. destruct (chunks s !! c) as [ch|]; [|done]. simpl in L.
  destruct (batches s !! Chunk.batch_id ch); [|done]. by injection L as <-.
Qed.

Lemma begin_adds now c v ad r s id a s' : begin_vendor_invoke now c v ad r s = Ok ((id, a), s') ->
  id = next_attempt_id s /\ adds a s s' /\ Attempt.chunk_id a = c /\ blocking a = true.
Proof.
  unfold begin_vendor_invoke. intros H.
  apply stex_bind_ok in H as (s0 & s1 & [= <- <-] & H).
  destruct (lock_send_context c s) as [ctx|] eqn:L; [|done]. apply lock_send_context_chunk in L.
  apply stex_bind_ok in H as (? & ? & [_ ->]%Outbox.lift_ok & H).
  apply stex_bind_ok in H as (? & ? & [Hf ->]%Outbox.lift_ok & H). apply require_ok in Hf. bool_prop.
  apply stex_bind_ok in H as (? & ? & [_ ->]%Outbox.lift_ok & H). cbv zeta in H.
  apply stex_bind_ok in H as (id' & s1 & HI & H). apply stex_bind_ok in H as (u & s2 & HU & H).
  injection H as <- <- <-.
  assert (St : forall ch, chunks s !! c = Some ch -> Chunk.status ch <> ChunkStatus.split_capacity_blocked)
    by (intros ch Hc; simplify_eq; intros E; rewrite E in Hf; set_solver).
  apply (insert_update_adds c _ _ _ _ _ _ _ _ HI eq_refl) in HU as [-> HA]; [done| |].
  - intros ch Hc _ E. by destruct (St ch Hc).
  - intros _ (ch & Hc & E). by destruct (St ch Hc).
Qed.

Lemma record_adds now c v g o safe code s x s' : o <> Outcome.invoking ->
  record_vendor_attempt now c v g o safe code s = Ok (x, s') -> exists a, adds a s s' /\ 
    Attempt.outcome a = o /\ Attempt.chunk_id a = c.
Proof.
  intros Ho. unfold record_vendor_attempt. intros H. apply stex_bind_ok in H as (id & s1 & HI & H).
  apply stex_bind_ok in H as (u & s2 & HU & [= <- <-]). eexists.
  apply (insert_update_adds c _ _ _ _ _ _ _ _ HI eq_refl) in HU as [_ HA]; [split; [exact HA|done]|done..].
Qed.

Lemma authorize_adds now c a ch s cl s' : authorize_next now c a ch s = Ok (cl, s') ->
  (exists u at_, Failover.authorization cl = Some u /\ Failover.attempt_id u = next_attempt_id s /\
     adds at_ s s' /\ Attempt.chunk_id at_ = c /\ blocking at_ = true) \/
  (Failover.kind cl <> Failover.AUTHORIZED /\ effect none_of nothing s s').
Proof.
  unfold authorize_next. cbv zeta. intros H.
  apply stex_bind_ok in H as (budget & s1 & HB & H).
  assert (K : attempts s1 = attempts s /\ next_attempt_id s1 = next_attempt_id s /\
              forall d, waits_split s1 d -> waits_split s d).
  { destruct (ca_enforce_budget a); [|by injection HB as <- <-].
    pose proof (reserve_attempts _ _ _ _ _ _ _ HB) as [? ?]. split_and!; try done.
    intros d Hd. apply (eff_reserve (Q := none_of) (X := nothing)) in HB as [_ _ W].
    by destruct (W d Hd). }
  destruct K as (KA & KN & KW).
  destruct (sc_status budget); [|injection H as <- <-; right; split; [done|by apply effect_leaves]..].
  apply stex_bind_ok in H as (id & s2 & HI & H). apply stex_bind_ok in H as ([x|] & s3 & HU & H); [|done].
  injection H as <- <-. left. eexists _, _. split; [done|]. simpl.
  apply (insert_update_adds c _ _ _ _ _ _ _ _ HI eq_refl) in HU as [-> [HA HN HW]]; [|done..].
  rewrite KA in HA. rewrite KN in *.
  split; [done|]. split; [split; [exact HA|done|]|done]. intros d Hd. destruct (HW d Hd). auto.
Qed.

Lemma claim_adds reg now c denied a s cl s' : claim_body reg now c denied a s = Ok (cl, s') ->
  (exists u at_, Failover.authorization cl = Some u /\ Failover.attempt_id u = next_attempt_id s /\
     adds at_ s s' /\ Attempt.chunk_id at_ = c /\ blocking at_ = true) \/
  (Failover.kind cl <> Failover.AUTHORIZED /\ effect none_of nothing s s').
Proof.
  unfold claim_body. intros H.
  apply stex_bind_ok in H as (s0 & s1 & [= <- <-] & H). cbv zeta in H.
  assert (No : forall s, effect none_of nothing s s) by reflexivity.
  destruct (lock_send_context c s) as [ctx|]; [|injection H as <- <-; by right].
  destruct (ca_live_test a && _); [injection H as <- <-; by right|].
  match type of H with context [lift ?d ≫= ?k] => assert (T : (lift d ≫= k) s = Ok (cl, s') ->
    (exists u at_, Failover.authorization cl = Some u /\ Failover.attempt_id u = next_attempt_id s /\
       adds at_ s s' /\ Attempt.chunk_id at_ = c /\ blocking at_ = true) \/
    (Failover.kind cl <> Failover.AUTHORIZED /\ effect none_of nothing s s')) end.
  { intros T. apply stex_bind_ok in T as ([r|] & s2 & [_ ->]%Outbox.lift_ok & T);
      [injection T as <- <-; by right|].
    destruct (negb _); [injection T as <- <-; by right|]. by eapply authorize_adds. }
  destruct (Failover.already_handled_reason _ _ _ _ _); [|by apply T].
  destruct (find _ _) as [[]|]; [|by apply T]. injection H as <- <-. by right.
Qed.

(** ** The children of a split are distinct *)

Lemma existing_children_distinct c s : NoDup (_existing_split_children c s).
Proof.
  unfold _existing_split_children. rewrite sorting.merge_sort_Permutation.
  eapply sublist_NoDup; [apply (NoDup_fst_map_to_list (chunks s))|].
  apply fmap_sublist, filter_sublist.
Qed.

Lemma create_child_id b n p o sg cu gr s id s' : create_child b n p o sg cu gr s = Ok (id, s') ->
  id = next_chunk_id s /\ next_chunk_id s' = next_chunk_id s + 1.
Proof.
  unfold create_child, insert_child. intros H. apply stex_bind_ok in H as (c & s1 & HI & H).
  apply stex_bind_ok in HI as (? & ? & [= <- <-] & HI).
  do 2 apply stex_bind_ok in HI as (? & ? & [_ ->]%Outbox.lift_ok & HI).
  apply stex_bind_ok in HI as (? & ? & [= <- <-] & [= <- <-]).
  do 2 (apply stex_bind_ok in H as (? & ? & [= <- <-] & H)). by injection H as <- <-.
Qed.

Lemma split_distinct amb now c b cu ex s ids s' :
  complete_vendor_split amb now c b cu ex s = Ok (ids, s') -> NoDup ids.
Proof.
  unfold complete_vendor_split. intros H. apply stex_bind_ok in H as (s0 & s1 & [= <- <-] & H).
  pose proof (existing_children_distinct c s) as D.
  destruct (_existing_split_children c s) as [|x [|y [|]]]; [|done|by injection H as <- <-|done].
  destruct (chunks s !! c) as [ch|]; [|injection H as <- <-; constructor].
  destruct (negb _); [injection H as <- <-; constructor|].
  apply stex_bind_ok in H as (expanded & s1 & _ & H).
  destruct expanded; [|by apply stex_bind_ok in H as (? & ? & _ & [= <- <-])].
  unfold _create_split_children in H. apply stex_bind_ok in H as ([r|] & s2 & _ & H); [|done].
  do 2 apply stex_bind_ok in H as (? & ? & _ & H). apply stex_bind_ok in H as (? & ? & [= <- <-] & H).
  cbv zeta in H. case_match; [done|]. case_match; [|done].
  apply stex_bind_ok in H as (c1 & s4 & [-> E1]%create_child_id & H).
  apply stex_bind_ok in H as (c2 & s5 & [-> E2]%create_child_id & H).
  repeat (apply stex_bind_ok in H as (? & ? & _ & H)). injection H as <- <-.
  apply NoDup_cons. split; [|apply NoDup_singleton]. rewrite list_elem_of_singleton. lia.
Qed.
End SendSystem.
