(* ===== verification/SystemSafety.v ===== *)
(** * No chunk is in two vendor calls that may both be accepted

    The invariant of the sending system: every authorization a worker holds is
    an attempt of its own, and as long as its vendor call may happen, is under
    way or may have been accepted, that attempt blocks every other one. *)

From S2P Require Import Prelude PyText Category VendorCodes Routing Failover.
From S2P Require Import OutboxContract Outbox Effects SendState SendStore SendSafety SendWorker.
From S2P Require Import WorkerSafety SendSystem.

Module SystemSafety.
Import SendState SendStore SendSafety SendWorker WorkerSafety SendSystem.

(** The phase of every chunk in one worker's run. *)
Definition phases : Type := Z -> phase.

Definition advance (f : phases) (e : call) (r : result exn (answer e)) : phases :=
  fun c => after c (f c) e r.

(** The vendor call of the phase may happen, is under way or may have been
    accepted, or its refusal is not recorded yet. *)
Definition live (m : phase) : bool :=
  match m with Ready _ | Gone _ _ | Refused _ _ false => true | _ => false end.

Definition owns (s : db) (f : phases) : Prop := forall c u, auth_of (f c) = Some u ->
  exists a, attempts s !! au_attempt u = Some a /\ Attempt.chunk_id a = c /\
    (live (f c) = true -> blocking a = true).
Definition apart (f g : phases) : Prop := forall c u v,
  auth_of (f c) = Some u -> auth_of (g c) = Some v -> au_attempt u <> au_attempt v.

(** The attempt the worker gives up between two phases. *)
Definition released (f f' : phases) (i c : Z) : Prop :=
  exists u, auth_of (f c) = Some u /\ au_attempt u = i /\ live (f' c) = false.
Definition shrinks (f f' : phases) : Prop := forall c,
  (auth_of (f' c) = None \/ auth_of (f' c) = auth_of (f c)) /\
  (live (f' c) = true -> live (f c) = true).

(** What a call of the worker does to the attempts and to its phases. *)
Inductive changed (f f' : phases) (s s' : db) : Prop :=
| ch_effect X : effect (released f f') X s s' -> shrinks f f' -> changed f f' s s'
| ch_adds a : adds a s s' -> (forall c, f' c = f c) -> changed f f' s s'
| ch_authorized a u : adds a s s' -> blocking a = true -> au_attempt u = next_attempt_id s ->
    (forall c, f' c = if Attempt.chunk_id a =? c then Ready u else f c) -> changed f f' s s'.

(** ** Effects and ownership *)

Lemma attempts_ok_effect Q X s s' : effect Q X s s' -> attempts_ok s -> attempts_ok s'.
Proof.
  intros [N A _] I.
  assert (K : forall i a', attempts s' !! i = Some a' -> exists a, attempts s !! i = Some a /\
    identity a = identity a' /\ (blocking a' = true -> blocking a = true)).
  { intros i a' H. specialize (A i). rewrite H in A. destruct (attempts s !! i) as [a|]; [|done].
    destruct A as (Hi & Hk & _). exists a. split_and!; try done. intros B.
    destruct (decide (Attempt.outcome a = Outcome.invoking)) as [O|O]; [by apply invoking_blocks|].
    by rewrite <-(Hk O). }
  unfold identity in K. split.
  - intros i a' (a & Ha & _)%K. rewrite N. by eapply (ao_ids _ I).
  - intros i a' (a & Ha & [= _ _ <-] & _)%K. by eapply (ao_gen _ I).
  - intros i j x y (a & Ha & [= <- _ <-] & _)%K (b & Hb & [= <- _ <-] & _)%K.
    by eapply (ao_one_per_generation _ I).
  - intros i j x y (a & Ha & [= <- _ _] & Ba)%K (b & Hb & [= <- _ _] & Bb)%K ? ? ?.
    eapply (ao_one_blocking _ I); eauto.
Qed.

(** Only the attempts in flight matter. *)
Lemma effect_only Q Q' X s s' :
  (forall i a, attempts s !! i = Some a -> Attempt.outcome a = Outcome.invoking ->
     Q i (Attempt.chunk_id a) -> Q' i (Attempt.chunk_id a)) ->
  effect Q X s s' -> effect Q' X s s'.
Proof.
  intros H [N A W]. split; [done| |done]. intros i. specialize (A i). specialize (H i).
  unfold settled in *. destruct (attempts s !! i) as [a|], (attempts s' !! i); try done.
  destruct A as (A1 & A2 & A3). split_and!; try done. intros Ho. destruct (A3 Ho); auto.
Qed.

Lemma owns_effect Q X s s' f : effect Q X s s' -> owns s f ->
  (forall c u, auth_of (f c) = Some u -> live (f c) = true -> ~ Q (au_attempt u) c) -> owns s' f.
Proof.
  intros [_ A _] O HQ c u Hu. destruct (O c u Hu) as (a & Ha & Hc & Hb).
  specialize (A (au_attempt u)). rewrite Ha in A. unfold settled in A.
  destruct (attempts s' !! au_attempt u) as [a'|]; [|done]. destruct A as (Hi & Hk & Hv).
  exists a'. unfold identity in Hi. injection Hi as Hi _ _. split_and!; [done|congruence|].
  intros L. destruct (decide (Attempt.outcome a = Outcome.invoking)) as [E|E].
  - destruct (Hv E) as [Q'|]; [|done]. rewrite Hc in Q'. by destruct (HQ c u Hu L).
  - rewrite (Hk E). auto.
Qed.

Lemma owns_shrinks s f f' : shrinks f f' -> owns s f -> owns s f'.
Proof.
  intros Sh O c u Hu. destruct (Sh c) as [[E|E] L]; [congruence|]. rewrite E in Hu.
  destruct (O c u Hu) as (a & Ha & Hc & Hb). exists a. auto.
Qed.

Lemma owns_adds a s s' f : attempts_ok s -> adds a s s' -> owns s f -> owns s' f.
Proof.
  intros I [E _ _] O c u Hu. destruct (O c u Hu) as (b & Hb & ? & ?). exists b. split; [|done].
  rewrite E, lookup_insert_ne; [done|]. apply (ao_ids _ I) in Hb. lia.
Qed.

(** The worker's own authorizations after a call. *)
Lemma owns_changed f f' s s' : attempts_ok s -> changed f f' s s' -> owns s f -> owns s' f'.
Proof.
  intros I [X E Sh|a A H|a u A B N H] O.
  - eapply owns_effect; [exact E|by eapply owns_shrinks|].
    intros c u Hu L (v & _ & _ & L'). congruence.
  - intros c. rewrite H. by eapply owns_adds.
  - intros c v. rewrite H. destruct (Z.eqb_spec (Attempt.chunk_id a) c) as [<-|];
      [|by apply (owns_adds a s s' f I A O)]. intros [= <-]. exists a. destruct A as [E _ _].
    by rewrite E, N, lookup_insert_eq.
Qed.

(** The authorizations of the other workers. *)
Lemma other_changed f f' g s s' : attempts_ok s -> changed f f' s s' -> owns s f -> owns s g ->
  apart f g -> owns s' g /\ apart f' g.
Proof.
  intros I [X E Sh|a A H|a u A B N H] O Og Ap.
  - split.
    + eapply owns_effect; [exact E|done|]. intros c v Hv _ (u & Hu & Eq & _). by apply (Ap c u v).
    + intros c u v Hu Hv. destruct (Sh c) as [[K|K] _]; [congruence|]. rewrite K in Hu. eauto.
  - split; [by eapply owns_adds|]. intros c. rewrite H. apply Ap.
  - split; [by eapply owns_adds|]. intros c w v. rewrite H.
    case_match; [|apply Ap]. intros [= <-] Hv. destruct (Og c v Hv) as (b & Hb & _).
    apply (ao_ids _ I) in Hb. lia.
Qed.


(** ** One call of a worker *)

Lemma after_shrinks f e r : (forall c, authorizes c e r = None) -> shrinks f (advance f e r).
Proof.
  intros H c. specialize (H c). unfold advance.
  destruct e; simpl in *; try (by auto); repeat case_match; simplify_eq/=; naive_solver.
Qed.

Lemma raised_authorizes c e (ex : exn) : authorizes c e (Raise ex) = None.
Proof. by destruct e. Qed.

(** An attempt named by a worker's phase is the one the call releases. *)
Lemma effect_named f f' X s s' c u : owns s f -> auth_of (f c) = Some u -> live (f' c) = false ->
  effect (fun i _ => i = au_attempt u) X s s' -> effect (released f f') X s s'.
Proof.
  intros O Hu L. apply effect_only. intros i a Ha _ ->. destruct (O c u Hu) as (b & Hb & Hc & _).
  simplify_eq. by exists u.
Qed.

Section Calls.
Context (registry : list Routing.VendorRecord) (pseudonym : text -> text) (ambient : option Z).

(** The answer of a call that ran, or a failure of its transport. *)
Definition heard {e} (r0 r : result exn (answer e)) : Prop :=
  r = r0 \/ exists ex, r = Raise ex /\ vendor_error ex = false.

Record good_call (f : phases) (s : db) (e : call) (r : result exn (answer e)) (s' : db) : Prop := {
  gc_possible : possible e r;
  gc_ok : attempts_ok s';
  gc_idle : waits_idle s';
  gc_changed : changed f (advance f e r) s s' }.

Lemma heard_ordinary e (r0 r : result exn (answer e)) : heard r0 r -> ordinary r0 -> ordinary r.
Proof. by intros [->|(ex & -> & ?)]. Qed.
Lemma heard_unauthorized e (r0 r : result exn (answer e)) : heard r0 r ->
  (forall c, authorizes c e r0 = None) -> forall c, authorizes c e r = None.
Proof. intros [->|(ex & -> & _)]; [done|]. intros _ c. by apply raised_authorizes. Qed.

Lemma good_effect f s e r s' : possible e r -> attempts_ok s -> waits_idle s ->
  (forall c, authorizes c e r = None) ->
  effect (released f (advance f e r)) nothing s s' -> good_call f s e r s'.
Proof.
  intros P I W Au E. split; [done|by eapply attempts_ok_effect|by eapply effect_waits_idle|].
  eapply ch_effect; [exact E|by apply after_shrinks].
Qed.

Context (f : phases) (s : db).
Context (I : attempts_ok s) (W : waits_idle s) (O : owns s f).

Lemma good_begin now c v ad rs id a s' r :
  transaction (begin_vendor_invoke now c v ad rs) s = (Ok (id, a), s') ->
  heard (e := BeginVendorInvoke c v ad rs) (Ok (id, Attempt.generation a)) r ->
  good_call f s (BeginVendorInvoke c v ad rs) r s'.
Proof.
  intros H Hr. apply Outbox.transaction_ok in H.
  destruct (begin_adds _ _ _ _ _ _ _ _ _ H) as (-> & A & Hc & B).
  apply begin_ok in H as [_ M].
  split; [by apply (heard_ordinary _ _ _ Hr)| |by eapply adds_waits_idle|].
  { revert I. by apply (rtc_invariant astep _ attempts_ok_astep). }
  destruct Hr as [->|(ex & -> & _)]; [|by eapply ch_adds].
  eapply (ch_authorized _ _ _ _ a (mkAuth v (next_attempt_id s) (Attempt.generation a))); try done.
  intros d. by rewrite Hc.
Qed.

Lemma good_claim now c g p v pv seg enforce denied lt cl s' r :
  claim_next_vendor_invoke registry now c denied (mkClaimArgs g p v pv seg enforce lt) s = (Ok cl, s') ->
  heard (e := ClaimNextVendorInvoke c g p v pv seg enforce) (Ok cl) r ->
  good_call f s (ClaimNextVendorInvoke c g p v pv seg enforce) r s'.
Proof.
  intros H Hr. unfold claim_next_vendor_invoke in H.
  destruct (Routing.validate_vendor_id _); [|done].
  assert (No : Failover.kind cl <> Failover.AUTHORIZED -> forall c', authorizes c'
    (ClaimNextVendorInvoke c g p v pv seg enforce) (Ok cl) = None)
    by (intros Hk c'; simpl; destruct (Failover.kind cl); done).
  destruct (transaction _ s) as [[cl'|x] t] eqn:T; injection H as <- <-.
  - apply Outbox.transaction_ok in T. pose proof (claim_ok _ _ _ _ _ _ _ _ T) as [_ M].
    apply claim_adds in T as [(u & at_ & Hu & Hid & A & Hc & B)|[Hk E]].
    + split; [by apply (heard_ordinary _ _ _ Hr)| |by eapply adds_waits_idle|].
      { revert I. by apply (rtc_invariant astep _ attempts_ok_astep). }
      destruct Hr as [->|(ex & -> & _)]; [|by eapply ch_adds].
      destruct (Failover.kind cl') eqn:K;
        [|eapply ch_adds; [exact A|]; intros d; unfold advance; simpl; by rewrite K..].
      eapply (ch_authorized _ _ _ _ at_ (mkAuth (Failover.ia_vendor_id u) (Failover.attempt_id u)
                                         (Failover.ia_generation u))); try done.
      intros d. unfold advance. simpl. by rewrite K, Hu, Hc.
    + apply good_effect; try done; [by apply (heard_ordinary _ _ _ Hr)| |].
      * eapply heard_unauthorized; [exact Hr|]. by apply No.
      * revert E. by apply effect_only.
  - assert (t = s) as -> by (unfold transaction in T; by repeat case_match; simplify_eq).
    apply good_effect; try done; [by apply (heard_ordinary _ _ _ Hr)|].
    eapply heard_unauthorized; [exact Hr|]. by apply No.
Qed.

Lemma good_finalize now id c g a rep retry s' r :
  (forall d, allowed d (f d) (FinalizeVendorAttempt id c g a) = true) ->
  finalize_vendor_attempt registry pseudonym ambient now id c g a s = (Ok (rep, retry), s') ->
  heard (e := FinalizeVendorAttempt id c g a) (Ok rep) r ->
  good_call f s (FinalizeVendorAttempt id c g a) r s'.
Proof.
  intros Al H Hr.
  apply good_effect; try done; [by apply (heard_ordinary _ _ _ Hr)|].
  specialize (Al c). destruct (finalize_named c _ _ _ _ Al) as (u & Hu & <- & _ & Rec).
  assert (K : live (after c (f c) (FinalizeVendorAttempt (au_attempt u) c g a) r) = false \/
    (outcome_blocks (fa_result a) /\ fa_result a <> Outcome.delayed)).
  { simpl in *. unfold on in Al. rewrite Z.eqb_refl in *. destruct (f c); auto. right.
    cbn in Rec. destruct task; cbn in Rec; bool_prop;
      match goal with E : fa_result a = _ |- _ => rewrite E end; unfold outcome_blocks; set_solver. }
  destruct K as [L|K].
  - eapply (effect_named _ _ _ _ _ c u); [done..|]. eapply eff_finalize; [|exact H]. by left.
  - eapply eff_finalize; [|exact H]. by right.
Qed.

Lemma good_complete now c id o safe code b s' r :
  (forall d, allowed d (f d) (CompleteVendorAttempt c id o safe code) = true) ->
  transaction (complete_vendor_attempt now id o safe code) s = (Ok b, s') ->
  heard (e := CompleteVendorAttempt c id o safe code) (Ok tt) r ->
  good_call f s (CompleteVendorAttempt c id o safe code) r s'.
Proof.
  intros Al H Hr. apply Outbox.transaction_ok in H.
  apply good_effect; try done; [by apply (heard_ordinary _ _ _ Hr)|].
  specialize (Al c). simpl in Al. unfold on in Al. rewrite Z.eqb_refl in Al.
  destruct (f c) as [| |u code' []|u task] eqn:F; try done; bool_prop; subst id.
  - apply (effect_named _ _ _ _ _ c u O); [by rewrite F|unfold advance; simpl; by rewrite F|].
    eapply eff_complete; [|exact H]. by left.
  - eapply eff_complete; [|exact H]. right. unfold outcome_blocks. set_solver.
Qed.

Lemma good_record now c v g o safe code x s' r :
  (forall d, allowed d (f d) (RecordVendorAttempt c v g o safe code) = true) ->
  transaction (record_vendor_attempt now c v g o safe code) s = (Ok x, s') ->
  heard (e := RecordVendorAttempt c v g o safe code) (Ok tt) r ->
  good_call f s (RecordVendorAttempt c v g o safe code) r s'.
Proof.
  intros Al H Hr. apply Outbox.transaction_ok in H. specialize (Al c). simpl in Al. bool_prop. subst o.
  pose proof (moves_record _ _ _ _ _ _ _ _ _ H) as M.
  apply record_adds in H as (a & A & _ & _); [|done].
  split; [by apply (heard_ordinary _ _ _ Hr)| |by eapply adds_waits_idle|by eapply ch_adds].
  revert I. by apply (rtc_invariant astep _ attempts_ok_astep).
Qed.

Lemma good_split now ch expansion ids children s' r :
  (forall d, allowed d (f d) (SplitOnce ch) = true) ->
  transaction (complete_vendor_split ambient now (cp_chunk_id ch) (cp_batch_id ch)
                 (cp_custom_id ch) expansion) s = (Ok ids, s') ->
  cp_chunk_id <$> children = ids -> heard (e := SplitOnce ch) (Ok children) r ->
  good_call f s (SplitOnce ch) r s'.
Proof.
  intros Al H Hids Hr. apply Outbox.transaction_ok in H.
  pose proof (eff_split (fun d => d = cp_chunk_id ch) _ _ _ _ _ _ eq_refl _ _ _ H) as E.
  specialize (Al (cp_chunk_id ch)). simpl in Al. unfold on in Al. rewrite Z.eqb_refl in Al.
  destruct (f (cp_chunk_id ch)) as [| |u code []|] eqn:F; try done.
  split; [|by eapply attempts_ok_effect|by eapply split_waits_idle|].
  - split; [by apply (heard_ordinary _ _ _ Hr)|]. destruct Hr as [->|(ex & -> & _)]; [|done].
    rewrite Hids. by eapply split_distinct.
  - apply (ch_effect _ _ _ _ (fun d => d = cp_chunk_id ch)); [|by apply after_shrinks]. revert E. apply effect_only.
    intros i a Ha Ho Hc. exists u. rewrite Hc, F. unfold advance. simpl. rewrite F, Z.eqb_refl.
    split_and!; try done. destruct (O (cp_chunk_id ch) u) as (b & Hb & Hcb & B); [by rewrite F|].
    eapply (ao_one_blocking _ I); [exact Hb|exact Ha|congruence|apply B; by rewrite F|].
    by apply invoking_blocks.
Qed.

(** Every call a worker is allowed to make. *)
Lemma good_runs e r0 r s' : (forall d, allowed d (f d) e = true) ->
  runs registry pseudonym ambient s e r0 s' -> heard r0 r -> good_call f s e r s'.
Proof.
  intros Al H. destruct H; intros Hr.
  - by eapply good_begin.
  - by eapply good_claim.
  - by eapply good_finalize.
  - by eapply good_complete.
  - by eapply good_record.
  - apply good_effect; try done. split; [by apply (heard_ordinary _ _ _ Hr)|]. destruct Hr as [->|(ex & -> & _)]; [constructor|done].
  - by eapply good_split.
  - apply good_effect; try done.
    + pose proof (heard_ordinary _ _ _ Hr H0). by destruct e.
    + by destruct e.
    + apply (within_transaction (effect _ _)). by eapply eff_chunk_tx.
  - apply good_effect; try done.
    + pose proof (heard_ordinary _ _ _ Hr H0). by destruct e.
    + by destruct e.
Qed.

Lemma good_served e r s' : (forall d, allowed d (f d) e = true) ->
  served registry pseudonym ambient s e r s' -> good_call f s e r s'.
Proof.
  intros Al [H|r0 ex H -> Hv|ex -> -> Hv].
  - eapply good_runs; [done|exact H|by left].
  - eapply good_runs; [done|exact H|right; by exists ex].
  - apply good_effect; try done; [by destruct e|]. intros c. apply raised_authorizes.
Qed.

End Calls.

(** ** The invariant of the system *)

Definition in_flight (t : thread) : option Z :=
  if th_calling t then
    match th_prog t with Call (Send _ _ ch) _ => Some (cp_chunk_id ch) | _ => None end
  else None.

Definition thread_ok (x : thread * phases) : Prop :=
  (forall c, wp (allowed c) (after c) possible (th_prog (fst x)) (fun _ _ => True) (snd x c)) /\
  (th_calling (fst x) = true -> exists v ph ch k, th_prog (fst x) = Call (Send v ph ch) k).

(** The worker's vendor call of the chunk is under way, accepted or unknown. *)
Definition holds (c : Z) (x : thread * phases) : bool :=
  match snd x c with Gone _ _ => true | _ => bool_decide (in_flight (fst x) = Some c) end.

Fixpoint total (c : Z) (l : list (thread * phases)) : Z :=
  match l with [] => 0 | x :: l => Z.b2z (holds c x) + total c l end.

Record invariant (l : list (thread * phases)) (y : system) : Prop := {
  iv_threads : fst <$> l = sy_threads y;
  iv_ok : attempts_ok (sy_db y);
  iv_idle : waits_idle (sy_db y);
  iv_each : forall i x, l !! i = Some x -> thread_ok x /\ owns (sy_db y) (snd x);
  iv_apart : forall i j x z, i <> j -> l !! i = Some x -> l !! j = Some z -> apart (snd x) (snd z);
  iv_count : forall c, launched c y <= answered_error c y + total c l }.

Lemma total_insert c l i x z : l !! i = Some x ->
  total c (<[i := z]> l) = total c l - Z.b2z (holds c x) + Z.b2z (holds c z).
Proof.
  revert i. induction l as [|w l IH]; intros [|i] H; simplify_eq/=; [lia|]. rewrite (IH i H). lia.
Qed.

Lemma total_app c l l' : total c (l ++ l') = total c l + total c l'.
Proof. induction l as [|x l IH]; simpl; lia. Qed.

Lemma total_none c l : (forall i x, l !! i = Some x -> holds c x = false) -> total c l = 0.
Proof.
  induction l as [|x l IH]; simpl; intros H; [done|].
  rewrite (H 0%nat x), IH; [done| |done]. intros i z Hi. by apply (H (S i)).
Qed.

Lemma total_one c l :
  (forall i j x z, i <> j -> l !! i = Some x -> l !! j = Some z ->
     holds c x = true -> holds c z = true -> False) -> total c l <= 1.
Proof.
  induction l as [|x l IH]; simpl; intros H; [done|]. destruct (holds c x) eqn:E; simpl.
  - rewrite total_none; [done|]. intros i z Hi. destruct (holds c z) eqn:F; [|done].
    by destruct (H 0%nat (S i) x z).
  - apply IH. intros i j a b N Ha Hb. apply (H (S i) (S j)); [congruence|done..].
Qed.

(** The vendor call of the next step is the one the phase authorizes. *)
Lemma send_ready x v ph ch k : thread_ok x -> th_prog (fst x) = Call (Send v ph ch) k ->
  exists u, snd x (cp_chunk_id ch) = Ready u.
Proof.
  intros [Hw _] E. specialize (Hw (cp_chunk_id ch)). rewrite E in Hw. destruct Hw as [Al _].
  simpl in Al. unfold on in Al. rewrite Z.eqb_refl in Al. destruct (snd x _); try done. eauto.
Qed.

Lemma holds_live c x : thread_ok x -> holds c x = true ->
  live (snd x c) = true /\ exists u, auth_of (snd x c) = Some u.
Proof.
  intros T. unfold holds. destruct (snd x c) eqn:P; simpl; try by eauto.
  all: intros H; apply bool_decide_eq_true in H; unfold in_flight in H;
    destruct (th_calling (fst x)) eqn:Cl; [|done]; destruct (proj2 T Cl) as (v & ph & ch & k & E);
    rewrite E in H; injection H as <-; destruct (send_ready x v ph ch k T E); congruence.
Qed.

(** At most one worker holds a chunk. *)
Lemma total_bound l y c : invariant l y -> total c l <= 1.
Proof.
  intros [_ Ok _ Each Ap _]. apply total_one. intros i j x z N Hx Hz Bx Bz.
  destruct (Each i x Hx) as [Tx Ox], (Each j z Hz) as [Tz Oz].
  destruct (holds_live c x Tx Bx) as [Lx [u Hu]], (holds_live c z Tz Bz) as [Lz [v Hv]].
  destruct (Ox c u Hu) as (a & Ha & Ca & Ba), (Oz c v Hv) as (b & Hb & Cb & Bb).
  apply (Ap i j x z N Hx Hz c u v Hu Hv).
  eapply (ao_one_blocking _ Ok); [exact Ha|exact Hb|congruence|auto..].
Qed.


Lemma apart_sym f g : apart f g -> apart g f.
Proof. intros H c u v Hu Hv E. by apply (H c v u). Qed.

(** One worker moves, and the database with it. *)
Lemma invariant_replace l y i x z s' log' : invariant l y -> l !! i = Some x ->
  thread_ok z -> owns s' (snd z) -> attempts_ok s' -> waits_idle s' ->
  (forall j w, j <> i -> l !! j = Some w -> owns s' (snd w) /\ apart (snd z) (snd w)) ->
  (forall c, count_events (is_launch c) log' + Z.b2z (holds c x) - launched c y <=
             count_events (is_refusal c) log' + Z.b2z (holds c z) - answered_error c y) ->
  invariant (<[i := z]> l) (mkSystem s' (<[i := fst z]> (sy_threads y)) log').
Proof.
  intros [Th Ok Id Each Ap Cn] Hx Tz Oz Ok' Id' Others Cn'.
  assert (Li : (i < length l)%nat) by by eapply lookup_lt_Some.
  split; simpl; try done.
  - by rewrite list_fmap_insert, Th.
  - intros j w Hw. destruct (decide (j = i)) as [->|N].
    + rewrite list_lookup_insert_eq in Hw by done. by injection Hw as <-.
    + rewrite list_lookup_insert_ne in Hw by done. split; [by eapply Each|by eapply Others].
  - intros j k a b N. destruct (decide (j = i)) as [->|Nj].
    + rewrite list_lookup_insert_eq, list_lookup_insert_ne by done. intros [= <-] Hb.
      by apply (Others k).
    + rewrite (list_lookup_insert_ne l i j) by done. intros Ha. destruct (decide (k = i)) as [->|Nk].
      * rewrite list_lookup_insert_eq by done. intros [= <-]. by apply apart_sym, (Others j).
      * rewrite list_lookup_insert_ne by done. by apply (Ap j k).
  - intros c. unfold launched, answered_error. simpl. rewrite (total_insert c l i x z Hx).
    specialize (Cn c). specialize (Cn' c). lia.
Qed.

Section Preserved.
Context (registry : list Routing.VendorRecord) (pseudonym : text -> text) (ambient : option Z).

Lemma gone_stays c m e r : allowed c m e = true ->
  match m with Gone _ _ => after c m e r = m | _ => True end.
Proof.
  destruct m as [| | |u t]; try done. destruct e; simpl; unfold on; try done;
    repeat case_match; simplify_eq; try done.
Qed.

Lemma preserved_start l y self depth chunk ln b : invariant l y ->
  invariant (l ++ [(mkThread (submit self depth chunk ln b) false, fun _ => Idle)])
    (mkSystem (sy_db y) (sy_threads y ++ [mkThread (submit self depth chunk ln b) false]) (sy_log y)).
Proof.
  intros [Th Ok Id Each Ap Cn]. split; simpl; try done.
  - by rewrite fmap_app, Th.
  - intros i x [Hx|[_ Hx]]%lookup_app_Some; [by eapply Each|].
    apply list_lookup_singleton_Some in Hx as [_ <-]. split; [|by intros c u].
    split; [|done]. intros c. eapply wp_mono; [|by apply (submit_ok_all c)]. done.
  - intros i j x z N [Hx|[Gx Hx]]%lookup_app_Some [Hz|[Gz Hz]]%lookup_app_Some; [by eauto| | |];
      try apply list_lookup_singleton_Some in Hx as [? <-];
      try apply list_lookup_singleton_Some in Hz as [? <-]; try (by intros c u v).
  - intros c. rewrite total_app. simpl. specialize (Cn c).
    unfold launched, answered_error in *. simpl. lia.
Qed.

(** The next state of a worker after an answer. *)
Lemma thread_ok_answer e k f b r : thread_ok (mkThread (Call e k) b, f) -> possible e r ->
  (forall c, allowed c (f c) e = true) /\ thread_ok (mkThread (k r) false, advance f e r).
Proof.
  intros [Hw _] P. split; [intros c; apply Hw|]. split; [|done]. intros c. by apply Hw.
Qed.

Lemma preserved_call l y i e k r s' : invariant l y ->
  sy_threads y !! i = Some (mkThread (Call e k) false) ->
  served registry pseudonym ambient (sy_db y) e r s' ->
  exists l', invariant l' (mkSystem s' (<[i := mkThread (k r) false]> (sy_threads y)) (sy_log y)).
Proof.
  intros J Ht Hs. pose proof J as [Th Ok Id Each Ap _]. rewrite <-Th in Ht.
  apply list_lookup_fmap_Some in Ht as ([t f] & Ht & Hx). simpl in Ht. subst t. destruct (Each i _ Hx) as [T Of].
  assert (Al : forall d, allowed d (f d) e = true) by (intros d; apply (proj1 T d)).
  destruct (good_served registry pseudonym ambient f _ Ok Id Of e r s' Al Hs) as [P Ok' Id' C].
  destruct (thread_ok_answer e k f false r T P) as [_ T'].
  exists (<[i := (mkThread (k r) false, advance f e r)]> l).
  apply (invariant_replace l y i _ (mkThread (k r) false, advance f e r) s' _ J Hx); try done.
  - exact (owns_changed f _ _ _ Ok C Of).
  - intros j [t' g] N Hg. apply (other_changed f _ g (sy_db y) s' Ok C Of); [by apply (Each j _ Hg)|].
    by apply (Ap i j _ _ (not_eq_sym N) Hx Hg).
  - intros c. unfold launched, answered_error, holds, in_flight. simpl.
    pose proof (gone_stays c (f c) e r (Al c)) as G. unfold advance.
    destruct (f c); rewrite ?G; repeat case_match; simpl; lia.
Qed.

Lemma preserved_launch l y i v ph ch k : invariant l y ->
  sy_threads y !! i = Some (mkThread (Call (Send v ph ch) k) false) ->
  exists l', invariant l' (mkSystem (sy_db y) (<[i := mkThread (Call (Send v ph ch) k) true]> (sy_threads y))
                             (Launched (cp_chunk_id ch) :: sy_log y)).
Proof.
  intros J Ht. pose proof J as [Th Ok Id Each Ap _]. rewrite <-Th in Ht.
  apply list_lookup_fmap_Some in Ht as ([t f] & Ht & Hx). simpl in Ht. subst t. destruct (Each i _ Hx) as [T Of].
  exists (<[i := (mkThread (Call (Send v ph ch) k) true, f)]> l).
  apply (invariant_replace l y i _ (mkThread (Call (Send v ph ch) k) true, f) _ _ J Hx); try done.
  - split; [apply T|]. intros _. by exists v, ph, ch, k.
  - intros j w N Hw. split; [by eapply Each|]. by apply (Ap i j _ _ (not_eq_sym N) Hx Hw).
  - intros c. unfold launched, answered_error, holds, in_flight, count_events. simpl.
    destruct (send_ready _ v ph ch k T eq_refl) as [u R]. simpl in R.
    destruct (Z.eqb_spec (cp_chunk_id ch) c) as [<-|N].
    + rewrite R. rewrite bool_decide_true by done. cbn [length Z.b2z]. lia.
    + rewrite !(bool_decide_false (Some _ = _)) by congruence. case_match; simpl; lia.
Qed.

Lemma preserved_answer l y i v ph ch k (r : result exn text) : invariant l y ->
  sy_threads y !! i = Some (mkThread (Call (Send v ph ch) k) true) ->
  exists l', invariant l' (mkSystem (sy_db y) (<[i := mkThread (k r) false]> (sy_threads y))
                             (Answered (cp_chunk_id ch) r :: sy_log y)).
Proof.
  intros J Ht. pose proof J as [Th Ok Id Each Ap _]. rewrite <-Th in Ht.
  apply list_lookup_fmap_Some in Ht as ([t f] & Ht & Hx). simpl in Ht. subst t. destruct (Each i _ Hx) as [T Of].
  destruct (thread_ok_answer (Send v ph ch) k f true r T I) as [_ T'].
  assert (Sh : shrinks f (advance f (Send v ph ch) r)) by (by apply after_shrinks).
  exists (<[i := (mkThread (k r) false, advance f (Send v ph ch) r)]> l).
  apply (invariant_replace l y i _ (mkThread (k r) false, advance f (Send v ph ch) r) _ _ J Hx);
    try done.
  - by eapply owns_shrinks.
  - intros j w N Hw. split; [by eapply Each|]. intros c a b Ha. destruct (Sh c) as [[E|E] _]; simpl in *.
    + congruence.
    + rewrite E in Ha. by apply (Ap i j _ _ (not_eq_sym N) Hx Hw c).
  - intros c. unfold launched, answered_error, holds, in_flight, count_events, advance. simpl.
    destruct (send_ready _ v ph ch k T eq_refl) as [u R]. simpl in R.
    destruct (Z.eqb_spec (cp_chunk_id ch) c) as [<-|N].
    + rewrite R. rewrite bool_decide_true by done.
      destruct r as [task|[]]; rewrite ?Z.eqb_refl; simpl; lia.
    + rewrite !(bool_decide_false (Some _ = _)) by congruence.
      destruct r as [task|[]]; rewrite ?(proj2 (Z.eqb_neq _ _) N); destruct (f c); simpl; lia.
Qed.

Lemma preserved_background l y s' : invariant l y -> background registry ambient (sy_db y) s' ->
  invariant l (mkSystem s' (sy_threads y) (sy_log y)).
Proof.
  intros [Th Ok Id Each Ap Cn] B.
  assert (K : waits_idle s' /\ exists X, effect none_of X (sy_db y) s').
  { assert (N : effect none_of nothing (sy_db y) s' -> waits_idle s' /\ exists X, effect none_of X (sy_db y) s')
      by (intros E; split; [by eapply effect_waits_idle|by exists nothing]).
    destruct B.
    - apply N, (within_transaction (effect _ _)), eff_recover.
    - apply N, (within_transaction (effect _ _)), eff_repair.
    - unfold transaction. destruct (retry_capacity_blocked_splits _ _ _ _ _) as [[x t]|e] eqn:E; simpl.
      + apply retry_waits_idle in E as [W E]; [|done]. eauto.
      + split; [done|]. exists nothing. reflexivity.
    - apply N, (within_transaction (effect _ _)), eff_requeue.
    - by apply N, effect_leaves. }
  destruct K as (W & X & E). split; simpl; try done; [by eapply attempts_ok_effect|].
  intros i x Hx. destruct (Each i x Hx) as [T Ox]. split; [done|].
  by eapply owns_effect; [exact E|exact Ox|intros c u _ _ []].
Qed.

Lemma preserved l y y' : invariant l y -> sstep registry pseudonym ambient y y' ->
  exists l', invariant l' y'.
Proof.
  intros J St. destruct St.
  - eexists. by apply preserved_start.
  - by eapply preserved_call.
  - by eapply preserved_launch.
  - by eapply preserved_answer.
  - eexists. by eapply preserved_background.
Qed.

Lemma start_invariant y : start y -> invariant [] y.
Proof.
  intros (A & Th & Lg). split; try done.
  - split; rewrite A; set_solver.
  - intros c _ i a. by rewrite A.
  - intros c. unfold launched, answered_error. by rewrite Lg.
Qed.

Lemma reachable_invariant y0 y : start y0 -> rtc (sstep registry pseudonym ambient) y0 y ->
  exists l, invariant l y.
Proof.
  intros S0 R. assert (J : exists l, invariant l y0) by (exists []; by apply start_invariant).
  clear S0. revert J. induction R as [|y1 y2 y3 St _ IH]; [done|]. intros [l J]. apply IH.
  by eapply preserved.
Qed.

End Preserved.

(** ** A concrete run: two workers on one chunk *)

(** The database's answers; the other collaborators answer as in [example_world]. *)
Definition example_reply (s : db) (e : call) : result exn (answer e) * db :=
  match e return result exn (answer e) * db with
  | BeginVendorInvoke c v ad rs =>
      match transaction (begin_vendor_invoke 5 c v ad rs) s with
      | (Ok (id, a), s') => (Ok (id, Attempt.generation a), s')
      | _ => (Raise OtherError, s)
      end
  | FinalizeVendorAttempt id c g a =>
      match finalize_vendor_attempt example_registry (fun t => t) None 6 id c g a s with
      | (Ok (rep, _), s') => (Ok rep, s')
      | _ => (Raise OtherError, s)
      end
  | e => match chunk_tx (fun t => t) 5 false (fun _ => 0) [] e with
         | Some m => (example_world [] e, snd (transaction m s))
         | None => if no_tx e then (example_world [] e, s) else (Raise OtherError, s)
         end
  end.

(** One step of worker [i]; its vendor call times out. *)
Definition example_move (y : system) (i : nat) : system :=
  match sy_threads y !! i with
  | Some (mkThread (Call e k) calling) =>
      match e as e0 return (result exn (answer e0) -> worker SubmitOutcome) -> system with
      | Send v ph ch => fun k =>
          if calling then
            mkSystem (sy_db y) (<[i := mkThread (k (Raise VendorTransportError)) false]> (sy_threads y))
              (Answered (cp_chunk_id ch) (Raise VendorTransportError) :: sy_log y)
          else
            mkSystem (sy_db y) (<[i := mkThread (Call (Send v ph ch) k) true]> (sy_threads y))
              (Launched (cp_chunk_id ch) :: sy_log y)
      | e0 => fun k =>
          if calling then y else
          let a := example_reply (sy_db y) e0 in
          mkSystem (snd a) (<[i := mkThread (k (fst a)) false]> (sy_threads y)) (sy_log y)
      end k
  | _ => y
  end.

Definition example_idle : system := mkSystem example_db [] [].
Definition example_started : system :=
  let t := mkThread (submit example_worker 5 example_payload realtime true) false in
  mkSystem example_db [t; t] [].
Definition example_end : system :=
  fold_left example_move (repeat 0%nat 20 ++ repeat 1%nat 20) example_started.

Definition example_sstep := sstep example_registry (fun t => t) None.

Lemma example_reply_served s e :
  served example_registry (fun t => t) None s e (fst (example_reply s e)) (snd (example_reply s e)).
Proof.
  assert (F : served example_registry (fun t => t) None s e (Raise OtherError) s)
    by (by eapply served_failed).
  assert (C : forall m, chunk_tx (fun t => t) 5 false (fun _ => 0) [] e = Some m ->
    served example_registry (fun t => t) None s e (example_world [] e) (snd (transaction m s))).
  { intros m Hm. apply served_ok. eapply run_chunk; [exact Hm|]. by destruct e. }
  assert (N : no_tx e = true -> served example_registry (fun t => t) None s e (example_world [] e) s).
  { intros Hn. apply served_ok, run_nothing; [done|]. by destruct e. }
  destruct e; try exact F; try exact (C _ eq_refl); try exact (N eq_refl); cbn [example_reply].
  - destruct (transaction _ s) as [[[id a]|ex] s'] eqn:E; [|exact F].
    apply served_ok. by eapply run_begin.
  - destruct (finalize_vendor_attempt _ _ _ _ _ _ _ _ _) as [[[rep retry]|ex] s'] eqn:E; [|exact F].
    apply served_ok. by eapply run_finalize.
Qed.

Lemma example_move_steps y i : rtc example_sstep y (example_move y i).
Proof.
  unfold example_move. destruct (sy_threads y !! i) as [[[r|e k] calling]|] eqn:E; [reflexivity| |reflexivity].
  assert (K : (forall v ph ch, e <> Send v ph ch) -> rtc example_sstep y
    (if calling then y else mkSystem (snd (example_reply (sy_db y) e))
       (<[i := mkThread (k (fst (example_reply (sy_db y) e))) false]> (sy_threads y)) (sy_log y))).
  { intros _. destruct calling; [reflexivity|]. apply rtc_once.
    eapply ss_call; [exact E|]. apply example_reply_served. }
  destruct e; try (by apply K). destruct calling; apply rtc_once; by econstructor.
Qed.

Lemma example_run : rtc example_sstep example_idle example_end.
Proof.
  transitivity example_started.
  { do 2 (eapply rtc_l; [apply (ss_start _ _ _ _ example_worker 5 example_payload realtime true)|]).
    reflexivity. }
  unfold example_end. generalize (repeat 0%nat 20 ++ repeat 1%nat 20), example_started.
  intros l. induction l as [|i l IH]; intros y; simpl; [reflexivity|].
  etransitivity; [apply example_move_steps|apply IH].
Qed.

(** ** The property *)

(** C1: whatever the interleaving of workers, recovery and other transactions,
    and whichever answers are lost, all vendor calls launched for a chunk but
    at most one have been answered with an error code of the vendor: there are
    never two calls that are under way, accepted or of unknown outcome. *)
Theorem one_unresolved_call registry pseudonym ambient y0 y c :
  start y0 -> rtc (sstep registry pseudonym ambient) y0 y ->
  launched c y - answered_error c y <= 1.
Proof.
  intros S0 R. destruct (reachable_invariant registry pseudonym ambient y0 y S0 R) as [l J].
  pose proof (total_bound l y c J). pose proof (iv_count _ _ J c). lia.
Qed.


Lemma one_unresolved_call_witness :
  launched 7 example_end = 1 /\ launched 7 example_end - answered_error 7 example_end <= 1.
Proof.
  split; [vm_compute; reflexivity|].
  apply (one_unresolved_call example_registry (fun t => t) None example_idle); [done|].
  exact example_run.
Defined.

End SystemSafety.
