(* ===== verification/Inflight.v ===== *)
(** * In-flight capacity ([services/send_inflight.py])

    The reservations of in-flight chunks: one balance row per application and
    one row per accepted request, moved from [reserved] to [batch_bound],
    [materialized] and [released].  Every operation of the file is here, with
    the row constraints, the triggers and the repair function that
    [schema.sql] puts around the two tables.

    A transaction first reads without locks and then works under the balance
    lock of the application.  An operation that uses such an early read takes
    the database it read from as the argument [v] ([..._from v]); run alone it
    reads the state it starts in.  [now] is the start of the transaction,
    [clk] the reading of [clock_timestamp()]. *)

From S2P Require Import Prelude PyText Routing Failover Outbox.

(** [send_inflight_reservation.state] *)
Module InflightState.

Inductive t := reserved | batch_bound | materialized | released.

#[export] Instance eq_dec : EqDecision t.
Proof. solve_decision. Defined.

End InflightState.
Export (hints) InflightState.

(** [send_inflight_reservation]; the id is the key. *)
Module Reservation.

Record t := mk {
  app_id : Z;
  batch_id : option Z;
  reserved_chunks : Z;
  materialized_chunks : option Z;
  state : InflightState.t;
  generation : Z;
  expires_at : option Z;
  release_reason : option text;
  bound_at : option Z;
  materialized_at : option Z;
  released_at : option Z
}.

End Reservation.

(** [send_inflight_balance]; the application is the key. *)
Module Balance.

Record t := mk {
  reserved_chunks : Z;
  conservation_blocked_at : option Z;
  updated_at : Z
}.

End Balance.

(** The columns of [sms_batch] read and written here. *)
Module BatchRef.

Record t := mk {
  status : BatchStatus.t;
  batch_no : text;
  app_id : option Z;
  biz_id : option text;
  send_inflight_reservation_id : option Z
}.

End BatchRef.

Module Inflight.

(** [send_inflight_reconcile_fact] *)
Record fact := mkFact {
  fact_app_id : Z;
  stored_balance : option Z;
  computed_active_sum : Z;
  fact_delta : Z;
  active_reservation_count : Z;
  fact_result : text
}.

(** A queued call of a deferred constraint trigger: the conservation check of
    an application or the occupancy check of a batch. *)
Inductive trigger := conservation_of (app_id : Z) | occupancy_of (batch_id : Z).

#[export] Instance trigger_eq_dec : EqDecision trigger.
Proof. solve_decision. Defined.

(** The idempotency records are keyed by scope kind, scope id and business id;
    a chunk is seen as its batch and its status. *)
Record db := mkDb {
  balances : gmap Z Balance.t;
  reservations : gmap Z Reservation.t;
  apps : gset Z;
  batches : gmap Z BatchRef.t;
  chunks : gmap Z (Z * ChunkStatus.t);
  records : gmap (text * text * text) (Z * option text);
  facts : list fact;
  next_reservation_id : Z;
  deferred : list trigger
}.

Definition set_balances f (s : db) : db :=
  mkDb (f (balances s)) (reservations s) (apps s) (batches s) (chunks s) (records s) (facts s)
    (next_reservation_id s) (deferred s).
Definition set_reservations f (s : db) : db :=
  mkDb (balances s) (f (reservations s)) (apps s) (batches s) (chunks s) (records s) (facts s)
    (next_reservation_id s) (deferred s).
Definition set_batches f (s : db) : db :=
  mkDb (balances s) (reservations s) (apps s) (f (batches s)) (chunks s) (records s) (facts s)
    (next_reservation_id s) (deferred s).
Definition set_chunks f (s : db) : db :=
  mkDb (balances s) (reservations s) (apps s) (batches s) (f (chunks s)) (records s) (facts s)
    (next_reservation_id s) (deferred s).
Definition add_fact x (s : db) : db :=
  mkDb (balances s) (reservations s) (apps s) (batches s) (chunks s) (records s) (facts s ++ [x])
    (next_reservation_id s) (deferred s).
Definition take_id (s : db) : db :=
  mkDb (balances s) (reservations s) (apps s) (batches s) (chunks s) (records s) (facts s)
    (next_reservation_id s + 1) (deferred s).
Definition queue l (s : db) : db :=
  mkDb (balances s) (reservations s) (apps s) (batches s) (chunks s) (records s) (facts s)
    (next_reservation_id s) (deferred s ++ l).
Definition unqueue (s : db) : db :=
  mkDb (balances s) (reservations s) (apps s) (batches s) (chunks s) (records s) (facts s)
    (next_reservation_id s) [].

Definition tx_ (A : Type) : Type := stex db exc A.

(** ** Constants, results and errors *)

Definition ACTIVE_INFLIGHT_STATES : list InflightState.t :=
  [InflightState.reserved; InflightState.batch_bound; InflightState.materialized].
Definition OCCUPYING_CHUNK_STATES : list ChunkStatus.t :=
  [ChunkStatus.pending; ChunkStatus.submitting; ChunkStatus.retrying; ChunkStatus.submitted;
   ChunkStatus.uncertain; ChunkStatus.split_capacity_blocked; ChunkStatus.failover_pending].
Definition TERMINAL_BATCH_STATES : list BatchStatus.t :=
  [BatchStatus.completed; BatchStatus.completed_unknown; BatchStatus.cancelled;
   BatchStatus.rejected; BatchStatus.expired].

(** [InFlightDeltaOperation], and the [bind] of the balance lock. *)
Inductive operation := op_reserve | op_release | op_materialize | op_split | op_repair
| op_reconcile | op_bind.

#[export] Instance operation_eq_dec : EqDecision operation.
Proof. solve_decision. Defined.

Record InFlightReservation := mkReservation {
  ir_id : Z;
  ir_generation : Z;
  ir_estimated_chunks : Z
}.

(** [InFlightReservation | bool] *)
Inductive delta_result := Created (r : InFlightReservation) | Changed (b : bool).

Inductive AcceptCommitKind := UNBOUND | BOUND_TO_EXPECTED_BATCH | BOUND_TO_CONFLICTING_BATCH
| UNKNOWN.

Record AcceptCommitResolution := mkResolution {
  ar_kind : AcceptCommitKind;
  ar_batch_no : option text;
  ar_reservation_state : option InflightState.t
}.

Definition InFlightInvariantViolation (detail : string) : exc :=
  Exc (tx "InFlightInvariantViolation") (tx detail).
Definition violation_of_reserve : exc :=
  Exc (tx "InFlightInvariantViolation") (utx "在途容量守恒失败: reserve").
Definition violation_of_release : exc :=
  Exc (tx "InFlightInvariantViolation") (utx "在途容量守恒失败: release").
Definition InFlightLimitExceeded : exc :=
  Exc (tx "InFlightLimitExceeded") (utx "应用在途分片已达上限").
Definition MultipleResultsFound : exc := Exc (tx "MultipleResultsFound") (tx "").
Definition IntegrityError (msg : string) : exc := Outbox.IntegrityError msg.
Definition integer_out_of_range : exc := Exc (tx "DBAPIError") (tx "integer out of range").

(** [p in s] *)
Fixpoint occurs (p s : text) : bool :=
  starts_with p s || match s with [] => false | _ :: rest => occurs p rest end.

(** Identifies a conservation trigger or a violated update of both sides. *)
Definition conservation_error (e : exc) : bool :=
  let 'Exc cls msg := e in
  occurs (tx "send_inflight balance") msg
  || bool_decide (cls = tx "InFlightInvariantViolation").

(** ** Types and constraints of the tables ([schema.sql]) *)

Definition fits_int4 (v : Z) : bool := (- 2 ^ 31 <=? v) && (v <? 2 ^ 31).
Definition int4 (v : Z) : result exc Z := if fits_int4 v then Ok v else Raise integer_out_of_range.

Definition active (r : Reservation.t) : bool :=
  bool_decide (Reservation.state r ∈ ACTIVE_INFLIGHT_STATES).

(** [SELECT COALESCE(SUM(reserved_chunks), 0) ... WHERE app_id AND active] *)
Definition weight (app : Z) (r : Reservation.t) : Z :=
  if (Reservation.app_id r =? app) && active r then Reservation.reserved_chunks r else 0.
Definition active_sum (app : Z) (s : db) : Z :=
  map_fold (fun _ r n => weight app r + n) 0 (reservations s).

Definition reservation_check (r : Reservation.t) : result exc unit :=
  _ ← int4 (Reservation.reserved_chunks r);
  _ ← int4 (Reservation.generation r);
  _ ← int4 (default 0 (Reservation.materialized_chunks r));
  _ ← require (1 <=? Reservation.reserved_chunks r)
        (IntegrityError "send_inflight_reservation_reserved_chunks_check");
  _ ← require (1 <=? Reservation.generation r)
        (IntegrityError "ck_send_inflight_reservation_generation");
  _ ← require (0 <=? default 0 (Reservation.materialized_chunks r))
        (IntegrityError "ck_send_inflight_materialized_chunks");
  _ ← require (Nat.leb (length (default [] (Reservation.release_reason r))) 32)
        (Exc (tx "DBAPIError") (tx "value too long for type character varying(32)"));
  _ ← require (bool_decide (bool_decide (Reservation.state r = InflightState.released) =
                 bool_decide (is_Some (Reservation.released_at r))
                 && bool_decide (is_Some (Reservation.release_reason r))))
        (IntegrityError "ck_inflight_released_pair");
  require (negb (bool_decide (Reservation.release_reason r = Some (tx "acceptance-failed")))
           || bool_decide (Reservation.batch_id r = None))
    (IntegrityError "ck_send_inflight_acceptance_failed_unbound").

Definition reject_bound_acceptance_failed (old new : Reservation.t) : result exc unit :=
  refuse (bool_decide (Reservation.release_reason new = Some (tx "acceptance-failed"))
          && (bool_decide (is_Some (Reservation.batch_id new))
              || bool_decide (is_Some (Reservation.batch_id old))
              || bool_decide (Reservation.state old ∈ [InflightState.batch_bound;
                                                       InflightState.materialized])))
    (IntegrityError "acceptance-failed cannot release a bound reservation").

(** The unique constraint and the foreign key of [batch_id]. *)
Definition batch_id_check (id : Z) (r : Reservation.t) (s : db) : result exc unit :=
  match Reservation.batch_id r with
  | None => Ok tt
  | Some b =>
      _ ← require (bool_decide (is_Some (batches s !! b)))
            (IntegrityError "send_inflight_reservation_batch_id_fkey");
      refuse (List.existsb (fun p => negb (fst p =? id)
                                     && bool_decide (Reservation.batch_id (snd p) = Some b))
                (map_to_list (reservations s)))
        (IntegrityError "send_inflight_reservation_batch_id_key")
  end.

(** The occupancy trigger on a reservation fires when an active row changed its
    chunks, state or batch. *)
Definition occupancy_event (old : option Reservation.t) (new : Reservation.t) : list trigger :=
  let same := match old with
              | Some o => (Reservation.reserved_chunks o =? Reservation.reserved_chunks new)
                          && bool_decide (Reservation.state o = Reservation.state new)
                          && bool_decide (Reservation.batch_id o = Reservation.batch_id new)
              | None => false
              end in
  if same || negb (active new) then []
  else match Reservation.batch_id new with Some b => [occupancy_of b] | None => [] end.

(** ** Statements *)

(** [INSERT INTO send_inflight_reservation ... RETURNING id] *)
Definition insert_reservation (r : Reservation.t) : tx_ Z :=
  s ← get;
  let id := next_reservation_id s in
  _ ← lift (reservation_check r);
  _ ← lift (require (bool_decide (Reservation.app_id r ∈ apps s))
              (IntegrityError "send_inflight_reservation_app_id_fkey"));
  _ ← lift (batch_id_check id r s);
  _ ← modify take_id;
  _ ← modify (set_reservations (<[id := r]>));
  _ ← modify (queue (conservation_of (Reservation.app_id r) :: occupancy_event None r));
  mret id.

(** [UPDATE send_inflight_reservation SET <f> WHERE id=:id AND <guard> RETURNING id] *)
Definition update_reservation (id : Z) (guard : Reservation.t -> bool)
    (f : Reservation.t -> Reservation.t) : tx_ bool :=
  s ← get;
  match reservations s !! id with
  | Some old =>
      if guard old then
        let new := f old in
        _ ← lift (reject_bound_acceptance_failed old new);
        _ ← lift (reservation_check new);
        _ ← lift (batch_id_check id new s);
        _ ← modify (set_reservations (<[id := new]>));
        _ ← modify (queue (conservation_of (Reservation.app_id new)
                           :: occupancy_event (Some old) new));
        mret true
      else mret false
  | None => mret false
  end.

Definition balance_check (b : Balance.t) : result exc unit :=
  _ ← int4 (Balance.reserved_chunks b);
  require (0 <=? Balance.reserved_chunks b)
    (IntegrityError "send_inflight_balance_reserved_chunks_check").

(** [INSERT INTO send_inflight_balance(app_id, reserved_chunks)] *)
Definition insert_balance (now app_id n : Z) : tx_ unit :=
  s ← get;
  let b := Balance.mk n None now in
  _ ← lift (balance_check b);
  _ ← lift (require (bool_decide (app_id ∈ apps s))
              (IntegrityError "send_inflight_balance_app_id_fkey"));
  _ ← modify (set_balances (<[app_id := b]>));
  modify (queue [conservation_of app_id]).

(** [UPDATE send_inflight_balance SET <f> WHERE app_id=:app_id AND <guard>
    RETURNING reserved_chunks]; the trigger ignores an unchanged balance. *)
Definition update_balance (app_id : Z) (guard : Balance.t -> bool) (f : Balance.t -> Balance.t)
    : tx_ (option Z) :=
  s ← get;
  match balances s !! app_id with
  | Some old =>
      if guard old then
        let new := f old in
        _ ← lift (balance_check new);
        _ ← modify (set_balances (<[app_id := new]>));
        _ ← modify (queue (if Balance.reserved_chunks new =? Balance.reserved_chunks old
                           then [] else [conservation_of app_id]));
        mret (Some (Balance.reserved_chunks new))
      else mret None
  | None => mret None
  end.

Definition one_or_none {A} (l : list A) : result exc (option A) :=
  match l with
  | [] => Ok None
  | [x] => Ok (Some x)
  | _ => Raise MultipleResultsFound
  end.

(** [SELECT ... WHERE <f> ORDER BY id] *)
Definition id_le (p q : Z * Reservation.t) : Prop := fst p <= fst q.
#[export] Instance id_le_dec p q : Decision (id_le p q).
Proof. unfold id_le. apply _. Defined.
Definition select (f : Reservation.t -> bool) (s : db) : list (Z * Reservation.t) :=
  sorting.merge_sort id_le (List.filter (fun p => f (snd p)) (map_to_list (reservations s))).
Definition limited {A} (limit : Z) (l : list A) : list A := take (Z.to_nat limit) l.

(** [sorted({...})] *)
Definition sorted_set (l : list Z) : list Z := sorting.merge_sort Z.le (remove_dups l).

(** [for x in l: m(x)] *)
Fixpoint for_each {A} (m : A -> tx_ unit) (l : list A) : tx_ unit :=
  match l with
  | [] => mret tt
  | x :: rest => _ ← m x; for_each m rest
  end.

(** The loops that count the rows for which the body is true. *)
Fixpoint count_each {A} (m : A -> tx_ bool) (l : list A) (n : Z) : tx_ Z :=
  match l with
  | [] => mret n
  | x :: rest => b ← m x; count_each m rest (if b : bool then n + 1 else n)
  end.

(** ** The balance *)

(** Sets the flag that refuses new sends, in a transaction of its own. *)
Definition mark_conservation_blocked (now app_id : Z) : tx_ unit :=
  _ ← update_balance app_id (fun _ => true)
        (fun b => Balance.mk (Balance.reserved_chunks b)
                    (Some (default now (Balance.conservation_blocked_at b))) now);
  mret tt.

Definition _lock_balance (now app_id : Z) (op : operation) (allow_create : bool) : tx_ Z :=
  s0 ← get;
  _ ← (if allow_create && negb (bool_decide (is_Some (balances s0 !! app_id)))
       then insert_balance now app_id 0 else mret tt);
  s ← get;
  match balances s !! app_id with
  | None => throw (InFlightInvariantViolation "balance missing")
  | Some b =>
      if bool_decide (is_Some (Balance.conservation_blocked_at b)) && bool_decide (op = op_reserve)
      then throw (InFlightInvariantViolation "conservation blocked")
      else mret (Balance.reserved_chunks b)
  end.

Definition _adjust_locked_balance (now app_id stored delta : Z) (limit : option Z) : tx_ Z :=
  if delta =? 0 then mret stored else
  let nxt := stored + delta in
  if nxt <? 0 then throw (InFlightInvariantViolation "balance below release") else
  if match limit with Some l => l <? nxt | None => false end then throw InFlightLimitExceeded else
  updated ← update_balance app_id (fun b => Balance.reserved_chunks b =? stored)
              (fun b => Balance.mk nxt (Balance.conservation_blocked_at b) now);
  match updated with
  | None => throw (InFlightInvariantViolation "balance update missed")
  | Some v => mret v
  end.

(** ** One conversion of capacity *)

(** The keyword arguments of [apply_inflight_delta]. *)
Record delta_args := mkArgs {
  da_reservation_id : option Z;
  da_generation : option Z;
  da_expected_states : option (list InflightState.t);
  da_next_state : option InflightState.t;
  da_next_reserved_chunks : option Z;
  da_reason : option text;
  da_materialized_chunks : option Z;
  da_limit : option Z;
  da_unbound_only : bool
}.

Definition RESERVATION_TTL_US : Z := 15 * 60 * 1000000.

Definition _apply_reserve (now app_id estimated : Z) (limit : option Z) : tx_ InFlightReservation :=
  _ ← lift (refuse ((estimated <? 1) || match limit with Some l => l <? 1 | None => true end)
              (ValueError "in-flight reservation bounds invalid"));
  locked ← _lock_balance now app_id op_reserve true;
  _ ← _adjust_locked_balance now app_id locked estimated limit;
  id ← insert_reservation
         (Reservation.mk app_id None estimated None InflightState.reserved 1
            (Some (now + RESERVATION_TTL_US)) None None None None);
  mret (mkReservation id 1 estimated).

Definition expired (clk : Z) (r : Reservation.t) : bool :=
  match Reservation.expires_at r with Some t => t <? clk | None => false end.

(** The early returns of [_apply_reservation_delta] on the locked row. *)
Definition declined (clk : Z) (op : operation) (generation : Z) (a : delta_args)
    (r : Reservation.t) : bool :=
  negb (Reservation.generation r =? generation)
  || match da_expected_states a with
     | Some l => negb (bool_decide (Reservation.state r ∈ l))
     | None => false
     end
  || da_unbound_only a
     && (negb (bool_decide (Reservation.state r = InflightState.reserved))
         || bool_decide (is_Some (Reservation.batch_id r)))
  || bool_decide (da_reason a = Some (tx "orphan-expired"))
     && (negb (bool_decide (Reservation.state r = InflightState.reserved))
         || bool_decide (is_Some (Reservation.batch_id r)) || negb (expired clk r))
  || bool_decide (op = op_release) && bool_decide (Reservation.state r = InflightState.released).

(** The [SET] clause of [_apply_reservation_delta]. *)
Definition delta_row (now occupancy : Z) (a : delta_args) (r : Reservation.t) : Reservation.t :=
  let next := da_next_state a in
  let releasing := bool_decide (next = Some InflightState.released) in
  Reservation.mk (Reservation.app_id r) (Reservation.batch_id r) occupancy
    match da_materialized_chunks a with Some m => Some m | None => Reservation.materialized_chunks r end
    (default (Reservation.state r) next)
    (if releasing then Reservation.generation r + 1 else Reservation.generation r)
    (Reservation.expires_at r)
    (if releasing then da_reason a
     else if bool_decide (is_Some next) then None else Reservation.release_reason r)
    (Reservation.bound_at r)
    (if bool_decide (next = Some InflightState.materialized) then Some now
     else Reservation.materialized_at r)
    (if releasing then Some now
     else if bool_decide (is_Some next) then None else Reservation.released_at r).

Definition _apply_reservation_delta (now clk : Z) (op : operation) (app_id delta : Z)
    (a : delta_args) : tx_ bool :=
  match da_reservation_id a, da_generation a with
  | Some id, Some generation =>
      locked ← _lock_balance now app_id op
                 (bool_decide (op ∈ [op_repair; op_reconcile]));
      s ← get;
      match reservations s !! id with
      | None => mret false
      | Some r =>
          if negb (Reservation.app_id r =? app_id)
          then throw (InFlightInvariantViolation "reservation app mismatch")
          else if declined clk op generation a r then mret false else
          let amount := if bool_decide (op = op_release)
                        then - Reservation.reserved_chunks r else delta in
          let occupancy := default (Reservation.reserved_chunks r) (da_next_reserved_chunks a) in
          if occupancy <? 1
          then throw (InFlightInvariantViolation "reservation occupancy invalid") else
          _ ← _adjust_locked_balance now app_id locked amount (da_limit a);
          updated ← update_reservation id (fun r => Reservation.generation r =? generation)
                      (delta_row now occupancy a);
          if updated : bool then mret true
          else throw (InFlightInvariantViolation "reservation update missed")
      end
  | _, _ => throw (InFlightInvariantViolation "reservation identity required")
  end.

Definition apply_inflight_delta (now clk : Z) (op : operation) (app_id delta : Z)
    (estimated : option Z) (a : delta_args) : tx_ delta_result :=
  match op with
  | op_reserve => r ← _apply_reserve now app_id (default delta estimated) (da_limit a);
                  mret (Created r)
  | _ => b ← _apply_reservation_delta now clk op app_id delta a; mret (Changed b)
  end.

Definition reserve_in_flight_chunks (now clk app_id estimated limit : Z)
    : tx_ InFlightReservation :=
  created ← apply_inflight_delta now clk op_reserve app_id estimated (Some estimated)
              (mkArgs None None None None None None None (Some limit) false);
  match created with
  | Created r => mret r
  | Changed _ => throw violation_of_reserve
  end.

(** [bool(await apply_inflight_delta(...))] of an operation on a reservation. *)
Definition changed (r : delta_result) : bool :=
  match r with Created _ => true | Changed b => b end.

(** ** Binding to the batch *)

(** [UPDATE sms_batch SET send_inflight_reservation_id=:id WHERE id=:batch_id AND
    send_inflight_reservation_id IS NULL RETURNING id], with its unique index. *)
Definition link_batch (id batch_id : Z) : tx_ bool :=
  s ← get;
  match batches s !! batch_id with
  | Some b =>
      if bool_decide (BatchRef.send_inflight_reservation_id b = None) then
        _ ← lift (refuse (List.existsb
                    (fun p => bool_decide (BatchRef.send_inflight_reservation_id (snd p) = Some id))
                    (map_to_list (batches s)))
                    (IntegrityError "uk_sms_batch_send_inflight_reservation"));
        _ ← modify (set_batches (<[batch_id := BatchRef.mk (BatchRef.status b) (BatchRef.batch_no b)
                                     (BatchRef.app_id b) (BatchRef.biz_id b) (Some id)]>));
        mret true
      else mret false
  | None => mret false
  end.

Definition bindable (clk generation app_id : Z) (r : Reservation.t) : bool :=
  (Reservation.generation r =? generation) && (Reservation.app_id r =? app_id)
  && bool_decide (Reservation.state r = InflightState.reserved)
  && bool_decide (Reservation.batch_id r = None)
  && match Reservation.expires_at r with Some t => clk <? t | None => false end.

Definition bound_row (now batch_id : Z) (r : Reservation.t) : Reservation.t :=
  Reservation.mk (Reservation.app_id r) (Some batch_id) (Reservation.reserved_chunks r)
    (Reservation.materialized_chunks r) InflightState.batch_bound (Reservation.generation r)
    (Reservation.expires_at r) (Reservation.release_reason r) (Some now)
    (Reservation.materialized_at r) (Reservation.released_at r).

Definition bind_in_flight_reservation (now clk reservation_id generation batch_id app_id : Z)
    : tx_ unit :=
  _ ← _lock_balance now app_id op_bind false;
  bound ← update_reservation reservation_id (bindable clk generation app_id)
            (bound_row now batch_id);
  if negb bound then throw (RuntimeError "in-flight reservation bind failed") else
  linked ← link_batch reservation_id batch_id;
  if linked : bool then mret tt else
  s ← get;
  lift (require (bool_decide ((batches s !! batch_id) ≫= BatchRef.send_inflight_reservation_id
                              = Some reservation_id))
          (RuntimeError "in-flight reservation batch pointer failed")).

(** ** Release *)

Definition _require_reservation_app (v : db) (reservation_id : Z) (app_id : option Z)
    : option Z :=
  match app_id with
  | Some a => Some a
  | None => Reservation.app_id <$> reservations v !! reservation_id
  end.

Definition release_unbound_from (v : db) (now clk reservation_id generation : Z)
    (app_id : option Z) : tx_ bool :=
  match _require_reservation_app v reservation_id app_id with
  | None => mret false
  | Some resolved_app =>
      released ← apply_inflight_delta now clk op_release resolved_app 0 None
        (mkArgs (Some reservation_id) (Some generation) (Some [InflightState.reserved])
           (Some InflightState.released) None (Some (tx "acceptance-failed")) None None true);
      mret (changed released)
  end.

Definition release_from (v : db) (now clk reservation_id generation : Z) (reason : text)
    (app_id : option Z) : tx_ bool :=
  if bool_decide (reason = tx "acceptance-failed")
  then release_unbound_from v now clk reservation_id generation app_id else
  match _require_reservation_app v reservation_id app_id with
  | None => mret false
  | Some resolved_app =>
      released ← apply_inflight_delta now clk op_release resolved_app 0 None
        (mkArgs (Some reservation_id) (Some generation) (Some ACTIVE_INFLIGHT_STATES)
           (Some InflightState.released) None (Some reason) None None false);
      mret (changed released)
  end.

Definition release_unbound_acceptance_reservation (now clk reservation_id generation : Z)
    (app_id : option Z) : tx_ bool :=
  v ← get; release_unbound_from v now clk reservation_id generation app_id.

Definition release_in_flight_reservation (now clk reservation_id generation : Z) (reason : text)
    (app_id : option Z) : tx_ bool :=
  v ← get; release_from v now clk reservation_id generation reason app_id.

Definition of_batch (batch_id : Z) (states : list InflightState.t) (r : Reservation.t) : bool :=
  bool_decide (Reservation.batch_id r = Some batch_id)
  && bool_decide (Reservation.state r ∈ states).

Definition request_release_from (v : db) (now clk batch_id : Z) (reason : text) : tx_ bool :=
  row ← lift (one_or_none (select (of_batch batch_id ACTIVE_INFLIGHT_STATES) v));
  match row with
  | None => mret false
  | Some (id, r) => release_in_flight_reservation now clk id (Reservation.generation r) reason None
  end.

Definition request_inflight_release_for_batch (now clk batch_id : Z) (reason : text) : tx_ bool :=
  v ← get; request_release_from v now clk batch_id reason.

(** ** Actual chunks of a batch *)

Definition BOUND_STATES : list InflightState.t :=
  [InflightState.batch_bound; InflightState.materialized].

Definition materialize_from (v : db) (now clk batch_id actual_chunks limit : Z) : tx_ unit :=
  _ ← lift (refuse (actual_chunks <? 0) (ValueError "actual chunk count invalid"));
  current ← lift (one_or_none (select (of_batch batch_id BOUND_STATES) v));
  match current with
  | None => mret tt
  | Some (id, r) =>
      if bool_decide (Reservation.state r = InflightState.materialized) then mret tt else
      let occupancy := Z.max actual_chunks 1 in
      _ ← apply_inflight_delta now clk op_materialize (Reservation.app_id r)
            (occupancy - Reservation.reserved_chunks r) None
            (mkArgs (Some id) (Some (Reservation.generation r)) (Some [InflightState.batch_bound])
               (Some InflightState.materialized) (Some occupancy) None (Some actual_chunks)
               (Some limit) false);
      mret tt
  end.

Definition materialize_in_flight_reservation (now clk batch_id actual_chunks limit : Z)
    : tx_ unit :=
  v ← get; materialize_from v now clk batch_id actual_chunks limit.

Definition expand_from (v : db) (now clk batch_id delta limit : Z) : tx_ bool :=
  _ ← lift (refuse (delta <? 1) (ValueError "split expansion must be positive"));
  current ← lift (one_or_none (select (of_batch batch_id BOUND_STATES) v));
  match current with
  | None => throw (InFlightInvariantViolation "reservation missing")
  | Some (id, r) =>
      let occupancy := Reservation.reserved_chunks r + delta in
      (* [materialized_chunks or reserved_chunks]: zero counts as missing *)
      let held := match Reservation.materialized_chunks r with
                  | Some m => if m =? 0 then Reservation.reserved_chunks r else m
                  | None => Reservation.reserved_chunks r
                  end in
      done ← apply_inflight_delta now clk op_split (Reservation.app_id r) delta None
               (mkArgs (Some id) (Some (Reservation.generation r)) (Some BOUND_STATES) None
                  (Some occupancy) None (Some (held + delta)) (Some limit) false);
      mret (changed done)
  end.

Definition expand_in_flight_for_split (now clk batch_id delta limit : Z) : tx_ bool :=
  v ← get; expand_from v now clk batch_id delta limit.

(** ** Repair *)

Definition occupies (batch_id : Z) (c : Z * ChunkStatus.t) : bool :=
  (fst c =? batch_id) && bool_decide (snd c ∈ OCCUPYING_CHUNK_STATES).
Definition occupying (batch_id : Z) (s : db) : Z :=
  Z.of_nat (length (List.filter (fun p => occupies batch_id (snd p)) (map_to_list (chunks s)))).

Definition lock_balances (now : Z) (op : operation) (app_ids : list Z) : tx_ unit :=
  for_each (fun app => _ ← _lock_balance now app op true; mret tt) (sorted_set app_ids).

(** The materialized reservations of a batch, as the repair of drift reads
    them. *)
Definition drift_rows (limit : Z) (v : db) : list (Z * Reservation.t) :=
  limited limit (select (fun r => bool_decide (Reservation.state r = InflightState.materialized)
                                  && bool_decide (is_Some (Reservation.batch_id r))) v).

(** Every row with a gap counts, whether or not its row still matches. *)
Definition repair_drift (now clk : Z) (row : Z * Reservation.t) : tx_ bool :=
  let '(id, r) := row in
  match Reservation.batch_id r with
  | None => mret false
  | Some b =>
      s ← get;
      let gap := occupying b s - Reservation.reserved_chunks r in
      if gap <? 1 then mret false else
      let filled := Reservation.reserved_chunks r + gap in
      _ ← apply_inflight_delta now clk op_repair (Reservation.app_id r) gap None
            (mkArgs (Some id) (Some (Reservation.generation r))
               (Some [InflightState.materialized]) None (Some filled) None (Some filled) None false);
      mret true
  end.

Definition reconcile_split_occupancy_drift (now clk limit : Z)
    (rows : option (list (Z * Reservation.t))) : tx_ Z :=
  v ← get;
  let rows := default (drift_rows limit v) rows in
  _ ← lock_balances now op_repair (map (fun p => Reservation.app_id (snd p)) rows);
  count_each (repair_drift now clk) rows 0.

Definition batch_status (b : Z) (s : db) : option BatchStatus.t := BatchRef.status <$> batches s !! b.
Definition terminal (status : option BatchStatus.t) : bool :=
  match status with Some st => bool_decide (st ∈ TERMINAL_BATCH_STATES) | None => false end.

(** Released as [acceptance-failed] although bound to a batch that is not
    terminal. *)
Definition misreleased (v : db) (r : Reservation.t) : bool :=
  bool_decide (Reservation.state r = InflightState.released)
  && bool_decide (Reservation.release_reason r = Some (tx "acceptance-failed"))
  && match Reservation.batch_id r with
     | Some b => bool_decide (is_Some (batches v !! b)) && negb (terminal (batch_status b v))
     | None => false
     end.

Definition restore (now clk : Z) (row : Z * Reservation.t) : tx_ bool :=
  let '(id, r) := row in
  match Reservation.batch_id r with
  | None => mret false
  | Some b =>
      s ← get;
      if terminal (batch_status b s) then mret false else
      match select (of_batch b ACTIVE_INFLIGHT_STATES) s with
      | _ :: _ => mret false
      | [] =>
          restored ← apply_inflight_delta now clk op_repair (Reservation.app_id r)
            (Reservation.reserved_chunks r) None
            (mkArgs (Some id) (Some (Reservation.generation r)) (Some [InflightState.released])
               (Some InflightState.batch_bound) (Some (Reservation.reserved_chunks r)) None None
               None false);
          mret (changed restored)
      end
  end.

Definition repair_misreleased_from (v : db) (now clk limit : Z) : tx_ Z :=
  let rows := limited limit (select (misreleased v) v) in
  _ ← lock_balances now op_repair (map (fun p => Reservation.app_id (snd p)) rows);
  count_each (restore now clk) rows 0.

Definition repair_misreleased_bound_reservations (now clk limit : Z) : tx_ Z :=
  v ← get; repair_misreleased_from v now clk limit.

(** The batches that point at a reservation. *)
Definition pointing (id : Z) (v : db) : list Z :=
  sorting.merge_sort Z.le
    (fst <$> List.filter
       (fun p => bool_decide (BatchRef.send_inflight_reservation_id (snd p) = Some id))
       (map_to_list (batches v))).

Definition unbound_rows (v : db) : list (Z * Reservation.t * Z) :=
  flat_map (fun p => map (pair p) (pointing (fst p) v))
    (select (fun r => bool_decide (Reservation.state r = InflightState.reserved)
                      && bool_decide (Reservation.batch_id r = None)) v).

Definition bind_existing (now clk : Z) (row : Z * Reservation.t * Z) : tx_ bool :=
  let '(id, r, batch_id) := row in
  s ← get;
  if match reservations s !! id with
     | Some c => (Reservation.generation c =? Reservation.generation r)
                 && bool_decide (Reservation.state c = InflightState.reserved)
                 && bool_decide (Reservation.batch_id c = None)
                 && match Reservation.expires_at c with Some t => clk <? t | None => false end
     | None => false
     end
  then _ ← bind_in_flight_reservation now clk id (Reservation.generation r) batch_id
             (Reservation.app_id r);
       mret true
  else mret false.

Definition bind_reserved_from (v : db) (now clk limit : Z) : tx_ Z :=
  let rows := limited limit (unbound_rows v) in
  _ ← lock_balances now op_repair (map (fun p => Reservation.app_id (snd (fst p))) rows);
  count_each (bind_existing now clk) rows 0.

Definition bind_reserved_reservation_to_existing_batch (now clk limit : Z) : tx_ Z :=
  v ← get; bind_reserved_from v now clk limit.

(** ** Convergence of the balance ([reconcile_send_inflight_app]) *)

Definition active_of (app : Z) (r : Reservation.t) : bool :=
  (Reservation.app_id r =? app) && active r.

(** The batches with more than one active reservation of the application. *)
Definition duplicates (app : Z) (s : db) : list Z :=
  let bs := omap (fun p => Reservation.batch_id (snd p)) (select (active_of app) s) in
  List.filter (fun b => Nat.ltb 1 (count_occ Z.eq_dec bs b)) (remove_dups bs).

Inductive reconcile_outcome := matched | repaired | blocked.

#[export] Instance reconcile_outcome_eq_dec : EqDecision reconcile_outcome.
Proof. solve_decision. Defined.

Definition reconcile_send_inflight_app (now app : Z) : tx_ reconcile_outcome :=
  s ← get;
  computed ← lift (int4 (active_sum app s));
  let count := Z.of_nat (length (select (active_of app) s)) in
  let row := balances s !! app in
  let stored := Balance.reserved_chunks <$> row in
  let record r := modify (add_fact (mkFact app stored computed (computed - default 0 stored)
                                      count (tx r))) in
  if negb (bool_decide (duplicates app s = [])) then
    _ ← mark_conservation_blocked now app;
    _ ← record "blocked"%string;
    mret blocked
  else
  match row with
  | None =>
      if computed =? 0 then mret matched else
      _ ← insert_balance now app computed;
      _ ← record "repaired"%string;
      mret repaired
  | Some b =>
      if Balance.reserved_chunks b =? computed then
        _ ← (if bool_decide (is_Some (Balance.conservation_blocked_at b)) then
               _ ← update_balance app (fun _ => true)
                     (fun b => Balance.mk (Balance.reserved_chunks b) None now);
               mret tt
             else mret tt);
        mret matched
      else
        _ ← update_balance app (fun _ => true) (fun _ => Balance.mk computed None now);
        _ ← record "repaired"%string;
        mret repaired
  end.

(** The applications with a balance or an active reservation. *)
Definition known_apps (limit : Z) (v : db) : list Z :=
  limited limit (sorted_set ((fst <$> map_to_list (balances v))
    ++ map (fun p => Reservation.app_id (snd p)) (select active v))).

Definition reconcile_inflight_balance_conservation (now limit : Z) (apps : option (list Z))
    : tx_ Z :=
  v ← get;
  count_each (fun app => outcome ← reconcile_send_inflight_app now app;
                         mret (bool_decide (outcome = repaired)))
    (sorted_set (default (known_apps limit v) apps)) 0.

(** ** The recovery of reservations *)

Definition orphan (now : Z) (r : Reservation.t) : bool :=
  bool_decide (Reservation.state r = InflightState.reserved)
  && bool_decide (Reservation.batch_id r = None)
  && match Reservation.expires_at r with Some t => t <? now | None => false end.

Definition batch_of (v : db) (r : Reservation.t) : option BatchStatus.t :=
  b ← Reservation.batch_id r; batch_status b v.

Definition on_terminal_batch (v : db) (r : Reservation.t) : bool := active r && terminal (batch_of v r).

Definition release_reason_of (status : BatchStatus.t) : text :=
  match status with
  | BatchStatus.completed => tx "batch-completed"
  | BatchStatus.completed_unknown => tx "batch-completed-unknown"
  | BatchStatus.cancelled => tx "batch-cancelled"
  | BatchStatus.rejected => tx "batch-rejected"
  | BatchStatus.expired => tx "batch-expired"
  | _ => []
  end.

Definition release_orphan (now clk : Z) (row : Z * Reservation.t) : tx_ bool :=
  release_in_flight_reservation now clk (fst row) (Reservation.generation (snd row))
    (tx "orphan-expired") None.

Definition release_terminal (v : db) (now clk : Z) (row : Z * Reservation.t) : tx_ bool :=
  release_in_flight_reservation now clk (fst row) (Reservation.generation (snd row))
    (default [] (release_reason_of <$> batch_of v (snd row))) None.

(** The four reads before the locks may see four states of the database. *)
Definition reconcile_from (v1 v2 v3 v4 : db) (now clk limit : Z) : tx_ Z :=
  let orphans := limited limit (select (orphan now) v1) in
  let terminals := limited limit (select (on_terminal_batch v2) v2) in
  let drift := drift_rows limit v3 in
  let conservation_apps := known_apps limit v4 in
  _ ← lock_balances now op_reconcile
        (map (fun p => Reservation.app_id (snd p)) (orphans ++ terminals ++ drift)
         ++ conservation_apps);
  n1 ← count_each (release_orphan now clk) orphans 0;
  n2 ← count_each (release_terminal v2 now clk) terminals n1;
  n3 ← reconcile_split_occupancy_drift now clk limit (Some drift);
  n4 ← reconcile_inflight_balance_conservation now limit (Some conservation_apps);
  mret (n2 + n3 + n4).

Definition reconcile_in_flight_reservations (now clk limit : Z) : tx_ Z :=
  v ← get; reconcile_from v v v v now clk limit.

(** ** The outcome of an ambiguous commit *)

(** A batch with the hash of its idempotency record. *)
Definition recorded_batch : Type := BatchRef.t * option text.

Definition _same_subject (row : recorded_batch) (app_id : Z) (biz_id request_hash : text) : bool :=
  match BatchRef.app_id (fst row) with Some a => a =? app_id | None => true end
  && match BatchRef.biz_id (fst row) with Some b => bool_decide (b = biz_id) | None => true end
  && bool_decide (snd row = Some request_hash).

Definition _lookup_idempotent_batch (scope_kind scope_id biz_id : text) (s : db)
    : option recorded_batch :=
  '(batch_id, hash) ← records s !! (scope_kind, scope_id, biz_id);
  b ← batches s !! batch_id;
  Some (b, hash).

(** The hash of the record of a batch; a batch has at most one. *)
Definition hash_of (batch_id : Z) (s : db) : option text :=
  r ← head (List.filter (fun p => fst (snd p) =? batch_id) (map_to_list (records s)));
  snd (snd r).

(** The rows of which [_load_bound_batch] takes the first, in no stated order. *)
Definition bound_batches (reservation_id : Z) (batch_id : option Z) (s : db)
    : list recorded_batch :=
  map (fun p => (snd p, hash_of (fst p) s))
    (List.filter (fun p => bool_decide (batch_id = Some (fst p))
                           || bool_decide (BatchRef.send_inflight_reservation_id (snd p)
                                           = Some reservation_id))
       (map_to_list (batches s))).

(** [first]: the row the database returns first; [readable]: whether the first
    statement succeeds. *)
Definition resolve_ambiguous_acceptance_commit
    (first : list recorded_batch -> option recorded_batch) (readable : bool)
    (reservation_id generation app_id : Z) (scope_kind scope_id biz_id request_hash : text)
    (s : db) : AcceptCommitResolution :=
  if negb readable then mkResolution UNKNOWN None None else
  match reservations s !! reservation_id with
  | None => mkResolution UNKNOWN None None
  | Some current =>
      let state := Some (Reservation.state current) in
      if negb (Reservation.app_id current =? app_id)
      then mkResolution BOUND_TO_CONFLICTING_BATCH None state else
      match Reservation.state current, Reservation.batch_id current with
      | InflightState.reserved, None =>
          match _lookup_idempotent_batch scope_kind scope_id biz_id s with
          | None => mkResolution UNBOUND None state
          | Some recorded =>
              let no := Some (sql_trim (BatchRef.batch_no (fst recorded))) in
              if negb (_same_subject recorded app_id biz_id request_hash)
              then mkResolution BOUND_TO_CONFLICTING_BATCH no state
              else match BatchRef.send_inflight_reservation_id (fst recorded) with
                   | Some pointer =>
                       if pointer =? reservation_id
                       then mkResolution BOUND_TO_EXPECTED_BATCH no state
                       else mkResolution BOUND_TO_CONFLICTING_BATCH no state
                   | None => mkResolution BOUND_TO_EXPECTED_BATCH no state
                   end
          end
      | InflightState.released, None => mkResolution UNBOUND None state
      | InflightState.reserved, Some _ => mkResolution UNKNOWN None state
      | st, batch_id =>
          if negb (Reservation.generation current =? generation)
             && negb (bool_decide (st = InflightState.released))
          then mkResolution BOUND_TO_CONFLICTING_BATCH None state else
          match first (bound_batches reservation_id batch_id s) with
          | None => mkResolution UNKNOWN None state
          | Some bound =>
              let no := Some (sql_trim (BatchRef.batch_no (fst bound))) in
              if _same_subject bound app_id biz_id request_hash
              then mkResolution BOUND_TO_EXPECTED_BATCH no state
              else mkResolution BOUND_TO_CONFLICTING_BATCH no state
          end
      end
  end.

(** ** The deferred triggers and the commit ([schema.sql]) *)

Definition check_send_inflight_balance_conservation (app : Z) (s : db) : result exc unit :=
  expected ← int4 (active_sum app s);
  match balances s !! app with
  | None => refuse (negb (expected =? 0)) (IntegrityError "send_inflight balance missing")
  | Some b => refuse (negb (Balance.reserved_chunks b =? expected))
                (IntegrityError "send_inflight balance drift")
  end.

(** A batch has at most one reservation. *)
Definition check_send_inflight_chunk_occupancy (batch_id : Z) (s : db) : result exc unit :=
  match select (of_batch batch_id ACTIVE_INFLIGHT_STATES) s with
  | [] => Ok tt
  | (_, r) :: _ => refuse (Reservation.reserved_chunks r <? occupying batch_id s)
                     (IntegrityError "send_inflight occupancy exceeds reservation")
  end.

Definition run_trigger (s : db) (t : trigger) : result exc unit :=
  match t with
  | conservation_of app => check_send_inflight_balance_conservation app s
  | occupancy_of b => check_send_inflight_chunk_occupancy b s
  end.

Fixpoint run_triggers (s : db) (l : list trigger) : result exc unit :=
  match l with
  | [] => Ok tt
  | t :: rest => _ ← run_trigger s t; run_triggers s rest
  end.

(** The end of [engine.begin()]: the deferred triggers, then the commit. *)
Definition committed {A} (body : tx_ A) : tx_ A :=
  x ← body;
  s ← get;
  _ ← lift (run_triggers s (deferred s));
  _ ← modify unqueue;
  mret x.

(** A write of another component to [sms_chunk], with the occupancy trigger. *)
Definition write_chunk (id : Z) (row : option (Z * ChunkStatus.t)) : tx_ unit :=
  s ← get;
  let old := chunks s !! id in
  _ ← modify (set_chunks (partial_alter (fun _ => row) id));
  if bool_decide (old = row) then mret tt else
  modify (queue (map (fun c => occupancy_of (fst c)) (option_list (from_option Some old row)))).

(** ** The repository of the pipeline ([services/pipeline_repository.py]) *)

Definition in_transaction {A} (m : tx_ A) (s : db) : result exc A * db := transaction (committed m) s.

Definition of_class (cls : string) (e : exc) : bool := let 'Exc c _ := e in bool_decide (c = tx cls).

(** The handlers of a conservation error: mark the application in a transaction
    of its own, then raise; an [IntegrityError] is raised as [wrapped]. *)
Definition fail_closed {A} (now : Z) (app_id : option Z) (wrapped : exc)
    (r : result exc A * db) : result exc A * db :=
  let block e s := match app_id with
                   | None => (Raise e, s)
                   | Some app => match in_transaction (mark_conservation_blocked now app) s with
                                 | (Ok _, s') => (Raise e, s')
                                 | (Raise e', s') => (Raise e', s')
                                 end
                   end in
  match r with
  | (Ok x, s) => (Ok x, s)
  | (Raise e, s) =>
      if of_class "InFlightInvariantViolation" e then block e s
      else if of_class "IntegrityError" e && conservation_error e then block wrapped s
      else (Raise e, s)
  end.

Definition repository_reserve (now clk app_id estimated limit : Z) (s : db)
    : result exc InFlightReservation * db :=
  if (estimated <? 1) || (limit <? 1)
  then (Raise (ValueError "in-flight reservation bounds invalid"), s)
  else fail_closed now (Some app_id) violation_of_reserve
         (in_transaction (reserve_in_flight_chunks now clk app_id estimated limit) s).

Definition repository_release (now clk reservation_id generation : Z) (reason : text)
    (app_id : option Z) (s : db) : result exc bool * db :=
  fail_closed now app_id violation_of_release
    (in_transaction (release_in_flight_reservation now clk reservation_id generation reason app_id)
       s).

Definition repository_release_unbound (now clk reservation_id generation app_id : Z) (s : db)
    : result exc bool * db :=
  fail_closed now (Some app_id) violation_of_release
    (in_transaction (release_unbound_acceptance_reservation now clk reservation_id generation
                       (Some app_id)) s).

End Inflight.
