(* ===== verification/InflightSafety.v ===== *)
(** * Conservation of the in-flight capacity

    What every statement of [Inflight] does to the rows, the invariant of the
    tables, and the conservation law: the balance of an application is the sum
    of its active reservations, in every order of transactions and whatever
    older state their early reads saw. *)

From S2P Require Import Prelude PyText Failover Outbox Inflight.

Module InflightSafety.
Import Inflight.

Definition balance_of (app : Z) (s : db) : Z :=
  from_option Balance.reserved_chunks 0 (balances s !! app).

(** The constraints of the tables hold of every stored row. *)
Record wf (s : db) : Prop := mkWf {
  wf_ids : forall id r, reservations s !! id = Some r -> id < next_reservation_id s;
  wf_rows : forall id r, reservations s !! id = Some r -> reservation_check r = Ok tt;
  wf_balances : forall app b, balances s !! app = Some b -> balance_check b = Ok tt;
  wf_batches : forall i j r q b, reservations s !! i = Some r -> reservations s !! j = Some q ->
    Reservation.batch_id r = Some b -> Reservation.batch_id q = Some b -> i = j
}.

(** ** Sums *)

Lemma active_sum_insert_new app s id r :
  reservations s !! id = None ->
  active_sum app (set_reservations (<[id := r]>) s) = active_sum app s + weight app r.
Proof.
  intros N. unfold active_sum. simpl.
  rewrite map_fold_insert_L; [lia | intros; lia | done].
Qed.

Lemma active_sum_split app s id r :
  reservations s !! id = Some r ->
  active_sum app s = weight app r + active_sum app (set_reservations (delete id) s).
Proof.
  intros H. unfold active_sum. simpl.
  by rewrite (map_fold_delete_L (fun _ r n => weight app r + n) 0 id r); [|intros; lia|].
Qed.

Lemma active_sum_update app s id r r' :
  reservations s !! id = Some r ->
  active_sum app (set_reservations (<[id := r']>) s)
  = active_sum app s - weight app r + weight app r'.
Proof.
  intros H. rewrite (active_sum_split app s id r H).
  rewrite (active_sum_split app (set_reservations (<[id := r']>) s) id r').
  - unfold active_sum. simpl. rewrite delete_insert_eq. lia.
  - simpl. apply lookup_insert_eq.
Qed.

Lemma weight_other app r : Reservation.app_id r <> app -> weight app r = 0.
Proof. intros N. unfold weight. by apply Z.eqb_neq in N as ->. Qed.

(** ** What a statement that returned has done *)

Definition with_balance (app : Z) (b : Balance.t) (l : list trigger) (s : db) : db :=
  queue l (set_balances (<[app := b]>) s).
Definition with_reservation (id : Z) (r : Reservation.t) (l : list trigger) (s : db) : db :=
  queue l (set_reservations (<[id := r]>) s).

Lemma insert_balance_ok now app n s u s' : insert_balance now app n s = Ok (u, s') ->
  balance_check (Balance.mk n None now) = Ok tt /\
  s' = with_balance app (Balance.mk n None now) [conservation_of app] s.
Proof. unfold insert_balance. intros H. stx. done. Qed.

Lemma update_balance_ok app g f s x s' : update_balance app g f s = Ok (x, s') ->
  (x = None /\ s' = s) \/
  (exists b, balances s !! app = Some b /\ g b = true /\ balance_check (f b) = Ok tt /\
     x = Some (Balance.reserved_chunks (f b)) /\
     s' = with_balance app (f b)
            (if Balance.reserved_chunks (f b) =? Balance.reserved_chunks b
             then [] else [conservation_of app]) s).
Proof.
  unfold update_balance. intros H. stx.
  destruct (balances s !! app) as [b|] eqn:B; [|stx; by left].
  destruct (g b) eqn:G; [|stx; by left]. stx. right. by exists b.
Qed.

Lemma insert_reservation_ok r s x s' : insert_reservation r s = Ok (x, s') ->
  reservation_check r = Ok tt /\ batch_id_check x r s = Ok tt /\ x = next_reservation_id s /\
  s' = with_reservation x r (conservation_of (Reservation.app_id r) :: occupancy_event None r)
         (take_id s).
Proof. unfold insert_reservation. intros H. stx. done. Qed.

Lemma update_reservation_ok id g f s x s' : update_reservation id g f s = Ok (x, s') ->
  (x = false /\ s' = s) \/
  (exists r, reservations s !! id = Some r /\ g r = true /\ x = true /\
     reservation_check (f r) = Ok tt /\ batch_id_check id (f r) s = Ok tt /\
     s' = with_reservation id (f r)
            (conservation_of (Reservation.app_id (f r)) :: occupancy_event (Some r) (f r)) s).
Proof.
  unfold update_reservation. intros H. stx.
  destruct (reservations s !! id) as [r|] eqn:R; [|stx; by left].
  destruct (g r) eqn:G; [|stx; by left]. stx. right. by exists r.
Qed.

Lemma batch_id_check_unique id r s j q b : batch_id_check id r s = Ok tt ->
  Reservation.batch_id r = Some b -> reservations s !! j = Some q ->
  Reservation.batch_id q = Some b -> j = id.
Proof.
  unfold batch_id_check. intros H E J Q. rewrite E in H. exec. bool_prop.
  destruct (Z.eq_dec j id) as [|N]; [done|]. exfalso.
  assert (T : List.existsb (fun p => negb (p.1 =? id)
             && bool_decide (Reservation.batch_id p.2 = Some b)) (map_to_list (reservations s))
             = true); [|congruence].
  apply List.existsb_exists. exists (j, q). split.
  - by apply list_elem_of_In, elem_of_map_to_list.
  - simpl. apply Z.eqb_neq in N. rewrite N, Q. by rewrite bool_decide_eq_true_2.
Qed.

(** ** How the tables evolve

    A change of an application's balance or active sum queues its conservation
    check; rows are never deleted, never move to another application, and
    their generation never falls. *)

Definition keeps_rows (s s' : db) : Prop :=
  forall id r, reservations s !! id = Some r ->
  exists r', reservations s' !! id = Some r' /\ Reservation.app_id r' = Reservation.app_id r /\
    Reservation.generation r <= Reservation.generation r'.

Definition keeps_balances (s s' : db) : Prop :=
  forall app, is_Some (balances s !! app) -> is_Some (balances s' !! app).

Definition tracked (s s' : db) : Prop :=
  (forall t, t ∈ deferred s -> t ∈ deferred s') /\
  forall app, conservation_of app ∉ deferred s' ->
    balance_of app s' = balance_of app s /\ active_sum app s' = active_sum app s.

Definition evolves (s s' : db) : Prop :=
  wf s -> wf s' /\ keeps_rows s s' /\ keeps_balances s s' /\ tracked s s'.

#[export] Instance keeps_rows_preorder : PreOrder keeps_rows.
Proof.
  split.
  - intros s id r H. by exists r.
  - intros s1 s2 s3 H1 H2 id r (r' & R1 & A1 & G1)%H1.
    destruct (H2 _ _ R1) as (r'' & R2 & A2 & G2). exists r''. split_and!; [done | congruence | lia].
Qed.

#[export] Instance tracked_preorder : PreOrder tracked.
Proof.
  split; [by split|]. intros s1 s2 s3 [Q1 T1] [Q2 T2]. split; [eauto|].
  intros app N. destruct (T2 app N) as [-> ->]. apply T1. eauto.
Qed.

#[export] Instance evolves_preorder : PreOrder evolves.
Proof.
  split.
  - intros s W. split_and!; [done | reflexivity | by intros ? | reflexivity].
  - intros s1 s2 s3 H1 H2 W1. destruct (H1 W1) as (W2 & R1 & B1 & T1).
    destruct (H2 W2) as (W3 & R2 & B2 & T2).
    split_and!; [done | by transitivity s2 | intros app; eauto | by transitivity s2].
Qed.

Lemma balance_of_with app b l s app' :
  balance_of app' (with_balance app b l s)
  = if app' =? app then Balance.reserved_chunks b else balance_of app' s.
Proof.
  unfold balance_of. simpl. destruct (Z.eqb_spec app' app) as [->|N].
  - by rewrite lookup_insert_eq.
  - by rewrite lookup_insert_ne.
Qed.

Lemma evolves_balance app b l s :
  balance_check b = Ok tt ->
  conservation_of app ∈ l \/ Balance.reserved_chunks b = balance_of app s ->
  evolves s (with_balance app b l s).
Proof.
  intros C L W. split_and!.
  - destruct W as [W1 W2 W3 W4]. split; simpl; auto. intros app' b'.
    rewrite lookup_insert_Some. intros [[_ <-] | [_ H]]; eauto.
  - intros id r H. by exists r.
  - intros app' H. simpl. apply lookup_insert_is_Some. destruct (decide (app = app')); auto.
  - split; [simpl; set_solver|]. intros app' N. split; [|done]. rewrite balance_of_with.
    destruct (Z.eqb_spec app' app) as [->|]; [|done]. destruct L as [L|L]; [|done].
    exfalso. apply N. simpl. set_solver.
Qed.

Lemma evolves_reservation id r old l s :
  reservations s !! id = old ->
  match old with
  | Some q => Reservation.app_id r = Reservation.app_id q /\
              Reservation.generation q <= Reservation.generation r
  | None => True
  end ->
  (wf s -> id < next_reservation_id s) ->
  reservation_check r = Ok tt -> batch_id_check id r s = Ok tt ->
  conservation_of (Reservation.app_id r) ∈ l -> evolves s (with_reservation id r l s).
Proof.
  intros O A I C B L W. specialize (I W). destruct W as [W1 W2 W3 W4]. split_and!.
  - split; simpl; [..|done|].
    + intros j q. rewrite lookup_insert_Some. intros [[<- _] | [_ H]]; eauto.
    + intros j q. rewrite lookup_insert_Some. intros [[_ <-] | [_ H]]; eauto.
    + intros i j q1 q2 b. rewrite !lookup_insert_Some.
      intros [[<- <-] | [N1 H1]] [[<- <-] | [N2 H2]] E1 E2; [done | | | by eapply W4].
      * symmetry. by eapply batch_id_check_unique.
      * by eapply batch_id_check_unique.
  - intros j q H. simpl. destruct (decide (id = j)) as [->|N].
    + rewrite H in O. subst old. exists r. rewrite lookup_insert_eq. naive_solver.
    + exists q. by rewrite lookup_insert_ne.
  - by intros app H.
  - split; [simpl; set_solver|]. intros app N. split; [done|].
    assert (NA : Reservation.app_id r <> app) by (intros <-; apply N; simpl; set_solver).
    change (active_sum app (with_reservation id r l s))
      with (active_sum app (set_reservations (<[id := r]>) s)).
    destruct old as [q|].
    + rewrite (active_sum_update _ _ _ _ _ O), !weight_other by naive_solver congruence. lia.
    + rewrite (active_sum_insert_new _ _ _ _ O), weight_other by done. lia.
Qed.

(** A change outside the two tables. *)
Lemma evolves_tables s s' :
  balances s' = balances s -> reservations s' = reservations s ->
  next_reservation_id s <= next_reservation_id s' ->
  (forall t, t ∈ deferred s -> t ∈ deferred s') -> evolves s s'.
Proof.
  intros B R N D [W1 W2 W3 W4]. split_and!.
  - split; rewrite ?R, ?B; auto. intros id r H%W1. lia.
  - intros id r H. exists r. by rewrite R.
  - intros app. by rewrite B.
  - split; [done|]. intros app _. unfold balance_of, active_sum. by rewrite B, R.
Qed.

Lemma within_insert_balance now app n : within evolves (insert_balance now app n).
Proof.
  intros s u s' (C & ->)%insert_balance_ok. apply evolves_balance; [done|]. left. set_solver.
Qed.

Lemma within_update_balance app g f : within evolves (update_balance app g f).
Proof.
  intros s x s' [[_ ->] | (b & B & _ & C & _ & ->)]%update_balance_ok; [reflexivity|].
  apply evolves_balance; [done|]. unfold balance_of. rewrite B. simpl.
  destruct (Z.eqb_spec (Balance.reserved_chunks (f b)) (Balance.reserved_chunks b)); [by right|].
  left. set_solver.
Qed.

Lemma within_insert_reservation r : within evolves (insert_reservation r).
Proof.
  intros s x s' (C & B & -> & ->)%insert_reservation_ok W.
  assert (F : reservations s !! next_reservation_id s = None).
  { destruct (reservations s !! next_reservation_id s) eqn:E; [|done]. apply (wf_ids s W) in E. lia. }
  assert (E : evolves s (take_id s)) by (apply evolves_tables; simpl; auto with lia).
  revert W. change (evolves s (with_reservation (next_reservation_id s) r
    (conservation_of (Reservation.app_id r) :: occupancy_event None r) (take_id s))).
  transitivity (take_id s); [done|].
  apply evolves_reservation with (old := None); simpl; [done | done | lia | done | done | set_solver].
Qed.

Lemma within_update_reservation id g f :
  (forall r, g r = true -> Reservation.app_id (f r) = Reservation.app_id r /\
                Reservation.generation r <= Reservation.generation (f r)) ->
  within evolves (update_reservation id g f).
Proof.
  intros F s x s' [[_ ->] | (r & R & G & _ & C & B & ->)]%update_reservation_ok; [reflexivity|].
  apply evolves_reservation with (old := Some r); [done | auto | | done | done | set_solver].
  intros W. by apply (wf_ids s W) in R.
Qed.

Lemma within_link id b : within evolves (link_batch id b).
Proof.
  unfold link_batch. within_tac. apply within_modify. intros s. by apply evolves_tables.
Qed.

Lemma within_record x : within (E:=exc) evolves (modify (add_fact x)).
Proof. apply within_modify. intros s. by apply evolves_tables. Qed.

#[export] Hint Resolve within_insert_balance within_update_balance within_insert_reservation
  within_link within_record : within.

Section Loops.
Context (R : relation db) `{!PreOrder R}.

Lemma within_for_each {A} (m : A -> tx_ unit) l :
  (forall x, within R (m x)) -> within R (for_each m l).
Proof. intros H. induction l; simpl; within_tac; auto. Qed.

Lemma within_count_each {A} (m : A -> tx_ bool) l : forall n,
  (forall x, within R (m x)) -> within R (count_each m l n).
Proof. intros n H. revert n. induction l; intros n; simpl; within_tac; auto. Qed.

End Loops.

Lemma within_lock now app op c : within evolves (_lock_balance now app op c).
Proof. unfold _lock_balance. within_tac. Qed.
#[export] Hint Resolve within_lock : within.

Lemma within_adjust now app n d l : within evolves (_adjust_locked_balance now app n d l).
Proof. unfold _adjust_locked_balance. within_tac. Qed.
#[export] Hint Resolve within_adjust : within.

Lemma delta_row_keeps now occ a r :
  Reservation.app_id (delta_row now occ a r) = Reservation.app_id r /\
  Reservation.generation r <= Reservation.generation (delta_row now occ a r).
Proof. unfold delta_row. simpl. case_bool_decide; simpl; split; auto; lia. Qed.

#[export] Hint Extern 1 (within evolves (update_reservation _ _ (delta_row _ _ _))) =>
  apply within_update_reservation; intros; apply delta_row_keeps : within.
#[export] Hint Extern 1 (within evolves (update_reservation _ _ (bound_row _ _))) =>
  apply within_update_reservation; simpl; auto with lia : within.

Lemma within_delta now clk op app d e a :
  within evolves (apply_inflight_delta now clk op app d e a).
Proof.
  assert (within evolves (_apply_reservation_delta now clk op app d a)).
  { unfold _apply_reservation_delta. within_tac. }
  unfold apply_inflight_delta, _apply_reserve. within_tac.
Qed.
#[export] Hint Resolve within_delta : within.

Lemma within_bind_reservation now clk id g b app :
  within evolves (bind_in_flight_reservation now clk id g b app).
Proof.
  unfold bind_in_flight_reservation. within_tac.
Qed.
#[export] Hint Resolve within_bind_reservation : within.

Lemma within_release v now clk id g reason app :
  within evolves (release_from v now clk id g reason app).
Proof. unfold release_from, release_unbound_from. within_tac. Qed.
#[export] Hint Resolve within_release : within.

Lemma within_release_now now clk id g reason app :
  within evolves (release_in_flight_reservation now clk id g reason app).
Proof. unfold release_in_flight_reservation. within_tac. Qed.
#[export] Hint Resolve within_release_now : within.

Lemma within_lock_balances now op l : within evolves (lock_balances now op l).
Proof. apply within_for_each; [apply _|]. intros. within_tac. Qed.
#[export] Hint Resolve within_lock_balances : within.

Lemma within_repair_drift now clk row : within evolves (repair_drift now clk row).
Proof. unfold repair_drift. within_tac. Qed.

Lemma within_drift now clk limit rows :
  within evolves (reconcile_split_occupancy_drift now clk limit rows).
Proof.
  unfold reconcile_split_occupancy_drift. within_tac. apply within_count_each; [apply _|].
  apply within_repair_drift.
Qed.

Lemma within_reconcile_app now app : within evolves (reconcile_send_inflight_app now app).
Proof. unfold reconcile_send_inflight_app, mark_conservation_blocked. within_tac. Qed.
#[export] Hint Resolve within_reconcile_app : within.

Lemma within_converge now limit apps :
  within evolves (reconcile_inflight_balance_conservation now limit apps).
Proof.
  unfold reconcile_inflight_balance_conservation. within_tac. apply within_count_each; [apply _|].
  intros app. within_tac.
Qed.
#[export] Hint Resolve within_drift within_converge : within.

Lemma within_expand v now clk b d limit : within evolves (expand_from v now clk b d limit).
Proof. unfold expand_from. within_tac. Qed.

Lemma within_materialize v now clk b n limit :
  within evolves (materialize_from v now clk b n limit).
Proof. unfold materialize_from. within_tac. Qed.

Lemma within_bind_reserved v now clk limit : within evolves (bind_reserved_from v now clk limit).
Proof.
  unfold bind_reserved_from. within_tac. apply within_count_each; [apply _|]. intros [[id r] b].
  unfold bind_existing. within_tac.
Qed.

Lemma within_misreleased v now clk limit :
  within evolves (repair_misreleased_from v now clk limit).
Proof.
  unfold repair_misreleased_from. within_tac. apply within_count_each; [apply _|]. intros [id r].
  unfold restore. within_tac.
Qed.

Lemma within_reconcile v1 v2 v3 v4 now clk limit :
  within evolves (reconcile_from v1 v2 v3 v4 now clk limit).
Proof.
  unfold reconcile_from. within_tac; (apply within_count_each; [apply _|]; intros row);
    unfold release_orphan, release_terminal; auto with within.
Qed.

Lemma within_write_chunk id row : within evolves (write_chunk id row).
Proof.
  unfold write_chunk.
  within_tac; apply within_modify; intros s; apply evolves_tables; simpl; auto with lia; set_solver.
Qed.
#[export] Hint Resolve within_expand within_materialize within_bind_reserved within_misreleased
  within_reconcile within_write_chunk : within.

(** ** The transactions of the system

    [h] is the history of committed states, newest first: a transaction reads
    before its locks from any of them.  Other components write chunks (with
    the occupancy trigger), batches and records; a transaction may call
    several operations, and the split of a chunk catches a refused expansion,
    which has written nothing. *)

Definition discard {A} (m : tx_ A) : tx_ unit := _ ← m; mret tt.
Definition attempted {A} (m : tx_ A) : tx_ unit :=
  fun s => match m s with Ok (_, s') => Ok (tt, s') | Raise _ => Ok (tt, s) end.

Inductive body (h : list db) : tx_ unit -> Prop :=
| body_reserve now clk app n limit : body h (discard (reserve_in_flight_chunks now clk app n limit))
| body_bind now clk id g b app : body h (bind_in_flight_reservation now clk id g b app)
| body_release v now clk id g reason app :
    v ∈ h -> body h (discard (release_from v now clk id g reason app))
| body_release_unbound v now clk id g app :
    v ∈ h -> body h (discard (release_unbound_from v now clk id g app))
| body_request v now clk b reason :
    v ∈ h -> body h (discard (request_release_from v now clk b reason))
| body_materialize v now clk b n limit :
    v ∈ h -> body h (materialize_from v now clk b n limit)
| body_expand v now clk b d limit :
    v ∈ h -> body h (attempted (expand_from v now clk b d limit))
| body_drift v now clk limit :
    v ∈ h -> body h (discard (reconcile_split_occupancy_drift now clk limit
                                (Some (drift_rows limit v))))
| body_misreleased v now clk limit :
    v ∈ h -> body h (discard (repair_misreleased_from v now clk limit))
| body_bind_reserved v now clk limit :
    v ∈ h -> body h (discard (bind_reserved_from v now clk limit))
| body_reconcile v1 v2 v3 v4 now clk limit :
    v1 ∈ h -> v2 ∈ h -> v3 ∈ h -> v4 ∈ h ->
    body h (discard (reconcile_from v1 v2 v3 v4 now clk limit))
| body_converge v now limit :
    v ∈ h -> body h (discard (reconcile_inflight_balance_conservation now limit
                                (Some (known_apps limit v))))
| body_mark now app : body h (mark_conservation_blocked now app)
| body_chunk id row : body h (write_chunk id row)
| body_other f :
    (forall s, balances (f s) = balances s /\ reservations (f s) = reservations s /\
       chunks (f s) = chunks s /\ next_reservation_id (f s) = next_reservation_id s /\
       deferred (f s) = deferred s) -> body h (modify f)
| body_seq m k : body h m -> body h k -> body h (_ ← m; k).

Inductive history : list db -> Prop :=
| history_start s :
    balances s = ∅ -> reservations s = ∅ -> deferred s = [] -> history [s]
| history_step s h m :
    history (s :: h) -> body (s :: h) m -> history (snd (in_transaction m s) :: s :: h).

Lemma within_body h m : body h m -> within evolves m.
Proof.
  induction 1; unfold discard, reserve_in_flight_chunks, release_unbound_from,
    request_release_from, mark_conservation_blocked; try solve [within_tac].
  - intros s x s' E. unfold attempted in E.
    destruct (expand_from v now clk b d limit s) as [[y s1]|] eqn:X; simplify_eq; [|reflexivity].
    by eapply within_expand.
  - apply within_modify. intros s. destruct (H s) as (B & R & _ & N & D).
    apply evolves_tables; rewrite ?D; auto with lia.
Qed.

(** ** Conservation *)

Lemma int4_ok v n : int4 v = Ok n -> n = v /\ fits_int4 v = true.
Proof. unfold int4. destruct (fits_int4 v) eqn:F; intros; by simplify_eq. Qed.

Lemma check_iff app s : wf s ->
  check_send_inflight_balance_conservation app s = Ok tt <-> balance_of app s = active_sum app s.
Proof.
  intros W. unfold check_send_inflight_balance_conservation, balance_of. split.
  - intros (n & [-> _]%int4_ok & H)%bind_ok.
    destruct (balances s !! app); simpl in *; apply refuse_ok in H; bool_prop; lia.
  - intros E. rewrite <- E. unfold int4. destruct (balances s !! app) as [b|] eqn:B; simpl.
    + apply (wf_balances s W) in B. unfold balance_check in B.
      apply bind_ok in B as (n & [-> F]%int4_ok & _). rewrite F. simpl. by rewrite Z.eqb_refl.
    + done.
Qed.

Lemma run_triggers_in s l t : run_triggers s l = Ok tt -> t ∈ l -> run_trigger s t = Ok tt.
Proof.
  induction l as [|x l IH]; simpl; [set_solver|]. intros ([] & X & L)%bind_ok [->|]%elem_of_cons; auto.
Qed.

Lemma committed_ok {A} (m : tx_ A) s x s' : committed m s = Ok (x, s') ->
  exists s1, m s = Ok (x, s1) /\ run_triggers s1 (deferred s1) = Ok tt /\ s' = unqueue s1.
Proof. unfold committed. intros H. stx. eauto. Qed.

(** What a committed transaction leaves of the invariant. *)
Definition sound (s : db) : Prop :=
  wf s /\ deferred s = [] /\ forall app, balance_of app s = active_sum app s.

Lemma commit_sound {A} (m : tx_ A) s : within evolves m -> sound s -> sound (snd (in_transaction m s)).
Proof.
  intros M (W & D & C). unfold in_transaction, transaction.
  destruct (committed m s) as [[x s']|] eqn:E; simpl; [|done].
  apply committed_ok in E as (s1 & E & T & ->). destruct (M _ _ _ E W) as (W1 & _ & _ & [_ K]).
  split_and!; [by destruct W1 | done |]. intros app.
  change (balance_of app s1 = active_sum app s1).
  destruct (decide (conservation_of app ∈ deferred s1)) as [I|N].
  - apply (check_iff app s1 W1). exact (run_triggers_in _ _ _ T I).
  - destruct (K app N) as [-> ->]. apply C.
Qed.

Lemma history_sound s h : history (s :: h) -> sound s.
Proof.
  intros H. remember (s :: h) as l eqn:L. revert s h L.
  induction H as [s B R D | s h m H IH M]; intros s' h' [= <- <-].
  - unfold sound, balance_of, active_sum. rewrite B, R. split_and!; [|done|done].
    split; rewrite ?B, ?R; intros *; rewrite lookup_empty; discriminate.
  - apply commit_sound; [by eapply within_body | by eapply IH].
Qed.

(** ** The exact effect of a conversion *)

(** The balance of [app] moved by [d]; the other tables and balances did not. *)
Definition moved (app d : Z) (s s' : db) : Prop :=
  reservations s' = reservations s /\ chunks s' = chunks s /\ batches s' = batches s /\
  next_reservation_id s' = next_reservation_id s /\
  forall a, balance_of a s' = balance_of a s + if a =? app then d else 0.

Lemma moved_refl app s : moved app 0 s s.
Proof. split_and!; try done. intros a. destruct (a =? app); lia. Qed.

Lemma lock_ok now app op c s n s' : _lock_balance now app op c s = Ok (n, s') ->
  moved app 0 s s' /\ exists b, balances s' !! app = Some b /\ Balance.reserved_chunks b = n.
Proof.
  unfold _lock_balance. intros (s0 & s0' & [= <- <-] & ([] & s1 & L & H)%stex_bind_ok)%stex_bind_ok.
  apply stex_bind_ok in H as (s1' & s2 & [= <- <-] & H).
  assert (M : moved app 0 s s1).
  { clear H. destruct (c && _) eqn:C; [|stx; apply moved_refl]. apply insert_balance_ok in L as [_ ->].
    split_and!; try done. intros a. rewrite balance_of_with. unfold balance_of.
    destruct (Z.eqb_spec a app) as [->|]; [|lia]. bool_prop.
    destruct (balances s !! app); [|done]. exfalso. eauto. }
  destruct (balances s1 !! app) as [b|] eqn:B; [|discriminate]. case_match; stx; eauto.
Qed.

Lemma adjust_ok now app n d l s x s' b :
  balances s !! app = Some b -> Balance.reserved_chunks b = n ->
  _adjust_locked_balance now app n d l s = Ok (x, s') -> moved app d s s'.
Proof.
  intros B N. unfold _adjust_locked_balance. destruct (Z.eqb_spec d 0) as [->|ND].
  { intros H. stx. apply moved_refl. }
  cbv zeta. destruct (n + d <? 0); [discriminate|].
  destruct (match l with Some l => l <? n + d | None => false end); [discriminate|].
  intros (u & s1 & U & H)%stex_bind_ok.
  apply update_balance_ok in U as [[-> ->] | (b' & B' & G & _ & -> & ->)]; stx.
  rewrite B in B'. injection B' as <-. split_and!; try done. intros a.
  rewrite balance_of_with. simpl. unfold balance_of.
  destruct (Z.eqb_spec a app) as [->|]; [rewrite B; simpl|]; lia.
Qed.

(** The amount a conversion of row [r] adds to the balance and the chunks the
    row holds after it. *)
Definition delta_amount (op : operation) (d : Z) (r : Reservation.t) : Z :=
  if bool_decide (op = op_release) then - Reservation.reserved_chunks r else d.
Definition delta_occupancy (a : delta_args) (r : Reservation.t) : Z :=
  default (Reservation.reserved_chunks r) (da_next_reserved_chunks a).

Lemma delta_ok now clk op app d a s x s' :
  _apply_reservation_delta now clk op app d a s = Ok (x, s') ->
  (x = false /\ moved app 0 s s') \/
  (exists id g r, da_reservation_id a = Some id /\ da_generation a = Some g /\
     reservations s !! id = Some r /\ Reservation.app_id r = app /\
     declined clk op g a r = false /\ x = true /\
     reservations s' = <[id := delta_row now (delta_occupancy a r) a r]> (reservations s) /\
     chunks s' = chunks s /\ batches s' = batches s /\
     forall c, balance_of c s' = balance_of c s + if c =? app then delta_amount op d r else 0).
Proof.
  unfold _apply_reservation_delta. intros H.
  destruct (da_reservation_id a) as [id|]; [|discriminate].
  destruct (da_generation a) as [g|]; [|discriminate].
  apply stex_bind_ok in H as (n & s1 & (M & b & B & N)%lock_ok & H).
  apply stex_bind_ok in H as (s1' & s2 & [= <- <-] & H).
  pose proof M as K. destruct M as (MR & MC & MB & _ & M). rewrite MR in H.
  destruct (reservations s !! id) as [r|] eqn:R; [|stx; by left].
  destruct (Z.eqb_spec (Reservation.app_id r) app) as [A|]; simpl in H; [|discriminate].
  destruct (declined clk op g a r) eqn:D; [stx; by left|]. right.
  destruct (_ <? 1); [discriminate|].
  apply stex_bind_ok in H as (y & s3 & J & H). apply (adjust_ok _ _ _ _ _ _ _ _ _ B N) in J.
  destruct J as (JR & JC & JB & _ & J).
  apply stex_bind_ok in H as (u & s4 & U & H).
  apply update_reservation_ok in U as [[-> ->] | (r' & R' & G & -> & _ & _ & ->)]; stx.
  rewrite JR, MR, R in R'. injection R' as <-. exists id, g, r. split_and!; try done.
  - simpl. by rewrite JR, MR.
  - simpl. congruence.
  - simpl. congruence.
  - intros c. transitivity (balance_of c s3); [done|]. rewrite J, M. destruct (c =? app); unfold delta_amount; lia.
Qed.

(** ** The conservation law *)

(** C7: In every state the system can reach — any order of reservations,
    bindings, releases, materializations, split expansions, repairs and
    reconciliations, each using early reads of any older state, with chunks
    and batches written by other components in between — the balance of an
    application is exactly the sum of its active reservations, it is not
    negative, and every reservation holds at least one chunk. *)
Theorem inflight_conserved s h : history (s :: h) -> forall app,
  balance_of app s = active_sum app s /\ 0 <= balance_of app s /\
  forall id r, reservations s !! id = Some r -> 1 <= Reservation.reserved_chunks r.
Proof.
  intros (W & _ & C)%history_sound app. split_and!; [done| |].
  - unfold balance_of. destruct (balances s !! app) as [b|] eqn:B; [|done]. simpl.
    apply (wf_balances s W) in B. unfold balance_check in B. exec. by apply Z.leb_le.
  - intros id r R. apply (wf_rows s W) in R. unfold reservation_check in R. exec. by apply Z.leb_le.
Qed.

(** A database with application 7 and its batch 1. *)
Definition example_db : db :=
  mkDb ∅ ∅ {[7]} {[1 := BatchRef.mk BatchStatus.queued (tx "B1") (Some 7) None None]} ∅ ∅ [] 1 [].
Definition example_step (m : tx_ unit) (s : db) : db := snd (in_transaction m s).
Definition example_1 : db :=
  example_step (discard (reserve_in_flight_chunks 0 0 7 3 10)) example_db.
Definition example_2 : db := example_step (bind_in_flight_reservation 1 1 1 1 1 7) example_1.
Definition example_3 : db := example_step (materialize_from example_2 2 2 1 5 10) example_2.

Lemma inflight_conserved_witness :
  balance_of 7 example_3 = 5 /\ balance_of 7 example_3 = active_sum 7 example_3.
Proof.
  split; [vm_compute; reflexivity|].
  apply (inflight_conserved example_3 [example_2; example_1; example_db]).
  apply (history_step example_2 _ (materialize_from example_2 2 2 1 5 10)); [|constructor; set_solver].
  apply (history_step example_1 _ (bind_in_flight_reservation 1 1 1 1 1 7)); [|constructor].
  apply (history_step example_db _ (discard (reserve_in_flight_chunks 0 0 7 3 10))); [|constructor].
  by apply history_start.
Defined.

End InflightSafety.
