(* ===== verification/InflightLaws.v ===== *)
(** * Laws of the in-flight operations

    Run alone, the operations of [Inflight] keep the conservation law by
    themselves, so that the deferred trigger never refuses them; a reservation
    is given back once; the reconciliation brings a drifted balance back. *)

From S2P Require Import Prelude PyText Failover Outbox Inflight InflightSafety.

Module InflightLaws.
Import Inflight InflightSafety.

Definition lawful (s : db) : Prop := wf s /\ forall app, balance_of app s = active_sum app s.
Definition law (s s' : db) : Prop := lawful s -> lawful s'.

#[export] Instance law_preorder : PreOrder law.
Proof. split; [intros s L; exact L | intros s1 s2 s3 H1 H2 L; auto]. Qed.

(** ** Conversions that move the balance with the row *)

Definition held (r : Reservation.t) : Z := if active r then Reservation.reserved_chunks r else 0.

Lemma weight_own app r : Reservation.app_id r = app -> weight app r = held r.
Proof. intros <-. unfold weight, held. by rewrite Z.eqb_refl. Qed.

(** The arguments move the balance by what the row [r] gains. *)
Definition balanced (clk : Z) (op : operation) (d : Z) (a : delta_args) (r : Reservation.t) : Prop :=
  forall now g, da_generation a = Some g -> declined clk op g a r = false ->
  delta_amount op d r = held (delta_row now (delta_occupancy a r) a r) - held r.

Lemma delta_lawful now clk op app d a s x s' :
  lawful s ->
  (forall id r, da_reservation_id a = Some id -> reservations s !! id = Some r ->
     balanced clk op d a r) ->
  _apply_reservation_delta now clk op app d a s = Ok (x, s') -> wf s' -> lawful s'.
Proof.
  intros [W L] B H W'. split; [done|]. intros c.
  destruct (delta_ok _ _ _ _ _ _ _ _ _ H)
    as [(_ & R & _ & _ & _ & K) | (id & g & r & I & G & R & A & D & _ & R' & _ & _ & K)]; rewrite K, L.
  - unfold active_sum. rewrite R. destruct (c =? app); lia.
  - transitivity (active_sum c
      (set_reservations (<[id := delta_row now (delta_occupancy a r) a r]>) s)).
    2: { unfold active_sum. simpl. by rewrite R'. }
    rewrite (active_sum_update _ _ _ _ _ R). destruct (Z.eqb_spec c app) as [->|N].
    + rewrite !weight_own by done. rewrite (B id r I R now g G D). lia.
    + rewrite !weight_other; [lia | simpl; congruence..].
Qed.

Lemma apply_lawful now clk op app d e a s x s' :
  op <> op_reserve -> lawful s ->
  (forall id r, da_reservation_id a = Some id -> reservations s !! id = Some r ->
     balanced clk op d a r) ->
  apply_inflight_delta now clk op app d e a s = Ok (x, s') -> lawful s'.
Proof.
  intros N L B H. pose proof (within_delta _ _ _ _ _ _ _ _ _ _ H (proj1 L)) as (W' & _).
  unfold apply_inflight_delta in H. destruct op; try done;
    apply stex_bind_ok in H as (y & s1 & H & [= _ <-]); by eapply delta_lawful.
Qed.

Lemma declined_state clk op g a r l :
  declined clk op g a r = false -> da_expected_states a = Some l ->
  Reservation.generation r = g /\ Reservation.state r ∈ l.
Proof.
  unfold declined. intros D E. rewrite E in D. repeat (apply orb_false_iff in D as [D ?]).
  bool_prop. done.
Qed.

(** A release gives back what the locked row holds, whatever was read before. *)
Lemma balanced_release clk d a r l :
  da_expected_states a = Some l -> (forall st, st ∈ l -> st ∈ ACTIVE_INFLIGHT_STATES) ->
  da_next_state a = Some InflightState.released -> balanced clk op_release d a r.
Proof.
  intros E I N now g G D. destruct (declined_state _ _ _ _ _ _ D E) as [_ S%I].
  unfold held, active. rewrite (bool_decide_eq_true_2 _ S).
  unfold delta_row. cbn [Reservation.state]. rewrite N. cbn [default].
  rewrite bool_decide_eq_false_2; [|set_solver]. unfold delta_amount. simpl. lia.
Qed.

(** A repair of a released row takes what the row then holds. *)
Lemma balanced_restore clk op a r n :
  op <> op_release -> da_expected_states a = Some [InflightState.released] ->
  da_next_state a = Some InflightState.batch_bound -> da_next_reserved_chunks a = Some n ->
  balanced clk op n a r.
Proof.
  intros O E N C now g G D. destruct (declined_state _ _ _ _ _ _ D E) as [_ S%list_elem_of_singleton].
  unfold held, active, delta_row, delta_amount, delta_occupancy. cbn [Reservation.state Reservation.reserved_chunks].
  rewrite N, C, S. rewrite (bool_decide_eq_false_2 _ O).
  rewrite bool_decide_eq_true_2; [|set_solver]. rewrite bool_decide_eq_false_2; [|set_solver].
  simpl. lia.
Qed.

(** A row that keeps an active state moves the balance by the difference. *)
Lemma balanced_active clk op a r l n :
  op <> op_release -> da_expected_states a = Some l ->
  (forall st, st ∈ l -> st ∈ ACTIVE_INFLIGHT_STATES) ->
  (forall st, da_next_state a = Some st -> st ∈ ACTIVE_INFLIGHT_STATES) ->
  da_next_reserved_chunks a = Some n ->
  balanced clk op (n - Reservation.reserved_chunks r) a r.
Proof.
  intros O E I N C now g G D. destruct (declined_state _ _ _ _ _ _ D E) as [_ S%I].
  unfold held, active, delta_row, delta_amount, delta_occupancy. cbn [Reservation.state Reservation.reserved_chunks].
  rewrite (bool_decide_eq_false_2 _ O), C, (bool_decide_eq_true_2 _ S).
  rewrite bool_decide_eq_true_2; [simpl; lia|]. destruct (da_next_state a); simpl; auto.
Qed.

Lemma law_release_delta now clk app d id g l reason u :
  (forall st, st ∈ l -> st ∈ ACTIVE_INFLIGHT_STATES) ->
  within law (apply_inflight_delta now clk op_release app d None
    (mkArgs (Some id) (Some g) (Some l) (Some InflightState.released) None reason None None u)).
Proof.
  intros I s x s' H L. refine (apply_lawful _ _ _ _ _ _ _ _ _ _ _ L _ H); [done|].
  intros. by eapply balanced_release.
Qed.
#[export] Hint Extern 1 (within law (apply_inflight_delta _ _ op_release _ _ _ _)) =>
  apply law_release_delta; set_solver : within.

Lemma law_release v now clk id g reason app : within law (release_from v now clk id g reason app).
Proof. unfold release_from, release_unbound_from. within_tac. Qed.
#[export] Hint Resolve law_release : within.

Lemma law_release_now now clk id g reason app :
  within law (release_in_flight_reservation now clk id g reason app).
Proof. unfold release_in_flight_reservation. within_tac. Qed.
#[export] Hint Resolve law_release_now : within.

Lemma law_restore_delta now clk app id g n reason m :
  within law (apply_inflight_delta now clk op_repair app n None
    (mkArgs (Some id) (Some g) (Some [InflightState.released]) (Some InflightState.batch_bound)
       (Some n) reason m None false)).
Proof.
  intros s x s' H L. refine (apply_lawful _ _ _ _ _ _ _ _ _ _ _ L _ H); [done|].
  intros. by eapply balanced_restore.
Qed.
#[export] Hint Resolve law_restore_delta : within.

Lemma law_restore now clk row : within law (restore now clk row).
Proof. destruct row as [id r]. unfold restore. within_tac. Qed.

(** ** Reads of the transaction's own state *)

Lemma select_elem f v id r : (id, r) ∈ select f v <-> reservations v !! id = Some r /\ f r = true.
Proof.
  unfold select. rewrite sorting.merge_sort_Permutation, filter_in, elem_of_map_to_list. done.
Qed.

Lemma select_NoDup f v : NoDup (fst <$> select f v).
Proof.
  unfold select. rewrite sorting.merge_sort_Permutation.
  eapply sublist_NoDup; [apply (NoDup_fst_map_to_list (reservations v))|].
  apply fmap_sublist. apply filter_sublist.
Qed.

Lemma one_or_none_elem {A} (l : list A) x : one_or_none l = Ok (Some x) -> x ∈ l.
Proof. destruct l as [|y [|]]; intros; simplify_eq/=; set_solver. Qed.

Lemma law_lock now app op c : within law (_lock_balance now app op c).
Proof.
  intros s n s' H [W L]. split; [by apply (within_lock _ _ _ _ _ _ _ H W)|]. intros a.
  destruct (lock_ok _ _ _ _ _ _ _ H) as [(R & _ & _ & _ & K) _]. rewrite K, L.
  unfold active_sum. rewrite R. destruct (a =? app); lia.
Qed.
#[export] Hint Resolve law_lock : within.

Lemma law_lock_balances now op l : within law (lock_balances now op l).
Proof. apply within_for_each; [apply _|]. intros. within_tac. Qed.
#[export] Hint Resolve law_lock_balances : within.

(** Rows only change together with their generation. *)
Definition ages (v s : db) : Prop :=
  forall id r, reservations v !! id = Some r ->
  exists r', reservations s !! id = Some r' /\
    (r' = r \/ Reservation.generation r < Reservation.generation r').

#[export] Instance ages_preorder : PreOrder ages.
Proof.
  split; [intros s id r H; eauto|]. intros s1 s2 s3 H1 H2 id r (r' & R1 & G1)%H1.
  destruct (H2 _ _ R1) as (r'' & R2 & G2). exists r''. split; [done|].
  destruct G1 as [->|], G2 as [->|]; auto; right; lia.
Qed.

Lemma ages_same s s' : reservations s' = reservations s -> ages s s'.
Proof. intros E id r H. exists r. rewrite E. auto. Qed.

Lemma ages_lock now app op c : within ages (_lock_balance now app op c).
Proof. intros s n s' H. apply ages_same. by apply lock_ok in H as [[? _] _]. Qed.
#[export] Hint Resolve ages_lock : within.

Lemma ages_lock_balances now op l : within ages (lock_balances now op l).
Proof. apply within_for_each; [apply _|]. intros. within_tac. Qed.

Lemma ages_release_delta now clk app d id g l reason u :
  within ages (apply_inflight_delta now clk op_release app d None
    (mkArgs (Some id) (Some g) l (Some InflightState.released) None reason None None u)).
Proof.
  intros s x s' H. apply stex_bind_ok in H as (y & s1 & H & [= _ <-]).
  apply delta_ok in H as [(_ & R & _) | (id' & g' & r & [= <-] & _ & R & _ & _ & _ & R' & _)].
  - by apply ages_same.
  - intros j q Q. rewrite R'. destruct (decide (id = j)) as [->|N].
    + eexists. rewrite lookup_insert_eq. split; [done|]. right. rewrite R in Q. injection Q as <-.
      simpl. lia.
    + exists q. rewrite lookup_insert_ne by done. auto.
Qed.
#[export] Hint Resolve ages_release_delta ages_lock_balances : within.

Lemma ages_release now clk id g reason app :
  within ages (release_in_flight_reservation now clk id g reason app).
Proof. unfold release_in_flight_reservation, release_from, release_unbound_from. within_tac. Qed.
#[export] Hint Resolve ages_release : within.

(** A row as read still holds what the table has for it. *)
Definition current (s : db) (row : Z * Reservation.t) : Prop :=
  forall r', reservations s !! fst row = Some r' ->
  Reservation.generation r' = Reservation.generation (snd row) ->
  Reservation.reserved_chunks r' = Reservation.reserved_chunks (snd row).

Lemma current_aged v s row : reservations v !! fst row = Some (snd row) -> ages v s -> current s row.
Proof. intros H A r' R G. destruct (A _ _ H) as (q & Q & [->|]); simplify_eq; [done | lia]. Qed.

(** A conversion between active states computed from a current row. *)
Lemma active_delta_lawful now clk op app d e id r l next n reason m lim u s x s' :
  op <> op_reserve -> op <> op_release -> lawful s -> current s (id, r) ->
  (forall st, st ∈ l -> st ∈ ACTIVE_INFLIGHT_STATES) ->
  (forall st, next = Some st -> st ∈ ACTIVE_INFLIGHT_STATES) ->
  d = n - Reservation.reserved_chunks r ->
  apply_inflight_delta now clk op app d e
    (mkArgs (Some id) (Some (Reservation.generation r)) (Some l) next (Some n) reason m lim u) s
    = Ok (x, s') -> lawful s'.
Proof.
  intros N1 N2 L C I X -> H. refine (apply_lawful _ _ _ _ _ _ _ _ _ _ N1 L _ H).
  intros id' r' [= <-] R now' g [= <-] D.
  destruct (declined_state _ _ _ _ _ _ D eq_refl) as [G S].
  pose proof (C r' R G) as E. simpl in E. rewrite <- E.
  by eapply (balanced_active clk op (mkArgs _ _ _ _ _ _ _ _ _) r' l n N2 eq_refl I X eq_refl now').
Qed.

Lemma delta_others now clk op app d e a s x s' j id :
  op <> op_reserve -> da_reservation_id a = Some id -> j <> id ->
  apply_inflight_delta now clk op app d e a s = Ok (x, s') ->
  reservations s' !! j = reservations s !! j.
Proof.
  intros N I J H. unfold apply_inflight_delta in H. destruct op; try done;
    apply stex_bind_ok in H as (y & s1 & H & [= _ <-]);
    (destruct (delta_ok _ _ _ _ _ _ _ _ _ H)
      as [(_ & R & _) | (id' & g & r & I' & _ & _ & _ & _ & _ & R & _)]; rewrite R;
      [done | rewrite lookup_insert_ne; congruence]).
Qed.

Lemma current_read f v row : row ∈ select f v -> current v row.
Proof.
  destruct row as [id r]. intros [R _]%select_elem. apply (current_aged v); [done | reflexivity].
Qed.

Lemma law_materialize now clk b n limit :
  within law (materialize_in_flight_reservation now clk b n limit).
Proof.
  intros s x s' H L. unfold materialize_in_flight_reservation, materialize_from in H. stx.
  match goal with H : one_or_none _ = Ok ?c |- _ => destruct c as [[id r]|] end; stx; [|done]. case_bool_decide; stx; [done|].
  eapply active_delta_lawful; [| |exact L| | | | |eassumption]; try done.
  - by eapply current_read, one_or_none_elem.
  - set_solver.
  - intros st [= <-]. set_solver.
Qed.

Lemma law_expand now clk b d limit : within law (expand_in_flight_for_split now clk b d limit).
Proof.
  intros s x s' H L. unfold expand_in_flight_for_split, expand_from in H. stx.
  match goal with H : one_or_none _ = Ok ?c |- _ => destruct c as [[id r]|] end; stx.
  eapply active_delta_lawful; [| |exact L| | | | |eassumption]; try done.
  - by eapply current_read, one_or_none_elem.
  - set_solver.
  - lia.
Qed.

Lemma drift_row now clk row s x s' :
  lawful s -> current s row -> repair_drift now clk row s = Ok (x, s') ->
  lawful s' /\ forall j, j <> fst row -> reservations s' !! j = reservations s !! j.
Proof.
  destruct row as [id r]. unfold repair_drift. intros L C H.
  destruct (Reservation.batch_id r) as [b|]; stx; [|done].
  destruct (_ <? 1); stx; [done|]. split.
  - eapply active_delta_lawful; [| |exact L|exact C| | | |eassumption]; try done; [set_solver | lia].
  - intros j J. simpl in J. by eapply delta_others; [..|eassumption].
Qed.

Lemma drift_loop now clk rows : forall n s x s',
  lawful s -> NoDup (fst <$> rows) -> Forall (current s) rows ->
  count_each (repair_drift now clk) rows n s = Ok (x, s') -> lawful s'.
Proof.
  induction rows as [|row rows IH]; intros n s x s' L N C H; simpl in H; stx; [done|].
  apply NoDup_cons in N as [NI N]. apply Forall_cons in C as [C CS].
  edestruct drift_row as [L1 O]; [exact L | exact C | eassumption|].
  eapply IH; [exact L1 | done | | eassumption].
  apply Forall_forall. intros row' I r' R. rewrite O in R.
  - by apply (proj1 (Forall_forall _ _) CS).
  - intros E. apply NI. rewrite <- E. by apply list_elem_of_fmap_2.
Qed.

Lemma drift_lawful now clk limit limit' v s x s' :
  lawful s -> ages v s ->
  reconcile_split_occupancy_drift now clk limit (Some (drift_rows limit' v)) s = Ok (x, s') ->
  lawful s'.
Proof.
  intros L A H. unfold reconcile_split_occupancy_drift in H. stx. simpl in *.
  eapply drift_loop; [..|eassumption].
  - by eapply law_lock_balances.
  - eapply sublist_NoDup; [eapply (select_NoDup _ v)|]. apply fmap_sublist, sublist_take.
  - apply Forall_forall. intros [id r] I. apply (current_aged v).
    + by apply subseteq_take, select_elem in I as [I _].
    + etransitivity; [exact A|]. by eapply ages_lock_balances.
Qed.

Lemma law_drift now clk limit : within law (reconcile_split_occupancy_drift now clk limit None).
Proof. intros s x s' H L. eapply (drift_lawful now clk limit limit s); done. Qed.

(** ** The other operations *)

Definition reserved_row (now app n : Z) : Reservation.t :=
  Reservation.mk app None n None InflightState.reserved 1 (Some (now + RESERVATION_TTL_US))
    None None None None.

Lemma reserve_ok now app n limit s x s' : _apply_reserve now app n limit s = Ok (x, s') ->
  ir_id x = next_reservation_id s /\
  reservations s' = <[next_reservation_id s := reserved_row now app n]> (reservations s) /\
  forall a, balance_of a s' = balance_of a s + if a =? app then n else 0.
Proof.
  unfold _apply_reserve. intros H. stx.
  match goal with H : _lock_balance _ _ _ _ _ = Ok _ |- _ =>
    apply lock_ok in H as [(R1 & _ & _ & N1 & M1) (b & B & N)] end.
  match goal with H : _adjust_locked_balance _ _ _ _ _ _ = Ok _ |- _ =>
    apply (adjust_ok _ _ _ _ _ _ _ _ _ B N) in H as (R2 & _ & _ & N2 & M2) end.
  match goal with H : insert_reservation _ ?s2 = Ok _ |- _ =>
    apply insert_reservation_ok in H as (_ & _ & -> & ->) end.
  simpl. split_and!; [congruence | by rewrite N2, N1, R2, R1 |]. intros a.
  etransitivity; [apply M2|]. rewrite M1. destruct (a =? app); lia.
Qed.

Lemma law_reserve now clk app n limit : within law (reserve_in_flight_chunks now clk app n limit).
Proof.
  intros s x s' H [W L].
  assert (W' : wf s').
  { revert W. apply (within_body [] (discard (reserve_in_flight_chunks now clk app n limit))
      (body_reserve _ _ _ _ _ _) s tt). unfold discard, mbind, stex_bind. by rewrite H. }
  unfold reserve_in_flight_chunks, apply_inflight_delta in H. stx. simpl in *. stx.
  split; [done|]. intros a.
  match goal with H : _apply_reserve _ _ _ _ _ = Ok _ |- _ =>
    apply reserve_ok in H as (_ & R & M) end.
  rewrite M, L. transitivity (active_sum a
    (set_reservations (<[next_reservation_id s := reserved_row now app n]>) s)).
  2: { unfold active_sum. simpl. by rewrite R. }
  rewrite active_sum_insert_new.
  - unfold weight. simpl. rewrite (Z.eqb_sym app a). by destruct (a =? app).
  - destruct (reservations s !! next_reservation_id s) eqn:E; [|done]. apply (wf_ids s W) in E. lia.
Qed.

Lemma law_same s s' : evolves s s' -> balances s' = balances s ->
  reservations s' = reservations s -> law s s'.
Proof.
  intros E B R [W L]. split; [by apply E|]. intros a. unfold balance_of, active_sum.
  rewrite B, R. apply L.
Qed.

Lemma law_bind now clk id g b app : within law (bind_in_flight_reservation now clk id g b app).
Proof.
  assert (U : within law (update_reservation id (bindable clk g app) (bound_row now b))).
  { intros s x s' H [W L].
    assert (E : evolves s s').
    { revert H. apply within_update_reservation. simpl. auto with lia. }
    split; [by apply E|]. intros a.
    apply update_reservation_ok in H as [[_ ->] | (r & R & G & _ & _ & _ & ->)]; [apply L|].
    transitivity (balance_of a s); [done|]. rewrite L.
    transitivity (active_sum a (set_reservations (<[id := bound_row now b r]>) s)); [|done].
    rewrite (active_sum_update _ _ _ _ _ R). unfold bindable in G. bool_prop.
    assert (X : weight a (bound_row now b r) = weight a r); [|lia].
    unfold weight, active, bound_row. simpl.
    match goal with H : Reservation.state r = _ |- _ => by rewrite H end. }
  assert (K : within law (link_batch id b)).
  { intros s x s' H. apply law_same; [by eapply within_link|..];
      unfold link_batch in H; stx; destruct (batches s !! b); stx; try done;
      case_bool_decide; stx; done. }
  unfold bind_in_flight_reservation. within_tac.
Qed.
#[export] Hint Resolve law_bind : within.

(** ** The convergence of a balance *)

Lemma NoDup_omap_inj {A B} (f : A -> option B) l :
  NoDup l -> (forall x y z, x ∈ l -> y ∈ l -> f x = Some z -> f y = Some z -> x = y) ->
  NoDup (omap f l).
Proof.
  induction 1 as [|x l NI N IH]; intros I; [constructor|]. simpl.
  destruct (f x) as [z|] eqn:F; [|apply IH; set_solver].
  constructor; [|apply IH; set_solver]. intros (y & Y & FY)%list_elem_of_omap.
  apply NI. rewrite (I x y z); set_solver.
Qed.

Lemma no_duplicates app s : wf s -> duplicates app s = [].
Proof.
  intros W. apply filter_nil_iff, Forall_forall. intros b _. apply Nat.ltb_ge.
  apply NoDup_count_occ, NoDup_ListNoDup, NoDup_omap_inj.
  - apply (NoDup_fmap_1 fst), select_NoDup.
  - intros [i r] [j q] c [I _]%select_elem [J _]%select_elem E F. simpl in *.
    assert (i = j) as -> by eauto using wf_batches. congruence.
Qed.

Lemma update_balance_eq app g f s b :
  balances s !! app = Some b -> g b = true -> balance_check (f b) = Ok tt ->
  update_balance app g f s = Ok (Some (Balance.reserved_chunks (f b)),
    with_balance app (f b) (if Balance.reserved_chunks (f b) =? Balance.reserved_chunks b
                            then [] else [conservation_of app]) s).
Proof.
  intros B G C. unfold update_balance, mbind, stex_bind, get, lift. rewrite B, G, C. done.
Qed.

Lemma insert_balance_eq now app n s :
  balance_check (Balance.mk n None now) = Ok tt -> app ∈ apps s ->
  insert_balance now app n s
  = Ok (tt, with_balance app (Balance.mk n None now) [conservation_of app] s).
Proof.
  intros C A. unfold insert_balance, mbind, stex_bind, get, lift. rewrite C.
  by rewrite (bool_decide_eq_true_2 _ A).
Qed.

Lemma active_sum_nonneg app s : wf s -> 0 <= active_sum app s.
Proof.
  intros [_ W _ _]. unfold active_sum. revert W. generalize (reservations s). clear s.
  apply (map_fold_weak_ind (fun n (m : gmap Z Reservation.t) =>
    (forall id r, m !! id = Some r -> reservation_check r = Ok tt) -> 0 <= n)); [done|].
  intros id r m n N IH W.
  assert (C : reservation_check r = Ok tt) by (apply (W id), lookup_insert_eq).
  assert (0 <= n).
  { apply IH. intros j q Q. apply (W j). rewrite lookup_insert_ne; [done|]. congruence. }
  unfold reservation_check in C. exec. unfold weight. bool_prop. case_match; lia.
Qed.

Lemma law_reconcile_app now app : within law (reconcile_send_inflight_app now app).
Proof.
  intros s x s' H [W L]. unfold reconcile_send_inflight_app in H. stx.
  rewrite no_duplicates in H by done. simpl in H.
  match goal with H : int4 _ = Ok _ |- _ => apply int4_ok in H as [-> _] end.
  pose proof (L app) as E. unfold balance_of in E.
  destruct (balances s !! app) as [b|] eqn:B; simpl in E; rewrite <- E in H.
  - rewrite Z.eqb_refl in H. stx. case_bool_decide; stx; [|done].
    match goal with H : update_balance _ _ _ _ = Ok _ |- _ =>
      pose proof (within_update_balance _ _ _ _ _ _ H W) as (W' & _);
      apply update_balance_ok in H as [[_ ->] | (b' & B' & _ & _ & _ & ->)]; [done|] end.
    split; [done|]. intros a. rewrite balance_of_with.
    change (active_sum a (with_balance _ _ _ s)) with (active_sum a s).
    destruct (Z.eqb_spec a app) as [->|]; [|apply L]. rewrite <- L. unfold balance_of. by rewrite B'.
  - simpl in H. stx. done.
Qed.

Lemma law_converge now limit l : within law (reconcile_inflight_balance_conservation now limit l).
Proof.
  unfold reconcile_inflight_balance_conservation. within_tac. apply within_count_each; [apply _|].
  intros app. apply within_bind; [apply _ | apply law_reconcile_app | intros; within_tac].
Qed.

Lemma law_bind_reserved now clk limit :
  within law (bind_reserved_reservation_to_existing_batch now clk limit).
Proof.
  unfold bind_reserved_reservation_to_existing_batch, bind_reserved_from. within_tac.
  apply within_count_each; [apply _|]. intros [[id r] b]. unfold bind_existing. within_tac.
Qed.

Lemma law_misreleased now clk limit : within law (repair_misreleased_bound_reservations now clk limit).
Proof.
  unfold repair_misreleased_bound_reservations, repair_misreleased_from. within_tac.
  apply within_count_each; [apply _|]. apply law_restore.
Qed.

(** The two release loops of the recovery, for both relations. *)
Lemma within_release_loops (R : relation db) `{!PreOrder R} v now clk l k n :
  (forall id g reason, within R (release_in_flight_reservation now clk id g reason None)) ->
  within R (m ← count_each (release_orphan now clk) l n; count_each (release_terminal v now clk) k m).
Proof.
  intros H. apply within_bind; [done | | intros m]; apply within_count_each; try done; intros; apply H.
Qed.

Lemma law_reconcile now clk limit : within law (reconcile_in_flight_reservations now clk limit).
Proof.
  intros s x s' H L. unfold reconcile_in_flight_reservations, reconcile_from in H. stx.
  eapply law_converge; [eassumption|]. eapply (drift_lawful now clk limit limit s); [| |eassumption].
  - eapply (within_release_loops law s now clk);
      [intros; apply law_release_now | by apply stex_bind_ok; eauto|].
    by eapply law_lock_balances.
  - etransitivity; [by eapply ages_lock_balances|].
    eapply (within_release_loops ages s now clk);
      [intros; apply ages_release | by apply stex_bind_ok; eauto].
Qed.

(** ** The operations run alone *)

(** [transaction] bodies whose reads see the state they start in. *)
Inductive alone : tx_ unit -> Prop :=
| alone_reserve now clk app n limit : alone (discard (reserve_in_flight_chunks now clk app n limit))
| alone_bind now clk id g b app : alone (bind_in_flight_reservation now clk id g b app)
| alone_release now clk id g reason app :
    alone (discard (release_in_flight_reservation now clk id g reason app))
| alone_release_unbound now clk id g app :
    alone (discard (release_unbound_acceptance_reservation now clk id g app))
| alone_request now clk b reason :
    alone (discard (request_inflight_release_for_batch now clk b reason))
| alone_materialize now clk b n limit :
    alone (materialize_in_flight_reservation now clk b n limit)
| alone_expand now clk b d limit :
    alone (attempted (expand_in_flight_for_split now clk b d limit))
| alone_drift now clk limit :
    alone (discard (reconcile_split_occupancy_drift now clk limit None))
| alone_misreleased now clk limit :
    alone (discard (repair_misreleased_bound_reservations now clk limit))
| alone_bind_reserved now clk limit :
    alone (discard (bind_reserved_reservation_to_existing_batch now clk limit))
| alone_reconcile now clk limit :
    alone (discard (reconcile_in_flight_reservations now clk limit))
| alone_converge now limit :
    alone (discard (reconcile_inflight_balance_conservation now limit None))
| alone_mark now app : alone (mark_conservation_blocked now app)
| alone_chunk id row : alone (write_chunk id row)
| alone_other f :
    (forall s, balances (f s) = balances s /\ reservations (f s) = reservations s /\
       next_reservation_id (f s) = next_reservation_id s /\ deferred (f s) = deferred s) ->
    alone (modify f)
| alone_seq m k : alone m -> alone k -> alone (_ ← m; k).

Lemma law_discard {A} (m : tx_ A) : within law m -> within law (discard m).
Proof. intros H. unfold discard. within_tac. Qed.

Lemma law_attempted {A} (m : tx_ A) : within law m -> within law (attempted m).
Proof.
  intros H s x s' E. unfold attempted in E. destruct (m s) as [[y s1]|] eqn:M; simplify_eq; [|reflexivity].
  by eapply H.
Qed.

Lemma law_mark now app : within law (mark_conservation_blocked now app).
Proof.
  intros s x s' H [W L]. split; [by apply (within_body [] _ (body_mark [] now app) _ _ _ H W)|]. intros a.
  unfold mark_conservation_blocked in H. stx.
  match goal with H : update_balance _ _ _ _ = Ok _ |- _ =>
    apply update_balance_ok in H as [[_ ->] | (b & B & _ & _ & _ & ->)]; [apply L|] end.
  rewrite balance_of_with. change (active_sum a (with_balance _ _ _ s)) with (active_sum a s).
  rewrite <- L. unfold balance_of. destruct (Z.eqb_spec a app) as [->|]; [|done]. by rewrite B.
Qed.

Lemma law_alone m : alone m -> within law m.
Proof.
  induction 1; first
    [ solve [auto using law_mark, law_bind, law_materialize, law_attempted, law_expand]
    | apply law_discard; solve [auto using law_reserve, law_release_now, law_drift,
        law_misreleased, law_bind_reserved, law_reconcile, law_converge] | idtac ].
  - apply law_discard. unfold release_unbound_acceptance_reservation, release_unbound_from. within_tac.
  - apply law_discard. unfold request_inflight_release_for_batch, request_release_from. within_tac.
  - intros s x s' H. apply law_same; [by apply (within_write_chunk _ _ _ _ _ H)|..];
      unfold write_chunk in H; stx; case_bool_decide; stx; done.
  - apply within_modify. intros s. destruct (H s) as (B & R & N & D).
    apply law_same; [|done..]. apply evolves_tables; rewrite ?D; auto with lia.
  - by apply within_bind; [apply _ | | intros].
Qed.

(** One transaction at a time, without any deferred trigger. *)
Definition serial (s s' : db) : Prop := exists m, alone m /\ s' = snd (transaction m s).

(** The operations keep both sides of the ledger together by themselves:
    run one after the other from a state that passes the conservation trigger,
    with no trigger at all, they only reach states in which the deferred
    trigger would pass for every application. *)
Theorem trigger_never_refuses s s' :
  wf s -> (forall app, check_send_inflight_balance_conservation app s = Ok tt) ->
  rtc serial s s' ->
  forall app, check_send_inflight_balance_conservation app s' = Ok tt.
Proof.
  intros W C R.
  assert (L : lawful s').
  { apply (rtc_invariant serial lawful) with s; [|done|].
    - intros s1 s2 L (m & A & ->). exact (within_transaction law m s1 (law_alone m A) L).
    - split; [done|]. intros app. by apply check_iff. }
  intros app. apply check_iff; apply L.
Qed.

Lemma trigger_never_refuses_witness :
  check_send_inflight_balance_conservation 7
    (snd (transaction (discard (reserve_in_flight_chunks 0 0 7 3 10)) example_db)) = Ok tt.
Proof.
  apply (trigger_never_refuses example_db).
  - by split.
  - done.
  - apply rtc_once. exists (discard (reserve_in_flight_chunks 0 0 7 3 10)). split; [constructor | done].
Defined.

(** ** A reservation is given back once *)

Lemma history_keeps s h v : history (s :: h) -> v ∈ s :: h -> keeps_rows v s /\ keeps_balances v s.
Proof.
  intros H. remember (s :: h) as l eqn:E. revert s h E.
  induction H as [s B R D | s h m H IH M]; intros s' h' [= <- <-] V.
  - apply list_elem_of_singleton in V as ->. split; [reflexivity | by intros ?].
  - assert (W : wf s) by (by apply history_sound in H as [? _]).
    assert (X : keeps_rows s (snd (in_transaction m s)) /\
                keeps_balances s (snd (in_transaction m s))).
    { unfold in_transaction, transaction. destruct (committed m s) as [[x s1]|] eqn:C; simpl.
      - apply committed_ok in C as (s2 & C & _ & ->).
        destruct (within_body _ _ M _ _ _ C W) as (_ & K1 & K2 & _). done.
      - split; [reflexivity | by intros ?]. }
    destruct X as [X1 X2]. apply elem_of_cons in V as [->|V]; [split; [reflexivity | by intros ?]|].
    destruct (IH s h eq_refl V) as [K1 K2]. split; [by transitivity s | intros app; auto].
Qed.

(** A release with an older generation changes nothing, and one under another
    application is refused. *)
Lemma release_stale v now clk id g reason app r s :
  reservations s !! id = Some r -> Reservation.generation r <> g ->
  is_Some (balances s !! Reservation.app_id r) ->
  (forall q, reservations v !! id = Some q -> Reservation.app_id q = Reservation.app_id r) ->
  if decide (app = None \/ app = Some (Reservation.app_id r))
  then release_from v now clk id g reason app s = Ok (false, s)
  else exists e, release_from v now clk id g reason app s = Raise e.
Proof.
  intros R G [b B] V.
  assert (X : forall a, da_reservation_id a = Some id -> da_generation a = Some g ->
    _apply_reservation_delta now clk op_release (Reservation.app_id r) 0 a s = Ok (false, s)).
  { intros a I J. unfold _apply_reservation_delta, _lock_balance, mbind, stex_bind, get.
    rewrite I, J. simpl. rewrite B. case_bool_decide; simpl; rewrite R, Z.eqb_refl; simpl;
    unfold declined; apply Z.eqb_neq in G; by rewrite G. }
  assert (Y : forall x a, x <> Reservation.app_id r -> da_reservation_id a = Some id ->
    da_generation a = Some g -> exists e, _apply_reservation_delta now clk op_release x 0 a s = Raise e).
  { intros x a N I J. unfold _apply_reservation_delta, _lock_balance, mbind, stex_bind, get.
    rewrite I, J. simpl. destruct (balances s !! x) as [c|]; simpl; [|by eexists].
    case_bool_decide; simpl; rewrite R; rewrite (proj2 (Z.eqb_neq _ _)) by congruence; by eexists. }
  unfold release_from, release_unbound_from, _require_reservation_app, apply_inflight_delta,
    mbind, stex_bind.
  destruct app as [x|].
  - destruct (decide _) as [[[=]|[= ->]]|N]; [case_bool_decide; by rewrite X|].
    assert (x <> Reservation.app_id r) as N' by (intros ->; auto).
    case_bool_decide; match goal with |- context [_apply_reservation_delta _ _ _ _ _ ?a] =>
      destruct (Y x a N' eq_refl eq_refl) as [e ->] end; by eexists.
  - rewrite decide_True by auto. destruct (reservations v !! id) as [q|] eqn:Q; simpl; [|by case_bool_decide].
    rewrite (V q eq_refl). case_bool_decide; by rewrite X.
Qed.

(** Row [id] of generation [g] was active and is released under the next
    generation; the balance of its application lost what the row held. *)
Definition gave_back (id g : Z) (s s' : db) : Prop :=
  exists r, reservations s !! id = Some r /\ Reservation.generation r = g /\ active r = true /\
    is_Some (balances s !! Reservation.app_id r) /\
    (exists r', reservations s' = <[id := r']> (reservations s) /\
       Reservation.state r' = InflightState.released /\ Reservation.generation r' = g + 1) /\
    forall c, balance_of c s' = balance_of c s
              + if c =? Reservation.app_id r then - Reservation.reserved_chunks r else 0.

Lemma release_delta_ok now clk app id g l reason u s x s' :
  (forall st, st ∈ l -> st ∈ ACTIVE_INFLIGHT_STATES) -> changed x = true ->
  apply_inflight_delta now clk op_release app 0 None
    (mkArgs (Some id) (Some g) (Some l) (Some InflightState.released) None reason None None u) s
  = Ok (x, s') -> gave_back id g s s'.
Proof.
  intros A T H. apply stex_bind_ok in H as (y & s1 & H & [= <- <-]). simpl in T. subst y.
  pose proof H as H'.
  apply delta_ok in H as [[? _] | (? & ? & r & [= <-] & [= <-] & R & <- & D & _ & R' & _ & _ & M)];
    [done|].
  destruct (declined_state _ _ _ _ _ _ D eq_refl) as [G S].
  exists r. split_and!; try done.
  - by apply bool_decide_eq_true_2, A.
  - unfold _apply_reservation_delta in H'. simpl in H'.
    apply stex_bind_ok in H' as (n & s2 & K & _). unfold _lock_balance in K. simpl in K. stx.
    destruct (balances s !! Reservation.app_id r); [eauto | discriminate].
  - eexists. split; [exact R'|]. simpl. by rewrite G.
Qed.

Lemma release_ok v now clk id g reason app s s' :
  release_from v now clk id g reason app s = Ok (true, s') -> gave_back id g s s'.
Proof.
  unfold release_from, release_unbound_from.
  destruct (_require_reservation_app v id app); case_bool_decide; try discriminate;
    intros (x & s1 & K & [= C <-])%stex_bind_ok;
    (eapply release_delta_ok; [|exact C|exact K]; set_solver).
Qed.

(** C21: A reservation is given back exactly once.  A committed release takes
    from the balance of its application exactly the chunks the reservation
    held; afterwards, whatever transactions ran in between and however old its
    early read, another release of the same generation, for the reservation's
    application or without naming one, answers false and leaves the database as
    it is, and one that names another application raises. *)
Theorem released_once s h v now clk id g reason app s1 :
  history (s :: h) ->
  in_transaction (release_from v now clk id g reason app) s = (Ok true, s1) ->
  exists r, reservations s !! id = Some r /\ Reservation.generation r = g /\ active r = true /\
    (forall c, balance_of c s1 = balance_of c s
               - if c =? Reservation.app_id r then Reservation.reserved_chunks r else 0) /\
    forall s2 h2 v2 now2 clk2 reason2 app2,
      history (s2 :: h2) -> s1 ∈ s2 :: h2 -> v2 ∈ s2 :: h2 ->
      if decide (app2 = None \/ app2 = Some (Reservation.app_id r))
      then release_from v2 now2 clk2 id g reason2 app2 s2 = Ok (false, s2)
      else exists e, release_from v2 now2 clk2 id g reason2 app2 s2 = Raise e.
Proof.
  intros H T. unfold in_transaction, transaction in T.
  destruct (committed _ s) as [[x s']|] eqn:C; simplify_eq.
  apply committed_ok in C as (u & C & _ & ->).
  destruct (within_release _ _ _ _ _ _ _ _ _ _ C (proj1 (history_sound _ _ H))) as (_ & K0 & KB & _).
  apply release_ok in C as (r & R & G & A & B & (r' & R' & S & G') & M).
  exists r. split_and!; try done.
  - intros c. etransitivity; [apply M|]. case_match; lia.
  - intros s2 h2 v2 now2 clk2 reason2 app2 H2 I V.
    destruct (history_keeps _ _ _ H2 I) as [K1 KB1]. destruct (history_keeps _ _ v2 H2 V) as [K2 _].
    destruct (K0 id r R) as (r0 & R0 & A0 & _).
    destruct (K1 id r0 R0) as (q & Q & Aq & _).
    destruct (K1 id r') as (q' & Q' & _ & Gq); [simpl; by rewrite R', lookup_insert_eq|].
    assert (q' = q) as -> by congruence.
    assert (E : Reservation.app_id q = Reservation.app_id r) by congruence. rewrite <- E.
    apply release_stale; [done | lia | rewrite Aq, A0; by apply KB1, KB |].
    intros w W. destruct (K2 id w W) as (w' & W' & Aw & _). congruence.
Qed.

Lemma in_transaction_discard {A} (m : tx_ A) s :
  snd (in_transaction (discard m) s) = snd (in_transaction m s).
Proof.
  unfold in_transaction, transaction, committed, discard, mbind, stex_bind.
  destruct (m s) as [[x s1]|]; [|done]. simpl. by destruct (run_triggers s1 (deferred s1)).
Qed.

Definition released_db : db :=
  snd (in_transaction (release_from example_1 1 1 1 1 (tx "acceptance-failed") (Some 7)) example_1).
Definition reserved_again_db : db :=
  example_step (discard (reserve_in_flight_chunks 2 2 7 4 10)) released_db.

Lemma released_once_witness :
  balance_of 7 example_1 = 3 /\ balance_of 7 released_db = 0 /\
  exists r, reservations example_1 !! 1 = Some r /\
    if decide (Some 7 = None \/ Some 7 = Some (Reservation.app_id r))
    then release_from example_1 3 3 1 1 (tx "batch-completed") (Some 7) reserved_again_db
         = Ok (false, reserved_again_db)
    else exists e, release_from example_1 3 3 1 1 (tx "batch-completed") (Some 7) reserved_again_db
                   = Raise e.
Proof.
  split; [vm_compute; reflexivity|]. split; [vm_compute; reflexivity|].
  assert (H1 : history [example_1; example_db]).
  { apply (history_step example_db []); [by apply history_start | constructor]. }
  assert (H2 : history [released_db; example_1; example_db]).
  { unfold released_db. rewrite <- in_transaction_discard.
    apply history_step; [exact H1 | constructor; apply list_elem_of_here]. }
  assert (T : in_transaction (release_from example_1 1 1 1 1 (tx "acceptance-failed") (Some 7))
                example_1 = (Ok true, released_db)).
  { assert (F : fst (in_transaction (release_from example_1 1 1 1 1 (tx "acceptance-failed")
                  (Some 7)) example_1) = Ok true) by (vm_compute; reflexivity).
    rewrite <- F. unfold released_db. apply surjective_pairing. }
  destruct (released_once example_1 [example_db] example_1 1 1 1 1 (tx "acceptance-failed") (Some 7)
              released_db H1 T) as (r & R & _ & _ & _ & X).
  exists r. split; [exact R|]. refine (X _ [released_db; example_1; example_db] _ _ _ _ _ _ _ _).
  - apply (history_step released_db _ (discard (reserve_in_flight_chunks 2 2 7 4 10)));
      [exact H2 | constructor].
  - apply list_elem_of_further, list_elem_of_here.
  - apply list_elem_of_further, list_elem_of_further, list_elem_of_here.
Defined.

(** ** A drifted balance comes back *)

Definition reconciled (app : Z) (s : db) : Prop :=
  balance_of app s = active_sum app s /\
  forall b, balances s !! app = Some b -> Balance.conservation_blocked_at b = None.

(** What the repair of one application leaves of the others. *)
Record touches (app : Z) (s s' : db) : Prop := mkTouches {
  touches_rows : reservations s' = reservations s;
  touches_apps : apps s' = apps s;
  touches_others : forall a, a <> app -> balances s' !! a = balances s !! a
}.

Lemma computed_balance now app s :
  wf s -> fits_int4 (active_sum app s) = true ->
  balance_check (Balance.mk (active_sum app s) None now) = Ok tt.
Proof.
  intros W F. unfold balance_check, int4. simpl. rewrite F. simpl.
  apply active_sum_nonneg with (app := app), Z.leb_le in W. by rewrite W.
Qed.

Lemma written_reconciled app b s u :
  balances u = <[app := b]> (balances s) -> reservations u = reservations s -> apps u = apps s ->
  Balance.reserved_chunks b = active_sum app s -> Balance.conservation_blocked_at b = None ->
  touches app s u /\ reconciled app u.
Proof.
  intros B R A E N. split.
  - split; try done. intros a Na. by rewrite B, lookup_insert_ne.
  - unfold reconciled, balance_of, active_sum. rewrite B, R, lookup_insert_eq.
    split; [done|]. by intros b' [= <-].
Qed.

Lemma reconcile_app_total now app s :
  wf s -> app ∈ apps s -> fits_int4 (active_sum app s) = true ->
  exists x s', reconcile_send_inflight_app now app s = Ok (x, s') /\
    touches app s s' /\ reconciled app s'.
Proof.
  intros W A F. pose proof (computed_balance now app s W F) as C.
  unfold reconcile_send_inflight_app, mbind, stex_bind, get, lift, int4. rewrite F.
  rewrite no_duplicates by done. simpl.
  destruct (balances s !! app) as [b|] eqn:B.
  - destruct (Z.eqb_spec (Balance.reserved_chunks b) (active_sum app s)) as [E|N].
    + case_bool_decide as K.
      * rewrite (update_balance_eq _ _ _ _ b B eq_refl).
        2: { rewrite E. exact C. }
        eexists _, _. split; [reflexivity|]. by eapply written_reconciled.
      * eexists _, _. split; [reflexivity|]. split; [by split|]. unfold reconciled, balance_of.
        rewrite B. split; [done|]. intros b' [= <-].
        by destruct (Balance.conservation_blocked_at b); [exfalso; eauto|].
    + rewrite (update_balance_eq _ _ _ _ b B eq_refl) by exact C.
      eexists _, _. split; [reflexivity|]. by eapply written_reconciled.
  - destruct (Z.eqb_spec (active_sum app s) 0) as [E|N].
    + eexists _, _. split; [reflexivity|]. split; [by split|].
      unfold reconciled, balance_of. by rewrite B.
    + rewrite (insert_balance_eq _ _ _ _ C A). eexists _, _. split; [reflexivity|].
      by eapply written_reconciled.
Qed.

Lemma converge_loop now l : forall n s,
  wf s -> (forall app, app ∈ l -> app ∈ apps s /\ fits_int4 (active_sum app s) = true) -> NoDup l ->
  exists m s', count_each (fun app => outcome ← reconcile_send_inflight_app now app;
                                      mret (bool_decide (outcome = repaired))) l n s = Ok (m, s') /\
    wf s' /\ reservations s' = reservations s /\ (forall app, app ∈ l -> reconciled app s') /\
    forall app, app ∉ l -> balances s' !! app = balances s !! app.
Proof.
  induction l as [|app l IH]; intros n s W F N.
  { exists n, s. split_and!; [done | done | done | set_solver | done]. }
  apply NoDup_cons in N as [NI N]. destruct (F app ltac:(set_solver)) as [A I].
  destruct (reconcile_app_total now app s W A I) as (x & s1 & E & [R1 A1 O1] & C).
  assert (W1 : wf s1) by (by apply (within_reconcile_app now app _ _ _ E W)).
  assert (F1 : forall a, a ∈ l -> a ∈ apps s1 /\ fits_int4 (active_sum a s1) = true).
  { intros a I'. unfold active_sum. rewrite A1, R1. apply F. set_solver. }
  destruct (IH (if bool_decide (x = repaired) then n + 1 else n) s1 W1 F1 N)
    as (m & s' & H & W' & R & X & O).
  exists m, s'. split_and!; [|done | congruence | | ].
  - simpl. unfold mbind, stex_bind. by rewrite E.
  - intros a [->|I']%elem_of_cons; [|auto]. unfold reconciled, balance_of, active_sum in *.
    rewrite (O app NI), R. exact C.
  - intros a [Na Nl]%not_elem_of_cons. by rewrite O, O1.
Qed.

(** C22: The reconciliation repairs any drift: from any state of well-formed
    rows, whatever its balances are, and for applications that exist and whose
    sums fit the column, it returns; every application it went over then
    passes the conservation check and accepts sends again, and neither a
    reservation nor the balance of another application has changed. *)
Theorem reconcile_converges now limit l s :
  wf s -> (forall app, app ∈ l -> app ∈ apps s /\ fits_int4 (active_sum app s) = true) ->
  exists n s', reconcile_inflight_balance_conservation now limit (Some l) s = Ok (n, s') /\
    reservations s' = reservations s /\
    (forall app, app ∈ l -> check_send_inflight_balance_conservation app s' = Ok tt /\
       forall b, balances s' !! app = Some b -> Balance.conservation_blocked_at b = None) /\
    forall app, app ∉ l -> balances s' !! app = balances s !! app.
Proof.
  intros W F.
  assert (E : forall a, a ∈ sorted_set l <-> a ∈ l).
  { intros a. unfold sorted_set. by rewrite sorting.merge_sort_Permutation, elem_of_remove_dups. }
  destruct (converge_loop now (sorted_set l) 0 s W) as (n & s' & H & W' & R & X & O).
  - intros app. rewrite E. apply F.
  - unfold sorted_set. rewrite sorting.merge_sort_Permutation. apply NoDup_remove_dups.
  - exists n, s'. split_and!; [exact H | done | |].
    + intros app [C U]%E%X. split; [by apply check_iff | done].
    + intros app N. apply O. by rewrite E.
Qed.

(** A balance of nine without a reservation, blocked since instant 4. *)
Definition drifted_db : db :=
  mkDb {[7 := Balance.mk 9 (Some 4) 4]} ∅ {[7]} ∅ ∅ ∅ [] 1 [].

Lemma reconcile_converges_witness :
  check_send_inflight_balance_conservation 7 drifted_db <> Ok tt /\
  exists n s', reconcile_inflight_balance_conservation 5 100 (Some [7]) drifted_db = Ok (n, s') /\
    check_send_inflight_balance_conservation 7 s' = Ok tt.
Proof.
  split; [vm_compute; discriminate|].
  destruct (reconcile_converges 5 100 [7] drifted_db) as (n & s' & H & _ & C & _).
  - split; cbn [reservations balances drifted_db]; try (intros *; rewrite lookup_empty; discriminate).
    intros app b H. apply lookup_singleton_Some in H as [_ <-]. done.
  - intros app ->%list_elem_of_singleton. by split; [set_solver|].
  - exists n, s'. split; [exact H|]. apply C, list_elem_of_here.
Defined.

End InflightLaws.
