(* ===== verification/ResendSource.v ===== *)
(** * The sources of a resent batch

    The part of [SqlPipelineRepository._insert] that runs before a batch is
    inserted ([services/pipeline_repository.py]): a resend of failed messages
    proves that its source and the messages are as it saw them
    ([services/resend_supplement_commit.py], [services/resend_eligibility.py]),
    a resend of an uncertain chunk proves its approved resolution
    ([services/uncertain_resolution.py]).  Both may find that the batch was
    created before and return it.

    The rows the statements read are a record of tables, an argument of every
    function; so are the context of a resolution and the proof of its source,
    which other services check. *)

From S2P Require Import Prelude PyText Routing Failover.

Module ResendSource.

Definition AcceptCommitConflict (msg : string) : exc := Exc (tx "AcceptCommitConflict") (utx msg).
Definition ResendBlocked (reason : string) : exc := Exc (tx "ResendBlocked") (tx reason).
Definition UncertainResolutionConflict (msg : string) : exc :=
  Exc (tx "UncertainResolutionConflict") (utx msg).
Definition UncertainResolutionNotFound : exc := Exc (tx "UncertainResolutionNotFound") [].

(** ** Identities ([services/idempotency.py]) *)

(** [f"{n:x}"] of a number that is not negative. *)
Definition hex_digit (d : Z) : Z := if d <? 10 then 48 + d else 87 + d.
Fixpoint hex_digits (fuel : nat) (n : Z) (acc : text) : text :=
  match fuel with
  | O => acc
  | S fuel => let acc := hex_digit (n mod 16) :: acc in
              if n / 16 =? 0 then acc else hex_digits fuel (n / 16) acc
  end.
Definition str_hex (n : Z) : text := hex_digits (S (Z.to_nat (Z.log2 n))) n [].

Definition uncertain_resend_biz_id (resolution_id generation : Z) : result exc text :=
  _ ← refuse (negb ((0 <? resolution_id) && (resolution_id <? 2 ^ 63))
              || negb ((0 <? generation) && (generation <? 2 ^ 31)))
        (ValueError "uncertain effect identity invalid");
  let legacy := tx "manual-resend:" ++ str_int resolution_id ++ tx ":" ++ str_int generation in
  Ok (if len legacy <=? 32 then legacy
      else tx "ur:" ++ str_hex resolution_id ++ tx ":" ++ str_hex generation).

(** [core/auth/accounts.py] *)
Record UncertainEffectPrincipal := mkEffect {
  ep_resolution_id : Z;
  ep_proposer : Z;
  ep_confirmer : Z;
  ep_generation : Z;
  ep_dept : text
}.

Definition make_effect (p : UncertainEffectPrincipal) : result exc UncertainEffectPrincipal :=
  _ ← refuse ((ep_resolution_id p <? 1) || (ep_proposer p <? 1) || (ep_confirmer p <? 1)
              || (ep_generation p <? 1)) (ValueError "uncertain effect principal invalid");
  _ ← refuse (ep_proposer p =? ep_confirmer p)
        (ValueError "uncertain effect principal must be dual-controlled");
  _ ← refuse (bool_decide (ep_dept p = []) || (128 <? len (ep_dept p)))
        (ValueError "uncertain effect department invalid");
  Ok p.

Definition actor_name (p : UncertainEffectPrincipal) : text :=
  tx "system_resend:" ++ str_int (ep_resolution_id p).

(** ** The command *)

(** [FailedSourceReference]: message id, creation time, phone hash, key version *)
Definition failed_source : Type := Z * Z * text * Z.

(** The fields of a [BatchCommand] the statements on batches, results and
    claims use; [bc_uncertain] is the principal when it is an
    [UncertainEffectPrincipal]. *)
Record BatchCommand := mkCommand {
  bc_batch_no : text;
  bc_app_id : option Z;
  bc_dept : text;
  bc_category : text;
  bc_channel : text;
  bc_is_test : bool;
  bc_biz_id : option text;
  bc_scope_kind : text;
  bc_scope_id : text;
  bc_status : BatchStatus.t;
  bc_total : Z;
  bc_sign_name : option text;
  bc_scheduled_at : option Z;
  bc_resend_of : option text;
  bc_failed_sources : list failed_source;
  bc_resend_supplement_id : option text;
  bc_uncertain : option UncertainEffectPrincipal;
  bc_request_hash : option text;
  bc_request_hash_key_version : option Z;
  bc_claim_token : option text;
  bc_claim_generation : option Z
}.

Record StoredBatch := mkStored {
  sb_batch_no : text;
  sb_idempotent : bool;
  sb_outbox_persisted : bool
}.

(** ** The rows read *)

(** Columns of [sms_batch]. *)
Record BatchRow := mkBatch {
  b_id : Z;
  b_batch_no : text;
  b_channel : text;
  b_dept : text;
  b_category : text;
  b_is_test : bool;
  b_app_id : option Z;
  b_status : text;
  b_creator : option text
}.

(** Columns of [sms_message]. *)
Record MessageRow := mkMessage {
  m_id : Z;
  m_created_at : Z;
  m_status : text;
  m_phone_hmac : text;
  m_key_version : Z
}.

(** [sms_uncertain_resolution] *)
Record UncertainResolution := mkResolution {
  r_id : Z;
  r_chunk_id : Z;
  r_batch_id : Z;
  r_action : text;
  r_state : text;
  r_proposer : Z;
  r_confirmer : option Z;
  r_child_batch_id : option Z;
  r_generation : Z;
  r_source_app_id : option Z;
  r_source_channel : option text;
  r_source_category : option text;
  r_source_dept : option text
}.

(** [UncertainResendContext]: the application of the usage subject and the
    source columns. *)
Record UncertainResendContext := mkContext {
  c_app_id : option Z;
  c_channel : text;
  c_dept : text;
  c_category : text
}.

(** [sms_uncertain_child] *)
Record UncertainChild := mkChild {
  ch_child_batch_id : Z;
  ch_generation : Z;
  ch_provenance_verified : bool
}.

Record tables := mkTables {
  batch_by_no : text -> option BatchRow;
  batch_by_id : Z -> option BatchRow;
  (** state and, by the left join, number of the child of an intent *)
  supplement : text -> Z -> option (text * option text);
  frozen_members : text -> Z -> list (Z * Z);
  messages_of : Z -> list MessageRow;
  (** chunk and batch of a resolution as read before the locks *)
  identity : Z -> option (Z * Z);
  resolution : Z -> option UncertainResolution;
  (** status and batch of a chunk *)
  chunk : Z -> option (text * Z);
  child : Z -> option UncertainChild;
  load_resend_context : UncertainResolution -> result exc UncertainResendContext;
  verify_source_proof : UncertainResolution -> result exc unit
}.

Section with_tables.
Context (t : tables).

(** ** Resend of failed messages *)

(** [services/resend_supplement_commit.py] *)
Definition lock_supplement (c : BatchCommand) (source_batch_id : Z)
    : result exc (option StoredBatch) :=
  match bc_resend_supplement_id c with
  | None => Raise (AcceptCommitConflict "补发意图与幂等作用域不匹配")
  | Some intent_id =>
      _ ← refuse (negb (teqb (bc_scope_kind c) (tx "resend-extra"))
                  || negb (teqb (bc_scope_id c) intent_id))
            (AcceptCommitConflict "补发意图与幂等作用域不匹配");
      match supplement t intent_id source_batch_id with
      | None => Raise (AcceptCommitConflict "补发预览已失效，请重新预览")
      | Some (state, batch_no) =>
          _ ← require (tmem state [tx "preview"; tx "submitted"])
                (AcceptCommitConflict "补发预览已失效，请重新预览");
          if teqb state (tx "submitted")
          then Ok (Some (mkStored (default (tx "None") (sql_trim <$> batch_no)) true false)) else
          let actual : gset (Z * Z) := list_to_set (frozen_members t intent_id source_batch_id) in
          let expected : gset (Z * Z) :=
            list_to_set (map (fun '(id, created_at, _, _) => (id, created_at))
                           (bc_failed_sources c)) in
          _ ← refuse (bool_decide (actual = ∅) || negb (bool_decide (actual = expected)))
                (AcceptCommitConflict "补发预览的号码集合已变化，请重新预览");
          Ok None
      end
  end.

(** [services/resend_eligibility.py] *)
Definition reject_open_receipts (batch_id : Z) (status : text) : result exc unit :=
  _ ← refuse (tmem status [tx "cancelled"; tx "rejected"; tx "expired"])
        (ResendBlocked "source_terminated");
  _ ← require (tmem status [tx "completed"; tx "completed_unknown"]) (ResendBlocked "not_terminal");
  refuse (List.existsb (fun m => tmem (m_status m) [tx "pending"; tx "sent"])
            (messages_of t batch_id)) (ResendBlocked "receipts_pending").

(** The failed messages are exactly those the command names. *)
Definition sources_unchanged (c : BatchCommand) (batch_id : Z) : bool :=
  let ids := map (fun '(id, _, _, _) => id) (bc_failed_sources c) in
  let rows := List.filter (fun m => bool_decide (m_id m ∈ ids)) (messages_of t batch_id) in
  let actual : gset failed_source :=
    list_to_set (map (fun m => (m_id m, m_created_at m, sql_trim (m_phone_hmac m), m_key_version m))
                   (List.filter (fun m => teqb (m_status m) (tx "failed")) rows)) in
  let expected : gset failed_source := list_to_set (bc_failed_sources c) in
  bool_decide (actual = expected) && (length rows =? size expected)%nat.

Definition check_failed_sources (c : BatchCommand) (resend_of : text)
    : result exc (option StoredBatch) :=
  let changed := AcceptCommitConflict "原批次重发来源资格已变化" in
  match batch_by_no t resend_of with
  | None => Raise changed
  | Some source =>
      _ ← refuse (bool_decide (bc_failed_sources c = [])
                  || negb (teqb (b_channel source) (bc_channel c))
                  || negb (teqb (b_dept source) (bc_dept c))
                  || negb (teqb (b_category source) (bc_category c))
                  || negb (Bool.eqb (b_is_test source) (bc_is_test c))
                  || teqb (bc_channel c) (tx "api")
                     && negb (bool_decide (b_app_id source = bc_app_id c))) changed;
      existing ← (if bc_resend_supplement_id c is Some _
                  then lock_supplement c (b_id source) else Ok None);
      match existing with
      | Some stored => Ok (Some stored)
      | None =>
          _ ← reject_open_receipts (b_id source) (b_status source);
          _ ← require (sources_unchanged c (b_id source))
                (AcceptCommitConflict "原批次失败消息已变化，请刷新后重试");
          Ok None
      end
  end.

(** ** Resend of an uncertain chunk ([services/uncertain_resolution.py]) *)

Definition APPROVED_EFFECT_STATES : list text :=
  [tx "approved"; tx "effect_pending"; tx "applying"; tx "retryable_effect_error"].

(** The locks are taken in the order chunk, batch, resolution. *)
Definition _lock_resolution_source (resolution_id : Z) : result exc unit :=
  match identity t resolution_id with
  | None => Raise UncertainResolutionNotFound
  | Some before =>
      require (bool_decide ((fun r => (r_chunk_id r, r_batch_id r)) <$> resolution t resolution_id
                            = Some before))
        (UncertainResolutionConflict "重发源上下文已变化")
  end.

Definition lock_uncertain_resend (p : UncertainEffectPrincipal)
    : result exc (UncertainResolution * UncertainResendContext) :=
  _ ← _lock_resolution_source (ep_resolution_id p);
  match (r ← resolution t (ep_resolution_id p);
         c ← chunk t (r_chunk_id r);
         b ← batch_by_id t (r_batch_id r);
         Some (r, c, b)) with
  | None => Raise (UncertainResolutionConflict "处置单不存在")
  | Some (current, (chunk_status, chunk_batch_id), b) =>
      _ ← require (r_generation current =? ep_generation p)
            (UncertainResolutionConflict "处置 generation 已变化");
      _ ← refuse (negb (tmem (r_state current) APPROVED_EFFECT_STATES)
                  || negb (teqb (r_action current) (tx "resend_new_batch"))
                  || negb (r_proposer current =? ep_proposer p)
                  || negb (bool_decide (r_confirmer current = Some (ep_confirmer p)))
                  || bool_decide (Some (r_proposer current) = r_confirmer current)
                  || negb (bool_decide (r_source_dept current = Some (ep_dept p)))
                  || negb (teqb chunk_status (tx "unknown_terminal"))
                  || negb (chunk_batch_id =? r_batch_id current)
                  || negb (bool_decide (b_app_id b = r_source_app_id current))
                  || negb (bool_decide (Some (b_dept b) = r_source_dept current))
                  || negb (bool_decide (Some (b_channel b) = r_source_channel current))
                  || negb (bool_decide (Some (b_category b) = r_source_category current)))
            (UncertainResolutionConflict "重发源上下文或批准事实已变化");
      context ← load_resend_context t current;
      Ok (current, context)
  end.

(** The principal of an approved resolution. *)
Definition _effect_principal (current : UncertainResolution)
    : result exc UncertainEffectPrincipal :=
  match r_confirmer current with
  | None => Raise (UncertainResolutionConflict "重发缺少确认人")
  | Some confirmer =>
      let dept := strip (default [] (r_source_dept current)) in
      _ ← refuse (bool_decide (dept = []) || (128 <? len dept))
            (UncertainResolutionConflict "source dept unavailable");
      make_effect (mkEffect (r_id current) (r_proposer current) confirmer (r_generation current) dept)
  end.

Definition _check_child_context (row : UncertainChild) (b : BatchRow)
    (current : UncertainResolution) (context : UncertainResendContext) : result exc unit :=
  let conflict := UncertainResolutionConflict "重发子批次来源冲突" in
  _ ← require (ch_generation row =? r_generation current)
        (UncertainResolutionConflict "处置 generation 已变化");
  _ ← refuse (negb (bool_decide (b_app_id b = c_app_id context))
              || negb (bool_decide (Some (b_dept b) = r_source_dept current))
              || negb (bool_decide (Some (b_channel b) = r_source_channel current))
              || negb (bool_decide (Some (b_category b) = r_source_category current))) conflict;
  p ← _effect_principal current;
  refuse (negb (bool_decide (b_creator b = Some (actor_name p)))
          || match r_child_batch_id current with
             | Some id => negb (id =? ch_child_batch_id row)
             | None => false
             end) conflict.

(** [_child_relation] joins the child with its batch. *)
Definition _child_relation (resolution_id : Z) : option (UncertainChild * BatchRow) :=
  c ← child t resolution_id;
  b ← batch_by_id t (ch_child_batch_id c);
  Some (c, b).

Definition check_uncertain_source (c : BatchCommand) (p : UncertainEffectPrincipal)
    : result exc (option StoredBatch) :=
  '(uncertain, context) ← lock_uncertain_resend p;
  let unproven := UncertainResolutionConflict "重发命令来源无法证明" in
  _ ← refuse (negb (bool_decide (bc_app_id c = c_app_id context))
              || negb (teqb (bc_channel c) (c_channel context))
              || negb (teqb (bc_dept c) (c_dept context))
              || negb (teqb (bc_category c) (c_category context))
              || negb (teqb (bc_scope_kind c) (tx "uncertain-resend"))
              || negb (teqb (bc_scope_id c) (str_int (r_id uncertain)))) unproven;
  biz_id ← uncertain_resend_biz_id (r_id uncertain) (r_generation uncertain);
  _ ← refuse (negb (bool_decide (bc_biz_id c = Some biz_id))
              || negb (bool_decide (bc_resend_of c = None))) unproven;
  match _child_relation (r_id uncertain) with
  | Some (relation, b) =>
      _ ← require (ch_provenance_verified relation)
            (UncertainResolutionConflict "重发子批次来源冲突");
      _ ← _check_child_context relation b uncertain context;
      Ok (Some (mkStored (strip (b_batch_no b)) true false))
  | None =>
      _ ← refuse (bool_decide (is_Some (r_child_batch_id uncertain)))
            (UncertainResolutionConflict "重发子批次来源无法证明");
      _ ← verify_source_proof t uncertain;
      Ok None
  end.

(** What precedes the insertion: the batch an earlier attempt created, if any. *)
Definition prior_batch (c : BatchCommand) : result exc (option StoredBatch) :=
  match bc_uncertain c, bc_resend_of c with
  | Some p, _ => check_uncertain_source c p
  | None, Some (x :: resend_of) => check_failed_sources c (x :: resend_of)
  | None, _ => Ok None
  end.

End with_tables.

End ResendSource.
