(* ===== verification/IdempotencyStore.v ===== *)
(** * Idempotency of acceptance in PostgreSQL

    The claims and the results of business keys ([services/idempotency_*.py],
    the repository of [services/pipeline_repository.py] and the cleanup of
    [services/housekeeping_repository.py]): a request claims its key under a
    new generation, its batch is inserted together with the result of the key
    under the claim, and a result is retired only when it has expired and no
    work of its batch is open.

    [now] is the start of a transaction; a first read without locks takes the
    database it read from as the argument [v]. *)

From S2P Require Import Prelude PyText Routing Failover Outbox ResendSource.

(** [idempotency_claim.state] *)
Module ClaimState.

Inductive t := active | completed | released | expired.

#[export] Instance eq_dec : EqDecision t.
Proof. solve_decision. Defined.

End ClaimState.
Export (hints) ClaimState.

(** [idempotency_claim]; scope kind, scope id and business id are the key. *)
Module Claim.

Record t := mk {
  token : text;
  fingerprint : text;
  generation : Z;
  expires_at : Z;
  state : ClaimState.t;
  batch_id : option Z;
  completed_at : option Z;
  result_expires_at : option Z;
  released_at : option Z;
  release_reason : option text
}.

End Claim.

(** [idempotency_record], under the same key. *)
Module Result.

Record t := mk {
  id : Z;
  batch_id : Z;
  request_hash : option text;
  request_hash_key_version : option Z;
  fingerprint_format_version : Z;
  expires_at : Z
}.

End Result.

(** A batch and the work that protects its result: its chunks, its callback
    tasks, the tasks of its callback events, and the open acceptance
    operations of the same application, actor and business id with the request
    hash and key version they wait for. *)
Module Work.

Record t := mk {
  batch_no : text;
  status : BatchStatus.t;
  total : Z;
  sign_name : option text;
  chunks : list ChunkStatus.t;
  tasks : list text;
  event_tasks : list text;
  operations : list (option text * option Z)
}.

End Work.

Module IdempotencyStore.
Import ResendSource.

Definition key : Type := text * text * text.

(** Ghost events: the result of a key was inserted, or deleted in a transaction
    that began at [now]; a deletion notes the row it removed and its batch with
    the work on it, as they were. *)
Inductive event :=
| Accepted (k : key) (batch_id : Z)
| Retired (k : key) (now : Z) (r : Result.t) (w : option Work.t).

Record db := mkDb {
  claims : gmap key Claim.t;
  results : gmap key Result.t;
  works : gmap Z Work.t;
  next_batch_id : Z;
  next_result_id : Z;
  log : list event
}.

Definition set_claims f (s : db) : db :=
  mkDb (f (claims s)) (results s) (works s) (next_batch_id s) (next_result_id s) (log s).
Definition set_results f (s : db) : db :=
  mkDb (claims s) (f (results s)) (works s) (next_batch_id s) (next_result_id s) (log s).
Definition set_works f (s : db) : db :=
  mkDb (claims s) (results s) (f (works s)) (next_batch_id s) (next_result_id s) (log s).
Definition note e (s : db) : db :=
  mkDb (claims s) (results s) (works s) (next_batch_id s) (next_result_id s) (log s ++ [e]).
Definition take_batch_id (s : db) : db :=
  mkDb (claims s) (results s) (works s) (next_batch_id s + 1) (next_result_id s) (log s).
Definition take_result_id (s : db) : db :=
  mkDb (claims s) (results s) (works s) (next_batch_id s) (next_result_id s + 1) (log s).

Definition tx_ (A : Type) : Type := stex db exc A.

Definition IdempotencyConflict (msg : string) : exc := Exc (tx "IdempotencyConflict") (utx msg).
Definition unverifiable : exc :=
  IdempotencyConflict "原幂等结果无法验证，请核对原批次；禁止自动重发".

(** ** Lifecycle of a result ([services/idempotency_lifecycle.py]) *)

Definition settled_task (st : text) : bool := tmem st [tx "done"; tx "dead"].

(** [operation.acceptance_request_hash IS NULL OR (... = i.request_hash AND ...)] *)
Definition awaits (r : option Result.t) (op : option text * option Z) : bool :=
  match fst op with
  | None => true
  | Some h =>
      match r with
      | Some r => bool_decide (Result.request_hash r = Some h)
                  && bool_decide (is_Some (snd op))
                  && bool_decide (Result.request_hash_key_version r = snd op)
      | None => false
      end
  end.

Definition RESULT_WORK_PROTECTED (w : option Work.t) (r : option Result.t) : bool :=
  match w with
  | None => true
  | Some w =>
      negb (bool_decide (Work.status w ∈ [BatchStatus.completed; BatchStatus.rejected;
                                          BatchStatus.expired; BatchStatus.cancelled]))
      || List.existsb (fun c => negb (bool_decide (c ∈ [ChunkStatus.submitted; ChunkStatus.failed])))
           (Work.chunks w)
      || List.existsb (fun st => negb (settled_task st)) (Work.tasks w)
      || List.existsb (fun st => negb (settled_task st)) (Work.event_tasks w)
      || List.existsb (awaits r) (Work.operations w)
      || bool_decide (Work.status w = BatchStatus.completed) && (0 <? Work.total w)
         && bool_decide (Work.chunks w = [])
  end.

Definition IDEMPOTENCY_LIVE (now : Z) (s : db) (r : Result.t) : bool :=
  (now <? Result.expires_at r)
  || bool_decide (Result.request_hash r = None)
  || bool_decide (Result.request_hash_key_version r = None)
  || RESULT_WORK_PROTECTED (works s !! Result.batch_id r) (Some r).

(** The row of [CLAIM_RESULT_SQL]. *)
Record IdempotencyClaimRow := mkRow {
  cr_claim : Claim.t;
  cr_lease_valid : bool;
  cr_result_id : option Z;
  cr_result_verified : bool;
  cr_result_protected : bool
}.

(** The result joined with a claim has its key and its batch. *)
Definition joined_result (k : key) (q : Claim.t) (s : db) : option Result.t :=
  r ← results s !! k;
  if bool_decide (Claim.batch_id q = Some (Result.batch_id r)) then Some r else None.

Definition CLAIM_RESULT_LIVE (now : Z) (s : db) (q : Claim.t) (r : option Result.t) : bool :=
  match from_option (fun r => Some (Result.expires_at r)) (Claim.result_expires_at q) r with
  | None => true
  | Some t => now <? t
  end
  || RESULT_WORK_PROTECTED (Claim.batch_id q ≫= fun b => works s !! b) r.

Definition CLAIM_RESULT (now : Z) (k : key) (s : db) : option IdempotencyClaimRow :=
  q ← claims s !! k;
  let r := joined_result k q s in
  Some (mkRow q (now <? Claim.expires_at q) (Result.id <$> r)
          match r with
          | Some r => match Result.request_hash r with
                      | Some h => bool_decide (sql_trim h = sql_trim (Claim.fingerprint q))
                                  && bool_decide (is_Some (Result.request_hash_key_version r))
                      | None => false
                      end
          | None => bool_decide (is_Some (Claim.result_expires_at q))
          end
          (CLAIM_RESULT_LIVE now s q r)).

Definition require_completed_result (row : IdempotencyClaimRow) : result exc unit :=
  refuse (bool_decide (Claim.state (cr_claim row) = ClaimState.completed)
          && (negb (cr_result_verified row)
              || bool_decide (cr_result_id row = None) && cr_result_protected row))
    unverifiable.

(** ** Statements *)

(** [DELETE FROM idempotency_record i USING sms_batch b WHERE <key> AND
    i.batch_id=b.id AND <guard> AND NOT live RETURNING i.id] *)
Definition retire_result (now : Z) (k : key) (guard : Result.t -> bool) : tx_ bool :=
  s ← get;
  match results s !! k with
  | Some r =>
      if guard r && bool_decide (is_Some (works s !! Result.batch_id r))
         && negb (IDEMPOTENCY_LIVE now s r)
      then _ ← modify (set_results (delete k));
           _ ← modify (note (Retired k now r (works s !! Result.batch_id r)));
           mret true
      else mret false
  | None => mret false
  end.

(** [INSERT INTO idempotency_record], with the unique key and batch. *)
Definition insert_result (k : key) (batch_id : Z) (hash : option text) (version : option Z)
    (expires_at : Z) : tx_ unit :=
  s ← get;
  _ ← lift (refuse (bool_decide (is_Some (results s !! k)))
              (Outbox.IntegrityError "uk_idem_app_biz"));
  _ ← lift (refuse (List.existsb (fun p => Result.batch_id (snd p) =? batch_id)
                      (map_to_list (results s)))
              (Outbox.IntegrityError "idempotency_record_batch_id_key"));
  _ ← modify take_result_id;
  _ ← modify (set_results (<[k := Result.mk (next_result_id s) batch_id hash version 2 expires_at]>));
  modify (note (Accepted k batch_id)).

(** [UPDATE idempotency_claim SET <f> WHERE <key> AND <guard> RETURNING generation] *)
Definition update_claim (k : key) (guard : Claim.t -> bool) (f : Claim.t -> Claim.t)
    : tx_ (option Z) :=
  s ← get;
  match claims s !! k with
  | Some q => if guard q then _ ← modify (set_claims (<[k := f q]>));
                              mret (Some (Claim.generation (f q)))
              else mret None
  | None => mret None
  end.

(** ** Claims ([services/idempotency_claim_sql.py]) *)

Definition SECOND_US : Z := 1000000.

(** The row of a claim taken by a new owner. *)
Definition claimed_row (now ttl_s : Z) (token fingerprint : text) (generation : Z) : Claim.t :=
  Claim.mk token fingerprint generation (now + ttl_s * SECOND_US) ClaimState.active None None None
    None None.

Definition reclaimable (now : Z) (q : Claim.t) : bool :=
  bool_decide (Claim.state q ∈ [ClaimState.expired; ClaimState.released])
  || bool_decide (Claim.state q = ClaimState.active) && (Claim.expires_at q <? now).

(** [INSERT ... ON CONFLICT DO UPDATE ... WHERE ... RETURNING generation] *)
Definition RESERVE_IDEMPOTENCY_CLAIM (now : Z) (k : key) (token fingerprint : text) (ttl_s : Z)
    : tx_ (option Z) :=
  s ← get;
  match claims s !! k with
  | None => _ ← modify (set_claims (<[k := claimed_row now ttl_s token fingerprint 1]>));
            mret (Some 1)
  | Some _ => update_claim k (reclaimable now)
                (fun q => claimed_row now ttl_s token fingerprint (Claim.generation q + 1))
  end.

Definition owned (token : text) (generation : Z) (q : Claim.t) : bool :=
  bool_decide (Claim.token q = token) && (Claim.generation q =? generation)
  && bool_decide (Claim.state q = ClaimState.active).

Definition renew_idempotency_claim (now : Z) (k : key) (token fingerprint : text)
    (generation ttl_s clock_margin_s : Z) : tx_ bool :=
  row ← update_claim k
    (fun q => owned token generation q && bool_decide (Claim.fingerprint q = fingerprint)
              && (now - clock_margin_s * SECOND_US <? Claim.expires_at q))
    (fun q => Claim.mk (Claim.token q) (Claim.fingerprint q) (Claim.generation q)
                (now + ttl_s * SECOND_US) (Claim.state q) (Claim.batch_id q)
                (Claim.completed_at q) (Claim.result_expires_at q) (Claim.released_at q)
                (Claim.release_reason q));
  mret (bool_decide (is_Some row)).

Definition release_idempotency_claim (now : Z) (k : key) (token : text) (generation : Z)
    (reason : text) : tx_ bool :=
  s ← get;
  row ← update_claim k
    (fun q => owned token generation q && bool_decide (Claim.batch_id q = None)
              && match results s !! k with
                 | Some r => negb (now <? Result.expires_at r)
                 | None => true
                 end)
    (fun q => Claim.mk (Claim.token q) (Claim.fingerprint q) (Claim.generation q)
                (Claim.expires_at q) ClaimState.released (Claim.batch_id q)
                (Claim.completed_at q) (Claim.result_expires_at q) (Some now)
                (Some (take 32 reason)));
  mret (bool_decide (is_Some row)).

(** Retires a completed result under the locks of its batch and its claim and
    takes the next generation. *)
Definition reclaim_completed_result (now : Z) (k : key) (token fingerprint : text) (ttl_s : Z)
    (batch_id : option Z) : tx_ (option Z) :=
  match batch_id with
  | None => throw unverifiable
  | Some b =>
      s ← get;
      _ ← lift (require (bool_decide (is_Some (works s !! b))) unverifiable);
      match CLAIM_RESULT now k s with
      | None => mret None
      | Some row =>
          let q := cr_claim row in
          if negb (bool_decide (Claim.state q = ClaimState.completed)
                   && bool_decide (Claim.batch_id q = Some b)) then mret None else
          _ ← lift (require_completed_result row);
          if cr_result_protected row then mret None else
          removed ← match cr_result_id row with
                    | None => mret true
                    | Some id => retire_result now k (fun r => Result.id r =? id)
                    end;
          if negb removed then mret None else
          value ← update_claim k
            (fun c => bool_decide (Claim.state c = ClaimState.completed)
                      && bool_decide (Claim.batch_id c = Some b)
                      && (Claim.generation c =? Claim.generation q))
            (fun c => claimed_row now ttl_s token fingerprint (Claim.generation c + 1));
          match value with
          | None => throw (IdempotencyConflict "幂等结果退役发生冲突，请核对原批次")
          | Some g => mret (Some g)
          end
      end
  end.

(** The repository; [v] is what the first read saw. *)
Definition reserve_from (v : db) (now : Z) (k : key) (token fingerprint : text) (ttl_s : Z)
    : tx_ (option Z) :=
  match claims v !! k with
  | Some q =>
      if bool_decide (Claim.state q = ClaimState.completed)
      then reclaim_completed_result now k token fingerprint ttl_s (Claim.batch_id q)
      else RESERVE_IDEMPOTENCY_CLAIM now k token fingerprint ttl_s
  | None => RESERVE_IDEMPOTENCY_CLAIM now k token fingerprint ttl_s
  end.

Definition reserve_idempotency_claim (now : Z) (k : key) (token fingerprint : text) (ttl_s : Z)
    : tx_ (option Z) :=
  v ← get; reserve_from v now k token fingerprint ttl_s.

Definition load_idempotency_claim (now : Z) (k : key) (s : db)
    : result exc (option IdempotencyClaimRow) :=
  match CLAIM_RESULT now k s with
  | None => Ok None
  | Some row => _ ← require_completed_result row; Ok (Some row)
  end.

Definition live_idempotency_claim (now : Z) (k : key) (s : db) : bool :=
  match claims s !! k with
  | Some q => bool_decide (Claim.state q = ClaimState.active) && (now <? Claim.expires_at q)
  | None => false
  end.

(** The live result of a key with its batch. *)
Definition live_result (now : Z) (k : key) (s : db) : option (Result.t * Work.t) :=
  r ← results s !! k;
  w ← works s !! Result.batch_id r;
  if IDEMPOTENCY_LIVE now s r then Some (r, w) else None.

Definition exists_ (now : Z) (k : key) (batch_no : text) (s : db) : bool :=
  match live_result now k s with
  | Some (_, w) => bool_decide (Work.batch_no w = batch_no)
  | None => false
  end.

Definition find_existing (now : Z) (k : key) (s : db) : option text :=
  '(_, w) ← live_result now k s; Some (strip (Work.batch_no w)).

Record IdempotencyFingerprint := mkFingerprint {
  fp_digest : text;
  fp_key_version : Z;
  fp_format_version : Z;
  fp_frozen_sign : option text
}.

Definition find_request_fingerprint (now : Z) (k : key) (s : db) : option IdempotencyFingerprint :=
  '(r, w) ← live_result now k s;
  h ← Result.request_hash r;
  version ← Result.request_hash_key_version r;
  Some (mkFingerprint (strip h) version (Result.fingerprint_format_version r)
          match Work.sign_name w with Some [] => None | x => x end).

(** ** Acceptance of a batch ([SqlPipelineRepository._insert], [save]) *)

Definition key_of (c : BatchCommand) (biz_id : text) : key :=
  (bc_scope_kind c, bc_scope_id c, biz_id).

(** [if command.biz_id] *)
Definition business_key (c : BatchCommand) : option key :=
  match bc_biz_id c with
  | None | Some [] => None
  | Some biz => Some (key_of c biz)
  end.

(** [if command.idempotency_claim_token and ... generation is not None] *)
Definition presented_claim (c : BatchCommand) : option (text * Z) :=
  match bc_claim_token c, bc_claim_generation c with
  | Some (x :: token), Some g => Some (x :: token, g)
  | _, _ => None
  end.

Definition DAY_US : Z := 24 * 3600 * SECOND_US.

Definition insert_batch (c : BatchCommand) : tx_ Z :=
  s ← get;
  _ ← lift (refuse (List.existsb (fun p => bool_decide (Work.batch_no (snd p) = bc_batch_no c))
                      (map_to_list (works s))) (Outbox.IntegrityError "sms_batch_batch_no_key"));
  _ ← modify take_batch_id;
  _ ← modify (set_works (<[next_batch_id s := Work.mk (bc_batch_no c) (bc_status c) (bc_total c)
                             (bc_sign_name c) [] [] [] []]>));
  mret (next_batch_id s).

Definition claim_lost : exc := RuntimeError "idempotency claim lost".

Definition check_claim (now : Z) (k : key) (token : text) (generation : Z) : tx_ unit :=
  s ← get;
  lift (require match claims s !! k with
                | Some q => bool_decide (Claim.state q = ClaimState.active)
                            && (now <? Claim.expires_at q)
                            && bool_decide (strip (Claim.token q) = token)
                            && (Claim.generation q =? generation)
                | None => false
                end claim_lost).

Definition complete_claim (now : Z) (k : key) (token : text) (generation batch_id expires_at : Z)
    : tx_ unit :=
  completed ← update_claim k
    (fun q => owned token generation q && (now <? Claim.expires_at q))
    (fun q => Claim.mk (Claim.token q) (Claim.fingerprint q) (Claim.generation q)
                (Claim.expires_at q) ClaimState.completed (Some batch_id) (Some now)
                (Some expires_at) (Claim.released_at q) (Claim.release_reason q));
  lift (require (bool_decide (is_Some completed)) claim_lost).

(** [int | StoredBatch] *)
Inductive inserted :=
| Inserted (batch_id : Z)
| Existing (stored : StoredBatch).

(** The statements on batches, results and claims; [t] holds the rows the
    sources of a resend are proved with, and [others] are the effects of the
    insertion on other tables (usage, in-flight capacity, messages, approval,
    outbox, audit, relations of resends), which may raise.  A resend that was
    created before returns its batch. *)
Definition _insert (t : tables) (others : db -> result exc unit) (now : Z) (c : BatchCommand)
    : tx_ inserted :=
  prior ← lift (prior_batch t c);
  match prior with
  | Some stored => mret (Existing stored)
  | None =>
      _ ← match business_key c with
          | Some k => _ ← retire_result now k (fun _ => true); mret tt
          | None => mret tt
          end;
      batch_id ← insert_batch c;
      _ ← match business_key c with
          | None => mret tt
          | Some k =>
              let expires_at := match bc_scheduled_at c with
                                | Some t => t + 7 * DAY_US
                                | None => now + DAY_US
                                end in
              _ ← match presented_claim c with
                  | Some (token, g) => check_claim now k token g
                  | None => mret tt
                  end;
              _ ← insert_result k batch_id (bc_request_hash c) (bc_request_hash_key_version c)
                    expires_at;
              match presented_claim c with
              | Some (token, g) => complete_claim now k token g batch_id expires_at
              | None => mret tt
              end
          end;
      s ← get;
      _ ← lift (others s);
      mret (Inserted batch_id)
  end.

Definition is_integrity_error (e : exc) : bool :=
  let 'Exc cls _ := e in bool_decide (cls = tx "IntegrityError").

(** The constraint of the key or of another table was violated: the batch a
    live result of the key names is returned, else the child of an ordinary
    resend. *)
Definition save (t : tables) (others : db -> result exc unit) (find_resend_child : text -> option text)
    (now later : Z) (c : BatchCommand) (s : db) : result exc StoredBatch * db :=
  match transaction (_insert t others now c) s with
  | (Ok (Existing stored), s') => (Ok stored, s')
  | (Ok (Inserted _), s') =>
      (Ok (mkStored (bc_batch_no c) false (bool_decide (bc_status c = BatchStatus.queued))), s')
  | (Raise e, s') =>
      if negb (is_integrity_error e) then (Raise e, s') else
      match business_key c ≫= fun k => find_existing later k s' with
      | Some existing => (Ok (mkStored existing true false), s')
      | None =>
          match bc_resend_of c, bc_resend_supplement_id c with
          | Some (x :: source), None =>
              match find_resend_child (x :: source) with
              | Some child => (Ok (mkStored child true false), s')
              | None => (Raise e, s')
              end
          | _, _ => (Raise e, s')
          end
      end
  end.

(** ** Cleanup and rescheduling *)

(** One page of [_cleanup_idempotency_page]: [skipped] are the rows whose
    batch is locked by another transaction. *)
Definition cleanup_candidate (now cutoff after_id : Z) (s : db) (p : key * Result.t) : bool :=
  (after_id <? Result.id (snd p)) && (Result.expires_at (snd p) <=? cutoff)
  && bool_decide (is_Some (works s !! Result.batch_id (snd p)))
  && negb (IDEMPOTENCY_LIVE now s (snd p)).

Definition older (p q : key * Result.t) : Prop := Result.id (snd p) <= Result.id (snd q).
#[export] Instance older_dec p q : Decision (older p q).
Proof. unfold older. apply _. Defined.

Definition cleanup_page (now cutoff after_id limit : Z) (skipped : Z -> bool) (s : db)
    : list (key * Result.t) :=
  take (Z.to_nat limit)
    (List.filter (fun p => negb (skipped (Result.id (snd p))))
       (sorting.merge_sort older (List.filter (cleanup_candidate now cutoff after_id s)
                                    (map_to_list (results s))))).

(** The completed claim keeps the expiry of the result it proves. *)
Definition keep_expiry (k : key) (r : Result.t) : tx_ unit :=
  _ ← update_claim k
    (fun q => bool_decide (Claim.state q = ClaimState.completed)
              && bool_decide (Claim.batch_id q = Some (Result.batch_id r))
              && match Result.request_hash r with
                 | Some h => bool_decide (sql_trim (Claim.fingerprint q) = sql_trim h)
                 | None => false
                 end
              && bool_decide (is_Some (Result.request_hash_key_version r)))
    (fun q => Claim.mk (Claim.token q) (Claim.fingerprint q) (Claim.generation q)
                (Claim.expires_at q) (Claim.state q) (Claim.batch_id q) (Claim.completed_at q)
                (Some (Result.expires_at r)) (Claim.released_at q) (Claim.release_reason q));
  mret tt.

Fixpoint cleanup_rows (now cutoff : Z) (rows : list (key * Result.t)) (n : Z) : tx_ Z :=
  match rows with
  | [] => mret n
  | (k, r) :: rest =>
      _ ← keep_expiry k r;
      removed ← retire_result now k (fun x => (Result.id x =? Result.id r)
                                              && (Result.expires_at x <=? cutoff));
      cleanup_rows now cutoff rest (if removed : bool then n + 1 else n)
  end.

Definition _cleanup_idempotency_page (now cutoff after_id limit : Z) (skipped : Z -> bool)
    : tx_ Z :=
  s ← get;
  cleanup_rows now cutoff (cleanup_page now cutoff after_id limit skipped s) 0.

(** A rescheduled batch keeps its result for seven days after the new time
    ([services/scheduling_repository.py]). *)
Definition extend_result (batch_id scheduled_at : Z) : tx_ unit :=
  modify (set_results (fmap (fun r =>
    if Result.batch_id r =? batch_id
    then Result.mk (Result.id r) (Result.batch_id r) (Result.request_hash r)
           (Result.request_hash_key_version r) (Result.fingerprint_format_version r)
           (Z.max (Result.expires_at r) (scheduled_at + 7 * DAY_US))
    else r))).

End IdempotencyStore.
