(* ===== verification/IdempotencySafety.v ===== *)
(** * One result per business key

    Every transaction on claims and results keeps two laws: the results table
    is the state of an abstract register that accepts a batch only for a free
    key and frees a key only when its result has expired and nothing of its
    batch is open, and a claim never returns to a generation that was completed. *)

From S2P Require Import Prelude PyText Routing Failover Outbox ResendSource IdempotencyStore.

Module IdempotencySafety.
Import ResendSource IdempotencyStore.

(** ** The abstract register of business keys *)

Definition register : Type := gmap key Z.

(** An open acceptance operation does not wait for the result [r]. *)
Definition not_awaiting (r : Result.t) (op : option text * option Z) : Prop :=
  match op with
  | (Some h, v) =>
      Result.request_hash r <> Some h \/ v = None \/ Result.request_hash_key_version r <> v
  | (None, _) => False
  end.

(** Nothing of a batch is open: it ended, its chunks and its callbacks are
    settled, no operation waits for its result, and a completed batch with
    messages has chunks that show them. *)
Definition closed (r : Result.t) (w : Work.t) : Prop :=
  Work.status w ∈ [BatchStatus.completed; BatchStatus.rejected; BatchStatus.expired;
                   BatchStatus.cancelled] /\
  Forall (fun c => c = ChunkStatus.submitted \/ c = ChunkStatus.failed) (Work.chunks w) /\
  Forall (fun st => st = tx "done" \/ st = tx "dead") (Work.tasks w ++ Work.event_tasks w) /\
  Forall (not_awaiting r) (Work.operations w) /\
  (Work.status w = BatchStatus.completed -> 0 < Work.total w -> Work.chunks w <> []).

(** A result may go when it has expired, it can be explained, and its batch is
    known and closed. *)
Definition retirable (now : Z) (r : Result.t) (w : option Work.t) : Prop :=
  Result.expires_at r <= now /\
  Result.request_hash r <> None /\ Result.request_hash_key_version r <> None /\
  match w with Some w => closed r w | None => False end.

#[export] Instance not_awaiting_dec r op : Decision (not_awaiting r op).
Proof. destruct op as [[h|] v]; simpl; apply _. Defined.
#[export] Instance retirable_dec now r w : Decision (retirable now r w).
Proof. unfold retirable, closed. destruct w; apply _. Defined.

Definition register_step (m : register) (e : event) : option register :=
  match e with
  | Accepted k b => match m !! k with None => Some (<[k := b]> m) | Some _ => None end
  | Retired k now r w =>
      if decide (m !! k = Some (Result.batch_id r) /\ retirable now r w)
      then Some (delete k m) else None
  end.

Fixpoint replay (m : register) (l : list event) : option register :=
  match l with
  | [] => Some m
  | e :: rest => m' ← register_step m e; replay m' rest
  end.

Definition current (s : db) : register := Result.batch_id <$> results s.

Lemma current_lookup s k : current s !! k = Result.batch_id <$> results s !! k.
Proof. apply lookup_fmap. Qed.

Lemma replay_app m l1 l2 : replay m (l1 ++ l2) = replay m l1 ≫= fun m' => replay m' l2.
Proof.
  revert m. induction l1 as [|e l1 IH]; intros m; simpl; [done|].
  destruct (register_step m e); simpl; auto.
Qed.

(** ** The laws of a transaction *)

Definition logged (s s' : db) : Prop :=
  exists l, log s' = log s ++ l /\ replay (current s) l = Some (current s').

Definition moves_on (q q' : Claim.t) : Prop :=
  Claim.generation q < Claim.generation q' \/
  (Claim.generation q = Claim.generation q' /\
   (Claim.state q = ClaimState.completed -> Claim.state q' = ClaimState.completed)).

Definition advances (s s' : db) : Prop :=
  forall k q, claims s !! k = Some q -> exists q', claims s' !! k = Some q' /\ moves_on q q'.

Definition lawful (s s' : db) : Prop := logged s s' /\ advances s s'.

Lemma moves_on_trans q1 q2 q3 : moves_on q1 q2 -> moves_on q2 q3 -> moves_on q1 q3.
Proof.
  unfold moves_on. intros [?|[? ?]] [?|[? ?]]; try (left; lia). right. split; [lia | auto].
Qed.

#[export] Instance lawful_preorder : PreOrder lawful.
Proof.
  split.
  - intros s. split.
    + exists []. by rewrite app_nil_r.
    + intros k q H. exists q. split; [done|]. by right.
  - intros s1 s2 s3 [(l1 & E1 & R1) A1] [(l2 & E2 & R2) A2]. split.
    + exists (l1 ++ l2). split; [by rewrite E2, E1, (assoc_L (++))|].
      by rewrite replay_app, R1.
    + intros k q (q2 & H2 & M2)%A1. destruct (A2 k q2 H2) as (q3 & H3 & M3).
      exists q3. split; [done | by eapply moves_on_trans].
Qed.

(** A change of other tables, or one that keeps the batch of every result. *)
Lemma lawful_same s s' :
  claims s' = claims s -> current s' = current s -> log s' = log s -> lawful s s'.
Proof.
  intros C R L. split.
  - exists []. rewrite app_nil_r. simpl. by rewrite R.
  - intros k q H. exists q. rewrite C. split; [done|]. by right.
Qed.

Lemma within_same f :
  (forall s, claims (f s) = claims s /\ current (f s) = current s /\ log (f s) = log s) ->
  within (E:=exc) lawful (modify f).
Proof. intros H. apply within_modify. intros s. destruct (H s) as (? & ? & ?). by apply lawful_same. Qed.

Lemma not_awaits r op : awaits (Some r) op = false -> not_awaiting r op.
Proof.
  destruct op as [[h|] v]; [|done]. unfold awaits, not_awaiting. simpl. intros H.
  apply andb_false_iff in H as [[H|H]%andb_false_iff|H]; apply bool_decide_eq_false in H;
    [by left| |by right; right]. right; left. destruct v; [exfalso; eauto | done].
Qed.

Lemma existsb_false_Forall {A} (f : A -> bool) (P : A -> Prop) l :
  (forall x, f x = false -> P x) -> List.existsb f l = false -> Forall P l.
Proof.
  intros F. induction l as [|x l IH]; simpl; [by constructor|].
  intros [? ?]%orb_false_iff. constructor; auto.
Qed.

Lemma unprotected_closed r w : RESULT_WORK_PROTECTED (Some w) (Some r) = false -> closed r w.
Proof.
  unfold RESULT_WORK_PROTECTED, closed. rewrite !orb_false_iff.
  intros (((((S & C) & T) & E) & O) & X). split_and!.
  - by apply negb_false_iff, bool_decide_eq_true in S.
  - revert C. apply existsb_false_Forall. intros c H%negb_false_iff%bool_decide_eq_true. set_solver.
  - assert (D : forall st, negb (settled_task st) = false -> st = tx "done" \/ st = tx "dead").
    { intros st H%negb_false_iff. unfold settled_task, tmem in H. bool_prop. set_solver. }
    apply Forall_app. split; [revert T | revert E]; by apply existsb_false_Forall.
  - revert O. apply existsb_false_Forall, not_awaits.
  - intros S' P N. rewrite S', N, !bool_decide_eq_true_2 in X by done.
    apply Z.ltb_lt in P. by rewrite P in X.
Qed.

Lemma not_live_retirable now s r :
  bool_decide (is_Some (works s !! Result.batch_id r)) = true -> IDEMPOTENCY_LIVE now s r = false ->
  retirable now r (works s !! Result.batch_id r).
Proof.
  intros [w W]%bool_decide_eq_true. unfold IDEMPOTENCY_LIVE, retirable. rewrite W, !orb_false_iff.
  intros (((E & H) & V) & P). apply Z.ltb_ge in E. apply bool_decide_eq_false in H, V.
  split_and!; try done. by apply unprotected_closed.
Qed.

Lemma within_retire now k g : within lawful (retire_result now k g).
Proof.
  intros s x s' H. unfold retire_result, mbind, stex_bind, get in H.
  destruct (results s !! k) as [r|] eqn:R; [|injection H as <- <-; reflexivity].
  destruct (_ && negb (IDEMPOTENCY_LIVE now s r)) eqn:G; [|injection H as <- <-; reflexivity].
  injection H as <- <-. apply andb_true_iff in G as [[_ W]%andb_true_iff L%negb_true_iff]. split.
  - exists [Retired k now r (works s !! Result.batch_id r)]. split; [done|].
    cbn [replay register_step]. rewrite decide_True.
    + simpl. unfold current. simpl. by rewrite fmap_delete.
    + split; [by rewrite current_lookup, R | by apply not_live_retirable].
  - intros k' q Q. exists q. split; [done|]. by right.
Qed.

Lemma within_insert_result k b h v t : within lawful (insert_result k b h v t).
Proof.
  intros s x s' H. unfold insert_result, mbind, stex_bind, get, lift in H.
  destruct (refuse _ _) as [[]|] eqn:F in H; [|discriminate].
  apply refuse_ok, bool_decide_eq_false in F.
  destruct (refuse _ _) as [[]|] in H; [|discriminate]. injection H as <- <-. split.
  - exists [Accepted k b]. split; [done|]. cbn [replay register_step]. rewrite current_lookup.
    destruct (results s !! k); [exfalso; eauto|]. simpl. unfold current. simpl.
    by rewrite fmap_insert.
  - intros k' q Q. exists q. split; [done|]. by right.
Qed.

Lemma within_update_claim k g f :
  (forall q, g q = true -> moves_on q (f q)) -> within lawful (update_claim k g f).
Proof.
  intros F s x s' H. unfold update_claim, mbind, stex_bind, get in H.
  destruct (claims s !! k) as [q|] eqn:Q; [|injection H as <- <-; reflexivity].
  destruct (g q) eqn:G; injection H as <- <-; [|reflexivity]. split.
  - exists []. by rewrite app_nil_r.
  - intros k' q' Q'. simpl. destruct (decide (k = k')) as [<-|N].
    + exists (f q). rewrite lookup_insert_eq. split; [done|].
      rewrite Q in Q'. injection Q' as <-. auto.
    + exists q'. rewrite lookup_insert_ne by done. split; [done|]. by right.
Qed.


#[export] Hint Resolve within_retire within_insert_result : within.
#[export] Hint Extern 1 (within lawful (modify _)) =>
  apply within_same; intros; by split_and! : within.

Lemma moves_on_next q now ttl token fp : moves_on q (claimed_row now ttl token fp (Claim.generation q + 1)).
Proof. left. simpl. lia. Qed.

(** An update of an active claim that keeps its generation. *)
Lemma moves_on_active q q' :
  Claim.state q = ClaimState.active -> Claim.generation q' = Claim.generation q -> moves_on q q'.
Proof. intros A G. right. split; [done|]. by rewrite A. Qed.

Lemma owned_active token g q : owned token g q = true ->
  Claim.token q = token /\ Claim.generation q = g /\ Claim.state q = ClaimState.active.
Proof. unfold owned. intros H. by bool_prop. Qed.

Lemma within_reserve_sql now k token fp ttl :
  within lawful (RESERVE_IDEMPOTENCY_CLAIM now k token fp ttl).
Proof.
  intros s x s' H. unfold RESERVE_IDEMPOTENCY_CLAIM in H.
  apply stex_bind_ok in H as (u & u' & [= <- <-] & H).
  destruct (claims s !! k) as [q|] eqn:Q.
  - revert H. apply within_update_claim. intros. apply moves_on_next.
  - injection H as <- <-. split; [exists []; by rewrite app_nil_r|].
    intros k' q' Q'. exists q'. simpl. rewrite lookup_insert_ne; [|congruence].
    split; [done|]. by right.
Qed.
#[export] Hint Resolve within_reserve_sql : within.

Ltac claim_tac := apply within_update_claim; intros ? G; bool_prop.

Lemma within_renew now k token fp g ttl margin :
  within lawful (renew_idempotency_claim now k token fp g ttl margin).
Proof.
  apply within_bind; [apply _| |intros; within_tac]. claim_tac.
  apply owned_active in H as (_ & _ & A). by apply moves_on_active.
Qed.

Lemma lawful_release now k token g reason :
  within lawful (release_idempotency_claim now k token g reason).
Proof.
  apply within_bind; [apply _ | apply within_get; apply _ | intros v].
  apply within_bind; [apply _| |intros; within_tac]. claim_tac.
  apply owned_active in H as (_ & _ & A). by apply moves_on_active.
Qed.

Lemma within_complete now k token g b t : within lawful (complete_claim now k token g b t).
Proof.
  apply within_bind; [apply _| |intros; within_tac]. claim_tac.
  apply owned_active in H as (_ & _ & A). by apply moves_on_active.
Qed.

Lemma within_keep_expiry k r : within lawful (keep_expiry k r).
Proof.
  apply within_bind; [apply _| |intros; within_tac]. apply within_update_claim. intros q _.
  by right.
Qed.

Lemma within_reclaim now k token fp ttl b :
  within lawful (reclaim_completed_result now k token fp ttl b).
Proof.
  assert (U : forall g, within lawful (update_claim k g (fun c =>
    claimed_row now ttl token fp (Claim.generation c + 1)))).
  { intros g. apply within_update_claim. intros. apply moves_on_next. }
  unfold reclaim_completed_result. within_tac.
Qed.

Lemma within_reserve v now k token fp ttl : within lawful (reserve_from v now k token fp ttl).
Proof. unfold reserve_from. repeat case_match; auto using within_reclaim with within. Qed.

Lemma within_check now k token g : within lawful (check_claim now k token g).
Proof. unfold check_claim. within_tac. Qed.

Lemma within_insert_batch c : within lawful (insert_batch c).
Proof. unfold insert_batch. within_tac. Qed.
#[export] Hint Resolve within_complete within_check within_insert_batch within_keep_expiry : within.

Lemma within_insert t others now c : within lawful (_insert t others now c).
Proof. unfold _insert. within_tac. Qed.

Lemma within_cleanup now cutoff after limit skipped :
  within lawful (_cleanup_idempotency_page now cutoff after limit skipped).
Proof.
  unfold _cleanup_idempotency_page. apply within_bind; [apply _ | apply within_get; apply _ | intros v].
  generalize (cleanup_page now cutoff after limit skipped v), 0.
  intros l. induction l as [|[k r] l IH]; intros n; simpl; within_tac.
Qed.

Lemma within_extend b t : within lawful (extend_result b t).
Proof.
  apply within_same. intros s. split_and!; try done. unfold current. simpl.
  rewrite <- map_fmap_compose. apply map_fmap_ext. intros k r _. simpl. by destruct (_ =? b).
Qed.

(** ** The transactions of the system *)

Inductive body (h : list db) : tx_ unit -> Prop :=
| body_reserve v now k token fp ttl :
    v ∈ h -> body h (_ ← reserve_from v now k token fp ttl; mret tt)
| body_renew now k token fp g ttl margin :
    body h (_ ← renew_idempotency_claim now k token fp g ttl margin; mret tt)
| body_release now k token g reason :
    body h (_ ← release_idempotency_claim now k token g reason; mret tt)
| body_accept t others now c : body h (_ ← _insert t others now c; mret tt)
| body_cleanup now cutoff after limit skipped :
    body h (_ ← _cleanup_idempotency_page now cutoff after limit skipped; mret tt)
| body_extend b t : body h (extend_result b t)
| body_work f : body h (modify (set_works f)).

Inductive history : list db -> Prop :=
| history_start s : claims s = ∅ -> results s = ∅ -> log s = [] -> history [s]
| history_step s h m :
    history (s :: h) -> body (s :: h) m -> history (snd (transaction m s) :: s :: h).

Lemma lawful_body h m : body h m -> within lawful m.
Proof.
  destruct 1; try (apply within_bind; [apply _| |intros; apply within_ret; apply _]);
    auto using within_reserve, within_renew, lawful_release, within_insert, within_cleanup,
      within_extend with within.
Qed.

Lemma history_lawful s h v : history (s :: h) -> v ∈ s :: h -> lawful v s.
Proof.
  intros H. remember (s :: h) as l eqn:E. revert s h E.
  induction H as [s C R L | s h m H IH M]; intros s' h' [= <- <-] V.
  - apply list_elem_of_singleton in V as ->. reflexivity.
  - apply elem_of_cons in V as [->|V]; [reflexivity|]. transitivity s; [by eapply IH|].
    apply (within_transaction lawful). by eapply lawful_body.
Qed.

(** ** One result per key *)

Lemma history_start_of s h : history (s :: h) -> exists s0, s0 ∈ s :: h /\
  claims s0 = ∅ /\ results s0 = ∅ /\ log s0 = [].
Proof.
  intros H. remember (s :: h) as l eqn:E. revert s h E.
  induction H as [s C R L | s h m H IH M]; intros s' h' [= <- <-].
  - exists s. split_and!; try done. apply list_elem_of_here.
  - destruct (IH s h eq_refl) as (s0 & I & ?). exists s0. split; [by right | done].
Qed.

(** C8: The results of the business keys refine an abstract register: in every
    reachable state the sequence of acceptances and retirements that took
    place is a run of the register, whose contents are the results table.  A
    batch is thus accepted only for a key that has no result, and the result
    of a key disappears only when its row has expired and carries the hash of
    its request and, by the rows of the database at that moment, its batch has
    ended, its chunks and callbacks are settled and no operation waits for it;
    whatever requests, cleanups and rescheduled batches interleave. *)
Theorem one_result_per_key s h :
  history (s :: h) -> replay ∅ (log s) = Some (Result.batch_id <$> results s).
Proof.
  intros H. destruct (history_start_of s h H) as (s0 & I & _ & R & L).
  destruct (history_lawful s h s0 H I) as [(l & E & P) _].
  rewrite L in E. simpl in E. rewrite E. unfold current in P. by rewrite R, fmap_empty in P.
Qed.

Definition example_key : key := (tx "app", tx "7", tx "order-1").
Definition example_command : BatchCommand :=
  mkCommand (tx "B1") (Some 7) (tx "d") (tx "notice") (tx "api") false (Some (tx "order-1"))
    (tx "app") (tx "7") BatchStatus.queued 1 None None None [] None None
    (Some (tx "h")) (Some 1) (Some (tx "t1")) (Some 1).
Definition no_tables : tables :=
  mkTables (fun _ => None) (fun _ => None) (fun _ _ => None) (fun _ _ => []) (fun _ => [])
    (fun _ => None) (fun _ => None) (fun _ => None) (fun _ => None)
    (fun _ => Raise UncertainResolutionNotFound) (fun _ => Ok tt).
Definition example_start : db := mkDb ∅ ∅ ∅ 1 1 [].
Definition claimed_db : db :=
  snd (transaction (_ ← reserve_from example_start 0 example_key (tx "t1") (tx "h") 30; mret tt)
         example_start).
Definition accepted_db : db :=
  snd (transaction (_ ← _insert no_tables (fun _ => Ok tt) 5 example_command; mret tt) claimed_db).

Lemma accepted_history : history [accepted_db; claimed_db; example_start].
Proof.
  apply (history_step claimed_db _ (_ ← _insert no_tables (fun _ => Ok tt) 5 example_command; mret tt));
    [|constructor].
  apply (history_step example_start _
    (_ ← reserve_from example_start 0 example_key (tx "t1") (tx "h") 30; mret tt));
    [by apply history_start | constructor; apply list_elem_of_here].
Qed.

(** The batch completes, and a day later the cleanup retires its result. *)
Definition finished_work : Work.t :=
  Work.mk (tx "B1") BatchStatus.completed 1 None [ChunkStatus.submitted] [tx "done"] [] [].
Definition finished_db : db := set_works (fun _ => {[1 := finished_work]}) accepted_db.
Definition cleaned_db : db :=
  snd (transaction (_ ← _cleanup_idempotency_page (2 * DAY_US) (2 * DAY_US) 0 10 (fun _ => false);
                    mret tt) finished_db).

Lemma cleaned_history :
  history [cleaned_db; finished_db; accepted_db; claimed_db; example_start].
Proof.
  apply (history_step finished_db _ (_ ← _cleanup_idempotency_page (2 * DAY_US) (2 * DAY_US) 0 10
    (fun _ => false); mret tt)); [|constructor].
  apply (history_step accepted_db _ (modify (set_works (fun _ => {[1 := finished_work]}))));
    [apply accepted_history | constructor].
Qed.

Lemma one_result_per_key_witness :
  map (fun e => match e with Accepted k b => (k, b, None)
                           | Retired k now r _ => (k, Result.batch_id r, Some now) end) (log cleaned_db)
  = [(example_key, 1, None); (example_key, 1, Some (2 * DAY_US))] /\
  replay ∅ (log cleaned_db) = Some (Result.batch_id <$> results cleaned_db).
Proof.
  split; [vm_compute; reflexivity|].
  refine (one_result_per_key cleaned_db [finished_db; accepted_db; claimed_db; example_start] _).
  exact cleaned_history.
Defined.

(** ** A claim commits once *)

Lemma update_claim_ok k g f s x s' : update_claim k g f s = Ok (x, s') ->
  (x = None /\ s' = s) \/
  (exists q, claims s !! k = Some q /\ g q = true /\ x = Some (Claim.generation (f q)) /\
     s' = set_claims (<[k := f q]>) s).
Proof.
  unfold update_claim, mbind, stex_bind, get. destruct (claims s !! k) as [q|].
  - destruct (g q) eqn:G; intros [= <- <-]; [right; by exists q | by left].
  - intros [= <- <-]. by left.
Qed.

Definition same_claims (s s' : db) : Prop := claims s' = claims s.
#[export] Instance same_claims_preorder : PreOrder same_claims.
Proof. unfold same_claims. split; [by intros s | intros s1 s2 s3 H1 H2; congruence]. Qed.
#[export] Hint Extern 1 (within same_claims (modify _)) => apply within_modify; reflexivity : within.

Lemma same_retire now k g : within same_claims (retire_result now k g).
Proof. unfold retire_result. within_tac. Qed.
Lemma same_insert_result k b h v t : within same_claims (insert_result k b h v t).
Proof. unfold insert_result. within_tac. Qed.
Lemma same_insert_batch c : within same_claims (insert_batch c).
Proof. unfold insert_batch. within_tac. Qed.
Lemma same_check now k token g : within same_claims (check_claim now k token g).
Proof. unfold check_claim. within_tac. Qed.
#[export] Hint Resolve same_retire same_insert_result same_insert_batch same_check : within.

(** A resend that was created before returns its batch and changes nothing. *)
Lemma insert_existing t others now c s b s' :
  _insert t others now c s = Ok (Existing b, s') -> s' = s /\ prior_batch t c = Ok (Some b).
Proof.
  intros H. unfold _insert in H. apply stex_bind_ok in H as (p & s0 & [P ->]%Outbox.lift_ok & H).
  destruct p as [stored|]; [by injection H as -> ->|]. exfalso.
  apply stex_bind_ok in H as (u1 & s1 & _ & H). apply stex_bind_ok in H as (u2 & s2 & _ & H).
  apply stex_bind_ok in H as (u3 & s3 & _ & H). apply stex_bind_ok in H as (u4 & s4 & _ & H).
  by apply stex_bind_ok in H as (u5 & s5 & _ & [=]).
Qed.

(** What an acceptance under a claim needs and leaves. *)
Lemma insert_claimed t others now c k token g s x s' :
  business_key c = Some k -> presented_claim c = Some (token, g) ->
  _insert t others now c s = Ok (Inserted x, s') ->
  (exists q, claims s !! k = Some q /\ Claim.token q = token /\ Claim.generation q = g /\
     Claim.state q = ClaimState.active /\ now < Claim.expires_at q) /\
  (exists q, claims s' !! k = Some q /\ Claim.generation q = g /\
     Claim.state q = ClaimState.completed /\ Claim.batch_id q = Some x).
Proof.
  intros K P H. unfold _insert in H. rewrite K in H.
  apply stex_bind_ok in H as (p & s0 & [_ ->]%Outbox.lift_ok & H). destruct p; [discriminate|].
  apply stex_bind_ok in H as (u1 & s1 & H1 & H). apply stex_bind_ok in H as (b & s2 & H2 & H).
  apply stex_bind_ok in H as (u3 & s3 & H3 & H). apply stex_bind_ok in H as (u4 & s4 & [= <- <-] & H).
  apply stex_bind_ok in H as (u5 & s5 & [_ ->]%Outbox.lift_ok & [= -> ->]).
  rewrite P in H3. apply stex_bind_ok in H3 as (u6 & s6 & H6 & H3).
  apply stex_bind_ok in H3 as (u7 & s7 & H7 & H8).
  assert (C : claims s7 = claims s).
  { transitivity (claims s6); [by eapply same_insert_result in H7|].
    transitivity (claims s2); [by eapply same_check in H6|].
    transitivity (claims s1); [by eapply same_insert_batch in H2|].
    apply stex_bind_ok in H1 as (r & s0 & H1 & [= _ <-]). by eapply same_retire in H1. }
  unfold complete_claim in H8. apply stex_bind_ok in H8 as (y & s8 & U & [R ->]%Outbox.lift_ok).
  apply require_ok, bool_decide_eq_true in R.
  apply update_claim_ok in U as [[-> _] | (q & Q & G & _ & ->)]; [by destruct R|].
  bool_prop. rewrite C in Q.
  match goal with H : owned _ _ _ = true |- _ => apply owned_active in H as (T & Ge & A) end.
  split; [by exists q|]. eexists. simpl. by rewrite lookup_insert_eq.
Qed.

(** C16: A claim commits at most one batch.  An acceptance that presents a token
    and a generation inserts a batch only while that generation is the active,
    unexpired claim of the key.  Afterwards no acceptance that presents the
    same generation inserts one, in any later state of the system: it raises,
    or, a resend whose source shows the batch created before, it returns that
    batch, and the database is unchanged. *)
Theorem claim_commits_once s h t others now c k token g x s1 :
  history (s :: h) -> business_key c = Some k -> presented_claim c = Some (token, g) ->
  transaction (_insert t others now c) s = (Ok (Inserted x), s1) ->
  (exists q, claims s !! k = Some q /\ Claim.token q = token /\ Claim.generation q = g /\
     Claim.state q = ClaimState.active /\ now < Claim.expires_at q) /\
  forall s2 h2 t2 others2 now2 c2 token2,
    history (s2 :: h2) -> s1 ∈ s2 :: h2 -> business_key c2 = Some k ->
    presented_claim c2 = Some (token2, g) ->
    (exists e, transaction (_insert t2 others2 now2 c2) s2 = (Raise e, s2)) \/
    (exists b, transaction (_insert t2 others2 now2 c2) s2 = (Ok (Existing b), s2) /\
       prior_batch t2 c2 = Ok (Some b)).
Proof.
  intros H K P T. unfold transaction in T.
  destruct (_insert t others now c s) as [[y s']|] eqn:E; [injection T as -> -> | discriminate].
  destruct (insert_claimed _ _ _ _ _ _ _ _ _ _ K P E) as [Q (q & Q1 & G1 & C1 & _)].
  split; [exact Q|]. intros s2 h2 t2 others2 now2 c2 token2 H2 I2 K2 P2. unfold transaction.
  destruct (_insert t2 others2 now2 c2 s2) as [[[y2|b] s3]|] eqn:E2; [exfalso | right | eauto].
  - destruct (insert_claimed _ _ _ _ _ _ _ _ _ _ K2 P2 E2) as [(q2 & Q2 & _ & G2 & A2 & _) _].
    destruct (history_lawful s2 _ s1 H2 I2) as [_ Ad].
    destruct (Ad k q Q1) as (q' & Q' & M). rewrite Q2 in Q'. injection Q' as <-.
    destruct M as [M|[_ M]]; [lia|]. specialize (M C1). congruence.
  - apply insert_existing in E2 as [-> E2]. by exists b.
Qed.

Lemma transaction_unit {A} (m : tx_ A) s :
  snd (transaction (_ ← m; mret tt) s) = snd (transaction m s).
Proof. unfold transaction, mbind, stex_bind. by destruct (m s) as [[]|]. Qed.

Lemma claim_commits_once_witness :
  (exists e, transaction (_insert no_tables (fun _ => Ok tt) 6 example_command) accepted_db
             = (Raise e, accepted_db)) \/
  (exists b, transaction (_insert no_tables (fun _ => Ok tt) 6 example_command) accepted_db
             = (Ok (Existing b), accepted_db) /\ prior_batch no_tables example_command = Ok (Some b)).
Proof.
  assert (T : transaction (_insert no_tables (fun _ => Ok tt) 5 example_command) claimed_db
              = (Ok (Inserted 1), accepted_db)).
  { assert (F : fst (transaction (_insert no_tables (fun _ => Ok tt) 5 example_command) claimed_db)
                = Ok (Inserted 1)) by (vm_compute; reflexivity).
    rewrite <- F. unfold accepted_db. rewrite transaction_unit. apply surjective_pairing. }
  destruct (claim_commits_once claimed_db [example_start] no_tables (fun _ => Ok tt) 5
    example_command example_key (tx "t1") 1 1 accepted_db) as [_ X].
  - apply (history_step example_start _
      (_ ← reserve_from example_start 0 example_key (tx "t1") (tx "h") 30; mret tt));
      [by apply history_start | constructor; apply list_elem_of_here].
  - reflexivity.
  - reflexivity.
  - exact T.
  - apply (X accepted_db [claimed_db; example_start]) with (token2 := tx "t1");
      [apply accepted_history | apply list_elem_of_here | reflexivity..].
Defined.

End IdempotencySafety.
