(* ===== verification/Idempotency.v ===== *)
(** * The idempotency coordinator ([services/idempotency.py])

    The keys of a business request, the payload and the Redis scripts of a
    claim, and the coordinator as a program over its calls to Redis and to the
    repository of [IdempotencyStore].  The coordinator is the one of the
    deployed repository, which has every optional method the code looks up. *)

From S2P Require Import Prelude PyText Effects Redis Outbox ResendSource IdempotencyStore.

Module Idempotency.
Import Redis ResendSource IdempotencyStore.

(** ** Keys *)

Record IdempotencyScope := mkScope { sc_kind : text; sc_id : text }.

Definition SCOPE_KINDS : list text :=
  [tx "app"; tx "account"; tx "resend"; tx "resend-extra"; tx "web-legacy"; tx "uncertain-resend"].

(** [IdempotencyScope.__post_init__] *)
Definition make_scope (kind id : text) : result exc IdempotencyScope :=
  _ ← require (tmem kind SCOPE_KINDS) (ValueError "idempotency scope kind invalid");
  _ ← refuse (bool_decide (id = []) || (64 <? len id)) (ValueError "idempotency scope id invalid");
  Ok (mkScope kind id).

Definition scope_key (sc : IdempotencyScope) : text := sc_kind sc ++ tx ":" ++ sc_id sc.

(** [re.compile(r"1\d{10}").search(value)] *)
Fixpoint phone_in_metadata (s : text) : bool :=
  match s with
  | [] => false
  | c :: rest => (c =? 49) && (Nat.leb 10 (length (take 10 rest)))
                 && forallb is_digit (take 10 rest)
                 || phone_in_metadata rest
  end.

Definition reject_phone_business_id (value : text) : result exc unit :=
  refuse (phone_in_metadata value) (Exc (tx "ValueError") (utx "biz_id不得包含手机号")).

Definition check_biz_id (biz_id : text) : result exc unit :=
  _ ← reject_phone_business_id biz_id;
  refuse (bool_decide (biz_id = []) || (32 <? len biz_id)) (ValueError "biz_id length must be 1..32").

Definition prefixed (prefix : string) (sc : IdempotencyScope) (biz_id : text) : result exc text :=
  _ ← check_biz_id biz_id; Ok (tx prefix ++ scope_key sc ++ tx ":" ++ biz_id).
Definition idem_key : IdempotencyScope -> text -> result exc text := prefixed "idem:".
Definition claim_key : IdempotencyScope -> text -> result exc text := prefixed "idem:claim:".
Definition frequency_result_key : IdempotencyScope -> text -> result exc text :=
  prefixed "idem:freq:".

(** ** The payload of a claim *)

Record IdempotencyClaimView := mkView {
  cv_token : text;
  cv_fingerprint : text;
  cv_generation : Z
}.

Definition claim_payload (v : IdempotencyClaimView) : text :=
  cv_token v ++ tx ":" ++ cv_fingerprint v ++ tx ":" ++ str_int (cv_generation v).

(** [str(raw).split(":", 2)]; a third part that is no number raises. *)
Definition parse_claim_payload (raw : text) : result exc IdempotencyClaimView :=
  match partition 58 raw with
  | (token, true, rest) =>
      match partition 58 rest with
      | (fingerprint, true, last) =>
          match py_int last with
          | Some g => Ok (mkView token fingerprint g)
          | None => Raise (ValueError "invalid literal for int() with base 10")
          end
      | _ => Ok (mkView raw [] 1)
      end
  | _ => Ok (mkView raw [] 1)
  end.

Definition claim_view_from_row (row : IdempotencyClaimRow) : IdempotencyClaimView :=
  mkView (strip (Claim.token (cr_claim row))) (Claim.fingerprint (cr_claim row))
    (Claim.generation (cr_claim row)).

Definition claim_row_is_live (row : IdempotencyClaimRow) : bool :=
  bool_decide (Claim.state (cr_claim row) = ClaimState.active) && cr_lease_valid row.

(** ** Scripts; [now] in milliseconds *)

Definition CLAIM_RELEASE_LUA (k expected : text) : script Z :=
  current ← GET k;
  if bool_decide (current = Some expected)
  then b ← DEL k; mret (if b : bool then 1 else 0)
  else mret 0.

Definition CLAIM_RENEW_LUA (now : Z) (k expected : text) (ttl : Z) : script Z :=
  current ← GET k;
  if bool_decide (current = Some expected)
  then _ ← EXPIRE now k ttl; mret 1
  else mret 0.

(** [tonumber(string.sub(current, sep2 + 1))], when both separators exist. *)
Definition stored_generation (current : text) : option (option Z) :=
  match partition 58 current with
  | (_, true, rest) => match partition 58 rest with
                       | (_, true, last) => Some (tonumber last)
                       | _ => None
                       end
  | _ => None
  end.

Definition CLAIM_PROJECT_LUA (now : Z) (k payload : text) (ttl new_gen : Z) : script Z :=
  current ← GET k;
  let write := _ ← SET now k payload (EX ttl); mret 1 in
  match current with
  | None => write
  | Some current =>
      if bool_decide (current = payload) then _ ← EXPIRE now k ttl; mret 1 else
      match stored_generation current with
      | Some (Some current_gen) => if new_gen <? current_gen then mret 0 else write
      | _ => write
      end
  end.

(** ** The coordinator *)

Inductive call :=
| RedisGet (k : text)
| RedisSetNx (k v : text) (ex : Z)
| RedisProject (k payload : text) (ttl generation : Z)
| RedisRenew (k payload : text) (ttl : Z)
| RedisRelease (k payload : text)
| RepoExists (k : key) (batch_no : text)
| RepoFindExisting (k : key)
| RepoFingerprint (k : key)
| RepoLoad (k : key)
| RepoReserve (k : key) (token fingerprint : text) (ttl_s : Z)
| RepoRenew (k : key) (token fingerprint : text) (generation ttl_s : Z)
| RepoRelease (k : key) (token : text) (generation : Z) (reason : text)
| Sleep
| Clock.

Definition answer (e : call) : Type :=
  match e with
  | RedisGet _ => option text
  | RedisSetNx _ _ _ => bool
  | RedisProject _ _ _ _ | RedisRenew _ _ _ | RedisRelease _ _ => Z
  | RepoExists _ _ => bool
  | RepoFindExisting _ => option text
  | RepoFingerprint _ => option IdempotencyFingerprint
  | RepoLoad _ => option IdempotencyClaimRow
  | RepoReserve _ _ _ _ => option Z
  | RepoRenew _ _ _ _ _ | RepoRelease _ _ _ _ => bool
  | Sleep => unit
  | Clock => Z
  end.

Abbreviation run := (prog answer exc).

Definition ControlPlaneUnavailable (msg : string) : exc :=
  Exc (tx "ControlPlaneUnavailable") (utx msg).
Definition IdempotencyCoordinationTimeout : exc :=
  Exc (tx "IdempotencyCoordinationTimeout") (tx "idempotency wait timed out").

Definition recognised (e : exc) : bool :=
  let 'Exc cls _ := e in
  tmem cls [tx "IdempotencyConflict"; tx "IdempotencyCoordinationTimeout";
            tx "ControlPlaneUnavailable"].

(** [except Exception as exc: raise <y> from exc]; a cancellation passes. *)
Definition instead (y x : exc) : exc := if is_exception x then y else x.

(** A failed dependency is reported as unavailable; [_control_call] bounds the
    call in time, and a timeout is one of its failures. *)
Definition _state_call (e : call) : run (answer e) :=
  catch (perform e) (fun x => if recognised x then raise x
    else raise (instead (ControlPlaneUnavailable "幂等事实源或控制面不可用") x)).
Definition _control_call (e : call) : run (answer e) := _state_call e.

(** [try: ... except Exception as exc: raise ControlPlaneUnavailable] *)
Definition guarded (e : call) : run (answer e) :=
  catch (_control_call e) (fun x => raise (instead (ControlPlaneUnavailable "幂等控制面不可用") x)).

Record coordinator := mkCoordinator {
  claim_ttl_s : Z;
  wait_attempts : nat;
  renewal_s : Z;
  payloads : gmap text text;
  renewed_until : gmap (text * text) Z
}.

Definition set_payloads f (c : coordinator) : coordinator :=
  mkCoordinator (claim_ttl_s c) (wait_attempts c) (renewal_s c) (f (payloads c)) (renewed_until c).
Definition set_renewed f (c : coordinator) : coordinator :=
  mkCoordinator (claim_ttl_s c) (wait_attempts c) (renewal_s c) (payloads c) (f (renewed_until c)).

Definition IDEMPOTENCY_TTL_S : Z := 86400.

Definition row_key (sc : IdempotencyScope) (biz_id : text) : key := (sc_kind sc, sc_id sc, biz_id).

Definition request_fingerprint (sc : IdempotencyScope) (biz_id : text)
    : run (option IdempotencyFingerprint) :=
  _ ← of_result (idem_key sc biz_id);
  _state_call (RepoFingerprint (row_key sc biz_id)).

Definition remember (sc : IdempotencyScope) (biz_id batch_no : text) : run unit :=
  k ← of_result (idem_key sc biz_id);
  _ ← _control_call (RedisSetNx k batch_no IDEMPOTENCY_TTL_S);
  mret tt.

Definition lookup (sc : IdempotencyScope) (biz_id : text) : run (option text) :=
  k ← of_result (idem_key sc biz_id);
  cached ← guarded (RedisGet k);
  match cached with
  | None =>
      found ← _state_call (RepoFindExisting (row_key sc biz_id));
      match found with
      | Some batch_no => _ ← remember sc biz_id batch_no; mret (Some batch_no)
      | None => mret None
      end
  | Some batch_no =>
      confirmed ← _state_call (RepoExists (row_key sc biz_id) batch_no);
      if confirmed : bool then mret (Some batch_no) else
      _ ← _control_call (RedisRelease k batch_no);
      _state_call (RepoFindExisting (row_key sc biz_id))
  end.

Definition _authority (sc : IdempotencyScope) (biz_id : text) : run (option IdempotencyClaimRow) :=
  _state_call (RepoLoad (row_key sc biz_id)).

Definition _project_view (c : coordinator) (sc : IdempotencyScope) (biz_id : text)
    (viewed : IdempotencyClaimView) : run Z :=
  catch (k ← of_result (claim_key sc biz_id);
         _control_call (RedisProject k (claim_payload viewed) (claim_ttl_s c) (cv_generation viewed)))
    (fun x => raise (instead (ControlPlaneUnavailable "幂等控制面不可用") x)).

Definition inspect (c : coordinator) (sc : IdempotencyScope) (biz_id : text)
    : run (option IdempotencyClaimView) :=
  raw ← catch (k ← of_result (claim_key sc biz_id); _control_call (RedisGet k))
          (fun x => raise (instead (ControlPlaneUnavailable "幂等控制面不可用") x));
  viewed ← match raw with
           | None | Some [] => mret None
           | Some raw => v ← of_result (parse_claim_payload raw); mret (Some v)
           end;
  authority ← _authority sc biz_id;
  match authority with
  | None => mret viewed
  | Some row =>
      if bool_decide (Claim.state (cr_claim row) = ClaimState.completed)
         || negb (claim_row_is_live row) then mret None else
      let official := claim_view_from_row row in
      let behind := match viewed with
                    | None => true
                    | Some v => (cv_generation v <? cv_generation official)
                                || negb (bool_decide (cv_token v = cv_token official))
                    end in
      if behind then
        n ← _project_view c sc biz_id official;
        mret (if n =? 0 then None else Some official)
      else mret (Some official)
  end.

(** [token] is the hex form of a fresh UUID. *)
Definition claim (c : coordinator) (sc : IdempotencyScope) (biz_id fingerprint token : text)
    : run (option text * coordinator) :=
  k ← of_result (claim_key sc biz_id);
  generation ← _state_call (RepoReserve (row_key sc biz_id) token fingerprint (claim_ttl_s c));
  match generation with
  | None => mret (None, c)
  | Some g =>
      let viewed := mkView token fingerprint g in
      n ← _project_view c sc biz_id viewed;
      if n =? 1
      then mret (Some token, set_payloads (<[k := claim_payload viewed]>) c)
      else mret (None, c)
  end.

Fixpoint wait_loop (c : coordinator) (sc : IdempotencyScope) (biz_id k : text) (attempts : nat)
    : run (option text) :=
  match attempts with
  | O => mret None
  | S rest =>
      authority ← _authority sc biz_id;
      owned ← _control_call (RedisGet k);
      let live := match authority with Some row => claim_row_is_live row | None => false end in
      if negb live || Nat.eqb rest 0 then
        found ← _state_call (RepoFindExisting (row_key sc biz_id));
        match found with
        | Some batch_no => _ ← remember sc biz_id batch_no; mret (Some batch_no)
        | None => if live then raise IdempotencyCoordinationTimeout else mret None
        end
      else
        _ ← match authority, owned with
            | Some row, None => _ ← _project_view c sc biz_id (claim_view_from_row row); mret tt
            | _, _ => mret tt
            end;
        _ ← perform Sleep;
        wait_loop c sc biz_id k rest
  end.

Definition wait (c : coordinator) (sc : IdempotencyScope) (biz_id : text) : run (option text) :=
  k ← of_result (claim_key sc biz_id);
  wait_loop c sc biz_id k (wait_attempts c).

Definition _payload_for (c : coordinator) (k token : text) : option text :=
  match payloads c !! k with
  | Some p => if starts_with (token ++ tx ":") p then Some p else None
  | None => None
  end.

(** The payload the owner of [token] holds, from memory or from the authority. *)
Definition owned_payload (c : coordinator) (sc : IdempotencyScope) (biz_id k token : text)
    : run (option text) :=
  match _payload_for c k token with
  | Some p => mret (Some p)
  | None =>
      viewed ← inspect c sc biz_id;
      mret match viewed with
           | Some v => if bool_decide (cv_token v = token) then Some (claim_payload v) else None
           | None => None
           end
  end.

Definition renew (c : coordinator) (sc : IdempotencyScope) (biz_id token : text) : run bool :=
  k ← of_result (claim_key sc biz_id);
  held ← owned_payload c sc biz_id k token;
  match held with
  | None => mret false
  | Some payload =>
      viewed ← of_result (parse_claim_payload payload);
      renewed ← _state_call (RepoRenew (row_key sc biz_id) token (cv_fingerprint viewed)
                               (cv_generation viewed) (claim_ttl_s c));
      if negb renewed then mret false else
      redis_ok ← guarded (RedisRenew k payload (claim_ttl_s c));
      if redis_ok =? 0 then
        n ← _project_view c sc biz_id viewed;
        if n =? 1 then mret true else raise (ControlPlaneUnavailable "幂等投影续租失败")
      else mret true
  end.

(** A renewal that is still recent is not repeated. *)
Definition renew_if_due (c : coordinator) (sc : IdempotencyScope) (biz_id token : text)
    : run (bool * coordinator) :=
  k ← of_result (claim_key sc biz_id);
  started ← perform Clock;
  if match renewed_until c !! (k, token) with Some t => started <? t | None => false end
  then mret (true, c) else
  let c := set_renewed (delete (k, token)) c in
  renewed ← renew c sc biz_id token;
  mret (renewed, if renewed : bool then set_renewed (<[(k, token) := started + renewal_s c]>) c else c).

Definition release (c : coordinator) (sc : IdempotencyScope) (biz_id token : text)
    : run coordinator :=
  k ← of_result (claim_key sc biz_id);
  let c := set_renewed (delete (k, token)) c in
  held ← owned_payload c sc biz_id k token;
  match held with
  | None => mret c
  | Some payload =>
      viewed ← of_result (parse_claim_payload payload);
      _ ← _state_call (RepoRelease (row_key sc biz_id) token (cv_generation viewed) (tx "abandoned"));
      _ ← _control_call (RedisRelease k payload);
      mret (set_payloads (delete k) c)
  end.

(** ** The operation keys of controlled resends *)

Definition hex_of (c : Z) : Z := if c <? 58 then c - 48 else c - 87.
Definition hex_value (s : text) : Z := foldl (fun acc c => acc * 16 + hex_of c) 0 s.

Lemma hex_digit_ok d : 0 <= d < 16 -> hex_of (hex_digit d) = d /\ hex_digit d <> 58.
Proof.
  intros H. unfold hex_digit. destruct (Z.ltb_spec d 10); unfold hex_of;
    [destruct (Z.ltb_spec (48 + d) 58) | destruct (Z.ltb_spec (87 + d) 58)]; lia.
Qed.

(** The digits of [n < 16 ^ d] are at most [d], no colon, and read as [n]. *)
Lemma hex_digits_spec fuel : forall n acc d, 0 <= n < 2 ^ Z.of_nat (S fuel) ->
  n < 16 ^ Z.of_nat (S d) ->
  exists p, hex_digits (S fuel) n acc = p ++ acc /\ (58 ∉ p) /\ hex_value p = n /\
    (length p <= S d)%nat.
Proof.
  induction fuel as [|fuel IH]; intros n acc d B D;
    pose proof (Z.mod_pos_bound n 16 ltac:(lia)) as M;
    destruct (hex_digit_ok (n mod 16) M) as [V C]; pose proof (Z.div_mod n 16 ltac:(lia)) as E.
  - change (2 ^ Z.of_nat 1) with 2 in B. exists [hex_digit (n mod 16)].
    cbn [hex_digits]. rewrite (Z.div_small n 16) by lia. simpl.
    split_and!; [done | set_solver | | lia]. unfold hex_value. simpl. rewrite V, Z.mod_small; lia.
  - cbn [hex_digits]. destruct (Z.eqb_spec (n / 16) 0) as [Z0|NZ].
    { exists [hex_digit (n mod 16)]. simpl. split_and!; [done | set_solver | | lia].
      unfold hex_value. simpl. rewrite V. lia. }
    destruct d as [|d]; [change (16 ^ Z.of_nat 1) with 16 in D; rewrite Z.div_small in NZ; lia|].
    destruct (IH (n / 16) (hex_digit (n mod 16) :: acc) d) as (p & P & NP & VP & LP).
    + split; [apply Z.div_pos; lia|]. apply Z.div_lt_upper_bound; [lia|].
      rewrite (Nat2Z.inj_succ (S fuel)), Z.pow_succ_r in B by lia. lia.
    + apply Z.div_lt_upper_bound; [lia|]. rewrite (Nat2Z.inj_succ (S d)), Z.pow_succ_r in D by lia. lia.
    + exists (p ++ [hex_digit (n mod 16)]). cbn [hex_digits] in P. rewrite P, <- app_assoc.
      split_and!; [done | set_solver | | rewrite length_app; simpl; lia].
      unfold hex_value in *. rewrite foldl_app, VP. simpl. rewrite V. lia.
Qed.

Lemma str_hex_ok n d : 0 <= n -> n < 16 ^ Z.of_nat (S d) ->
  (58 ∉ str_hex n) /\ hex_value (str_hex n) = n /\ (length (str_hex n) <= S d)%nat.
Proof.
  intros P D. unfold str_hex.
  destruct (hex_digits_spec (Z.to_nat (Z.log2 n)) n [] d) as (p & -> & ? & ? & ?); [|done|].
  - split; [done|]. rewrite Nat2Z.inj_succ, Z2Nat.id by apply Z.log2_nonneg.
    destruct (decide (n = 0)) as [->|]; [done|]. apply Z.log2_spec. lia.
  - by rewrite app_nil_r.
Qed.

Lemma str_int_no_colon n : 0 <= n -> 58 ∉ str_int n.
Proof.
  intros P I. unfold str_int in I. destruct (Z.ltb_spec n 0); [lia|].
  pose proof (unsigned_str_nat n P) as U. unfold unsigned in U.
  destruct (str_nat n) as [|c r]; [done|].
  destruct (forallb ascii_digit (c :: r)) eqn:F; [|discriminate].
  rewrite forallb_forall in F. apply list_elem_of_In, F in I. done.
Qed.

(** Two parts joined by a colon are determined by the whole. *)
Lemma colon_inj a b a' b' : 58 ∉ a -> 58 ∉ a' -> a ++ tx ":" ++ b = a' ++ tx ":" ++ b' ->
  a = a' /\ b = b'.
Proof.
  intros N N' E. apply (f_equal (partition 58)) in E. simpl in E.
  rewrite !partition_app in E by done. by injection E.
Qed.

Lemma resend_identity r g k : uncertain_resend_biz_id r g = Ok k ->
  0 < r < 2 ^ 63 /\ 0 < g < 2 ^ 31 /\
  (k = tx "manual-resend:" ++ str_int r ++ tx ":" ++ str_int g /\ len k <= 32 \/
   k = tx "ur:" ++ str_hex r ++ tx ":" ++ str_hex g).
Proof.
  unfold uncertain_resend_biz_id. intros ([] & R & [= <-])%bind_ok. apply refuse_ok in R.
  apply orb_false_iff in R as [R1 R2]. apply negb_false_iff in R1, R2. bool_prop.
  split_and!; try lia. destruct (_ <=? 32) eqn:L; [left | by right]. bool_prop. done.
Qed.

(** The operation key of a controlled resend identifies it: it has between
    one and thirty-two characters, and two resends with the same key are the
    same resolution and the same generation. *)
Theorem resend_key_injective r g r' g' k :
  uncertain_resend_biz_id r g = Ok k -> uncertain_resend_biz_id r' g' = Ok k ->
  1 <= len k <= 32 /\ r = r' /\ g = g'.
Proof.
  intros (R & G & K)%resend_identity (R' & G' & K')%resend_identity.
  destruct (str_hex_ok r 15) as (NR & VR & LR); [lia | change (16 ^ Z.of_nat 16) with (2 ^ 64); lia|].
  destruct (str_hex_ok g 7) as (NG & VG & LG); [lia | change (16 ^ Z.of_nat 8) with (2 ^ 32); lia|].
  destruct (str_hex_ok r' 15) as (NR' & VR' & _); [lia | change (16 ^ Z.of_nat 16) with (2 ^ 64); lia|].
  destruct (str_hex_ok g' 7) as (_ & VG' & _); [lia | change (16 ^ Z.of_nat 8) with (2 ^ 32); lia|].
  split.
  { destruct K as [[-> L] | ->]; unfold len in *; rewrite !length_app in *; simpl in *; lia. }
  destruct K as [[-> _] | ->], K' as [[E _] | E]; try discriminate E.
  - apply (app_inv_head (tx "manual-resend:")) in E.
    apply colon_inj in E as [E1 E2]; try (apply str_int_no_colon; lia).
    by apply str_int_inj in E1, E2.
  - apply (app_inv_head (tx "ur:")) in E. apply colon_inj in E as [E1 E2]; try done.
    rewrite <- VR, <- VG, <- VR', <- VG', E1, E2. done.
Qed.

Lemma resend_key_injective_witness :
  exists k, uncertain_resend_biz_id (2 ^ 62) 2000000000 = Ok k /\ 1 <= len k <= 32 /\
    (2 ^ 62 = 2 ^ 62 /\ 2000000000 = 2000000000).
Proof.
  eexists. split; [reflexivity|].
  apply (resend_key_injective (2 ^ 62) 2000000000 (2 ^ 62) 2000000000); reflexivity.
Defined.

(** A long decimal resolution id is refused by the phone check of the keys. *)
Lemma long_resend_key_refused :
  uncertain_resend_biz_id 10000000000 1 = Ok (tx "manual-resend:10000000000:1") /\
  phone_in_metadata (tx "manual-resend:10000000000:1") = true.
Proof. split; vm_compute; reflexivity. Qed.

(** ** The projection of a claim *)

(** The token and the fingerprint are hexadecimal, so they hold no colon. *)
Definition plain (v : IdempotencyClaimView) : Prop :=
  (58 ∉ cv_token v) /\ (58 ∉ cv_fingerprint v) /\ fits_64 (cv_generation v).

Lemma payload_parts v : plain v ->
  partition 58 (claim_payload v)
    = (cv_token v, true, cv_fingerprint v ++ tx ":" ++ str_int (cv_generation v)) /\
  partition 58 (cv_fingerprint v ++ tx ":" ++ str_int (cv_generation v))
    = (cv_fingerprint v, true, str_int (cv_generation v)).
Proof. intros (T & F & _). split; by apply partition_app. Qed.

Lemma payload_roundtrip v : plain v -> parse_claim_payload (claim_payload v) = Ok v.
Proof.
  intros P. destruct (payload_parts v P) as [E1 E2]. unfold parse_claim_payload. rewrite E1, E2.
  destruct P as (_ & _ & G). rewrite (py_int_str_int _ G). by destruct v.
Qed.

Lemma payload_generation v : plain v -> stored_generation (claim_payload v) = Some (Some (cv_generation v)).
Proof.
  intros P. destruct (payload_parts v P) as [E1 E2]. unfold stored_generation.
  by rewrite E1, E2, tonumber_str_int.
Qed.

Definition stores (k : text) (v : IdempotencyClaimView) (s : redis) : Prop :=
  en_value <$> s !! k = Some (VStr (claim_payload v)).

Lemma GET_stored k v s : stores k v s -> GET k s = (Ok (Some (claim_payload v)), s).
Proof. unfold stores, GET. by intros ->. Qed.

(** The projection of a claim in Redis is fenced by its generation: while the
    claim of one generation is stored, the projection of an older one answers
    zero and changes nothing, and the projection of the same or a newer one is
    accepted and stored, where the Python code reads back the same claim. *)
Theorem projection_fenced now ttl k old new (s : redis) :
  plain old -> plain new -> stores k old s -> 0 < ttl ->
  (cv_generation new < cv_generation old ->
     CLAIM_PROJECT_LUA now k (claim_payload new) ttl (cv_generation new) s = (Ok 0, s)) /\
  (cv_generation old <= cv_generation new ->
     exists s', CLAIM_PROJECT_LUA now k (claim_payload new) ttl (cv_generation new) s = (Ok 1, s') /\
       stores k new s') /\
  parse_claim_payload (claim_payload new) = Ok new.
Proof.
  intros PO PN S T. split_and!; [| |by apply payload_roundtrip].
  - intros L. unfold CLAIM_PROJECT_LUA. rewrite (script_bind_eq _ _ _ _ _ (GET_stored k old s S)). cbv zeta.
    rewrite bool_decide_eq_false_2.
    + rewrite (payload_generation old PO). apply Z.ltb_lt in L. by rewrite L.
    + intros E. apply (f_equal parse_claim_payload) in E.
      rewrite !payload_roundtrip in E by done. injection E as ->. lia.
  - intros L. unfold CLAIM_PROJECT_LUA. rewrite (script_bind_eq _ _ _ _ _ (GET_stored k old s S)). cbv zeta.
    unfold stores in *. case_bool_decide as E.
    + eexists. split; [reflexivity|]. unfold EXPIRE, PEXPIRE, PEXPIREAT. simpl.
      destruct (Z.leb_spec (now + ttl * 1000) now); [lia|]. simpl. rewrite lookup_alter_eq.
      destruct (s !! k) as [e|]; simpl in *; [|discriminate]. by injection S as ->; rewrite E.
    + rewrite (payload_generation old PO). destruct (Z.ltb_spec (cv_generation new) (cv_generation old)); [lia|].
      eexists. split; [reflexivity|]. simpl. by rewrite lookup_insert_eq.
Qed.

Definition old_view : IdempotencyClaimView := mkView (tx "aa") (tx "f1") 2.
Definition new_view : IdempotencyClaimView := mkView (tx "bb") (tx "f1") 3.
Definition projected_redis : redis :=
  {[tx "idem:claim:app:7:o" := mkEntry (VStr (claim_payload new_view)) (Some 30000)]}.

Lemma projection_fenced_witness :
  CLAIM_PROJECT_LUA 0 (tx "idem:claim:app:7:o") (claim_payload old_view) 30 2 projected_redis
  = (Ok 0, projected_redis).
Proof.
  apply (projection_fenced 0 30 (tx "idem:claim:app:7:o") new_view old_view projected_redis).
  - repeat split; vm_compute; try discriminate; set_solver.
  - repeat split; vm_compute; try discriminate; set_solver.
  - vm_compute. reflexivity.
  - lia.
  - simpl. lia.
Defined.

(** ** What the coordinator reports is confirmed by the repository *)

(** The batch number an answer of the repository confirms for a key. *)
Definition confirmation (k : key) (e : call) : result exc (answer e) -> option text :=
  match e with
  | RepoExists k' b => fun r => match r with
                                | Ok true => if bool_decide (k' = k) then Some b else None
                                | _ => None
                                end
  | RepoFindExisting k' => fun r => match r with
                                    | Ok (Some b) => if bool_decide (k' = k) then Some b else None
                                    | _ => None
                                    end
  | _ => fun _ => None
  end.

Section Confirmed.
Context (k : key).

Definition confirmed_after (m : list text) (e : call) (r : result exc (answer e)) : list text :=
  option_list (confirmation k e r) ++ m.

(** Whatever the collaborators answer, if the program returns then [Q] holds of
    the confirmed numbers and the value. *)
Definition yields {A} (p : run A) (Q : list text -> A -> Prop) (m : list text) : Prop :=
  wp (fun _ _ => true) confirmed_after (fun _ _ => True) p
    (fun m' r => match r with Ok a => Q m' a | Raise _ => True end) m.

Lemma yields_bind {A B} (p : run A) (f : A -> run B) Q m :
  yields p (fun m' a => yields (f a) Q m') m -> yields (p ≫= f) Q m.
Proof. intros H. apply wp_bind. revert H. apply wp_mono. by intros m' [a|e]. Qed.

Lemma yields_ret {A} (a : A) (Q : list text -> A -> Prop) m : Q m a -> yields (mret a) Q m.
Proof. done. Qed.

Lemma yields_raise {A} e (Q : list text -> A -> Prop) m : yields (raise e) Q m.
Proof. done. Qed.

Lemma yields_of_result {A} (r : result exc A) Q m :
  (forall a, r = Ok a -> Q m a) -> yields (of_result r) Q m.
Proof. intros H. unfold yields. simpl. destruct r; auto. Qed.

Lemma yields_catch {A} (p : run A) f Q m : yields p Q m -> yields (catch p (fun x => raise (f x))) Q m.
Proof. intros H. apply wp_catch. revert H. apply wp_mono. by intros m' [a|x]. Qed.

Lemma yields_state_call e Q m :
  (forall a, Q (confirmed_after m e (Ok a)) a) -> yields (_state_call e) Q m.
Proof.
  intros H. apply wp_catch, wp_perform; [done|]. intros [a|x] _; [apply H|].
  by destruct (recognised x).
Qed.

Lemma yields_guarded e Q m :
  (forall a, Q (confirmed_after m e (Ok a)) a) -> yields (guarded e) Q m.
Proof. intros H. by apply yields_catch, yields_state_call. Qed.

Lemma yields_perform e Q m :
  (forall a, Q (confirmed_after m e (Ok a)) a) -> yields (perform e) Q m.
Proof. intros H. apply wp_perform; [done|]. intros [a|x] _; [apply H | done]. Qed.

(** Every confirmed number comes from an answer of the trace. *)
Lemma accepts_confirmed tr : forall m m' b,
  accepts (fun _ _ => true) confirmed_after m tr = Some m' -> b ∈ m' ->
  b ∈ m \/ exists e r, existT e r ∈ tr /\ confirmation k e r = Some b.
Proof.
  induction tr as [|[e r] tr IH]; intros m m' b H I; simpl in H; [injection H as <-; auto|].
  destruct (IH _ _ _ H I) as [C | (e' & r' & T & C)].
  - unfold confirmed_after in C. apply elem_of_app in C as [C|C]; [|auto]. right.
    exists e, r. split; [apply list_elem_of_here|]. destruct (confirmation k e r); set_solver.
  - right. exists e', r'. split; [by apply list_elem_of_further | done].
Qed.

End Confirmed.

(** The syntax of the program decides the rule. *)
Ltac yields_step :=
  lazymatch goal with
  | |- yields _ (mret _) _ _ => apply yields_ret
  | |- yields _ (raise _) _ _ => apply yields_raise
  | |- yields _ (of_result _) _ _ => apply yields_of_result; intros ? ?
  | |- yields _ (_state_call _) _ _ => apply yields_state_call; intros ?
  | |- yields _ (_control_call _) _ _ => apply yields_state_call; intros ?
  | |- yields _ (guarded _) _ _ => apply yields_guarded; intros ?
  | |- yields _ (perform _) _ _ => apply yields_perform; intros ?
  | |- yields _ (catch _ _) _ _ => apply yields_catch
  | |- yields _ (mbind _ _) _ _ => apply yields_bind
  | |- yields _ (remember _ _ _) _ _ => unfold remember
  | |- yields _ (_authority _ _) _ _ => unfold _authority
  | |- yields _ (_project_view _ _ _ _) _ _ => unfold _project_view
  | |- yields _ (match ?x with _ => _ end) _ _ => destruct x eqn:?
  | |- yields _ (match ?x with _ => _ end _) _ _ => destruct x eqn:?; cbv beta iota
  end.
Ltac yields_tac := repeat yields_step.

Definition reports (m : list text) (r : option text) : Prop :=
  match r with Some b => b ∈ m | None => True end.

Lemma confirmed_mono k m e r b : b ∈ m -> b ∈ confirmed_after k m e r.
Proof. unfold confirmed_after. set_solver. Qed.

Lemma find_confirms k m r : reports (confirmed_after k m (RepoFindExisting k) (Ok r)) r.
Proof.
  destruct r as [b|]; [|done]. unfold reports, confirmed_after. simpl.
  rewrite bool_decide_eq_true_2 by done. set_solver.
Qed.

Lemma exists_confirms k m b : b ∈ confirmed_after k m (RepoExists k b) (Ok true).
Proof. unfold confirmed_after. simpl. rewrite bool_decide_eq_true_2 by done. set_solver. Qed.

#[local] Hint Resolve confirmed_mono find_confirms exists_confirms : core.
#[local] Hint Extern 1 (reports _ None) => exact I : core.
#[local] Hint Extern 2 (reports _ (Some _)) =>
  apply confirmed_mono; match goal with |- ?b ∈ ?m => change (reports m (Some b)) end : core.

Lemma lookup_yields sc biz m : yields (row_key sc biz) (lookup sc biz) reports m.
Proof. unfold lookup. yields_tac; eauto; apply exists_confirms. Qed.

Lemma wait_yields c sc biz k attempts : forall m,
  yields (row_key sc biz) (wait_loop c sc biz k attempts) reports m.
Proof.
  induction attempts as [|rest IH]; intros m; cbn [wait_loop]; yields_tac; eauto; apply IH.
Qed.

(** The two answers that confirm a batch number for a key. *)
Lemma confirmation_inv k e r b : confirmation k e r = Some b ->
  existT e r = existT (P := fun e => result exc (answer e)) (RepoExists k b) (Ok true) \/
  existT e r = existT (P := fun e => result exc (answer e)) (RepoFindExisting k) (Ok (Some b)).
Proof.
  destruct e; simpl in *; try discriminate; intros H; repeat case_match; simplify_eq; bool_prop; subst; auto.
Qed.

(** C15: The coordinator reports a batch number for a business id only after the
    database confirmed it for that very key, whatever Redis, the database and
    the clock answer: the value cached in Redis is never trusted alone, neither
    when looking up nor when waiting for another owner. *)
Theorem coordinator_confirmed c sc biz w b (p : run (option text)) :
  p = lookup sc biz \/ p = wait c sc biz -> snd (exec w [] p) = Ok (Some b) ->
  existT (RepoExists (row_key sc biz) b) (Ok true) ∈ fst (exec w [] p) \/
  existT (RepoFindExisting (row_key sc biz)) (Ok (Some b)) ∈ fst (exec w [] p).
Proof.
  intros P E. assert (Y : yields (row_key sc biz) p reports []).
  { destruct P as [-> | ->]; [apply lookup_yields|]. unfold wait. yields_tac. apply wait_yields. }
  destruct (wp_exec _ _ _ w p _ [] [] (fun _ _ => Logic.I) Y) as (tr & m' & T & A & Q).
  rewrite E in Q. rewrite T. destruct (accepts_confirmed _ tr [] m' b A Q) as [N | (e & r & I & C)];
    [set_solver|]. destruct (confirmation_inv _ _ _ _ C) as [<- | <-]; auto.
Qed.

(** A world in which Redis lost the cached number and the database has it. *)
Definition cold_cache : world answer exc := fun _ e =>
  match e return result exc (answer e) with
  | RedisGet _ => Ok None
  | RedisSetNx _ _ _ => Ok true
  | RepoFindExisting _ => Ok (Some (tx "B1"))
  | _ => Raise (ControlPlaneUnavailable "down")
  end.

Lemma coordinator_confirmed_witness :
  let sc := mkScope (tx "app") (tx "7") in
  existT (RepoExists (row_key sc (tx "order")) (tx "B1")) (Ok true)
    ∈ fst (exec cold_cache [] (lookup sc (tx "order"))) \/
  existT (RepoFindExisting (row_key sc (tx "order"))) (Ok (Some (tx "B1")))
    ∈ fst (exec cold_cache [] (lookup sc (tx "order"))).
Proof.
  intros sc. apply (coordinator_confirmed (mkCoordinator 30 3 10 ∅ ∅)); [by left|].
  vm_compute. reflexivity.
Defined.
End Idempotency.
