(* ===== verification/UsageStore.v ===== *)
(** * The usage ledger: tables, projections and quota
    ([services/usage_ledger.py], [usage_ledger_common.py],
    [usage_ledger_projection.py], [usage_ledger_release.py])

    Quota and frequency are facts in PostgreSQL: a reservation of a request,
    its entries in the quota and frequency dimensions, and for every dimension
    one projection row with the absolute value, numbered by a sequence.  This
    file has the tables, the statements on them and the transactions of
    reservation, quota, commit, release, exclusion and retention; the
    frequency decision is in [UsageFrequency].

    Every row a transaction decides on is read under a lock it holds until it
    commits (the reservation row, the advisory locks of the dimension keys), so
    a transaction is one step.  [now] is its start; [busy] says that a rebuild
    holds the advisory lock which the writers of projections share.  A UUID is
    its text. *)

From stdpp Require Import sorting.
From S2P Require Import Prelude PyText OutboxContract Outbox Category Redis.

(** [datetime.date] *)
Module Calendar.

Record date := mkDate { year : Z; month : Z; day : Z }.

#[export] Instance date_eq_dec : EqDecision date.
Proof. solve_decision. Defined.

Definition is_leap (y : Z) : bool :=
  (y mod 4 =? 0) && (negb (y mod 100 =? 0) || (y mod 400 =? 0)).

Definition days_in_month (y m : Z) : Z :=
  if m =? 2 then (if is_leap y then 29 else 28)
  else if bool_decide (m ∈ [4; 6; 9; 11]) then 30 else 31.

Definition valid_date (d : date) : bool :=
  (1 <=? year d) && (year d <=? 9999) && (1 <=? month d) && (month d <=? 12)
  && (1 <=? day d) && (day d <=? days_in_month (year d) (month d)).

(** Days since 1970-01-01, and back. *)
Definition days_from_civil (d : date) : Z :=
  let y := if month d <=? 2 then year d - 1 else year d in
  let era := y / 400 in
  let yoe := y - era * 400 in
  let doy := (153 * (if 2 <? month d then month d - 3 else month d + 9) + 2) / 5 + day d - 1 in
  era * 146097 + yoe * 365 + yoe / 4 - yoe / 100 + doy - 719468.

Definition civil_from_days (n : Z) : date :=
  let z := n + 719468 in
  let era := z / 146097 in
  let doe := z - era * 146097 in
  let yoe := (doe - doe / 1460 + doe / 36524 - doe / 146096) / 365 in
  let doy := doe - (365 * yoe + yoe / 4 - yoe / 100) in
  let mp := (5 * doy + 2) / 153 in
  let m := if mp <? 10 then mp + 3 else mp - 9 in
  mkDate (yoe + era * 400 + (if m <=? 2 then 1 else 0)) m (doy - (153 * mp + 2) / 5 + 1).

(** [w] decimal digits *)
Fixpoint padded (w : nat) (n : Z) : text :=
  match w with
  | O => []
  | S w => padded w (n / 10) ++ [48 + n mod 10]
  end.

(** [strftime("%Y%m%d")] and [to_char(d, 'YYYYMMDD')] of a year from 1000 on *)
Definition ymd (d : date) : text := padded 4 (year d) ++ padded 2 (month d) ++ padded 2 (day d).

Definition DATE_KEY_PATTERN : regex := rrep 8 (RClass ascii_digit).

(** [datetime.strptime(s, "%Y%m%d").date()] of eight digits *)
Definition strptime (s : text) : result exc date :=
  let d := mkDate (Redis.digits_value (take 4 s)) (Redis.digits_value (take 2 (drop 4 s)))
             (Redis.digits_value (drop 6 s)) in
  if valid_date d then Ok d else Raise (ValueError "time data does not match format").

End Calendar.
Export (hints) Calendar.

(** [usage_reservation.state] *)
Module UsageState.

Inductive t := reserved | committed | release_requested | released | uncertain.

#[export] Instance eq_dec : EqDecision t.
Proof. solve_decision. Defined.

End UsageState.
Export (hints) UsageState.

(** [usage_quota_entry.dimension_kind] *)
Module Dimension.

Inductive t := app | dept | volume.

#[export] Instance eq_dec : EqDecision t.
Proof. solve_decision. Defined.
#[export] Instance countable : Countable t.
Proof.
  refine (inj_countable' (fun d => match d with app => 0 | dept => 1 | volume => 2 end)
            (fun n => match n with 0 => app | 1 => dept | _ => volume end) _).
  by intros [].
Defined.

End Dimension.
Export (hints) Dimension.

(** [usage_frequency_entry.window_kind] *)
Module WindowKind.

Inductive t := minute | day.

#[export] Instance eq_dec : EqDecision t.
Proof. solve_decision. Defined.
#[export] Instance countable : Countable t.
Proof.
  refine (inj_countable' (fun w => match w with minute => true | day => false end)
            (fun b => if b : bool then minute else day) _).
  by intros [].
Defined.

End WindowKind.
Export (hints) WindowKind.

(** [usage_projection.kind] *)
Module ProjectionKind.

Inductive t := quota | frequency.

#[export] Instance eq_dec : EqDecision t.
Proof. solve_decision. Defined.

End ProjectionKind.
Export (hints) ProjectionKind.

(** [usage_reservation]; the id is the key. *)
Module UsageRow.

Record t := mk {
  request_key : text;
  app_id : Z;
  subject_kind : text;
  dept : text;
  category : text;
  usage_date : Calendar.date;
  state : UsageState.t;
  quota_cost : Z;
  app_limit : Z;
  dept_limit : Z;
  release_event_id : option text;
  last_error : option text;
  committed_at : option Z;
  release_requested_at : option Z;
  released_at : option Z;
  updated_at : Z
}.

End UsageRow.

(** [usage_quota_entry]; the reservation and the dimension are the key. *)
Module QuotaEntry.

Record t := mk {
  dimension_value : text;
  usage_date : Calendar.date;
  amount : Z;
  projection_key : text;
  expires_at : Z
}.

End QuotaEntry.

(** [usage_frequency_entry]; reservation, subject and window kind are the key. *)
Module FrequencyEntry.

Record t := mk {
  app_id : option Z;
  category : text;
  window_key : text;
  usage_date : Calendar.date;
  projection_key : text;
  counted : bool;
  expires_at : Z
}.

End FrequencyEntry.

(** [usage_projection]; the dimension key is the key. *)
Module Projection.

Record t := mk {
  kind : ProjectionKind.t;
  usage_date : Calendar.date;
  window_key : text;
  value : Z;
  version : Z;
  expires_at : Z
}.

End Projection.

Module UsageStore.
Import Calendar OutboxContract.

(** The tables; of [sms_batch] the reservation a batch refers to, of
    [usage_chunk_allocation] the reservations it refers to.  [retired] is no
    table: it remembers the quota dimensions retention has deleted rows of. *)
Record db := mkDb {
  reservations : gmap text UsageRow.t;
  quota_entries : gmap (text * Dimension.t) QuotaEntry.t;
  frequency_entries : gmap (text * text * WindowKind.t) FrequencyEntry.t;
  projections : gmap text Projection.t;
  subjects : gmap text text;
  aliases : gmap text (text * Z);
  batches : gmap Z (option text);
  allocated : list text;
  version_seq : Z;
  outbox : Outbox.db;
  retired : list text
}.

Definition set_reservations f (s : db) : db :=
  mkDb (f (reservations s)) (quota_entries s) (frequency_entries s) (projections s) (subjects s)
    (aliases s) (batches s) (allocated s) (version_seq s) (outbox s) (retired s).
Definition set_quota_entries f (s : db) : db :=
  mkDb (reservations s) (f (quota_entries s)) (frequency_entries s) (projections s) (subjects s)
    (aliases s) (batches s) (allocated s) (version_seq s) (outbox s) (retired s).
Definition set_frequency_entries f (s : db) : db :=
  mkDb (reservations s) (quota_entries s) (f (frequency_entries s)) (projections s) (subjects s)
    (aliases s) (batches s) (allocated s) (version_seq s) (outbox s) (retired s).
Definition set_projections f (s : db) : db :=
  mkDb (reservations s) (quota_entries s) (frequency_entries s) (f (projections s)) (subjects s)
    (aliases s) (batches s) (allocated s) (version_seq s) (outbox s) (retired s).
Definition set_subjects f (s : db) : db :=
  mkDb (reservations s) (quota_entries s) (frequency_entries s) (projections s) (f (subjects s))
    (aliases s) (batches s) (allocated s) (version_seq s) (outbox s) (retired s).
Definition set_aliases f (s : db) : db :=
  mkDb (reservations s) (quota_entries s) (frequency_entries s) (projections s) (subjects s)
    (f (aliases s)) (batches s) (allocated s) (version_seq s) (outbox s) (retired s).
Definition set_batches f (s : db) : db :=
  mkDb (reservations s) (quota_entries s) (frequency_entries s) (projections s) (subjects s)
    (aliases s) (f (batches s)) (allocated s) (version_seq s) (outbox s) (retired s).
Definition set_version_seq v (s : db) : db :=
  mkDb (reservations s) (quota_entries s) (frequency_entries s) (projections s) (subjects s)
    (aliases s) (batches s) (allocated s) v (outbox s) (retired s).
Definition set_outbox o (s : db) : db :=
  mkDb (reservations s) (quota_entries s) (frequency_entries s) (projections s) (subjects s)
    (aliases s) (batches s) (allocated s) (version_seq s) o (retired s).
Definition set_retired f (s : db) : db :=
  mkDb (reservations s) (quota_entries s) (frequency_entries s) (projections s) (subjects s)
    (aliases s) (batches s) (allocated s) (version_seq s) (outbox s) (f (retired s)).

Definition tx_ (A : Type) : Type := stex db exc A.

Definition in_outbox {A} (m : stex Outbox.db exc A) : tx_ A :=
  fun s => match m (outbox s) with
           | Ok (a, o) => Ok (a, set_outbox o s)
           | Raise e => Raise e
           end.

Definition UsageReservationConflict (msg : string) : exc :=
  Exc (tx "UsageReservationConflict") (tx msg).
Definition UsageProjectionUnavailable (msg : string) : exc :=
  Exc (tx "UsageProjectionUnavailable") (tx msg).
Definition QuotaExceeded : exc := Exc (tx "QuotaExceeded") (utx "日配额不足").
Definition out_of_range : exc := Exc (tx "DataError") (tx "integer out of range").

(** ** References and days ([usage_ledger_common.py]) *)

Definition HMAC_PATTERN : regex := rhex 64.

Definition REQUEST_KEY_PATTERN : regex :=
  ralts [rseq [rlit "acceptance:v2:"; rhex 64; rlit ":"; DATE_KEY_PATTERN];
         rseq [rlit "acceptance:"; rdigits1; rlit ":"; rhex 64; rlit ":"; DATE_KEY_PATTERN];
         rseq [rlit "acceptance:"; UUID_REFERENCE];
         rseq [rlit "legacy:batch:"; rhex 32]].

Definition RELEASE_EVENT_ID_PATTERN : regex :=
  ralts [rseq [rlit "batch:"; rhex 32; rlit ":cancelled"];
         rseq [rlit "approval:"; rposnum; rlit ":"; ralts [rlit "rejected"; rlit "expired"]];
         rseq [rlit "usage:"; UUID_REFERENCE; rlit ":";
               ralts [rlit "acceptance-failed"; rlit "all-filtered"; rlit "idempotent-reuse";
                      rlit "orphan-recovery"; rlit "uncertain-retry"; rlit "uncertain-unused"]]].

Definition _safe_request_key (value : text) : result exc unit :=
  require (fullmatch REQUEST_KEY_PATTERN value) (ValueError "invalid usage reservation request key").

Definition _safe_event_id (value : text) : result exc unit :=
  require (fullmatch RELEASE_EVENT_ID_PATTERN value) (ValueError "invalid usage release event id").

(** The key and the date of the Shanghai day, and the start of the next one. *)
Definition shanghai_day (now : Z) : text * date * Z :=
  let d := civil_from_days (Category.local_date now) in
  (ymd d, d, Category.combine (Category.local_date now + 1) 0).

Definition MINUTE_US : Z := 60000000.

(** The UTC minute and the Shanghai day of an instant, with their ends. *)
Definition frequency_windows (now : Z) : text * Z * text * date * Z :=
  let '(date_key, usage_date, next_day) := shanghai_day now in
  (str_int (now / MINUTE_US), (now / MINUTE_US + 1) * MINUTE_US, date_key, usage_date, next_day).

(** ** Projections ([usage_ledger_projection.py]) *)

Record ProjectionRow := mkRow {
  pr_dimension_key : text;
  pr_kind : ProjectionKind.t;
  pr_usage_date : date;
  pr_value : Z;
  pr_version : Z;
  pr_expires_at : Z
}.

Record _ProjectionChange := mkChange {
  ch_dimension_key : text;
  ch_kind : ProjectionKind.t;
  ch_usage_date : date;
  ch_window_key : text;
  ch_delta : Z;
  ch_expires_at : Z;
  ch_reset_on_window_change : bool
}.

Definition row_of (k : text) (p : Projection.t) : ProjectionRow :=
  mkRow k (Projection.kind p) (Projection.usage_date p) (Projection.value p)
    (Projection.version p) (Projection.expires_at p).

(** The order of dimension keys. *)
Fixpoint text_leb (a b : text) : bool :=
  match a, b with
  | [], _ => true
  | _, [] => false
  | x :: a, y :: b => (x <? y) || (x =? y) && text_leb a b
  end.

Definition row_le (a b : ProjectionRow) : Prop :=
  text_leb (pr_dimension_key a) (pr_dimension_key b) = true.
#[export] Instance row_le_dec a b : Decision (row_le a b).
Proof. unfold row_le. apply _. Defined.

(** [SELECT ... FROM usage_projection WHERE dimension_key=ANY(keys) ORDER BY dimension_key] *)
Definition _projection_rows (keys : list text) (s : db) : list ProjectionRow :=
  merge_sort row_le
    (omap (fun k => row_of k <$> projections s !! k) (remove_dups keys)).

(** The row with the highest version of every dimension, the later one of equals. *)
Fixpoint keep_latest (row : ProjectionRow) (l : list ProjectionRow) : list ProjectionRow :=
  match l with
  | [] => [row]
  | r :: l => if teqb (pr_dimension_key r) (pr_dimension_key row)
              then (if pr_version r <=? pr_version row then row else r) :: l
              else r :: keep_latest row l
  end.
Definition _latest_projection_rows (rows : list ProjectionRow) : list ProjectionRow :=
  merge_sort row_le (foldl (fun l r => keep_latest r l) [] rows).

(** [nextval('usage_projection_version_seq')] *)
Definition nextval : tx_ Z :=
  s ← get; _ ← modify (set_version_seq (version_seq s + 1)); mret (version_seq s + 1).

Definition write_projection (k : text) (p : Projection.t) : tx_ ProjectionRow :=
  _ ← lift (require ((0 <=? Projection.value p) && (Projection.value p <? 2 ^ 63)) out_of_range);
  _ ← modify (set_projections (<[k := p]>));
  mret (row_of k p).

(** [INSERT ... ON CONFLICT(dimension_key) DO UPDATE] of one change; the
    sequence advances for the proposed row and again for the update. *)
Definition add_to_projection (c : _ProjectionChange) : tx_ ProjectionRow :=
  let k := ch_dimension_key c in
  v ← nextval;
  s ← get;
  match projections s !! k with
  | None => write_projection k
              (Projection.mk (ch_kind c) (ch_usage_date c) (ch_window_key c) (ch_delta c) v
                 (ch_expires_at c))
  | Some p =>
      v' ← nextval;
      let same := teqb (Projection.window_key p) (ch_window_key c) in
      write_projection k
        (Projection.mk (Projection.kind p) (ch_usage_date c) (ch_window_key c)
           (if same then Projection.value p + ch_delta c else ch_delta c) v'
           (if same then Z.max (Projection.expires_at p) (ch_expires_at c) else ch_expires_at c))
  end.

(** [UPDATE usage_projection ... FROM incoming] of one change; no row, no result. *)
Definition take_from_projection (c : _ProjectionChange) : tx_ (option ProjectionRow) :=
  let k := ch_dimension_key c in
  s ← get;
  match projections s !! k with
  | None => mret None
  | Some p =>
      v ← nextval;
      let same := teqb (Projection.window_key p) (ch_window_key c) in
      r ← write_projection k
            (Projection.mk (Projection.kind p) (Projection.usage_date p) (Projection.window_key p)
               (if same then Z.max 0 (Projection.value p + ch_delta c) else Projection.value p) v
               (if same then Z.max (Projection.expires_at p) (ch_expires_at c)
                else Projection.expires_at p));
      mret (Some r)
  end.

Fixpoint for_each {A B} (f : A -> tx_ B) (l : list A) : tx_ (list B) :=
  match l with
  | [] => mret []
  | x :: l => y ← f x; ys ← for_each f l; mret (y :: ys)
  end.

Definition _lock_projection_writer (busy : bool) : result exc unit :=
  refuse busy (UsageProjectionUnavailable "usage projection rebuild in progress").

Definition _change_projections (busy : bool) (changes : list _ProjectionChange)
    : tx_ (list ProjectionRow) :=
  match changes with
  | [] => mret []
  | _ =>
      _ ← lift (require (bool_decide (NoDup (ch_dimension_key <$> changes)))
                  (ValueError "projection changes must have unique dimensions"));
      _ ← lift (_lock_projection_writer busy);
      rows ←
        (if forallb (fun c => (0 <=? ch_delta c) && ch_reset_on_window_change c) changes
         then for_each add_to_projection changes
         else if forallb (fun c => (ch_delta c <=? 0) && negb (ch_reset_on_window_change c)) changes
         then rows ← for_each take_from_projection changes; mret (omap id rows)
         else throw (ValueError "projection batch changes must share one direction"));
      _ ← lift (require (Nat.eqb (length rows) (length changes))
                  (UsageReservationConflict "projection batch update conflict"));
      mret (merge_sort row_le rows)
  end.

(** ** Reservations *)

Definition set_row_state (st : UsageState.t) (now : Z) (r : UsageRow.t) : UsageRow.t :=
  UsageRow.mk (UsageRow.request_key r) (UsageRow.app_id r) (UsageRow.subject_kind r)
    (UsageRow.dept r) (UsageRow.category r) (UsageRow.usage_date r) st (UsageRow.quota_cost r)
    (UsageRow.app_limit r) (UsageRow.dept_limit r) (UsageRow.release_event_id r)
    (UsageRow.last_error r) (UsageRow.committed_at r) (UsageRow.release_requested_at r)
    (UsageRow.released_at r) now.

Definition in_state (st : UsageState.t) (r : UsageRow.t) : bool := bool_decide (UsageRow.state r = st).

(** [UPDATE usage_reservation SET <f> WHERE id=:id AND <guard>]; was a row updated? *)
Definition update_row (id : text) (guard : UsageRow.t -> bool) (f : UsageRow.t -> UsageRow.t)
    : tx_ bool :=
  s ← get;
  match reservations s !! id with
  | Some r => if guard r then _ ← modify (set_reservations (<[id := f r]>)); mret true
              else mret false
  | None => mret false
  end.

(** A row the partial unique index on [request_key] covers. *)
Definition open_request (k : text) (r : UsageRow.t) : bool :=
  teqb (UsageRow.request_key r) k && negb (in_state UsageState.released r)
  && negb (in_state UsageState.release_requested r).

Definition USAGE_CATEGORIES : list text := [tx "verify"; tx "notice"; tx "market"].

Definition check_start (app_id : Z) (dept category subject_kind : text) : result exc unit :=
  refuse ((app_id <? 0) || bool_decide (dept = []) || negb (tmem category USAGE_CATEGORIES)
          || negb (tmem subject_kind [tx "api_app"; tx "system_effect"])
          || teqb subject_kind (tx "system_effect") && (app_id <? 1))
    (ValueError "invalid usage reservation").

(** The transaction of one round of [start_reservation]: the id and state of the
    open reservation of the request, which is the proposed one if there was none. *)
Definition start_round (now : Z) (id request_key : text) (app_id : Z)
    (subject_kind dept category : text) (usage_date : date) : tx_ (text * UsageState.t) :=
  s ← get;
  '(found, r) ←
    match List.find (fun p => open_request request_key (snd p)) (map_to_list (reservations s)) with
    | Some p => mret p
    | None =>
        let r := UsageRow.mk request_key app_id subject_kind dept category usage_date
                   UsageState.reserved 0 0 0 None None None None None now in
        _ ← lift (require ((len request_key <=? 192) && (len dept <=? 128))
                    (Exc (tx "DataError") (tx "value too long")));
        _ ← lift (refuse (bool_decide (is_Some (reservations s !! id)))
                    (Outbox.IntegrityError "usage_reservation_pkey"));
        _ ← modify (set_reservations (<[id := r]>));
        mret (id, r)
    end;
  _ ← lift (require ((app_id =? UsageRow.app_id r) && teqb subject_kind (UsageRow.subject_kind r)
                     && teqb dept (UsageRow.dept r) && teqb category (UsageRow.category r)
                     && bool_decide (usage_date = UsageRow.usage_date r))
              (UsageReservationConflict "usage reservation contract changed"));
  mret (found, UsageRow.state r).

(** [_mark_uncertain] *)
Definition safe_error_type (error_type : text) : text :=
  let kept := List.filter (fun c => ascii_lower c || ascii_upper c || ascii_digit c
                                    || (c =? 95) || (c =? 46)) error_type in
  match take 64 kept with [] => tx "ProjectionError" | e => e end.

Definition set_last_error (e : option text) (r : UsageRow.t) : UsageRow.t :=
  UsageRow.mk (UsageRow.request_key r) (UsageRow.app_id r) (UsageRow.subject_kind r)
    (UsageRow.dept r) (UsageRow.category r) (UsageRow.usage_date r) (UsageRow.state r)
    (UsageRow.quota_cost r) (UsageRow.app_limit r) (UsageRow.dept_limit r)
    (UsageRow.release_event_id r) e (UsageRow.committed_at r) (UsageRow.release_requested_at r)
    (UsageRow.released_at r) (UsageRow.updated_at r).

Definition _mark_uncertain (now : Z) (id error_type : text) : tx_ unit :=
  _ ← update_row id (in_state UsageState.reserved)
        (fun r => set_last_error (Some (safe_error_type error_type))
                    (set_row_state UsageState.uncertain now r));
  mret tt.

(** ** Quota *)

Definition app_quota_key (app_id : Z) (date_key : text) : text :=
  tx "quota:app:" ++ str_int app_id ++ tx ":" ++ date_key.
Definition dept_quota_key (dept date_key : text) : text :=
  tx "quota:dept:" ++ dept ++ tx ":" ++ date_key.
Definition volume_quota_key (app_id : Z) (category date_key : text) : text :=
  tx "quota:volume:app:" ++ str_int app_id ++ tx ":" ++ category ++ tx ":" ++ date_key.

(** The dimensions of a cost: kind, value and projection key. *)
Definition quota_specs (app_id : Z) (dept category date_key : text)
    : list (Dimension.t * text * text) :=
  [(Dimension.app, str_int app_id, app_quota_key app_id date_key);
   (Dimension.dept, dept, dept_quota_key dept date_key);
   (Dimension.volume, str_int app_id ++ tx ":" ++ category,
      volume_quota_key app_id category date_key)].

Definition DIMENSIONS : list Dimension.t := [Dimension.app; Dimension.dept; Dimension.volume].

(** [SELECT ... FROM usage_quota_entry WHERE reservation_id=:id] *)
Definition entries_of (id : text) (s : db) : list (Dimension.t * QuotaEntry.t) :=
  omap (fun d => pair d <$> quota_entries s !! (id, d)) DIMENSIONS.

Definition value_of (s : db) (k : text) : Z :=
  match projections s !! k with Some p => Projection.value p | None => 0 end.

Definition fits_int4 (v : Z) : bool := (- 2 ^ 31 <=? v) && (v <? 2 ^ 31).

Definition set_quota (cost app_limit dept_limit now : Z) (r : UsageRow.t) : UsageRow.t :=
  UsageRow.mk (UsageRow.request_key r) (UsageRow.app_id r) (UsageRow.subject_kind r)
    (UsageRow.dept r) (UsageRow.category r) (UsageRow.usage_date r) (UsageRow.state r)
    cost app_limit dept_limit (UsageRow.release_event_id r)
    (UsageRow.last_error r) (UsageRow.committed_at r) (UsageRow.release_requested_at r)
    (UsageRow.released_at r) now.

Definition check_quota (category date_key : text) (cost app_limit dept_limit : Z) : result exc unit :=
  refuse (negb (fullmatch DATE_KEY_PATTERN date_key) || (cost <? 0) || (app_limit <? 0)
          || (dept_limit <? 0) || negb (tmem category USAGE_CATEGORIES))
    (ValueError "invalid quota reservation").

Definition insert_entry (id : text) (usage_date : date) (amount expires_at : Z)
    (spec : Dimension.t * text * text) : tx_ unit :=
  let '(kind, dimension_value, key) := spec in
  modify (set_quota_entries
    (<[(id, kind) := QuotaEntry.mk dimension_value usage_date amount key expires_at]>)).

Definition quota_changes (usage_date : date) (date_key : text) (cost expires_at : Z)
    (specs : list (Dimension.t * text * text)) : list _ProjectionChange :=
  (fun sp : Dimension.t * text * text => let '(_, _, key) := sp in
     mkChange key ProjectionKind.quota usage_date date_key cost expires_at true) <$> specs.

(** The writes of a fresh quota reservation, once its limits hold. *)
Definition write_quota (busy : bool) (now : Z) (id : text)
    (specs : list (Dimension.t * text * text)) (usage_date : date) (date_key : text)
    (cost app_limit dept_limit expires_at : Z) : tx_ (list ProjectionRow) :=
  _ ← lift (require (fits_int4 cost && fits_int4 app_limit && fits_int4 dept_limit) out_of_range);
  _ ← update_row id (fun _ => true) (set_quota cost app_limit dept_limit now);
  _ ← for_each (insert_entry id usage_date cost expires_at) specs;
  _change_projections busy (quota_changes usage_date date_key cost expires_at specs).

(** The transaction of [reserve_quota]. *)
Definition reserve_quota (busy : bool) (now : Z) (id : text) (app_id : Z)
    (dept category date_key : text) (usage_date : date) (cost app_limit dept_limit expires_at : Z)
    : tx_ (list ProjectionRow) :=
  s ← get;
  r ← lift (match reservations s !! id with
            | Some r => if in_state UsageState.reserved r then Ok r
                        else Raise (UsageReservationConflict "usage reservation is not writable")
            | None => Raise (UsageReservationConflict "usage reservation is not writable")
            end);
  _ ← lift (require ((UsageRow.app_id r =? app_id) && teqb (UsageRow.dept r) dept
                     && teqb (UsageRow.category r) category
                     && bool_decide (UsageRow.usage_date r = usage_date))
              (UsageReservationConflict "quota reservation contract changed"));
  match entries_of id s with
  | [] =>
      let specs := quota_specs app_id dept category date_key in
      _ ← lift (refuse ((0 <? app_limit)
                        && (app_limit <? value_of s (app_quota_key app_id date_key) + cost)
                        || (0 <? dept_limit)
                           && (dept_limit <? value_of s (dept_quota_key dept date_key) + cost))
                  QuotaExceeded);
      write_quota busy now id specs usage_date date_key cost app_limit dept_limit expires_at
  | existing =>
      _ ← lift (refuse (negb (Nat.eqb (length existing) 3) || negb (UsageRow.quota_cost r =? cost)
                        || negb (UsageRow.app_limit r =? app_limit)
                        || negb (UsageRow.dept_limit r =? dept_limit))
                  (UsageReservationConflict "quota reservation contract changed"));
      mret (_projection_rows ((fun p => QuotaEntry.projection_key (snd p)) <$> existing) s)
  end.

(** ** Commit with the batch *)

(** The batch that refers to a reservation; the index makes it unique. *)
Definition linked_batch (id : text) (s : db) : option Z :=
  fst <$> List.find (fun p => bool_decide (snd p = Some id)) (map_to_list (batches s)).

(** [INSERT INTO sms_batch (..., usage_reservation_id)] *)
Definition insert_linked (batch_id : Z) (ref : option text) : tx_ unit :=
  s ← get;
  _ ← lift (refuse (bool_decide (is_Some (batches s !! batch_id)))
              (Outbox.IntegrityError "sms_batch_pkey"));
  _ ← lift match ref with
           | Some id =>
               _ ← require (bool_decide (is_Some (reservations s !! id)))
                     (Outbox.IntegrityError "sms_batch_usage_reservation_id_fkey");
               refuse (bool_decide (is_Some (linked_batch id s)))
                 (Outbox.IntegrityError "uk_sms_batch_usage_reservation")
           | None => Ok tt
           end;
  modify (set_batches (<[batch_id := ref]>)).

Definition set_committed_at (at_ : option Z) (r : UsageRow.t) : UsageRow.t :=
  UsageRow.mk (UsageRow.request_key r) (UsageRow.app_id r) (UsageRow.subject_kind r)
    (UsageRow.dept r) (UsageRow.category r) (UsageRow.usage_date r) (UsageRow.state r)
    (UsageRow.quota_cost r) (UsageRow.app_limit r) (UsageRow.dept_limit r)
    (UsageRow.release_event_id r) (UsageRow.last_error r) at_ (UsageRow.release_requested_at r)
    (UsageRow.released_at r) (UsageRow.updated_at r).

Definition commit_usage_reservation (now : Z) (id : text) (batch_id : Z) : tx_ unit :=
  s ← get;
  let linked := bool_decide (batches s !! batch_id = Some (Some id)) in
  updated ← update_row id (fun r => in_state UsageState.reserved r && linked)
              (fun r => set_committed_at (Some now) (set_row_state UsageState.committed now r));
  if updated : bool then mret tt else
  lift (require match reservations s !! id with
                | Some r => in_state UsageState.committed r
                            && (default 0 (linked_batch id s) =? batch_id)
                | None => false
                end
          (UsageReservationConflict "usage reservation commit conflict")).

(** The statements of [SqlPipelineStore._insert] on these tables. *)
Definition accept_batch (now batch_id : Z) (ref : option text) : tx_ unit :=
  _ ← insert_linked batch_id ref;
  match ref with
  | Some id => commit_usage_reservation now id batch_id
  | None => mret tt
  end.

(** ** Release ([usage_ledger_release.py]) *)

(** A row of the union of the two entry tables. *)
Record fact := mkFact {
  fa_key : text;
  fa_kind : ProjectionKind.t;
  fa_date : date;
  fa_window : text;
  fa_amount : Z;
  fa_expires_at : Z
}.

Definition quota_fact (e : QuotaEntry.t) : fact :=
  mkFact (QuotaEntry.projection_key e) ProjectionKind.quota (QuotaEntry.usage_date e)
    (ymd (QuotaEntry.usage_date e)) (QuotaEntry.amount e) (QuotaEntry.expires_at e).

Definition frequency_fact (e : FrequencyEntry.t) : fact :=
  mkFact (FrequencyEntry.projection_key e) ProjectionKind.frequency (FrequencyEntry.usage_date e)
    (FrequencyEntry.window_key e) (if FrequencyEntry.counted e then 1 else 0)
    (FrequencyEntry.expires_at e).

Definition frequency_of (id : text) (s : db)
    : list (text * text * WindowKind.t * FrequencyEntry.t) :=
  List.filter (fun p : text * text * WindowKind.t * FrequencyEntry.t =>
                 let '(r, _, _, _) := p in teqb r id)
    (map_to_list (frequency_entries s)).

Definition facts_of (id : text) (s : db) : list fact :=
  ((fun p => quota_fact (snd p)) <$> entries_of id s)
  ++ ((fun p => frequency_fact (snd p)) <$> frequency_of id s).

(** [GROUP BY projection_key,kind,usage_date,window_key] with [sum] and [max] *)
Definition same_group (f g : fact) : bool :=
  teqb (fa_key f) (fa_key g) && bool_decide (fa_kind f = fa_kind g)
  && bool_decide (fa_date f = fa_date g) && teqb (fa_window f) (fa_window g).

Fixpoint add_fact (f : fact) (groups : list fact) : list fact :=
  match groups with
  | [] => [f]
  | g :: groups =>
      if same_group f g
      then mkFact (fa_key g) (fa_kind g) (fa_date g) (fa_window g) (fa_amount g + fa_amount f)
             (Z.max (fa_expires_at g) (fa_expires_at f)) :: groups
      else g :: add_fact f groups
  end.

Definition group_facts (l : list fact) : list fact := foldr add_fact [] l.

Definition _collect_release_projection_changes (id : text) (s : db) : list _ProjectionChange :=
  (fun g => mkChange (fa_key g) (fa_kind g) (fa_date g) (fa_window g) (- fa_amount g)
              (fa_expires_at g) false)
  <$> List.filter (fun g => 0 <? fa_amount g) (group_facts (facts_of id s)).

(** Take from a projection that exists; skip an expired frequency without one. *)
Definition _release_change_should_apply (existing : list text) (observed : Z)
    (c : _ProjectionChange) : result exc bool :=
  if tmem (ch_dimension_key c) existing then Ok true else
  if bool_decide (ch_kind c = ProjectionKind.frequency) && (ch_expires_at c <=? observed)
  then Ok false
  else Raise (UsageReservationConflict "projection batch update conflict").

Fixpoint applicable (existing : list text) (observed : Z) (l : list _ProjectionChange)
    : result exc (list _ProjectionChange) :=
  match l with
  | [] => Ok []
  | c :: l =>
      b ← _release_change_should_apply existing observed c;
      rest ← applicable existing observed l;
      Ok (if b : bool then c :: rest else rest)
  end.

Definition _apply_release_projection_changes (busy : bool) (now : Z) (id : text)
    : tx_ (list ProjectionRow) :=
  s ← get;
  let changes := _collect_release_projection_changes id s in
  let existing := pr_dimension_key <$> _projection_rows (ch_dimension_key <$> changes) s in
  todo ← lift (applicable existing now changes);
  _change_projections busy todo.

Definition request_release_row (now : Z) (event_id : text) (r : UsageRow.t) : UsageRow.t :=
  UsageRow.mk (UsageRow.request_key r) (UsageRow.app_id r) (UsageRow.subject_kind r)
    (UsageRow.dept r) (UsageRow.category r) (UsageRow.usage_date r) UsageState.release_requested
    (UsageRow.quota_cost r) (UsageRow.app_limit r) (UsageRow.dept_limit r) (Some event_id)
    (UsageRow.last_error r) (UsageRow.committed_at r) (Some now) (UsageRow.released_at r) now.

Definition same_event (persisted : option text) (event_id : text) : bool :=
  match persisted with Some p => teqb p event_id | None => true end.

Definition event_changed : exc := UsageReservationConflict "usage release event changed".

(** Keys of the reservation's dimensions, of frequency only the counted ones
    unless [all]. *)
Definition projection_keys (all : bool) (id : text) (s : db) : list text :=
  ((fun p => QuotaEntry.projection_key (snd p)) <$> entries_of id s)
  ++ ((fun p => FrequencyEntry.projection_key (snd p))
      <$> List.filter (fun p => all || FrequencyEntry.counted (snd p)) (frequency_of id s)).

Definition release_spec (id : text) : OutboxEventSpec :=
  mkSpec (tx "usage.release") (tx "usage_reservation") id (tx "app.tasks.outbox.release_usage")
    (tx "realtime") [AStr id] (tx "usage.release:" ++ id) 12 None.

Definition _request_release (busy : bool) (now : Z) (ambient : option Z) (id event_id : text)
    : tx_ (bool * list ProjectionRow) :=
  _ ← lift (_safe_event_id event_id);
  s ← get;
  match reservations s !! id with
  | None => throw (UsageReservationConflict "usage reservation unavailable")
  | Some r =>
      let persisted := UsageRow.release_event_id r in
      let enqueue := in_outbox (Outbox.enqueue_outbox now ambient (release_spec id) 0 false) in
      match UsageRow.state r with
      | UsageState.reserved | UsageState.committed | UsageState.uncertain =>
          _ ← lift (require (same_event persisted event_id) event_changed);
          _ ← update_row id (fun _ => true) (request_release_row now event_id);
          rows ← _apply_release_projection_changes busy now id;
          _ ← enqueue; mret (true, rows)
      | UsageState.release_requested =>
          _ ← lift (require (bool_decide (persisted = Some event_id)) event_changed);
          s ← get;
          _ ← enqueue; mret (false, _projection_rows (projection_keys false id s) s)
      | UsageState.released =>
          _ ← lift (require (same_event persisted event_id) event_changed);
          mret (false, [])
      end
  end.

Definition request_usage_release_for_batch (busy : bool) (now : Z) (ambient : option Z)
    (batch_id : Z) (event_id : text) : tx_ bool :=
  s ← get;
  match batches s !! batch_id with
  | None | Some None => mret false
  | Some (Some id) => _ ← _request_release busy now ambient id event_id; mret true
  end.

(** Only a reservation no batch refers to. *)
Definition request_unlinked_release (busy : bool) (now : Z) (ambient : option Z)
    (id event_id : text) : tx_ bool :=
  s ← get;
  match reservations s !! id with
  | None => throw (UsageReservationConflict "usage reservation unavailable")
  | Some _ =>
      if bool_decide (is_Some (linked_batch id s)) then mret false else
      p ← _request_release busy now ambient id event_id;
      mret (fst p)
  end.

Definition set_released (now : Z) (r : UsageRow.t) : UsageRow.t :=
  UsageRow.mk (UsageRow.request_key r) (UsageRow.app_id r) (UsageRow.subject_kind r)
    (UsageRow.dept r) (UsageRow.category r) (UsageRow.usage_date r) UsageState.released
    (UsageRow.quota_cost r) (UsageRow.app_limit r) (UsageRow.dept_limit r)
    (UsageRow.release_event_id r) None (UsageRow.committed_at r) (UsageRow.release_requested_at r)
    (Some (default now (UsageRow.released_at r))) now.

(** The second transaction of [apply_release], after the projections are in Redis. *)
Definition finish_release (now : Z) (id : text) : tx_ Z :=
  updated ← update_row id (in_state UsageState.release_requested) (set_released now);
  if updated : bool then mret 1 else
  s ← get;
  _ ← lift (require match reservations s !! id with
                    | Some r => in_state UsageState.released r
                    | None => false
                    end
              (UsageReservationConflict "usage release state conflict"));
  mret 0.

(** The scan of [recover_orphans]: the oldest rows of some states. *)
Definition older_row (p q : text * UsageRow.t) : Prop :=
  UsageRow.updated_at (snd p) <= UsageRow.updated_at (snd q).
#[export] Instance older_row_dec p q : Decision (older_row p q).
Proof. unfold older_row. apply _. Defined.

Definition stalled (states : list UsageState.t) (now seconds : Z) (s : db) : list text :=
  fst <$> take 500 (merge_sort older_row
    (List.filter (fun p => bool_decide (UsageRow.state (snd p) ∈ states)
                           && (UsageRow.updated_at (snd p) <? now - Outbox.secs seconds))
       (map_to_list (reservations s)))).

(** ** Exclusion of one recipient ([dispatch_blacklist.py]) *)

Definition set_amount (a : Z) (e : QuotaEntry.t) : QuotaEntry.t :=
  QuotaEntry.mk (QuotaEntry.dimension_value e) (QuotaEntry.usage_date e) a
    (QuotaEntry.projection_key e) (QuotaEntry.expires_at e).

(** The entries that still have something to give back, and what they give. *)
Definition quota_cut (segments : Z) (l : list (Dimension.t * QuotaEntry.t))
    : list (Dimension.t * QuotaEntry.t * Z) :=
  List.filter (fun p => 0 <? snd p)
    ((fun p => (p, Z.min segments (QuotaEntry.amount (snd p)))) <$> l).

Definition cut_entry (id : text) (c : Dimension.t * QuotaEntry.t * Z) : tx_ _ProjectionChange :=
  let '(d, e, applied) := c in
  _ ← modify (set_quota_entries (<[(id, d) := set_amount (QuotaEntry.amount e - applied) e]>));
  mret (mkChange (QuotaEntry.projection_key e) ProjectionKind.quota (QuotaEntry.usage_date e)
          (ymd (QuotaEntry.usage_date e)) (- applied) (QuotaEntry.expires_at e) false).

Definition uncount (e : FrequencyEntry.t) : FrequencyEntry.t :=
  FrequencyEntry.mk (FrequencyEntry.app_id e) (FrequencyEntry.category e)
    (FrequencyEntry.window_key e) (FrequencyEntry.usage_date e) (FrequencyEntry.projection_key e)
    false (FrequencyEntry.expires_at e).

(** [UPDATE usage_frequency_entry SET counted=false FROM usage_frequency_alias] *)
Definition uncount_entry (id subject : text) (w : WindowKind.t) : tx_ (list _ProjectionChange) :=
  s ← get;
  match frequency_entries s !! (id, subject, w) with
  | Some e =>
      if FrequencyEntry.counted e then
        _ ← modify (set_frequency_entries (<[(id, subject, w) := uncount e]>));
        mret [mkChange (FrequencyEntry.projection_key e) ProjectionKind.frequency
                (FrequencyEntry.usage_date e) (FrequencyEntry.window_key e) (- 1)
                (FrequencyEntry.expires_at e) false]
      else mret []
  | None => mret []
  end.

Fixpoint merge_change (c : _ProjectionChange) (l : list _ProjectionChange)
    : list _ProjectionChange :=
  match l with
  | [] => [c]
  | d :: l =>
      if teqb (ch_dimension_key d) (ch_dimension_key c)
      then mkChange (ch_dimension_key d) (ch_kind d) (ch_usage_date d) (ch_window_key d)
             (ch_delta d + ch_delta c) (ch_expires_at d) false :: l
      else d :: merge_change c l
  end.
Definition _unique_changes (l : list _ProjectionChange) : list _ProjectionChange :=
  foldl (fun acc c => merge_change c acc) [] l.

Definition releasable (r : UsageRow.t) : bool :=
  in_state UsageState.reserved r || in_state UsageState.committed r.

Definition _release_one (busy : bool) (ref : option text) (phone_hmac : text) (segments : Z)
    : tx_ bool :=
  match ref with
  | None => mret false
  | Some id =>
      if segments <? 1 then mret false else
      s ← get;
      if negb match reservations s !! id with Some r => releasable r | None => false end
      then mret false else
      quota ← for_each (cut_entry id) (quota_cut segments (entries_of id s));
      frequency ← match aliases s !! phone_hmac with
                  | Some (subject, _) =>
                      for_each (uncount_entry id subject) [WindowKind.minute; WindowKind.day]
                  | None => mret []
                  end;
      let merged := _unique_changes (quota ++ concat frequency) in
      match merged with
      | [] => mret false
      | _ => _ ← _change_projections busy merged; mret true
      end
  end.

(** ** Retention ([housekeeping_repository.py]) *)

(** [USAGE_ELIGIBLE] *)
Definition usage_eligible (cutoff usage_days : Z) (s : db) (id : text) (r : UsageRow.t) : bool :=
  (days_from_civil (UsageRow.usage_date r) <? Category.local_date cutoff - usage_days)
  && (in_state UsageState.released r || in_state UsageState.committed r)
  && forallb (fun p => QuotaEntry.expires_at (snd p) <=? cutoff) (entries_of id s)
  && forallb (fun p => FrequencyEntry.expires_at (snd p) <=? cutoff) (frequency_of id s)
  && negb (tmem id (allocated s)).

Definition eligible_id (cutoff usage_days : Z) (s : db) (id : text) : bool :=
  match reservations s !! id with
  | Some r => usage_eligible cutoff usage_days s id r
  | None => false
  end.

(** The pages of [cleanup_page]: [due] are the keys of the page, of which
    order, cursor, limit and [SKIP LOCKED] make the choice. *)
Definition delete_quota_entry (cutoff usage_days : Z) (k : text * Dimension.t) : tx_ unit :=
  s ← get;
  match quota_entries s !! k with
  | Some e =>
      if eligible_id cutoff usage_days s (fst k) then
        _ ← modify (set_quota_entries (delete k));
        modify (set_retired (cons (QuotaEntry.projection_key e)))
      else mret tt
  | None => mret tt
  end.

Definition delete_frequency_entry (cutoff usage_days : Z) (k : text * text * WindowKind.t)
    : tx_ unit :=
  s ← get;
  if eligible_id cutoff usage_days s (fst (fst k))
  then modify (set_frequency_entries (delete k)) else mret tt.

(** The references of batches are set to null. *)
Definition delete_reservation (cutoff usage_days : Z) (id : text) : tx_ unit :=
  s ← get;
  if eligible_id cutoff usage_days s id && Nat.eqb (length (entries_of id s)) 0
     && Nat.eqb (length (frequency_of id s)) 0
  then _ ← modify (set_reservations (delete id));
       modify (set_batches (fmap (fun ref => if bool_decide (ref = Some id) then None else ref)))
  else mret tt.

Definition DAY_US : Z := 86400000000.

Definition delete_projection (cutoff usage_days : Z) (k : text) : tx_ unit :=
  s ← get;
  match projections s !! k with
  | Some p =>
      if Projection.expires_at p <? cutoff - usage_days * DAY_US then
        _ ← modify (set_projections (delete k));
        modify (set_retired (cons k))
      else mret tt
  | None => mret tt
  end.

Definition cleanup_quota (cutoff usage_days : Z) due := for_each (delete_quota_entry cutoff usage_days) due.
Definition cleanup_frequency (cutoff usage_days : Z) due :=
  for_each (delete_frequency_entry cutoff usage_days) due.
Definition cleanup_reservations (cutoff usage_days : Z) due :=
  for_each (delete_reservation cutoff usage_days) due.
Definition cleanup_projections (cutoff usage_days : Z) due :=
  for_each (delete_projection cutoff usage_days) due.
End UsageStore.
