(* ===== verification/UsageFrequency.v ===== *)
(** * Frequency limits of the usage ledger
    ([services/usage_ledger_frequency.py], [usage_ledger_frequency_subjects.py],
    [usage_ledger_frequency_merge.py])

    A recipient is a subject, known by the digests of its number under every
    key version; subjects that turn out to be the same number are merged.  A
    decision counts the facts of the subject in the window and records one
    entry per window, counted if the number is allowed.  The advisory locks
    only order the transactions and are not represented. *)

From stdpp Require Import sorting.
From S2P Require Import Prelude PyText Outbox Category Redis UsageStore.

Module UsageFrequency.
Import Calendar UsageStore.

(** ** Keys *)

Definition _frequency_projection_keys (category : text) (app_id : Z) (hmac : text) : list text :=
  if teqb category (tx "verify")
  then [tx "freq:v:" ++ hmac ++ tx ":m"; tx "freq:v:" ++ hmac ++ tx ":d"]
  else [tx "freq:m:" ++ str_int app_id ++ tx ":" ++ hmac ++ tx ":d"].

Definition _FREQ_VERIFY_KEY : regex :=
  rseq [rlit "freq:v:"; rhex 64; rlit ":"; ralts [rlit "m"; rlit "d"]].
Definition _FREQ_MARKET_KEY : regex :=
  rseq [rlit "freq:m:"; RCat (RClass is_digit) (RStar (RClass is_digit)); rlit ":"; rhex 64;
        rlit ":d"].

(** The key of the same dimension for another digest. *)
Definition _canonical_frequency_projection_key (key hmac : text) : result exc (option text) :=
  _ ← require (fullmatch HMAC_PATTERN hmac) (ValueError "invalid frequency projection hmac");
  if fullmatch _FREQ_VERIFY_KEY key
  then Ok (Some (tx "freq:v:" ++ hmac ++ tx ":" ++ after_last 58 key)) else
  if fullmatch _FREQ_MARKET_KEY key
  then Ok (Some (tx "freq:m:" ++ (partition 58 (remove_prefix (tx "freq:m:") key)).1.1
                   ++ tx ":" ++ hmac ++ tx ":d"))
  else Ok None.

(** ** The window of a merge *)

Definition prow : Type := text * Projection.t.

(** [(usage_date, int(window_key) or window_key)] *)
Definition sort_key : Type := date * (Z + text).
Definition _frequency_window_sort_key (r : prow) : sort_key :=
  let w := Projection.window_key (snd r) in
  (Projection.usage_date (snd r), if isdecimal w then inl (int_of w) else inr w).

Definition date_ltb (a b : date) : bool := days_from_civil a <? days_from_civil b.

(** [a > b] of the tuples; a number and a string are not comparable. *)
Definition key_gt (a b : sort_key) : result exc bool :=
  if bool_decide (fst a = fst b) then
    match snd a, snd b with
    | inl x, inl y => Ok (y <? x)
    | inr x, inr y => Ok (negb (text_leb x y))
    | _, _ => Raise (Exc (tx "TypeError") (tx "not supported between instances"))
    end
  else Ok (date_ltb (fst b) (fst a)).

Fixpoint max_key (best : sort_key) (l : list sort_key) : result exc sort_key :=
  match l with
  | [] => Ok best
  | k :: l => g ← key_gt k best; max_key (if g : bool then k else best) l
  end.

Definition maxZ (l : list Z) (z : Z) : Z := foldl Z.max z l.

Record merge_window := mkWindow {
  mw_kind : ProjectionKind.t;
  mw_usage_date : date;
  mw_window_key : text;
  mw_expires_at : Z;
  mw_matching : list prow
}.

(** The newest window of the rows, and the rows of that window. *)
Definition _choose_frequency_merge_window (rows : list prow) (target_key : text)
    : result exc (option merge_window) :=
  match rows with
  | [] => Ok None
  | first :: rest =>
      newest ← max_key (_frequency_window_sort_key first) (_frequency_window_sort_key <$> rest);
      let newest_rows :=
        List.filter (fun r => bool_decide (_frequency_window_sort_key r = newest)) rows in
      let chosen :=
        match List.filter (fun r : prow => teqb (fst r) target_key) newest_rows, newest_rows with
        | r :: _, _ => r
        | [], r :: _ => r
        | [], [] => first
        end in
      let p := snd chosen in
      let matching :=
        List.filter (fun r : prow => bool_decide (Projection.kind (snd r) = Projection.kind p)
                              && bool_decide (Projection.usage_date (snd r) = Projection.usage_date p)
                              && teqb (Projection.window_key (snd r)) (Projection.window_key p)) rows in
      Ok (Some (mkWindow (Projection.kind p) (Projection.usage_date p) (Projection.window_key p)
                  (maxZ ((fun r : prow => Projection.expires_at (snd r)) <$> matching)
                        (Projection.expires_at p))
                  matching))
  end.

Definition total_value (l : list prow) : Z :=
  sumZ ((fun r : prow => Projection.value (snd r)) <$> l).

Definition FREQUENCY_MERGE_FUTURE_MINUTE_SKEW : Z := 2.
Definition FREQUENCY_MERGE_FUTURE_DAY_SKEW : Z := 1.

Definition ends_with (suffix s : text) : bool := starts_with (reverse suffix) (reverse s).

(** A window further ahead of the database clock than a boundary explains. *)
Definition _frequency_window_is_future_skewed (key : text) (usage_date : date) (window_key : text)
    (observed : Z) : bool :=
  let '(minute, _, _, current_date, _) := frequency_windows observed in
  if ends_with (tx ":m") key then
    if negb (isdecimal window_key) then true
    else FREQUENCY_MERGE_FUTURE_MINUTE_SKEW <? int_of window_key - int_of minute
  else FREQUENCY_MERGE_FUTURE_DAY_SKEW <? days_from_civil usage_date - days_from_civil current_date.

(** ** Reads *)

Definition fentry : Type := text * text * WindowKind.t * FrequencyEntry.t.

Definition entry_subject (p : fentry) : text := let '(_, subject, _, _) := p in subject.
Definition entry_reservation (p : fentry) : text := let '(r, _, _, _) := p in r.

(** Counted entries of the subjects whose reservation has not been released. *)
Definition _ACTIVE_RESERVATION_STATES : list UsageState.t :=
  [UsageState.reserved; UsageState.committed; UsageState.uncertain; UsageState.release_requested].

Definition _list_active_frequency_entry_refs (ids : list text) (s : db) : list FrequencyEntry.t :=
  snd <$> List.filter
    (fun p : fentry => tmem (entry_subject p) ids && FrequencyEntry.counted (snd p)
       && match reservations s !! entry_reservation p with
          | Some r => bool_decide (UsageRow.state r ∈ _ACTIVE_RESERVATION_STATES)
          | None => false
          end)
    (map_to_list (frequency_entries s)).

Definition entry_keys (ids : list text) (s : db) : list text :=
  remove_dups ((fun p : fentry => FrequencyEntry.projection_key (snd p))
    <$> List.filter (fun p : fentry => tmem (entry_subject p) ids)
          (map_to_list (frequency_entries s))).

Definition prow_le (a b : prow) : Prop := text_leb (fst a) (fst b) = true.
#[export] Instance prow_le_dec a b : Decision (prow_le a b).
Proof. unfold prow_le. apply _. Defined.

(** [LIKE 'freq:m:%:<digest>:d'] *)
Definition like_market (digest key : text) : bool :=
  starts_with (tx "freq:m:") key && ends_with (tx ":" ++ digest ++ tx ":d") key
  && (len (tx "freq:m:") + len (tx ":" ++ digest ++ tx ":d") <=? len key).

Definition _list_frequency_projection_rows (hmacs : list text) (s : db) : list prow :=
  let unique := List.filter (fullmatch HMAC_PATTERN) (remove_dups hmacs) in
  merge_sort prow_le
    (List.filter
       (fun p : prow => bool_decide (Projection.kind (snd p) = ProjectionKind.frequency)
          && List.existsb (fun d => teqb (fst p) (tx "freq:v:" ++ d ++ tx ":m")
                             || teqb (fst p) (tx "freq:v:" ++ d ++ tx ":d")
                             || like_market d (fst p)) unique)
       (map_to_list (projections s))).

(** ** Merging the projections of several subjects *)

Definition _write_absolute_frequency_projection (busy : bool) (key : text)
    (kind : ProjectionKind.t) (usage_date : date) (window_key : text) (value expires_at : Z)
    : tx_ ProjectionRow :=
  _ ← lift (_lock_projection_writer busy);
  v ← nextval;
  s ← get;
  v' ← match projections s !! key with Some _ => nextval | None => mret v end;
  write_projection key (Projection.mk kind usage_date window_key value v' expires_at).

(** The latest entry by date and window, the first of equals. *)
Fixpoint max_ref (best : FrequencyEntry.t) (l : list FrequencyEntry.t) : FrequencyEntry.t :=
  match l with
  | [] => best
  | e :: l =>
      let newer := if bool_decide (FrequencyEntry.usage_date e = FrequencyEntry.usage_date best)
                   then negb (text_leb (FrequencyEntry.window_key e) (FrequencyEntry.window_key best))
                   else date_ltb (FrequencyEntry.usage_date best) (FrequencyEntry.usage_date e) in
      max_ref (if newer : bool then e else best) l
  end.

(** A row in the past for a dimension that entries still refer to. *)
Definition _write_expired_canonical_tombstone (busy : bool) (target_key : text)
    (source_rows : list prow) (refs : list FrequencyEntry.t) : tx_ (option ProjectionRow) :=
  chosen ← lift (_choose_frequency_merge_window source_rows target_key);
  match chosen, refs with
  | Some w, _ =>
      r ← _write_absolute_frequency_projection busy target_key (mw_kind w) (mw_usage_date w)
            (mw_window_key w) (total_value (mw_matching w)) (mw_expires_at w);
      mret (Some r)
  | None, [] => mret None
  | None, e :: rest =>
      let picked := max_ref e rest in
      let matching := List.filter (fun f =>
          bool_decide (FrequencyEntry.usage_date f = FrequencyEntry.usage_date picked)
          && teqb (FrequencyEntry.window_key f) (FrequencyEntry.window_key picked)) refs in
      r ← _write_absolute_frequency_projection busy target_key ProjectionKind.frequency
            (FrequencyEntry.usage_date picked) (FrequencyEntry.window_key picked)
            (Z.of_nat (length matching))
            (maxZ (FrequencyEntry.expires_at <$> matching) (FrequencyEntry.expires_at picked));
      mret (Some r)
  end.

(** What the loops of the merge collect. *)
Record merge_acc := mkAcc {
  ma_written : list ProjectionRow;
  ma_stale : list text;
  ma_ensured : list text;
  ma_expected : list (text * date * text * Z)
}.

Definition remap : Type := text * text.

Definition target_of (remaps : list remap) (source : text) : option text :=
  snd <$> List.find (fun m : remap => teqb (fst m) source) remaps.

(** [remaps[source] = target] for every projection row, grouped by target. *)
Fixpoint group_rows (hmac : text) (rows : list prow) (remaps : list remap)
    (groups : list (text * list prow)) : result exc (list remap * list (text * list prow)) :=
  match rows with
  | [] => Ok (remaps, groups)
  | r :: rows =>
      t ← _canonical_frequency_projection_key (fst r) hmac;
      match t with
      | None => group_rows hmac rows remaps groups
      | Some target =>
          let groups' :=
            if List.existsb (fun g : text * list prow => teqb (fst g) target) groups
            then (fun g : text * list prow =>
                    if teqb (fst g) target then (fst g, snd g ++ [r]) else g) <$> groups
            else groups ++ [(target, [r])] in
          group_rows hmac rows (remaps ++ [(fst r, target)]) groups'
      end
  end.

(** [remaps.setdefault(source, target)] for the keys of entries. *)
Fixpoint add_entry_remaps (hmac : text) (keys : list text) (remaps : list remap)
    : result exc (list remap) :=
  match keys with
  | [] => Ok remaps
  | k :: keys =>
      t ← _canonical_frequency_projection_key k hmac;
      match t with
      | Some target =>
          if teqb k target || bool_decide (is_Some (target_of remaps k))
          then add_entry_remaps hmac keys remaps
          else add_entry_remaps hmac keys (remaps ++ [(k, target)])
      | None => add_entry_remaps hmac keys remaps
      end
  end.

Definition merge_group (busy : bool) (observed : Z) (remaps : list remap)
    (refs : list FrequencyEntry.t) (needed : list text) (acc : merge_acc)
    (g : text * list prow) : tx_ merge_acc :=
  let '(target, group) := g in
  let sources := List.filter (fun k => negb (teqb k target)) (fst <$> group) in
  let acc := mkAcc (ma_written acc) (ma_stale acc ++ sources) (ma_ensured acc) (ma_expected acc) in
  let live := List.filter (fun r : prow => observed <? Projection.expires_at (snd r)) group in
  match live with
  | _ :: _ =>
      chosen ← lift (_choose_frequency_merge_window live target);
      match chosen with
      | None => mret acc
      | Some w =>
          _ ← lift (refuse (_frequency_window_is_future_skewed target (mw_usage_date w)
                              (mw_window_key w) observed)
                      (UsageReservationConflict "frequency merge window clock skew"));
          let value := total_value (mw_matching w) in
          let acc := mkAcc (ma_written acc) (ma_stale acc) (ma_ensured acc ++ [target])
                       (ma_expected acc
                        ++ [(target, mw_usage_date w, mw_window_key w, value)]) in
          if Nat.eqb (length sources) 0 && Nat.eqb (length (mw_matching w)) 1 then mret acc else
          r ← _write_absolute_frequency_projection busy target (mw_kind w) (mw_usage_date w)
                (mw_window_key w) value (mw_expires_at w);
          mret (mkAcc (ma_written acc ++ [r]) (ma_stale acc) (ma_ensured acc) (ma_expected acc))
      end
  | [] =>
      if negb (tmem target needed) then mret acc else
      let related := List.filter (fun e =>
          tmem (FrequencyEntry.projection_key e) (target :: sources)
          || bool_decide (target_of remaps (FrequencyEntry.projection_key e) = Some target)) refs in
      t ← _write_expired_canonical_tombstone busy target group related;
      match t with
      | Some r => mret (mkAcc (ma_written acc ++ [r]) (ma_stale acc) (ma_ensured acc ++ [target])
                          (ma_expected acc))
      | None => mret acc
      end
  end.

Definition merge_remap (busy : bool) (refs : list FrequencyEntry.t) (needed : list text)
    (acc : merge_acc) (m : remap) : tx_ merge_acc :=
  let '(source, target) := m in
  if teqb source target || tmem target (ma_ensured acc) then mret acc else
  if negb (tmem target needed) then mret acc else
  let related := List.filter (fun e => tmem (FrequencyEntry.projection_key e) [source; target]) refs in
  t ← _write_expired_canonical_tombstone busy target [] related;
  match t with
  | Some r => mret (mkAcc (ma_written acc ++ [r]) (ma_stale acc) (ma_ensured acc ++ [target])
                      (ma_expected acc))
  | None => mret acc
  end.

Fixpoint fold_tx {A B} (f : B -> A -> tx_ B) (acc : B) (l : list A) : tx_ B :=
  match l with
  | [] => mret acc
  | x :: l => acc ← f acc x; fold_tx f acc l
  end.

Definition set_key (k : text) (e : FrequencyEntry.t) : FrequencyEntry.t :=
  FrequencyEntry.mk (FrequencyEntry.app_id e) (FrequencyEntry.category e)
    (FrequencyEntry.window_key e) (FrequencyEntry.usage_date e) k
    (FrequencyEntry.counted e) (FrequencyEntry.expires_at e).

(** [UPDATE usage_frequency_entry SET projection_key=target WHERE projection_key=source] *)
Definition rename_key (m : remap) : tx_ unit :=
  modify (set_frequency_entries (fmap (fun e =>
    if teqb (FrequencyEntry.projection_key e) (fst m) then set_key (snd m) e else e))).

Definition _assert_canonical_holds_newest_window (x : text * date * text * Z) : tx_ unit :=
  let '(target, usage_date, window_key, value) := x in
  s ← get;
  lift (require match projections s !! target with
                | Some p => bool_decide (Projection.usage_date p = usage_date)
                            && teqb (Projection.window_key p) window_key
                            && (Projection.value p =? value)
                | None => false
                end
          (UsageReservationConflict "frequency merge newest window missing on canonical")).

Definition remap_le (a b : remap) : Prop := text_leb (fst a) (fst b) = true.
#[export] Instance remap_le_dec a b : Decision (remap_le a b).
Proof. unfold remap_le. apply _. Defined.

(** [subject_rows]: the ids and digests of the subjects, the canonical one among them. *)
Definition _merge_frequency_projections (busy : bool) (now : Z) (canonical_hmac : text)
    (subject_rows : list (text * text)) : tx_ (list ProjectionRow) :=
  _ ← lift (_lock_projection_writer busy);
  s ← get;
  let ids := fst <$> subject_rows in
  '(remaps0, groups) ← lift (group_rows canonical_hmac
                               (_list_frequency_projection_rows (snd <$> subject_rows) s) [] []);
  remaps ← lift (add_entry_remaps canonical_hmac (entry_keys ids s) remaps0);
  let refs := _list_active_frequency_entry_refs ids s in
  let referenced := FrequencyEntry.projection_key <$> refs in
  let needed := (fun k => default k (target_of remaps k)) <$> referenced in
  acc ← fold_tx (merge_group busy now remaps refs needed) (mkAcc [] [] [] []) groups;
  acc ← fold_tx (merge_remap busy refs needed) acc remaps;
  let moved := List.filter (fun m : remap => negb (teqb (fst m) (snd m))) remaps in
  let protected_ := fst <$> List.filter (fun m : remap =>
      tmem (fst m) referenced && negb (tmem (snd m) (ma_ensured acc))) remaps in
  _ ← for_each rename_key (merge_sort remap_le
        (List.filter (fun m : remap => negb (tmem (fst m) protected_)) moved));
  _ ← for_each _assert_canonical_holds_newest_window (ma_expected acc);
  let stale := List.filter (fun k => negb (tmem k protected_)) (ma_stale acc ++ (fst <$> moved)) in
  _ ← modify (set_projections (fun m => foldl (fun m k => delete k m) m stale));
  mret (ma_written acc).

(** ** Subjects *)

Record FrequencyDecisionItem := mkItem {
  di_phone_hmac : text;
  di_aliases : list (Z * text)
}.

Record ResolvedFrequencySubject := mkResolved {
  rs_phone_hmac : text;
  rs_aliases : list (Z * text);
  rs_subject_id : text;
  rs_projection_hmac : text
}.

Definition digests (i : FrequencyDecisionItem) : list text := snd <$> di_aliases i.

(** [hmac_aliases[min(hmac_aliases)]] *)
Definition oldest_digest (aliases : list (Z * text)) : text :=
  match aliases with
  | [] => []
  | a :: rest => snd (foldl (fun best b : Z * text => if fst b <? fst best then b else best) a rest)
  end.

Definition subject_of (s : db) (digest : text) : option text := fst <$> aliases s !! digest.

(** The subjects of the digests, without repetition. *)
Definition _item_subject_ids (i : FrequencyDecisionItem) (s : db) : list text :=
  remove_dups (omap (subject_of s) (digests i)).

Definition subject_row_le (a b : text * text) : Prop :=
  text_leb (snd a) (snd b) && (negb (teqb (snd a) (snd b)) || text_leb (fst a) (fst b)) = true.
#[export] Instance subject_row_le_dec a b : Decision (subject_row_le a b).
Proof. unfold subject_row_le. apply _. Defined.

(** [SELECT id,projection_hmac ... ORDER BY projection_hmac,id] *)
Definition _load_frequency_subject_rows (ids : list text) (s : db) : list (text * text) :=
  merge_sort subject_row_le (omap (fun id => pair id <$> subjects s !! id) (remove_dups ids)).

(** [INSERT INTO usage_frequency_alias ... ON CONFLICT(phone_hmac) DO NOTHING] *)
Definition bind_alias (subject_id : text) (a : Z * text) : tx_ unit :=
  s ← get;
  if bool_decide (is_Some (aliases s !! snd a)) then mret tt else
  _ ← lift (refuse (List.existsb (fun p : text * (text * Z) =>
                      bool_decide (snd p = (subject_id, fst a))) (map_to_list (aliases s)))
              (Outbox.IntegrityError "usage_frequency_alias_pkey"));
  modify (set_aliases (<[snd a := (subject_id, fst a)]>)).

Definition alias_le (a b : Z * text) : Prop := fst a <= fst b.
#[export] Instance alias_le_dec a b : Decision (alias_le a b).
Proof. unfold alias_le. apply _. Defined.

Definition bind_aliases (subject_id : text) (l : list (Z * text)) : tx_ unit :=
  _ ← for_each (bind_alias subject_id) (merge_sort alias_le l); mret tt.

Definition alias_conflict : exc := UsageReservationConflict "frequency alias write conflict".
Definition subject_unavailable : exc := UsageReservationConflict "frequency subject unavailable".

Definition _bind_frequency_aliases (subject_id : text) (i : FrequencyDecisionItem) : tx_ unit :=
  _ ← bind_aliases subject_id (di_aliases i);
  s ← get;
  lift (require (Nat.eqb (length (_item_subject_ids i s)) 1) alias_conflict).

Definition insert_subject (id hmac : text) : tx_ unit :=
  s ← get;
  _ ← lift (refuse (bool_decide (is_Some (subjects s !! id)))
              (Outbox.IntegrityError "usage_frequency_subject_pkey"));
  _ ← lift (refuse (List.existsb (fun p : text * text => teqb (snd p) hmac)
                      (map_to_list (subjects s)))
              (Outbox.IntegrityError "usage_frequency_subject_projection_hmac_key"));
  modify (set_subjects (<[id := hmac]>)).

(** [UPDATE usage_frequency_alias SET subject_id=target WHERE subject_id=source] *)
Definition move_aliases (source target : text) : tx_ unit :=
  s ← get;
  let owned_by x := List.filter (fun p : text * (text * Z) => teqb (fst (snd p)) x)
                (map_to_list (aliases s)) in
  _ ← lift (refuse (List.existsb (fun p : text * (text * Z) =>
                      List.existsb (fun q : text * (text * Z) => snd (snd p) =? snd (snd q)) (owned_by target))
                      (owned_by source))
              (Outbox.IntegrityError "usage_frequency_alias_pkey"));
  modify (set_aliases (fmap (fun a : text * Z =>
    if teqb (fst a) source then (target, snd a) else a))).

(** [UPDATE usage_frequency_entry SET subject_id=target WHERE subject_id=source] *)
Definition move_key (source target : text) (k : text * text * WindowKind.t)
    : text * text * WindowKind.t :=
  let '(r, subject, w) := k in (r, if teqb subject source then target else subject, w).

Definition move_entries (source target : text) : tx_ unit :=
  s ← get;
  _ ← lift (refuse (List.existsb (fun p : fentry =>
                      teqb (entry_subject p) source
                      && bool_decide (is_Some (frequency_entries s !! move_key source target (fst p))))
                      (map_to_list (frequency_entries s)))
              (Outbox.IntegrityError "usage_frequency_entry_pkey"));
  modify (set_frequency_entries (kmap (move_key source target))).

(** [DELETE FROM usage_frequency_subject]; aliases go with it, entries forbid it. *)
Definition delete_subject (id : text) : tx_ unit :=
  s ← get;
  _ ← lift (refuse (List.existsb (fun p : fentry => teqb (entry_subject p) id)
                      (map_to_list (frequency_entries s)))
              (Outbox.IntegrityError "usage_frequency_entry_subject_id_fkey"));
  _ ← modify (set_aliases (filter (fun p : text * (text * Z) => fst (snd p) <> id)));
  modify (set_subjects (delete id)).

Definition absorb (target : text) (source : text * text) : tx_ unit :=
  if teqb (fst source) target then mret tt else
  _ ← move_aliases (fst source) target;
  _ ← move_entries (fst source) target;
  delete_subject (fst source).

(** Locate or create the subject of an item, merging the ones it unites; [fresh]
    is the UUID drawn for a new one. *)
Definition _ensure_frequency_subject (busy : bool) (now : Z) (fresh : text)
    (i : FrequencyDecisionItem) : tx_ (text * text * list ProjectionRow) :=
  s ← get;
  let ids := _item_subject_ids i s in
  let rows := _load_frequency_subject_rows ids s in
  let preferred := subject_of s (oldest_digest (di_aliases i)) in
  found ←
    match ids with
    | [] =>
        let hmac := oldest_digest (di_aliases i) in
        _ ← insert_subject fresh hmac; mret (fresh, hmac, [])
    | _ =>
        _ ← lift (require (Nat.eqb (length rows) (length ids)) subject_unavailable);
        match (List.filter (fun r : text * text => bool_decide (Some (fst r) = preferred)) rows)
              ++ rows with
        | [] => throw subject_unavailable
        | canonical :: _ =>
            if Nat.leb (length rows) 1 then mret (fst canonical, snd canonical, []) else
            merged ← _merge_frequency_projections busy now (snd canonical) rows;
            _ ← for_each (absorb (fst canonical)) rows;
            mret (fst canonical, snd canonical, merged)
        end
    end;
  _ ← _bind_frequency_aliases (fst (fst found)) i;
  mret found.

(** How an item of a block is resolved before the aliases are bound. *)
Inductive resolution :=
| Merged (r : ResolvedFrequencySubject) (rows : list ProjectionRow)
| Bind (i : FrequencyDecisionItem) (id hmac : text)
| Create (i : FrequencyDecisionItem) (id hmac : text).

(** [known] is the alias map read at the start of the block. *)
Definition resolve_item (busy : bool) (now : Z) (uuid4 : text -> text) (known : db)
    (i : FrequencyDecisionItem) : tx_ resolution :=
  match _item_subject_ids i known with
  | [] => mret (Create i (uuid4 (di_phone_hmac i)) (oldest_digest (di_aliases i)))
  | [id] => hmac ← lift (match subjects known !! id with
                         | Some h => Ok h
                         | None => Raise subject_unavailable
                         end);
            mret (Bind i id hmac)
  | _ => '(id, hmac, rows) ← _ensure_frequency_subject busy now (uuid4 (di_phone_hmac i)) i;
         mret (Merged (mkResolved (di_phone_hmac i) (di_aliases i) id hmac) rows)
  end.

Definition create_subject (x : resolution) : tx_ unit :=
  match x with Create _ id hmac => insert_subject id hmac | _ => mret tt end.

Definition bind_of (x : resolution) : option (FrequencyDecisionItem * text * text) :=
  match x with Bind i id h | Create i id h => Some (i, id, h) | Merged _ _ => None end.

Definition is_create (x : resolution) : bool := match x with Create _ _ _ => true | _ => false end.

Definition check_bound (b : FrequencyDecisionItem * text * text) : tx_ unit :=
  let '(i, id, _) := b in
  s ← get;
  lift (require (bool_decide (_item_subject_ids i s = [id])) alias_conflict).

Definition resolved_of (x : resolution) : ResolvedFrequencySubject :=
  match x with
  | Merged r _ => r
  | Bind i id h | Create i id h => mkResolved (di_phone_hmac i) (di_aliases i) id h
  end.

Definition rows_of (x : resolution) : list ProjectionRow :=
  match x with Merged _ rows => rows | _ => [] end.

(** The first item of every number. *)
Fixpoint unique_items (seen : list text) (l : list FrequencyDecisionItem)
    : list FrequencyDecisionItem :=
  match l with
  | [] => []
  | i :: l => if tmem (di_phone_hmac i) seen then unique_items seen l
              else i :: unique_items (di_phone_hmac i :: seen) l
  end.

Definition _ensure_frequency_subjects_many (busy : bool) (now : Z) (uuid4 : text -> text)
    (items : list FrequencyDecisionItem)
    : tx_ (list ResolvedFrequencySubject * list ProjectionRow) :=
  known ← get;
  plan ← for_each (resolve_item busy now uuid4 known) (unique_items [] items);
  _ ← for_each create_subject plan;
  let binds := omap bind_of (List.filter (fun x => negb (is_create x)) plan)
               ++ omap bind_of (List.filter is_create plan) in
  _ ← for_each (fun b : FrequencyDecisionItem * text * text =>
                  let '(i, id, _) := b in bind_aliases id (di_aliases i)) binds;
  _ ← for_each check_bound binds;
  let resolved := resolved_of <$> plan in
  found ← for_each (fun i => lift (match List.find (fun r => teqb (rs_phone_hmac r) (di_phone_hmac i))
                                           resolved with
                                   | Some r => Ok r
                                   | None => Raise subject_unavailable
                                   end)) items;
  mret (found, concat (rows_of <$> plan)).

(** ** Decisions *)

Record FrequencyLimits := mkLimits {
  verify_per_minute : Z;
  verify_per_day : Z;
  market_per_day : Z
}.

(** The windows of a decision: kind, window key, projection key, limit, end. *)
Record window_spec := mkSpecW {
  ws_kind : WindowKind.t;
  ws_window : text;
  ws_key : text;
  ws_limit : Z;
  ws_expires_at : Z
}.

Definition is_verify (category : text) : bool := teqb category (tx "verify").

Definition item_specs (category : text) (app_id : Z) (limits : FrequencyLimits)
    (windows : text * Z * text * date * Z) (hmac : text) : list window_spec :=
  let '(minute_window, minute_expires, day_window, _, day_expires) := windows in
  match _frequency_projection_keys category app_id hmac with
  | [km; kd] => [mkSpecW WindowKind.minute minute_window km (verify_per_minute limits) minute_expires;
                 mkSpecW WindowKind.day day_window kd (verify_per_day limits) day_expires]
  | [kd] => [mkSpecW WindowKind.day day_window kd (market_per_day limits) day_expires]
  | _ => []
  end.

Definition expected_windows (category : text) : list WindowKind.t :=
  if is_verify category then [WindowKind.minute; WindowKind.day] else [WindowKind.day].

Definition counts_towards (s : db) (category : text) (app : option Z) (subject : text)
    (w : WindowKind.t) (window : text) (p : fentry) : bool :=
  let '(r, sub, wk, e) := p in
  teqb sub subject && bool_decide (wk = w) && teqb (FrequencyEntry.category e) category
  && bool_decide (FrequencyEntry.app_id e = app) && teqb (FrequencyEntry.window_key e) window
  && FrequencyEntry.counted e
  && match reservations s !! r with
     | Some row => bool_decide (UsageRow.state row ∈ [UsageState.reserved; UsageState.committed;
                                                      UsageState.uncertain])
     | None => false
     end.

(** [SELECT count(e.reservation_id)] of the counted entries of open reservations *)
Definition live_count (s : db) (category : text) (app : option Z) (subject : text)
    (w : WindowKind.t) (window : text) : Z :=
  Z.of_nat (length (List.filter (counts_towards s category app subject w window)
                      (map_to_list (frequency_entries s)))).

Definition frequency_app (category : text) (app_id : Z) : option Z :=
  if teqb category (tx "market") then Some app_id else None.

(** [all(counts + 1 <= limit)] over the windows of a subject *)
Definition within_limits (s : db) (category : text) (app_id : Z) (subject : text)
    (specs : list window_spec) : bool :=
  forallb (fun sp => live_count s category (frequency_app category app_id) subject
                       (ws_kind sp) (ws_window sp) + 1 <=? ws_limit sp) specs.

Fixpoint unique_subjects (seen : list text) (l : list ResolvedFrequencySubject)
    : list ResolvedFrequencySubject :=
  match l with
  | [] => []
  | i :: l => if tmem (rs_subject_id i) seen then unique_subjects seen l
              else i :: unique_subjects (rs_subject_id i :: seen) l
  end.

Definition insert_frequency_entry (id subject category : text) (app_id : Z) (usage_date : date)
    (allowed : bool) (sp : window_spec) : tx_ unit :=
  s ← get;
  _ ← lift (refuse (bool_decide (is_Some (frequency_entries s !! (id, subject, ws_kind sp))))
              (Outbox.IntegrityError "usage_frequency_entry_pkey"));
  modify (set_frequency_entries (<[(id, subject, ws_kind sp) :=
    FrequencyEntry.mk (frequency_app category app_id) category (ws_window sp) usage_date
      (ws_key sp) allowed (ws_expires_at sp)]>)).

Fixpoint add_change (c : _ProjectionChange) (l : list _ProjectionChange) : list _ProjectionChange :=
  match l with
  | [] => [c]
  | d :: l =>
      if teqb (ch_dimension_key d) (ch_dimension_key c)
      then mkChange (ch_dimension_key c) (ch_kind c) (ch_usage_date c) (ch_window_key c)
             (ch_delta d + ch_delta c) (Z.max (ch_expires_at d) (ch_expires_at c)) true :: l
      else d :: add_change c l
  end.

(** The decision of every new subject, its entries and the changed projections. *)
Definition _insert_frequency_decisions (busy : bool) (id category : text) (app_id : Z)
    (items : list ResolvedFrequencySubject) (limits : FrequencyLimits)
    (windows : text * Z * text * date * Z)
    : tx_ (list (text * bool) * list ProjectionRow) :=
  let '(_, _, _, usage_date, _) := windows in
  s ← get;
  let decided := (fun i => let specs := item_specs category app_id limits windows
                                          (rs_projection_hmac i) in
                           (rs_subject_id i, specs,
                            within_limits s category app_id (rs_subject_id i) specs))
                 <$> unique_subjects [] items in
  _ ← for_each (fun d : text * list window_spec * bool =>
        let '(subject, specs, allowed) := d in
        for_each (insert_frequency_entry id subject category app_id usage_date allowed) specs)
        decided;
  let changes := concat ((fun d : text * list window_spec * bool =>
        let '(_, specs, allowed) := d in
        if allowed : bool then
          (fun sp => mkChange (ws_key sp) ProjectionKind.frequency usage_date (ws_window sp) 1
                       (ws_expires_at sp) true) <$> specs
        else []) <$> decided) in
  rows ← _change_projections busy (foldl (fun l c => add_change c l) [] changes);
  mret ((fun d : text * list window_spec * bool => let '(subject, _, allowed) := d in
           (subject, allowed)) <$> decided, rows).

(** The windows this reservation has already recorded for a subject. *)
Definition recorded (id subject : text) (s : db) : list (WindowKind.t * FrequencyEntry.t) :=
  omap (fun w => pair w <$> frequency_entries s !! (id, subject, w))
    [WindowKind.minute; WindowKind.day].

Definition all_counted (l : list (WindowKind.t * FrequencyEntry.t)) : bool :=
  forallb (fun p => FrequencyEntry.counted (snd p)) l.

(** A subject is new, already decided, or recorded in part. *)
Definition is_new (category id : text) (s : db) (i : ResolvedFrequencySubject) : result exc bool :=
  let windows := fst <$> recorded id (rs_subject_id i) s in
  if bool_decide (windows = expected_windows category) then Ok false else
  if bool_decide (windows = []) then Ok true
  else Raise (UsageReservationConflict "partial frequency decision persisted").

Fixpoint split_new (category id : text) (s : db) (l : list ResolvedFrequencySubject)
    : result exc (list ResolvedFrequencySubject * list ResolvedFrequencySubject) :=
  match l with
  | [] => Ok ([], [])
  | i :: l =>
      b ← is_new category id s i;
      '(fresh, old) ← split_new category id s l;
      Ok (if b : bool then (i :: fresh, old) else (fresh, i :: old))
  end.

Definition answer_of (old : db) (id : text) (decided : list (text * bool))
    (i : ResolvedFrequencySubject) : bool :=
  match List.find (fun d : text * bool => teqb (fst d) (rs_subject_id i)) decided with
  | Some (_, b) => b
  | None => all_counted (recorded id (rs_subject_id i) old)
  end.

Definition _decide_frequency_many_on_connection (busy : bool) (id category : text) (app_id : Z)
    (items : list ResolvedFrequencySubject) (limits : FrequencyLimits)
    (windows : text * Z * text * date * Z) : tx_ (list bool * list ProjectionRow) :=
  s ← get;
  '(fresh, old) ← lift (split_new category id s items);
  let replayed := omap (fun p : WindowKind.t * FrequencyEntry.t =>
                          if FrequencyEntry.counted (snd p)
                          then Some (FrequencyEntry.projection_key (snd p)) else None)
                    (concat ((fun i => recorded id (rs_subject_id i) s) <$> items)) in
  let rows := match old with [] => [] | _ => _projection_rows replayed s end in
  '(decided, changed) ← match fresh with
                        | [] => mret ([], [])
                        | _ => _insert_frequency_decisions busy id category app_id fresh limits windows
                        end;
  mret (answer_of s id decided <$> items, rows ++ changed).

Definition touch (now : Z) (r : UsageRow.t) : UsageRow.t :=
  set_row_state (UsageRow.state r) now r.

(** The transaction over one block of numbers. *)
Definition _allow_frequency_chunk (busy : bool) (now : Z) (uuid4 : text -> text)
    (id category : text) (app_id : Z) (items : list FrequencyDecisionItem)
    (limits : FrequencyLimits) (windows : text * Z * text * date * Z)
    : tx_ (list bool * list ProjectionRow) :=
  let '(_, _, _, usage_date, _) := windows in
  s ← get;
  r ← lift (match reservations s !! id with
            | Some r => if in_state UsageState.reserved r then Ok r
                        else Raise (UsageReservationConflict "usage reservation is not writable")
            | None => Raise (UsageReservationConflict "usage reservation is not writable")
            end);
  _ ← lift (require ((UsageRow.app_id r =? app_id) && teqb (UsageRow.category r) category
                     && bool_decide (UsageRow.usage_date r = usage_date))
              (UsageReservationConflict "frequency reservation contract changed"));
  _ ← update_row id (in_state UsageState.reserved) (touch now);
  '(resolved, merged) ← _ensure_frequency_subjects_many busy now uuid4 items;
  '(allowed, rows) ← _decide_frequency_many_on_connection busy id category app_id resolved limits
                       windows;
  mret (allowed, _latest_projection_rows (merged ++ rows)).

(** ** Checks before the blocks ([allow_frequency_many]) *)

Definition check_item (i : FrequencyDecisionItem) : result exc unit :=
  _ ← require (fullmatch HMAC_PATTERN (di_phone_hmac i))
        (ValueError "phone_hmac must be 64 lowercase hex characters");
  refuse (bool_decide (di_aliases i = [])
          || List.existsb (fun a : Z * text => (fst a <? 1) || negb (fullmatch HMAC_PATTERN (snd a)))
               (di_aliases i)
          || negb (tmem (di_phone_hmac i) (digests i)))
    (ValueError "invalid frequency hmac aliases").

Definition FREQUENCY_DECISION_CHUNK : nat := 200.

(** ** Retention of aliases and subjects *)

Definition unused_subject (s : db) (id : text) : bool :=
  negb (List.existsb (fun p : fentry => teqb (entry_subject p) id)
          (map_to_list (frequency_entries s))).

(** [created_at] only delays the deletion and is part of the choice of [due]. *)
Definition delete_alias (digest : text) : tx_ unit :=
  s ← get;
  match aliases s !! digest with
  | Some (id, _) => if unused_subject s id then modify (set_aliases (delete digest)) else mret tt
  | None => mret tt
  end.

Definition delete_unused_subject (id : text) : tx_ unit :=
  s ← get;
  if unused_subject s id
     && negb (List.existsb (fun p : text * (text * Z) => teqb (fst (snd p)) id)
                (map_to_list (aliases s)))
  then modify (set_subjects (delete id)) else mret tt.

Definition cleanup_aliases due := for_each delete_alias due.
Definition cleanup_subjects due := for_each delete_unused_subject due.
End UsageFrequency.
