(* ===== verification/UsageSafety.v ===== *)
(** * The quota ledger is exact

    The absolute value of a quota dimension is the sum of what the open
    reservations hold in it, in every state the transactions of the platform
    can reach: reservations, frequency decisions with their merges, commits,
    releases, exclusions and retention, in any order. *)

From stdpp Require Import sorting.
From S2P Require Import Prelude PyText Outbox Category Redis UsageStore UsageFrequency.

(** ** Sums over a table *)

Section MapSum.
Context `{Countable K} {A : Type}.

Definition map_sum (f : K -> A -> Z) (m : gmap K A) : Z := map_fold (fun k a n => f k a + n) 0 m.

Lemma map_sum_empty f : map_sum f ∅ = 0.
Proof. apply map_fold_empty. Qed.

Lemma map_sum_new f m k a : m !! k = None -> map_sum f (<[k := a]> m) = f k a + map_sum f m.
Proof. intros N. unfold map_sum. rewrite map_fold_insert_L; [done | intros; lia | done]. Qed.

Lemma map_sum_split f m k a : m !! k = Some a -> map_sum f m = f k a + map_sum f (delete k m).
Proof.
  intros E. rewrite <- (insert_delete_id m k a E) at 1. apply map_sum_new. apply lookup_delete_eq.
Qed.

Lemma map_sum_update f m k a b : m !! k = Some a ->
  map_sum f (<[k := b]> m) = map_sum f m - f k a + f k b.
Proof.
  intros E. rewrite (map_sum_split f m k a E), (map_sum_split f (<[k := b]> m) k b).
  - rewrite delete_insert_eq. lia.
  - apply lookup_insert_eq.
Qed.

Lemma map_sum_ext f g m : (forall k a, m !! k = Some a -> f k a = g k a) -> map_sum f m = map_sum g m.
Proof.
  induction m as [|k a m N IH] using map_ind; intros E; [done|].
  rewrite !map_sum_new by done. rewrite (E k a) by apply lookup_insert_eq. f_equal.
  apply IH. intros k' a' L. apply E. rewrite lookup_insert_ne; congruence.
Qed.

Lemma map_sum_add f g m : map_sum (fun k a => f k a + g k a) m = map_sum f m + map_sum g m.
Proof.
  induction m as [|k a m N IH] using map_ind; [by rewrite !map_sum_empty|].
  rewrite !map_sum_new by done. lia.
Qed.

Lemma map_sum_zero f m : (forall k a, m !! k = Some a -> f k a = 0) -> map_sum f m = 0.
Proof.
  induction m as [|k a m N IH] using map_ind; intros E; [apply map_sum_empty|].
  rewrite map_sum_new, (E k a), IH; [done | | apply lookup_insert_eq | done].
  intros k' a' L. apply E. rewrite lookup_insert_ne; congruence.
Qed.

Lemma map_sum_nonneg f m : (forall k a, m !! k = Some a -> 0 <= f k a) -> 0 <= map_sum f m.
Proof.
  induction m as [|k a m N IH] using map_ind; intros E; [by rewrite map_sum_empty|].
  rewrite map_sum_new by done.
  assert (0 <= f k a) by apply E, lookup_insert_eq.
  assert (0 <= map_sum f m) by (apply IH; intros k' a' L; apply E; rewrite lookup_insert_ne; congruence).
  lia.
Qed.

End MapSum.

Module UsageSafety.
Import Calendar UsageStore UsageFrequency.

(** ** What is to be shown *)

Definition live (r : UsageRow.t) : bool :=
  bool_decide (UsageRow.state r ∈ [UsageState.reserved; UsageState.committed; UsageState.uncertain]).

Definition live_id (s : db) (id : text) : bool :=
  match reservations s !! id with Some r => live r | None => false end.

Definition held (s : db) (k : text) (x : text * Dimension.t) (e : QuotaEntry.t) : Z :=
  if live_id s (fst x) && teqb (QuotaEntry.projection_key e) k then QuotaEntry.amount e else 0.

(** What the open reservations hold in a dimension. *)
Definition live_sum (s : db) (k : text) : Z := map_sum (held s k) (quota_entries s).

Definition is_quota (k : text) : bool := starts_with (tx "quota:") k.

(** The day a quota dimension is of: its last eight characters. *)
Definition key_window (k : text) : text := drop (length k - 8) k.

Definition dimension_prefix (d : Dimension.t) : text :=
  match d with
  | Dimension.app => tx "quota:app:"
  | Dimension.dept => tx "quota:dept:"
  | Dimension.volume => tx "quota:volume:"
  end.

Record wf (s : db) : Prop := {
  wf_entry : forall id d e, quota_entries s !! (id, d) = Some e ->
    0 <= QuotaEntry.amount e /\ starts_with (dimension_prefix d) (QuotaEntry.projection_key e) = true /\
    key_window (QuotaEntry.projection_key e) = ymd (QuotaEntry.usage_date e);
  wf_owner : forall id d e, quota_entries s !! (id, d) = Some e -> is_Some (reservations s !! id);
  wf_projection : forall k p, projections s !! k = Some p -> is_quota k = true ->
    Projection.window_key p = key_window k /\ 0 <= Projection.value p;
  wf_frequency : forall x e, frequency_entries s !! x = Some e ->
    is_quota (FrequencyEntry.projection_key e) = false
}.

Definition exact (s : db) : Prop :=
  forall k, is_quota k = true -> k ∉ retired s -> value_of s k = live_sum s k.

(** ** Steps that leave the quota alone *)

Definition freq_ok (s : db) : Prop := forall x e, frequency_entries s !! x = Some e ->
  is_quota (FrequencyEntry.projection_key e) = false.

Record calm (s s' : db) : Prop := {
  ca_entries : quota_entries s' = quota_entries s;
  ca_retired : retired s' = retired s;
  ca_projections : forall k, is_quota k = true -> projections s' !! k = projections s !! k;
  ca_rows : forall id d, is_Some (quota_entries s !! (id, d)) -> is_Some (reservations s !! id) ->
    is_Some (reservations s' !! id) /\ live_id s' id = live_id s id;
  ca_frequency : freq_ok s -> freq_ok s'
}.

#[export] Instance calm_preorder : PreOrder calm.
Proof.
  split; [by constructor|]. intros s1 s2 s3 [E1 R1 P1 L1 F1] [E2 R2 P2 L2 F2]. constructor; try congruence.
  - intros k Q. by rewrite P2, P1.
  - intros id d I X. destruct (L1 id d I X) as [X' <-]. apply (L2 id d); [by rewrite E1 | done].
  - auto.
Qed.

Lemma calm_sum s s' k : wf s -> calm s s' -> live_sum s' k = live_sum s k.
Proof.
  intros W [E R P L F]. unfold live_sum. rewrite E. apply map_sum_ext. intros [id d] e X.
  unfold held. simpl. destruct (L id d) as [_ ->]; [by eexists | by eapply wf_owner | done].
Qed.

Lemma calm_wf s s' : wf s -> calm s s' -> wf s'.
Proof.
  intros W C. pose proof C as [E R P L F]. constructor.
  - rewrite E. apply W.
  - intros id d e X. rewrite E in X. apply (L id d); [by eexists | by eapply wf_owner].
  - intros k p X Q. rewrite P in X by done. by apply W.
  - apply F. exact (wf_frequency s W).
Qed.

Lemma calm_exact s s' : wf s -> calm s s' -> exact s -> exact s'.
Proof.
  intros W C X k Q N. unfold value_of. rewrite (ca_projections _ _ C k Q), (calm_sum s s' k W C).
  apply X; [done|]. by rewrite <- (ca_retired _ _ C).
Qed.

Create HintDb calm.

Lemma calm_same s s' : quota_entries s' = quota_entries s -> retired s' = retired s ->
  projections s' = projections s -> reservations s' = reservations s ->
  (freq_ok s -> freq_ok s') -> calm s s'.
Proof. intros E R P L F. constructor; try done; unfold live_id; by rewrite ?P, ?L. Qed.

Lemma within_modify_frequency f : (forall m, (forall x e, m !! x = Some e ->
    is_quota (FrequencyEntry.projection_key e) = false) -> forall x e, f m !! x = Some e ->
    is_quota (FrequencyEntry.projection_key e) = false) ->
  within (E:=exc) calm (modify (set_frequency_entries f)).
Proof.
  intros H. apply within_modify. intros s. apply calm_same; try done.
  intros F. unfold freq_ok. simpl. by apply H.
Qed.

Lemma calm_nextval : within calm nextval.
Proof. unfold nextval. within_tac. apply within_modify. intros s. by apply calm_same. Qed.

Lemma calm_write k p : is_quota k = false -> within calm (write_projection k p).
Proof.
  intros Q. unfold write_projection. within_tac. apply within_modify. intros s. constructor; try done.
  intros k' Q'. simpl. apply lookup_insert_ne. congruence.
Qed.

Lemma calm_outbox {A} (m : stex Outbox.db exc A) : within calm (in_outbox m).
Proof.
  intros s x s' H. unfold in_outbox in H. destruct (m (outbox s)) as [[a o]|]; [|done].
  injection H as <- <-. by apply calm_same.
Qed.

Lemma calm_update id guard f : (forall r, guard r = true -> live (f r) = live r) ->
  within calm (update_row id guard f).
Proof.
  intros H s x s' E. unfold update_row in E. stx. repeat case_match; stx; try reflexivity.
  constructor; try done. intros id' d _ X. unfold live_id. simpl.
  destruct (decide (id' = id)) as [->|N]; [|by rewrite lookup_insert_ne].
  rewrite lookup_insert_eq. split; [by eexists|]. match goal with H : reservations _ !! _ = _ |- _ => rewrite H end.
  by apply H.
Qed.

Lemma within_each {A B} R `{!PreOrder R} (f : A -> tx_ B) l :
  (forall x, x ∈ l -> within R (f x)) -> within R (for_each f l).
Proof.
  induction l as [|x l IH]; intros H; simpl; within_tac.
  - apply H. apply list_elem_of_here.
  - apply IH. intros y I. apply H. by apply list_elem_of_further.
Qed.

Lemma within_fold_tx {A B} R `{!PreOrder R} (P : B -> Prop) (f : B -> A -> tx_ B) l : forall acc, P acc ->
  (forall acc x, P acc -> x ∈ l -> within R (f acc x) /\ returns P (f acc x)) ->
  within R (fold_tx f acc l) /\ returns P (fold_tx f acc l).
Proof.
  induction l as [|x l IH]; intros acc I H; simpl.
  - split; [apply within_ret; apply _ | by apply returns_ret].
  - destruct (H acc x I ltac:(apply list_elem_of_here)) as [W1 Q1].
    assert (T : forall acc', P acc' ->
      within R (fold_tx f acc' l) /\ returns P (fold_tx f acc' l)).
    { intros acc' I'. apply IH; [done|]. intros a y Ia Iy. apply H; [done|]. by apply list_elem_of_further. }
    split.
    + intros s y s' (a & s1 & E1 & E2)%stex_bind_ok. transitivity s1; [by eapply W1|].
      eapply T; [by eapply Q1 | done].
    + intros s y s' (a & s1 & E1 & E2)%stex_bind_ok. eapply T; [by eapply Q1 | done].
Qed.

(** ** Frequency leaves the quota alone *)

Lemma lang_literal str s : lang (rlit str) s -> s = tx str.
Proof.
  unfold rlit. generalize (tx str) as l. intros l. revert s.
  induction l as [|c l IH]; intros s H; inversion H; subst; [done|].
  match goal with H : lang (RClass _) _ |- _ => inversion H; subst end.
  match goal with H : (_ =? _) = true |- _ => apply Z.eqb_eq in H as -> end.
  simpl. f_equal. by apply IH.
Qed.

Lemma literal_prefix str rest s : fullmatch (rseq (rlit str :: rest)) s = true -> exists r, s = tx str ++ r.
Proof.
  intros H%fullmatch_spec. simpl in H. inversion H; subst.
  match goal with H : lang (rlit _) _ |- _ => apply lang_literal in H as -> end. by eexists.
Qed.

Lemma canonical_plain key hmac t : _canonical_frequency_projection_key key hmac = Ok (Some t) ->
  is_quota key = false /\ is_quota t = false.
Proof.
  unfold _canonical_frequency_projection_key. intros ([] & _ & H)%bind_ok.
  destruct (fullmatch _FREQ_VERIFY_KEY key) eqn:V.
  { injection H as <-. apply literal_prefix in V as [r ->]. done. }
  destruct (fullmatch _FREQ_MARKET_KEY key) eqn:M; [|done].
  injection H as <-. apply literal_prefix in M as [r ->]. done.
Qed.

Lemma frequency_key_plain category app_id hmac k :
  k ∈ _frequency_projection_keys category app_id hmac -> is_quota k = false.
Proof.
  unfold _frequency_projection_keys. destruct (teqb category _); intros H; repeat (apply elem_of_cons in H as [-> | H]; [done|]);
    by apply elem_of_nil in H.
Qed.

Definition plain_row (r : prow) : Prop := is_quota (fst r) = false.
Definition plain_remap (m : remap) : Prop := is_quota (fst m) = false /\ is_quota (snd m) = false.

Lemma group_rows_plain hmac rows : forall remaps groups remaps' groups',
  group_rows hmac rows remaps groups = Ok (remaps', groups') ->
  Forall plain_remap remaps ->
  Forall (fun g : text * list prow => is_quota (fst g) = false /\ Forall plain_row (snd g)) groups ->
  Forall plain_remap remaps' /\
  Forall (fun g : text * list prow => is_quota (fst g) = false /\ Forall plain_row (snd g)) groups'.
Proof.
  induction rows as [|r rows IH]; intros remaps groups remaps' groups' H R G; simpl in H.
  { by injection H as <- <-. }
  apply bind_ok in H as (t & T & H). destruct t as [target|]; [|by apply (IH _ _ _ _ H)].
  apply canonical_plain in T as [K T]. apply (IH _ _ _ _ H).
  - apply Forall_app. split; [done|]. by repeat constructor.
  - destruct (List.existsb _ groups).
    + apply Forall_fmap. apply (Forall_impl _ _ _ G). intros [g l] [Hg Hl]. simpl.
      destruct (teqb g target); [|done]. split; [done|]. apply Forall_app. split; [done|]. by repeat constructor.
    + apply Forall_app. split; [done|]. repeat constructor; [done|]. done.
Qed.

Lemma add_entry_remaps_plain hmac keys : forall remaps remaps',
  add_entry_remaps hmac keys remaps = Ok remaps' -> Forall plain_remap remaps -> Forall plain_remap remaps'.
Proof.
  induction keys as [|k keys IH]; intros remaps remaps' H R; simpl in H; [by injection H as <-|].
  apply bind_ok in H as (t & T & H). destruct t as [target|]; [|by apply (IH _ _ H)].
  destruct (_ || _); apply (IH _ _ H); [done|].
  apply canonical_plain in T as [K T]. apply Forall_app. split; [done|]. by repeat constructor.
Qed.

#[local] Hint Resolve calm_nextval calm_outbox calm_write : within.

Lemma calm_absolute busy key kind d w v x : is_quota key = false ->
  within calm (_write_absolute_frequency_projection busy key kind d w v x).
Proof. intros Q. unfold _write_absolute_frequency_projection. within_tac. Qed.

#[local] Hint Resolve calm_absolute : within.

Lemma calm_tombstone busy key rows refs : is_quota key = false ->
  within calm (_write_expired_canonical_tombstone busy key rows refs).
Proof. intros Q. unfold _write_expired_canonical_tombstone. within_tac. Qed.
#[local] Hint Resolve calm_tombstone : within.

Definition plain_acc (a : merge_acc) : Prop := Forall (fun k => is_quota k = false) (ma_stale a).

Lemma calm_merge_group busy now remaps refs needed acc g : is_quota (fst g) = false ->
  Forall plain_row (snd g) -> plain_acc acc ->
  within calm (merge_group busy now remaps refs needed acc g) /\
  returns plain_acc (merge_group busy now remaps refs needed acc g).
Proof.
  destruct g as [target group]. simpl. intros Q G A.
  assert (S : Forall (fun k => is_quota k = false)
                (ma_stale acc ++ List.filter (fun k => negb (teqb k target)) (fst <$> group))).
  { apply Forall_app. split; [done|]. apply Forall_forall. intros k [I _]%filter_in.
    apply list_elem_of_fmap in I as (r & -> & I). by eapply Forall_forall in G. }
  split.
  - unfold merge_group. within_tac.
  - intros s x s' H. unfold merge_group in H. repeat (stx; case_match); stx; simpl; done.
Qed.

Lemma calm_merge_remap busy refs needed acc m : plain_remap m -> plain_acc acc ->
  within calm (merge_remap busy refs needed acc m) /\
  returns plain_acc (merge_remap busy refs needed acc m).
Proof.
  destruct m as [source target]. intros [_ Q] A. split.
  - unfold merge_remap. within_tac.
  - intros s x s' H. unfold merge_remap in H. repeat (stx; case_match); stx; done.
Qed.

Lemma within_lift_bind {A B} (R : relation db) (r : result exc A) (f : A -> tx_ B) :
  (forall x, r = Ok x -> within R (f x)) -> within R (lift r ≫= f).
Proof. intros H s y s' (x & s1 & [E ->]%stex_lift_ok & E2)%stex_bind_ok. by eapply H. Qed.

Lemma within_fold_bind {A B C} (R : relation db) `{!PreOrder R} (P : B -> Prop)
    (f : B -> A -> tx_ B) l acc (k : B -> tx_ C) : P acc ->
  (forall acc x, P acc -> x ∈ l -> within R (f acc x) /\ returns P (f acc x)) ->
  (forall x, P x -> within R (k x)) -> within R (fold_tx f acc l ≫= k).
Proof.
  intros I H K s y s' (x & s1 & E & E2)%stex_bind_ok.
  destruct (within_fold_tx R P f l acc I H) as [W Q].
  transitivity s1; [by eapply W | by eapply K; [eapply Q|]].
Qed.

Lemma calm_rename m : plain_remap m -> within calm (rename_key m).
Proof.
  intros [_ Q]. apply within_modify_frequency. intros t F x e L.
  rewrite lookup_fmap in L. destruct (t !! x) as [e0|] eqn:X; [|done]. injection L as <-.
  destruct (teqb _ _); [done | by eapply F].
Qed.

Lemma calm_delete_projections keys : Forall (fun k => is_quota k = false) keys ->
  within (E:=exc) calm (modify (set_projections (fun m => foldl (fun m k => delete k m) m keys))).
Proof.
  intros F. apply within_modify. intros s. constructor; try done. intros k Q. simpl.
  generalize (projections s) as m. induction F as [|x l Hx F IH]; intros m; [done|]. simpl.
  rewrite IH. apply lookup_delete_ne. congruence.
Qed.

Lemma calm_assert x : within calm (_assert_canonical_holds_newest_window x).
Proof. destruct x as [[[t d] w] v]. unfold _assert_canonical_holds_newest_window. within_tac. Qed.

Lemma plain_sources (remaps : list remap) f k : Forall plain_remap remaps ->
  k ∈ (fst <$> List.filter f remaps) -> is_quota k = false.
Proof.
  intros F (m & -> & [I _]%filter_in)%list_elem_of_fmap. rewrite Forall_forall in F.
  by destruct (F m I).
Qed.

Lemma calm_merge busy now hmac rows : within calm (_merge_frequency_projections busy now hmac rows).
Proof.
  unfold _merge_frequency_projections. apply within_bind; [apply _ | within_tac | intros []].
  apply within_bind; [apply _ | within_tac | intros s].
  apply within_lift_bind. intros [remaps0 groups] G.
  destruct (group_rows_plain _ _ _ _ _ _ G) as [R0 Gp]; [done | done|].
  apply within_lift_bind. intros remaps R. apply add_entry_remaps_plain in R; [|done].
  assert (F := R). rewrite Forall_forall in Gp. rewrite Forall_forall in R.
  apply (within_fold_bind calm plain_acc); [apply Forall_nil_2 | |].
  { intros acc g A I. destruct (Gp g I). by apply calm_merge_group. }
  intros acc A. apply (within_fold_bind calm plain_acc); [done | |].
  { intros a m Ha I. apply calm_merge_remap; [by apply R | done]. }
  intros acc' A'. apply within_bind; [apply _| |intros ?].
  { apply within_each; [apply _|]. intros m I. rewrite merge_sort_Permutation in I.
    apply filter_in in I as [[I _]%filter_in _]. by apply calm_rename, R. }
  apply within_bind; [apply _| |intros ?].
  { apply within_each; [apply _|]. intros y _. apply calm_assert. }
  apply within_bind; [apply _| |intros ?; within_tac].
  apply calm_delete_projections. apply Forall_forall. intros k [I _]%filter_in.
  apply elem_of_app in I as [I|I].
  - by apply (proj1 (Forall_forall _ _) A').
  - by apply (plain_sources _ _ _ F I).
Qed.
#[local] Hint Resolve calm_merge : within.

Lemma calm_plain_modify (f : db -> db) :
  (forall s, quota_entries (f s) = quota_entries s) -> (forall s, retired (f s) = retired s) ->
  (forall s, projections (f s) = projections s) -> (forall s, reservations (f s) = reservations s) ->
  (forall s, frequency_entries (f s) = frequency_entries s) -> within (E:=exc) calm (modify f).
Proof.
  intros E R P L F. apply within_modify. intros s. apply calm_same; try done.
  intros X. unfold freq_ok. by rewrite F.
Qed.
#[local] Hint Extern 1 (within calm (modify (set_aliases _))) => by apply calm_plain_modify : within.
#[local] Hint Extern 1 (within calm (modify (set_subjects _))) => by apply calm_plain_modify : within.
#[local] Hint Extern 1 (within calm (modify (set_batches _))) => by apply calm_plain_modify : within.

Lemma calm_bind_aliases id l : within calm (bind_aliases id l).
Proof.
  unfold bind_aliases. within_tac. apply within_each; [apply _|]. intros a _.
  unfold bind_alias. within_tac.
Qed.
#[local] Hint Resolve calm_bind_aliases : within.

Lemma calm_bind_frequency id i : within calm (_bind_frequency_aliases id i).
Proof. unfold _bind_frequency_aliases. within_tac. Qed.
#[local] Hint Resolve calm_bind_frequency : within.

Lemma calm_insert_subject id hmac : within calm (insert_subject id hmac).
Proof. unfold insert_subject. within_tac. Qed.
#[local] Hint Resolve calm_insert_subject : within.

Lemma kmap_source (f : text * text * WindowKind.t -> text * text * WindowKind.t)
    (m : gmap (text * text * WindowKind.t) FrequencyEntry.t) x e :
  (kmap f m : gmap (text * text * WindowKind.t) FrequencyEntry.t) !! x = Some e -> exists y, m !! y = Some e.
Proof.
  unfold kmap. intros H%elem_of_list_to_map_2. apply list_elem_of_fmap in H as ([y e'] & [= -> ->] & I).
  exists y. by apply elem_of_map_to_list.
Qed.

Lemma calm_move_entries a b : within calm (move_entries a b).
Proof.
  unfold move_entries. within_tac. apply within_modify_frequency.
  intros m F k e [y Y]%kmap_source. by eapply F.
Qed.
#[local] Hint Resolve calm_move_entries : within.

Lemma calm_move_aliases a b : within calm (move_aliases a b).
Proof. unfold move_aliases. within_tac. Qed.
#[local] Hint Resolve calm_move_aliases : within.

Lemma calm_delete_subject id : within calm (delete_subject id).
Proof. unfold delete_subject. within_tac. Qed.
#[local] Hint Resolve calm_delete_subject : within.

Lemma calm_absorb_all t l : within calm (for_each (absorb t) l).
Proof. apply within_each; [apply _|]. intros x _. unfold absorb. within_tac. Qed.
#[local] Hint Resolve calm_absorb_all : within.

Lemma calm_ensure_one busy now fresh i : within calm (_ensure_frequency_subject busy now fresh i).
Proof. unfold _ensure_frequency_subject. within_tac. Qed.
#[local] Hint Resolve calm_ensure_one : within.

Lemma calm_ensure busy now uuid4 items : within calm (_ensure_frequency_subjects_many busy now uuid4 items).
Proof.
  unfold _ensure_frequency_subjects_many. within_tac; apply within_each; try apply _; intros y _.
  - unfold resolve_item. within_tac.
  - unfold create_subject. within_tac.
  - destruct y as [[i id] h]. within_tac.
  - destruct y as [[i id] h]. unfold check_bound. within_tac.
  - within_tac.
Qed.
#[local] Hint Resolve calm_ensure : within.

(** A change of dimensions that are no quota. *)
Lemma calm_change busy changes : Forall (fun c => is_quota (ch_dimension_key c) = false) changes ->
  within calm (_change_projections busy changes).
Proof.
  intros F. rewrite Forall_forall in F.
  assert (A : within calm (for_each add_to_projection changes)).
  { apply within_each; [apply _|]. intros c I. specialize (F c I). unfold add_to_projection. within_tac. }
  assert (T : within calm (for_each take_from_projection changes)).
  { apply within_each; [apply _|]. intros c I. specialize (F c I). unfold take_from_projection. within_tac. }
  unfold _change_projections. destruct changes; within_tac.
Qed.

Lemma add_change_keys (P : text -> Prop) c l : P (ch_dimension_key c) ->
  Forall (fun c => P (ch_dimension_key c)) l -> Forall (fun c => P (ch_dimension_key c)) (add_change c l).
Proof.
  intros Hc. induction 1 as [|d l Hd Hl IH]; simpl; [by constructor|].
  destruct (teqb _ _); by constructor.
Qed.

Lemma add_changes_keys (P : text -> Prop) cs : forall l, Forall (fun c => P (ch_dimension_key c)) cs ->
  Forall (fun c => P (ch_dimension_key c)) l ->
  Forall (fun c => P (ch_dimension_key c)) (foldl (fun l c => add_change c l) l cs).
Proof.
  induction cs as [|c cs IH]; intros l C L; simpl; [done|]. inversion C; subst.
  apply IH; [done|]. by apply add_change_keys.
Qed.

Lemma item_specs_plain category app_id limits windows hmac :
  Forall (fun sp => is_quota (ws_key sp) = false) (item_specs category app_id limits windows hmac).
Proof.
  destruct windows as [[[[mw me] dw] ud] de]. unfold item_specs, _frequency_projection_keys.
  destruct (teqb category _); repeat constructor.
Qed.

Lemma calm_insert_entry id subject category app_id d b sp : is_quota (ws_key sp) = false ->
  within calm (insert_frequency_entry id subject category app_id d b sp).
Proof.
  intros Q. unfold insert_frequency_entry. within_tac. apply within_modify_frequency.
  intros m F k e L. apply lookup_insert_Some in L as [[_ <-] | [_ L]]; [done | by eapply F].
Qed.

Lemma calm_insert_decisions busy id category app_id items limits windows :
  within calm (_insert_frequency_decisions busy id category app_id items limits windows).
Proof.
  unfold _insert_frequency_decisions. destruct windows as [[[[mw me] dw] ud] de].
  assert (S : forall s d, d ∈ (fun i : ResolvedFrequencySubject =>
      let specs := item_specs category app_id limits (mw, me, dw, ud, de) (rs_projection_hmac i) in
      (rs_subject_id i, specs, within_limits s category app_id (rs_subject_id i) specs))
      <$> unique_subjects [] items -> Forall (fun sp => is_quota (ws_key sp) = false) (snd (fst d))).
  { intros s d (i & -> & _)%list_elem_of_fmap. apply item_specs_plain. }
  apply within_bind; [apply _ | within_tac | intros s]. cbv zeta.
  apply within_bind; [apply _ | | intros _].
  { apply within_each; [apply _|]. intros d I. specialize (S s d I). destruct d as [[subject specs] b].
    simpl in S. rewrite Forall_forall in S. apply within_each; [apply _|]. intros sp J.
    by apply calm_insert_entry, S. }
  apply within_bind; [apply _ | | intros ?; within_tac].
  apply calm_change, (add_changes_keys (fun k => is_quota k = false)); [|done].
  apply Forall_concat, Forall_fmap, Forall_forall. intros d I. specialize (S s d I).
  destruct d as [[subject specs] b]. simpl in *. destruct b; [|done]. apply Forall_fmap. done.
Qed.
#[local] Hint Resolve calm_insert_decisions : within.

Lemma calm_decide busy id category app_id items limits windows :
  within calm (_decide_frequency_many_on_connection busy id category app_id items limits windows).
Proof. unfold _decide_frequency_many_on_connection. within_tac. Qed.
#[local] Hint Resolve calm_decide : within.

Lemma calm_allow busy now uuid4 id category app_id items limits windows :
  within calm (_allow_frequency_chunk busy now uuid4 id category app_id items limits windows).
Proof.
  assert (U : within calm (update_row id (in_state UsageState.reserved) (touch now))).
  { apply calm_update. done. }
  unfold _allow_frequency_chunk. within_tac.
Qed.

(** ** Reservations and commits leave the quota alone *)

Lemma calm_start now id k app_id sk dept category d :
  within calm (start_round now id k app_id sk dept category d).
Proof.
  intros s x s' H. unfold start_round in H. stx.
  destruct (List.find _ _) as [p|] eqn:F; stx; repeat (case_match; stx); [reflexivity|].
  match goal with H : bool_decide (is_Some _) = false |- _ => apply bool_decide_false_iff in H end.
  constructor; try done. intros id' dd _ X. unfold live_id. simpl.
  rewrite lookup_insert_ne; [done|]. congruence.
Qed.

Lemma calm_mark now id e : within calm (_mark_uncertain now id e).
Proof.
  assert (U : within calm (update_row id (in_state UsageState.reserved)
    (fun r => set_last_error (Some (safe_error_type e)) (set_row_state UsageState.uncertain now r)))).
  { apply calm_update. unfold in_state, live. intros r R. bool_prop. simpl. by rewrite R. }
  unfold _mark_uncertain. within_tac.
Qed.

Lemma calm_accept now batch_id ref : within calm (accept_batch now batch_id ref).
Proof.
  assert (C : forall id, within calm (commit_usage_reservation now id batch_id)).
  { intros id. unfold commit_usage_reservation. apply within_bind; [apply _ | within_tac | intros s].
    apply within_bind; [apply _ | | intros b; within_tac].
    apply calm_update. unfold in_state, live. intros r R. bool_prop. simpl.
    match goal with H : UsageRow.state r = _ |- _ => by rewrite H end. }
  assert (I : within calm (insert_linked batch_id ref)) by (unfold insert_linked; within_tac).
  unfold accept_batch. within_tac.
Qed.

Lemma calm_finish now id : within calm (finish_release now id).
Proof.
  assert (U : within calm (update_row id (in_state UsageState.release_requested) (set_released now))).
  { apply calm_update. unfold in_state, live. intros r R. bool_prop. simpl. by rewrite R. }
  unfold finish_release. within_tac.
Qed.

(** ** Retention without the quota tables *)

Lemma calm_cleanup_frequency cutoff days due : within calm (cleanup_frequency cutoff days due).
Proof.
  apply within_each; [apply _|]. intros k _. unfold delete_frequency_entry. within_tac.
  apply within_modify_frequency. intros m F x' e L. apply lookup_delete_Some in L as [_ L]. by eapply F.
Qed.

Lemma entries_of_nil id s : entries_of id s = [] -> forall d, quota_entries s !! (id, d) = None.
Proof.
  unfold entries_of. simpl. intros H d.
  destruct (quota_entries s !! (id, Dimension.app)) eqn:A; [done|].
  destruct (quota_entries s !! (id, Dimension.dept)) eqn:B; [done|].
  destruct (quota_entries s !! (id, Dimension.volume)) eqn:C; [done|]. by destruct d.
Qed.

Lemma calm_delete_reservation cutoff days id : within calm (delete_reservation cutoff days id).
Proof.
  intros s x s' H. unfold delete_reservation in H. stx. case_match; stx; [|reflexivity].
  bool_prop. repeat match goal with H : Nat.eqb _ _ = true |- _ => apply Nat.eqb_eq in H end.
  match goal with H : length (entries_of _ _) = 0%nat |- _ =>
    apply nil_length_inv in H; pose proof (entries_of_nil _ _ H) as N end.
  constructor; try done. intros id' d [e E] X. unfold live_id. simpl.
  rewrite lookup_delete_ne; [done|]. intros <-. simpl in E. by rewrite N in E.
Qed.

Lemma calm_cleanup_reservations cutoff days due : within calm (cleanup_reservations cutoff days due).
Proof. apply within_each; [apply _|]. intros id _. apply calm_delete_reservation. Qed.

Lemma calm_cleanup_subjects due : within calm (cleanup_subjects due).
Proof. apply within_each; [apply _|]. intros id _. unfold delete_unused_subject. within_tac. Qed.

Lemma calm_cleanup_aliases due : within calm (cleanup_aliases due).
Proof. apply within_each; [apply _|]. intros id _. unfold delete_alias. within_tac. Qed.

(** ** What a change does to the quota dimensions *)

Definition delta_of (changes : list _ProjectionChange) (k : text) : Z :=
  sumZ (ch_delta <$> List.filter (fun c => teqb (ch_dimension_key c) k) changes).

Lemma delta_of_cons c l k :
  delta_of (c :: l) k = (if teqb (ch_dimension_key c) k then ch_delta c else 0) + delta_of l k.
Proof. unfold delta_of. simpl. by destruct (teqb _ k). Qed.

Lemma delta_of_one c k : delta_of [c] k = if teqb (ch_dimension_key c) k then ch_delta c else 0.
Proof. rewrite delta_of_cons. unfold delta_of. simpl. lia. Qed.

Lemma delta_of_app l1 l2 k : delta_of (l1 ++ l2) k = delta_of l1 k + delta_of l2 k.
Proof. induction l1 as [|c l IH]; [done|]. simpl. rewrite !delta_of_cons, IH. lia. Qed.

Definition proj_ok (s : db) : Prop := forall k p, projections s !! k = Some p -> is_quota k = true ->
  Projection.window_key p = key_window k /\ 0 <= Projection.value p.

(** Nothing but projections has changed. *)
Record only_projections (s s' : db) : Prop := {
  op_reservations : reservations s' = reservations s;
  op_entries : quota_entries s' = quota_entries s;
  op_frequency : frequency_entries s' = frequency_entries s;
  op_retired : retired s' = retired s
}.

#[export] Instance only_projections_preorder : PreOrder only_projections.
Proof. split; [by constructor|]. intros ? ? ? [] []. constructor; congruence. Qed.

Definition window_ok (c : _ProjectionChange) : Prop :=
  is_quota (ch_dimension_key c) = true -> ch_window_key c = key_window (ch_dimension_key c).

Lemma proj_ok_insert s s' k p : proj_ok s -> projections s' = <[k := p]> (projections s) ->
  (is_quota k = true -> Projection.window_key p = key_window k) -> 0 <= Projection.value p -> proj_ok s'.
Proof.
  intros O E W V k' p' L Q. rewrite E in L.
  apply lookup_insert_Some in L as [[<- <-] | [_ L]]; [auto | by apply O].
Qed.

Lemma write_projection_ok k p s r s' : write_projection k p s = Ok (r, s') ->
  0 <= Projection.value p /\ r = row_of k p /\ s' = set_projections (<[k := p]>) s.
Proof. unfold write_projection. intros H. stx. bool_prop. done. Qed.

Lemma nextval_ok s v s' : nextval s = Ok (v, s') ->
  v = version_seq s + 1 /\ s' = set_version_seq (version_seq s + 1) s.
Proof. unfold nextval. intros H. stx. done. Qed.

Lemma value_of_insert s k p k' : value_of (set_projections (<[k := p]>) s) k'
  = if teqb k k' then Projection.value p else value_of s k'.
Proof.
  unfold value_of. simpl. destruct (teqb k k') eqn:T.
  - apply teqb_spec in T as <-. by rewrite lookup_insert_eq.
  - apply teqb_false in T. by rewrite lookup_insert_ne.
Qed.

Lemma add_ok c s r s' : add_to_projection c s = Ok (r, s') -> proj_ok s -> window_ok c ->
  only_projections s s' /\ proj_ok s' /\
  forall k, is_quota k = true -> value_of s' k = value_of s k + delta_of [c] k.
Proof.
  intros H O W. unfold add_to_projection in H. cbv zeta in H. stx.
  match goal with H : nextval s = _ |- _ => apply nextval_ok in H as [-> ->] end.
  simpl in H. destruct (projections s !! ch_dimension_key c) as [p|] eqn:P; stx.
  - match goal with H : nextval _ = _ |- _ => apply nextval_ok in H as [-> ->] end.
    apply write_projection_ok in H as (V & -> & ->). split_and!; [done | |].
    + eapply (proj_ok_insert s); [done | done | by apply W | done].
    + intros k Q. rewrite value_of_insert, delta_of_one. simpl.
      destruct (teqb _ k) eqn:T; [|unfold value_of; simpl; lia]. apply teqb_spec in T as <-.
      unfold value_of. rewrite P. destruct (O _ _ P Q) as [-> _]. rewrite (W Q), teqb_refl. lia.
  - apply write_projection_ok in H as (V & -> & ->). split_and!; [done | |].
    + eapply (proj_ok_insert s); [done | done | by apply W | done].
    + intros k Q. rewrite value_of_insert, delta_of_one. simpl.
      destruct (teqb _ k) eqn:T; [|unfold value_of; simpl; lia]. apply teqb_spec in T as <-.
      unfold value_of. rewrite P. lia.
Qed.

Lemma take_ok c s r s' : take_from_projection c s = Ok (r, s') -> proj_ok s -> window_ok c ->
  ch_delta c <= 0 -> only_projections s s' /\ proj_ok s' /\
  forall k, is_quota k = true -> 0 <= value_of s k + delta_of [c] k ->
    value_of s' k = value_of s k + delta_of [c] k.
Proof.
  intros H O W D. unfold take_from_projection in H. cbv zeta in H. stx.
  destruct (projections s !! ch_dimension_key c) as [p|] eqn:P; stx.
  - match goal with H : nextval _ = _ |- _ => apply nextval_ok in H as [-> ->] end.
    match goal with H : write_projection _ _ _ = _ |- _ => apply write_projection_ok in H as (V & -> & ->) end.
    split_and!; [done | |].
    + eapply (proj_ok_insert s); [done | done | | done]. intros Q. by destruct (O _ _ P Q).
    + intros k Q N. rewrite value_of_insert. rewrite delta_of_one in *. simpl.
      destruct (teqb _ k) eqn:T; [|unfold value_of; simpl; lia]. apply teqb_spec in T as <-.
      unfold value_of in *. rewrite P in *. destruct (O _ _ P Q) as [-> _]. rewrite (W Q), teqb_refl. lia.
  - split_and!; [done | done |]. intros k Q N. rewrite delta_of_one in *.
    destruct (teqb _ k) eqn:T; [|lia]. apply teqb_spec in T as <-. unfold value_of in *. rewrite P in *. lia.
Qed.

Lemma adds_ok l : forall s rows s', for_each add_to_projection l s = Ok (rows, s') -> proj_ok s ->
  Forall window_ok l -> only_projections s s' /\ proj_ok s' /\
  forall k, is_quota k = true -> value_of s' k = value_of s k + delta_of l k.
Proof.
  induction l as [|c l IH]; intros s rows s' H O W; simpl in H.
  { stx. split_and!; [done | done |]. intros k _. unfold delta_of. simpl. lia. }
  inversion W as [|? ? W1 W2]; subst. stx.
  match goal with H : add_to_projection _ _ = _ |- _ => destruct (add_ok _ _ _ _ H O W1) as (S1 & O1 & V1) end.
  match goal with H : for_each _ _ _ = _ |- _ => destruct (IH _ _ _ H O1 W2) as (S2 & O2 & V2) end.
  split_and!; [by etransitivity | done |]. intros k Q. rewrite V2, V1 by done.
  rewrite delta_of_one, delta_of_cons. lia.
Qed.

Lemma delta_of_nonpos l k : Forall (fun c => ch_delta c <= 0) l -> delta_of l k <= 0.
Proof.
  induction 1 as [|c l H _ IH]; [done|]. rewrite delta_of_cons. destruct (teqb _ k); lia.
Qed.

Lemma takes_ok l : forall s rows s', for_each take_from_projection l s = Ok (rows, s') -> proj_ok s ->
  Forall window_ok l -> Forall (fun c => ch_delta c <= 0) l -> only_projections s s' /\ proj_ok s' /\
  forall k, is_quota k = true -> 0 <= value_of s k + delta_of l k ->
    value_of s' k = value_of s k + delta_of l k.
Proof.
  induction l as [|c l IH]; intros s rows s' H O W D; simpl in H.
  { stx. split_and!; [done | done |]. intros k _ _. unfold delta_of. simpl. lia. }
  inversion W as [|? ? W1 W2]; inversion D as [|? ? D1 D2]; subst. stx.
  match goal with H : take_from_projection _ _ = _ |- _ => destruct (take_ok _ _ _ _ H O W1 D1) as (S1 & O1 & V1) end.
  match goal with H : for_each _ _ _ = _ |- _ => destruct (IH _ _ _ H O1 W2 D2) as (S2 & O2 & V2) end.
  split_and!; [by etransitivity | done |]. intros k Q N. pose proof (delta_of_nonpos l k D2) as NP.
  rewrite delta_of_cons in *. specialize (V1 k Q). rewrite delta_of_one in V1.
  rewrite V2; [|done |]; rewrite V1; lia.
Qed.

Lemma change_ok busy l s rows s' : _change_projections busy l s = Ok (rows, s') -> proj_ok s ->
  Forall window_ok l -> only_projections s s' /\ proj_ok s' /\
  forall k, is_quota k = true -> 0 <= value_of s k + delta_of l k ->
    value_of s' k = value_of s k + delta_of l k.
Proof.
  intros H O W. unfold _change_projections in H. destruct l as [|c l].
  { stx. split_and!; [done | done |]. intros k _ _. unfold delta_of. simpl. lia. }
  stx.
  destruct (forallb (fun c => (0 <=? ch_delta c) && _ c) (c :: l)).
  - match goal with H : for_each add_to_projection _ _ = _ |- _ => destruct (adds_ok _ _ _ _ H O W) as (S & O' & V) end.
    split_and!; [done | done |]. intros k Q _. by apply V.
  - destruct (forallb _ (c :: l)) eqn:F; [|stx]. stx. rewrite forallb_forall in F.
    match goal with H : for_each take_from_projection _ _ = _ |- _ =>
      apply (takes_ok _ _ _ _ H O W) end.
    apply Forall_forall. intros y I. apply list_elem_of_In, F in I. bool_prop. done.
Qed.

(** ** Dates as keys *)

Lemma padded_digits s : forallb ascii_digit s = true -> padded (length s) (Redis.digits_value s) = s.
Proof.
  induction s as [|c s IH] using rev_ind; intros H; [done|].
  rewrite forallb_app in H. apply andb_true_iff in H as [H C]. simpl in C. unfold ascii_digit, between in C.
  bool_prop. rewrite length_app, Nat.add_1_r. cbn [padded]. unfold Redis.digits_value in *. rewrite foldl_app. simpl.
  set (v := foldl _ 0 s) in *.
  assert (D : (v * 10 + (c - 48)) / 10 = v) by (rewrite Z.div_add_l, Z.div_small; lia).
  assert (M : (v * 10 + (c - 48)) mod 10 = c - 48) by (rewrite Z.add_comm, Z.mod_add, Z.mod_small; lia).
  rewrite D, M, (IH H). f_equal. f_equal. lia.
Qed.

Lemma strptime_ymd s d : fullmatch DATE_KEY_PATTERN s = true -> strptime s = Ok d ->
  ymd d = s /\ length s = 8%nat.
Proof.
  intros M%fullmatch_spec P. apply lang_repeat in M as [L A]. split; [|done].
  unfold strptime in P. destruct (valid_date _); [|done]. injection P as <-. unfold ymd. cbn [year month day].
  assert (S : s = take 4 s ++ take 2 (drop 4 s) ++ drop 6 s).
  { rewrite <- (take_drop 4 s) at 1. f_equal. rewrite <- (take_drop 2 (drop 4 s)) at 1. by rewrite drop_drop. }
  assert (A1 := A). rewrite S, !forallb_app in A1. bool_prop.
  transitivity (take 4 s ++ take 2 (drop 4 s) ++ drop 6 s); [|by symmetry]. f_equal; [|f_equal].
  - rewrite <- (padded_digits (take 4 s)) at 2 by done. by rewrite length_take, L.
  - rewrite <- (padded_digits (take 2 (drop 4 s))) at 2 by done. by rewrite length_take, length_drop, L.
  - rewrite <- (padded_digits (drop 6 s)) at 2 by done. by rewrite length_drop, L.
Qed.

Lemma key_window_app p w : length w = 8%nat -> key_window (p ++ w) = w.
Proof. intros L. unfold key_window. rewrite length_app, L, Nat.add_sub. apply drop_app_length. Qed.

Lemma quota_specs_ok app_id dept category date_key d v k :
  (d, v, k) ∈ quota_specs app_id dept category date_key -> length date_key = 8%nat ->
  starts_with (dimension_prefix d) k = true /\ key_window k = date_key /\ is_quota k = true.
Proof.
  intros H L. unfold quota_specs in H.
  repeat (apply elem_of_cons in H as [[= -> -> ->] | H]); [| | |by apply elem_of_nil in H]; split_and!; try done.
  - unfold app_quota_key. rewrite !app_assoc. by apply key_window_app.
  - unfold dept_quota_key. rewrite !app_assoc. by apply key_window_app.
  - unfold volume_quota_key. rewrite !app_assoc. by apply key_window_app.
Qed.

(** ** Reserving quota *)

Definition good (s : db) : Prop := wf s /\ exact s.

Definition keeps {A} (m : tx_ A) : Prop := forall s x s', good s -> m s = Ok (x, s') -> good s'.

Lemma keeps_calm {A} (m : tx_ A) : within calm m -> keeps m.
Proof.
  intros W s x s' [O X] H. apply W in H. split; [by eapply calm_wf | by eapply calm_exact].
Qed.

Lemma prefix_quota d k : starts_with (dimension_prefix d) k = true -> is_quota k = true.
Proof.
  intros [r ->]%starts_with_spec. by destruct d.
Qed.

(** An entry of its dimension for a reservation that had none. *)
Lemma live_sum_insert s id d e k : quota_entries s !! (id, d) = None ->
  live_sum (set_quota_entries (<[(id, d) := e]>) s) k
  = live_sum s k + (if live_id s id && teqb (QuotaEntry.projection_key e) k
                    then QuotaEntry.amount e else 0).
Proof.
  intros N. unfold live_sum. change (held (set_quota_entries _ s) k) with (held s k). simpl.
  rewrite map_sum_new by done. unfold held at 1. simpl. lia.
Qed.

Lemma live_sum_update s id d e e' k : quota_entries s !! (id, d) = Some e ->
  QuotaEntry.projection_key e' = QuotaEntry.projection_key e ->
  live_sum (set_quota_entries (<[(id, d) := e']>) s) k
  = live_sum s k + (if live_id s id && teqb (QuotaEntry.projection_key e) k
                    then QuotaEntry.amount e' - QuotaEntry.amount e else 0).
Proof.
  intros N K. unfold live_sum. change (held (set_quota_entries _ s) k) with (held s k). simpl.
  rewrite (map_sum_update _ _ _ e) by done. unfold held at 2 3. simpl. rewrite K.
  destruct (live_id s id && _); lia.
Qed.

Lemma live_sum_nonneg s k : wf s -> 0 <= live_sum s k.
Proof.
  intros W. apply map_sum_nonneg. intros [id d] e E. unfold held. destruct (_ && _); [|done].
  by destruct (wf_entry s W id d e E).
Qed.

Lemma live_sum_projections s s' k : only_projections s s' -> live_sum s' k = live_sum s k.
Proof.
  intros [R E _ _]. unfold live_sum. rewrite E. apply map_sum_ext. intros x e _. unfold held, live_id. by rewrite R.
Qed.

Lemma wf_projections s s' : wf s -> only_projections s s' -> proj_ok s' -> wf s'.
Proof. intros W [R E F T] P. constructor; rewrite ?R, ?E, ?F; try apply W. done. Qed.

(** A fresh reservation of quota: its entries and its changes agree. *)
Definition spec_key (sp : Dimension.t * text * text) : text := let '(_, _, k) := sp in k.
Definition spec_dim (sp : Dimension.t * text * text) : Dimension.t := let '(d, _, _) := sp in d.

Lemma insert_entries_ok id ud cost exp date_key specs : forall s x s',
  for_each (insert_entry id ud cost exp) specs s = Ok (x, s') ->
  wf s -> NoDup (spec_dim <$> specs) -> (forall sp, sp ∈ specs -> quota_entries s !! (id, spec_dim sp) = None) ->
  0 <= cost -> is_Some (reservations s !! id) -> live_id s id = true ->
  (forall sp, sp ∈ specs -> starts_with (dimension_prefix (spec_dim sp)) (spec_key sp) = true /\
     key_window (spec_key sp) = ymd ud) ->
  wf s' /\ reservations s' = reservations s /\ projections s' = projections s /\ retired s' = retired s /\
  forall k, live_sum s' k = live_sum s k + delta_of (quota_changes ud date_key cost exp specs) k.
Proof.
  induction specs as [|[[d v] key] specs IH]; intros s x s' H W ND N C I L S; simpl in H.
  { stx. split_and!; try done. intros k. unfold delta_of. simpl. lia. }
  stx.
  apply NoDup_cons in ND as [ND1 ND2].
  destruct (S _ ltac:(apply list_elem_of_here)) as [P K]. simpl in P, K.
  pose proof (N _ ltac:(apply list_elem_of_here)) as N0. simpl in N0.
  match goal with H : for_each _ _ ?t = _ |- _ => set (s1 := t) in H; destruct (IH _ _ _ H) as (W' & R' & P' & T' & V') end;
    try done.
  - constructor; subst s1; simpl.
    + intros id' d' e' E'. apply lookup_insert_Some in E' as [[[= <- <-] <-] | [_ E']]; [done | by apply (wf_entry s W id')].
    + intros id' d' e' E'. apply lookup_insert_Some in E' as [[[= <- <-] <-] | [_ E']]; [done | by apply (wf_owner s W id' d' e')].
    + apply (wf_projection s W).
    + apply (wf_frequency s W).
  - intros sp J. subst s1. simpl. rewrite lookup_insert_ne.
    + apply N. by apply list_elem_of_further.
    + intros [= E]. apply ND1. simpl. rewrite E. apply list_elem_of_fmap. by exists sp.
  - intros sp J. apply S. by apply list_elem_of_further.
  - split_and!; try done. intros k. rewrite V'. subst s1. rewrite live_sum_insert by done.
    rewrite L. unfold quota_changes. rewrite fmap_cons, delta_of_cons.
    fold (quota_changes ud date_key cost exp specs). simpl. lia.
Qed.

Lemma value_of_calm s s' k : calm s s' -> is_quota k = true -> value_of s' k = value_of s k.
Proof. intros C Q. unfold value_of. by rewrite (ca_projections _ _ C k Q). Qed.

Lemma value_of_nonneg s k : wf s -> is_quota k = true -> 0 <= value_of s k.
Proof.
  intros W Q. unfold value_of. destruct (projections s !! k) as [p|] eqn:P; [|done].
  by destruct (wf_projection s W k p P Q).
Qed.

Lemma delta_of_nonneg l k : Forall (fun c => 0 <= ch_delta c) l -> 0 <= delta_of l k.
Proof. induction 1 as [|c l H _ IH]; [done|]. rewrite delta_of_cons. destruct (teqb _ k); lia. Qed.

Lemma write_quota_ok busy now id app_id dept category date_key ud cost al dl exp s rows s' :
  write_quota busy now id (quota_specs app_id dept category date_key) ud date_key cost al dl exp s
    = Ok (rows, s') ->
  wf s -> live_id s id = true -> entries_of id s = [] -> 0 <= cost -> ymd ud = date_key ->
  length date_key = 8%nat ->
  wf s' /\ retired s' = retired s /\
  forall k, is_quota k = true ->
    value_of s' k = value_of s k
      + delta_of (quota_changes ud date_key cost exp (quota_specs app_id dept category date_key)) k /\
    live_sum s' k = live_sum s k
      + delta_of (quota_changes ud date_key cost exp (quota_specs app_id dept category date_key)) k.
Proof.
  intros H W L N C U LD. unfold write_quota in H. stx.
  match goal with H : update_row _ _ _ s = Ok (_, ?t) |- _ =>
    assert (Ca : calm s t) by (eapply calm_update, H; done); set (s1 := t) in * end.
  pose proof (calm_wf _ _ W Ca) as W1.
  assert (L1 : live_id s1 id = true /\ is_Some (reservations s1 !! id)).
  { clear H. match goal with H : update_row _ _ _ s = _ |- _ => unfold update_row in H; stx end.
    unfold live_id in L. destruct (reservations s !! id) as [r|] eqn:R; [|done].
    subst s1. stx. unfold live_id. simpl. rewrite lookup_insert_eq. split; [exact L | by eexists]. }
  destruct L1 as [L1 I1]. pose proof (entries_of_nil _ _ N) as N0.
  match goal with H : for_each _ _ s1 = Ok (_, ?t) |- _ => set (s2 := t) in *;
    destruct (insert_entries_ok id ud cost exp date_key _ _ _ _ H W1) as (W2 & R2 & P2 & T2 & V2) end; try done.
  { simpl. repeat constructor; set_solver. }
  { intros sp _. rewrite (ca_entries _ _ Ca). apply N0. }
  { intros [[d v] k] J. destruct (quota_specs_ok _ _ _ _ _ _ _ J LD) as (? & ? & _). by rewrite U. }
  destruct (change_ok _ _ _ _ _ H) as (S3 & O3 & V3).
  { exact (wf_projection _ W2). }
  { apply Forall_fmap, Forall_forall. intros [[d v] k] J _. simpl.
    by destruct (quota_specs_ok _ _ _ _ _ _ _ J LD) as (_ & ? & _). }
  pose proof (wf_projections _ _ W2 S3 O3) as W3. split; [done|]. split.
  { by rewrite (op_retired _ _ S3), T2, (ca_retired _ _ Ca). }
  intros k Q.
  assert (D : 0 <= delta_of (quota_changes ud date_key cost exp (quota_specs app_id dept category date_key)) k).
  { apply delta_of_nonneg. unfold quota_changes, quota_specs. simpl. by repeat constructor. }
  assert (V : value_of s2 k = value_of s k).
  { transitivity (value_of s1 k); [unfold value_of; by rewrite P2 | by apply value_of_calm]. }
  pose proof (value_of_nonneg s k W Q). split.
  - rewrite V3, V; [done | done | lia].
  - by rewrite (live_sum_projections _ _ k S3), V2, (calm_sum s s1 k W Ca).
Qed.

Lemma keeps_reserve busy now id app_id dept category date_key ud cost al dl exp :
  check_quota category date_key cost al dl = Ok tt -> strptime date_key = Ok ud ->
  keeps (reserve_quota busy now id app_id dept category date_key ud cost al dl exp).
Proof.
  intros C P s rows s' [W X] H. unfold check_quota in C. apply refuse_ok in C. bool_prop.
  destruct (strptime_ymd _ _ ltac:(eassumption) P) as [U LD].
  unfold reserve_quota in H. stx. destruct (reservations s !! id) as [r|] eqn:R; [|done].
  destruct (in_state UsageState.reserved r) eqn:I; [|done].
  destruct (entries_of id s) as [|p l] eqn:E; stx; [|done].
  assert (L : live_id s id = true).
  { unfold live_id, live. rewrite R. unfold in_state in I. bool_prop. by rewrite I. }
  destruct (write_quota_ok _ _ _ _ _ _ _ _ _ _ _ _ _ _ _ H) as (W' & T & V); try done.
  split; [done|]. intros k Q N. destruct (V k Q) as [-> ->]. rewrite (X k Q); [done|]. by rewrite <- T.
Qed.

(** ** Releasing *)

Definition fact_sum (l : list fact) (k : text) : Z :=
  sumZ (fa_amount <$> List.filter (fun f => teqb (fa_key f) k) l).

Lemma fact_sum_cons f l k :
  fact_sum (f :: l) k = (if teqb (fa_key f) k then fa_amount f else 0) + fact_sum l k.
Proof. unfold fact_sum. simpl. by destruct (teqb _ k). Qed.

Lemma add_fact_sum f l k : fact_sum (add_fact f l) k = fact_sum (f :: l) k.
Proof.
  induction l as [|g l IH]; [done|]. simpl. destruct (same_group f g) eqn:G.
  - unfold same_group in G. bool_prop. repeat match goal with H : teqb _ _ = true |- _ => apply teqb_spec in H end.
    rewrite !fact_sum_cons. simpl. match goal with H : fa_key f = fa_key g |- _ => rewrite H end.
    destruct (teqb _ k); lia.
  - rewrite fact_sum_cons, IH, !fact_sum_cons. lia.
Qed.

Lemma group_facts_sum l k : fact_sum (group_facts l) k = fact_sum l k.
Proof.
  induction l as [|f l IH]; [done|]. unfold group_facts in *. simpl. rewrite add_fact_sum, !fact_sum_cons, IH. done.
Qed.

(** A property of the facts that does not look at amounts and ends. *)
Lemma add_fact_all (P : fact -> Prop) f l :
  (forall f g a x, P f -> P g -> 0 <= fa_amount f -> 0 <= fa_amount g -> a = fa_amount g + fa_amount f ->
     P (mkFact (fa_key g) (fa_kind g) (fa_date g) (fa_window g) a x)) ->
  P f -> 0 <= fa_amount f -> Forall (fun g => P g /\ 0 <= fa_amount g) l ->
  Forall (fun g => P g /\ 0 <= fa_amount g) (add_fact f l).
Proof.
  intros S Pf Af. induction 1 as [|g l [Pg Ag] Hl IH]; simpl; [by repeat constructor|].
  destruct (same_group f g); constructor; try done. simpl. split; [by apply (S f g) | lia].
Qed.

Lemma group_facts_all (P : fact -> Prop) l :
  (forall f g a x, P f -> P g -> 0 <= fa_amount f -> 0 <= fa_amount g -> a = fa_amount g + fa_amount f ->
     P (mkFact (fa_key g) (fa_kind g) (fa_date g) (fa_window g) a x)) ->
  Forall (fun g => P g /\ 0 <= fa_amount g) l ->
  Forall (fun g => P g /\ 0 <= fa_amount g) (group_facts l).
Proof.
  intros S. induction 1 as [|f l [Pf Af] _ IH]; [done|]. unfold group_facts in *. simpl. by apply add_fact_all.
Qed.

(** A fact of a quota dimension is of its day; one of frequency is of no quota. *)
Definition fact_ok (f : fact) : Prop :=
  (is_quota (fa_key f) = true -> fa_window f = key_window (fa_key f)) /\
  (fa_kind f = ProjectionKind.frequency -> is_quota (fa_key f) = false).

Lemma entries_of_in id s d e : (d, e) ∈ entries_of id s <-> quota_entries s !! (id, d) = Some e.
Proof.
  unfold entries_of. rewrite list_elem_of_omap. split.
  - intros (d' & _ & H). destruct (quota_entries s !! (id, d')) eqn:E; [|done]. by injection H as -> ->.
  - intros E. exists d. rewrite E. split; [|done]. unfold DIMENSIONS. destruct d; set_solver.
Qed.

Lemma facts_ok id s : wf s -> Forall (fun f => fact_ok f /\ 0 <= fa_amount f) (facts_of id s).
Proof.
  intros W. apply Forall_app. split; apply Forall_fmap, Forall_forall.
  - intros [d e] E%entries_of_in. destruct (wf_entry s W _ _ _ E) as (A & P & K). simpl.
    split; [|done]. split; [done|]. done.
  - intros [[[r sub] w] e] [E _]%filter_in. apply elem_of_map_to_list in E.
    pose proof (wf_frequency s W _ _ E) as F. simpl. split; [|by destruct (FrequencyEntry.counted e)].
    split; simpl; congruence.
Qed.

Lemma release_facts_ok id s : wf s ->
  Forall (fun f => fact_ok f /\ 0 <= fa_amount f) (group_facts (facts_of id s)).
Proof. intros W. apply group_facts_all; [|by apply facts_ok]. intros f g a x _ [G1 G2] _ _ _. done. Qed.

Definition own (s : db) (id k : text) : Z :=
  sumZ ((fun p : Dimension.t * QuotaEntry.t =>
           if teqb (QuotaEntry.projection_key (snd p)) k then QuotaEntry.amount (snd p) else 0)
        <$> entries_of id s).

Lemma facts_sum id s k : wf s -> is_quota k = true -> fact_sum (facts_of id s) k = own s id k.
Proof.
  intros W Q. unfold facts_of, own.
  assert (A : forall l1 l2, fact_sum (l1 ++ l2) k = fact_sum l1 k + fact_sum l2 k).
  { induction l1 as [|f l1 IH]; intros l2; [done|]. simpl. rewrite !fact_sum_cons, IH. lia. }
  rewrite A. assert (F : fact_sum ((fun p => frequency_fact (snd p)) <$> frequency_of id s) k = 0).
  { assert (G : forall l, (forall f, f ∈ l -> fa_key f <> k) -> fact_sum l k = 0).
    { induction l as [|f l IH]; intros H; [done|]. rewrite fact_sum_cons, IH.
      - destruct (teqb (fa_key f) k) eqn:T; [|done]. apply teqb_spec in T. by destruct (H f (list_elem_of_here _ _)).
      - intros g I. apply H. by apply list_elem_of_further. }
    apply G. intros f ([[[r sub] w] e] & -> & [E _]%filter_in)%list_elem_of_fmap.
    apply elem_of_map_to_list in E. pose proof (wf_frequency s W _ _ E) as N. simpl. intros <-. congruence. }
  rewrite F, Z.add_0_r. generalize (entries_of id s) as l. induction l as [|[d e] l IH]; [done|].
  rewrite !fmap_cons, fact_sum_cons, IH. done.
Qed.

Lemma own_map_sum s id k :
  map_sum (fun (x : text * Dimension.t) e => if teqb (fst x) id && teqb (QuotaEntry.projection_key e) k
                   then QuotaEntry.amount e else 0) (quota_entries s) = own s id k.
Proof.
  set (f := fun (x : text * Dimension.t) e => _).
  assert (D : forall m d, map_sum f m = map_sum f (delete (id, d) m) +
    match m !! (id, d) with
    | Some e => if teqb (QuotaEntry.projection_key e) k then QuotaEntry.amount e else 0
    | None => 0
    end).
  { intros m d. destruct (m !! (id, d)) as [e|] eqn:E.
    - rewrite (map_sum_split f m _ _ E). subst f. simpl. rewrite teqb_refl. simpl. lia.
    - rewrite delete_id by done. lia. }
  rewrite (D _ Dimension.app), (D _ Dimension.dept), (D _ Dimension.volume).
  rewrite map_sum_zero.
  - unfold own, entries_of. simpl. rewrite !lookup_delete_ne by done.
    destruct (quota_entries s !! (id, Dimension.app)), (quota_entries s !! (id, Dimension.dept)),
      (quota_entries s !! (id, Dimension.volume)); simpl; lia.
  - intros [id' d] e (N1 & (N2 & (N3 & _)%lookup_delete_Some)%lookup_delete_Some)%lookup_delete_Some.
    subst f. simpl. destruct (teqb id' id) eqn:T; [|done]. apply teqb_spec in T as ->. by destruct d.
Qed.

(** A reservation that is no longer open gives back what it held. *)
Lemma live_sum_closed s s' id k : quota_entries s' = quota_entries s -> live_id s id = true ->
  live_id s' id = false -> (forall id', id' <> id -> live_id s' id' = live_id s id') ->
  live_sum s' k = live_sum s k - own s id k.
Proof.
  intros E L N O. rewrite <- own_map_sum. unfold live_sum. rewrite E.
  set (g := fun (x : text * Dimension.t) e => _). symmetry. apply Z.sub_move_r. symmetry.
  rewrite <- map_sum_add. apply map_sum_ext. intros [id' d] e _. subst g. unfold held. simpl.
  destruct (teqb id' id) eqn:T.
  - apply teqb_spec in T as ->. rewrite L, N. simpl. destruct (teqb _ k); lia.
  - apply teqb_false in T. rewrite O by done. simpl. lia.
Qed.

Lemma own_le s id k : wf s -> live_id s id = true -> own s id k <= live_sum s k.
Proof.
  intros W L. rewrite <- own_map_sum. unfold live_sum. set (g := fun (x : text * Dimension.t) e => _).
  assert (0 <= map_sum (fun x e => held s k x e - g x e) (quota_entries s)).
  { apply map_sum_nonneg. intros [id' d] e E. subst g. unfold held. simpl.
    destruct (wf_entry s W _ _ _ E) as [A _].
    destruct (teqb id' id) eqn:T; [apply teqb_spec in T as ->; rewrite L; simpl; destruct (teqb _ k); lia|].
    simpl. destruct (_ && _); lia. }
  assert (X : map_sum (held s k) (quota_entries s)
    = map_sum (fun x e => held s k x e - g x e) (quota_entries s) + map_sum g (quota_entries s)).
  { rewrite <- map_sum_add. apply map_sum_ext. intros x e _. lia. }
  lia.
Qed.

Definition change_ok_kind (c : _ProjectionChange) : Prop :=
  window_ok c /\ (ch_kind c = ProjectionKind.frequency -> is_quota (ch_dimension_key c) = false).

Lemma collect_ok id s : wf s ->
  Forall change_ok_kind (_collect_release_projection_changes id s) /\
  forall k, is_quota k = true -> delta_of (_collect_release_projection_changes id s) k = - own s id k.
Proof.
  intros W. pose proof (release_facts_ok id s W) as F. split.
  - unfold _collect_release_projection_changes. apply Forall_fmap, Forall_forall. intros f [I _]%filter_in.
    rewrite Forall_forall in F. destruct (F f I) as [[K N] _]. split; done.
  - intros k Q. rewrite <- (facts_sum id s k W Q), <- group_facts_sum.
    unfold _collect_release_projection_changes. revert F. generalize (group_facts (facts_of id s)) as l.
    induction 1 as [|f l [_ A] _ IH]; [done|]. rewrite fact_sum_cons. simpl.
    destruct (Z.ltb_spec 0 (fa_amount f)).
    + rewrite fmap_cons, delta_of_cons, IH. simpl. destruct (teqb _ k); lia.
    + rewrite IH. replace (fa_amount f) with 0 by lia. destruct (teqb _ k); lia.
Qed.

Lemma applicable_ok existing now l : forall todo, applicable existing now l = Ok todo ->
  Forall change_ok_kind l -> Forall window_ok todo /\
  forall k, is_quota k = true -> delta_of todo k = delta_of l k.
Proof.
  induction l as [|c l IH]; intros todo H F; simpl in H; [by injection H as <-|].
  inversion F as [|? ? [Wc Kc] F2]; subst.
  apply bind_ok in H as (b & B & H). apply bind_ok in H as (rest & R & [= <-]).
  destruct (IH _ R F2) as [W2 V2]. destruct b; split; [by constructor | | done |].
  - intros k Q. by rewrite !delta_of_cons, V2.
  - intros k Q. rewrite delta_of_cons, V2 by done. unfold _release_change_should_apply in B.
    destruct (tmem _ _); [done|]. destruct (bool_decide (_ = ProjectionKind.frequency)) eqn:K; [|done].
    bool_prop. destruct (teqb (ch_dimension_key c) k) eqn:T; [|lia]. apply teqb_spec in T as <-.
    rewrite Kc in Q by done. done.
Qed.

Lemma apply_release_ok busy now id s rows s' :
  _apply_release_projection_changes busy now id s = Ok (rows, s') -> wf s ->
  only_projections s s' /\ proj_ok s' /\
  forall k, is_quota k = true -> 0 <= value_of s k - own s id k -> value_of s' k = value_of s k - own s id k.
Proof.
  intros H W. unfold _apply_release_projection_changes in H. stx.
  destruct (collect_ok id s W) as [F D].
  match goal with H : applicable _ _ _ = Ok _ |- _ => destruct (applicable_ok _ _ _ _ H F) as [Wt Dt] end.
  destruct (change_ok _ _ _ _ _ H (wf_projection s W) Wt) as (S & O & V).
  split_and!; [done | done |]. intros k Q N. rewrite V, Dt, D by (rewrite ?Dt, ?D; lia || done). lia.
Qed.

(** An open reservation is closed and its amounts leave the projections. *)
Lemma close_ok busy now id event_id s r s2 s3 b rows :
  good s -> reservations s !! id = Some r -> live r = true ->
  update_row id (fun _ => true) (request_release_row now event_id) s = Ok (b, s2) ->
  _apply_release_projection_changes busy now id s2 = Ok (rows, s3) -> good s3.
Proof.
  intros [W X] R L U A. unfold update_row in U. stx. rewrite R in U. stx.
  set (s1 := set_reservations _ s) in *.
  assert (W1 : wf s1).
  { constructor; try apply W. intros id' d e E. destruct (wf_owner s W id' d e E) as [r' R'].
    subst s1. simpl. destruct (decide (id' = id)) as [->|N];
      [rewrite lookup_insert_eq | rewrite lookup_insert_ne by done]; eauto. }
  destruct (apply_release_ok _ _ _ _ _ _ A W1) as (S2 & O2 & V2).
  split; [by eapply wf_projections|]. intros k Q T.
  assert (Li : live_id s id = true) by (unfold live_id; by rewrite R).
  assert (OW : own s1 id k = own s id k) by done.
  assert (V1 : value_of s1 k = value_of s k) by done.
  assert (XK : value_of s k = live_sum s k).
  { apply X; [done|]. by rewrite (op_retired _ _ S2) in T. }
  pose proof (own_le s id k W Li). rewrite V2, OW, V1 by (rewrite ?OW, ?V1; lia || done).
  rewrite (live_sum_projections _ _ k S2), (live_sum_closed s s1 id k); try done.
  - lia.
  - unfold live_id. simpl. rewrite lookup_insert_eq. done.
  - intros id' N. unfold live_id. simpl. by rewrite lookup_insert_ne.
Qed.

Lemma keeps_release busy now ambient id event_id : keeps (_request_release busy now ambient id event_id).
Proof.
  intros s [b rows] s' G H. unfold _request_release in H. stx.
  destruct (reservations s !! id) as [r|] eqn:R; [|stx].
  destruct (UsageRow.state r) eqn:ST; cbv zeta in H; stx; subst; try done;
    match goal with H : in_outbox _ _ = _ |- _ => apply (keeps_calm _ (calm_outbox _)) in H; [done|] end;
    try done; (eapply close_ok; [done | done | unfold live; by rewrite ST | done | done]).
Qed.

Lemma keeps_release_batch busy now ambient batch event_id :
  keeps (request_usage_release_for_batch busy now ambient batch event_id).
Proof.
  intros s b s' G H. unfold request_usage_release_for_batch in H. stx.
  destruct (batches s !! batch) as [[id|]|]; stx; try done.
  match goal with H : _request_release _ _ _ _ _ _ = _ |- _ => by apply keeps_release in H end.
Qed.

Lemma keeps_release_unlinked busy now ambient id event_id :
  keeps (request_unlinked_release busy now ambient id event_id).
Proof.
  intros s b s' G H. unfold request_unlinked_release in H. stx.
  destruct (reservations s !! id); stx. destruct (bool_decide _); stx; [done|].
  match goal with H : _request_release _ _ _ _ _ _ = _ |- _ => by apply keeps_release in H end.
Qed.

(** ** One recipient excluded *)

Lemma cut_entry_keeps_wf s id d e a : wf s -> quota_entries s !! (id, d) = Some e -> a <= QuotaEntry.amount e ->
  wf (set_quota_entries (<[(id, d) := set_amount (QuotaEntry.amount e - a) e]>) s).
Proof.
  intros W E A. destruct (wf_entry s W _ _ _ E) as (_ & P & K). constructor; simpl.
  - intros id' d' e' E'. apply lookup_insert_Some in E' as [[[= <- <-] <-] | [_ E']]; simpl.
    + split_and!; [lia | done | done].
    + by apply (wf_entry s W id').
  - intros id' d' e' E'. apply lookup_insert_Some in E' as [[[= <- <-] <-] | [_ E']]; by eapply (wf_owner s W).
  - apply (wf_projection s W).
  - apply (wf_frequency s W).
Qed.

Definition cut_dim (c : Dimension.t * QuotaEntry.t * Z) : Dimension.t := fst (fst c).
Definition cut_ok (s : db) (id : text) (c : Dimension.t * QuotaEntry.t * Z) : Prop :=
  quota_entries s !! (id, cut_dim c) = Some (snd (fst c)) /\ snd c <= QuotaEntry.amount (snd (fst c)).

Lemma cut_entries_ok id l : forall s changes s', for_each (cut_entry id) l s = Ok (changes, s') ->
  wf s -> live_id s id = true -> NoDup (cut_dim <$> l) -> Forall (cut_ok s id) l ->
  wf s' /\ reservations s' = reservations s /\ projections s' = projections s /\ retired s' = retired s /\
  Forall window_ok changes /\ forall k, live_sum s' k = live_sum s k + delta_of changes k.
Proof.
  induction l as [|[[d e] a] l IH]; intros s changes s' H W L ND F; simpl in H.
  { stx. split_and!; try done. intros k. unfold delta_of. simpl. lia. }
  stx. apply NoDup_cons in ND as [ND1 ND2]. apply Forall_cons in F as [[E A] F]. simpl in E, A.
  match goal with H : for_each _ _ ?t = _ |- _ => set (s1 := t) in H;
    destruct (IH _ _ _ H) as (W' & R' & P' & T' & O' & V') end; try done.
  - by apply cut_entry_keeps_wf.
  - rewrite Forall_forall in F. apply Forall_forall. intros c I. destruct (F c I) as [E2 A2]. split; [|done].
    subst s1. simpl. rewrite lookup_insert_ne; [done|]. intros [= X]. apply ND1. apply list_elem_of_fmap.
    by exists c.
  - split_and!; try done.
    + constructor; [|done]. intros _. simpl. symmetry. by apply (wf_entry s W id d e).
    + intros k. rewrite V', delta_of_cons. subst s1. rewrite (live_sum_update s id d e) by done. rewrite L. simpl.
      destruct (teqb _ k); lia.
Qed.

Lemma quota_cut_ok id segments s : Forall (cut_ok s id) (quota_cut segments (entries_of id s)) /\
  NoDup (cut_dim <$> quota_cut segments (entries_of id s)).
Proof.
  split.
  - apply Forall_forall. intros c [I _]%filter_in. apply list_elem_of_fmap in I as ([d e] & -> & I).
    split; simpl; [by apply entries_of_in | lia].
  - unfold quota_cut, entries_of, DIMENSIONS. simpl.
    destruct (quota_entries s !! (id, Dimension.app)), (quota_entries s !! (id, Dimension.dept)),
      (quota_entries s !! (id, Dimension.volume)); simpl;
      repeat match goal with |- context [0 <? ?x] => destruct (0 <? x) end; simpl;
      repeat (apply NoDup_cons; split; [set_solver|]); apply NoDup_nil_2.
Qed.

Definition plain (c : _ProjectionChange) : Prop := is_quota (ch_dimension_key c) = false.

Lemma uncount_ok id subject w s cs s' : uncount_entry id subject w s = Ok (cs, s') -> freq_ok s ->
  calm s s' /\ Forall plain cs.
Proof.
  intros H F. unfold uncount_entry in H. stx.
  destruct (frequency_entries s !! (id, subject, w)) as [e|] eqn:E; [|by stx].
  destruct (FrequencyEntry.counted e); stx; [|done]. split; [|by constructor; [eapply F|]].
  apply calm_same; try done. intros _ x e' I. simpl in I.
  apply lookup_insert_Some in I as [[_ <-] | [_ I]]; [by apply (F _ _ E) | by apply (F _ _ I)].
Qed.

Lemma uncounts_ok id subject l : forall s cs s', for_each (uncount_entry id subject) l s = Ok (cs, s') ->
  freq_ok s -> calm s s' /\ Forall plain (concat cs).
Proof.
  induction l as [|w l IH]; intros s cs s' H F; simpl in H; stx; [done|].
  match goal with H : uncount_entry _ _ _ _ = _ |- _ => destruct (uncount_ok _ _ _ _ _ _ H F) as [C1 P1] end.
  match goal with H : for_each _ _ _ = _ |- _ => destruct (IH _ _ _ H (ca_frequency _ _ C1 F)) as [C2 P2] end.
  split; [by etrans|]. simpl. by apply Forall_app.
Qed.

Lemma plain_delta l k : Forall plain l -> is_quota k = true -> delta_of l k = 0.
Proof.
  intros F Q. induction F as [|c l P _ IH]; [done|]. rewrite delta_of_cons, IH.
  destruct (teqb _ k) eqn:T; [|done]. apply teqb_spec in T. unfold plain in P. congruence.
Qed.

Lemma merge_change_delta c l k : delta_of (merge_change c l) k = delta_of (c :: l) k.
Proof.
  induction l as [|d l IH]; [done|]. simpl. destruct (teqb (ch_dimension_key d) _) eqn:T.
  - apply teqb_spec in T. rewrite !delta_of_cons. simpl. rewrite T. destruct (teqb _ k); lia.
  - rewrite delta_of_cons, IH, !delta_of_cons. lia.
Qed.

Lemma merge_change_ok c l : window_ok c -> Forall window_ok l -> Forall window_ok (merge_change c l).
Proof.
  intros C F. induction F as [|d l D F IH]; simpl; [by constructor|].
  destruct (teqb (ch_dimension_key d) _); by constructor.
Qed.

Lemma unique_changes_ok l : Forall window_ok l ->
  Forall window_ok (_unique_changes l) /\ forall k, delta_of (_unique_changes l) k = delta_of l k.
Proof.
  intros F. unfold _unique_changes.
  assert (G : forall acc, Forall window_ok acc ->
    Forall window_ok (foldl (fun acc c => merge_change c acc) acc l) /\
    forall k, delta_of (foldl (fun acc c => merge_change c acc) acc l) k = delta_of acc k + delta_of l k).
  { induction F as [|c l C F IH]; intros acc A; simpl; [split; [done|]; intros k; unfold delta_of at 3; simpl; lia|].
    destruct (IH _ (merge_change_ok c acc C A)) as [W V]. split; [done|]. intros k.
    rewrite V, merge_change_delta, !delta_of_cons. lia. }
  destruct (G [] (Forall_nil_2 _)) as [W V]. split; [done|]. intros k. by rewrite V.
Qed.

Lemma live_releasable r : releasable r = true -> live r = true.
Proof.
  unfold releasable, in_state, live. intros H. bool_prop.
  by match goal with H : _ \/ _ |- _ => destruct H as [H|H]; bool_prop; rewrite H end.
Qed.

(** What the cuts and the uncounted entries leave to be taken from the projections. *)
Lemma cuts_ok id segments s quota s1 frequency s2 (ws : option text) :
  good s -> live_id s id = true ->
  for_each (cut_entry id) (quota_cut segments (entries_of id s)) s = Ok (quota, s1) ->
  match ws with
  | Some subject => for_each (uncount_entry id subject) [WindowKind.minute; WindowKind.day] s1
  | None => Ok ([], s1)
  end = Ok (frequency, s2) ->
  wf s2 /\ Forall window_ok (_unique_changes (quota ++ concat frequency)) /\
  forall k, is_quota k = true -> k ∉ retired s2 ->
    live_sum s2 k = value_of s2 k + delta_of (_unique_changes (quota ++ concat frequency)) k.
Proof.
  intros [W X] L Q F. destruct (quota_cut_ok id segments s) as [O D].
  destruct (cut_entries_ok id _ _ _ _ Q W L D O) as (W1 & R1 & P1 & T1 & F1 & V1).
  assert (C : calm s1 s2 /\ Forall plain (concat frequency)).
  { destruct ws as [subject|]; [exact (uncounts_ok _ _ _ _ _ _ F (wf_frequency _ W1)) | by injection F as <- <-]. }
  destruct C as [C P]. pose proof (calm_wf _ _ W1 C) as W2. split; [done|].
  assert (A : Forall window_ok (quota ++ concat frequency)).
  { apply Forall_app. split; [done|]. eapply Forall_impl; [done|]. intros c N ?. unfold plain in N. congruence. }
  destruct (unique_changes_ok _ A) as [U V]. split; [done|]. intros k K N.
  rewrite V, delta_of_app, (plain_delta _ k P K), (calm_sum _ _ k W1 C), V1.
  assert (E : value_of s2 k = value_of s k) by (unfold value_of; by rewrite (ca_projections _ _ C k K), P1).
  rewrite E, (X k K); [lia|]. by rewrite <- T1, <- (ca_retired _ _ C).
Qed.

Lemma keeps_release_one busy ref phone segments : keeps (_release_one busy ref phone segments).
Proof.
  intros s b s' G H. unfold _release_one in H. destruct ref as [id|]; [|by stx].
  destruct (segments <? 1); [by stx|]. stx.
  destruct (reservations s !! id) as [r|] eqn:R; [|simpl in H; by stx].
  destruct (releasable r) eqn:RE; [|simpl in H; by stx]. simpl in H. stx.
  assert (L : live_id s id = true) by (unfold live_id; rewrite R; by apply live_releasable).
  match goal with
  | Q : for_each (cut_entry _) _ _ = _, F : _ = Ok (?l, ?s2) |- _ =>
      destruct (cuts_ok _ _ _ _ _ l s2 (fst <$> aliases s !! phone) G L Q) as (W2 & U & V);
        [revert F; destruct (aliases s !! phone) as [[? ?]|]; exact (fun E => E)|]
  end.
  destruct (_unique_changes _) as [|c l] eqn:E in H, U, V; stx.
  - split; [done|]. intros k K N. rewrite (V k K N). unfold delta_of. simpl. lia.
  - match goal with H : _change_projections _ _ _ = _ |- _ =>
      destruct (change_ok _ _ _ _ _ H (wf_projection _ W2) U) as (S3 & O3 & V3) end.
    split; [by eapply wf_projections|]. intros k K N. rewrite (op_retired _ _ S3) in N.
    rewrite (live_sum_projections _ _ k S3), (V k K N). apply V3; [done|]. rewrite <- (V k K N).
    by apply live_sum_nonneg.
Qed.
(** ** Retention *)

Lemma keeps_for_each {A B} (f : A -> tx_ B) l : (forall x, keeps (f x)) -> keeps (for_each f l).
Proof.
  intros K. induction l as [|x l IH]; intros s ys s' G H; simpl in H; stx; [done|].
  match goal with H : f _ _ = _ |- _ => apply (K _ _ _ _ G) in H end.
  match goal with H : for_each _ _ _ = _ |- _ => by eapply IH in H end.
Qed.

Lemma keeps_delete_quota cutoff days k : keeps (delete_quota_entry cutoff days k).
Proof.
  intros s x s' [W X] H. destruct k as [id d]. unfold delete_quota_entry in H. stx.
  destruct (quota_entries s !! (id, d)) as [e|] eqn:E; [|by stx].
  destruct (eligible_id _ _ _ _); [|by stx]. stx. split.
  - constructor; simpl.
    + intros id' d' e' [_ L]%lookup_delete_Some. by apply (wf_entry s W id').
    + intros id' d' e' [_ L]%lookup_delete_Some. by eapply (wf_owner s W).
    + apply (wf_projection s W).
    + apply (wf_frequency s W).
  - intros k Q N. simpl in N. apply not_elem_of_cons in N as [N1 N2].
    change (value_of s k = map_sum (held s k) (delete (id, d) (quota_entries s))).
    rewrite (X k Q N2). unfold live_sum. rewrite (map_sum_split _ _ _ _ E).
    replace (held s k (id, d) e) with 0; [lia|]. unfold held.
    destruct (teqb (QuotaEntry.projection_key e) k) eqn:T; [apply teqb_spec in T; congruence|].
    by rewrite andb_false_r.
Qed.

Lemma keeps_delete_projection cutoff days k : keeps (delete_projection cutoff days k).
Proof.
  intros s x s' [W X] H. unfold delete_projection in H. stx.
  destruct (projections s !! k) as [p|] eqn:E; [|by stx]. destruct (_ <? _); [|by stx]. stx. split.
  - constructor; try apply W. simpl. intros k' p' [_ L]%lookup_delete_Some. by apply (wf_projection s W).
  - intros k' Q N. simpl in N. apply not_elem_of_cons in N as [N1 N2].
    transitivity (value_of s k'); [|exact (X k' Q N2)]. unfold value_of. simpl. by rewrite lookup_delete_ne.
Qed.

Lemma keeps_cleanup_quota cutoff days due : keeps (cleanup_quota cutoff days due).
Proof. apply keeps_for_each. intros k. apply keeps_delete_quota. Qed.

Lemma keeps_cleanup_projections cutoff days due : keeps (cleanup_projections cutoff days due).
Proof. apply keeps_for_each. intros k. apply keeps_delete_projection. Qed.
End UsageSafety.
