(* ===== verification/UsageLedger.v ===== *)
(** * The usage ledger under every sequence of transactions

    The transactions that touch the ledger, as one list of operations in the
    order in which the database commits them, and what holds after any such
    list: the quota of a day is what its open reservations hold, a reservation
    is refused exactly when a limit would be passed, and a frequency decision
    counts a recipient once per window. *)

From stdpp Require Import sorting.
From S2P Require Import Prelude PyText Outbox Category Redis UsageStore UsageFrequency UsageSafety.

Module UsageLedger.
Import Calendar UsageStore UsageFrequency UsageSafety.

(** ** Transactions *)

Inductive op :=
| OpStart (now : Z) (id request_key : text) (app_id : Z) (subject_kind dept category : text)
    (usage_date : date)
| OpReserveQuota (busy : bool) (now : Z) (id : text) (app_id : Z) (dept category date_key : text)
    (cost app_limit dept_limit expires_at : Z)
| OpAllowFrequency (busy : bool) (now : Z) (uuid4 : text -> text) (id category : text) (app_id : Z)
    (items : list FrequencyDecisionItem) (limits : FrequencyLimits) (windows : text * Z * text * date * Z)
| OpMarkUncertain (now : Z) (id error_type : text)
| OpAccept (now batch_id : Z) (ref : option text)
| OpReleaseBatch (busy : bool) (now : Z) (ambient : option Z) (batch_id : Z) (event_id : text)
| OpReleaseUnlinked (busy : bool) (now : Z) (ambient : option Z) (id event_id : text)
| OpFinishRelease (now : Z) (id : text)
| OpExclude (busy : bool) (ref : option text) (phone_hmac : text) (segments : Z)
| OpCleanupQuota (cutoff usage_days : Z) (due : list (text * Dimension.t))
| OpCleanupFrequency (cutoff usage_days : Z) (due : list (text * text * WindowKind.t))
| OpCleanupReservations (cutoff usage_days : Z) (due : list text)
| OpCleanupProjections (cutoff usage_days : Z) (due : list text)
| OpCleanupAliases (due : list text)
| OpCleanupSubjects (due : list text)
| OpOutside (chunks : list text) (events : Outbox.db).

Definition void {A} (m : tx_ A) : tx_ unit := _ ← m; mret tt.

(** The chunk allocations and the outbox also change outside the ledger. *)
Definition outside (chunks : list text) (events : Outbox.db) : tx_ unit :=
  modify (fun s => mkDb (reservations s) (quota_entries s) (frequency_entries s) (projections s)
                     (subjects s) (aliases s) (batches s) chunks (version_seq s) events (retired s)).

Definition transaction_of (o : op) : tx_ unit :=
  match o with
  | OpStart now id k app_id kind dept category d => void (start_round now id k app_id kind dept category d)
  | OpReserveQuota busy now id app_id dept category date_key cost al dl x =>
      _ ← lift (check_quota category date_key cost al dl);
      d ← lift (strptime date_key);
      void (reserve_quota busy now id app_id dept category date_key d cost al dl x)
  | OpAllowFrequency busy now uuid4 id category app_id items limits windows =>
      void (_allow_frequency_chunk busy now uuid4 id category app_id items limits windows)
  | OpMarkUncertain now id e => _mark_uncertain now id e
  | OpAccept now batch ref => accept_batch now batch ref
  | OpReleaseBatch busy now ambient batch e => void (request_usage_release_for_batch busy now ambient batch e)
  | OpReleaseUnlinked busy now ambient id e => void (request_unlinked_release busy now ambient id e)
  | OpFinishRelease now id => void (finish_release now id)
  | OpExclude busy ref hmac n => void (_release_one busy ref hmac n)
  | OpCleanupQuota cutoff days due => void (cleanup_quota cutoff days due)
  | OpCleanupFrequency cutoff days due => void (cleanup_frequency cutoff days due)
  | OpCleanupReservations cutoff days due => void (cleanup_reservations cutoff days due)
  | OpCleanupProjections cutoff days due => void (cleanup_projections cutoff days due)
  | OpCleanupAliases due => void (cleanup_aliases due)
  | OpCleanupSubjects due => void (cleanup_subjects due)
  | OpOutside chunks events => outside chunks events
  end.

(** A transaction that raises is rolled back. *)
Definition commit (s : db) (o : op) : db :=
  match transaction_of o s with Ok (_, s') => s' | Raise _ => s end.

Definition no_ledger : db := mkDb ∅ ∅ ∅ ∅ ∅ ∅ ∅ [] 1 Outbox.empty_db [].
Definition run (ops : list op) : db := foldl commit no_ledger ops.

(** ** Exactness *)

Lemma keeps_void {A} (m : tx_ A) : keeps m -> keeps (void m).
Proof. intros K s x s' G H. unfold void in H. stx. by eapply K. Qed.

Lemma keeps_lift {A B} (r : result exc A) (f : A -> tx_ B) :
  (forall a, r = Ok a -> keeps (f a)) -> keeps (a ← lift r; f a).
Proof. intros K s x s' G H. stx. by eapply K. Qed.

Lemma keeps_transaction o : keeps (transaction_of o).
Proof.
  destruct o; cbn [transaction_of];
    repeat lazymatch goal with |- keeps (lift _ ≫= _) => apply keeps_lift; intros end;
    lazymatch goal with |- keeps (void _) => apply keeps_void | _ => idtac end.
  all: try solve [apply keeps_calm; auto using calm_start, calm_allow, calm_mark, calm_accept, calm_finish,
    calm_cleanup_frequency, calm_cleanup_reservations, calm_cleanup_aliases, calm_cleanup_subjects].
  - match goal with u : unit |- _ => destruct u end. by apply keeps_reserve.
  - apply keeps_release_batch.
  - apply keeps_release_unlinked.
  - apply keeps_release_one.
  - apply keeps_cleanup_quota.
  - apply keeps_cleanup_projections.
  - apply keeps_calm. apply within_modify. intros s. by apply calm_same.
Qed.

Lemma good_run ops : good (run ops).
Proof.
  unfold run. assert (G : good no_ledger).
  { split; [constructor; simpl; intros *; by rewrite lookup_empty|]. intros k _ _. done. }
  revert G. generalize no_ledger as s. induction ops as [|o ops IH]; intros s G; simpl; [done|].
  apply IH. unfold commit. destruct (transaction_of o s) as [[[] s']|] eqn:E; [|done].
  by eapply keeps_transaction.
Qed.

Lemma quota_changes_delta ud cost x app_id dept category date_key k :
  k ∈ [app_quota_key app_id date_key; dept_quota_key dept date_key; volume_quota_key app_id category date_key] ->
  delta_of (quota_changes ud date_key cost x (quota_specs app_id dept category date_key)) k = cost /\
  is_quota k = true.
Proof.
  intros H. unfold quota_changes, quota_specs.
  assert (AD : teqb (app_quota_key app_id date_key) (dept_quota_key dept date_key) = false) by done.
  assert (AV : teqb (app_quota_key app_id date_key) (volume_quota_key app_id category date_key) = false) by done.
  assert (DV : teqb (dept_quota_key dept date_key) (volume_quota_key app_id category date_key) = false) by done.
  assert (DA : teqb (dept_quota_key dept date_key) (app_quota_key app_id date_key) = false) by done.
  assert (VA : teqb (volume_quota_key app_id category date_key) (app_quota_key app_id date_key) = false) by done.
  assert (VD : teqb (volume_quota_key app_id category date_key) (dept_quota_key dept date_key) = false) by done.
  rewrite !elem_of_cons, elem_of_nil in H. destruct H as [-> | [-> | [-> | []]]]; (split; [|done]);
    rewrite !fmap_cons, !delta_of_cons; cbn [ch_dimension_key ch_delta];
    rewrite ?teqb_refl, ?AD, ?AV, ?DV, ?DA, ?VA, ?VD; unfold delta_of; simpl; lia.
Qed.

(** What a first quota reservation of an open reservation does. *)
Lemma reserve_fresh busy now id app_id dept category date_key ud cost al dl x s r :
  reservations s !! id = Some r -> in_state UsageState.reserved r = true -> entries_of id s = [] ->
  UsageRow.app_id r = app_id -> UsageRow.dept r = dept -> UsageRow.category r = category ->
  UsageRow.usage_date r = ud ->
  reserve_quota busy now id app_id dept category date_key ud cost al dl x s
  = if (0 <? al) && (al <? value_of s (app_quota_key app_id date_key) + cost)
       || (0 <? dl) && (dl <? value_of s (dept_quota_key dept date_key) + cost)
    then Raise QuotaExceeded
    else write_quota busy now id (quota_specs app_id dept category date_key) ud date_key cost al dl x s.
Proof.
  intros R I E A D C U. unfold reserve_quota, get, lift, mbind, stex_bind. cbv beta iota.
  rewrite R, I, E, A, D, C, U, Z.eqb_refl, !teqb_refl, bool_decide_true by done. cbn [andb require].
  by destruct ((0 <? al) && _ || _).
Qed.

(** ** A reservation within its limits goes through *)

Lemma adds_run l : forall s, proj_ok s -> Forall (fun c => window_ok c /\ is_quota (ch_dimension_key c) = true
    /\ 0 <= ch_delta c) l -> NoDup (ch_dimension_key <$> l) ->
  Forall (fun c => value_of s (ch_dimension_key c) + ch_delta c < 2 ^ 63) l ->
  exists rows s', for_each add_to_projection l s = Ok (rows, s') /\ length rows = length l.
Proof.
  induction l as [|c l IH]; intros s O F ND B; [by exists [], s|].
  apply Forall_cons in F as [(W & Q & D) F]. apply Forall_cons in B as [Bc B]. apply NoDup_cons in ND as [N1 N2].
  assert (A : exists r s1, add_to_projection c s = Ok (r, s1)).
  { unfold add_to_projection, nextval, get, modify, mbind, stex_bind, mret, stex_ret. cbv beta iota zeta. simpl.
    unfold value_of in Bc. destruct (projections s !! ch_dimension_key c) as [p|] eqn:P; simpl;
      unfold write_projection, mbind, stex_bind, lift; simpl.
    - destruct (O _ _ P Q) as [E V]. rewrite E, (W Q), teqb_refl.
      rewrite (proj2 (Z.leb_le 0 _)), (proj2 (Z.ltb_lt _ (2 ^ 63))) by lia. simpl. eauto.
    - rewrite (proj2 (Z.leb_le 0 _)), (proj2 (Z.ltb_lt _ (2 ^ 63))) by lia. simpl. eauto. }
  destruct A as (r & s1 & A). destruct (add_ok _ _ _ _ A O W) as (_ & O1 & V1).
  destruct (IH s1) as (rows & s2 & R & L); [done | done | done | |].
  - rewrite Forall_forall in B. rewrite Forall_forall in F. apply Forall_forall. intros d I.
    destruct (F d I) as (_ & Qd & _). rewrite V1 by done. rewrite delta_of_one.
    assert (T : teqb (ch_dimension_key c) (ch_dimension_key d) = false).
    { apply teqb_false. intros E. apply N1. rewrite E. by apply list_elem_of_fmap_2. }
    rewrite T. specialize (B d I). lia.
  - exists (r :: rows), s2. simpl. unfold mbind, stex_bind. rewrite A, R. split; [done|]. simpl. by rewrite L.
Qed.

Definition quota_keys (app_id : Z) (dept category date_key : text) : list text :=
  [app_quota_key app_id date_key; dept_quota_key dept date_key; volume_quota_key app_id category date_key].

Lemma quota_keys_nodup app_id dept category date_key : NoDup (quota_keys app_id dept category date_key).
Proof.
  unfold quota_keys. apply NoDup_cons; split; [|apply NoDup_cons; split; [|apply NoDup_singleton]];
    rewrite ?elem_of_cons, ?elem_of_nil; intros H; decompose [or] H; try done; simplify_eq.
Qed.

Lemma changes_run ud date_key cost x app_id dept category s :
  proj_ok s -> 0 <= cost -> length date_key = 8%nat ->
  (forall k, k ∈ quota_keys app_id dept category date_key -> value_of s k + cost < 2 ^ 63) ->
  exists rows s', _change_projections false
    (quota_changes ud date_key cost x (quota_specs app_id dept category date_key)) s = Ok (rows, s').
Proof.
  intros W C L B. set (l := quota_changes _ _ _ _ _).
  assert (K : ch_dimension_key <$> l = quota_keys app_id dept category date_key) by done.
  destruct (adds_run l s W) as (rows & s' & R & LE).
  - apply Forall_fmap, Forall_forall. intros [[d v] k] I.
    destruct (quota_specs_ok _ _ _ _ _ _ _ I L) as (_ & Wk & Qk). split_and!; [|done | done].
    intros _. by symmetry.
  - rewrite K. apply quota_keys_nodup.
  - apply Forall_forall. intros c I. assert (ch_delta c = cost) as ->.
    { apply list_elem_of_fmap in I as ([[d v] k] & -> & _). done. }
    apply B. rewrite <- K. by apply list_elem_of_fmap_2.
  - exists (merge_sort row_le rows), s'. unfold _change_projections.
    change l with (mkChange (app_quota_key app_id date_key) ProjectionKind.quota ud date_key cost x true
      :: tail l) at 1. cbv iota.
    unfold mbind, stex_bind, lift. rewrite K, bool_decide_true by apply quota_keys_nodup. cbn [require].
    cbn [_lock_projection_writer refuse].
    assert (P : forallb (fun c => (0 <=? ch_delta c) && ch_reset_on_window_change c) l = true).
    { subst l. simpl. by rewrite (proj2 (Z.leb_le 0 cost)). }
    rewrite P, R, LE, Nat.eqb_refl. done.
Qed.

Lemma inserts_run id ud cost x specs : forall s, exists u s', for_each (insert_entry id ud cost x) specs s = Ok (u, s') /\
  projections s' = projections s.
Proof.
  induction specs as [|[[d v] k] specs IH]; intros s; [by exists [], s|]. simpl.
  unfold mbind, stex_bind, modify. match goal with |- context [for_each _ specs ?t] => destruct (IH t) as (u & s' & R & P) end.
  rewrite R. by eexists _, s'.
Qed.

Lemma write_quota_runs now id app_id dept category date_key ud cost al dl x s :
  wf s -> 0 <= cost -> length date_key = 8%nat ->
  fits_int4 cost && fits_int4 al && fits_int4 dl = true ->
  (forall k, k ∈ quota_keys app_id dept category date_key -> value_of s k + cost < 2 ^ 63) ->
  exists rows s', write_quota false now id (quota_specs app_id dept category date_key) ud date_key cost al dl x s
    = Ok (rows, s').
Proof.
  intros W C L I B. unfold write_quota, mbind, stex_bind, lift. rewrite I. cbn [require].
  assert (U : exists b s1, update_row id (fun _ => true) (set_quota cost al dl now) s = Ok (b, s1)).
  { unfold update_row, get, modify, mbind, stex_bind. destruct (reservations s !! id); eauto. }
  destruct U as (b & s1 & U). rewrite U.
  assert (P1 : projections s1 = projections s).
  { clear - U. unfold update_row in U. stx. destruct (reservations s !! id); by stx. }
  destruct (inserts_run id ud cost x (quota_specs app_id dept category date_key) s1) as (u & s2 & R & P2).
  rewrite R. assert (O : proj_ok s2).
  { intros k p X Q. rewrite P2, P1 in X. by apply (wf_projection s W). }
  apply changes_run; try done. intros k K. unfold value_of. rewrite P2, P1. by apply B.
Qed.

(** ** The quota theorems *)

(** C9: after any sequence of ledger transactions (reservations, frequency
    decisions, commits, releases, exclusions of recipients and retention, each
    committed or rolled back), the absolute value that every quota dimension
    shows is the sum of what the reservations still open hold in it, as long as
    retention has not yet removed that day. *)
Theorem quota_ledger_exact (ops : list op) (k : text) :
  is_quota k = true -> k ∉ retired (run ops) -> value_of (run ops) k = live_sum (run ops) k.
Proof. intros Q N. by apply (good_run ops). Qed.

Definition first_id : text := tx "0f8fad5b-d9cb-469f-a165-70867728950e".
Definition second_id : text := tx "7c9e6679-7425-40de-944b-e07fc1f90ae7".
Definition first_day : date := mkDate 2026 1 5.
Definition example_ops : list op := [
  OpStart 0 first_id (tx "req-1") 7 (tx "api_app") (tx "ops") (tx "notice") first_day;
  OpReserveQuota false 0 first_id 7 (tx "ops") (tx "notice") (tx "20260105") 3 10 10 99;
  OpStart 0 second_id (tx "req-2") 7 (tx "api_app") (tx "ops") (tx "notice") first_day;
  OpReserveQuota false 0 second_id 7 (tx "ops") (tx "notice") (tx "20260105") 4 10 10 99;
  OpReleaseUnlinked false 5 (Some 1) first_id (tx "approval:1:rejected");
  OpExclude false (Some second_id) (tx "h") 1
].

Lemma quota_ledger_exact_witness :
  value_of (run example_ops) (app_quota_key 7 (tx "20260105")) = 3 /\
  value_of (run example_ops) (app_quota_key 7 (tx "20260105"))
  = live_sum (run example_ops) (app_quota_key 7 (tx "20260105")).
Proof.
  split; [vm_compute; reflexivity|]. apply quota_ledger_exact; [reflexivity|].
  apply (bool_decide_eq_false_1 _). vm_compute. reflexivity.
Defined.

(** C23: a first quota reservation is decided on what the open reservations of
    the day hold.  It is refused with [QuotaExceeded] when a positive limit of the
    application or of the department would be passed.  Otherwise it succeeds, and
    each of its three dimensions grows by exactly its cost. *)
Theorem quota_decision (ops : list op) (now : Z) (id : text) (app_id : Z)
    (dept category date_key : text) (ud : date) (cost al dl x : Z) (r : UsageRow.t) :
  let s := run ops in
  let over := (0 < al /\ al < live_sum s (app_quota_key app_id date_key) + cost)
              \/ (0 < dl /\ dl < live_sum s (dept_quota_key dept date_key) + cost) in
  reservations s !! id = Some r -> in_state UsageState.reserved r = true -> entries_of id s = [] ->
  UsageRow.app_id r = app_id -> UsageRow.dept r = dept -> UsageRow.category r = category ->
  UsageRow.usage_date r = ud ->
  check_quota category date_key cost al dl = Ok tt -> strptime date_key = Ok ud ->
  fits_int4 cost && fits_int4 al && fits_int4 dl = true ->
  (forall k, k ∈ quota_keys app_id dept category date_key ->
     (k ∉ retired s) /\ live_sum s k + cost < 2 ^ 63) ->
  let reserve := reserve_quota false now id app_id dept category date_key ud cost al dl x s in
  (over -> reserve = Raise QuotaExceeded) /\
  (~ over -> exists rows s', reserve = Ok (rows, s') /\
     forall k, k ∈ quota_keys app_id dept category date_key ->
       value_of s' k = live_sum s k + cost /\ live_sum s' k = live_sum s k + cost).
Proof.
  intros s over R I E A D C U CQ SP FI B reserve. destruct (good_run ops) as [W X]. fold s in W, X.
  unfold check_quota in CQ. apply refuse_ok in CQ. bool_prop.
  destruct (strptime_ymd _ _ ltac:(eassumption) SP) as [Y L].
  assert (V : forall k, k ∈ quota_keys app_id dept category date_key -> value_of s k = live_sum s k).
  { intros k K. apply X; [|by apply B]. by destruct (quota_changes_delta ud cost x _ _ _ _ _ K). }
  unfold reserve. rewrite (reserve_fresh _ _ _ _ _ _ _ _ _ _ _ _ _ _ R I E A D C U).
  rewrite (V (app_quota_key app_id date_key)), (V (dept_quota_key dept date_key)) by set_solver.
  match goal with |- context [if ?c then _ else _] => assert (RO : c = true <-> over)
    by (unfold over; by rewrite orb_true_iff, !andb_true_iff, !Z.ltb_lt); destruct c end.
  - split; [done|]. intros O. by destruct O; apply RO.
  - split; [intros O; by apply RO in O|]. intros _.
    destruct (write_quota_runs now id app_id dept category date_key ud cost al dl x s) as (rows & s' & HW);
      try done; try lia. { by rewrite !andb_true_iff. } { intros k K. rewrite V by done. by apply B. }
    exists rows, s'. split; [done|]. intros k K. destruct (quota_changes_delta ud cost x _ _ _ _ _ K) as [DK QK].
    assert (Li : live_id s id = true).
    { unfold live_id, live. rewrite R. unfold in_state in I. bool_prop. by rewrite I. }
    destruct (write_quota_ok _ _ _ _ _ _ _ _ _ _ _ _ _ _ _ HW W Li E) as (_ & _ & VV); try done; try lia.
    destruct (VV k QK) as [-> ->]. rewrite DK, V by done. done.
Qed.

Lemma quota_decision_witness :
  let s := run (take 3 example_ops) in
  let reserve cost := reserve_quota false 0 second_id 7 (tx "ops") (tx "notice") (tx "20260105") first_day
                        cost 10 0 99 s in
  reserve 8 = Raise QuotaExceeded /\
  exists rows s', reserve 7 = Ok (rows, s') /\ live_sum s' (app_quota_key 7 (tx "20260105")) = 10.
Proof.
  intros s reserve.
  assert (K : forall c, c < 100 -> forall k, k ∈ quota_keys 7 (tx "ops") (tx "notice") (tx "20260105") ->
    (k ∉ retired s) /\ live_sum s k + c < 2 ^ 63).
  { intros c C k H. assert (live_sum s k <= 3 /\ retired s = []) as [L ->].
    { unfold quota_keys in H. rewrite !elem_of_cons, elem_of_nil in H.
      destruct H as [-> | [-> | [-> | []]]]; (split; [apply Z.leb_le|]; vm_compute; reflexivity). }
    split; [apply not_elem_of_nil | lia]. }
  set (r := UsageRow.mk (tx "req-2") 7 (tx "api_app") (tx "ops") (tx "notice") first_day
              UsageState.reserved 0 0 0 None None None None None 0).
  assert (A : live_sum s (app_quota_key 7 (tx "20260105")) = 3) by (vm_compute; reflexivity).
  assert (R : reservations s !! second_id = Some r) by (vm_compute; reflexivity).
  assert (E : entries_of second_id s = []) by (vm_compute; reflexivity).
  split.
  - apply (quota_decision (take 3 example_ops) 0 second_id 7 (tx "ops") (tx "notice") (tx "20260105")
      first_day 8 10 0 99 r R eq_refl E); try reflexivity.
    + apply K. lia.
    + left. fold s. rewrite A. lia.
  - destruct (quota_decision (take 3 example_ops) 0 second_id 7 (tx "ops") (tx "notice") (tx "20260105")
      first_day 7 10 0 99 r R eq_refl E) as [_ [rows [s' [G H]]]]; try reflexivity.
    + apply K. lia.
    + fold s. rewrite A. lia.
    + exists rows, s'. split; [exact G|]. destruct (H (app_quota_key 7 (tx "20260105"))) as [_ ->].
      { apply list_elem_of_here. }
      fold s. rewrite A. reflexivity.
Defined.
End UsageLedger.
