(* ===== verification/UsageDecision.v ===== *)
(** * Frequency decisions

    What a decision over a block of recipients answers and counts, and that a
    repeated decision of the same reservation changes nothing. *)

From S2P Require Import Prelude PyText Outbox Category Redis UsageStore UsageFrequency UsageSafety UsageLedger.

Module UsageDecision.
Import Calendar UsageStore UsageFrequency UsageSafety UsageLedger.

(** ** Counting after an insertion *)

(** A question to the ledger: category, application, subject, kind and window. *)
Record query := mkQuery {
  q_category : text;
  q_app : option Z;
  q_subject : text;
  q_kind : WindowKind.t;
  q_window : text
}.

Definition count (s : db) (q : query) : Z :=
  live_count s (q_category q) (q_app q) (q_subject q) (q_kind q) (q_window q).

Definition counts (s : db) (q : query) : fentry -> bool :=
  counts_towards s (q_category q) (q_app q) (q_subject q) (q_kind q) (q_window q).

Definition b2z (b : bool) : Z := if b then 1 else 0.

Lemma filter_perm_length {A} (f : A -> bool) l l' : l ≡ₚ l' ->
  length (List.filter f l) = length (List.filter f l').
Proof.
  induction 1 as [|x l l' _ IH|x y l|l l' l'' _ IH _ IH']; simpl; try congruence.
  - destruct (f x); simpl; congruence.
  - by destruct (f x), (f y).
Qed.

Lemma count_insert s q k e : frequency_entries s !! k = None ->
  count (set_frequency_entries (<[k := e]>) s) q = count s q + b2z (counts s q (k, e)).
Proof.
  intros N. unfold count, live_count. cbn [frequency_entries set_frequency_entries].
  rewrite (filter_perm_length _ _ _ (map_to_list_insert _ k e N)).
  fold (counts (set_frequency_entries <[k := e]> s) q) (counts s q).
  change (counts (set_frequency_entries <[k := e]> s) q) with (counts s q).
  cbn [List.filter].
  match goal with |- context [if ?c then _ else _] =>
    change (b2z (counts s q (k, e))) with (b2z c); destruct c end; cbn [length b2z].
  - by rewrite Nat2Z.inj_succ.
  - by rewrite Z.add_0_r.
Qed.

Definition entry_for (category : text) (app_id : Z) (ud : date) (b : bool) (sp : window_spec) : FrequencyEntry.t :=
  FrequencyEntry.mk (frequency_app category app_id) category (ws_window sp) ud (ws_key sp) b (ws_expires_at sp).

Definition hits (category : text) (app_id : Z) (q : query) (subject : text) (b : bool) (sp : window_spec) : bool :=
  teqb subject (q_subject q) && bool_decide (ws_kind sp = q_kind q) && teqb category (q_category q)
  && bool_decide (frequency_app category app_id = q_app q) && teqb (ws_window sp) (q_window q) && b.

Section Insert.
Context (id category : text) (app_id : Z) (ud : date).

Lemma insert_one_ok subject b sp s u s' :
  insert_frequency_entry id subject category app_id ud b sp s = Ok (u, s') -> live_id s id = true ->
  reservations s' = reservations s /\
  (forall q, count s' q = count s q + b2z (hits category app_id q subject b sp)) /\
  (forall k e, frequency_entries s' !! k = Some e <->
     frequency_entries s !! k = Some e \/ k = (id, subject, ws_kind sp) /\ e = entry_for category app_id ud b sp).
Proof.
  intros H L. unfold insert_frequency_entry in H. stx.
  match goal with H : bool_decide (is_Some _) = false |- _ => apply bool_decide_false_iff in H as N end.
  apply eq_None_not_Some in N. split; [done|]. split.
  - intros q. rewrite count_insert by done. f_equal. f_equal. unfold counts, counts_towards, hits. simpl.
    unfold live_id, live in L. destruct (reservations s !! id); [|done]. by rewrite L, andb_true_r.
  - intros k e. simpl. rewrite lookup_insert_Some. split.
    + intros [[<- <-] | [_ E]]; [by right | by left].
    + intros [E | [-> ->]]; [right | by left]. split; [|done]. intros <-. congruence.
Qed.

Lemma live_rows s s' : reservations s' = reservations s -> live_id s' id = live_id s id.
Proof. intros E. unfold live_id. by rewrite E. Qed.

Lemma insert_specs_ok subject b specs : forall s u s',
  for_each (insert_frequency_entry id subject category app_id ud b) specs s = Ok (u, s') ->
  live_id s id = true ->
  reservations s' = reservations s /\
  (forall q, count s' q = count s q + sumZ ((fun sp => b2z (hits category app_id q subject b sp)) <$> specs)) /\
  (forall k e, frequency_entries s' !! k = Some e <-> frequency_entries s !! k = Some e \/
     exists sp, sp ∈ specs /\ k = (id, subject, ws_kind sp) /\ e = entry_for category app_id ud b sp).
Proof.
  induction specs as [|sp specs IH]; intros s u s' H L; simpl in H; stx.
  { split_and!; [done | intros q; simpl; lia|]. intros k e. split; [by left|].
    intros [E | (sp & I & _)]; [done | by apply elem_of_nil in I]. }
  match goal with H : insert_frequency_entry _ _ _ _ _ _ _ _ = _ |- _ =>
    destruct (insert_one_ok _ _ _ _ _ _ H L) as (R1 & C1 & F1) end.
  match goal with H : for_each _ _ _ = _ |- _ =>
    destruct (IH _ _ _ H) as (R2 & C2 & F2); [by rewrite (live_rows _ _ R1)|] end.
  split_and!; [congruence | |].
  - intros q. rewrite C2, C1, fmap_cons. simpl. lia.
  - intros k e. rewrite F2, F1. split.
    + intros [[E | [-> ->]] | (sp' & I & -> & ->)]; [by left | right; exists sp | right; exists sp'];
        (split; [|done]); [apply list_elem_of_here | by apply list_elem_of_further].
    + intros [E | (sp' & I & -> & ->)]; [by left; left|].
      apply elem_of_cons in I as [-> | I]; [by left; right | right; by exists sp'].
Qed.

Definition decision : Type := text * list window_spec * bool.

Lemma insert_decided_ok (l : list decision) : forall s u s',
  for_each (fun d : decision => let '(subject, specs, allowed) := d in
    for_each (insert_frequency_entry id subject category app_id ud allowed) specs) l s = Ok (u, s') ->
  live_id s id = true ->
  reservations s' = reservations s /\
  (forall q, count s' q = count s q + sumZ ((fun d : decision => let '(subject, specs, b) := d in
     sumZ ((fun sp => b2z (hits category app_id q subject b sp)) <$> specs)) <$> l)) /\
  (forall k e, frequency_entries s' !! k = Some e <-> frequency_entries s !! k = Some e \/
     exists subject specs b sp, (subject, specs, b) ∈ l /\ sp ∈ specs /\
       k = (id, subject, ws_kind sp) /\ e = entry_for category app_id ud b sp).
Proof.
  induction l as [|[[subject specs] b] l IH]; intros s u s' H L; simpl in H; stx.
  { split_and!; [done | intros q; simpl; lia|]. intros k e. split; [by left|].
    intros [E | (? & ? & ? & ? & I & _)]; [done | by apply elem_of_nil in I]. }
  match goal with H : for_each (insert_frequency_entry _ _ _ _ _ _) _ _ = _ |- _ =>
    destruct (insert_specs_ok _ _ _ _ _ _ H L) as (R1 & C1 & F1) end.
  match goal with H : for_each (fun _ => _) _ _ = _ |- _ =>
    destruct (IH _ _ _ H) as (R2 & C2 & F2); [by rewrite (live_rows _ _ R1)|] end.
  split_and!; [congruence | |].
  - intros q. rewrite C2, C1, fmap_cons. simpl. lia.
  - intros k e. rewrite F2, F1. split.
    + intros [[E | (sp & I & -> & ->)] | (su & sps & b' & sp & I & J & -> & ->)]; [by left | |]; right.
      * exists subject, specs, b, sp. split; [apply list_elem_of_here | done].
      * exists su, sps, b', sp. split; [by apply list_elem_of_further | done].
    + intros [E | (su & sps & b' & sp & I & J & -> & ->)]; [by left; left|].
      apply elem_of_cons in I as [[= -> -> ->] | I]; [left; right; by exists sp | right; by exists su, sps, b', sp].
Qed.
End Insert.

(** ** The subjects decided, once each *)

Lemma unique_subjects_ok l : forall seen,
  NoDup (rs_subject_id <$> unique_subjects seen l) /\
  (forall i, i ∈ unique_subjects seen l -> i ∈ l /\ rs_subject_id i ∉ seen) /\
  (forall i, i ∈ l -> rs_subject_id i ∉ seen ->
     exists j, j ∈ unique_subjects seen l /\ rs_subject_id j = rs_subject_id i).
Proof.
  induction l as [|i l IH]; intros seen; simpl.
  { split_and!; [apply NoDup_nil_2 | |]; intros i I; by apply elem_of_nil in I. }
  destruct (tmem (rs_subject_id i) seen) eqn:T.
  - apply tmem_spec in T. destruct (IH seen) as (N & S & C). split_and!; [done | |].
    + intros j J. destruct (S j J). split; [by apply list_elem_of_further | done].
    + intros j [-> | J]%elem_of_cons M; [done | by apply C].
  - assert (T' : rs_subject_id i ∉ seen) by (intros X%tmem_spec; congruence). destruct (IH (rs_subject_id i :: seen)) as (N & S & C). split_and!.
    + apply NoDup_cons. split; [|done]. intros (j & E & J)%list_elem_of_fmap. destruct (S j J) as [_ X].
      apply X. rewrite <- E. apply list_elem_of_here.
    + intros j [-> | J]%elem_of_cons; [split; [apply list_elem_of_here | done]|].
      destruct (S j J) as [I X]. split; [by apply list_elem_of_further|]. intros Y. apply X.
      by apply list_elem_of_further.
    + intros j J M. destruct (decide (rs_subject_id j = rs_subject_id i)) as [E|E].
      * exists i. split; [apply list_elem_of_here | done].
      * apply elem_of_cons in J as [-> | J]; [done|]. destruct (C j J) as (k & K & EK).
        -- by rewrite elem_of_cons; intros [|].
        -- exists k. split; [by apply list_elem_of_further | done].
Qed.

(** ** The windows of a decision *)

Definition shape (sp : window_spec) : WindowKind.t * text * Z := (ws_kind sp, ws_window sp, ws_limit sp).

Lemma item_specs_shape category app_id limits windows h h' :
  shape <$> item_specs category app_id limits windows h = shape <$> item_specs category app_id limits windows h'.
Proof.
  unfold item_specs, _frequency_projection_keys. destruct windows as [[[[mw mx] dw] ud] dx].
  by destruct (teqb category (tx "verify")).
Qed.

Lemma item_specs_kinds category app_id limits windows h :
  ws_kind <$> item_specs category app_id limits windows h = expected_windows category.
Proof.
  unfold item_specs, _frequency_projection_keys, expected_windows, is_verify.
  destruct windows as [[[[mw mx] dw] ud] dx]. by destruct (teqb category (tx "verify")).
Qed.

Lemma expected_nodup category : NoDup (expected_windows category).
Proof.
  unfold expected_windows. destruct (is_verify category); [|apply NoDup_singleton].
  apply NoDup_cons. split; [|apply NoDup_singleton]. by intros ?%list_elem_of_singleton.
Qed.

Lemma within_limits_shape s category app_id subject l l' : shape <$> l = shape <$> l' ->
  within_limits s category app_id subject l = within_limits s category app_id subject l'.
Proof.
  revert l'. induction l as [|sp l IH]; intros [|sp' l'] E; try done.
  rewrite !fmap_cons in E. injection E as K W M E. unfold within_limits in *. simpl. by rewrite K, W, M, (IH _ E).
Qed.

Definition query_of (category : text) (app_id : Z) (subject : text) (sp : window_spec) : query :=
  mkQuery category (frequency_app category app_id) subject (ws_kind sp) (ws_window sp).

Lemma hits_other category app_id q subject b sp : subject <> q_subject q ->
  hits category app_id q subject b sp = false.
Proof. intros N. unfold hits. by rewrite (proj2 (teqb_false _ _) N). Qed.

(** A subject hits each of its windows once. *)
Lemma hits_own category app_id subject b l l' sp : shape <$> l' = shape <$> l -> NoDup (ws_kind <$> l) -> sp ∈ l ->
  sumZ ((fun sp' => b2z (hits category app_id (query_of category app_id subject sp) subject b sp')) <$> l') = b2z b.
Proof.
  set (f := fun sp' => _). intros E N I.
  assert (Z0 : forall t t', shape <$> t' = shape <$> t -> ws_kind sp ∉ ws_kind <$> t -> sumZ (f <$> t') = 0).
  { induction t as [|x t IH]; intros [|x' t'] ET NT; try done. rewrite !fmap_cons in *.
    injection ET as K W M ET. rewrite not_elem_of_cons in NT. destruct NT as [N1 N2]. simpl. rewrite (IH t' ET N2).
    subst f. unfold hits. simpl. rewrite K, (bool_decide_false (ws_kind x = ws_kind sp)) by congruence.
    by rewrite andb_false_r. }
  revert l' E. induction l as [|x l IH]; intros [|x' l'] E; try done; [by apply elem_of_nil in I|].
  rewrite !fmap_cons in *. injection E as K W M E. apply NoDup_cons in N as [N1 N2]. simpl.
  apply elem_of_cons in I as [-> | I].
  - rewrite (Z0 l l' E N1). subst f. unfold hits. simpl. rewrite K, W, !teqb_refl, !bool_decide_true by done. simpl. lia.
  - rewrite (IH N2 I l' E). subst f. unfold hits. simpl.
    rewrite K, (bool_decide_false (ws_kind x = ws_kind sp)); [by rewrite andb_false_r|].
    intros X. apply N1. rewrite X. by apply list_elem_of_fmap_2.
Qed.

(** ** The projections change apart *)

Lemma only_projections_write k p : within only_projections (write_projection k p).
Proof. unfold write_projection. within_tac. by apply within_modify. Qed.

Lemma only_projections_nextval : within only_projections nextval.
Proof. unfold nextval. within_tac. by apply within_modify. Qed.
#[local] Hint Resolve only_projections_write only_projections_nextval : within.

Lemma only_projections_change busy l : within only_projections (_change_projections busy l).
Proof.
  assert (A : forall c, within only_projections (add_to_projection c)) by (intros c; unfold add_to_projection; within_tac).
  assert (T : forall c, within only_projections (take_from_projection c))
    by (intros c; unfold take_from_projection; within_tac).
  assert (FA : forall l, within only_projections (for_each add_to_projection l))
    by (intros; apply within_each; [apply _ | auto]).
  assert (FT : forall l, within only_projections (for_each take_from_projection l))
    by (intros; apply within_each; [apply _ | auto]).
  unfold _change_projections. within_tac.
Qed.

Lemma count_projections s s' q : only_projections s s' -> count s' q = count s q.
Proof. intros [R _ F _]. unfold count, live_count, counts_towards. by rewrite R, F. Qed.

(** ** Old and new subjects *)

Lemma split_new_ok category id s l : forall fresh old, split_new category id s l = Ok (fresh, old) ->
  (forall i, i ∈ fresh <-> i ∈ l /\ is_new category id s i = Ok true) /\
  (forall i, i ∈ l -> is_new category id s i = Ok true \/ is_new category id s i = Ok false).
Proof.
  induction l as [|i l IH]; intros fresh old H; simpl in H.
  { injection H as <- <-. split; intros i; [rewrite elem_of_nil; naive_solver | by intros ?%elem_of_nil]. }
  apply bind_ok in H as (b & B & H). apply bind_ok in H as ([f o] & S & H). destruct (IH _ _ S) as [F T].
  assert (T' : forall j, j ∈ i :: l -> is_new category id s j = Ok true \/ is_new category id s j = Ok false).
  { intros j [-> | J]%elem_of_cons; [destruct b; auto | by apply T]. }
  split; [|done]. intros j. destruct b; injection H as <- <-; rewrite !elem_of_cons, F.
  - split; [intros [-> | [J N]]; auto | intros [[-> | J] N]; auto].
  - split; [intros [J N]; auto | intros [[-> | J] N]; [congruence | auto]].
Qed.

Lemma is_new_spec category id s i b : is_new category id s i = Ok b ->
  if b then recorded id (rs_subject_id i) s = []
  else fst <$> recorded id (rs_subject_id i) s = expected_windows category.
Proof.
  unfold is_new. destruct (bool_decide (_ = expected_windows category)) eqn:E; [intros [= <-]; by bool_prop|].
  destruct (bool_decide (_ = [])) eqn:N; [|done]. intros [= <-]. bool_prop. by apply fmap_nil_inv in N.
Qed.

(** ** A block of decisions *)

Definition decided_of (s : db) (category : text) (app_id : Z) (limits : FrequencyLimits)
    (windows : text * Z * text * date * Z) (fresh : list ResolvedFrequencySubject) : list decision :=
  (fun i => let specs := item_specs category app_id limits windows (rs_projection_hmac i) in
            (rs_subject_id i, specs, within_limits s category app_id (rs_subject_id i) specs))
  <$> unique_subjects [] fresh.

Definition window_date (windows : text * Z * text * date * Z) : date :=
  let '(_, _, _, d, _) := windows in d.

Lemma insert_decisions_ok busy id category app_id fresh limits windows s decided rows s' :
  _insert_frequency_decisions busy id category app_id fresh limits windows s = Ok ((decided, rows), s') ->
  live_id s id = true ->
  let D := decided_of s category app_id limits windows fresh in
  decided = (fun d : decision => let '(subject, _, allowed) := d in (subject, allowed)) <$> D /\
  reservations s' = reservations s /\
  (forall q, count s' q = count s q + sumZ ((fun d : decision => let '(subject, specs, b) := d in
     sumZ ((fun sp => b2z (hits category app_id q subject b sp)) <$> specs)) <$> D)) /\
  (forall k e, frequency_entries s' !! k = Some e <-> frequency_entries s !! k = Some e \/
     exists subject specs b sp, (subject, specs, b) ∈ D /\ sp ∈ specs /\
       k = (id, subject, ws_kind sp) /\ e = entry_for category app_id (window_date windows) b sp).
Proof.
  intros H L D. unfold _insert_frequency_decisions in H. destruct windows as [[[[mw mx] dw] ud] dx].
  cbv zeta in H. stx.
  match goal with H : _change_projections _ _ _ = _ |- _ => apply only_projections_change in H as O end.
  match goal with H : for_each _ _ s = _ |- _ => destruct (insert_decided_ok _ _ _ _ _ _ _ _ H L) as (R & C & F) end.
  simplify_eq. split_and!; [done | by rewrite (op_reservations _ _ O) | |].
  - intros q. by rewrite (count_projections _ _ q O), C.
  - intros k e. by rewrite (op_frequency _ _ O), F.
Qed.

Definition d_subject (d : decision) : text := fst (fst d).

Definition decision_hits (category : text) (app_id : Z) (q : query) (d : decision) : Z :=
  let '(subject, specs, b) := d in sumZ ((fun sp => b2z (hits category app_id q subject b sp)) <$> specs).

Lemma decision_hits_other category app_id q d : d_subject d <> q_subject q -> decision_hits category app_id q d = 0.
Proof.
  destruct d as [[subject specs] b]. intros N. simpl in *. induction specs as [|sp specs IH]; [done|].
  rewrite fmap_cons. simpl. by rewrite hits_other, IH.
Qed.

Lemma decisions_none category app_id q (D : list decision) : q_subject q ∉ d_subject <$> D ->
  sumZ (decision_hits category app_id q <$> D) = 0.
Proof.
  induction D as [|d D IH]; intros N; [done|]. rewrite fmap_cons in *. apply not_elem_of_cons in N as [N1 N2].
  simpl. rewrite (IH N2), decision_hits_other by congruence. lia.
Qed.

Lemma decisions_own category app_id q (D : list decision) d : NoDup (d_subject <$> D) -> d ∈ D ->
  d_subject d = q_subject q -> sumZ (decision_hits category app_id q <$> D) = decision_hits category app_id q d.
Proof.
  induction D as [|x D IH]; intros N I E; [by apply elem_of_nil in I|]. rewrite fmap_cons in *.
  apply NoDup_cons in N as [N1 N2]. simpl. apply elem_of_cons in I as [-> | I].
  - rewrite decisions_none by (by rewrite <- E). lia.
  - rewrite (IH N2 I E), decision_hits_other; [lia|]. intros X. apply N1. rewrite X, <- E.
    by apply list_elem_of_fmap_2.
Qed.

Definition verdict (d : decision) : text * bool := let '(subject, _, allowed) := d in (subject, allowed).

Lemma answer_none old id (D : list decision) i : rs_subject_id i ∉ d_subject <$> D ->
  answer_of old id (verdict <$> D) i = all_counted (recorded id (rs_subject_id i) old).
Proof.
  intros N. unfold answer_of. assert (F : List.find (fun d : text * bool => teqb (fst d) (rs_subject_id i)) (verdict <$> D) = None);
    [|by rewrite F].
  induction D as [|[[su sp] b] D IH]; [done|]. rewrite fmap_cons in *. apply not_elem_of_cons in N as [N1 N2].
  simpl. rewrite (proj2 (teqb_false _ _)); [by apply IH|]. intros E. by apply N1.
Qed.

Lemma answer_own old id (D : list decision) i su specs b : NoDup (d_subject <$> D) -> (su, specs, b) ∈ D ->
  su = rs_subject_id i -> answer_of old id (verdict <$> D) i = b.
Proof.
  intros N I ->. unfold answer_of.
  assert (F : List.find (fun d : text * bool => teqb (fst d) (rs_subject_id i)) (verdict <$> D) = Some (rs_subject_id i, b));
    [|by rewrite F].
  induction D as [|[[su' sp'] b'] D IH]; [by apply elem_of_nil in I|]. rewrite fmap_cons in *.
  apply NoDup_cons in N as [N1 N2]. simpl. apply elem_of_cons in I as [[= -> -> ->] | I]; [by rewrite teqb_refl|].
  rewrite (proj2 (teqb_false _ _)); [by apply IH|]. intros ->. apply N1.
  apply list_elem_of_fmap. by exists (rs_subject_id i, specs, b).
Qed.

Lemma decided_of_ok s category app_id limits windows fresh :
  let D := decided_of s category app_id limits windows fresh in
  NoDup (d_subject <$> D) /\
  (forall d, d ∈ D -> exists i, i ∈ fresh /\ d_subject d = rs_subject_id i) /\
  (forall i, i ∈ fresh -> exists specs, (rs_subject_id i, specs,
     within_limits s category app_id (rs_subject_id i) (item_specs category app_id limits windows (rs_projection_hmac i))) ∈ D
     /\ shape <$> specs = shape <$> item_specs category app_id limits windows (rs_projection_hmac i)
     /\ ws_kind <$> specs = expected_windows category).
Proof.
  intros D. destruct (unique_subjects_ok fresh []) as (N & S & C). split_and!.
  - unfold D, decided_of. rewrite <- list_fmap_compose. exact N.
  - intros d (j & -> & J)%list_elem_of_fmap. exists j. by destruct (S j J).
  - intros i I. destruct (C i I) as (j & J & E); [apply not_elem_of_nil|].
    exists (item_specs category app_id limits windows (rs_projection_hmac j)).
    split_and!; [|apply item_specs_shape | apply item_specs_kinds].
    apply list_elem_of_fmap. exists j. split; [|done]. rewrite <- E. f_equal.
    apply within_limits_shape, item_specs_shape.
Qed.

(** ** What is recorded *)

Lemma recorded_same id subject s s' :
  (forall w, frequency_entries s' !! (id, subject, w) = frequency_entries s !! (id, subject, w)) ->
  recorded id subject s' = recorded id subject s.
Proof. intros E. unfold recorded. simpl. by rewrite !E. Qed.

Lemma recorded_none id subject s w : recorded id subject s = [] -> frequency_entries s !! (id, subject, w) = None.
Proof.
  unfold recorded. simpl. destruct (frequency_entries s !! (id, subject, WindowKind.minute)) eqn:M; [done|].
  destruct (frequency_entries s !! (id, subject, WindowKind.day)) eqn:D; [done|]. by destruct w.
Qed.

Lemma lookup_iff_some {V} (o : option V) (P : V -> Prop) v : (forall e, o = Some e <-> P e) -> P v -> o = Some v.
Proof. intros H. apply H. Qed.

Lemma lookup_iff_none {V} (o : option V) (P : V -> Prop) : (forall e, o = Some e <-> P e) -> (forall e, ~ P e) -> o = None.
Proof. intros H N. destruct o as [v|]; [|done]. destruct (N v). by apply H. Qed.

Lemma recorded_after category app_id ud id subject b specs s' :
  ws_kind <$> specs = expected_windows category ->
  (forall w e, frequency_entries s' !! (id, subject, w) = Some e <->
     exists sp, sp ∈ specs /\ w = ws_kind sp /\ e = entry_for category app_id ud b sp) ->
  fst <$> recorded id subject s' = expected_windows category /\ all_counted (recorded id subject s') = b.
Proof.
  intros K H. unfold expected_windows in *.
  destruct (is_verify category).
  - destruct specs as [|s1 [|s2 [|]]]; try done. injection K as K1 K2. unfold recorded. simpl.
    rewrite (lookup_iff_some _ _ (entry_for category app_id ud b s1) (H WindowKind.minute)).
    2:{ exists s1. split; [apply list_elem_of_here | done]. }
    rewrite (lookup_iff_some _ _ (entry_for category app_id ud b s2) (H WindowKind.day)).
    2:{ exists s2. split; [apply list_elem_of_further, list_elem_of_here | done]. }
    simpl. split; [done|]. by destruct b.
  - destruct specs as [|s1 [|]]; try done. injection K as K1. unfold recorded. simpl.
    rewrite (lookup_iff_none _ _ (H WindowKind.minute)).
    2:{ intros e (sp & ->%list_elem_of_singleton & X & _). congruence. }
    rewrite (lookup_iff_some _ _ (entry_for category app_id ud b s1) (H WindowKind.day)).
    2:{ exists s1. split; [apply list_elem_of_here | done]. }
    simpl. split; [done|]. by destruct b.
Qed.

(** The effect of a block on one of its items. *)
Definition item_effect (id category : text) (app_id : Z) (limits : FrequencyLimits)
    (windows : text * Z * text * date * Z) (s s' : db) (i : ResolvedFrequencySubject) (b : bool) : Prop :=
  let specs := item_specs category app_id limits windows (rs_projection_hmac i) in
  fst <$> recorded id (rs_subject_id i) s' = expected_windows category /\
  all_counted (recorded id (rs_subject_id i) s') = b /\
  if bool_decide (recorded id (rs_subject_id i) s = []) then
    b = within_limits s category app_id (rs_subject_id i) specs /\
    forall sp, sp ∈ specs -> let q := query_of category app_id (rs_subject_id i) sp in count s' q = count s q + b2z b
  else b = all_counted (recorded id (rs_subject_id i) s) /\
    forall q, q_subject q = rs_subject_id i -> count s' q = count s q.

Section Block.
Context (id category : text) (app_id : Z) (limits : FrequencyLimits) (windows : text * Z * text * date * Z).
Context (s s' : db) (D : list decision) (fresh items : list ResolvedFrequencySubject).
Hypothesis HD : D = decided_of s category app_id limits windows fresh.
Hypothesis Hcount : forall q, count s' q = count s q + sumZ (decision_hits category app_id q <$> D).
Hypothesis Hentries : forall k e, frequency_entries s' !! k = Some e <-> frequency_entries s !! k = Some e \/
     exists subject specs b sp, (subject, specs, b) ∈ D /\ sp ∈ specs /\
       k = (id, subject, ws_kind sp) /\ e = entry_for category app_id (window_date windows) b sp.
Hypothesis Hfresh : forall i, i ∈ fresh <-> i ∈ items /\ is_new category id s i = Ok true.
Hypothesis Htotal : forall i, i ∈ items -> is_new category id s i = Ok true \/ is_new category id s i = Ok false.

Lemma fresh_effect i : i ∈ fresh -> item_effect id category app_id limits windows s s' i (answer_of s id (verdict <$> D) i).
Proof using HD Hcount Hentries Hfresh.
  intros I. destruct (decided_of_ok s category app_id limits windows fresh) as (N & _ & C).
  rewrite <- HD in N, C. destruct (C i I) as (specs & M & Sh & Ki). apply Hfresh in I as [_ E].
  apply is_new_spec in E. set (b := within_limits _ _ _ _ _) in M.
  rewrite (answer_own _ _ _ _ _ _ _ N M eq_refl).
  destruct (recorded_after category app_id (window_date windows) id (rs_subject_id i) b specs s' Ki) as [R1 R2].
  { intros w e. rewrite Hentries, (recorded_none _ _ _ _ E). split.
    - intros [?|(su & sps & b' & sp & J & K & [= <- ->] & ->)]; [done|].
      assert ((rs_subject_id i, sps, b') = (rs_subject_id i, specs, b)) as [= -> ->]; [|eauto].
      by apply (nodup_key d_subject D).
    - intros (sp & K & -> & ->). right. eauto 10. }
  split_and!; [done | done |]. rewrite bool_decide_true by done. split; [done|]. intros sp K q.
  rewrite Hcount, (decisions_own _ _ _ _ _ N M) by done. f_equal. simpl. eapply hits_own; [done | | done].
  rewrite item_specs_kinds. apply expected_nodup.
Qed.

Lemma old_effect i : i ∈ items -> is_new category id s i = Ok false ->
  item_effect id category app_id limits windows s s' i (answer_of s id (verdict <$> D) i).
Proof using HD Hcount Hentries Hfresh.
  intros I E. pose proof (is_new_spec _ _ _ _ _ E) as R. simpl in R.
  assert (NR : recorded id (rs_subject_id i) s <> []).
  { intros X. rewrite X in R. unfold expected_windows in R. by destruct (is_verify category). }
  assert (N : rs_subject_id i ∉ d_subject <$> D).
  { intros (d & S & J)%list_elem_of_fmap. subst D.
    destruct (decided_of_ok s category app_id limits windows fresh) as (_ & O & _).
    destruct (O d J) as (j & [_ F%is_new_spec]%Hfresh & X). simpl in F. congruence. }
  rewrite (answer_none _ _ _ _ N).
  assert (RS : recorded id (rs_subject_id i) s' = recorded id (rs_subject_id i) s).
  { apply recorded_same. intros w. apply option_eq. intros e. rewrite Hentries. split; [|by left].
    intros [?|(su & sps & b' & sp & J & K & [= <- ->] & ->)]; [done|]. destruct N.
    apply list_elem_of_fmap. by exists (rs_subject_id i, sps, b'). }
  unfold item_effect. rewrite RS, bool_decide_false by done. split_and!; try done.
  intros q Q. rewrite Hcount, decisions_none; [lia | by rewrite Q].
Qed.

Lemma block_effect i : i ∈ items ->
  item_effect id category app_id limits windows s s' i (answer_of s id (verdict <$> D) i).
Proof using HD Hcount Hentries Hfresh Htotal.
  intros I. destruct (Htotal i I) as [E|E]; [apply fresh_effect, Hfresh | apply old_effect]; done.
Qed.
End Block.

Lemma decide_effect busy id category app_id items limits windows s answers rows s' :
  _decide_frequency_many_on_connection busy id category app_id items limits windows s = Ok ((answers, rows), s') ->
  live_id s id = true ->
  exists f, answers = f <$> items /\ reservations s' = reservations s /\
    forall i, i ∈ items -> item_effect id category app_id limits windows s s' i (f i).
Proof.
  intros H L. unfold _decide_frequency_many_on_connection in H. stx.
  match goal with p : _ * _ |- _ => destruct p as [fresh old] end. cbv iota in H. stx.
  match goal with p : list (text * bool) * _ |- _ => destruct p as [decided changed] end. cbv iota in H. stx.
  match goal with H : split_new _ _ _ _ = _ |- _ => destruct (split_new_ok _ _ _ _ _ _ H) as [F T] end.
  exists (answer_of s id decided). simplify_eq. split; [done|].
  destruct fresh as [|i fresh].
  - stx. subst s'. split; [done|]. intros i I. apply (block_effect _ _ _ _ _ s s [] [] items); try done.
    + intros q. simpl. lia.
    + intros k e. split; [by left|]. intros [E | (? & ? & ? & ? & J & _)]; [done | by apply elem_of_nil in J].
  - match goal with H : _insert_frequency_decisions _ _ _ _ _ _ _ _ = _ |- _ =>
      destruct (insert_decisions_ok _ _ _ _ _ _ _ _ _ _ _ H L) as (-> & R & C & E) end.
    split; [done|]. intros j J. by apply (block_effect _ _ _ _ _ s s' _ (i :: fresh) items).
Qed.

(** C24: a block of frequency decisions answers one verdict per recipient.  A
    recipient the reservation has not decided yet is allowed if and only if one
    more message stays within the limit in every window of the category, over the
    counted entries of the reservations still open; the count of each of its
    windows then grows by one if it is allowed and stays if not.  A recipient that
    was already decided gets the recorded verdict and is not counted again. *)
Theorem frequency_decision (busy : bool) (id category : text) (app_id : Z)
    (items : list ResolvedFrequencySubject) (limits : FrequencyLimits)
    (windows : text * Z * text * date * Z) (s s' : db) (answers : list bool) (rows : list ProjectionRow) :
  live_id s id = true ->
  _decide_frequency_many_on_connection busy id category app_id items limits windows s = Ok ((answers, rows), s') ->
  length answers = length items /\
  forall j i b, items !! j = Some i -> answers !! j = Some b ->
    let subject := rs_subject_id i in
    let specs := item_specs category app_id limits windows (rs_projection_hmac i) in
    let total s sp := live_count s category (frequency_app category app_id) subject (ws_kind sp) (ws_window sp) in
    (recorded id subject s = [] ->
       (b = true <-> forall sp, sp ∈ specs -> total s sp + 1 <= ws_limit sp) /\
       forall sp, sp ∈ specs -> total s' sp = total s sp + (if b then 1 else 0)) /\
    (recorded id subject s <> [] ->
       b = all_counted (recorded id subject s) /\ forall sp, sp ∈ specs -> total s' sp = total s sp).
Proof.
  intros L H. destruct (decide_effect _ _ _ _ _ _ _ _ _ _ _ H L) as (f & -> & _ & E).
  split; [apply length_fmap|]. intros j i b I B subject specs total.
  rewrite list_lookup_fmap, I in B. injection B as <-. destruct (E i) as (_ & _ & X); [by eapply list_elem_of_lookup_2|].
  split; intros R.
  - rewrite bool_decide_true in X by done. destruct X as [V C]. split; [|by apply C].
    rewrite V. unfold within_limits. rewrite forallb_forall. setoid_rewrite Z.leb_le.
    split; intros W sp K; apply W; by apply list_elem_of_In.
  - rewrite bool_decide_false in X by done. destruct X as [V C]. split; [done|]. intros sp _.
    by apply (C (query_of category app_id subject sp)).
Qed.

Definition example_items : list ResolvedFrequencySubject :=
  [mkResolved (tx "h1") [] (tx "s1") (tx "h1"); mkResolved (tx "h2") [] (tx "s2") (tx "h2");
   mkResolved (tx "h3") [] (tx "s1") (tx "h1")].
Definition example_windows : text * Z * text * date * Z := (tx "29", 60, tx "20260105", first_day, 86400).
Definition example_state : db :=
  run [OpStart 0 first_id (tx "req-1") 7 (tx "api_app") (tx "ops") (tx "verify") first_day].
Definition example_decision (per_minute : Z) (s : db) :=
  _decide_frequency_many_on_connection false first_id (tx "verify") 7 example_items
    (mkLimits per_minute 5 5) example_windows s.

Definition answers_of (r : result exc (list bool * list ProjectionRow * db)) : option (list bool) :=
  match r with Ok ((answers, _), _) => Some answers | Raise _ => None end.

Lemma example_answers : answers_of (example_decision 1 example_state) = Some [true; true; true].
Proof. vm_compute. reflexivity. Qed.

Lemma frequency_decision_witness :
  match example_decision 1 example_state with
  | Ok ((answers, _), s') =>
      length answers = 3%nat /\
      live_count s' (tx "verify") None (tx "s1") WindowKind.day (tx "20260105")
      = live_count example_state (tx "verify") None (tx "s1") WindowKind.day (tx "20260105") + 1
  | Raise _ => False
  end.
Proof.
  pose proof example_answers as A. unfold answers_of in A.
  destruct (example_decision 1 example_state) as [[[answers rows] s']|e] eqn:E; [|discriminate A].
  assert (L0 : live_id example_state first_id = true) by (vm_compute; reflexivity).
  destruct (frequency_decision _ _ _ _ _ _ _ _ _ _ _ L0 E) as [L V]. split; [exact L|].
  injection A as ->. destruct (V 0%nat _ _ eq_refl eq_refl) as [F _]. destruct F as [_ G]; [vm_compute; reflexivity|].
  apply (G (mkSpecW WindowKind.day (tx "20260105") (tx "freq:v:h1:d") 5 86400)).
  apply list_elem_of_further, list_elem_of_here.
Defined.

(** A decision of a reservation is final.  Whatever the limits and the
    windows of a retry are, deciding the same recipients again gives the same
    verdicts and leaves the ledger as it is. *)
Theorem frequency_replay (busy busy' : bool) (id category : text) (app_id : Z)
    (items : list ResolvedFrequencySubject) (limits limits' : FrequencyLimits)
    (windows windows' : text * Z * text * date * Z) (s s' : db) (answers : list bool) (rows : list ProjectionRow) :
  live_id s id = true ->
  _decide_frequency_many_on_connection busy id category app_id items limits windows s = Ok ((answers, rows), s') ->
  exists rows', _decide_frequency_many_on_connection busy' id category app_id items limits' windows' s'
    = Ok ((answers, rows'), s').
Proof.
  intros L H. destruct (decide_effect _ _ _ _ _ _ _ _ _ _ _ H L) as (f & -> & _ & E).
  assert (N : forall l, (forall i, i ∈ l -> i ∈ items) -> split_new category id s' l = Ok ([], l)).
  { induction l as [|i l IH]; intros S; [done|]. simpl.
    destruct (E i (S i (list_elem_of_here _ _))) as (R & _). unfold is_new. rewrite bool_decide_true by done.
    simpl. rewrite IH; [done|]. intros j J. apply S. by apply list_elem_of_further. }
  assert (A : answer_of s' id [] <$> items = f <$> items).
  { apply list_fmap_ext. intros j i I. destruct (E i) as (_ & R & _); [by eapply list_elem_of_lookup_2 | done]. }
  unfold _decide_frequency_many_on_connection, get, lift, mbind, stex_bind. cbv beta iota.
  rewrite (N items) by done. eexists. unfold mret, stex_ret. by rewrite A.
Qed.

Lemma frequency_replay_witness :
  match example_decision 1 example_state with
  | Ok ((answers, _), s') => exists rows', example_decision 0 s' = Ok ((answers, rows'), s')
  | Raise _ => False
  end.
Proof.
  pose proof example_answers as A. unfold answers_of in A.
  destruct (example_decision 1 example_state) as [[[answers rows] s']|e] eqn:E; [|discriminate A].
  assert (L0 : live_id example_state first_id = true) by (vm_compute; reflexivity).
  apply (frequency_replay _ false _ _ _ _ _ (mkLimits 0 5 5) _ example_windows _ _ _ _ L0 E).
Defined.
End UsageDecision.
