(* ===== verification/UsageMerge.v ===== *)
(** * Identities that turn out to be one

    A number may have been counted under several subjects, one per generation
    of the phone key.  When a request shows that they are the same number they
    are merged; the merged subject counts what the subjects counted together. *)

From stdpp Require Import sorting.
From S2P Require Import Prelude PyText Outbox Category Redis UsageStore UsageFrequency UsageSafety UsageLedger UsageDecision.

Module UsageMerge.
Import Calendar UsageStore UsageFrequency UsageSafety UsageDecision.

(** ** Steps that leave every count alone *)

Record same_counts (s s' : db) : Prop := {
  sc_reservations : reservations s' = reservations s;
  sc_count : forall q, count s' q = count s q
}.

#[export] Instance same_counts_preorder : PreOrder same_counts.
Proof. split; [done|]. intros a b c [R1 C1] [R2 C2]. split; [congruence|]. intros q. by rewrite C2. Qed.

Lemma same_counts_eq s s' : reservations s' = reservations s -> frequency_entries s' = frequency_entries s ->
  same_counts s s'.
Proof. intros R F. split; [done|]. intros q. unfold count, live_count, counts_towards. by rewrite R, F. Qed.

Lemma filter_map_length {A B} (f : A -> B) (P : B -> bool) (l : list A) :
  length (List.filter P (f <$> l)) = length (List.filter (fun x => P (f x)) l).
Proof. induction l as [|x l IH]; [done|]. rewrite fmap_cons. simpl. destruct (P (f x)); simpl; by rewrite IH. Qed.

Lemma filter_ext_length {A} (P Q : A -> bool) (l : list A) : (forall x, P x = Q x) ->
  length (List.filter P l) = length (List.filter Q l).
Proof. intros E. induction l as [|x l IH]; [done|]. simpl. rewrite E. destruct (Q x); simpl; by rewrite IH. Qed.

Lemma same_rename m : within same_counts (rename_key m).
Proof.
  apply within_modify. intros s. split; [done|]. intros q. unfold count, live_count.
  cbn [frequency_entries set_frequency_entries]. f_equal.
  rewrite map_to_list_fmap, filter_map_length. apply filter_ext_length. intros [[[r sub] w] e]. simpl.
  by destruct (teqb _ (fst m)).
Qed.

Lemma same_projections s s' : only_projections s s' -> same_counts s s'.
Proof. intros O. split; [apply O | intros q; by apply count_projections]. Qed.

Lemma within_weaken {A} (R R' : relation db) (m : tx_ A) : (forall s s', R s s' -> R' s s') -> within R m -> within R' m.
Proof. intros I W s x s' H. by eapply I, W. Qed.

(** ** Moving the entries of a subject *)

Lemma move_nodup (m : gmap (text * text * WindowKind.t) FrequencyEntry.t) source target :
  List.existsb (fun p : fentry => teqb (entry_subject p) source
    && bool_decide (is_Some (m !! move_key source target (fst p)))) (map_to_list m) = false ->
  NoDup (prod_map (move_key source target) (@id FrequencyEntry.t) <$> map_to_list m).*1.
Proof.
  intros N. rewrite <- list_fmap_compose.
  assert (G : forall k e, m !! k = Some e -> (let '(_, sub, _) := k in sub) = source ->
            m !! move_key source target k = None).
  { intros [[r sub] w] e E S. destruct (m !! move_key source target (r, sub, w)) as [e'|] eqn:X; [|done].
    exfalso. assert (T : List.existsb (fun p : fentry => teqb (entry_subject p) source
      && bool_decide (is_Some (m !! move_key source target (fst p)))) (map_to_list m) = true); [|congruence].
    apply existsb_exists. exists ((r, sub, w), e). split; [by apply list_elem_of_In, elem_of_map_to_list|].
    apply andb_true_iff. split; [by apply teqb_spec|]. apply bool_decide_eq_true. cbn [fst]. rewrite X. by eexists. }
  eapply (NoDup_fmap_2_strong); [|apply NoDup_map_to_list].
  intros [[[r sub] w] e] [[[r' sub'] w'] e'] I J E.
  apply elem_of_map_to_list in I, J. cbn in E. injection E as -> ES ->.
  assert (X : sub = sub').
  { destruct (teqb sub source) eqn:T1, (teqb sub' source) eqn:T2; rewrite ?teqb_spec in T1; rewrite ?teqb_spec in T2.
    - congruence.
    - pose proof (G _ _ I T1) as X. simpl in X. rewrite T1, teqb_refl, ES in X. congruence.
    - pose proof (G _ _ J T2) as X. simpl in X. rewrite T2, teqb_refl, <- ES in X. congruence.
    - congruence. }
  subst sub'. congruence.
Qed.

Definition about (q : query) (subject : text) : query :=
  mkQuery (q_category q) (q_app q) subject (q_kind q) (q_window q).

Lemma filter_split_length {A} (P Q R : A -> bool) (l : list A) :
  (forall x, b2z (P x) = b2z (Q x) + b2z (R x)) ->
  Z.of_nat (length (List.filter P l)) = Z.of_nat (length (List.filter Q l)) + Z.of_nat (length (List.filter R l)).
Proof.
  intros E. induction l as [|x l IH]; [done|]. simpl. specialize (E x).
  destruct (P x), (Q x), (R x); simpl in *; lia.
Qed.

Lemma filter_none_length {A} (P : A -> bool) (l : list A) : (forall x, P x = false) ->
  Z.of_nat (length (List.filter P l)) = 0.
Proof. intros E. induction l as [|x l IH]; [done|]. simpl. by rewrite E. Qed.

Lemma move_counts source target s u s' : move_entries source target s = Ok (u, s') -> source <> target ->
  reservations s' = reservations s /\ subjects s' = subjects s /\
  forall q x, count s' (about q x) =
    if bool_decide (x = target) then count s (about q target) + count s (about q source)
    else if bool_decide (x = source) then 0 else count s (about q x).
Proof.
  intros H N. unfold move_entries in H. stx. split; [done|]. split; [done|]. intros q x.
  match goal with H : List.existsb _ _ = false |- _ => pose proof (move_nodup _ _ _ H) as ND end.
  unfold count, live_count. cbn [frequency_entries set_frequency_entries]. unfold kmap.
  rewrite (filter_perm_length _ _ _ (map_to_list_to_map _ ND)), filter_map_length.
  set (l := map_to_list (frequency_entries s)).
  case_bool_decide as T; [subst x|case_bool_decide as S; [subst x|]].
  - apply filter_split_length. intros [[[r sub] w] e]. simpl.
    destruct (teqb sub source) eqn:E; [apply teqb_spec in E as ->|].
    + by rewrite teqb_refl, (proj2 (teqb_false source target)).
    + simpl. destruct (teqb sub target); simpl; [|done]. destruct (_ && _); simpl; lia.
  - apply filter_none_length. intros [[[r sub] w] e]. simpl.
    destruct (teqb sub source) eqn:E; [by rewrite (proj2 (teqb_false target source)) | by rewrite E].
  - f_equal. apply filter_ext_length. intros [[[r sub] w] e]. simpl.
    destruct (teqb sub source) eqn:E; [apply teqb_spec in E as ->|done].
    by rewrite (proj2 (teqb_false target x)), (proj2 (teqb_false source x)).
Qed.

(** ** One subject absorbs the others *)

Lemma same_modify (f : db -> db) : (forall s, reservations (f s) = reservations s) ->
  (forall s, frequency_entries (f s) = frequency_entries s) -> within (E:=exc) same_counts (modify f).
Proof. intros R F. apply within_modify. intros s. by apply same_counts_eq. Qed.

Lemma same_move_aliases a b : within same_counts (move_aliases a b).
Proof. unfold move_aliases. within_tac. by apply same_modify. Qed.

Lemma same_delete_subject id : within same_counts (delete_subject id).
Proof. unfold delete_subject. within_tac; by apply same_modify. Qed.

Lemma absorb_counts target source s u s' : absorb target source s = Ok (u, s') -> fst source <> target ->
  reservations s' = reservations s /\
  forall q x, count s' (about q x) =
    if bool_decide (x = target) then count s (about q target) + count s (about q (fst source))
    else if bool_decide (x = fst source) then 0 else count s (about q x).
Proof.
  intros H N. unfold absorb in H. rewrite (proj2 (teqb_false _ _) N) in H. stx.
  match goal with H : move_aliases _ _ _ = _ |- _ => apply same_move_aliases in H as [R1 C1] end.
  match goal with H : move_entries _ _ _ = _ |- _ => destruct (move_counts _ _ _ _ _ H N) as (R2 & _ & C2) end.
  match goal with H : delete_subject _ _ = _ |- _ => apply same_delete_subject in H as [R3 C3] end.
  split; [congruence|]. intros q x. by rewrite C3, C2, !C1.
Qed.

Lemma absorb_all_counts target rows : forall s u s', for_each (absorb target) rows s = Ok (u, s') ->
  NoDup (fst <$> rows) ->
  reservations s' = reservations s /\
  forall q, count s' (about q target)
    = count s (about q target)
      + sumZ ((fun r : text * text => count s (about q (fst r))) <$> List.filter (fun r => negb (teqb (fst r) target)) rows).
Proof.
  induction rows as [|r rows IH]; intros s u s' H N; simpl in H; stx; [split; [done|]; intros q; simpl; lia|].
  rewrite fmap_cons in N. apply NoDup_cons in N as [N1 N2].
  match goal with H : for_each _ _ _ = _ |- _ => destruct (IH _ _ _ H N2) as [R C] end.
  simpl. destruct (teqb (fst r) target) eqn:T; simpl.
  - match goal with H : absorb _ _ _ = _ |- _ => unfold absorb in H; rewrite T in H; stx end. done.
  - apply teqb_false in T.
    match goal with H : absorb _ _ _ = _ |- _ => destruct (absorb_counts _ _ _ _ _ H T) as [R1 C1] end.
    split; [congruence|]. intros q. rewrite C, C1, bool_decide_true by done.
    rewrite <- Z.add_assoc. do 2 f_equal. apply (f_equal sumZ). apply list_fmap_ext. intros j y I.
    assert (Y : y ∈ rows) by (apply list_elem_of_lookup_2 in I; by apply filter_in in I as [I _]).
    assert (YT : fst y <> target).
    { apply list_elem_of_lookup_2, filter_in in I as [_ I]. intros X. rewrite X, teqb_refl in I. done. }
    rewrite C1, !bool_decide_false; [done | | done]. intros X. apply N1. rewrite <- X. by apply list_elem_of_fmap_2.
Qed.

(** ** The projections of the merged subjects *)

#[local] Hint Resolve only_projections_nextval only_projections_write : within.

Lemma same_absolute busy key kind d w v x : within same_counts (_write_absolute_frequency_projection busy key kind d w v x).
Proof.
  apply (within_weaken only_projections); [apply same_projections|].
  unfold _write_absolute_frequency_projection. within_tac.
Qed.
#[local] Hint Resolve same_absolute : within.

Lemma same_tombstone busy key rows refs : within same_counts (_write_expired_canonical_tombstone busy key rows refs).
Proof. unfold _write_expired_canonical_tombstone. within_tac. Qed.
#[local] Hint Resolve same_tombstone : within.

Lemma same_merge_group busy now remaps refs needed acc g :
  within same_counts (merge_group busy now remaps refs needed acc g).
Proof. destruct g. unfold merge_group. within_tac. Qed.

Lemma same_merge_remap busy refs needed acc m : within same_counts (merge_remap busy refs needed acc m).
Proof. destruct m. unfold merge_remap. within_tac. Qed.

Lemma same_fold {A B} (f : B -> A -> tx_ B) l acc : (forall acc x, within same_counts (f acc x)) ->
  within same_counts (fold_tx f acc l).
Proof.
  intros F. revert acc. induction l as [|x l IH]; intros acc; simpl; [within_tac|].
  apply within_bind; [apply _ | apply F | intros y; apply IH].
Qed.

Lemma same_merge busy now hmac rows : within same_counts (_merge_frequency_projections busy now hmac rows).
Proof.
  assert (G : forall remaps refs needed acc l, within same_counts (fold_tx (merge_group busy now remaps refs needed) acc l))
    by (intros; apply same_fold; intros; apply same_merge_group).
  assert (M : forall refs needed acc l, within same_counts (fold_tx (merge_remap busy refs needed) acc l))
    by (intros; apply same_fold; intros; apply same_merge_remap).
  assert (R : forall l, within same_counts (for_each rename_key l))
    by (intros; apply within_each; [apply _ | intros; apply same_rename]).
  assert (A : forall l, within same_counts (for_each _assert_canonical_holds_newest_window l)).
  { intros l. apply within_each; [apply _|]. intros [[[t d] w] v] _.
    unfold _assert_canonical_holds_newest_window. within_tac. }
  unfold _merge_frequency_projections. within_tac. by apply same_modify.
Qed.

Lemma same_bind id i : within same_counts (_bind_frequency_aliases id i).
Proof.
  assert (B : forall l, within same_counts (for_each (bind_alias id) l)).
  { intros l. apply within_each; [apply _|]. intros a _. unfold bind_alias. within_tac. by apply same_modify. }
  unfold _bind_frequency_aliases, bind_aliases. within_tac.
Qed.

Lemma same_insert_subject id hmac : within same_counts (insert_subject id hmac).
Proof. unfold insert_subject. within_tac. by apply same_modify. Qed.

(** ** Uniting the subjects of a number *)

Lemma remove_dups_perm {A} `{EqDecision A} (l : list A) : NoDup l -> remove_dups l ≡ₚ l.
Proof. intros N. apply NoDup_Permutation; [apply NoDup_remove_dups | done | intros x; apply elem_of_remove_dups]. Qed.

Lemma omap_full {A} (m : gmap text A) (l : list text) :
  length (omap (fun x => pair x <$> m !! x) l) = length l -> fst <$> omap (fun x => pair x <$> m !! x) l = l.
Proof.
  assert (LE : forall l, (length (omap (fun x => pair x <$> m !! x) l) <= length l)%nat).
  { induction l0 as [|x l0 IH]; [done|]. simpl. destruct (m !! x); simpl; [apply le_n_S, IH | apply le_S, IH]. }
  induction l as [|x l IH]; [done|]. simpl. destruct (m !! x) as [a|]; simpl; intros H.
  - injection H as H. f_equal. exact (IH H).
  - exfalso. apply (Nat.nle_succ_diag_l (length l)). rewrite <- H. apply LE.
Qed.

Lemma load_rows_ids ids s : NoDup ids -> length (_load_frequency_subject_rows ids s) = length ids ->
  fst <$> _load_frequency_subject_rows ids s ≡ₚ ids.
Proof.
  intros N L. unfold _load_frequency_subject_rows in *. rewrite merge_sort_Permutation in *.
  rewrite omap_full; [by apply remove_dups_perm|]. by rewrite L, (remove_dups_perm ids N).
Qed.

Lemma sum_split (f : text -> Z) (rows : list (text * text)) c : NoDup (fst <$> rows) -> c ∈ rows ->
  sumZ (f <$> (fst <$> rows))
  = f (fst c) + sumZ ((fun r : text * text => f (fst r)) <$> List.filter (fun r => negb (teqb (fst r) (fst c))) rows).
Proof.
  assert (K : forall t l, t ∉ fst <$> l -> List.filter (fun r : text * text => negb (teqb (fst r) t)) l = l).
  { induction l as [|x l IH]; intros N; [done|]. rewrite fmap_cons in N. apply not_elem_of_cons in N as [N1 N2].
    simpl. rewrite (proj2 (teqb_false (fst x) t)) by congruence. simpl. by rewrite IH. }
  induction rows as [|r rows IH]; intros N I; [by apply elem_of_nil in I|]. rewrite !fmap_cons in *.
  apply NoDup_cons in N as [N1 N2]. cbn [List.filter sumZ foldr]. fold (sumZ (f <$> (fst <$> rows))). apply elem_of_cons in I as [-> | I].
  - rewrite teqb_refl. simpl. rewrite (K _ _ N1), <- list_fmap_compose. done.
  - rewrite (proj2 (teqb_false (fst r) (fst c))).
    + cbn [negb]. rewrite fmap_cons, (IH N2 I). cbn [sumZ foldr]. fold (sumZ ((fun r : text * text => f (fst r)) <$> List.filter (fun r => negb (teqb (fst r) (fst c))) rows)). lia.
    + intros X. apply N1. rewrite X. by apply list_elem_of_fmap_2.
Qed.

Lemma unite_counts busy now (canonical : text * text) subs ids s r s' :
  (if Nat.leb (length subs) 1 then mret (fst canonical, snd canonical, []) else
   merged ← _merge_frequency_projections busy now (snd canonical) subs;
   _ ← for_each (absorb (fst canonical)) subs;
   mret (fst canonical, snd canonical, merged)) s = Ok (r, s') ->
  canonical ∈ subs -> NoDup (fst <$> subs) -> fst <$> subs ≡ₚ ids ->
  fst (fst r) = fst canonical /\
  forall q, count s' (about q (fst canonical)) = sumZ ((fun y => count s (about q y)) <$> ids).
Proof.
  intros H C N P.
  assert (T : forall q, sumZ ((fun y => count s (about q y)) <$> ids) = count s (about q (fst canonical))
    + sumZ ((fun r : text * text => count s (about q (fst r)))
            <$> List.filter (fun r => negb (teqb (fst r) (fst canonical))) subs)).
  { intros q. rewrite <- (sumZ_perm _ _ (fmap_Permutation _ _ _ P)).
    apply (sum_split (fun y => count s (about q y)) subs canonical N C). }
  destruct (Nat.leb (length subs) 1) eqn:L; stx; (split; [done|]); intros q; rewrite T.
  - apply Nat.leb_le in L. destruct subs as [|c [|]]; simpl in L; [by apply elem_of_nil in C | | lia].
    apply list_elem_of_singleton in C as ->. simpl. rewrite teqb_refl. simpl. lia.
  - match goal with H : _merge_frequency_projections _ _ _ _ _ = _ |- _ => apply same_merge in H as [_ M] end.
    match goal with H : for_each _ _ _ = _ |- _ => destruct (absorb_all_counts _ _ _ _ _ H N) as [_ A] end.
    rewrite A, M. f_equal. apply (f_equal sumZ). apply list_fmap_ext. intros j y _. apply M.
Qed.

(** C25: a request whose digests were counted under several subjects unites them.
    The subject it continues with counts, in every category, application and
    window, exactly what the subjects it found counted together, so a new phone
    key gives no number a fresh allowance and takes none away. *)
Theorem frequency_merge (busy : bool) (now : Z) (fresh : text) (i : FrequencyDecisionItem) (s s' : db)
    (id hmac : text) (rows : list ProjectionRow) :
  _ensure_frequency_subject busy now fresh i s = Ok ((id, hmac, rows), s') ->
  _item_subject_ids i s <> [] ->
  forall (category : text) (app : option Z) (w : WindowKind.t) (window : text),
    live_count s' category app id w window
    = sumZ ((fun x => live_count s category app x w window) <$> _item_subject_ids i s).
Proof.
  intros H NE category app w window. set (q := mkQuery category app id w window).
  change (count s' (about q id) = sumZ ((fun x => count s (about q x)) <$> _item_subject_ids i s)).
  unfold _ensure_frequency_subject in H. stx. cbv zeta in *.
  match goal with H : _bind_frequency_aliases _ _ _ = _ |- _ => apply same_bind in H as [_ B] end.
  assert (ND : NoDup (_item_subject_ids i s)) by apply NoDup_remove_dups.
  destruct (_item_subject_ids i s) as [|x ids] eqn:IDS; [done|]. stx.
  set (subs := _load_frequency_subject_rows (x :: ids) s) in *.
  match goal with H : Nat.eqb _ _ = true |- _ => apply Nat.eqb_eq in H as LEN end.
  pose proof (load_rows_ids _ s ND LEN) as P. fold subs in P.
  assert (NS : NoDup (fst <$> subs)) by by rewrite P.
  match goal with H : match ?l ++ subs with _ => _ end _ = _ |- _ => destruct (l ++ subs) as [|c rest] eqn:E; [done|] end.
  assert (C : c ∈ subs).
  { assert (I : c ∈ c :: rest) by apply list_elem_of_here. rewrite <- E in I.
    apply elem_of_app in I as [[I _]%filter_in|I]; done. }
  match goal with H : (if Nat.leb _ _ then _ else _) _ = _ |- _ =>
    destruct (unite_counts _ _ _ _ _ _ _ _ H C NS P) as [F U] end.
  injection H as -> <-. simpl in F. by rewrite B, F, U.
Qed.

Definition old_digest : text := replicate 64 97.
Definition new_digest : text := replicate 64 98.
Definition counted_entry (hmac : text) : FrequencyEntry.t :=
  FrequencyEntry.mk None (tx "verify") (tx "20260105") UsageLedger.first_day
    (tx "freq:v:" ++ hmac ++ tx ":d") true 86400.
Definition example_row : UsageRow.t :=
  UsageRow.mk (tx "req-1") 7 (tx "api_app") (tx "ops") (tx "verify") UsageLedger.first_day
    UsageState.reserved 0 0 0 None None None None None 0.
Definition two_subjects : db :=
  mkDb (<[tx "r1" := example_row]> (<[tx "r2" := example_row]> ∅)) ∅
    (<[(tx "r1", tx "s1", WindowKind.day) := counted_entry old_digest]>
     (<[(tx "r2", tx "s2", WindowKind.day) := counted_entry new_digest]> ∅))
    ∅ (<[tx "s1" := old_digest]> (<[tx "s2" := new_digest]> ∅))
    (<[old_digest := (tx "s1", 1)]> (<[new_digest := (tx "s2", 2)]> ∅)) ∅ [] 1 Outbox.empty_db [].
Definition same_number : FrequencyDecisionItem := mkItem new_digest [(1, old_digest); (2, new_digest)].

Definition subject_after (r : result exc (text * text * list ProjectionRow * db)) : option text :=
  match r with Ok ((subject, _, _), _) => Some subject | Raise _ => None end.

Lemma example_united : subject_after (_ensure_frequency_subject false 0 (tx "s9") same_number two_subjects) = Some (tx "s1").
Proof. vm_compute. reflexivity. Qed.

Lemma frequency_merge_witness :
  match _ensure_frequency_subject false 0 (tx "s9") same_number two_subjects with
  | Ok ((subject, _, _), s') =>
      subject = tx "s1" /\ live_count s' (tx "verify") None subject WindowKind.day (tx "20260105") = 2
  | Raise _ => False
  end.
Proof.
  pose proof example_united as A. unfold subject_after in A.
  destruct (_ensure_frequency_subject false 0 (tx "s9") same_number two_subjects)
    as [[[[subject hmac] rows] s']|e] eqn:E; [|discriminate A].
  injection A as ->. split; [reflexivity|].
  rewrite (frequency_merge _ _ _ _ _ _ _ _ _ E).
  - vm_compute. reflexivity.
  - intros X. apply (f_equal length) in X. vm_compute in X. discriminate X.
Defined.
End UsageMerge.
