(* ===== verification/UsageRedis.v ===== *)
(** * The usage projections in Redis

    The ledger shows its absolute values in Redis ([usage_ledger_projection.py]):
    rows are cut into commands of bounded size and applied by scripts that keep
    the newest version of every dimension; a rebuild owns a marker while it runs.
    This file holds the commands and the scripts, that every command stays within
    its budget, and what an application does to Redis. *)

From stdpp Require Import sorting.
From S2P Require Import Prelude PyText Utf8 Redis UsageStore.

Module UsageRedis.
Import Calendar Redis UsageStore.

(** ** Commands *)

Definition _version_key (dimension_key : text) : text := tx "usage:projection:version:" ++ dimension_key.
Definition _ready_key (date_key : text) : text := tx "usage:projection:ready:" ++ date_key.

Definition PROJECTION_BATCH_ROWS : Z := 500.
Definition PROJECTION_COMMAND_BYTES : Z := 256 * 1024.
Definition PROJECTION_REBUILD_KEY : text := tx "usage:projection:rebuilding".
Definition PROJECTION_REBUILD_TTL_S : Z := 300.

Definition APPLY_PROJECTIONS_TEXT : text := tx "
local applied = 0
for key_index = 1, #KEYS, 2 do
  local row_index = ((key_index - 1) / 2) * 3
  local current_version = tonumber(redis.call('GET', KEYS[key_index + 1]) or '-1')
  local incoming_version = tonumber(ARGV[row_index + 2])
  if current_version <= incoming_version then
    redis.call(
      'SET', KEYS[key_index], ARGV[row_index + 1],
      'PXAT', ARGV[row_index + 3]
    )
    redis.call(
      'SET', KEYS[key_index + 1], ARGV[row_index + 2],
      'PXAT', ARGV[row_index + 3]
    )
    applied = applied + 1
  end
end
return applied
".

(** [len(s.encode('utf-8'))]; a surrogate cannot be encoded. *)
Definition encoded_size (s : text) : result exc Z :=
  if List.existsb surrogate s then Raise (Exc (tx "UnicodeEncodeError") (tx "surrogates not allowed"))
  else Ok (sumZ (utf8_width <$> s)).

Definition count_of {A} (l : list A) : Z := Z.of_nat (length l).

(** The size of a command in the protocol of Redis. *)
Fixpoint arguments_bytes (arguments : list text) : result exc Z :=
  match arguments with
  | [] => Ok 0
  | a :: rest =>
      size ← encoded_size a;
      n ← arguments_bytes rest;
      Ok (size + len (str_int size) + 5 + n)
  end.
Definition _redis_command_bytes (arguments : list text) : result exc Z :=
  n ← arguments_bytes arguments;
  Ok (len (str_int (count_of arguments)) + 3 + n).

(** [int(expires_at.timestamp() * 1000)]: milliseconds of the deadline of a row,
    without the rounding of the floating-point product. *)
Definition deadline_ms (r : ProjectionRow) : Z := pr_expires_at r / 1000.

Definition _projection_arguments (r : ProjectionRow) : list text :=
  [pr_dimension_key r; _version_key (pr_dimension_key r); str_int (pr_value r); str_int (pr_version r);
   str_int (deadline_ms r)].

Definition overhead : result exc Z :=
  _redis_command_bytes [tx "EVAL"; APPLY_PROJECTIONS_TEXT; str_int (PROJECTION_BATCH_ROWS * 2)].

(** The batches a generator yields, and what it raises at the end, if anything;
    [batch] is the open one, of size [size]. *)
Fixpoint batches_from (over size : Z) (batch rows : list ProjectionRow)
    : list (list ProjectionRow) * option exc :=
  match rows with
  | [] => (match batch with [] => [] | _ => [batch] end, None)
  | row :: rest =>
      match _redis_command_bytes (_projection_arguments row) with
      | Raise e => ([], Some e)
      | Ok n =>
          let row_bytes := n + 16 in
          if PROJECTION_COMMAND_BYTES <? over + row_bytes
          then ([], Some (UsageProjectionUnavailable "usage projection dimension exceeds command budget"))
          else if negb (bool_decide (batch = []))
                  && ((PROJECTION_BATCH_ROWS <=? count_of batch) || (PROJECTION_COMMAND_BYTES <? size + row_bytes))
          then let '(l, e) := batches_from over (over + row_bytes) [row] rest in (batch :: l, e)
          else batches_from over (size + row_bytes) (batch ++ [row]) rest
      end
  end.

Definition _projection_batches (rows : list ProjectionRow) : list (list ProjectionRow) * option exc :=
  match overhead with
  | Ok over => batches_from over over [] rows
  | Raise e => ([], Some e)
  end.

(** The arguments of the command for a batch: the keys of all rows, then their values. *)
Definition row_keys (r : ProjectionRow) : list text := [pr_dimension_key r; _version_key (pr_dimension_key r)].
Definition row_values (r : ProjectionRow) : list text :=
  [str_int (pr_value r); str_int (pr_version r); str_int (deadline_ms r)].
Definition eval_arguments (batch : list ProjectionRow) : list text :=
  let sorted := merge_sort row_le batch in
  [tx "EVAL"; APPLY_PROJECTIONS_TEXT; str_int (2 * count_of batch)]
  ++ concat (row_keys <$> sorted) ++ concat (row_values <$> sorted).

(** ** Scripts *)

(** One row of a script's keys and arguments. *)
Definition projection_line (now : Z) (r : ProjectionRow) : script bool :=
  raw ← GET (_version_key (pr_dimension_key r));
  current ← (match raw with
             | None => mret (-1)
             | Some v => match tonumber v with Some n => mret n | None => fail LUA_ERROR end
             end : script Z);
  if pr_version r <? current then mret false else
  _ ← SET_PXAT now (pr_dimension_key r) (str_int (pr_value r)) (deadline_ms r);
  _ ← SET_PXAT now (_version_key (pr_dimension_key r)) (str_int (pr_version r)) (deadline_ms r);
  mret true.

Definition APPLY_PROJECTION_LUA (now : Z) (r : ProjectionRow) : script Z :=
  b ← projection_line now r; mret (if b : bool then 1 else 0).

Fixpoint apply_lines (now : Z) (rows : list ProjectionRow) (applied : Z) : script Z :=
  match rows with
  | [] => mret applied
  | r :: rows => b ← projection_line now r; apply_lines now rows (if b : bool then applied + 1 else applied)
  end.
Definition APPLY_PROJECTIONS_LUA (now : Z) (batch : list ProjectionRow) : script Z :=
  apply_lines now (merge_sort row_le batch) 0.

Definition BEGIN_PROJECTION_REBUILD_LUA (now : Z) (rebuild_key ready_key token : text) (ttl : Z) : script Z :=
  _ ← SET now rebuild_key token (EX ttl); _ ← DEL ready_key; mret 1.

Definition RENEW_PROJECTION_REBUILD_LUA (now : Z) (rebuild_key token : text) (ttl : Z) : script Z :=
  owner ← GET rebuild_key;
  if negb (bool_decide (owner = Some token)) then mret 0 else
  _ ← EXPIRE now rebuild_key ttl; mret 1.

Fixpoint set_ready (now : Z) (keys : list (text * Z)) : script unit :=
  match keys with
  | [] => mret tt
  | (k, deadline) :: keys => _ ← SET_PXAT now k (tx "1") deadline; set_ready now keys
  end.
Definition PUBLISH_PROJECTION_READY_LUA (now : Z) (rebuild_key : text) (ready : list (text * Z)) (token : text)
    : script Z :=
  owner ← GET rebuild_key;
  if match token with
     | [] => bool_decide (is_Some owner)
     | _ => negb (bool_decide (owner = Some token))
     end then mret 0 else
  _ ← set_ready now ready;
  match token with
  | [] => mret 1
  | _ => _ ← DEL rebuild_key; mret 1
  end.

(** ** The budget of a command *)

Definition plain_text (s : text) : bool := negb (List.existsb surrogate s).
Definition size_of (s : text) : Z := sumZ (utf8_width <$> s).
Definition argument_bytes (s : text) : Z := size_of s + len (str_int (size_of s)) + 5.

Lemma arguments_bytes_spec l :
  arguments_bytes l = if forallb plain_text l then Ok (sumZ (argument_bytes <$> l))
                      else Raise (Exc (tx "UnicodeEncodeError") (tx "surrogates not allowed")).
Proof.
  induction l as [|a l IH]; [done|]. cbn [arguments_bytes forallb]. unfold encoded_size, plain_text at 1.
  destruct (List.existsb surrogate a); [done|]. rewrite IH. by destruct (forallb plain_text l).
Qed.

Lemma command_bytes_ok l n : _redis_command_bytes l = Ok n <->
  forallb plain_text l = true /\ n = len (str_int (count_of l)) + 3 + sumZ (argument_bytes <$> l).
Proof.
  unfold _redis_command_bytes. rewrite arguments_bytes_spec. destruct (forallb plain_text l); simpl.
  - split; [by intros [= <-] | by intros [_ ->]].
  - split; [done | by intros []].
Qed.

Definition row_cost (r : ProjectionRow) : Z := 20 + sumZ (argument_bytes <$> _projection_arguments r).
Definition row_plain (r : ProjectionRow) : bool := forallb plain_text (_projection_arguments r).

Lemma row_bytes_ok r n : _redis_command_bytes (_projection_arguments r) = Ok n <-> row_plain r = true /\ n + 16 = row_cost r.
Proof.
  rewrite command_bytes_ok. unfold row_cost, row_plain.
  change (len (str_int (count_of (_projection_arguments r)))) with 1. split; intros [P E]; (split; [done|lia]).
Qed.

Lemma argument_bytes_nonneg s : 0 <= argument_bytes s.
Proof.
  unfold argument_bytes, len. assert (0 <= size_of s).
  { apply sumZ_nonneg, Forall_fmap, Forall_forall. intros c _. simpl. unfold utf8_width. repeat case_match; lia. }
  lia.
Qed.

Lemma row_cost_pos r : 20 <= row_cost r.
Proof.
  unfold row_cost. assert (0 <= sumZ (argument_bytes <$> _projection_arguments r)); [|lia].
  apply sumZ_nonneg, Forall_fmap, Forall_forall. intros a _. apply argument_bytes_nonneg.
Qed.

Lemma over_value : exists over, overhead = Ok over /\
  over = 4 + argument_bytes (tx "EVAL") + argument_bytes APPLY_PROJECTIONS_TEXT + 10.
Proof. eexists. split; [vm_compute; reflexivity | vm_compute; reflexivity]. Qed.

#[local] Opaque overhead APPLY_PROJECTIONS_TEXT.

(** Small numbers have at most four digits. *)
Lemma small_number m : 0 <= m < 2600 -> len (str_int m) <= 4 /\ argument_bytes (str_int m) <= 10 /\ plain_text (str_int m) = true.
Proof.
  intros H.
  assert (F : forallb (fun m => (len (str_int m) <=? 4) && (argument_bytes (str_int m) <=? 10) && plain_text (str_int m))
                (seqZ 0 2600) = true) by (vm_compute; reflexivity).
  rewrite forallb_forall in F. specialize (F m). rewrite !andb_true_iff, !Z.leb_le in F.
  destruct F as [[? ?] ?]; [|done]. apply list_elem_of_In, elem_of_seqZ. lia.
Qed.

Lemma sum_concat_args (f : ProjectionRow -> list text) l :
  sumZ (argument_bytes <$> concat (f <$> l)) = sumZ ((fun r => sumZ (argument_bytes <$> f r)) <$> l).
Proof.
  induction l as [|r l IH]; [done|]. rewrite !fmap_cons. cbn [concat].
  by rewrite fmap_app, sumZ_app, IH.
Qed.

Lemma plain_concat (f : ProjectionRow -> list text) l :
  forallb plain_text (concat (f <$> l)) = forallb (fun r => forallb plain_text (f r)) l.
Proof. induction l as [|r l IH]; [done|]. rewrite fmap_cons. cbn [concat forallb]. by rewrite forallb_app, IH. Qed.

Lemma row_arguments_perm r : _projection_arguments r = row_keys r ++ row_values r.
Proof. done. Qed.

Lemma concat_uniform (f : ProjectionRow -> list text) n l : (forall r, length (f r) = n) ->
  length (concat (f <$> l)) = (n * length l)%nat.
Proof.
  intros H. induction l as [|r l IH]; [simpl; lia|]. rewrite fmap_cons. cbn [concat length].
  rewrite length_app, IH, H. lia.
Qed.

Definition cost_of (batch : list ProjectionRow) : Z := sumZ (row_cost <$> batch).

Lemma eval_fits over batch : overhead = Ok over -> 1 <= count_of batch <= PROJECTION_BATCH_ROWS ->
  forallb row_plain batch = true ->
  exists n, _redis_command_bytes (eval_arguments batch) = Ok n /\ n <= over + cost_of batch.
Proof.
  intros O C P. destruct over_value as (o & O' & E). rewrite O in O'. injection O' as <-.
  set (sorted := merge_sort row_le batch).
  assert (S : sorted ≡ₚ batch) by apply merge_sort_Permutation.
  assert (L : length sorted = length batch) by by rewrite S.
  assert (K : count_of (eval_arguments batch) = 3 + 5 * count_of batch).
  { unfold eval_arguments, count_of. fold sorted. rewrite !length_app.
    rewrite (concat_uniform row_keys 2), (concat_uniform row_values 3) by done. simpl length. lia. }
  unfold PROJECTION_BATCH_ROWS in C.
  destruct (small_number (3 + 5 * count_of batch)) as (D1 & _ & _); [lia|].
  destruct (small_number (2 * count_of batch)) as (_ & D2 & D3); [lia|].
  assert (PL : forallb plain_text (eval_arguments batch) = true).
  { unfold eval_arguments. fold sorted. rewrite !forallb_app, !plain_concat. cbn [forallb]. rewrite D3.
    assert (Q : forallb (fun r => forallb plain_text (row_keys r)) sorted = true /\
                forallb (fun r => forallb plain_text (row_values r)) sorted = true); [|by destruct Q as [-> ->]].
    rewrite !forallb_forall in *. split; intros r I; assert (R : row_plain r = true)
      by (apply P, list_elem_of_In; rewrite <- S; by apply list_elem_of_In); unfold row_plain in R;
      rewrite row_arguments_perm, forallb_app, andb_true_iff in R; by destruct R. }
  eexists. split; [apply command_bytes_ok; split; [done | reflexivity]|].
  rewrite K, E. unfold eval_arguments, cost_of. fold sorted.
  rewrite !fmap_app, !sumZ_app, !sum_concat_args.
  assert (T : sumZ ((fun r => sumZ (argument_bytes <$> row_keys r)) <$> sorted)
            + sumZ ((fun r => sumZ (argument_bytes <$> row_values r)) <$> sorted) + 20 * count_of batch
            = sumZ (row_cost <$> batch)).
  { rewrite <- (sumZ_perm _ _ (fmap_Permutation row_cost _ _ S)). unfold count_of. rewrite <- L.
    clear. induction sorted as [|r l IH]; [done|]. rewrite !fmap_cons. cbn [length sumZ foldr].
    fold (sumZ (row_cost <$> l)) (sumZ ((fun r => sumZ (argument_bytes <$> row_keys r)) <$> l))
      (sumZ ((fun r => sumZ (argument_bytes <$> row_values r)) <$> l)).
    unfold row_cost at 1. rewrite row_arguments_perm, fmap_app, sumZ_app. lia. }
  cbn [fmap list_fmap sumZ foldr]. lia.
Qed.

(** A row the generator accepts. *)
Definition row_fits (over : Z) (r : ProjectionRow) : bool :=
  row_plain r && (over + row_cost r <=? PROJECTION_COMMAND_BYTES).

Definition batch_ok (over : Z) (b : list ProjectionRow) : Prop :=
  b <> [] /\ count_of b <= PROJECTION_BATCH_ROWS /\ forallb row_plain b = true /\
  over + cost_of b <= PROJECTION_COMMAND_BYTES.

Lemma cost_of_app a b : cost_of (a ++ b) = cost_of a + cost_of b.
Proof. unfold cost_of. by rewrite fmap_app, sumZ_app. Qed.

Lemma batches_from_ok over rows : forall size batch,
  size = over + cost_of batch -> batch = [] \/ batch_ok over batch ->
  Forall (batch_ok over) (fst (batches_from over size batch rows)) /\
  (exists rest, batch ++ rows = concat (fst (batches_from over size batch rows)) ++ rest) /\
  if forallb (row_fits over) rows
  then snd (batches_from over size batch rows) = None /\ concat (fst (batches_from over size batch rows)) = batch ++ rows
  else snd (batches_from over size batch rows) <> None.
Proof.
  induction rows as [|r rows IH]; intros size batch Hs Hb.
  - cbn [batches_from forallb fst snd]. destruct batch as [|b batch]; [split_and!; [done | by exists [] | done | done]|].
    destruct Hb as [Hb|Hb]; [done|]. cbn [concat]. rewrite !app_nil_r.
    split_and!; [by constructor | exists []; by rewrite app_nil_r | done | done].
  - cbn [batches_from forallb]. destruct (_redis_command_bytes (_projection_arguments r)) as [n|e] eqn:N.
    2:{ assert (F : row_fits over r = false).
        { unfold row_fits. destruct (row_plain r) eqn:P; [|done]. exfalso.
          assert (X : _redis_command_bytes (_projection_arguments r) = Ok (row_cost r - 16))
            by (apply row_bytes_ok; split; [done | lia]). congruence. }
        rewrite F. split_and!; [done | by exists (batch ++ r :: rows) | done]. }
    apply row_bytes_ok in N as [P C]. rewrite C.
    destruct (PROJECTION_COMMAND_BYTES <? over + row_cost r) eqn:B.
    { apply Z.ltb_lt in B. unfold row_fits. rewrite P, (proj2 (Z.leb_gt (over + row_cost r) PROJECTION_COMMAND_BYTES) B).
      split_and!; [done | by exists (batch ++ r :: rows) | done]. }
    apply Z.ltb_ge in B.
    assert (FR : row_fits over r = true) by (unfold row_fits; rewrite P; by apply Z.leb_le). rewrite FR. cbn [andb].
    assert (One : batch_ok over [r]).
    { split_and!; [done | done | simpl; by rewrite P | unfold cost_of; simpl; lia]. }
    destruct (negb (bool_decide (batch = [])) && _) eqn:G.
    + apply andb_true_iff in G as [G _]. bool_prop. destruct Hb as [Hb|Hb]; [done|].
      destruct (IH (over + row_cost r) [r]) as (F & (rest & E) & D);
        [unfold cost_of; simpl; lia | by right|].
      destruct (batches_from over (over + row_cost r) [r] rows) as [l e]. cbn [fst snd] in *.
      split_and!; [by constructor | |].
      * exists rest. cbn [concat]. rewrite <- app_assoc, <- E. done.
      * destruct (forallb (row_fits over) rows); [|done]. destruct D as [-> D]. split; [done|].
        cbn [concat]. by rewrite D.
    + destruct (IH (size + row_cost r) (batch ++ [r])) as (F & (rest & E) & D).
      * rewrite cost_of_app. unfold cost_of at 2. simpl. lia.
      * right. destruct Hb as [->|(N1 & N2 & N3 & N4)]; [exact One|].
        rewrite andb_false_iff, orb_false_iff in G. destruct G as [G|[G1 G2]].
        { by rewrite bool_decide_false in G. }
        apply Z.leb_gt in G1. apply Z.ltb_ge in G2. split_and!; [by destruct batch | | |].
        -- unfold count_of in *. rewrite length_app. simpl. lia.
        -- rewrite forallb_app, N3. simpl. by rewrite P.
        -- rewrite cost_of_app. unfold cost_of at 2. simpl. lia.
      * split_and!; [done | |].
        -- exists rest. rewrite <- E, <- app_assoc. done.
        -- destruct (forallb (row_fits over) rows); [|done]. destruct D as [-> D]. split; [done|].
           by rewrite D, <- app_assoc.
Qed.

(** C39: the rows of a projection are cut into commands without loss or reordering.
    Every command carries between one and five hundred rows, and its encoding in
    the protocol of Redis, the script included, stays within the budget of 256
    KiB.  The generator raises if and only if some row alone does not fit. *)
Theorem projection_batches_bounded (rows : list ProjectionRow) :
  let batches := fst (_projection_batches rows) in
  Forall (fun b => 1 <= count_of b <= PROJECTION_BATCH_ROWS /\
            exists n, _redis_command_bytes (eval_arguments b) = Ok n /\ n <= PROJECTION_COMMAND_BYTES) batches /\
  (exists rest, rows = concat batches ++ rest) /\
  (snd (_projection_batches rows) = None <->
     Forall (fun r => exists n over, overhead = Ok over /\ _redis_command_bytes (_projection_arguments r) = Ok n /\
                        over + n + 16 <= PROJECTION_COMMAND_BYTES) rows) /\
  (snd (_projection_batches rows) = None -> concat batches = rows).
Proof.
  destruct over_value as (over & O & _). cbv zeta.
  assert (PB : _projection_batches rows = batches_from over over [] rows) by (unfold _projection_batches; by rewrite O).
  rewrite PB. clear PB. pose proof (fun b => eval_fits over b O) as EF.
  assert (OX : forall o, overhead = Ok o <-> o = over) by (intros o; rewrite O; split; [by intros [=] | by intros ->]).
  clear O. set (batches := fst (batches_from over over [] rows)).
  destruct (batches_from_ok over rows over []) as (F & R & D); [unfold cost_of; simpl; lia | by left|].
  fold batches in F, R, D. split_and!; [| done | |].
  - eapply Forall_impl; [exact F|]. intros b (N & C & P & L).
    assert (1 <= count_of b) by (unfold count_of; destruct b; [done | simpl; lia]). split; [done|].
    destruct (EF b) as (n & E & B); [done | done|]. exists n. split; [done | lia].
  - assert (X : forallb (row_fits over) rows = true <->
      Forall (fun r => exists n over, overhead = Ok over /\ _redis_command_bytes (_projection_arguments r) = Ok n /\
                         over + n + 16 <= PROJECTION_COMMAND_BYTES) rows).
    { rewrite forallb_forall, Forall_forall. split; intros H r I.
      - specialize (H r (proj1 (list_elem_of_In _ _) I)). unfold row_fits in H.
        apply andb_true_iff in H as [P L]. apply Z.leb_le in L.
        exists (row_cost r - 16), over. split; [by apply OX|]. split; [apply row_bytes_ok; split; [done|lia] | lia].
      - destruct (H r (proj2 (list_elem_of_In _ _) I)) as (n & o & ->%OX & N & L).
        apply row_bytes_ok in N as [P C]. unfold row_fits. rewrite P. apply Z.leb_le. lia. }
    rewrite <- X. destruct (forallb (row_fits over) rows); [by destruct D | by split].
  - intros N. destruct (forallb (row_fits over) rows); [by destruct D | done].
Qed.
End UsageRedis.
