(* ===== verification/UsageVersions.v ===== *)
(** * Versions of the projections

    Every write of a projection draws a fresh version from one sequence.  A row
    that a transaction hands to Redis is therefore known by its dimension and
    version: as long as the ledger shows that version for the dimension, it shows
    the row. *)

From stdpp Require Import sorting.
From S2P Require Import Prelude PyText Outbox Category Redis UsageStore UsageFrequency UsageSafety UsageLedger UsageDecision UsageMerge UsageRedis.

Module UsageVersions.
Import Calendar UsageStore UsageFrequency UsageSafety UsageLedger UsageDecision UsageRedis.

(** A dimension key shares no prefix with the control keys of the projections. *)
Definition dimension (k : text) : bool := negb (starts_with (tx "usage:") k).

Record grows (s s' : db) : Prop := {
  gr_seq : version_seq s <= version_seq s';
  gr_rows : forall k p, projections s' !! k = Some p ->
    projections s !! k = Some p \/ version_seq s < Projection.version p <= version_seq s';
  gr_keys : forall k, is_Some (projections s' !! k) -> is_Some (projections s !! k) \/ dimension k = true
}.

#[export] Instance grows_preorder : PreOrder grows.
Proof.
  split.
  - intros s. split; [lia | by left | by left].
  - intros a b c [S1 R1 K1] [S2 R2 K2]. split; [lia | |].
    + intros k p P. destruct (R2 k p P) as [P'|V]; [|right; lia]. destruct (R1 k p P') as [|]; [by left | right; lia].
    + intros k P. destruct (K2 k P) as [P'|D]; [by apply K1 | by right].
Qed.

(** What the ledger always has. *)
Record numbered (s : db) : Prop := {
  nb_seq : 0 <= version_seq s;
  nb_version : forall k p, projections s !! k = Some p -> 0 <= Projection.version p <= version_seq s;
  nb_key : forall k, is_Some (projections s !! k) -> dimension k = true
}.

Lemma numbered_grows s s' : numbered s -> grows s s' -> numbered s'.
Proof.
  intros [Z V K] [S R D]. split; [lia | |].
  - intros k p P. destruct (R k p P) as [P'|]; [specialize (V k p P') |]; lia.
  - intros k P. destruct (D k P) as [P'|]; [by apply K | done].
Qed.

(** ** Writes *)

Lemma grows_same s s' : projections s' = projections s -> version_seq s' = version_seq s -> grows s s'.
Proof. intros P V. split; rewrite ?P, ?V; [lia | by left | by left]. Qed.

Lemma grows_modify (f : db -> db) : (forall s, projections (f s) = projections s) ->
  (forall s, version_seq (f s) = version_seq s) -> within (E:=exc) grows (modify f).
Proof. intros P V. apply within_modify. intros s. by apply grows_same. Qed.

(** A write with a version drawn after [s]. *)
Lemma grows_write s0 s k p r s' : write_projection k p s = Ok (r, s') -> projections s = projections s0 ->
  version_seq s0 < Projection.version p <= version_seq s -> (is_Some (projections s0 !! k) \/ dimension k = true) ->
  grows s0 s' /\ r = row_of k p /\ projections s' !! k = Some p.
Proof.
  intros H E V D. apply write_projection_ok in H as (_ & -> & ->). split_and!; [|done | by simpl; rewrite lookup_insert_eq].
  split; simpl; rewrite ?E; [lia | |].
  - intros k' p' P. apply lookup_insert_Some in P as [[_ <-] | [_ P]]; [right; lia | by left].
  - intros k' P. destruct (decide (k' = k)) as [->|N]; [done|]. rewrite lookup_insert_ne in P by done. by left.
Qed.

Definition emitted (s : db) (rows : list ProjectionRow) (s' : db) : Prop :=
  forall r, r ∈ rows ->
    pr_version r <= version_seq s' /\ dimension (pr_dimension_key r) = true /\
    (forall p, projections s' !! pr_dimension_key r = Some p -> Projection.version p = pr_version r ->
       r = row_of (pr_dimension_key r) p) /\
    (version_seq s < pr_version r \/
     exists p, projections s !! pr_dimension_key r = Some p /\ r = row_of (pr_dimension_key r) p).

Lemma emitted_nil s s' : emitted s [] s'.
Proof. intros r I. by apply elem_of_nil in I. Qed.

Lemma emitted_app s l1 l2 s' : emitted s l1 s' -> emitted s l2 s' -> emitted s (l1 ++ l2) s'.
Proof. intros A B r [I|I]%elem_of_app; [by apply A | by apply B]. Qed.

Lemma emitted_incl s l l' s' : (forall r, r ∈ l' -> r ∈ l) -> emitted s l s' -> emitted s l' s'.
Proof. intros I E r R. by apply E, I. Qed.

(** Later writes leave what was emitted as it was. *)
Lemma emitted_after s l s1 s2 : emitted s l s1 -> grows s1 s2 -> emitted s l s2.
Proof.
  intros E [S R _] r I. destruct (E r I) as (V & D & C & F). split_and!; [lia | done | | done].
  intros p P Q. destruct (R _ _ P) as [P'|]; [by apply C | lia].
Qed.

Lemma emitted_before s s1 l s2 : grows s s1 -> emitted s1 l s2 -> emitted s l s2.
Proof.
  intros [S R _] E r I. destruct (E r I) as (V & D & C & F). split_and!; [done | done | done|].
  destruct F as [F|(p & P & Q)]; [left; lia|]. destruct (R _ _ P) as [P'|]; [right; by exists p|].
  left. rewrite Q. simpl. lia.
Qed.

(** Rows that are read. *)
Lemma emitted_read s l : numbered s ->
  (forall r, r ∈ l -> exists p, projections s !! pr_dimension_key r = Some p /\ r = row_of (pr_dimension_key r) p) ->
  emitted s l s.
Proof.
  intros [_ V K] H r I. destruct (H r I) as (p & P & E). split_and!.
  - rewrite E. simpl. by destruct (V _ _ P).
  - apply K. by rewrite P.
  - intros p' P' _. rewrite P in P'. by injection P' as <-.
  - right. by exists p.
Qed.

Lemma projection_rows_read keys s r : r ∈ _projection_rows keys s ->
  exists p, projections s !! pr_dimension_key r = Some p /\ r = row_of (pr_dimension_key r) p.
Proof.
  unfold _projection_rows. rewrite merge_sort_Permutation. intros (k & _ & E)%list_elem_of_omap.
  destruct (projections s !! k) as [p|] eqn:P; [|done]. injection E as <-. by exists p.
Qed.

(** ** One change *)

Lemma write_emits s0 s k p r s' : write_projection k p s = Ok (r, s') -> projections s = projections s0 ->
  version_seq s0 < Projection.version p <= version_seq s -> dimension k = true ->
  grows s0 s' /\ emitted s0 [r] s'.
Proof.
  intros H E V D. pose proof (write_projection_ok _ _ _ _ _ H) as (_ & _ & S).
  destruct (grows_write s0 _ _ _ _ _ H E V (or_intror D)) as (G & -> & P). split; [done|].
  intros r ->%list_elem_of_singleton. cbn [pr_dimension_key pr_version row_of]. split_and!; [|done | | left; lia].
  - subst s'. simpl. lia.
  - intros p' P' _. rewrite P in P'. by injection P' as <-.
Qed.

Lemma add_emits c s r s' : add_to_projection c s = Ok (r, s') -> dimension (ch_dimension_key c) = true ->
  grows s s' /\ emitted s [r] s'.
Proof.
  intros H D. unfold add_to_projection in H. cbv zeta in H. stx.
  match goal with H : nextval s = _ |- _ => apply nextval_ok in H as [-> ->] end.
  simpl in H. destruct (projections s !! ch_dimension_key c) as [p|] eqn:P; stx.
  - match goal with H : nextval _ = _ |- _ => apply nextval_ok in H as [-> ->] end.
    eapply write_emits; [exact H | done | simpl; lia | done].
  - eapply write_emits; [exact H | done | simpl; lia | done].
Qed.

Lemma take_grows c : within grows (take_from_projection c).
Proof.
  intros s r s' H. unfold take_from_projection in H. cbv zeta in H. stx.
  destruct (projections s !! ch_dimension_key c) as [p|] eqn:P; stx; [|done].
  match goal with H : nextval _ = _ |- _ => apply nextval_ok in H as [-> ->] end.
  match goal with H : write_projection _ _ _ = _ |- _ => eapply (grows_write s) in H as (G & _ & _) end;
    [exact G | done | simpl; lia | left; by rewrite P].
Qed.

Lemma adds_emit l : forall s rows s', for_each add_to_projection l s = Ok (rows, s') ->
  Forall (fun c => dimension (ch_dimension_key c) = true) l -> grows s s' /\ emitted s rows s'.
Proof.
  induction l as [|c l IH]; intros s rows s' H F; simpl in H; stx; [split; [done | apply emitted_nil]|].
  inversion F as [|? ? Dc Fl]; subst.
  match goal with H : add_to_projection _ _ = _ |- _ => destruct (add_emits _ _ _ _ H Dc) as [G1 E1] end.
  match goal with H : for_each _ _ _ = _ |- _ => destruct (IH _ _ _ H Fl) as [G2 E2] end.
  split; [by etrans|]. apply (emitted_app _ [_]); [by eapply emitted_after | by eapply emitted_before].
Qed.

(** The two directions of a change. *)
Lemma change_cases busy l s rows s' : _change_projections busy l s = Ok (rows, s') ->
  (l = [] /\ rows = [] /\ s' = s) \/
  (exists rows0, for_each add_to_projection l s = Ok (rows0, s') /\ rows = merge_sort row_le rows0 /\
     NoDup (ch_dimension_key <$> l) /\ Forall (fun c => ch_reset_on_window_change c = true) l) \/
  (exists rows0, for_each take_from_projection l s = Ok (rows0, s') /\ l <> [] /\
     Forall (fun c => ch_reset_on_window_change c = false) l).
Proof.
  intros H. unfold _change_projections in H. destruct l as [|c l]; [stx; by left|]. set (l' := c :: l) in *. stx. right.
  match goal with H : (if ?b then _ else _) _ = _ |- _ => destruct b eqn:A end.
  - match goal with H : for_each add_to_projection _ _ = Ok (?r, _) |- _ => left; exists r end. bool_prop.
    split_and!; [done | done | done|]. apply Forall_forall. intros d I. rewrite forallb_forall in A.
    specialize (A d (proj1 (list_elem_of_In _ _) I)). by apply andb_true_iff in A as [_ A].
  - match goal with H : (if ?b then _ else _) _ = _ |- _ => destruct b eqn:B; stx end.
    match goal with H : for_each take_from_projection _ _ = Ok (?r, _) |- _ => right; exists r end.
    split_and!; [done | done|]. apply Forall_forall. intros d I. rewrite forallb_forall in B.
    specialize (B d (proj1 (list_elem_of_In _ _) I)). apply andb_true_iff in B as [_ B]. by apply negb_true_iff.
Qed.

Lemma change_grows busy l :
  Forall (fun c => ch_reset_on_window_change c = true -> dimension (ch_dimension_key c) = true) l ->
  within grows (_change_projections busy l).
Proof.
  intros F s rows s' [(_ & _ & ->) | [(rows0 & H & _ & _ & R) | (rows0 & H & _ & _)]]%change_cases; [done | |].
  - apply adds_emit in H as [G _]; [done|]. rewrite Forall_forall in F. rewrite Forall_forall in R.
    apply Forall_forall. intros c I. by apply F, R.
  - revert H. apply within_each; [apply _|]. intros c _. apply take_grows.
Qed.

Lemma change_emits busy l s rows s' : _change_projections busy l s = Ok (rows, s') ->
  Forall (fun c => ch_reset_on_window_change c = true /\ dimension (ch_dimension_key c) = true) l ->
  grows s s' /\ emitted s rows s'.
Proof.
  intros [(-> & -> & ->) | [(rows0 & H & -> & _ & _) | (rows0 & H & N & R)]]%change_cases F.
  - split; [done | apply emitted_nil].
  - apply adds_emit in H as [G E]; [|eapply Forall_impl; [done|]; by intros c []]. split; [done|].
    eapply emitted_incl; [|done]. intros r. by rewrite merge_sort_Permutation.
  - destruct l as [|c l]; [done|]. apply Forall_cons in F as [[F _] _]. apply Forall_cons in R as [R _]. congruence.
Qed.

(** ** Merged subjects *)

Lemma canonical_dimension key hmac t : _canonical_frequency_projection_key key hmac = Ok (Some t) -> dimension t = true.
Proof.
  unfold _canonical_frequency_projection_key. intros ([] & _ & H)%bind_ok.
  destruct (fullmatch _FREQ_VERIFY_KEY key) eqn:V.
  { injection H as <-. by apply literal_prefix in V as [r ->]. }
  destruct (fullmatch _FREQ_MARKET_KEY key) eqn:M; [|done].
  injection H as <-. by apply literal_prefix in M as [r ->].
Qed.

Lemma absolute_emits busy key kind d w v x s r s' :
  _write_absolute_frequency_projection busy key kind d w v x s = Ok (r, s') -> dimension key = true ->
  grows s s' /\ emitted s [r] s'.
Proof.
  intros H D. unfold _write_absolute_frequency_projection in H. stx.
  match goal with H : nextval s = _ |- _ => apply nextval_ok in H as [-> ->] end.
  match goal with H : match ?o with Some _ => _ | None => _ end _ = _ |- _ => destruct o eqn:P end.
  - match goal with H : nextval _ = _ |- _ => apply nextval_ok in H as [-> ->] end.
    eapply write_emits; [exact H | done | simpl; lia | done].
  - stx. eapply write_emits; [exact H | done | simpl; lia | done].
Qed.

Definition option_rows (o : option ProjectionRow) : list ProjectionRow := match o with Some r => [r] | None => [] end.

Lemma tombstone_emits busy key rows refs s o s' :
  _write_expired_canonical_tombstone busy key rows refs s = Ok (o, s') -> dimension key = true ->
  grows s s' /\ emitted s (option_rows o) s'.
Proof.
  intros H D. unfold _write_expired_canonical_tombstone in H. stx.
  match goal with H : match ?c with Some _ => _ | None => _ end _ = _ |- _ => destruct c end; stx.
  - match goal with H : _write_absolute_frequency_projection _ _ _ _ _ _ _ _ = _ |- _ => by apply absolute_emits in H end.
  - destruct refs; stx; [split; [done | apply emitted_nil]|].
    match goal with H : _write_absolute_frequency_projection _ _ _ _ _ _ _ _ = _ |- _ => by apply absolute_emits in H end.
Qed.

(** A step of a loop that adds to the rows written so far. *)
Definition accumulates (m : merge_acc -> tx_ merge_acc) : Prop := forall acc s acc' s',
  m acc s = Ok (acc', s') ->
  grows s s' /\ exists more, ma_written acc' = ma_written acc ++ more /\ emitted s more s'.

Lemma accumulates_fold {A} (f : merge_acc -> A -> tx_ merge_acc) l :
  (forall x, x ∈ l -> accumulates (fun acc => f acc x)) -> accumulates (fun acc => fold_tx f acc l).
Proof.
  induction l as [|x l IH]; intros F acc s acc' s' H; simpl in H; stx.
  - split; [done|]. exists []. split; [by rewrite app_nil_r | apply emitted_nil].
  - match goal with H : f _ _ _ = _ |- _ => destruct (F x (list_elem_of_here _ _) _ _ _ _ H) as (G1 & m1 & W1 & E1) end.
    destruct (IH (fun y I => F y (list_elem_of_further _ _ _ I)) _ _ _ _ H) as (G2 & m2 & W2 & E2).
    split; [by etrans|]. exists (m1 ++ m2). split; [by rewrite W2, W1, app_assoc|].
    apply emitted_app; [by eapply emitted_after | by eapply emitted_before].
Qed.

Lemma wrote_nothing (acc acc' : merge_acc) s : ma_written acc' = ma_written acc ->
  grows s s /\ exists more, ma_written acc' = ma_written acc ++ more /\ emitted s more s.
Proof. intros E. split; [done|]. exists []. split; [by rewrite app_nil_r | apply emitted_nil]. Qed.

Lemma wrote_some (acc acc' : merge_acc) s more s' : ma_written acc' = ma_written acc ++ more ->
  grows s s' /\ emitted s more s' ->
  grows s s' /\ exists more, ma_written acc' = ma_written acc ++ more /\ emitted s more s'.
Proof. intros E [G M]. split; [done|]. by exists more. Qed.

Ltac accumulate :=
  repeat (stx; case_match); stx; subst;
  first
    [ apply wrote_nothing; reflexivity
    | match goal with H : _write_absolute_frequency_projection _ _ _ _ _ _ _ _ = Ok (?r, _) |- _ =>
        apply (wrote_some _ _ _ [r]); [reflexivity | by apply absolute_emits in H] end
    | match goal with H : _write_expired_canonical_tombstone _ _ _ _ _ = Ok (?o, _) |- _ =>
        apply (wrote_some _ _ _ (option_rows o)); [by rewrite ?app_nil_r | by apply tombstone_emits in H] end ].

Lemma accumulates_group busy now remaps refs needed g : dimension (fst g) = true ->
  accumulates (fun acc => merge_group busy now remaps refs needed acc g).
Proof. destruct g as [target group]. intros D acc s acc' s' H. unfold merge_group in H. accumulate. Qed.

Lemma accumulates_remap busy refs needed m : dimension (snd m) = true ->
  accumulates (fun acc => merge_remap busy refs needed acc m).
Proof. destruct m as [source target]. intros D acc s acc' s' H. unfold merge_remap in H. accumulate. Qed.

Lemma group_rows_dimension hmac rows : forall remaps groups remaps' groups',
  group_rows hmac rows remaps groups = Ok (remaps', groups') ->
  Forall (fun m : remap => dimension (snd m) = true) remaps ->
  Forall (fun g : text * list prow => dimension (fst g) = true) groups ->
  Forall (fun m : remap => dimension (snd m) = true) remaps' /\
  Forall (fun g : text * list prow => dimension (fst g) = true) groups'.
Proof.
  induction rows as [|r rows IH]; intros remaps groups remaps' groups' H R G; simpl in H.
  { by injection H as <- <-. }
  apply bind_ok in H as (t & T & H). destruct t as [target|]; [|by apply (IH _ _ _ _ H)].
  apply canonical_dimension in T. apply (IH _ _ _ _ H).
  - apply Forall_app. split; [done|]. by repeat constructor.
  - destruct (List.existsb _ groups).
    + apply Forall_fmap. apply (Forall_impl _ _ _ G). intros [g l] Hg. simpl. by destruct (teqb g target).
    + apply Forall_app. split; [done|]. by repeat constructor.
Qed.

Lemma entry_remaps_dimension hmac keys : forall remaps remaps',
  add_entry_remaps hmac keys remaps = Ok remaps' -> Forall (fun m : remap => dimension (snd m) = true) remaps ->
  Forall (fun m : remap => dimension (snd m) = true) remaps'.
Proof.
  induction keys as [|k keys IH]; intros remaps remaps' H R; simpl in H; [by injection H as <-|].
  apply bind_ok in H as (t & T & H). destruct t as [target|]; [|by apply (IH _ _ H)].
  destruct (_ || _); apply (IH _ _ H); [done|]. apply canonical_dimension in T.
  apply Forall_app. split; [done|]. by repeat constructor.
Qed.

Lemma grows_deleted keys s : grows s (set_projections (fun m => foldl (fun m k => delete k m) m keys) s).
Proof.
  assert (F : forall (m : gmap text Projection.t) k p, foldl (fun m k => delete k m) m keys !! k = Some p -> m !! k = Some p).
  { induction keys as [|x keys IH]; intros m k p H; [done|]. simpl in H. apply IH in H.
    by apply lookup_delete_Some in H as [_ H]. }
  split; simpl; [lia | |].
  - intros k p P. left. by apply F.
  - intros k [p P]. left. exists p. by apply F.
Qed.

Lemma grows_renames l : within grows (for_each rename_key l).
Proof. apply within_each; [apply _|]. intros m _. by apply grows_modify. Qed.

Lemma grows_asserts l : within grows (for_each _assert_canonical_holds_newest_window l).
Proof.
  apply within_each; [apply _|]. intros [[[t d] w] v] _. unfold _assert_canonical_holds_newest_window. within_tac.
Qed.

Lemma merge_emits busy now hmac subs s rows s' :
  _merge_frequency_projections busy now hmac subs s = Ok (rows, s') -> grows s s' /\ emitted s rows s'.
Proof.
  intros H. unfold _merge_frequency_projections in H. cbv zeta in H. stx.
  match goal with p : list remap * list (text * list prow) |- _ => destruct p as [remaps0 groups] end.
  cbv iota in H. stx.
  match goal with H : group_rows _ _ _ _ = _ |- _ => apply group_rows_dimension in H as [R0 Gd]; [|done|done] end.
  match goal with H : add_entry_remaps _ _ _ = _ |- _ => apply entry_remaps_dimension in H as Rd; [|done] end.
  rewrite Forall_forall in Gd. rewrite Forall_forall in Rd.
  match goal with H : fold_tx (merge_group _ _ ?rm ?rf ?nd) _ _ s = _ |- _ =>
    apply (accumulates_fold _ _ (fun g I => accumulates_group busy now rm rf nd g (Gd g I))) in H
      as (G1 & m1 & W1 & E1) end.
  match goal with H : fold_tx (merge_remap _ ?rf ?nd) _ _ _ = _ |- _ =>
    apply (accumulates_fold _ _ (fun g I => accumulates_remap busy rf nd g (Rd g I))) in H
      as (G2 & m2 & W2 & E2) end.
  match goal with H : for_each rename_key _ _ = _ |- _ => apply grows_renames in H as G3 end.
  match goal with H : for_each _assert_canonical_holds_newest_window _ _ = _ |- _ => apply grows_asserts in H as G4 end.
  match goal with |- grows _ (set_projections (fun m => foldl _ m ?keys) ?t) /\ _ => pose proof (grows_deleted keys t) as G5 end.
  rewrite W2, W1. simpl. split; [do 4 (etrans; [done|]); done|].
  apply emitted_app.
  - eapply emitted_after; [exact E1|]. do 3 (etrans; [done|]). done.
  - eapply emitted_before; [exact G1|]. eapply emitted_after; [exact E2|]. do 2 (etrans; [done|]). done.
Qed.

(** ** Subjects *)

Ltac grow_same := apply grows_modify; reflexivity.

Lemma grows_bind_aliases id l : within grows (bind_aliases id l).
Proof.
  assert (B : forall l, within grows (for_each (bind_alias id) l)).
  { intros l'. apply within_each; [apply _|]. intros a _. unfold bind_alias. within_tac; grow_same. }
  unfold bind_aliases. within_tac.
Qed.

Lemma grows_bind id i : within grows (_bind_frequency_aliases id i).
Proof.
  pose proof (grows_bind_aliases id (di_aliases i)) as B. unfold _bind_frequency_aliases. within_tac.
Qed.

Lemma grows_insert_subject id hmac : within grows (insert_subject id hmac).
Proof. unfold insert_subject. within_tac. grow_same. Qed.

Lemma grows_absorb t l : within grows (for_each (absorb t) l).
Proof.
  assert (A : forall a b, within grows (move_aliases a b)) by (intros; unfold move_aliases; within_tac; grow_same).
  assert (E : forall a b, within grows (move_entries a b)) by (intros; unfold move_entries; within_tac; grow_same).
  assert (D : forall a, within grows (delete_subject a)) by (intros; unfold delete_subject; within_tac; grow_same).
  apply within_each; [apply _|]. intros x _. unfold absorb. within_tac.
Qed.

Lemma ensure_one_emits busy now fresh i s x s' :
  _ensure_frequency_subject busy now fresh i s = Ok (x, s') -> grows s s' /\ emitted s (snd x) s'.
Proof.
  intros H. unfold _ensure_frequency_subject in H. cbv zeta in H. stx.
  match goal with H : _bind_frequency_aliases _ _ _ = _ |- _ => apply grows_bind in H as GB end.
  match goal with H : match _item_subject_ids i s with [] => _ | _ => _ end s = Ok (?y, ?t) |- _ =>
    assert (X : grows s t /\ emitted s (snd y) t) end.
  { destruct (_item_subject_ids i s) as [|a ids]; stx.
    - match goal with H : insert_subject _ _ _ = _ |- _ => apply grows_insert_subject in H end.
      split; [done | apply emitted_nil].
    - match goal with H : match ?l with [] => _ | _ => _ end _ = _ |- _ => destruct l as [|c rest]; [done|] end.
      match goal with H : (if ?b then _ else _) _ = _ |- _ => destruct b; stx end;
        [split; [done | apply emitted_nil]|].
      match goal with H : _merge_frequency_projections _ _ _ _ _ = _ |- _ => apply merge_emits in H as [G1 E1] end.
      match goal with H : for_each (absorb _) _ _ = _ |- _ => apply grows_absorb in H as G2 end.
      split; [by etrans | by eapply emitted_after]. }
  destruct X as [G E]. split; [by etrans | by eapply emitted_after].
Qed.

Lemma resolve_emits busy now uuid4 known i s x s' :
  resolve_item busy now uuid4 known i s = Ok (x, s') -> grows s s' /\ emitted s (rows_of x) s'.
Proof.
  intros H. unfold resolve_item in H. destruct (_item_subject_ids i known) as [|a [|b l]]; stx.
  - split; [done | apply emitted_nil].
  - split; [done | apply emitted_nil].
  - match goal with H : _ensure_frequency_subject _ _ _ _ _ = Ok (?y, _) |- _ =>
      destruct y as [[? ?] ?]; apply ensure_one_emits in H as [G E] end. simpl in H. stx. by subst.
Qed.

Lemma resolve_all_emits busy now uuid4 known l : forall s xs s',
  for_each (resolve_item busy now uuid4 known) l s = Ok (xs, s') ->
  grows s s' /\ emitted s (concat (rows_of <$> xs)) s'.
Proof.
  induction l as [|i l IH]; intros s xs s' H; simpl in H; stx; [split; [done | apply emitted_nil]|].
  match goal with H : resolve_item _ _ _ _ _ _ = _ |- _ => apply resolve_emits in H as [G1 E1] end.
  match goal with H : for_each _ _ _ = _ |- _ => apply IH in H as [G2 E2] end.
  split; [by etrans|]. rewrite fmap_cons. simpl.
  apply emitted_app; [by eapply emitted_after | by eapply emitted_before].
Qed.

Lemma for_each_grows {A B} (f : A -> tx_ B) l s x s' : for_each f l s = Ok (x, s') ->
  (forall y, within grows (f y)) -> grows s s'.
Proof. intros H F. revert H. apply within_each; [apply _|]. auto. Qed.

Lemma ensure_emits busy now uuid4 items s x s' :
  _ensure_frequency_subjects_many busy now uuid4 items s = Ok (x, s') -> grows s s' /\ emitted s (snd x) s'.
Proof.
  intros H. unfold _ensure_frequency_subjects_many in H. cbv zeta in H. stx.
  match goal with H : for_each (resolve_item _ _ _ _) _ _ = _ |- _ => apply resolve_all_emits in H as [G1 E1] end.
  match goal with H : for_each create_subject _ _ = _ |- _ => apply for_each_grows in H as G2 end.
  2:{ intros [] ; simpl; [apply within_ret, _ | apply within_ret, _ | apply grows_insert_subject]. }
  match goal with H : for_each check_bound _ _ = _ |- _ =>
    apply for_each_grows in H as G4; [clear H|intros [[? ?] ?]; unfold check_bound; within_tac] end.
  match goal with H : @for_each (FrequencyDecisionItem * text * text) _ _ _ _ = _ |- _ =>
    apply for_each_grows in H as G3; [|intros [[? ?] ?]; apply grows_bind_aliases] end.
  match goal with H : @for_each FrequencyDecisionItem ResolvedFrequencySubject _ _ _ = _ |- _ =>
    apply for_each_grows in H as G5; [|intros; within_tac] end.
  split; [do 4 (etrans; [done|]); done|]. eapply emitted_after; [exact E1|]. do 3 (etrans; [done|]). done.
Qed.

(** ** Decisions and quota *)

Definition fresh_change (c : _ProjectionChange) : Prop :=
  ch_reset_on_window_change c = true /\ dimension (ch_dimension_key c) = true.

Lemma add_change_fresh c l : fresh_change c -> Forall fresh_change l -> Forall fresh_change (add_change c l).
Proof.
  intros C F. induction F as [|d l D F IH]; simpl; [by apply Forall_singleton|].
  destruct (teqb _ _); constructor; try done. split; [done|]. apply C.
Qed.

Lemma fold_changes_fresh cs : forall l, Forall fresh_change cs -> Forall fresh_change l ->
  Forall fresh_change (foldl (fun l c => add_change c l) l cs).
Proof.
  induction cs as [|c cs IH]; intros l C F; simpl; [done|]. apply Forall_cons in C as [Cc C].
  apply IH; [done | by apply add_change_fresh].
Qed.

Lemma item_specs_dimension category app_id limits windows h sp :
  sp ∈ item_specs category app_id limits windows h -> dimension (ws_key sp) = true.
Proof.
  unfold item_specs, _frequency_projection_keys. destruct windows as [[[[mw mx] dw] ud] dx].
  destruct (teqb category _); intros H; repeat (apply elem_of_cons in H as [-> | H]; [done|]); by apply elem_of_nil in H.
Qed.

Lemma insert_decisions_emit busy id category app_id items limits windows s x s' :
  _insert_frequency_decisions busy id category app_id items limits windows s = Ok (x, s') ->
  grows s s' /\ emitted s (snd x) s'.
Proof.
  intros H. unfold _insert_frequency_decisions in H. destruct windows as [[[[mw mx] dw] ud] dx]. cbv zeta in H. stx.
  match goal with H : for_each _ _ s = Ok (_, ?t) |- _ => assert (G1 : grows s t) end.
  { match goal with H : for_each _ _ s = _ |- _ => apply for_each_grows in H as X; [exact X|] end.
    intros [[su specs] b]. apply within_each; [apply _|]. intros sp _. unfold insert_frequency_entry.
    within_tac. grow_same. }
  match goal with H : _change_projections _ _ _ = _ |- _ => apply change_emits in H as [G2 E2] end.
  - simpl. split; [by etrans | by eapply emitted_before].
  - apply fold_changes_fresh; [|done]. apply Forall_forall. intros c C%list_elem_of_In.
    apply in_concat in C as (l & J%list_elem_of_In & I%list_elem_of_In).
    apply list_elem_of_fmap in J as ([[su specs] b] & -> & J). destruct b; [|by apply elem_of_nil in I].
    apply list_elem_of_fmap in I as (sp & -> & I). apply list_elem_of_fmap in J as (i & [= -> -> _] & _).
    split; [done|]. exact (item_specs_dimension category app_id limits (mw, mx, dw, ud, dx) (rs_projection_hmac i) sp I).
Qed.

Lemma decide_emits busy id category app_id items limits windows s x s' :
  _decide_frequency_many_on_connection busy id category app_id items limits windows s = Ok (x, s') ->
  numbered s -> grows s s' /\ emitted s (snd x) s'.
Proof.
  intros H N. unfold _decide_frequency_many_on_connection in H. stx.
  match goal with p : _ * _ |- _ => destruct p as [fresh old] end. cbv iota in H. stx.
  match goal with p : list (text * bool) * _ |- _ => destruct p as [decided changed] end. cbv iota in H. stx.
  match goal with H : _ = Ok (decided, changed, ?t) |- _ =>
    assert (X : grows s t /\ emitted s changed t) end.
  { destruct fresh; stx; [subst; split; [done | apply emitted_nil]|].
    match goal with H : _insert_frequency_decisions _ _ _ _ _ _ _ _ = _ |- _ =>
      apply insert_decisions_emit in H as [G E] end. by subst. }
  destruct X as [G E]. subst. simpl. split; [done|]. apply emitted_app; [|done]. eapply emitted_after; [|done].
  destruct old; [apply emitted_nil|]. apply emitted_read; [done|]. intros row. apply projection_rows_read.
Qed.

Lemma keep_latest_in row l r : r ∈ keep_latest row l -> r = row \/ r ∈ l.
Proof.
  induction l as [|x l IH]; simpl; [intros ->%list_elem_of_singleton; by left|].
  destruct (teqb _ _); intros [-> | I]%elem_of_cons.
  - destruct (_ <=? _); [by left | right; apply list_elem_of_here].
  - right. by apply list_elem_of_further.
  - right. apply list_elem_of_here.
  - destruct (IH I); [by left | right; by apply list_elem_of_further].
Qed.

Lemma keep_latest_keys row l : NoDup (pr_dimension_key <$> l) -> NoDup (pr_dimension_key <$> keep_latest row l).
Proof.
  assert (K : forall l k, k ∈ pr_dimension_key <$> keep_latest row l -> k = pr_dimension_key row \/ k ∈ pr_dimension_key <$> l).
  { intros l' k (r & -> & [-> | I]%keep_latest_in)%list_elem_of_fmap; [by left | right; by apply list_elem_of_fmap_2]. }
  induction l as [|x l IH]; intros N; simpl; [apply NoDup_singleton|]. rewrite fmap_cons in N.
  apply NoDup_cons in N as [N1 N2]. destruct (teqb _ _) eqn:T.
  - apply teqb_spec in T. rewrite fmap_cons. apply NoDup_cons. split; [|done]. by destruct (_ <=? _); rewrite <- ?T.
  - apply teqb_false in T. rewrite fmap_cons. apply NoDup_cons. split; [|by apply IH].
    intros [E|I]%K; [done|]. by apply N1.
Qed.

Lemma latest_rows rows : NoDup (pr_dimension_key <$> _latest_projection_rows rows) /\
  forall r, r ∈ _latest_projection_rows rows -> r ∈ rows.
Proof.
  unfold _latest_projection_rows.
  assert (G : forall acc, NoDup (pr_dimension_key <$> acc) ->
    NoDup (pr_dimension_key <$> foldl (fun l r => keep_latest r l) acc rows) /\
    forall r, r ∈ foldl (fun l r => keep_latest r l) acc rows -> r ∈ acc \/ r ∈ rows).
  { induction rows as [|x rows IH]; intros acc N; simpl; [split; [done | by left]|].
    destruct (IH _ (keep_latest_keys x acc N)) as [N' I']. split; [done|]. intros r R.
    destruct (I' r R) as [[-> | A]%keep_latest_in | A];
      [right; apply list_elem_of_here | by left | right; by apply list_elem_of_further]. }
  destruct (G [] (NoDup_nil_2)) as [N I]. split.
  - by rewrite (merge_sort_Permutation row_le).
  - intros r. rewrite merge_sort_Permutation. intros R. destruct (I r R) as [A|A]; [by apply elem_of_nil in A | done].
Qed.

Definition hands_out (s : db) (rows : list ProjectionRow) (s' : db) : Prop :=
  grows s s' /\ emitted s rows s' /\ NoDup (pr_dimension_key <$> rows).

Lemma grows_update id guard f : within grows (update_row id guard f).
Proof. unfold update_row. within_tac. grow_same. Qed.

Lemma allow_hands_out busy now uuid4 id category app_id items limits windows s x s' :
  _allow_frequency_chunk busy now uuid4 id category app_id items limits windows s = Ok (x, s') ->
  numbered s -> hands_out s (snd x) s'.
Proof.
  intros H N. unfold _allow_frequency_chunk in H. destruct windows as [[[[mw mx] dw] ud] dx]. stx.
  match goal with H : update_row _ _ _ _ = _ |- _ => apply grows_update in H as G1 end.
  match goal with p : list ResolvedFrequencySubject * list ProjectionRow |- _ => destruct p as [resolved merged] end.
  cbv iota in H. stx.
  match goal with p : list bool * list ProjectionRow |- _ => destruct p as [allowed rows] end. cbv iota in H. stx.
  match goal with H : _ensure_frequency_subjects_many _ _ _ _ _ = _ |- _ => apply ensure_emits in H as [G2 E2] end.
  match goal with H : _decide_frequency_many_on_connection _ _ _ _ _ _ _ _ = _ |- _ =>
    apply decide_emits in H as [G3 E3]; [|by do 2 (eapply numbered_grows; [|done])] end.
  subst. simpl. destruct (latest_rows (merged ++ rows)) as [ND IN]. split; [do 2 (etrans; [done|]); done|].
  split; [|done]. eapply emitted_incl; [exact IN|]. eapply emitted_before; [exact G1|]. apply emitted_app.
  - by eapply emitted_after.
  - by eapply emitted_before.
Qed.

Lemma projection_rows_keys keys s : NoDup (pr_dimension_key <$> _projection_rows keys s).
Proof.
  unfold _projection_rows. rewrite (merge_sort_Permutation row_le). pose proof (NoDup_remove_dups keys) as N.
  induction (remove_dups keys) as [|k l IH]; simpl; [apply NoDup_nil_2|]. apply NoDup_cons in N as [N1 N2].
  destruct (projections s !! k) as [p|] eqn:P; simpl; [|by apply IH]. apply NoDup_cons. split; [|by apply IH].
  intros (r & E & I)%list_elem_of_fmap. apply list_elem_of_omap in I as (k' & I & F).
  destruct (projections s !! k'); [|done]. injection F as <-. simpl in E. by subst k'.
Qed.

Lemma reads_hand_out keys s : numbered s -> hands_out s (_projection_rows keys s) s.
Proof.
  intros N. split; [done|]. split; [|apply projection_rows_keys]. apply emitted_read; [done|].
  intros r. apply projection_rows_read.
Qed.

Lemma adds_keys l : forall s rows s', for_each add_to_projection l s = Ok (rows, s') ->
  pr_dimension_key <$> rows = ch_dimension_key <$> l.
Proof.
  induction l as [|c l IH]; intros s rows s' H; simpl in H; stx; [done|]. rewrite !fmap_cons. f_equal; [|by eapply IH].
  match goal with H : add_to_projection _ _ = _ |- _ => unfold add_to_projection in H; cbv zeta in H; stx end.
  match goal with H : match ?o with Some _ => _ | None => _ end _ = _ |- _ => destruct o; stx end;
    match goal with H : write_projection _ _ _ = _ |- _ => by apply write_projection_ok in H as (_ & -> & _) end.
Qed.

Lemma change_hands_out busy l s rows s' : _change_projections busy l s = Ok (rows, s') ->
  Forall fresh_change l -> hands_out s rows s'.
Proof.
  intros H F. destruct (change_emits _ _ _ _ _ H F) as [G E]. split; [done|]. split; [done|].
  apply change_cases in H as [(_ & -> & _) | [(rows0 & H & -> & N & _) | (rows0 & _ & NE & R)]]; [apply NoDup_nil_2 | |].
  - rewrite (merge_sort_Permutation row_le). by rewrite (adds_keys _ _ _ _ H).
  - destruct l as [|c l]; [done|]. apply Forall_cons in F as [[F _] _]. apply Forall_cons in R as [R _]. congruence.
Qed.

Lemma reserve_hands_out busy now id app_id dept category date_key ud cost al dl x s rows s' :
  reserve_quota busy now id app_id dept category date_key ud cost al dl x s = Ok (rows, s') ->
  numbered s -> hands_out s rows s'.
Proof.
  intros H N. unfold reserve_quota in H. cbv zeta in H. stx.
  destruct (entries_of id s) as [|p l]; stx; [|by apply reads_hand_out].
  unfold write_quota in H. stx.
  match goal with H : update_row _ _ _ _ = _ |- _ => apply grows_update in H as G1 end.
  match goal with H : for_each _ _ _ = _ |- _ => apply for_each_grows in H as G2 end.
  2:{ intros [[d v] k]. simpl. grow_same. }
  apply change_hands_out in H as (G3 & E3 & K3).
  - split; [do 2 (etrans; [done|]); done|]. split; [|done]. do 2 (eapply emitted_before; [done|]). done.
  - apply Forall_fmap, Forall_forall. intros [[d v] k] I. split; [done|].
    unfold quota_specs in I. repeat (apply elem_of_cons in I as [[= _ _ ->] | I]; [done|]). by apply elem_of_nil in I.
Qed.

(** ** Every transaction *)

Definition plain_change (c : _ProjectionChange) : Prop := ch_reset_on_window_change c = false.

Lemma plain_change_grows busy l : Forall plain_change l -> within grows (_change_projections busy l).
Proof.
  intros F. apply change_grows. eapply Forall_impl; [done|]. intros c P R. unfold plain_change in P. congruence.
Qed.

Lemma applicable_plain existing now l : forall todo, applicable existing now l = Ok todo ->
  Forall plain_change l -> Forall plain_change todo.
Proof.
  induction l as [|c l IH]; intros todo H F; simpl in H; [by injection H as <-|].
  apply Forall_cons in F as [Fc F]. apply bind_ok in H as (b & _ & H). apply bind_ok in H as (rest & R & [= <-]).
  destruct b; [constructor; [done|]|]; by eapply IH.
Qed.

Lemma grows_release busy now ambient id event_id : within grows (_request_release busy now ambient id event_id).
Proof.
  assert (O : forall A (m : stex Outbox.db exc A), within grows (in_outbox m)).
  { intros A m s x s' H. unfold in_outbox in H. destruct (m (outbox s)) as [[a o]|]; [|done].
    injection H as <- <-. by apply grows_same. }
  assert (R : within grows (_apply_release_projection_changes busy now id)).
  { intros s x s' H. unfold _apply_release_projection_changes in H. stx.
    match goal with H : applicable _ _ _ = Ok _ |- _ => apply applicable_plain in H as P end.
    - revert H. by apply plain_change_grows.
    - apply Forall_fmap, Forall_forall. done. }
  pose proof (grows_update id (fun _ => true) (request_release_row now event_id)) as U.
  unfold _request_release. within_tac.
Qed.

Lemma merge_change_plain c l : plain_change c -> Forall plain_change l -> Forall plain_change (merge_change c l).
Proof. intros C F. induction F as [|d l D F IH]; simpl; [by constructor|]. destruct (teqb _ _); by constructor. Qed.

Lemma unique_changes_plain l : Forall plain_change l -> Forall plain_change (_unique_changes l).
Proof.
  unfold _unique_changes. generalize (Forall_nil_2 plain_change). generalize (@nil _ProjectionChange) as acc.
  intros acc A F. revert acc A. induction F as [|c l C F IH]; intros acc A; simpl; [done|].
  apply IH. by apply merge_change_plain.
Qed.

Lemma cuts_plain id l : forall s cs s', for_each (cut_entry id) l s = Ok (cs, s') -> grows s s' /\ Forall plain_change cs.
Proof.
  induction l as [|[[d e] a] l IH]; intros s cs s' H; simpl in H; stx; [done|].
  match goal with H : for_each _ _ _ = _ |- _ => apply IH in H as [G P] end.
  split; [|by constructor]. etrans; [|exact G]. by apply grows_same.
Qed.

Lemma uncounts_plain id subject l : forall s cs s', for_each (uncount_entry id subject) l s = Ok (cs, s') ->
  grows s s' /\ Forall plain_change (concat cs).
Proof.
  induction l as [|w l IH]; intros s cs s' H; simpl in H; stx; [done|].
  match goal with H : for_each _ _ _ = _ |- _ => apply IH in H as [G P] end.
  match goal with H : uncount_entry _ _ _ _ = Ok (?y, ?t) |- _ => assert (X : grows s t /\ Forall plain_change y) end.
  { match goal with H : uncount_entry _ _ _ _ = _ |- _ => unfold uncount_entry in H; stx end.
    destruct (frequency_entries s !! (id, subject, w)) as [e|]; [|by stx].
    destruct (FrequencyEntry.counted e); stx; [|done]. split; [by apply grows_same | by repeat constructor]. }
  destruct X as [G1 P1]. split; [by etrans|]. simpl. by apply Forall_app.
Qed.

Lemma grows_release_one busy ref phone segments : within grows (_release_one busy ref phone segments).
Proof.
  intros s b s' H. unfold _release_one in H. destruct ref as [id|]; [|by stx].
  destruct (segments <? 1); [by stx|]. stx.
  match goal with H : (if ?b then _ else _) _ = _ |- _ => destruct b; [by stx|] end. stx.
  match goal with H : for_each (cut_entry _) _ _ = _ |- _ => apply cuts_plain in H as [G1 P1] end.
  assert (X : forall cs s1 s2, match aliases s !! phone with
      | Some (subject, _) => for_each (uncount_entry id subject) [WindowKind.minute; WindowKind.day]
      | None => mret []
      end s1 = Ok (cs, s2) -> grows s1 s2 /\ Forall plain_change (concat cs)).
  { intros cs s1 s2 E. destruct (aliases s !! phone) as [[subject ?]|]; [by apply uncounts_plain in E | by stx]. }
  match goal with F : _ = Ok (?l, ?s2), H : _ ?s2 = _ |- _ => apply X in F as [G2 P2] end.
  match goal with H : match ?u with [] => _ | _ => _ end _ = _ |- _ =>
    assert (P : Forall plain_change u) by (apply unique_changes_plain, Forall_app; done); destruct u; stx end;
    [by etrans|].
  match goal with H : _change_projections _ _ _ = _ |- _ => apply (plain_change_grows busy _ P) in H end.
  do 2 (etrans; [done|]). done.
Qed.

Lemma grows_cleanup cutoff days :
  (forall due, within grows (cleanup_quota cutoff days due)) /\
  (forall due, within grows (cleanup_frequency cutoff days due)) /\
  (forall due, within grows (cleanup_reservations cutoff days due)) /\
  (forall due, within grows (cleanup_projections cutoff days due)).
Proof.
  split_and!; intros due; apply within_each; try apply _; intros k _.
  - unfold delete_quota_entry. within_tac; grow_same.
  - unfold delete_frequency_entry. within_tac; grow_same.
  - unfold delete_reservation. within_tac; grow_same.
  - intros s x s' H. unfold delete_projection in H. stx. destruct (projections s !! k) as [p|]; [|by stx].
    destruct (_ <? _); stx; [|done]. transitivity (set_projections (delete k) s); [|by apply grows_same].
    exact (grows_deleted [k] s).
Qed.

Lemma grows_cleanup_subjects : (forall due, within grows (cleanup_aliases due)) /\
  (forall due, within grows (cleanup_subjects due)).
Proof.
  split; intros due; apply within_each; try apply _; intros k _.
  - unfold delete_alias. within_tac; grow_same.
  - unfold delete_unused_subject. within_tac; grow_same.
Qed.

Lemma grows_plain_operations :
  (forall now id k app_id sk dept category d, within grows (start_round now id k app_id sk dept category d)) /\
  (forall now id e, within grows (_mark_uncertain now id e)) /\
  (forall now batch ref, within grows (accept_batch now batch ref)) /\
  (forall now id, within grows (finish_release now id)) /\
  (forall chunks events, within grows (outside chunks events)).
Proof.
  split_and!; intros.
  - unfold start_round. within_tac; grow_same.
  - pose proof (grows_update id (in_state UsageState.reserved)) as U. unfold _mark_uncertain.
    apply within_bind; [apply _ | apply U | intros; within_tac].
  - assert (C : forall id, within grows (commit_usage_reservation now id batch)).
    { intros id. unfold commit_usage_reservation. apply within_bind; [apply _ | within_tac | intros s].
      apply within_bind; [apply _ | apply grows_update | intros b; within_tac]. }
    assert (I : within grows (insert_linked batch ref)) by (unfold insert_linked; within_tac; grow_same).
    unfold accept_batch. within_tac.
  - pose proof (grows_update id (in_state UsageState.release_requested) (set_released now)) as U.
    unfold finish_release. within_tac.
  - grow_same.
Qed.

Lemma grows_void {A} (m : tx_ A) s x s' : void m s = Ok (x, s') -> (forall y t, m s = Ok (y, t) -> grows s t) -> grows s s'.
Proof. intros H G. unfold void in H. stx. by eapply G. Qed.

Lemma grows_transaction o s x s' : transaction_of o s = Ok (x, s') -> numbered s -> grows s s'.
Proof.
  intros H N. destruct grows_plain_operations as (S & M & A & F & O). destruct grows_cleanup_subjects as [CA CS].
  destruct o; cbn [transaction_of] in H; stx;
    lazymatch type of H with
    | void _ _ = _ => apply grows_void in H; [done|]; intros y t E
    | _ => idtac
    end.
  - by apply S in E.
  - by apply reserve_hands_out in E as [? _].
  - by apply allow_hands_out in E as [? _].
  - by apply M in H.
  - by apply A in H.
  - unfold request_usage_release_for_batch in E. stx. destruct (batches s !! batch_id) as [[id|]|]; stx; try done.
    match goal with H : _request_release _ _ _ _ _ _ = _ |- _ => by apply grows_release in H end.
  - unfold request_unlinked_release in E. stx. destruct (reservations s !! id); stx. destruct (bool_decide _); stx; [done|].
    match goal with H : _request_release _ _ _ _ _ _ = _ |- _ => by apply grows_release in H end.
  - by apply F in E.
  - by apply grows_release_one in E.
  - by apply grows_cleanup in E.
  - by apply grows_cleanup in E.
  - by apply grows_cleanup in E.
  - by apply grows_cleanup in E.
  - by apply CA in E.
  - by apply CS in E.
  - by apply O in H.
Qed.

Lemma numbered_run ops : numbered (run ops).
Proof.
  unfold run. assert (N : numbered no_ledger).
  { split; simpl; [lia | intros k p; by rewrite lookup_empty | intros k [p P]; by rewrite lookup_empty in P]. }
  revert N. generalize no_ledger as s. induction ops as [|o ops IH]; intros s N; simpl; [done|].
  apply IH. unfold commit. destruct (transaction_of o s) as [[[] s']|] eqn:E; [|done].
  eapply numbered_grows; [done|]. by eapply grows_transaction.
Qed.
End UsageVersions.
