(* ===== verification/UsageProjected.v ===== *)
(** * Ledger and Redis together

    The ledger commits transactions and hands rows out; workers apply them to
    Redis later, repeatedly, in any order, or never; keys expire, Redis may lose
    everything, rebuilds come and go.  Whatever happens, what Redis shows for a
    dimension is a row the ledger handed out, and where Redis shows the version
    the ledger has, it shows the value the ledger has. *)

From stdpp Require Import sorting.
From S2P Require Import Prelude PyText Outbox Category Redis UsageStore UsageFrequency UsageSafety UsageLedger UsageRedis UsageVersions.

Module UsageProjected.
Import Calendar Redis UsageStore UsageFrequency UsageSafety UsageLedger UsageRedis UsageVersions.

(** ** Rows that leave the ledger *)

(** The rows a transaction returns to its caller. *)
Definition rows_handed (o : op) : tx_ (list ProjectionRow) :=
  match o with
  | OpReserveQuota busy now id app_id dept category date_key cost al dl x =>
      _ ← lift (check_quota category date_key cost al dl);
      d ← lift (strptime date_key);
      reserve_quota busy now id app_id dept category date_key d cost al dl x
  | OpAllowFrequency busy now uuid4 id category app_id items limits windows =>
      p ← _allow_frequency_chunk busy now uuid4 id category app_id items limits windows; mret (snd p)
  | _ => _ ← transaction_of o; mret []
  end.

(** A page of the rebuild: the open rows behind the cursor. *)
Definition _projection_page (now : Z) (cursor : text) (s : db) : list ProjectionRow :=
  take 500 (merge_sort row_le
    ((fun p : text * Projection.t => row_of (fst p) (snd p))
     <$> List.filter (fun p : text * Projection.t =>
           (now <? Projection.expires_at (snd p)) && negb (text_leb (fst p) cursor))
         (map_to_list (projections s)))).

Record world := mkWorld { ledger : db; redis_ : redis; handed : list ProjectionRow }.

(** Keys that belong to the projections. *)
Definition projection_key (k : text) : bool :=
  dimension k || starts_with (tx "usage:projection:version:") k.

Inductive wstep : world -> world -> Prop :=
| Wcommit o s rd h rows s' :
    rows_handed o s = Ok (rows, s') -> wstep (mkWorld s rd h) (mkWorld s' rd (rows ++ h))
| Wread keys s rd h : wstep (mkWorld s rd h) (mkWorld s rd (_projection_rows keys s ++ h))
| Wpage now cursor s rd h : wstep (mkWorld s rd h) (mkWorld s rd (_projection_page now cursor s ++ h))
| Wapply now batch s rd h :
    Forall (fun r => r ∈ h) batch ->
    wstep (mkWorld s rd h) (mkWorld s (snd (APPLY_PROJECTIONS_LUA now batch rd)) h)
| Wapply_one now r s rd h :
    r ∈ h -> wstep (mkWorld s rd h) (mkWorld s (snd (APPLY_PROJECTION_LUA now r rd)) h)
| Wbegin now date_key token s rd h :
    wstep (mkWorld s rd h)
      (mkWorld s (snd (BEGIN_PROJECTION_REBUILD_LUA now PROJECTION_REBUILD_KEY (_ready_key date_key) token
                         PROJECTION_REBUILD_TTL_S rd)) h)
| Wrenew now token s rd h :
    wstep (mkWorld s rd h)
      (mkWorld s (snd (RENEW_PROJECTION_REBUILD_LUA now PROJECTION_REBUILD_KEY token PROJECTION_REBUILD_TTL_S rd)) h)
| Wpublish now dates token s rd h :
    wstep (mkWorld s rd h)
      (mkWorld s (snd (PUBLISH_PROJECTION_READY_LUA now PROJECTION_REBUILD_KEY
                         ((fun p : text * Z => (_ready_key (fst p), snd p)) <$> dates) token rd)) h)
| Wexpire now k s rd rd' h : expire now k rd rd' -> wstep (mkWorld s rd h) (mkWorld s rd' h)
| Wflush s rd h : wstep (mkWorld s rd h) (mkWorld s ∅ h)
| Wforeign s rd rd' h :
    (forall k, projection_key k = true -> rd' !! k = rd !! k) -> wstep (mkWorld s rd h) (mkWorld s rd' h).

Definition start : world := mkWorld no_ledger ∅ [].
Definition reachable (w : world) : Prop := rtc wstep start w.

(** ** Invariant *)

Record handed_ok (s : db) (h : list ProjectionRow) : Prop := {
  ho_version : forall r, r ∈ h -> 0 <= pr_version r <= version_seq s;
  ho_key : forall r, r ∈ h -> dimension (pr_dimension_key r) = true;
  ho_current : forall r p, r ∈ h -> projections s !! pr_dimension_key r = Some p ->
    Projection.version p = pr_version r -> r = row_of (pr_dimension_key r) p;
  ho_unique : forall r r', r ∈ h -> r' ∈ h -> pr_dimension_key r = pr_dimension_key r' ->
    pr_version r = pr_version r' -> r = r'
}.

Lemma handed_more s rows s' h : numbered s -> handed_ok s h -> hands_out s rows s' -> handed_ok s' (rows ++ h).
Proof.
  intros Nb [V K C U] (G & E & N). pose proof G as [S R _].
  assert (C' : forall r p, r ∈ h -> projections s' !! pr_dimension_key r = Some p ->
    Projection.version p = pr_version r -> r = row_of (pr_dimension_key r) p).
  { intros r p I P Q. destruct (R _ _ P) as [P'|X]; [by apply C|]. specialize (V r I). lia. }
  assert (M : forall r r', r ∈ rows -> r' ∈ h -> pr_dimension_key r = pr_dimension_key r' ->
    pr_version r = pr_version r' -> r = r').
  { intros r r' I I' D Q. destruct (E r I) as (_ & _ & _ & [F|(p & P & Z)]).
    - specialize (V r' I'). lia.
    - rewrite D in P, Z. rewrite Z. symmetry. apply C; [done | done|]. rewrite <- Q, Z. done. }
  split.
  - intros r [I|I]%elem_of_app; [|specialize (V r I); lia]. destruct (E r I) as (B & _ & _ & F). split; [|done].
    destruct F as [F|(p & P & Z)]; [pose proof (nb_seq s Nb); lia|]. rewrite Z. by destruct (nb_version s Nb _ _ P).
  - intros r [I|I]%elem_of_app; [by apply E | by apply K].
  - intros r p [I|I]%elem_of_app; [by apply E | by apply C'].
  - intros r r' [I|I]%elem_of_app [I'|I']%elem_of_app D Q.
    + by apply (nodup_key pr_dimension_key rows).
    + by apply M.
    + symmetry. by apply M.
    + by apply U.
Qed.

Definition shows (rd : redis) (h : list ProjectionRow) : Prop := forall k, dimension k = true ->
  forall e, rd !! _version_key k = Some e -> exists v, en_value e = VStr (str_int v) /\
    forall e', rd !! k = Some e' -> exists r, r ∈ h /\ pr_dimension_key r = k /\ pr_version r = v /\
      en_value e' = VStr (str_int (pr_value r)).

(** ** The scripts keep it *)

Lemma version_key_inj k k' : _version_key k = _version_key k' -> k = k'.
Proof. unfold _version_key. apply app_inv_head. Qed.

Lemma version_key_control k k' : dimension k = true -> _version_key k' <> k.
Proof. intros D <-. done. Qed.

(** A script that touches only the two keys of a row. *)
Lemma shows_frame rd rd' h k0 : shows rd h -> dimension k0 = true ->
  (forall x, x <> k0 -> x <> _version_key k0 -> rd' !! x = rd !! x) ->
  (forall e, rd' !! _version_key k0 = Some e -> exists v, en_value e = VStr (str_int v) /\
     forall e', rd' !! k0 = Some e' -> exists r, r ∈ h /\ pr_dimension_key r = k0 /\ pr_version r = v /\
       en_value e' = VStr (str_int (pr_value r))) ->
  shows rd' h.
Proof.
  intros S D0 F K k D e E. destruct (decide (k = k0)) as [->|N]; [by apply K|].
  rewrite F in E.
  - destruct (S k D e E) as (v & V & W). exists v. split; [done|]. intros e' E'. apply W. rewrite <- E'.
    symmetry. apply F; [done|]. intros ->. by apply (version_key_control _ k0 D).
  - intros X. by apply (version_key_control k0 k D0).
  - intros X. by apply version_key_inj in X.
Qed.

(** What applying one row does. *)
Inductive applied (now : Z) (r : ProjectionRow) (rd : redis) : result error bool -> redis -> Prop :=
| applied_older v : en_value <$> rd !! _version_key (pr_dimension_key r) = Some (VStr (str_int v)) ->
    pr_version r < v -> applied now r rd (Ok false) rd
| applied_negative : pr_version r < -1 -> applied now r rd (Ok false) rd
| applied_invalid : deadline_ms r <= 0 -> applied now r rd (Raise INVALID_EXPIRE) rd
| applied_expired : 0 < deadline_ms r <= now ->
    applied now r rd (Ok true) (delete (_version_key (pr_dimension_key r)) (delete (pr_dimension_key r) rd))
| applied_set : 0 < deadline_ms r -> now < deadline_ms r ->
    (forall v, en_value <$> rd !! _version_key (pr_dimension_key r) = Some (VStr (str_int v)) -> v <= pr_version r) ->
    applied now r rd (Ok true)
      (<[_version_key (pr_dimension_key r) := mkEntry (VStr (str_int (pr_version r))) (Some (deadline_ms r))]>
       (<[pr_dimension_key r := mkEntry (VStr (str_int (pr_value r))) (Some (deadline_ms r))]> rd)).

Lemma line_applied now r rd h : shows rd h -> dimension (pr_dimension_key r) = true ->
  applied now r rd (fst (projection_line now r rd)) (snd (projection_line now r rd)).
Proof.
  intros S D. unfold projection_line, mbind, script_bind, GET.
  assert (Set_ : (forall v, en_value <$> rd !! _version_key (pr_dimension_key r) = Some (VStr (str_int v)) -> v <= pr_version r) ->
    let m := (_ ← SET_PXAT now (pr_dimension_key r) (str_int (pr_value r)) (deadline_ms r);
              _ ← SET_PXAT now (_version_key (pr_dimension_key r)) (str_int (pr_version r)) (deadline_ms r);
              mret true) rd in applied now r rd (fst m) (snd m)).
  { intros V. unfold SET_PXAT, mbind, script_bind, mret, script_ret. cbv zeta.
    destruct (Z.leb_spec (deadline_ms r) 0); [by constructor|]. simpl.
    destruct (Z.leb_spec (deadline_ms r) now); simpl; constructor; auto with lia. }
  cbv zeta in Set_. destruct (rd !! _version_key (pr_dimension_key r)) as [[x d]|] eqn:E; simpl.
  - destruct (S _ D _ E) as (v & V & _). simpl in V. subst x. simpl. rewrite tonumber_str_int. unfold mret, script_ret. simpl.
    destruct (Z.ltb_spec (pr_version r) v); [apply (applied_older _ _ _ v); [by rewrite E | done]|].
    apply Set_. simpl. intros v' [= X%str_int_inj]. lia.
  - unfold mret, script_ret. simpl. destruct (Z.ltb_spec (pr_version r) (-1)); [by apply applied_negative | by apply Set_].
Qed.

Lemma applied_shows now r rd res rd' h : applied now r rd res rd' -> shows rd h -> r ∈ h ->
  dimension (pr_dimension_key r) = true -> shows rd' h.
Proof.
  intros A S I D. pose proof (version_key_control _ (pr_dimension_key r) D) as N.
  destruct A as [v _ _|_|_|_|_ _ _]; [done | done | done | |]; apply (shows_frame rd _ h (pr_dimension_key r)); try done.
  - intros x X Y. by rewrite !lookup_delete_ne.
  - intros e E. by rewrite lookup_delete_eq in E.
  - intros x X Y. by rewrite !lookup_insert_ne.
  - intros e E. rewrite lookup_insert_eq in E. injection E as <-. exists (pr_version r). split; [done|].
    intros e' E'. rewrite lookup_insert_ne, lookup_insert_eq in E' by done. injection E' as <-. by exists r.
Qed.

Lemma lines_shows now rows h : forall n rd, shows rd h -> Forall (fun r => r ∈ h) rows ->
  Forall (fun r => dimension (pr_dimension_key r) = true) rows -> shows (snd (apply_lines now rows n rd)) h.
Proof.
  induction rows as [|r rows IH]; intros n rd S I D; [done|]. apply Forall_cons in I as [Ir I]. apply Forall_cons in D as [Dr D].
  cbn [apply_lines]. unfold mbind, script_bind. pose proof (line_applied now r rd h S Dr) as A.
  destruct (projection_line now r rd) as [[b|e] rd']; cbn [fst snd] in A; apply applied_shows with (h := h) in A; try done.
  by apply IH.
Qed.

Lemma frame_shows rd rd' h : shows rd h -> (forall k, projection_key k = true -> rd' !! k = rd !! k) -> shows rd' h.
Proof.
  intros S F k D e E. rewrite F in E.
  - destruct (S k D e E) as (v & V & W). exists v. split; [done|]. intros e' E'. apply W. rewrite <- E'. symmetry.
    apply F. unfold projection_key. by rewrite D.
  - unfold projection_key. apply orb_true_iff. right. done.
Qed.

Lemma shows_incl rd h h' : shows rd h -> (forall r, r ∈ h -> r ∈ h') -> shows rd h'.
Proof.
  intros S I k D e E. destruct (S k D e E) as (v & V & W). exists v. split; [done|]. intros e' E'.
  destruct (W e' E') as (r & R & X). exists r. split; [by apply I | done].
Qed.

(** Scripts on the control keys leave the projections alone. *)
Definition quiet {A} (m : script A) : Prop :=
  forall rd k, projection_key k = true -> snd (m rd) !! k = rd !! k.

Lemma quiet_bind {A B} (m : script A) (f : A -> script B) : quiet m -> (forall a, quiet (f a)) -> quiet (m ≫= f).
Proof.
  intros M F rd k K. unfold mbind, script_bind. specialize (M rd k K).
  destruct (m rd) as [[a|e] rd']; simpl in *; [by rewrite F | done].
Qed.

Lemma leaves_ret {A} (a : A) : quiet (mret a).
Proof. done. Qed.

Lemma quiet_get k : quiet (GET k).
Proof. intros rd x _. unfold GET. by repeat case_match. Qed.

Section Control.
Context (c : text) (C : projection_key c = false).

Lemma quiet_key x : projection_key x = true -> c <> x.
Proof using C. congruence. Qed.

Lemma quiet_set now v o : quiet (SET now c v o).
Proof using C. intros rd x K. apply lookup_insert_ne. by apply quiet_key. Qed.

Lemma quiet_del : quiet (DEL c).
Proof using C. intros rd x K. apply lookup_delete_ne. by apply quiet_key. Qed.

Lemma quiet_pxat now v d : quiet (SET_PXAT now c v d).
Proof using C.
  intros rd x K. unfold SET_PXAT. destruct (d <=? 0); [done|]. destruct (d <=? now); simpl.
  - apply lookup_delete_ne. by apply quiet_key.
  - apply lookup_insert_ne. by apply quiet_key.
Qed.

Lemma quiet_expire now n : quiet (EXPIRE now c n).
Proof using C.
  intros rd x K. unfold EXPIRE, PEXPIRE, PEXPIREAT. destruct (_ <=? now); simpl.
  - apply lookup_delete_ne. by apply quiet_key.
  - apply lookup_alter_ne. by apply quiet_key.
Qed.
End Control.

Ltac quiet_tac :=
  repeat first
    [ apply leaves_ret | apply quiet_get | apply quiet_set; reflexivity | apply quiet_del; reflexivity
    | apply quiet_pxat; reflexivity | apply quiet_expire; reflexivity
    | apply quiet_bind; [|intros ?] | case_match ].

Lemma quiet_begin now d token ttl : quiet (BEGIN_PROJECTION_REBUILD_LUA now PROJECTION_REBUILD_KEY (_ready_key d) token ttl).
Proof. unfold BEGIN_PROJECTION_REBUILD_LUA. quiet_tac. Qed.

Lemma quiet_renew now token ttl : quiet (RENEW_PROJECTION_REBUILD_LUA now PROJECTION_REBUILD_KEY token ttl).
Proof. unfold RENEW_PROJECTION_REBUILD_LUA. quiet_tac. Qed.

Lemma quiet_ready now (dates : list (text * Z)) :
  quiet (set_ready now ((fun p : text * Z => (_ready_key (fst p), snd p)) <$> dates)).
Proof. induction dates as [|[d x] dates IH]; simpl; [quiet_tac|]. apply quiet_bind; [quiet_tac | done]. Qed.

Lemma quiet_publish now dates token :
  quiet (PUBLISH_PROJECTION_READY_LUA now PROJECTION_REBUILD_KEY
           ((fun p : text * Z => (_ready_key (fst p), snd p)) <$> dates) token).
Proof.
  unfold PUBLISH_PROJECTION_READY_LUA. apply quiet_bind; [quiet_tac | intros owner].
  case_match; [quiet_tac|]. apply quiet_bind; [apply quiet_ready | intros []]. quiet_tac.
Qed.

(** ** Reachable worlds *)

Record winv (w : world) : Prop := {
  wi_good : good (ledger w);
  wi_numbered : numbered (ledger w);
  wi_handed : handed_ok (ledger w) (handed w);
  wi_shows : shows (redis_ w) (handed w)
}.

Lemma rows_handed_ok o s rows s' : rows_handed o s = Ok (rows, s') -> numbered s ->
  transaction_of o s = Ok (tt, s') /\ hands_out s rows s'.
Proof.
  intros H N.
  assert (Other : forall m : tx_ unit, m = transaction_of o -> (_ ← m; mret []) s = Ok (rows, s') ->
    transaction_of o s = Ok (tt, s') /\ hands_out s rows s').
  { intros m -> E. stx. match goal with H : transaction_of _ _ = Ok (?u, _) |- _ => destruct u; pose proof H as T end.
    subst. split; [done|]. split; [by eapply grows_transaction|]. split; [apply emitted_nil | apply NoDup_nil_2]. }
  destruct o; try (by apply (Other _ eq_refl)); clear Other; cbn [rows_handed] in H.
  - stx.
    split; [|by eapply reserve_hands_out]. cbn [transaction_of]. unfold void, mbind, stex_bind, lift.
    repeat match goal with E : _ = Ok _ |- _ => rewrite E; clear E end. done.
  - stx. match goal with E : _allow_frequency_chunk _ _ _ _ _ _ _ _ _ _ = _ |- _ =>
      pose proof (allow_hands_out _ _ _ _ _ _ _ _ _ _ _ _ E N) end. subst. split; [|done].
    cbn [transaction_of]. unfold void, mbind, stex_bind. by match goal with E : _ = Ok _ |- _ => rewrite E end.
Qed.

Lemma page_hands_out now cursor s : numbered s -> hands_out s (_projection_page now cursor s) s.
Proof.
  intros N. unfold _projection_page. set (l := List.filter _ _).
  assert (L : forall p, p ∈ l -> projections s !! fst p = Some (snd p)).
  { intros [k p] [I _]%filter_in. by apply elem_of_map_to_list in I. }
  assert (K : NoDup (fst <$> l)).
  { subst l. pose proof (NoDup_fst_map_to_list (projections s)) as X. revert X.
    generalize (map_to_list (projections s)) as m. induction m as [|x m IH]; simpl; [done|].
    intros [X1 X2]%NoDup_cons. destruct (_ && _); [|by apply IH]. simpl. apply NoDup_cons. split; [|by apply IH].
    intros (y & E & [I _]%filter_in)%list_elem_of_fmap. apply X1. rewrite E. by apply list_elem_of_fmap_2. }
  set (rows := merge_sort row_le _).
  assert (P : rows ≡ₚ ((fun p : text * Projection.t => row_of (fst p) (snd p)) <$> l)) by apply merge_sort_Permutation.
  split; [done|]. split.
  - apply emitted_read; [done|]. intros r I.
    assert (I' : r ∈ rows) by (by eapply subseteq_take). rewrite P in I'.
    apply list_elem_of_fmap in I' as ([k p] & -> & I'). apply L in I'. by exists p.
  - rewrite fmap_take. eapply sublist_NoDup; [|apply sublist_take]. rewrite P, <- list_fmap_compose. exact K.
Qed.

Lemma winv_step w w' : wstep w w' -> winv w -> winv w'.
Proof.
  intros St [G N H S]. destruct St; cbn [ledger redis_ handed] in *.
  - match goal with E : rows_handed _ _ = _ |- _ => destruct (rows_handed_ok _ _ _ _ E N) as [T O] end.
    split; cbn [ledger redis_ handed].
    + by eapply keeps_transaction.
    + eapply numbered_grows; [done | apply O].
    + by apply (handed_more s).
    + eapply shows_incl; [done|]. intros r I. apply elem_of_app. by right.
  - split; try done; [by apply (handed_more s), reads_hand_out|].
    eapply shows_incl; [done|]. intros r I. apply elem_of_app. by right.
  - split; try done; [by apply (handed_more s), page_hands_out|].
    eapply shows_incl; [done|]. intros r I. apply elem_of_app. by right.
  - split; try done. cbn [ledger redis_ handed]. apply lines_shows; [done | |];
      apply Forall_forall; intros r R; rewrite merge_sort_Permutation in R;
      match goal with F : Forall _ batch |- _ => rewrite Forall_forall in F; specialize (F r R) end;
      [done | by apply H].
  - split; try done. cbn [ledger redis_ handed]. unfold APPLY_PROJECTION_LUA, mbind, script_bind.
    pose proof (line_applied now r rd h S (ho_key _ _ H _ ltac:(eassumption))) as A.
    destruct (projection_line now r rd) as [[b|e] rd']; cbn [fst snd] in A;
      (eapply applied_shows; [exact A | done | done | by apply H]).
  - split; try done. cbn [ledger redis_ handed]. eapply frame_shows; [done | apply quiet_begin].
  - split; try done. cbn [ledger redis_ handed]. eapply frame_shows; [done | apply quiet_renew].
  - split; try done. cbn [ledger redis_ handed]. eapply frame_shows; [done | apply quiet_publish].
  - split; try done. cbn [ledger redis_ handed].
    match goal with E : expire _ _ _ _ |- _ => destruct E end.
    intros x D e' E. apply lookup_delete_Some in E as [_ E]. destruct (S x D e' E) as (v & V & W).
    exists v. split; [done|]. intros e'' E'. apply lookup_delete_Some in E' as [_ E']. by apply W.
  - by split.
  - split; try done. cbn [ledger redis_ handed]. by eapply frame_shows.
Qed.

Lemma winv_reachable w : reachable w -> winv w.
Proof.
  intros R. assert (I : winv start).
  { split; simpl.
    - apply (good_run []).
    - apply (numbered_run []).
    - split; intros r; [intros I|intros I|intros p I|intros r' I]; by apply elem_of_nil in I.
    - intros k D e E. by rewrite lookup_empty in E. }
  unfold reachable in R. revert I. induction R as [w|w1 w2 w3 St _ IH]; [done|]. intros I. apply IH. by eapply winv_step.
Qed.

(** C10: whatever transactions commit, whenever and in whatever order workers
    apply the rows they were handed, and whatever Redis loses, a dimension for
    which Redis shows the version of the ledger shows the value of the ledger.
    For a quota dimension of a day that retention has not removed, that is what
    the open reservations hold. *)
Theorem projection_faithful (w : world) (k : text) (e e' : Redis.entry) (p : Projection.t) :
  reachable w ->
  projections (ledger w) !! k = Some p ->
  redis_ w !! _version_key k = Some e -> en_value e = VStr (str_int (Projection.version p)) ->
  redis_ w !! k = Some e' ->
  en_value e' = VStr (str_int (Projection.value p)) /\
  (is_quota k = true -> k ∉ retired (ledger w) -> en_value e' = VStr (str_int (live_sum (ledger w) k))).
Proof.
  intros R P E V E'. destruct (winv_reachable w R) as [[_ X] N H S].
  assert (D : dimension k = true) by (apply (nb_key _ N); by rewrite P).
  destruct (S k D e E) as (v & V' & W). rewrite V in V'. injection V' as V'%str_int_inj. subst v.
  destruct (W e' E') as (r & I & K & Q & Y).
  assert (Z : en_value e' = VStr (str_int (Projection.value p))).
  { subst k. rewrite Y, (ho_current _ _ H r p I P) by done. done. }
  split; [done|]. intros Qk T. rewrite Z. do 2 f_equal. rewrite <- (X k Qk T). unfold value_of. by rewrite P.
Qed.

(** ** Applying moves forward *)

Definition shown_version (rd : redis) (k : text) : option Z :=
  match en_value <$> rd !! _version_key k with Some (VStr s) => tonumber s | _ => None end.

Definition advances (rd rd' : redis) : Prop := forall k v, dimension k = true -> shown_version rd k = Some v ->
  exists v', shown_version rd' k = Some v' /\ v <= v'.

#[export] Instance advances_preorder : PreOrder advances.
Proof.
  split; [intros rd k v _ V; exists v; split; [done | lia]|].
  intros a b c AB BC k v D V. destruct (AB k v D V) as (v' & V' & L). destruct (BC k v' D V') as (v'' & V'' & L').
  exists v''. split; [done | lia].
Qed.

Lemma applied_advances now r rd res rd' h : applied now r rd res rd' -> shows rd h ->
  dimension (pr_dimension_key r) = true -> 0 <= pr_version r -> 0 < deadline_ms r -> now < deadline_ms r ->
  (exists b, res = Ok b) /\ advances rd rd' /\
  exists v, shown_version rd' (pr_dimension_key r) = Some v /\ pr_version r <= v.
Proof.
  intros A S D P D1 D2. destruct A as [v V L|?|?|?|_ _ V]; try lia.
  - split; [by eexists|]. split; [done|]. exists v. unfold shown_version. rewrite V, tonumber_str_int. split; [done | lia].
  - split; [by eexists|]. split.
    + intros k v Dk K. destruct (decide (k = pr_dimension_key r)) as [->|N].
      * unfold shown_version in *. rewrite lookup_insert_eq. simpl. rewrite tonumber_str_int. exists (pr_version r).
        split; [done|]. destruct (rd !! _version_key (pr_dimension_key r)) as [e|] eqn:E; [|done].
        destruct (S _ D _ E) as (v' & X & _). simpl in *. rewrite X in K, V. simpl in K.
        rewrite tonumber_str_int in K. injection K as <-. by apply V.
      * unfold shown_version in *. rewrite lookup_insert_ne by (intros X%version_key_inj; congruence).
        rewrite lookup_insert_ne by (intros X; by apply (version_key_control _ k D)). exists v. split; [done | lia].
    + exists (pr_version r). unfold shown_version. rewrite lookup_insert_eq. simpl. rewrite tonumber_str_int. split; [done | lia].
Qed.

Lemma lines_advance now rows h : forall n rd, shows rd h ->
  Forall (fun r => r ∈ h /\ dimension (pr_dimension_key r) = true /\ 0 <= pr_version r /\ 0 < deadline_ms r /\
                   now < deadline_ms r) rows ->
  (exists m, fst (apply_lines now rows n rd) = Ok m) /\ advances rd (snd (apply_lines now rows n rd)) /\
  forall r, r ∈ rows -> exists v, shown_version (snd (apply_lines now rows n rd)) (pr_dimension_key r) = Some v /\ pr_version r <= v.
Proof.
  induction rows as [|r rows IH]; intros n rd S F.
  { split; [by eexists|]. split; [done|]. intros r I. by apply elem_of_nil in I. }
  apply Forall_cons in F as [(I & D & P & D1 & D2) F]. cbn [apply_lines]. unfold mbind, script_bind.
  pose proof (line_applied now r rd h S D) as A.
  destruct (projection_line now r rd) as [res rd']. cbn [fst snd] in A.
  pose proof (applied_shows _ _ _ _ _ _ A S I D) as S'.
  destruct (applied_advances _ _ _ _ _ _ A S D P D1 D2) as ([b ->] & A1 & v & V & L).
  destruct (IH (if b then n + 1 else n) rd' S' F) as (M & A2 & R). split; [done|]. split; [by etrans|].
  intros r' [-> | J]%elem_of_cons; [|by apply R]. destruct (A2 _ _ D V) as (v' & V' & L'). exists v'. split; [done | lia].
Qed.

(** A command that applies rows whose deadlines lie ahead never fails, moves
    no dimension back to an older version, and leaves every one of its
    dimensions at the version of its row or a newer one. *)
Theorem apply_advances (w : world) (now : Z) (batch : list ProjectionRow) :
  reachable w -> 0 <= now ->
  Forall (fun r => r ∈ handed w /\ now < deadline_ms r) batch ->
  (exists n, fst (APPLY_PROJECTIONS_LUA now batch (redis_ w)) = Ok n) /\
  (forall k v, dimension k = true -> shown_version (redis_ w) k = Some v ->
     exists v', shown_version (snd (APPLY_PROJECTIONS_LUA now batch (redis_ w))) k = Some v' /\ v <= v') /\
  (forall r, r ∈ batch ->
     exists v, shown_version (snd (APPLY_PROJECTIONS_LUA now batch (redis_ w))) (pr_dimension_key r) = Some v /\
               pr_version r <= v).
Proof.
  intros R T F. destruct (winv_reachable w R) as [_ N H S].
  destruct (lines_advance now (merge_sort row_le batch) (handed w) 0 (redis_ w) S) as (M & A & K).
  - apply Forall_forall. intros r I. rewrite merge_sort_Permutation in I. rewrite Forall_forall in F.
    destruct (F r I) as [J L]. pose proof (ho_version _ _ H r J). split_and!; [done | by apply H | lia | lia | done].
  - split; [done|]. split; [exact A|]. intros r I. apply K. by rewrite merge_sort_Permutation.
Qed.

(** ** An execution *)

Definition committed (o : op) (w : world) : world :=
  match rows_handed o (ledger w) with
  | Ok (rows, s') => mkWorld s' (redis_ w) (rows ++ handed w)
  | Raise _ => w
  end.
Definition published (now : Z) (w : world) : world :=
  mkWorld (ledger w) (snd (APPLY_PROJECTIONS_LUA now (handed w) (redis_ w))) (handed w).

Lemma reachable_committed o w : reachable w -> reachable (committed o w).
Proof.
  intros R. unfold committed. destruct (rows_handed o (ledger w)) as [[rows s']|e] eqn:E; [|done].
  eapply rtc_r; [exact R|]. destruct w as [s rd h]. by apply (Wcommit o).
Qed.

Lemma reachable_published now w : reachable w -> reachable (published now w).
Proof.
  intros R. eapply rtc_r; [exact R|]. destruct w as [s rd h]. apply Wapply. by apply Forall_forall.
Qed.

Definition example_world : world :=
  published 5 (committed (OpReserveQuota false 0 first_id 7 (tx "ops") (tx "notice") (tx "20260105") 3 10 10 1000000000)
    (committed (OpStart 0 first_id (tx "req-1") 7 (tx "api_app") (tx "ops") (tx "notice") first_day) start)).
Definition example_key : text := app_quota_key 7 (tx "20260105").

Lemma example_world_reachable : reachable example_world.
Proof. apply reachable_published, reachable_committed, reachable_committed. apply rtc_refl. Qed.

Lemma projection_faithful_witness :
  en_value <$> redis_ example_world !! example_key = Some (VStr (tx "3")) /\
  live_sum (ledger example_world) example_key = 3 /\
  VStr (tx "3") = VStr (str_int (live_sum (ledger example_world) example_key)).
Proof.
  split; [vm_compute; reflexivity|]. split; [vm_compute; reflexivity|].
  assert (P : projections (ledger example_world) !! example_key
    = Some (Projection.mk ProjectionKind.quota first_day (tx "20260105") 3 2 1000000000)) by (vm_compute; reflexivity).
  assert (V : redis_ example_world !! _version_key example_key
    = Some (mkEntry (VStr (tx "2")) (Some 1000000))) by (vm_compute; reflexivity).
  assert (E : redis_ example_world !! example_key = Some (mkEntry (VStr (tx "3")) (Some 1000000)))
    by (vm_compute; reflexivity).
  apply (projection_faithful example_world example_key _ _ _ example_world_reachable P V eq_refl E); [reflexivity|].
  assert (T : retired (ledger example_world) = []) by (vm_compute; reflexivity).
  rewrite T. apply not_elem_of_nil.
Defined.

Lemma apply_advances_witness :
  let w := committed (OpReserveQuota false 0 first_id 7 (tx "ops") (tx "notice") (tx "20260105") 3 10 10 1000000000)
    (committed (OpStart 0 first_id (tx "req-1") 7 (tx "api_app") (tx "ops") (tx "notice") first_day) start) in
  length (handed w) = 3%nat /\
  exists n, fst (APPLY_PROJECTIONS_LUA 5 (handed w) (redis_ w)) = Ok n.
Proof.
  intros w. split; [vm_compute; reflexivity|].
  assert (D : forallb (fun r => 5 <? deadline_ms r) (handed w) = true) by (vm_compute; reflexivity).
  apply (apply_advances w 5 (handed w)).
  - apply reachable_committed, reachable_committed, rtc_refl.
  - lia.
  - apply Forall_forall. intros r I. split; [exact I|]. rewrite forallb_forall in D.
    apply Z.ltb_lt, D. by apply list_elem_of_In.
Defined.
End UsageProjected.
