(* ===== verification/UsageService.v ===== *)
(** * The service over ledger and Redis

    The operations of [UsageLedgerService] as programs over the calls they make:
    transactions of the ledger, reads, scripts in Redis, the clock and fresh
    UUIDs.  A reservation is only granted after its rows reached Redis, a release
    is only finished after its rows reached Redis, a rebuild only declares the
    day ready after every page reached Redis and gives its lock back on every
    path, and the pages of a rebuild cover the ledger. *)

From stdpp Require Import sorting.
From S2P Require Import Prelude PyText Outbox Category Effects Redis UsageStore UsageFrequency UsageRedis UsageProjected.

Module UsageService.
Import Calendar UsageStore UsageFrequency UsageRedis UsageProjected.

(** ** Calls *)

Inductive call :=
| Clock
| Uuid
| Mget (keys : list text)
| EvalApply (batch : list ProjectionRow)
| EvalBegin (ready_key token : text)
| EvalRenew (token : text)
| EvalPublish (ready : list (text * Z)) (token : text)
| TryLock
| Rollback
| Unlock
| HasFacts (usage_date : date)
| Page (cursor : text)
| AuditRebuild (actor : text) (dimensions quota frequency : Z)
| StartRound (id request_key : text) (app_id : Z) (subject_kind dept category : text) (usage_date : date)
| ReserveQuota (id : text) (app_id : Z) (dept category date_key : text) (usage_date : date)
    (cost app_limit dept_limit expires_at : Z)
| AllowChunk (id category : text) (app_id : Z) (items : list FrequencyDecisionItem) (limits : FrequencyLimits)
    (windows : text * Z * text * date * Z)
| MarkUncertain (id error_type : text)
| RequestUnlinked (id event_id : text)
| ReadProjection (id : text)
| ReadRelease (id : text)
| FinishRelease (id : text)
| Stalled (states : list UsageState.t) (seconds : Z)
| WriteDrift (quota frequency : Z * Z).

Definition answer (c : call) : Type :=
  match c with
  | Clock => Z
  | Uuid => text
  | Mget _ => list (option text)
  | EvalApply _ | EvalBegin _ _ | EvalRenew _ | EvalPublish _ _ => Z
  | TryLock | HasFacts _ => bool
  | Rollback | Unlock | AuditRebuild _ _ _ _ | MarkUncertain _ _ | WriteDrift _ _ => unit
  | Page _ | ReserveQuota _ _ _ _ _ _ _ _ _ _ | ReadProjection _ => list ProjectionRow
  | StartRound _ _ _ _ _ _ _ => text * UsageState.t
  | AllowChunk _ _ _ _ _ _ => list bool * list ProjectionRow
  | RequestUnlinked _ _ => bool
  | ReadRelease _ => option (list ProjectionRow)
  | FinishRelease _ => Z
  | Stalled _ _ => list text
  end.

Abbreviation run := (prog answer exc).

Definition of_class (name : string) (e : exc) : bool := let 'Exc cls _ := e in teqb cls (tx name).
Definition unavailable (e : exc) : bool := of_class "UsageProjectionUnavailable" e.
Definition conflict (e : exc) : bool := of_class "UsageReservationConflict" e.

(** [except Exception as exc: raise UsageProjectionUnavailable(message) from exc] *)
Definition as_unavailable {A} (message : string) (e : exc) : run A :=
  raise (if is_exception e then UsageProjectionUnavailable message else e).

(** ** Publishing rows *)

Fixpoint apply_batches (batches : list (list ProjectionRow)) (applied : Z) : run Z :=
  match batches with
  | [] => mret applied
  | b :: rest => n ← perform (EvalApply b); apply_batches rest (applied + n)
  end.

Definition _apply_rows (rows : list ProjectionRow) : run Z :=
  catch (n ← apply_batches (fst (_projection_batches rows)) 0;
         match snd (_projection_batches rows) with None => mret n | Some e => raise e end)
    (as_unavailable "usage projection write unavailable").

(** ** Rebuild *)

Definition ready_of (d : date * Z) : text * Z := (_ready_key (ymd (fst d)), snd d / 1000).

Definition day_le (a b : date * Z) : Prop := days_from_civil (fst a) <= days_from_civil (fst b).
#[export] Instance day_le_dec a b : Decision (day_le a b).
Proof. unfold day_le. apply _. Defined.

Definition _publish_ready (dates : list (date * Z)) (token : text) : run unit :=
  n ← perform (EvalPublish (ready_of <$> merge_sort day_le dates) token);
  if n =? 1 then mret tt else raise (UsageProjectionUnavailable "usage projection rebuild in progress").

Definition _release_rebuild_lock : run unit := _ ← perform Rollback; perform Unlock.

Definition _claim_rebuild_lock (date_key : text) : run text :=
  token ← perform Uuid;
  catch (locked ← perform TryLock;
         if negb locked then raise (UsageProjectionUnavailable "usage projection rebuild in progress") else
         _ ← perform (EvalBegin (_ready_key date_key) token); mret token)
    (fun e => _ ← _release_rebuild_lock;
              raise (if is_exception e && negb (unavailable e)
                     then UsageProjectionUnavailable "usage projection rebuild unavailable" else e)).

Definition _renew_rebuild (token : text) : run unit :=
  n ← perform (EvalRenew token);
  if n =? 1 then mret tt else raise (UsageProjectionUnavailable "usage projection rebuild owner lost").

(** What the loop over the pages collects. *)
Record totals := mkTotals {
  to_dimensions : Z;
  to_quota : Z;
  to_frequency : Z;
  to_dates : list (date * Z)
}.

Fixpoint extend_date (d : date) (x : Z) (l : list (date * Z)) : list (date * Z) :=
  match l with
  | [] => [(d, x)]
  | (d', x') :: l => if bool_decide (d = d') then (d', Z.max x' x) :: l else (d', x') :: extend_date d x l
  end.

Definition add_row (t : totals) (r : ProjectionRow) : totals :=
  mkTotals (to_dimensions t)
    (to_quota t + (if bool_decide (pr_kind r = ProjectionKind.quota) then 1 else 0))
    (to_frequency t + (if bool_decide (pr_kind r = ProjectionKind.frequency) then 1 else 0))
    (extend_date (pr_usage_date r) (pr_expires_at r) (to_dates t)).

Definition add_page (t : totals) (rows : list ProjectionRow) : totals :=
  foldl add_row (mkTotals (to_dimensions t + count_of rows) (to_quota t) (to_frequency t) (to_dates t)) rows.

Definition last_key (rows : list ProjectionRow) (cursor : text) : text :=
  match last rows with Some r => pr_dimension_key r | None => cursor end.

(** The loop over the pages of the ledger; [fuel] bounds the number of pages. *)
Fixpoint each_page {T} (fuel : nat) (body : T -> list ProjectionRow -> run T) (cursor : text) (t : T) : run T :=
  match fuel with
  | O => raise (Exc (tx "OutOfPages") [])
  | S fuel =>
      rows ← perform (Page cursor);
      match rows with
      | [] => mret t
      | _ => t ← body t rows;
             if count_of rows <? PROJECTION_BATCH_ROWS then mret t
             else each_page fuel body (last_key rows cursor) t
      end
  end.

Definition rebuild_page (token : text) (t : totals) (rows : list ProjectionRow) : run totals :=
  _ ← _renew_rebuild token;
  _ ← _apply_rows rows;
  mret (add_page t rows).

Definition rebuild (fuel : nat) (actor : text) : run Z :=
  now ← perform Clock;
  let '(date_key, usage_date, next_day) := shanghai_day now in
  token ← _claim_rebuild_lock date_key;
  finally
    (catch (t ← each_page fuel (rebuild_page token) [] (mkTotals 0 0 0 [(usage_date, next_day)]);
            _ ← perform (AuditRebuild actor (to_dimensions t) (to_quota t) (to_frequency t));
            _ ← _publish_ready (to_dates t) token;
            mret (to_dimensions t))
       (fun e => if unavailable e then raise e else as_unavailable "usage projection rebuild unavailable" e))
    _release_rebuild_lock.

Definition RECONCILE_REBUILD_ACTOR : text := tx "system:usage-projection-auto".

Definition ensure_ready (fuel : nat) (now : Z) : run unit :=
  let '(date_key, usage_date, next_day) := shanghai_day now in
  marker ← catch (found ← perform (Mget [PROJECTION_REBUILD_KEY; _ready_key date_key]);
                  match found with
                  | [rebuilding; marker] =>
                      if bool_decide (is_Some rebuilding)
                      then raise (UsageProjectionUnavailable "usage projection rebuild in progress")
                      else mret marker
                  | _ => raise (ValueError "not enough values to unpack")
                  end)
             (fun e => if unavailable e then raise e else as_unavailable "usage projection redis unavailable" e);
  if bool_decide (is_Some marker) then mret tt else
  facts ← perform (HasFacts usage_date);
  if facts : bool then _ ← rebuild fuel RECONCILE_REBUILD_ACTOR; mret tt
  else catch (_publish_ready [(usage_date, next_day)] [])
         (as_unavailable "usage projection redis unavailable").

(** ** Reservations *)

Definition uncertain_event (id : text) (suffix : string) : text := tx "usage:" ++ id ++ tx ":" ++ tx suffix.

Record UsageReservation := mkReservation { ur_id : text; ur_reused : bool }.

Fixpoint start_rounds (n : nat) (request_key : text) (app_id : Z) (subject_kind dept category : text)
    (usage_date : date) : run UsageReservation :=
  match n with
  | O => raise (UsageReservationConflict "usage reservation retry drained")
  | S n =>
      id ← perform Uuid;
      '(found, state) ← perform (StartRound id request_key app_id subject_kind dept category usage_date);
      let reused := negb (teqb found id) in
      if negb (reused && bool_decide (state = UsageState.uncertain)) then mret (mkReservation found reused) else
      _ ← perform (RequestUnlinked found (uncertain_event found "uncertain-retry"));
      start_rounds n request_key app_id subject_kind dept category usage_date
  end.

Definition or_clock (now : option Z) : run Z := match now with Some n => mret n | None => perform Clock end.

Definition start_reservation (fuel : nat) (request_key : text) (app_id : Z) (dept category : text)
    (now : option Z) (subject_kind : text) : run UsageReservation :=
  current ← or_clock now;
  _ ← ensure_ready fuel current;
  _ ← of_result (_safe_request_key request_key);
  let '(_, usage_date, _) := shanghai_day current in
  _ ← of_result (check_start app_id dept category subject_kind);
  start_rounds 2 request_key app_id subject_kind dept category usage_date.

(** Apply the rows of a reservation, or leave it uncertain. *)
Definition apply_or_doubt (id : text) (rows : list ProjectionRow) : run unit :=
  catch (_ ← _apply_rows rows; mret tt)
    (fun e => if unavailable e
              then _ ← perform (MarkUncertain id (tx "UsageProjectionUnavailable")); raise e
              else raise e).

Definition reserve_quota (fuel : nat) (id : text) (app_id : Z) (dept category date_key : text)
    (cost app_limit dept_limit expires_at : Z) : run unit :=
  _ ← of_result (check_quota category date_key cost app_limit dept_limit);
  usage_date ← of_result (strptime date_key);
  now ← perform Clock;
  _ ← ensure_ready fuel now;
  rows ← perform (ReserveQuota id app_id dept category date_key usage_date cost app_limit dept_limit expires_at);
  apply_or_doubt id rows.

Fixpoint check_items (items : list FrequencyDecisionItem) : result exc unit :=
  match items with
  | [] => Ok tt
  | i :: items => _ ← check_item i; check_items items
  end.

Fixpoint chunks_of {A} (fuel : nat) (l : list A) : list (list A) :=
  match fuel, l with
  | O, _ | _, [] => []
  | S fuel, _ => take FREQUENCY_DECISION_CHUNK l :: chunks_of fuel (drop FREQUENCY_DECISION_CHUNK l)
  end.

Fixpoint allow_chunks (id category : text) (app_id : Z) (limits : FrequencyLimits)
    (windows : text * Z * text * date * Z) (chunks : list (list FrequencyDecisionItem)) (results : list bool)
    : run (list bool) :=
  match chunks with
  | [] => mret results
  | c :: rest =>
      '(allowed, rows) ← perform (AllowChunk id category app_id c limits windows);
      _ ← apply_or_doubt id rows;
      allow_chunks id category app_id limits windows rest (results ++ allowed)
  end.

Definition allow_frequency_many (fuel : nat) (id category : text) (app_id : Z) (items : list FrequencyDecisionItem)
    (limits : FrequencyLimits) (now : option Z) : run (list bool) :=
  if teqb category (tx "notice") then mret (replicate (length items) true) else
  if negb (tmem category [tx "verify"; tx "market"]) then raise (ValueError "unsupported frequency category") else
  _ ← of_result (check_items items);
  match items with
  | [] => mret []
  | _ =>
      current ← or_clock now;
      _ ← ensure_ready fuel current;
      allow_chunks id category app_id limits (frequency_windows current) (chunks_of (length items) items) []
  end.

Definition allow_frequency (fuel : nat) (id category : text) (app_id : Z) (item : FrequencyDecisionItem)
    (limits : FrequencyLimits) (now : option Z) : run bool :=
  results ← allow_frequency_many fuel id category app_id [item] limits now;
  match results with
  | b :: _ => mret b
  | [] => raise (Exc (tx "IndexError") (tx "list index out of range"))
  end.

(** ** Releases and recovery *)

Definition publish_projection (id : text) : run Z :=
  rows ← perform (ReadProjection id);
  match rows with [] => mret 0 | _ => _apply_rows rows end.

Definition apply_release (id : text) : run Z :=
  found ← perform (ReadRelease id);
  match found with
  | None => raise (UsageReservationConflict "usage reservation unavailable")
  | Some rows => _ ← _apply_rows rows; perform (FinishRelease id)
  end.

Fixpoint recover_reserved (ids : list text) (recovered : Z) : run Z :=
  match ids with
  | [] => mret recovered
  | id :: rest =>
      n ← catch (released ← perform (RequestUnlinked id (uncertain_event id "orphan-recovery"));
                 mret (if released : bool then 1 else 0))
            (fun e => if conflict e then mret 0 else raise e);
      recover_reserved rest (recovered + n)
  end.

Fixpoint recover_stuck (ids : list text) (recovered : Z) : run Z :=
  match ids with
  | [] => mret recovered
  | id :: rest =>
      n ← catch (apply_release id) (fun e => if conflict e || unavailable e then mret 0 else raise e);
      recover_stuck rest (recovered + n)
  end.

Definition recover_orphans (older_than_seconds : Z) : run Z :=
  if older_than_seconds <? 60 then raise (ValueError "usage orphan threshold too small") else
  ids ← perform (Stalled [UsageState.reserved; UsageState.uncertain] older_than_seconds);
  stuck ← perform (Stalled [UsageState.release_requested] older_than_seconds);
  recovered ← recover_reserved ids 0;
  recover_stuck stuck recovered.

(** ** Drift *)

(** Mismatches and their absolute difference, of quota and of frequency. *)
Record UsageDrift := mkDrift { quota_drift : Z * Z; frequency_drift : Z * Z }.
Definition mismatches (d : UsageDrift) : Z := fst (quota_drift d) + fst (frequency_drift d).

Definition actual_value (raw : option text) : Z :=
  match raw with
  | Some v => match py_int v with Some n => n | None => 0 end
  | None => 0
  end.

Definition add_difference (d : UsageDrift) (p : ProjectionRow * option text) : UsageDrift :=
  let '(row, raw) := p in
  let delta := Z.abs (pr_value row - actual_value raw) in
  if actual_value raw =? pr_value row then d else
  match pr_kind row with
  | ProjectionKind.quota => mkDrift (fst (quota_drift d) + 1, snd (quota_drift d) + delta) (frequency_drift d)
  | ProjectionKind.frequency => mkDrift (quota_drift d) (fst (frequency_drift d) + 1, snd (frequency_drift d) + delta)
  end.

Fixpoint drift_batches (batches : list (list ProjectionRow)) (d : UsageDrift) : run UsageDrift :=
  match batches with
  | [] => mret d
  | b :: rest =>
      raw ← perform (Mget (pr_dimension_key <$> b));
      if Nat.eqb (length raw) (length b) then drift_batches rest (foldl add_difference d (zip b raw))
      else raise (ValueError "zip() argument 2 differs in length")
  end.

Definition drift_page (d : UsageDrift) (rows : list ProjectionRow) : run UsageDrift :=
  d ← drift_batches (fst (_projection_batches rows)) d;
  match snd (_projection_batches rows) with None => mret d | Some e => raise e end.

Definition measure_drift (fuel : nat) : run UsageDrift :=
  d ← each_page fuel drift_page [] (mkDrift (0, 0) (0, 0));
  _ ← perform (WriteDrift (quota_drift d) (frequency_drift d));
  mret d.

Definition reconcile_usage_facts (fuel : nat) : run Z :=
  recovered ← recover_orphans 600;
  drift ← measure_drift fuel;
  drift ← (if negb (mismatches drift =? 0)
           then _ ← rebuild fuel RECONCILE_REBUILD_ACTOR; measure_drift fuel
           else mret drift);
  mret (recovered + mismatches drift).

(** ** Granted after the projection *)

Definition applied_to (x : Effects.entry answer exc) (b : list ProjectionRow) : Prop :=
  exists n, x = existT (EvalApply b) (Ok n).

Lemma exec_batches w bs : forall n h,
  match exec w h (apply_batches bs n) with
  | (h', Ok _) => exists tr, h' = h ++ tr /\ Forall2 applied_to tr bs
  | (h', Raise _) => exists tr, h' = h ++ tr
  end.
Proof.
  induction bs as [|b bs IH]; intros n h.
  { exists []. by rewrite app_nil_r. }
  cbn [apply_batches]. rewrite exec_bind. unfold perform at 1. cbn [exec]. destruct (w h (EvalApply b)) as [m|e] eqn:E; [|by eexists].
  specialize (IH (n + m) (h ++ [existT (EvalApply b) (Ok m)])).
  destruct (exec w _ (apply_batches bs (n + m))) as [h' [x|x]]; destruct IH as [tr IH].
  - destruct IH as [-> F]. eexists (_ :: tr). rewrite <- app_assoc. split; [done|]. constructor; [by exists m | done].
  - subst h'. eexists (_ :: tr). by rewrite <- app_assoc.
Qed.

Lemma exec_apply_rows w rows h :
  match exec w h (_apply_rows rows) with
  | (h', Ok _) => exists tr bs, h' = h ++ tr /\ Forall2 applied_to tr bs /\ concat bs = rows
  | (h', Raise e) => (exists tr, h' = h ++ tr) /\ (is_exception e = true -> unavailable e = true)
  end.
Proof.
  unfold _apply_rows. rewrite exec_catch, exec_bind.
  destruct (projection_batches_bounded rows) as (_ & _ & _ & Whole). cbv zeta in Whole.
  pose proof (exec_batches w (fst (_projection_batches rows)) 0 h) as B.
  destruct (exec w h (apply_batches _ 0)) as [h' [n|e]]; destruct B as [tr B].
  - destruct B as [-> F]. destruct (snd (_projection_batches rows)) as [e|].
    + cbn. split; [by exists tr|]. destruct (is_exception e) eqn:X; [done|]. intros Y. congruence.
    + cbn. exists tr, (fst (_projection_batches rows)). split_and!; [done | done | by apply Whole].
  - subst h'. cbn. split; [by exists tr|]. destruct (is_exception e) eqn:X; [done|]. intros Y. congruence.
Qed.

Lemma exec_apply_or_doubt w id rows h :
  match exec w h (apply_or_doubt id rows) with
  | (h', Ok _) => exists tr bs, h' = h ++ tr /\ Forall2 applied_to tr bs /\ concat bs = rows
  | (h', Raise e) => is_exception e = true ->
      exists tr a, h' = h ++ tr ++ [existT (MarkUncertain id (tx "UsageProjectionUnavailable")) a]
  end.
Proof.
  unfold apply_or_doubt. rewrite exec_catch, exec_bind. pose proof (exec_apply_rows w rows h) as R.
  destruct (exec w h (_apply_rows rows)) as [h' [n|e]]; [exact R|]. destruct R as [[tr ->] X].
  destruct (unavailable e) eqn:U; [|unfold raise; cbn; intros Y; by specialize (X Y)].
  rewrite exec_bind. unfold perform. cbn [exec].
  destruct (w (h ++ tr) (MarkUncertain id (tx "UsageProjectionUnavailable"))) as [[]|e'] eqn:E; unfold raise; cbn;
    intros _; eexists tr, _; by rewrite <- app_assoc.
Qed.

(** The calls that commit usage. *)
Definition grants (c : call) : bool :=
  match c with ReserveQuota _ _ _ _ _ _ _ _ _ _ | AllowChunk _ _ _ _ _ _ => true | _ => false end.
Definition grants_nothing (c : call) : bool := negb (grants c).

Ltac only_tac :=
  repeat first
    [ exact I | apply only_perform; reflexivity | apply only_catch; [|intros ?] | apply only_finally
    | apply only_bind; [|intros ?] | assumption | case_match ].

Lemma only_applies P rows : (forall b, P (EvalApply b) = true) -> only P (_apply_rows rows).
Proof.
  intros H. assert (B : forall bs n, only P (apply_batches bs n)).
  { induction bs as [|b bs IH]; intros n; cbn [apply_batches]; [done|].
    apply only_bind; [by apply only_perform | intros m; apply IH]. }
  unfold _apply_rows. apply only_catch; [|done]. apply only_bind; [apply B | intros n]. by case_match.
Qed.

Lemma only_apply_rows rows : only grants_nothing (_apply_rows rows).
Proof. by apply only_applies. Qed.

Lemma only_pages P {T} fuel (body : T -> list ProjectionRow -> run T) :
  (forall cursor, P (Page cursor) = true) -> (forall t rows, only P (body t rows)) ->
  forall cursor t, only P (each_page fuel body cursor t).
Proof.
  intros Q B. induction fuel as [|fuel IH]; intros cursor t; cbn [each_page]; [done|].
  apply only_bind; [by apply only_perform | intros rows]. case_match; [done|]. apply only_bind; [apply B | intros t'].
  case_match; [done | apply IH].
Qed.

Lemma only_rebuild fuel actor : only grants_nothing (rebuild fuel actor).
Proof.
  assert (R : only grants_nothing _release_rebuild_lock) by (unfold _release_rebuild_lock; only_tac).
  assert (P : forall d t, only grants_nothing (_publish_ready d t)) by (intros; unfold _publish_ready; only_tac).
  assert (G : forall tk t rows, only grants_nothing (rebuild_page tk t rows)).
  { intros. unfold rebuild_page. apply only_bind; [unfold _renew_rebuild; only_tac | intros ?].
    apply only_bind; [apply only_apply_rows | done]. }
  unfold rebuild. apply only_bind; [by apply only_perform | intros now]. destruct (shanghai_day now) as [[k d] n].
  apply only_bind; [|intros token].
  - unfold _claim_rebuild_lock. only_tac.
  - apply only_finally; [|done]. apply only_catch; [|intros e; by case_match].
    apply only_bind; [by apply only_pages | intros t]. apply only_bind; [by apply only_perform | intros ?].
    apply only_bind; [apply P | done].
Qed.

Lemma only_ensure_ready fuel now : only grants_nothing (ensure_ready fuel now).
Proof.
  pose proof (only_rebuild fuel RECONCILE_REBUILD_ACTOR) as R.
  assert (P : forall d t, only grants_nothing (_publish_ready d t)) by (intros; unfold _publish_ready; only_tac).
  unfold ensure_ready. destruct (shanghai_day now) as [[k d] n].
  apply only_bind; [|intros marker].
  - apply only_catch; [|intros e; by case_match]. apply only_bind; [by apply only_perform | intros found].
    destruct found as [|r [|m [|]]]; try done. by case_match.
  - case_match; [done|]. apply only_bind; [by apply only_perform | intros facts]. case_match.
    + by apply only_bind.
    + by apply only_catch.
Qed.

Definition silent (x : Effects.entry answer exc) : Prop := grants_nothing (projT1 x) = true.

(** A trace with a single entry that is not quiet splits at it in one way. *)
Lemma split_at (P : Effects.entry answer exc -> Prop) (l before rest after : list (Effects.entry answer exc)) x y :
  Forall P l -> Forall P rest -> ~ P y -> l ++ x :: rest = before ++ y :: after ->
  l = before /\ x = y /\ rest = after.
Proof.
  intros L R Y. revert before. induction L as [|z l Z L IH]; intros [|b before] E; simpl in E; injection E.
  - by intros -> ->.
  - intros -> _. exfalso. rewrite Forall_forall in R. apply Y, R. apply elem_of_app. right. apply list_elem_of_here.
  - intros _ ->. by destruct Y.
  - intros E' ->. by destruct (IH before E') as [-> [-> ->]].
Qed.

Lemma none_at (P : Effects.entry answer exc -> Prop) (l before after : list (Effects.entry answer exc)) y :
  Forall P l -> ~ P y -> l <> before ++ y :: after.
Proof. intros L Y ->. rewrite Forall_forall in L. apply Y, L. apply elem_of_app. right. apply list_elem_of_here. Qed.

Definition answered (x : Effects.entry answer exc) : bool :=
  match projT2 x with Ok _ => true | Raise _ => false end.

Lemma only_apply_or_doubt id rows : only grants_nothing (apply_or_doubt id rows).
Proof.
  unfold apply_or_doubt. apply only_catch.
  - apply only_bind; [apply only_apply_rows | done].
  - intros e. case_match; [|done]. by apply only_bind.
Qed.

(** A quota reservation of the service is granted only after the projection.
    It returns only if the transaction committed and then every row it handed out
    was applied to Redis, in order and without a failure.  If anything raises
    after the transaction committed, the last thing the service does is to mark
    the reservation uncertain, so that nothing continues with it; only a
    cancellation of the task leaves that to the recovery of orphans. *)
Theorem quota_granted_or_doubted (w : Effects.world answer exc) (fuel : nat) (id : text) (app_id : Z)
    (dept category date_key : text) (cost app_limit dept_limit expires_at : Z) :
  match exec w [] (reserve_quota fuel id app_id dept category date_key cost app_limit dept_limit expires_at) with
  | (trace, Ok _) =>
      exists before usage_date rows after batches,
        trace = before ++ existT (ReserveQuota id app_id dept category date_key usage_date cost app_limit
                                    dept_limit expires_at) (Ok rows) :: after /\
        Forall2 applied_to after batches /\ concat batches = rows
  | (trace, Raise e) =>
      is_exception e = true -> forall before usage_date rows after,
        trace = before ++ existT (ReserveQuota id app_id dept category date_key usage_date cost app_limit
                                    dept_limit expires_at) (Ok rows) :: after ->
        exists after' a, after = after' ++ [existT (MarkUncertain id (tx "UsageProjectionUnavailable")) a]
  end.
Proof.
  unfold reserve_quota. rewrite exec_bind. unfold of_result. cbn [exec].
  destruct (check_quota category date_key cost app_limit dept_limit) as [[]|e].
  2:{ intros _ before ? ? ? E. by destruct before. }
  rewrite exec_bind. cbn [exec]. destruct (strptime date_key) as [d|e].
  2:{ intros _ before ? ? ? E. by destruct before. }
  rewrite exec_bind. unfold perform at 1. cbn [exec]. destruct (w [] Clock) as [now|e] eqn:C.
  2:{ intros _ before ? ? ? E. destruct before as [|x [|]]; done. }
  rewrite exec_bind. match goal with |- context [exec w ?h0 (ensure_ready fuel now)] =>
    destruct (only_exec _ w _ (only_ensure_ready fuel now) h0) as (tr & E & Q);
    assert (L : Forall silent (h0 ++ tr)) by (by constructor); set (l := h0 ++ tr) in *; clearbody l;
    destruct (exec w h0 (ensure_ready fuel now)) as [h [[]|e]]; cbn [fst] in E; subst h end.
  2:{ intros _ before ? ? ? E. exfalso. revert E. by apply (none_at silent). }
  rewrite exec_bind. unfold perform at 1. cbn [exec].
  match goal with |- context [w ?h0 ?c] => destruct (w h0 c) as [rows|e] eqn:W end.
  2:{ intros _ before ? rows after E. exfalso.
      apply (split_at silent l before [] after) in E as (_ & X & _); [|done|done|done].
      by apply (f_equal answered) in X. }
  match goal with |- context [exec w ?h0 (apply_or_doubt id rows)] =>
    pose proof (exec_apply_or_doubt w id rows h0) as A;
    destruct (only_exec _ w _ (only_apply_or_doubt id rows) h0) as (rest & E & F);
    destruct (exec w h0 (apply_or_doubt id rows)) as [h [u|e]]; cbn [fst] in E end.
  - destruct A as (after & bs & -> & F2 & Cc). exists l, d, rows, after, bs. by rewrite <- app_assoc.
  - intros X before ud rows' after T. destruct (A X) as (tr' & a & ->). rewrite <- !app_assoc in *. simpl in *.
    apply app_inv_head in E. injection E as <-.
    apply (split_at silent l before _ after) in T as (_ & _ & <-); [|done|done|done]. by exists tr', a.
Qed.

(** ** Released after the projection *)

Definition finishes_nothing (c : call) : bool := match c with FinishRelease _ => false | _ => true end.
Definition unfinished (x : Effects.entry answer exc) : Prop := finishes_nothing (projT1 x) = true.

Definition finish_of (x : Effects.entry answer exc) : option (text * result exc Z) :=
  let '(existT c a) := x in
  match c return result exc (answer c) -> option (text * result exc Z) with
  | FinishRelease id => fun a => Some (id, a)
  | _ => fun _ => None
  end a.

(** A release is finished only after the projection: if the service asks the
    ledger to finish a release at all, it has just read the rows of that
    reservation and applied every one of them to Redis without a failure, and
    finishing is the last thing it does. *)
Theorem released_after_projection (w : Effects.world answer exc) (id : text) :
  forall before id' a after,
    fst (exec w [] (apply_release id)) = before ++ existT (FinishRelease id') a :: after ->
    id' = id /\ after = [] /\ snd (exec w [] (apply_release id)) = a /\
    exists rows applies batches,
      before = existT (ReadRelease id) (Ok (Some rows)) :: applies /\
      Forall2 applied_to applies batches /\ concat batches = rows.
Proof.
  intros before id' a after. unfold apply_release. rewrite exec_bind. unfold perform at 1 3. cbn [exec].
  destruct (w [] (ReadRelease id)) as [[rows|]|e]; cbn [app].
  2,3: intros E; exfalso; revert E; apply (none_at unfinished); [by repeat constructor | done].
  rewrite exec_bind. match goal with |- context [exec w ?h0 (_apply_rows rows)] =>
    pose proof (exec_apply_rows w rows h0) as A;
    destruct (only_exec _ w _ (only_applies finishes_nothing rows ltac:(done)) h0) as (rest & E & F);
    destruct (exec w h0 (_apply_rows rows)) as [h [u|e]]; cbn [fst] in E; subst h end.
  2:{ intros E; exfalso; revert E; apply (none_at unfinished); [by constructor | done]. }
  destruct A as (tr & bs & E & F2 & C). apply app_inv_head in E as ->. unfold perform; cbn [exec].
  match goal with |- context [w ?h0 (FinishRelease id)] => destruct (w h0 (FinishRelease id)) as [n|e] end; cbn [fst snd].
  all: intros T; apply (split_at unfinished _ _ [] after) in T as (<- & X & <-); [|by constructor | done | done].
  all: apply (f_equal finish_of) in X; injection X as <- <-; eauto 10.
Qed.

Definition released_id : text := tx "r".
Definition releasing : Effects.world answer exc := fun _ c =>
  match c return result exc (answer c) with
  | ReadRelease _ => Ok (Some [])
  | FinishRelease _ => Ok 1
  | _ => Raise (ValueError "unexpected call")
  end.

Lemma released_after_projection_witness :
  exists rows applies batches,
    [existT (ReadRelease released_id) (Ok (Some []))] =
      (existT (ReadRelease released_id) (Ok (Some rows)) : Effects.entry answer exc) :: applies /\
    Forall2 applied_to applies batches /\ concat batches = rows.
Proof.
  apply (released_after_projection releasing released_id _ released_id (Ok 1) []). vm_compute. reflexivity.
Defined.

End UsageService.
