(* ===== verification/UsageRebuild.v ===== *)
(** * A rebuild covers the ledger

    The pages a rebuild reads follow the order of the dimension keys, each page
    continuing behind the last key of the one before.  While the ledger stands
    still, which the exclusive lock of the rebuild enforces, the pages visit
    every open row exactly once and the loop ends; so the day is only declared
    ready after every open row reached Redis. *)

From stdpp Require Import sorting.
From S2P Require Import Prelude PyText Effects Redis UsageStore UsageRedis UsageProjected UsageService.

Module UsageRebuild.
Import Calendar UsageStore UsageRedis UsageProjected UsageService.

(** ** The order of keys *)

Lemma text_leb_trans : forall a b c, text_leb a b = true -> text_leb b c = true -> text_leb a c = true.
Proof.
  induction a as [|x a IH]; intros [|y b] [|z c] H1 H2; simpl in *; try done.
  apply orb_true_iff in H1 as [H1|[H1 H1']%andb_prop]; apply orb_true_iff in H2 as [H2|[H2 H2']%andb_prop];
    apply orb_true_iff; [left; lia | left; lia | left; lia | right].
  apply andb_true_iff. split; [lia | by apply (IH b)].
Qed.

Lemma text_leb_total : forall a b, text_leb a b = true \/ text_leb b a = true.
Proof.
  induction a as [|x a IH]; intros [|y b]; simpl; auto.
  destruct (Z.lt_trichotomy x y) as [|[->|]]; rewrite ?orb_true_iff; [left; left; lia | | right; left; lia].
  rewrite !Z.eqb_refl. simpl. destruct (IH b); auto.
Qed.

Lemma text_leb_antisym : forall a b, text_leb a b = true -> text_leb b a = true -> a = b.
Proof.
  induction a as [|x a IH]; intros [|y b] H1 H2; simpl in *; try done.
  apply orb_true_iff in H1 as [H1|[H1 H1']%andb_prop]; apply orb_true_iff in H2 as [H2|[H2 H2']%andb_prop]; try lia.
  assert (x = y) as -> by lia. by rewrite (IH b).
Qed.

#[export] Instance row_le_trans : Transitive row_le.
Proof. intros a b c. apply text_leb_trans. Qed.
#[export] Instance row_le_total : Total row_le.
Proof. intros a b. apply text_leb_total. Qed.

(** ** The open rows behind a cursor *)

Definition behind (cursor : text) (r : ProjectionRow) : bool := negb (text_leb (pr_dimension_key r) cursor).

Definition all_rows (now : Z) (s : db) : list ProjectionRow :=
  merge_sort row_le
    ((fun p : text * Projection.t => row_of (fst p) (snd p))
     <$> List.filter (fun p : text * Projection.t => now <? Projection.expires_at (snd p))
           (map_to_list (projections s))).

Definition open_rows (now : Z) (cursor : text) (s : db) : list ProjectionRow :=
  List.filter (behind cursor) (all_rows now s).

Lemma keys_filter {A B} (f : A -> B) (P : A -> bool) l : NoDup (f <$> l) -> NoDup (f <$> List.filter P l).
Proof.
  induction l as [|x l IH]; simpl; [done|]. intros [X1 X2]%NoDup_cons. destruct (P x); [|by apply IH].
  simpl. apply NoDup_cons. split; [|by apply IH].
  intros (y & E & [I _]%filter_in)%list_elem_of_fmap. apply X1. rewrite E. by apply list_elem_of_fmap_2.
Qed.

Lemma all_rows_keys now s : NoDup (pr_dimension_key <$> all_rows now s).
Proof.
  unfold all_rows. rewrite (merge_sort_Permutation row_le), <- list_fmap_compose.
  apply (keys_filter fst), NoDup_fst_map_to_list.
Qed.

Lemma sorted_filter (P : ProjectionRow -> bool) l : StronglySorted row_le l -> StronglySorted row_le (List.filter P l).
Proof.
  induction 1 as [|x l S IH F]; simpl; [constructor|]. case_match; [|done]. constructor; [done|].
  rewrite Forall_forall in *. intros y [I _]%filter_in. by apply F.
Qed.

Lemma filter_fmap {A B} (f : A -> B) (P : B -> bool) l : List.filter P (f <$> l) = f <$> List.filter (fun x => P (f x)) l.
Proof. induction l as [|x l IH]; [done|]. rewrite fmap_cons. simpl. case_match; by rewrite IH. Qed.

Lemma filter_both {A} (P Q : A -> bool) l : List.filter P (List.filter Q l) = List.filter (fun x => Q x && P x) l.
Proof. induction l as [|x l IH]; [done|]. simpl. destruct (Q x); simpl; [case_match; by rewrite IH | done]. Qed.

Lemma filter_perm {A} (P : A -> bool) l k : l ≡ₚ k -> List.filter P l ≡ₚ List.filter P k.
Proof.
  induction 1 as [|x l k H IH|x y l|l k m H1 IH1 H2 IH2]; simpl; [done | by case_match; rewrite IH | | by rewrite IH1].
  destruct (P x), (P y); [apply perm_swap | done..].
Qed.

Lemma unique_keys (l : list ProjectionRow) x y :
  NoDup (pr_dimension_key <$> l) -> x ∈ l -> y ∈ l -> pr_dimension_key x = pr_dimension_key y -> x = y.
Proof.
  induction l as [|z l IH]; [by intros _ ?%elem_of_nil|]. rewrite fmap_cons. intros [N1 N2]%NoDup_cons.
  intros [->|X]%elem_of_cons [->|Y]%elem_of_cons E; [done | | | by apply IH].
  - destruct N1. rewrite E. by apply list_elem_of_fmap_2.
  - destruct N1. rewrite <- E. by apply list_elem_of_fmap_2.
Qed.

(** What the query of a page returns are the first open rows behind the cursor. *)
Lemma page_open now cursor s : _projection_page now cursor s = take 500 (open_rows now cursor s).
Proof.
  unfold _projection_page. f_equal. unfold open_rows.
  assert (P : merge_sort row_le ((fun p : text * Projection.t => row_of (fst p) (snd p)) <$> List.filter
      (fun p : text * Projection.t => (now <? Projection.expires_at (snd p)) && negb (text_leb (fst p) cursor))
      (map_to_list (projections s))) ≡ₚ List.filter (behind cursor) (all_rows now s)).
  { unfold all_rows. etransitivity; [apply merge_sort_Permutation|].
    erewrite (filter_perm (behind cursor) (merge_sort row_le _)) by apply merge_sort_Permutation.
    by rewrite filter_fmap, filter_both. }
  eapply (StronglySorted_unique_strong row_le).
  - intros x y X Y L1 L2. rewrite P in X. apply filter_in in X as [X _]. apply filter_in in Y as [Y _].
    eapply unique_keys; [apply (all_rows_keys now s) | done | done |]. by apply text_leb_antisym.
  - apply (StronglySorted_merge_sort row_le).
  - apply sorted_filter, (StronglySorted_merge_sort row_le).
  - exact P.
Qed.

Lemma last_app_cons {A} (l k : list A) x : last (l ++ x :: k) = last (x :: k).
Proof. induction l as [|y l IH]; [done|]. simpl. rewrite <- IH. by destruct l. Qed.

(** Behind the last key of a prefix of the open rows are the rows after it. *)
Lemma behind_last l k x :
  StronglySorted row_le (l ++ [x] ++ k) -> NoDup (pr_dimension_key <$> l ++ [x] ++ k) ->
  List.filter (behind (pr_dimension_key x)) (l ++ [x] ++ k) = k.
Proof.
  induction l as [|y l IH]; simpl.
  - intros [S F]%StronglySorted_inv [N _]%NoDup_cons.
    unfold behind at 1. destruct (text_leb_total (pr_dimension_key x) (pr_dimension_key x)) as [-> | ->]; simpl.
    all: clear S; induction F as [|z k Z F IH]; simpl in *; [done|];
      apply not_elem_of_cons in N as [N1 N2]; unfold behind at 1;
      destruct (text_leb (pr_dimension_key z) (pr_dimension_key x)) eqn:L; simpl;
      [by destruct N1; apply text_leb_antisym | by rewrite IH].
  - intros [S F]%StronglySorted_inv [_ N]%NoDup_cons. unfold behind at 1. rewrite Forall_forall in F.
    assert (row_le y x) as -> by (apply F, elem_of_app; right; left). by apply IH.
Qed.

Lemma open_rows_keys now cursor s : NoDup (pr_dimension_key <$> open_rows now cursor s).
Proof. apply keys_filter, all_rows_keys. Qed.

Lemma open_rows_sorted now cursor s : StronglySorted row_le (open_rows now cursor s).
Proof. apply sorted_filter, (StronglySorted_merge_sort row_le). Qed.

Lemma open_rows_behind now c c' s : text_leb c c' = true ->
  open_rows now c' s = List.filter (behind c') (open_rows now c s).
Proof.
  intros L. unfold open_rows. rewrite filter_both. apply filter_ext. intros r. unfold behind.
  destruct (text_leb (pr_dimension_key r) c) eqn:E; simpl; [|done]. by rewrite (text_leb_trans _ _ _ E L).
Qed.

Lemma open_rows_next now cursor s rows rest x :
  open_rows now cursor s = rows ++ rest -> last rows = Some x -> open_rows now (pr_dimension_key x) s = rest.
Proof.
  intros E (l & ->)%last_Some. rewrite <- app_assoc in E.
  rewrite (open_rows_behind now cursor).
  - pose proof (open_rows_keys now cursor s) as N. pose proof (open_rows_sorted now cursor s) as S.
    rewrite E in *. by apply behind_last.
  - assert (I : x ∈ open_rows now cursor s) by (rewrite E; set_solver).
    apply filter_in in I as [_ B]. unfold behind in B. apply negb_true_iff in B.
    by destruct (text_leb_total (pr_dimension_key x) cursor) as [|]; [congruence|].
Qed.

(** ** The loop over the pages *)

Section pages.
Context (w : Effects.world answer exc) (now : Z) (s : db).
Context (still : forall h cursor rows, w h (Page cursor) = Ok rows -> rows = _projection_page now cursor s).
Context {T : Type} (body : T -> list ProjectionRow -> run T).

Lemma exec_page fuel cursor t h :
  exec w h (each_page (S fuel) body cursor t) =
  let rows := take 500 (open_rows now cursor s) in
  match w h (Page cursor) with
  | Raise e => (h ++ [existT (Page cursor) (Raise e)], Raise e)
  | Ok _ =>
      let h := h ++ [existT (Page cursor) (Ok rows)] in
      match rows with
      | [] => (h, Ok t)
      | _ => match exec w h (body t rows) with
             | (h, Ok t) => if count_of rows <? PROJECTION_BATCH_ROWS then (h, Ok t)
                            else exec w h (each_page fuel body (last_key rows cursor) t)
             | (h, Raise e) => (h, Raise e)
             end
      end
  end.
Proof.
  cbn [each_page]. rewrite exec_bind. unfold perform at 1. cbn [exec].
  pose proof (still h cursor) as St. destruct (w h (Page cursor)) as [rows|e]; [|done].
  rewrite (St rows eq_refl), page_open. cbv zeta.
  destruct (take 500 _) as [|r rows']; [done|]. rewrite exec_bind. cbn [answer].
  match goal with |- context [exec w ?h0 (body t ?rs)] => destruct (exec w h0 (body t rs)) as [h' [t'|e]] end; [|done].
  by case_match.
Qed.

Lemma short_page (n m : nat) : (Z.of_nat (n `min` m) <? Z.of_nat n) = true -> (m < n)%nat.
Proof. destruct (Nat.min_spec n m) as [[? ->]|[? ->]]; lia. Qed.

Lemma long_page (n m : nat) : (Z.of_nat (n `min` m) <? Z.of_nat n) = false -> (n <= m)%nat.
Proof. destruct (Nat.min_spec n m) as [[? ->]|[? ->]]; lia. Qed.

Lemma page_rest cursor :
  let rows := take 500 (open_rows now cursor s) in
  if count_of rows <? PROJECTION_BATCH_ROWS then open_rows now cursor s = rows
  else open_rows now (last_key rows cursor) s = drop 500 (open_rows now cursor s)
       /\ (length (drop 500 (open_rows now cursor s)) < length (open_rows now cursor s))%nat.
Proof.
  cbv zeta. unfold count_of, PROJECTION_BATCH_ROWS. rewrite length_take.
  destruct (_ <? 500) eqn:E.
  - apply (short_page 500) in E. rewrite take_ge; [done | lia].
  - apply (long_page 500) in E. rewrite length_drop. split; [|apply Nat.sub_lt; [done | lia]]. unfold last_key. destruct (last (take 500 _)) as [x|] eqn:L.
    + eapply open_rows_next; [|done]. symmetry. apply take_drop.
    + apply last_None in L. apply (f_equal length) in L. rewrite length_take, Nat.min_l in L by done. done.
Qed.

(** More pages than rows are never needed. *)
Lemma pages_fuel : forall fuel fuel' cursor t h, (length (open_rows now cursor s) < fuel)%nat -> (fuel <= fuel')%nat ->
  exec w h (each_page fuel' body cursor t) = exec w h (each_page fuel body cursor t).
Proof.
  induction fuel as [|fuel IH]; intros fuel' cursor t h L G; [lia|]. destruct fuel' as [|fuel']; [lia|].
  rewrite !exec_page. cbv zeta. pose proof (page_rest cursor) as R. cbv zeta in R.
  destruct (w h (Page cursor)); [|done]. destruct (take 500 _) as [|r rows]; [done|].
  match goal with |- context [exec w ?h0 (body t ?rs)] => destruct (exec w h0 (body t rs)) as [h' [t'|e]] end; [|done].
  destruct (_ <? _); [done|]. destruct R as [R1 R2]. apply IH; [rewrite R1; lia | lia].
Qed.

Context (Inv : list ProjectionRow -> list (Effects.entry answer exc) -> T -> Prop).
Context (on_page : forall seen h t cursor a, Inv seen h t -> Inv seen (h ++ [existT (Page cursor) a]) t).
Context (on_rows : forall seen rows h t h' t', rows <> [] ->
  Inv seen h t -> exec w h (body t rows) = (h', Ok t') -> Inv (seen ++ rows) h' t').

(** The loop visits the open rows behind its cursor, once and in order. *)
Lemma pages_visit : forall fuel cursor t h seen h' t', (length (open_rows now cursor s) < fuel)%nat ->
  Inv seen h t -> exec w h (each_page fuel body cursor t) = (h', Ok t') ->
  Inv (seen ++ open_rows now cursor s) h' t'.
Proof.
  induction fuel as [|fuel IH]; intros cursor t h seen h' t' L I; [lia|].
  rewrite exec_page. cbv zeta. destruct (w h (Page cursor)); [|done].
  pose proof (page_rest cursor) as R. cbv zeta in R.
  assert (TD := take_drop 500 (open_rows now cursor s)).
  destruct (take 500 _) as [|r rows] eqn:Tk.
  { intros [= <- <-]. destruct (open_rows now cursor s); [|done]. rewrite app_nil_r. by apply on_page. }
  match goal with |- context [exec w ?h0 (body t ?rs)] => destruct (exec w h0 (body t rs)) as [h1 [t1|e]] eqn:B end; [|done].
  apply (on_rows seen) in B; [|done | by apply on_page].
  destruct (_ <? _).
  - intros [= <- <-]. by rewrite R.
  - destruct R as [R1 R2]. intros E. apply (IH _ _ _ (seen ++ r :: rows)) in E; [|rewrite R1; lia | done].
    rewrite R1, <- app_assoc, TD in E. exact E.
Qed.
End pages.

(** ** The rebuild *)

(** The rows the scripts of a trace applied. *)
Definition applied_rows (x : Effects.entry answer exc) : list ProjectionRow :=
  match x with existT (EvalApply b) (Ok _) => b | _ => [] end.
Definition rows_applied (h : list (Effects.entry answer exc)) : list ProjectionRow := concat (applied_rows <$> h).

Definition publishes_nothing (c : call) : bool := match c with EvalPublish _ _ => false | _ => true end.
Definition unpublished (x : Effects.entry answer exc) : Prop := publishes_nothing (projT1 x) = true.

Lemma rows_applied_app h k : rows_applied (h ++ k) = rows_applied h ++ rows_applied k.
Proof. unfold rows_applied. by rewrite fmap_app, concat_app. Qed.

Lemma rows_applied_to tr bs : Forall2 applied_to tr bs -> rows_applied tr = concat bs.
Proof. induction 1 as [|x b tr bs [n ->] F IH]; [done|]. unfold rows_applied in *. rewrite fmap_cons. simpl. by rewrite IH. Qed.

Lemma add_rows_dimensions t rows : to_dimensions (foldl add_row t rows) = to_dimensions t.
Proof. revert t. induction rows as [|r rows IH]; intros t; [done|]. simpl. by rewrite IH. Qed.

Definition rebuilt (seen : list ProjectionRow) (h : list (Effects.entry answer exc)) (t : totals) : Prop :=
  rows_applied h = seen /\ to_dimensions t = count_of seen /\ Forall unpublished h.

Lemma rebuilt_page w token seen rows h t h' t' :
  rebuilt seen h t -> exec w h (rebuild_page token t rows) = (h', Ok t') -> rebuilt (seen ++ rows) h' t'.
Proof.
  intros (A & D & U). unfold rebuild_page, _renew_rebuild. rewrite !exec_bind. unfold perform at 1. cbn [exec].
  match goal with |- context [w ?h0 ?c] => destruct (w h0 c) as [n|e] end; [|done].
  destruct (n =? 1); [|done]. unfold mret at 1, prog_ret at 1. cbn [exec]. rewrite exec_bind.
  match goal with |- context [exec w ?h0 (_apply_rows rows)] =>
    pose proof (exec_apply_rows w rows h0) as R;
    destruct (only_exec _ w _ (only_applies publishes_nothing rows ltac:(done)) h0) as (rest & E & F);
    destruct (exec w h0 (_apply_rows rows)) as [h1 [u|e]]; cbn [fst] in E; subst h1 end; [|done].
  destruct R as (tr & bs & E & F2 & C). apply app_inv_head in E as ->. intros [= <- <-].
  split_and!.
  - rewrite !rows_applied_app, A, (rows_applied_to _ _ F2), C. unfold rows_applied. simpl. by rewrite app_nil_r.
  - unfold add_page. rewrite add_rows_dimensions. simpl. rewrite D. unfold count_of. rewrite length_app. lia.
  - rewrite !Forall_app. split_and!; [done | by repeat constructor | done].
Qed.
Lemma only_claim date_key : only publishes_nothing (_claim_rebuild_lock date_key).
Proof.
  unfold _claim_rebuild_lock. apply only_bind; [done|]. intros token. apply only_catch.
  - apply only_bind; [done|]. intros locked. destruct (negb locked); [done|]. by apply only_bind.
  - intros e. apply only_bind; [|done]. by apply only_bind.
Qed.

Lemma only_rebuild_pages token fuel cursor t : only publishes_nothing (each_page fuel (rebuild_page token) cursor t).
Proof.
  apply only_pages; [done|]. intros t' rows. unfold rebuild_page, _renew_rebuild.
  apply only_bind; [|intros []].
  - apply only_bind; [done|]. intros n. by case_match.
  - apply only_bind; [by apply only_applies | done].
Qed.
Definition publish_of (x : Effects.entry answer exc) : option (result exc Z) :=
  let '(existT c a) := x in
  match c return result exc (answer c) -> option (result exc Z) with
  | EvalPublish _ _ => fun a => Some a
  | _ => fun _ => None
  end a.

(** The part between the claim of the lock and its release. *)
Lemma rebuild_body (w : Effects.world answer exc) now s fuel actor token t h :
  (forall h cursor rows, w h (Page cursor) = Ok rows -> rows = _projection_page now cursor s) ->
  (length (open_rows now [] s) < fuel)%nat ->
  Forall unpublished h -> rows_applied h = [] -> to_dimensions t = 0 ->
  match exec w h (t ← each_page fuel (rebuild_page token) [] t;
                  _ ← perform (AuditRebuild actor (to_dimensions t) (to_quota t) (to_frequency t));
                  _ ← _publish_ready (to_dates t) token;
                  mret (to_dimensions t)) with
  | (h', r) =>
      (Forall unpublished h' /\ exists e, r = Raise e) \/
      exists h0 quota frequency dates a,
        let n := count_of (open_rows now [] s) in
        h' = h0 ++ [existT (AuditRebuild actor n quota frequency) (Ok tt); existT (EvalPublish dates token) a] /\
        Forall unpublished h0 /\ rows_applied h0 = open_rows now [] s /\
        r = match a with
            | Ok k => if k =? 1 then Ok n
                      else Raise (UsageProjectionUnavailable "usage projection rebuild in progress")
            | Raise e => Raise e
            end
  end.
Proof.
  intros St L U A D. rewrite exec_bind.
  destruct (only_exec _ w _ (only_rebuild_pages token fuel [] t) h) as (tr & E & F).
  destruct (exec w h (each_page fuel (rebuild_page token) [] t)) as [h1 [t1|e]] eqn:X; cbn [fst] in E; subst h1.
  2:{ left. split; [by apply Forall_app | by eexists]. }
  apply (pages_visit w now s St (rebuild_page token) rebuilt) with (seen := []) in X as (A1 & D1 & U1).
  2:{ intros seen h2 t2 cursor a (H1 & H2 & H3). split_and!; [|done | apply Forall_app; by repeat constructor].
      rewrite rows_applied_app, H1. unfold rows_applied. simpl. by rewrite app_nil_r. }
  2:{ intros seen rows h2 t2 h3 t3 _. apply rebuilt_page. }
  2:{ done. }
  2:{ done. }
  cbn [app] in *. rewrite exec_bind. unfold perform at 1. cbn [exec].
  match goal with |- context [w ?h0 ?c] => destruct (w h0 c) as [[]|e] end.
  2:{ left. split; [apply Forall_app; by repeat constructor | by eexists]. }
  rewrite exec_bind. unfold _publish_ready. rewrite exec_bind. unfold perform at 1. cbn [exec].
  match goal with |- context [w ?h0 (EvalPublish ?d token)] =>
    destruct (w h0 (EvalPublish d token)) as [k|e] end.
  - destruct (k =? 1) eqn:K; right; eexists (h ++ tr), _, _, _, (Ok k); rewrite <- D1, K;
      (split_and!; [by rewrite <- app_assoc | done..]).
  - right; eexists (h ++ tr), _, _, _, (Raise e); rewrite <- D1. split_and!; [by rewrite <- app_assoc | done..].
Qed.
(** The end of a run that tried the lock: the transaction was rolled back and
    the lock given back, or one of these two statements failed and its error is
    what the run raised. *)
Definition releases {A} (trace : list (Effects.entry answer exc)) (r : result exc A) : Prop :=
  (exists pre, trace = pre ++ [existT Rollback (Ok tt); existT Unlock (Ok tt)]) \/
  (exists e, r = Raise e /\
     ((exists pre, trace = pre ++ [existT Rollback (Raise e)]) \/
      (exists pre, trace = pre ++ [existT Rollback (Ok tt); existT Unlock (Raise e)]))).

Lemma exec_release w h : exists tr, fst (exec w h _release_rebuild_lock) = h ++ tr /\
  releases (h ++ tr) (snd (exec w h _release_rebuild_lock)) /\ Forall unpublished tr /\ rows_applied tr = [].
Proof.
  unfold _release_rebuild_lock, perform. rewrite !exec_bind. cbn [exec].
  destruct (w h Rollback) as [[]|e]; eexists.
  - cbn [exec fst snd]. rewrite <- app_assoc. split_and!; [done | | by repeat constructor | done].
    match goal with |- context [w ?h0 Unlock] => destruct (w h0 Unlock) as [[]|e] end;
      [left; eauto | right; exists e; split; [done|]; right; eauto].
  - cbn [fst snd]. split_and!; [done | | by repeat constructor | done]. right. exists e. split; [done|]. left; eauto.
Qed.

(** The error of the release replaces the outcome of what it follows. *)
Lemma releases_after {A} (trace : list (Effects.entry answer exc)) (u : result exc unit) (r : result exc A) : releases trace u ->
  releases trace (match u with Ok _ => r | Raise e => Raise e end).
Proof. intros [P|(e & -> & P)]; [by left | right; by exists e]. Qed.

(** The claim of the lock either holds it or has given it back. *)
Lemma exec_claim w h date_key :
  match exec w h (_claim_rebuild_lock date_key) with
  | (h', Ok _) => exists tr, h' = h ++ tr /\ Forall unpublished tr /\ rows_applied tr = []
  | (h', Raise e) => exists tr, h' = h ++ tr /\ Forall unpublished tr /\
                       ((exists a, tr = [existT Uuid a]) \/ releases (A:=Z) h' (Raise e))
  end.
Proof.
  unfold _claim_rebuild_lock. rewrite exec_bind. unfold perform at 1. cbn [exec].
  destruct (w h Uuid) as [token|e].
  2:{ eexists. split_and!; [done | by repeat constructor | left; eauto]. }
  match goal with |- match exec w ?h0 (catch ?p ?g) with _ => _ end =>
    rewrite exec_catch; assert (P : exists tr, fst (exec w h0 p) = h0 ++ tr /\ Forall unpublished tr /\ rows_applied tr = []) end.
  { rewrite exec_bind. unfold perform at 1. cbn [exec].
    match goal with |- context [w ?h0 TryLock] => destruct (w h0 TryLock) as [[]|e] end; cbn [negb].
    2-3: eexists; split_and!; [done | by repeat constructor | done].
    rewrite exec_bind. unfold perform at 1. cbn [exec].
    match goal with |- context [w ?h0 (EvalBegin ?k token)] => destruct (w h0 (EvalBegin k token)) as [n|e] end.
    all: eexists; cbn; rewrite <- app_assoc; split_and!; [done | by repeat constructor | done]. }
  match type of P with context [exec w ?h0 ?p] => destruct (exec w h0 p) as [h1 [x|e]] end;
    cbn [fst] in P; destruct P as (tr & -> & U & A).
  - eexists. rewrite <- app_assoc. split_and!; [done | by constructor | done].
  - rewrite exec_bind. match goal with |- context [exec w ?h0 _release_rebuild_lock] =>
      destruct (exec_release w h0) as (tr' & E & G & U' & A');
      destruct (exec w h0 _release_rebuild_lock) as [h2 [x|e']]; cbn [fst snd] in E, G; subst h2 end.
    all: cbn [exec raise]; eexists; rewrite <- !app_assoc in *; split_and!;
      [done | apply Forall_app; split; [by repeat constructor | by apply Forall_app] | right].
    all: first [exact (releases_after _ (Ok x) (Raise _) G) | exact (releases_after _ (Raise e') (Raise e) G)].
Qed.
(** What a finished execution of the rebuild looks like from outside. *)
Definition covers (now : Z) (s : db) (actor : text) (trace : list (Effects.entry answer exc)) (r : result exc Z) : Prop :=
  (forall before dates token after,
     trace = before ++ existT (EvalPublish dates token) (Ok 1) :: after ->
     rows_applied before = open_rows now [] s /\
     exists quota frequency,
       last before = Some (existT (AuditRebuild actor (count_of (open_rows now [] s)) quota frequency) (Ok tt))) /\
  (forall n, r = Ok n ->
     n = count_of (open_rows now [] s) /\ exists dates token, existT (EvalPublish dates token) (Ok 1) ∈ trace) /\
  (forall a, existT TryLock a ∈ trace -> releases trace r).

Lemma not_tried (P : Prop) a (l : list (Effects.entry answer exc)) :
  Forall (fun x => match projT1 x with TryLock => False | _ => True end) l -> existT TryLock a ∈ l -> P.
Proof. rewrite Forall_forall. by intros F I%F. Qed.

Lemma covers_unpublished now s actor trace e : Forall unpublished trace -> 
  (forall a, existT TryLock a ∈ trace -> releases (A:=Z) trace (Raise e)) -> covers now s actor trace (Raise e).
Proof.
  intros U G. split_and!; [|done..]. intros before dates token after E. exfalso.
  revert E. by apply (none_at unpublished).
Qed.
Lemma published_ok now s actor h0 quota frequency dates token a tr r :
  let audit := existT (AuditRebuild actor (count_of (open_rows now [] s)) quota frequency) (Ok tt) in
  let trace := (h0 ++ [audit; existT (EvalPublish dates token) a]) ++ tr in
  Forall unpublished h0 -> rows_applied h0 = open_rows now [] s -> Forall unpublished tr -> releases trace r ->
  (forall n, r = Ok n -> a = Ok 1 /\ n = count_of (open_rows now [] s)) ->
  covers now s actor trace r.
Proof.
  cbv zeta. intros U A U' G R. split_and!; [| |done].
  - intros before d tk after E. rewrite <- app_assoc in E. simpl in E.
    match type of E with _ ++ ?x :: ?y :: _ = _ => replace (h0 ++ x :: y :: tr) with ((h0 ++ [x]) ++ y :: tr) in E
      by (by rewrite <- app_assoc) end.
    apply (split_at unpublished) in E as (<- & _ & _);
      [|by apply Forall_app; split; [|repeat constructor] | done | done].
    rewrite rows_applied_app, A. unfold rows_applied. simpl. rewrite app_nil_r. split; [done|].
    exists quota, frequency. by rewrite last_snoc.
  - intros n En. destruct (R n En) as [-> ->]. split; [done|]. exists dates, token. set_solver.
Qed.

Lemma rebuild_fuel (w : Effects.world answer exc) now s fuel fuel' actor :
  (forall h cursor rows, w h (Page cursor) = Ok rows -> rows = _projection_page now cursor s) ->
  (length (open_rows now [] s) < fuel)%nat -> (fuel <= fuel')%nat ->
  exec w [] (rebuild fuel' actor) = exec w [] (rebuild fuel actor).
Proof.
  intros St L G. unfold rebuild. rewrite !exec_bind.
  unfold perform. cbn [exec]. destruct (w [] Clock) as [t|e]; [|done].
  destruct (shanghai_day t) as [[k d] n]. rewrite !exec_bind.
  match goal with |- context [exec w ?h0 (_claim_rebuild_lock k)] =>
    destruct (exec w h0 (_claim_rebuild_lock k)) as [h1 [token|e]] end; [|done].
  rewrite !exec_finally, !exec_catch, !exec_bind. by rewrite (pages_fuel w now s St _ fuel fuel').
Qed.

(** C26: a rebuild is complete.  Let every page read that succeeds read the same
    ledger, as the exclusive lock of the rebuild enforces; any read, and any
    other call, may fail.  The days are only declared ready after every open
    row of the ledger was applied to Redis, once each and in the order of their
    keys, and after an audit entry with their number was written; a rebuild
    that returns did declare them ready and returns that number; and whenever
    it tried the lock, it ends by rolling back and giving the lock back, or one
    of these two statements fails and it raises that error.  The loop over the
    pages ends: beyond one page per open row its fuel makes no difference. *)
Theorem rebuild_complete (w : Effects.world answer exc) (now : Z) (s : db) (fuel : nat) (actor : text) :
  (forall h cursor rows, w h (Page cursor) = Ok rows -> rows = _projection_page now cursor s) ->
  (length (open_rows now [] s) < fuel)%nat ->
  covers now s actor (fst (exec w [] (rebuild fuel actor))) (snd (exec w [] (rebuild fuel actor))) /\
  forall fuel', (fuel <= fuel')%nat -> exec w [] (rebuild fuel' actor) = exec w [] (rebuild fuel actor).
Proof.
  intros St L. split; [|intros fuel' G; by apply (rebuild_fuel w now s)].
  unfold rebuild. rewrite !exec_bind. unfold perform at 1 3. cbn [exec].
  destruct (w [] Clock) as [t|e].
  2:{ apply covers_unpublished; [by repeat constructor|]. intros a. apply not_tried. by repeat constructor. }
  destruct (shanghai_day t) as [[k d] nx]. rewrite !exec_bind.
  match goal with |- context [exec w ?h0 (_claim_rebuild_lock k)] =>
    pose proof (exec_claim w h0 k) as C; destruct (exec w h0 (_claim_rebuild_lock k)) as [h1 [token|e]] end.
  2:{ destruct C as (tr & -> & U & B). apply covers_unpublished; [by constructor|]. intros a.
      destruct B as [[b ->]|B]; [|done]. apply not_tried. by repeat constructor. }
  destruct C as (tr & -> & U & A). rewrite !exec_finally, !exec_catch.
  match goal with |- context [exec w ?h0 (each_page fuel _ [] ?t0 ≫= ?f)] =>
    pose proof (rebuild_body w now s fuel actor token t0 h0 St L ltac:(by constructor) A eq_refl) as B;
    destruct (exec w h0 (each_page fuel (rebuild_page token) [] t0 ≫= f)) as [h2 r] end.
  match goal with |- context [exec w (fst ?x) _release_rebuild_lock] => set (done_ := x) end.
  assert (D : exists r', done_ = (h2, r') /\ forall n, r' = Ok n -> r = Ok n).
  { subst done_. destruct r as [n|e]; [by exists (Ok n)|].
    unfold as_unavailable, raise. case_match; cbn [exec]; by eexists. }
  clearbody done_. destruct D as (r' & -> & D). cbn [fst snd].
  destruct (exec_release w h2) as (tr' & E & G & U' & A').
  pose proof (fun r : result exc Z => releases_after _ _ r G) as G'.
  destruct (exec w h2 _release_rebuild_lock) as [h3 [[]|e]]; cbn [fst snd] in *; subst h3.
  - destruct B as [[B [e ->]]|(h0 & q & f & dates & a & -> & B1 & B2 & ->)].
    + destruct r' as [n|e']; [by specialize (D n eq_refl)|]. apply covers_unpublished; [by apply Forall_app | intros ? _; apply G'].
    + apply published_ok; [done..| apply G' |]. intros n En. specialize (D n En). destruct a as [kk|]; [|done].
      destruct (Z.eqb_spec kk 1) as [->|]; [|done]. by injection D as <-.
  - destruct B as [[B [e' ->]]|(h0 & q & f & dates & a & -> & B1 & B2 & ->)].
    + apply covers_unpublished; [by apply Forall_app | intros ? _; apply (G' (Raise e))].
    + apply published_ok; [done..| apply (G' (Raise e)) | done].
Qed.

(** Redis and the database answer every call, the ledger is that of an example. *)
Definition example_calls : Effects.world answer exc := fun _ c =>
  match c return result exc (answer c) with
  | Clock => Ok 0
  | Uuid => Ok (tx "owner")
  | TryLock => Ok true
  | Page cursor => Ok (_projection_page 0 cursor (ledger example_world))
  | EvalApply batch => Ok (count_of batch)
  | EvalBegin _ _ | EvalRenew _ | EvalPublish _ _ => Ok 1
  | AuditRebuild _ _ _ _ => Ok tt
  | Rollback | Unlock => Ok tt
  | _ => Raise (ValueError "unexpected call")
  end.

Lemma rebuild_complete_witness :
  open_rows 0 [] (ledger example_world) <> [] /\
  (forall n, snd (exec example_calls [] (rebuild 9 (tx "ops"))) = Ok n ->
     n = count_of (open_rows 0 [] (ledger example_world))) /\
  exists n, snd (exec example_calls [] (rebuild 9 (tx "ops"))) = Ok n.
Proof.
  split; [vm_compute; done|]. split.
  - intros n E. destruct (rebuild_complete example_calls 0 (ledger example_world) 9 (tx "ops")) as [(_ & C & _) _].
    + intros h cursor rows. cbv beta iota delta [example_calls].
      generalize (_projection_page 0 cursor (ledger example_world)). by intros l [= ->].
    + apply Nat.ltb_lt. vm_compute. reflexivity.
    + by apply C.
  - eexists. vm_compute. reflexivity.
Defined.
End UsageRebuild.
