(* ===== verification/ReportStore.v ===== *)
(** * Delivery reports: tables and transactions
    ([services/report_repository.py], [services/report_projection.py], and the
    statements on message results of [services/uncertain_repository.py],
    [services/dispatch_blacklist.py], [tasks/send_repository*.py])

    A report is first stored as an immutable event, then projected onto the one
    message it belongs to, if it outranks the report the message already shows;
    the counters of the batch follow.  Messages without a report become
    [unknown] after a timeout.  Every writer of a message status is here, so
    that the counters can be stated against all of them.

    [now] is the start of a transaction.  Every row a transaction decides on is
    locked until it commits, in the order chunk, batch, message; the candidate a
    report is matched to is read before these locks and therefore an argument.
    The notifications and releases of capacity a transaction asks for are
    recorded in [notes]. *)

From S2P Require Import Prelude PyText Category Routing Failover SendState UsageStore.

(** [sms_message]; [(id, created_at)] is the key. *)
Module Delivery.

Record t := mk {
  batch_id : Z;
  chunk_id : option Z;
  phone_hmac : text;
  status : MessageStatus.t;
  report_status : option Z;
  report_desc : option text;
  report_time : option Z;
  report_event_key : option text
}.

Definition set_status (v : MessageStatus.t) (m : t) : t :=
  mk (batch_id m) (chunk_id m) (phone_hmac m) v (report_status m) (report_desc m) (report_time m)
    (report_event_key m).
Definition set_chunk_id (v : option Z) (m : t) : t :=
  mk (batch_id m) v (phone_hmac m) (status m) (report_status m) (report_desc m) (report_time m)
    (report_event_key m).
(** [SET status, report_status, report_desc, report_time, report_event_key] *)
Definition set_report (st : MessageStatus.t) (rs : Z) (d : text) (at_ : Z) (k : text) (m : t) : t :=
  mk (batch_id m) (chunk_id m) (phone_hmac m) st (Some rs) (Some d) (Some at_) (Some k).

End Delivery.

(** [sms_batch], the columns of the results and of the timeout schedule. *)
Module Counted.

Record t := mk {
  status : BatchStatus.t;
  delivered : Z;
  failed : Z;
  unknown_cnt : Z;
  active_message_count : option Z;
  active_message_count_token : option Z;
  last_attempt_at : option Z;
  next_attempt_at : option Z;
  generation : Z;
  failures : Z
}.

Definition set_status (v : BatchStatus.t) (b : t) : t :=
  mk v (delivered b) (failed b) (unknown_cnt b) (active_message_count b) (active_message_count_token b)
    (last_attempt_at b) (next_attempt_at b) (generation b) (failures b).
Definition set_counts (st : BatchStatus.t) (d f u : Z) (a tk : option Z) (b : t) : t :=
  mk st d f u a tk (last_attempt_at b) (next_attempt_at b) (generation b) (failures b).
Definition set_schedule (last next : option Z) (g f : Z) (b : t) : t :=
  mk (status b) (delivered b) (failed b) (unknown_cnt b) (active_message_count b)
    (active_message_count_token b) last next g f.

End Counted.

(** [sms_chunk], the columns a report is matched and attributed by. *)
Module ReportChunk.

Record t := mk {
  batch_id : Z;
  custom_id : text;
  selected_vendor : option text;
  status : ChunkStatus.t;
  submitted_at : option Z;
  late_evidence_at : option Z
}.

Definition set_status (v : ChunkStatus.t) (submitted : option Z) (c : t) : t :=
  mk (batch_id c) (custom_id c) (selected_vendor c) v submitted (late_evidence_at c).
Definition set_late (v : option Z) (c : t) : t :=
  mk (batch_id c) (custom_id c) (selected_vendor c) (status c) (submitted_at c) v.

End ReportChunk.

(** [report_event]; the event key is the key. *)
Module ReportEvent.

Record t := mk {
  raw_id : Z;
  vendor_task_id : text;
  custom_id : text;
  phone_enc : text;
  phone_hmac : text;
  phone_mask : text;
  key_version : Z;
  report_status : Z;
  message_status : MessageStatus.t;
  report_desc : text;
  report_time : Z
}.

End ReportEvent.

(** [report_event_projection]; the event key is the key. *)
Module ReportProjection.

Record t := mk { batch_id : Z; message : Z * Z; projection_changed : bool }.

End ReportProjection.

Module ReportStore.
Import UsageStore.UsageStore(HMAC_PATTERN, text_leb).

(** What a transaction asks of the callbacks and of the in-flight capacity. *)
Inductive note :=
| MessageReport (event_key : text) (message : Z * Z) (status : MessageStatus.t)
| BatchFinished (batch_id : Z) (source : option text)
| ReleaseCapacity (batch_id : Z) (reason : text).

Record db := mkDb {
  messages : gmap (Z * Z) Delivery.t;
  batches : gmap Z Counted.t;
  chunks : gmap Z ReportChunk.t;
  attempts : list (Z * text * Outcome.t);
  events : gmap text ReportEvent.t;
  projections : gmap text ReportProjection.t;
  unmatched : gmap text ReportEvent.t;
  dirty : gset Z;
  excluded : gset (Z * Z);
  tokens : Z;
  notes : list note
}.

Definition set_messages f (s : db) : db :=
  mkDb (f (messages s)) (batches s) (chunks s) (attempts s) (events s) (projections s) (unmatched s)
    (dirty s) (excluded s) (tokens s) (notes s).
Definition set_batches f (s : db) : db :=
  mkDb (messages s) (f (batches s)) (chunks s) (attempts s) (events s) (projections s) (unmatched s)
    (dirty s) (excluded s) (tokens s) (notes s).
Definition set_chunks f (s : db) : db :=
  mkDb (messages s) (batches s) (f (chunks s)) (attempts s) (events s) (projections s) (unmatched s)
    (dirty s) (excluded s) (tokens s) (notes s).
Definition set_events f (s : db) : db :=
  mkDb (messages s) (batches s) (chunks s) (attempts s) (f (events s)) (projections s) (unmatched s)
    (dirty s) (excluded s) (tokens s) (notes s).
Definition set_projections f (s : db) : db :=
  mkDb (messages s) (batches s) (chunks s) (attempts s) (events s) (f (projections s)) (unmatched s)
    (dirty s) (excluded s) (tokens s) (notes s).
Definition set_unmatched f (s : db) : db :=
  mkDb (messages s) (batches s) (chunks s) (attempts s) (events s) (projections s) (f (unmatched s))
    (dirty s) (excluded s) (tokens s) (notes s).
Definition set_dirty f (s : db) : db :=
  mkDb (messages s) (batches s) (chunks s) (attempts s) (events s) (projections s) (unmatched s)
    (f (dirty s)) (excluded s) (tokens s) (notes s).
Definition set_excluded f (s : db) : db :=
  mkDb (messages s) (batches s) (chunks s) (attempts s) (events s) (projections s) (unmatched s)
    (dirty s) (f (excluded s)) (tokens s) (notes s).
Definition set_tokens v (s : db) : db :=
  mkDb (messages s) (batches s) (chunks s) (attempts s) (events s) (projections s) (unmatched s)
    (dirty s) (excluded s) v (notes s).
Definition add_note n (s : db) : db :=
  mkDb (messages s) (batches s) (chunks s) (attempts s) (events s) (projections s) (unmatched s)
    (dirty s) (excluded s) (tokens s) (notes s ++ [n]).

Definition tx_ (A : Type) : Type := stex db exc A.

(** [gen_random_uuid()]: a token no row has had before *)
Definition gen_random_uuid : tx_ Z :=
  s ← get; _ ← modify (set_tokens (tokens s + 1)); mret (tokens s + 1).

(** ** Reports *)

Record ProtectedReport := mkReport {
  event_key : text;
  vendor_task_id : text;
  custom_id : text;
  match_custom_id : text;
  phone_enc : text;
  phone_hmac : text;
  phone_mask : text;
  key_version : Z;
  report_status : Z;
  message_status : MessageStatus.t;
  report_desc : text;
  report_time : Z;
  phone_hmacs : list text;
  vendor_id : text
}.

Definition _message_status (report_status : Z) : MessageStatus.t :=
  if report_status =? 1 then MessageStatus.delivered
  else if (report_status =? 2) || (report_status =? 99) then MessageStatus.failed
  else if report_status =? 0 then MessageStatus.unknown
  else MessageStatus.other.

Record ReportApplyResult := mkApplied { applied_batch : Z; changed : bool }.

Definition event_of (raw_id : Z) (r : ProtectedReport) : ReportEvent.t :=
  ReportEvent.mk raw_id (vendor_task_id r) (custom_id r) (phone_enc r) (phone_hmac r) (phone_mask r)
    (key_version r) (report_status r) (message_status r) (report_desc r) (report_time r).

(** The casts and constraints of a row of [report_event]; a text of the database
    holds no NUL. *)
Definition event_valid (r : ProtectedReport) : bool :=
  fullmatch HMAC_PATTERN (event_key r) && fullmatch HMAC_PATTERN (phone_hmac r)
  && fullmatch HMAC_PATTERN (vendor_task_id r) && fullmatch HMAC_PATTERN (custom_id r)
  && between 1 32767 (key_version r) && negb (contains 0 (report_desc r)) && (-32768 <=? report_status r) && (report_status r <? 32768)
  && (len (report_desc r) <=? 128) && (len (phone_mask r) <=? 11)
  && bool_decide (message_status r ∈ [MessageStatus.delivered; MessageStatus.failed;
                                       MessageStatus.unknown; MessageStatus.other]).

Definition constraint_violated : exc := Exc (tx "IntegrityError") (tx "report_event").

(** [INSERT INTO report_event ... ON CONFLICT(event_key) DO NOTHING] *)
Definition _persist_event (raw_id : Z) (r : ProtectedReport) : tx_ unit :=
  _ ← lift (require (event_valid r) constraint_violated);
  s ← get;
  match events s !! event_key r with
  | Some _ => mret tt
  | None => modify (set_events (<[event_key r := event_of raw_id r]>))
  end.

(** ** Counters of a batch *)

Definition active_status (st : MessageStatus.t) : bool :=
  bool_decide (st ∈ [MessageStatus.pending; MessageStatus.sent]).

(** [count( * ) FILTER (WHERE ...)] over the messages of a batch *)
Definition count_where (batch_id : Z) (f : MessageStatus.t -> bool) (s : db) : Z :=
  Z.of_nat (size (filter (fun p : (Z * Z) * Delivery.t =>
    Delivery.batch_id (snd p) = batch_id /\ f (Delivery.status (snd p)) = true) (messages s))).

Definition is_ (st st' : MessageStatus.t) : bool := bool_decide (st' = st).
Definition b2i (b : bool) : Z := if b then 1 else 0.

(** Trigger [trg_batch_invalidate_legacy_active_count]: an update of the
    counters that keeps the token invalidates the active count. *)
Definition invalidate_legacy_batch_active_count (old new : Counted.t) : Counted.t :=
  if bool_decide (Counted.active_message_count_token new = Counted.active_message_count_token old)
  then Counted.set_counts (Counted.status new) (Counted.delivered new) (Counted.failed new)
         (Counted.unknown_cnt new) None None new
  else new.

Definition update_counts (batch_id : Z) (old new : Counted.t) : tx_ unit :=
  modify (set_batches (<[batch_id := invalidate_legacy_batch_active_count old new]>)).

(** Which status the batch gets from the counts of its messages. *)
Definition status_rule : Type := BatchStatus.t -> Z -> Z -> Z -> BatchStatus.t.

(** [UPDATE sms_batch SET delivered=..., failed=..., ... FROM (SELECT count ...)] *)
Definition recount (batch_id : Z) (rule : status_rule) : tx_ unit :=
  s ← get;
  match batches s !! batch_id with
  | None => mret tt
  | Some b =>
      tk ← gen_random_uuid;
      let active := count_where batch_id active_status s in
      let unknown := count_where batch_id (is_ MessageStatus.unknown) s in
      update_counts batch_id b
        (Counted.set_counts
           (rule (Counted.status b) (count_where batch_id (fun _ => true) s) active unknown)
           (count_where batch_id (is_ MessageStatus.delivered) s)
           (count_where batch_id (is_ MessageStatus.failed) s) unknown (Some active) (Some tk) b)
  end.

Definition completed_or (b st : BatchStatus.t) : BatchStatus.t :=
  if bool_decide (b = BatchStatus.completed_unknown) then BatchStatus.completed_unknown else st.

Definition refresh_rule : status_rule := fun b count active _ =>
  completed_or b (if count =? 0 then b else if active =? 0 then BatchStatus.completed else b).
(** [_finalize_failed_messages]: a batch without messages is not updated at all. *)
Definition failed_rule : status_rule := fun b _ active _ =>
  completed_or b (if active =? 0 then BatchStatus.completed else b).
Definition terminal_rule : status_rule := fun b _ active unknown =>
  completed_or b (if (active =? 0) && (0 <? unknown) then BatchStatus.completed_unknown
                  else if active =? 0 then BatchStatus.completed else b).
Definition settle_rule : status_rule := fun b count active _ =>
  completed_or b (if count =? 0 then b
                  else if (active =? 0) && bool_decide (b ∈ [BatchStatus.queued; BatchStatus.sending])
                  then BatchStatus.completed else b).

(** The differences a single report or a number of timeouts makes. *)
Inductive delta :=
| StatusDelta (previous current : MessageStatus.t)
| UnknownDelta (n : Z).

Definition delta_counts (d : delta) : result exc (Z * Z * Z * Z) :=
  match d with
  | StatusDelta previous current =>
      _ ← require (bool_decide (current ∈ [MessageStatus.delivered; MessageStatus.failed;
                                            MessageStatus.unknown; MessageStatus.other]))
            (ValueError "report delta must end in a report status");
      let diff f := b2i (f current) - b2i (f previous) in
      Ok (diff (is_ MessageStatus.delivered), diff (is_ MessageStatus.failed),
          diff (is_ MessageStatus.unknown), diff active_status)
  | UnknownDelta n =>
      _ ← refuse (n <? 0) (ValueError "unknown_delta must be non-negative");
      Ok (0, 0, n, - n)
  end.

(** [UPDATE sms_batch SET delivered=b.delivered + ... WHERE b.active_message_count
    IS NOT NULL ...]; whether a row was updated. *)
Definition apply_delta (batch_id : Z) (d : delta) : tx_ bool :=
  '(dd, df, du, da) ← lift (delta_counts d);
  s ← get;
  match batches s !! batch_id with
  | Some b =>
      match Counted.active_message_count b, Counted.active_message_count_token b with
      | Some a, Some _ =>
          tk ← gen_random_uuid;
          let st := completed_or (Counted.status b)
                      (if a + da =? 0 then BatchStatus.completed else Counted.status b) in
          _ ← update_counts batch_id b
                (Counted.set_counts st (Counted.delivered b + dd) (Counted.failed b + df)
                   (Counted.unknown_cnt b + du) (Some (a + da)) (Some tk) b);
          mret true
      | _, _ => mret false
      end
  | None => mret false
  end.

Definition no_batch : exc := Exc (tx "NoResultFound") (tx "No row was found when one was required").

Definition release_note (batch_id : Z) (st : BatchStatus.t) : tx_ unit :=
  modify (add_note (ReleaseCapacity batch_id
    (if bool_decide (st = BatchStatus.completed_unknown) then tx "batch-completed-unknown"
     else tx "batch-completed"))).

Definition finished_status (st : BatchStatus.t) : bool :=
  bool_decide (st ∈ [BatchStatus.completed; BatchStatus.completed_unknown]).

Definition _refresh_batch (batch_id : Z) (source : option text) (d : option delta) : tx_ unit :=
  used ← match d with Some d => apply_delta batch_id d | None => mret false end;
  _ ← (if used : bool then mret tt else recount batch_id refresh_rule);
  _ ← modify (add_note (BatchFinished batch_id source));
  s ← get;
  match batches s !! batch_id with
  | None => throw no_batch
  | Some b => if finished_status (Counted.status b) then release_note batch_id (Counted.status b) else mret tt
  end.

(** ** The order of reports *)

(** Positive outcomes over failures over other codes over "unknown". *)
Definition rank (report_status : option Z) : Z :=
  match report_status with
  | None => 0
  | Some n => if n =? 1 then 4 else if (n =? 2) || (n =? 99) then 3 else if n =? 0 then 1 else 2
  end.

Definition fine_rank (report_status : option Z) : Z :=
  match report_status with
  | None => 15
  | Some n => if n =? 1 then 40 else if n =? 99 then 35 else if n =? 2 then 30
              else if n =? 3 then 20 else if n =? 0 then 10 else 15
  end.

Definition text_gtb (a b : text) : bool := negb (text_leb a b).

(** The condition of the update: whether a report replaces the one the message
    shows.  Comparisons with a missing column are not true. *)
Definition report_wins (r : ProtectedReport) (m : Delivery.t) : bool :=
  let new := Some (report_status r) in
  let old := Delivery.report_status m in
  (negb (bool_decide (old = Some 1)) || negb ((report_status r =? 2) || (report_status r =? 99)))
  && match Delivery.report_time m with
     | None => true
     | Some at_ =>
         (rank old <? rank new)
         || (rank new =? rank old)
            && ((at_ <? report_time r)
                || (report_time r =? at_)
                   && ((fine_rank old <? fine_rank new)
                       || (fine_rank new =? fine_rank old)
                          && text_gtb (event_key r) (default [] (Delivery.report_event_key m))))
     end.

(** [NO_REPORT_EVIDENCE] *)
Definition NO_REPORT_EVIDENCE (m : Delivery.t) : bool :=
  bool_decide (Delivery.report_event_key m = None) && bool_decide (Delivery.report_status m = None)
  && bool_decide (Delivery.report_time m = None) && bool_decide (Delivery.report_desc m = None).

(** [TRUSTED_REPORT_EVIDENCE]: the event the message shows, if it is one that
    was projected onto it and that reads like a report. *)
Definition TRUSTED_REPORT_EVIDENCE (s : db) (id : Z * Z) (m : Delivery.t) : option ReportEvent.t :=
  k ← Delivery.report_event_key m;
  e ← events s !! k;
  p ← projections s !! k;
  if ReportProjection.projection_changed p && bool_decide (ReportProjection.message p = id)
     && (ReportProjection.batch_id p =? Delivery.batch_id m)
     && bool_decide (ReportEvent.message_status e = _message_status (ReportEvent.report_status e))
  then Some e else None.

Definition shanghai_date (created_at : Z) : Z := Category.local_date created_at.
Definition mark_dirty (created_at : Z) : tx_ unit :=
  modify (set_dirty (fun d => {[ shanghai_date created_at ]} ∪ d)).

(** [(m.status, m.report_status, m.report_desc, m.report_time) IS DISTINCT FROM (e...)] *)
Definition drifted (m : Delivery.t) (e : ReportEvent.t) : bool :=
  negb (bool_decide (Delivery.status m = ReportEvent.message_status e)
        && bool_decide (Delivery.report_status m = Some (ReportEvent.report_status e))
        && bool_decide (Delivery.report_desc m = Some (ReportEvent.report_desc e))
        && bool_decide (Delivery.report_time m = Some (ReportEvent.report_time e))).

(** The repaired row of one chosen message. *)
Definition repair_one (batch_id : Z) (id : Z * Z) : tx_ (list (text * (Z * Z) * MessageStatus.t)) :=
  s ← get;
  match messages s !! id with
  | Some m =>
      match Delivery.report_event_key m, TRUSTED_REPORT_EVIDENCE s id m with
      | Some k, Some e =>
          if (Delivery.batch_id m =? batch_id) && drifted m e then
            _ ← modify (set_messages (<[id := Delivery.set_report (ReportEvent.message_status e)
                          (ReportEvent.report_status e) (ReportEvent.report_desc e)
                          (ReportEvent.report_time e) k m]>));
            _ ← mark_dirty (snd id);
            mret [(k, id, ReportEvent.message_status e)]
          else mret []
      | _, _ => mret []
      end
  | None => mret []
  end.

Fixpoint repair_message_projection_from_report (batch_id : Z) (ids : list (Z * Z))
    : tx_ (list (text * (Z * Z) * MessageStatus.t)) :=
  match ids with
  | [] => mret []
  | id :: ids => rows ← repair_one batch_id id;
                 rest ← repair_message_projection_from_report batch_id ids;
                 mret (rows ++ rest)
  end.

Fixpoint note_reports (rows : list (text * (Z * Z) * MessageStatus.t)) : tx_ unit :=
  match rows with
  | [] => mret tt
  | (k, id, st) :: rows => _ ← modify (add_note (MessageReport k id st)); note_reports rows
  end.

Definition _repair_report_projection (batch_id : Z) (ids : list (Z * Z)) : tx_ bool :=
  repaired ← repair_message_projection_from_report batch_id ids;
  _ ← match last repaired with
      | None => mret tt
      | Some (k, _, _) => _refresh_batch batch_id (Some k) None
      end;
  _ ← note_reports repaired;
  mret (negb (bool_decide (repaired = []))).

(** ** Applying a report *)

(** [SELECT ... FROM sms_chunk c JOIN sms_message m ... LIMIT 2]: the messages a
    report can belong to, with their batch and chunk; more than one is
    ambiguous, so only their number matters. *)
Definition find_matches (r : ProtectedReport) (s : db) : list ((Z * Z) * Z * Z) :=
  omap (fun p : (Z * Z) * Delivery.t =>
          c_id ← Delivery.chunk_id (snd p);
          c ← chunks s !! c_id;
          if teqb (ReportChunk.custom_id c) (match_custom_id r) && tmem (Delivery.phone_hmac (snd p)) (phone_hmacs r)
          then Some (fst p, Delivery.batch_id (snd p), c_id) else None)
    (map_to_list (messages s)).

(** The vendors with a submitted or uncertain attempt for a chunk. *)
Definition irreversible_vendors (chunk_id : Z) (s : db) : list text :=
  omap (fun a : Z * text * Outcome.t =>
          let '(c, v, o) := a in
          if (c =? chunk_id) && bool_decide (o ∈ [Outcome.submitted; Outcome.uncertain])
          then Some v else None) (attempts s).

(** [WHERE id=:id AND created_at=:created_at AND batch_id=:batch_id FOR UPDATE] *)
Definition locked_message (id : Z * Z) (batch_id : Z) (s : db) : option Delivery.t :=
  m ← messages s !! id; if Delivery.batch_id m =? batch_id then Some m else None.

Definition prior_report_state_drift (s : db) (id : Z * Z) (m : Delivery.t) : bool :=
  match TRUSTED_REPORT_EVIDENCE s id m with
  | Some e => negb (bool_decide (Delivery.status m = ReportEvent.message_status e))
  | None => false
  end.

(** [UPDATE sms_chunk SET late_evidence_at=COALESCE(late_evidence_at,now()) ...
    AND c.status='unknown_terminal'] *)
Definition note_late_evidence (now : Z) (m : Delivery.t) (s : db) : db :=
  match Delivery.chunk_id m with
  | Some c => set_chunks (alter (fun c => if bool_decide (ReportChunk.status c = ChunkStatus.unknown_terminal)
                                          then ReportChunk.set_late (Some (default now (ReportChunk.late_evidence_at c))) c
                                          else c) c) s
  | None => s
  end.

(** The update of the message, its consequences and the answer. *)
Definition project_report (now : Z) (r : ProtectedReport) (id : Z * Z) (batch_id : Z) (m : Delivery.t)
    (drift : bool) : tx_ ReportApplyResult :=
  let wins := report_wins r m in
  _ ← modify (set_projections (<[event_key r := ReportProjection.mk batch_id id wins]>));
  if negb wins then mret (mkApplied batch_id false) else
  _ ← modify (set_messages (<[id := Delivery.set_report (message_status r) (report_status r) (report_desc r)
                                      (report_time r) (event_key r) m]>));
  _ ← mark_dirty (snd id);
  _ ← _refresh_batch batch_id (Some (event_key r))
        (if drift then None else Some (StatusDelta (Delivery.status m) (message_status r)));
  _ ← modify (note_late_evidence now m);
  _ ← modify (add_note (MessageReport (event_key r) id (message_status r)));
  mret (mkApplied batch_id true).

(** The transaction after the candidates were read, which may be before the locks. *)
Definition apply_matched (now raw_id : Z) (r : ProtectedReport) (matches : list ((Z * Z) * Z * Z))
    : tx_ (option ReportApplyResult) :=
  _ ← _persist_event raw_id r;
  match matches with
  | [(id, batch_id, chunk_id)] =>
      s ← get;
      match chunks s !! chunk_id with
      | None => mret None
      | Some c =>
          may ← lift (Routing.report_may_apply (vendor_id r)
                        (default (tx "zhihui") (ReportChunk.selected_vendor c))
                        (irreversible_vendors chunk_id s));
          if negb may then mret None else
          match locked_message id batch_id s with
          | None => mret None
          | Some m =>
              match projections s !! event_key r with
              | Some _ =>
                  repaired ← _repair_report_projection batch_id [id];
                  mret (Some (mkApplied batch_id repaired))
              | None =>
                  a ← project_report now r id batch_id m (prior_report_state_drift s id m);
                  mret (Some a)
              end
          end
      end
  | _ => mret None
  end.

Definition apply_report (now raw_id : Z) (r : ProtectedReport) : tx_ (option ReportApplyResult) :=
  s ← get; apply_matched now raw_id r (find_matches r s).

(** [INSERT INTO unmatched_report ... ON CONFLICT(event_key) DO NOTHING] *)
Definition persist_unmatched (raw_id : Z) (r : ProtectedReport) : tx_ unit :=
  _ ← _persist_event raw_id r;
  s ← get;
  match unmatched s !! event_key r with
  | Some _ => mret tt
  | None => modify (set_unmatched (<[event_key r := event_of raw_id r]>))
  end.

(** ** Timeouts of reports *)

Definition HOUR_US : Z := 3600000000.
Definition SECOND_US : Z := 1000000.

(** [m.status='sent' AND c.submitted_at < now() - make_interval(hours=>:hours)] *)
Definition due_message (now hours : Z) (s : db) (m : Delivery.t) : bool :=
  bool_decide (Delivery.status m = MessageStatus.sent)
  && match Delivery.chunk_id m ≫= (fun c => chunks s !! c) with
     | Some c => match ReportChunk.submitted_at c with
                 | Some at_ => at_ <? now - hours * HOUR_US
                 | None => false
                 end
     | None => false
     end.

Definition _batch_has_due_sent (now hours batch_id : Z) (s : db) : bool :=
  existsb (fun p : (Z * Z) * Delivery.t => (Delivery.batch_id (snd p) =? batch_id) && due_message now hours s (snd p))
    (map_to_list (messages s)).

Definition _due_batches_exist (now hours : Z) (exclude_ids : list Z) (s : db) : bool :=
  existsb (fun p : Z * Counted.t => _batch_has_due_sent now hours (fst p) s && negb (bool_decide (fst p ∈ exclude_ids)))
    (map_to_list (batches s)).

(** [ORDER BY report_timeout_last_attempt_at NULLS FIRST, id] *)
Definition fairer (a b : Z * Counted.t) : bool :=
  match Counted.last_attempt_at (snd a), Counted.last_attempt_at (snd b) with
  | None, Some _ => true
  | Some _, None => false
  | None, None => fst a <=? fst b
  | Some x, Some y => (x <? y) || (x =? y) && (fst a <=? fst b)
  end.
Definition fairest (l : list (Z * Counted.t)) : option (Z * Counted.t) :=
  foldr (fun p best => match best with
                       | Some q => if fairer p q then Some p else best
                       | None => Some p
                       end) None l.

(** [locked]: the rows other transactions hold, which are skipped. *)
Definition claimable (now hours : Z) (exclude_ids locked : list Z) (s : db) (p : Z * Counted.t) : bool :=
  _batch_has_due_sent now hours (fst p) s && negb (bool_decide (fst p ∈ exclude_ids))
  && match Counted.next_attempt_at (snd p) with None => true | Some at_ => at_ <=? now end
  && negb (bool_decide (fst p ∈ locked)).

Definition _claim_due_timeout_batch (now clk hours : Z) (exclude_ids locked : list Z) : tx_ (option (Z * Z)) :=
  s ← get;
  match fairest (List.filter (claimable now hours exclude_ids locked s) (map_to_list (batches s))) with
  | None => mret None
  | Some (id, b) =>
      let g := Counted.generation b + 1 in
      _ ← modify (set_batches (<[id := Counted.set_schedule (Some clk) (Some (clk + 150 * SECOND_US)) g
                                         (Counted.failures b) b]>));
      mret (Some (id, g))
  end.

Definition _record_timeout_failure (clk batch_id generation : Z) : tx_ unit :=
  s ← get;
  match batches s !! batch_id with
  | Some b =>
      if (Counted.generation b =? generation) && bool_decide (is_Some (Counted.next_attempt_at b))
         && existsb (fun p : (Z * Z) * Delivery.t =>
                       (Delivery.batch_id (snd p) =? batch_id)
                       && bool_decide (Delivery.status (snd p) = MessageStatus.sent)) (map_to_list (messages s))
      then
        let f := Z.min (Counted.failures b + 1) 16 in
        modify (set_batches (<[batch_id := Counted.set_schedule (Counted.last_attempt_at b)
          (Some (clk + Z.min 300 (2 ^ Z.min (Counted.failures b + 1) 9) * SECOND_US))
          (Counted.generation b + 1) f b]>))
      else mret tt
  | None => mret tt
  end.

(** [SELECT ... ORDER BY m.id, m.created_at LIMIT :message_limit FOR UPDATE] *)
Definition id_leb (a b : Z * Z) : bool := (fst a <? fst b) || (fst a =? fst b) && (snd a <=? snd b).
Fixpoint insert_sorted (x : Z * Z) (l : list (Z * Z)) : list (Z * Z) :=
  match l with
  | [] => [x]
  | y :: l => if id_leb x y then x :: y :: l else y :: insert_sorted x l
  end.
Definition picked (now hours batch_id : Z) (message_limit : nat) (s : db) : list (Z * Z) :=
  take message_limit (foldr insert_sorted []
    (fst <$> List.filter (fun p : (Z * Z) * Delivery.t =>
       (Delivery.batch_id (snd p) =? batch_id) && due_message now hours s (snd p)
       && (NO_REPORT_EVIDENCE (snd p)
           || bool_decide (is_Some (TRUSTED_REPORT_EVIDENCE s (fst p) (snd p)))))
     (map_to_list (messages s)))).

(** [UPDATE sms_message SET status='unknown' ...] of one picked message *)
Definition expire_one (now hours batch_id : Z) (id : Z * Z) : tx_ Z :=
  s ← get;
  match messages s !! id with
  | Some m =>
      if (Delivery.batch_id m =? batch_id) && NO_REPORT_EVIDENCE m && due_message now hours s m then
        _ ← modify (set_messages (<[id := Delivery.set_status MessageStatus.unknown m]>));
        _ ← mark_dirty (snd id);
        mret 1
      else mret 0
  | None => mret 0
  end.

Fixpoint expire_all (now hours batch_id : Z) (ids : list (Z * Z)) : tx_ Z :=
  match ids with
  | [] => mret 0
  | id :: ids => n ← expire_one now hours batch_id id; k ← expire_all now hours batch_id ids; mret (n + k)
  end.

Inductive sweep_kind := sweep_empty | sweep_deferred | sweep_changed | sweep_failed.
Record _BatchSweepOutcome := mkSweep {
  kind : sweep_kind; sweep_batch : Z; messages_changed : Z; more_in_batch : bool
}.

(** The transaction on a claimed batch; [held] says that another transaction
    holds the row, which [SKIP LOCKED] passes over. *)
Definition expire_claimed (now hours : Z) (message_limit : nat) (held : bool) (batch_id generation : Z)
    : tx_ _BatchSweepOutcome :=
  s ← get;
  match batches s !! batch_id with
  | Some b =>
      if negb (Counted.generation b =? generation) || held
      then mret (mkSweep sweep_deferred batch_id 0 true) else
      let ids := picked now hours batch_id message_limit s in
      _ ← _repair_report_projection batch_id ids;
      n ← expire_all now hours batch_id ids;
      s ← get;
      let remaining := _batch_has_due_sent now hours batch_id s in
      _ ← (if n =? 0 then mret tt else _refresh_batch batch_id None (Some (UnknownDelta n)));
      _ ← modify (set_batches (alter (fun b => if Counted.generation b =? generation
                                               then Counted.set_schedule (Counted.last_attempt_at b) None
                                                      (Counted.generation b) 0 b
                                               else b) batch_id));
      mret (mkSweep sweep_changed batch_id n remaining)
  | None => mret (mkSweep sweep_deferred batch_id 0 true)
  end.

(** ** Other writers of message results *)

(** [UPDATE sms_message SET status=:to WHERE ...] *)
Definition update_status (f : Delivery.t -> bool) (to : MessageStatus.t) : tx_ Z :=
  s ← get;
  let hit := List.filter (fun p : (Z * Z) * Delivery.t => f (snd p)) (map_to_list (messages s)) in
  _ ← modify (set_messages (fmap (fun m => if f m then Delivery.set_status to m else m)));
  mret (Z.of_nat (length hit)).

Definition of_chunk (chunk_id : Z) (m : Delivery.t) : bool := bool_decide (Delivery.chunk_id m = Some chunk_id).
Definition in_status (l : list MessageStatus.t) (m : Delivery.t) : bool := bool_decide (Delivery.status m ∈ l).

(** The vendor took the chunk ([mark_submitted], [complete_vendor_attempt]). *)
Definition messages_sent (chunk_id : Z) : tx_ Z :=
  update_status (fun m => of_chunk chunk_id m && in_status [MessageStatus.pending] m && NO_REPORT_EVIDENCE m)
    MessageStatus.sent.

(** The messages of a chunk that failed for good. *)
Definition _finalize_failed_messages (chunk_id batch_id : Z) : tx_ unit :=
  n ← update_status (fun m => of_chunk chunk_id m && in_status [MessageStatus.pending; MessageStatus.sent] m
                              && NO_REPORT_EVIDENCE m) MessageStatus.failed;
  if n =? 0 then mret tt else
  _ ← recount batch_id failed_rule;
  s ← get;
  match batches s !! batch_id with
  | None => throw no_batch
  | Some b => if bool_decide (Counted.status b = BatchStatus.completed)
              then _ ← modify (add_note (BatchFinished batch_id None));
                   release_note batch_id BatchStatus.completed
              else mret tt
  end.

(** Evidence of the vendor resolved an uncertain chunk. *)
Definition resolve_submitted (now chunk_id : Z) : tx_ unit :=
  s ← get;
  match chunks s !! chunk_id with
  | Some c =>
      if bool_decide (ReportChunk.status c = ChunkStatus.uncertain) then
        _ ← modify (set_chunks (<[chunk_id := ReportChunk.set_status ChunkStatus.submitted
                                                (Some (default now (ReportChunk.submitted_at c))) c]>));
        _ ← update_status (fun m => of_chunk chunk_id m && in_status [MessageStatus.pending] m) MessageStatus.sent;
        mret tt
      else mret tt
  | None => mret tt
  end.

(** No evidence in time: the conservative end of an uncertain chunk. *)
Definition terminalize_unknown (chunk_id : Z) : tx_ unit :=
  s ← get;
  match chunks s !! chunk_id with
  | Some c =>
      if bool_decide (ReportChunk.status c = ChunkStatus.uncertain)
         && bool_decide (is_Some (batches s !! ReportChunk.batch_id c)) then
        let batch_id := ReportChunk.batch_id c in
        _ ← modify (set_chunks (<[chunk_id := ReportChunk.set_status ChunkStatus.unknown_terminal
                                                (ReportChunk.submitted_at c) c]>));
        _ ← update_status (fun m => of_chunk chunk_id m && in_status [MessageStatus.pending; MessageStatus.sent] m)
              MessageStatus.unknown;
        s ← get;
        _ ← lift (refuse (count_where batch_id (fun _ => true) s =? 0) no_batch);
        _ ← recount batch_id terminal_rule;
        s ← get;
        match batches s !! batch_id with
        | None => throw no_batch
        | Some b => if finished_status (Counted.status b)
                    then _ ← modify (add_note (BatchFinished batch_id None)); release_note batch_id (Counted.status b)
                    else mret tt
        end
      else mret tt
  | None => mret tt
  end.

(** A recipient excluded before dispatch, and the batch after it. *)
Definition _exclude_one (id : Z * Z) : tx_ bool :=
  s ← get;
  if bool_decide (id ∈ excluded s) then mret false else
  _ ← modify (set_excluded (fun e => {[ id ]} ∪ e));
  match messages s !! id with
  | Some m => if in_status [MessageStatus.pending] m
              then _ ← modify (set_messages (<[id := Delivery.set_status MessageStatus.other m]>)); mret true
              else mret false
  | None => mret false
  end.

Definition _settle_batch (batch_id : Z) : tx_ unit :=
  _ ← recount batch_id settle_rule;
  s ← get;
  match batches s !! batch_id with
  | None => throw no_batch
  | Some b => if bool_decide (Counted.status b = BatchStatus.completed)
              then _ ← modify (add_note (BatchFinished batch_id None)); release_note batch_id BatchStatus.completed
              else mret tt
  end.

Definition _PRE_SEND : list ChunkStatus.t :=
  [ChunkStatus.pending; ChunkStatus.retrying; ChunkStatus.submitting; ChunkStatus.failover_pending].

Definition _fail_unchunked (chunk_id : Z) : tx_ unit :=
  modify (set_chunks (alter (fun c => if bool_decide (ReportChunk.status c = ChunkStatus.submitting) then c
                                      else ReportChunk.set_status ChunkStatus.failed (ReportChunk.submitted_at c) c)
                        chunk_id)).

Fixpoint exclude_each (ids : list (Z * Z)) : tx_ Z :=
  match ids with
  | [] => mret 0
  | id :: ids => b ← _exclude_one id; n ← exclude_each ids; mret (b2i b + n)
  end.

(** [decide_dispatch], the part on chunk, messages and batch: [hits] says which
    of the pending messages are on the blacklist. *)
Definition decide_dispatch (chunk_id : Z) (hits : Z * Z -> bool) : tx_ unit :=
  s ← get;
  match chunks s !! chunk_id with
  | None => throw (RuntimeError "dispatch chunk unavailable")
  | Some c =>
      let batch_id := ReportChunk.batch_id c in
      if negb (bool_decide (ReportChunk.status c ∈ _PRE_SEND)) then mret tt else
      let pending := fst <$> List.filter (fun p : (Z * Z) * Delivery.t =>
                       of_chunk chunk_id (snd p) && in_status [MessageStatus.pending] (snd p))
                     (map_to_list (messages s)) in
      if bool_decide (pending = []) then _ ← _fail_unchunked chunk_id; _settle_batch batch_id else
      n ← exclude_each (List.filter hits pending);
      _ ← (if n =? 0 then mret tt else _settle_batch batch_id);
      if bool_decide (List.filter (fun id => negb (hits id)) pending = [])
      then _ ← _fail_unchunked chunk_id; _settle_batch batch_id
      else mret tt
  end.

(** An accepted batch with its messages. *)
Definition accept_batch (batch_id : Z) (status : BatchStatus.t) (items : list ((Z * Z) * text)) : tx_ unit :=
  s ← get;
  _ ← lift (refuse (bool_decide (is_Some (batches s !! batch_id))
                    || negb (bool_decide (NoDup (fst <$> items)))
                    || existsb (fun i => bool_decide (is_Some (messages s !! fst i))) items)
              (Exc (tx "IntegrityError") (tx "duplicate key")));
  _ ← modify (set_batches (<[batch_id := Counted.mk status 0 0 0 None None None None 0 0]>));
  modify (set_messages (fun m =>
    foldr (fun i m => <[fst i := Delivery.mk batch_id None (snd i) MessageStatus.pending None None None None]> m)
      m items)).

(** [UPDATE sms_message SET chunk_id=:chunk] of messages selected from the batch *)
Definition fmap_at (ids : list (Z * Z)) (batch_id chunk_id : Z) (m : gmap (Z * Z) Delivery.t)
    : gmap (Z * Z) Delivery.t :=
  map_imap (fun id d => Some (if bool_decide (id ∈ ids) && (Delivery.batch_id d =? batch_id)
                              then Delivery.set_chunk_id (Some chunk_id) d else d)) m.

(** A chunk of a batch, planned or split off, with messages of the batch. *)
Definition insert_chunk (chunk_id batch_id : Z) (custom_id : text) (ids : list (Z * Z)) : tx_ unit :=
  s ← get;
  _ ← lift (refuse (bool_decide (is_Some (chunks s !! chunk_id))) (Exc (tx "IntegrityError") (tx "duplicate key")));
  _ ← modify (set_chunks (<[chunk_id := ReportChunk.mk batch_id custom_id None ChunkStatus.pending None None]>));
  modify (set_messages (fmap_at ids batch_id chunk_id)).
End ReportStore.
