(* ===== verification/ReportSafety.v ===== *)
(** * What a message shows and what a batch counts

    Whatever the order in which reports, timeouts, outcomes of submissions and
    exclusions commit, and however early a report was matched: a message shows
    the greatest of the reports projected onto it, so the outcome does not
    depend on their order; the counters of a batch are exact whether they were
    kept by differences or recounted, and a finished batch has nothing open; and
    every report is announced at most once. *)

From S2P Require Import Prelude PyText Category Routing Failover SendState UsageStore UsageRebuild ReportStore.

Module ReportSafety.
Import UsageStore.UsageStore(text_leb) UsageRebuild.UsageRebuild ReportStore.

(** ** The order of reports *)

(** Status code, time and event key of a report. *)
Definition standing : Type := Z * Z * text.

Definition outranks (a b : standing) : bool :=
  let '(n, t, k) := a in
  let '(n', t', k') := b in
  (rank (Some n') <? rank (Some n))
  || (rank (Some n) =? rank (Some n'))
     && ((t' <? t)
         || (t =? t')
            && ((fine_rank (Some n') <? fine_rank (Some n))
                || (fine_rank (Some n) =? fine_rank (Some n')) && text_gtb k k')).

Lemma text_gtb_irrefl k : text_gtb k k = false.
Proof. unfold text_gtb. by destruct (text_leb_total k k) as [-> | ->]. Qed.

Lemma text_gtb_trans a b c : text_gtb a b = true -> text_gtb b c = true -> text_gtb a c = true.
Proof.
  unfold text_gtb. rewrite !negb_true_iff. intros H1 H2. destruct (text_leb a c) eqn:E; [|done].
  destruct (text_leb_total c b) as [L|L]; [|congruence]. by rewrite (text_leb_trans _ _ _ E L) in H1.
Qed.

Lemma text_gtb_total a b : a <> b -> text_gtb a b = false -> text_gtb b a = true.
Proof.
  unfold text_gtb. rewrite negb_false_iff, negb_true_iff. intros N H. destruct (text_leb b a) eqn:E; [|done].
  by destruct N; apply text_leb_antisym.
Qed.

Lemma outranks_irrefl a : outranks a a = false.
Proof.
  destruct a as [[n t] k]. unfold outranks. rewrite text_gtb_irrefl, !Z.ltb_irrefl, !Z.eqb_refl. done.
Qed.

(** A lexicographic comparison by three numbers and a key. *)
Lemma outranks_iff n t k n' t' k' :
  outranks (n, t, k) (n', t', k') = true <->
  rank (Some n') < rank (Some n) \/
  (rank (Some n') = rank (Some n) /\
   (t' < t \/ (t' = t /\
     (fine_rank (Some n') < fine_rank (Some n) \/
      (fine_rank (Some n') = fine_rank (Some n) /\ text_gtb k k' = true))))).
Proof.
  unfold outranks. rewrite !orb_true_iff, !andb_true_iff, !orb_true_iff, !andb_true_iff, !orb_true_iff, !andb_true_iff.
  rewrite !Z.ltb_lt, !Z.eqb_eq. intuition.
Qed.

Lemma outranks_trans a b c : outranks a b = true -> outranks b c = true -> outranks a c = true.
Proof.
  destruct a as [[n t] k], b as [[n' t'] k'], c as [[n'' t''] k'']. rewrite !outranks_iff.
  intros H1 H2. pose proof (text_gtb_trans k k' k'') as T.
  destruct H1 as [H1|[H1 [H1'|[H1' [H1''|[H1'' H1k]]]]]], H2 as [H2|[H2 [H2'|[H2' [H2''|[H2'' H2k]]]]]];
    first [left; lia | right; split; [lia|]; first [left; lia | right; split; [lia|]; first [left; lia | right; split; [lia | auto]]]].
Qed.

Lemma outranks_total n t k n' t' k' :
  k <> k' -> outranks (n, t, k) (n', t', k') = false -> outranks (n', t', k') (n, t, k) = true.
Proof.
  intros N H. apply not_true_iff_false in H. rewrite outranks_iff in *.
  destruct (Z.lt_trichotomy (rank (Some n)) (rank (Some n'))) as [|[R|]]; [left; lia | | destruct H; left; lia].
  right. split; [lia|]. destruct (Z.lt_trichotomy t t') as [|[T|]]; [left; lia | | destruct H; right; split; [lia|]; left; lia].
  right. split; [lia|]. destruct (Z.lt_trichotomy (fine_rank (Some n)) (fine_rank (Some n'))) as [|[F|]];
    [left; lia | | destruct H; right; split; [lia|]; right; split; [lia|]; left; lia].
  right. split; [lia|]. apply text_gtb_total; [done|]. apply not_true_iff_false. intros G. destruct H.
  right. split; [lia|]. right. split; [lia|]. right. split; [lia | done].
Qed.

(** ** What a message shows *)

Section received.
(** The reports the service parsed: their status is that of their code, and no
    two different ones share an event key. *)
Context (received : ProtectedReport -> Prop).

Definition genuine : Prop :=
  (forall r, received r -> message_status r = _message_status (report_status r)) /\
  (forall r r', received r -> received r' -> event_key r = event_key r' ->
     report_status r = report_status r' /\ report_desc r = report_desc r' /\ report_time r = report_time r').

Definition standing_of (k : text) (e : ReportEvent.t) : standing :=
  (ReportEvent.report_status e, ReportEvent.report_time e, k).

Definition from_report (k : text) (e : ReportEvent.t) : Prop :=
  exists r, received r /\ event_key r = k /\ ReportEvent.report_status e = report_status r /\
    ReportEvent.message_status e = message_status r /\ ReportEvent.report_desc e = report_desc r /\
    ReportEvent.report_time e = report_time r.

(** The message shows exactly the event [e]. *)
Definition displays (m : Delivery.t) (e : ReportEvent.t) : Prop :=
  Delivery.status m = ReportEvent.message_status e /\
  Delivery.report_status m = Some (ReportEvent.report_status e) /\
  Delivery.report_desc m = Some (ReportEvent.report_desc e) /\
  Delivery.report_time m = Some (ReportEvent.report_time e).

(** Event [k] was projected onto message [id]. *)
Definition projected (s : db) (id : Z * Z) (k : text) : Prop :=
  exists p, projections s !! k = Some p /\ ReportProjection.message p = id.

Definition shows (s : db) (id : Z * Z) (m : Delivery.t) : Prop :=
  match Delivery.report_event_key m with
  | None => NO_REPORT_EVIDENCE m = true /\ forall k, ~ projected s id k
  | Some k =>
      exists e, events s !! k = Some e /\
        projections s !! k = Some (ReportProjection.mk (Delivery.batch_id m) id true) /\ displays m e /\
        forall k' e', projected s id k' -> events s !! k' = Some e' ->
          k' = k \/ outranks (standing_of k e) (standing_of k' e') = true
  end.

Record facts (s : db) : Prop := mkFacts {
  f_event : forall k e, events s !! k = Some e -> from_report k e;
  f_projected : forall k p, projections s !! k = Some p ->
    is_Some (events s !! k) /\
    exists m, messages s !! ReportProjection.message p = Some m /\
      Delivery.batch_id m = ReportProjection.batch_id p;
  f_shows : forall id m, messages s !! id = Some m -> shows s id m;
  f_batch : forall id m, messages s !! id = Some m -> is_Some (batches s !! Delivery.batch_id m);
  f_chunk : forall id m c, messages s !! id = Some m -> Delivery.chunk_id m = Some c ->
    exists r, chunks s !! c = Some r /\ ReportChunk.batch_id r = Delivery.batch_id m
}.

(** A change of the status of a message without a report. *)
Definition restated (m m' : Delivery.t) : Prop :=
  m' = m \/ exists st, (Delivery.report_event_key m = None \/ active_status (Delivery.status m) = true) /\
                       m' = Delivery.set_status st m.

(** The reports announced so far. *)
Definition announced_key (n : note) : option text := match n with MessageReport k _ _ => Some k | _ => None end.
Definition announced (s : db) : list text := omap announced_key (notes s).

Definition restate (s s' : db) : Prop :=
  announced s' = announced s /\ events s' = events s /\ projections s' = projections s /\
  (forall id, is_Some (batches s !! id) -> is_Some (batches s' !! id)) /\
  (forall c r, chunks s !! c = Some r -> exists r', chunks s' !! c = Some r' /\
     ReportChunk.batch_id r' = ReportChunk.batch_id r) /\
  (forall id, option_Forall2 restated (messages s !! id) (messages s' !! id)).

#[export] Instance restated_preorder : PreOrder restated.
Proof.
  split; [by left|]. intros m1 m2 m3 [->|(st & C & ->)]; [done|]. intros [->|(st' & C' & ->)]; right; [by exists st|].
  exists st'. split; [|done]. destruct C as [C|C]; [by left | by right].
Qed.

#[export] Instance restate_preorder : PreOrder restate.
Proof.
  split.
  - intros s. split_and!; [done | done | done | done | by eauto |]. intros id. reflexivity.
  - intros s1 s2 s3 (N1 & E1 & P1 & B1 & C1 & M1) (N2 & E2 & P2 & B2 & C2 & M2).
    split_and!; [congruence | congruence | congruence | auto | |].
    + intros c r H. destruct (C1 c r H) as (r' & H' & X). destruct (C2 c r' H') as (r'' & H'' & X').
      exists r''. split; [done | congruence].
    + intros id. etransitivity; [apply M1 | apply M2].
Qed.

Lemma reported_inactive s id m k : facts s -> genuine -> messages s !! id = Some m ->
  Delivery.report_event_key m = Some k -> active_status (Delivery.status m) = false.
Proof.
  intros F [G _] H K. pose proof (f_shows s F id m H) as S. unfold shows in S. rewrite K in S.
  destruct S as (e & E & _ & (-> & _) & _). destruct (f_event s F k e E) as (r & R & _ & _ & -> & _).
  rewrite (G r R). unfold _message_status. by repeat case_match.
Qed.

Lemma shows_status s id m st : shows s id m -> Delivery.report_event_key m = None -> shows s id (Delivery.set_status st m).
Proof. unfold shows. simpl. intros S K. rewrite K in *. exact S. Qed.

Lemma facts_restate s s' : genuine -> facts s -> restate s s' -> facts s'.
Proof.
  intros G F (_ & E & P & B & C & M). pose proof F as [F1 F2 F3 F4 F5].
  assert (X : forall id m', messages s' !! id = Some m' -> exists m, messages s !! id = Some m /\
            (m' = m \/ exists st, Delivery.report_event_key m = None /\ m' = Delivery.set_status st m)).
  { intros id m' H. specialize (M id). rewrite H in M. inversion M as [m m'' R Em|]; subst. exists m. split; [done|].
    destruct R as [->|(st & [N|A] & ->)]; [by left | right; by exists st |].
    destruct (Delivery.report_event_key m) as [k|] eqn:K; [|right; by exists st].
    by rewrite (reported_inactive s id m k F G) in A. }
  assert (Sh : forall id m, shows s id m <-> shows s' id m).
  { intros id m. unfold shows, projected. by rewrite E, P. }
  split.
  - intros k e. rewrite E. apply F1.
  - intros k p. rewrite E, P. intros H. destruct (F2 k p H) as [? (m & Hm & Bm)]. split; [done|].
    specialize (M (ReportProjection.message p)). rewrite Hm in M. inversion M as [? m' R|]; subst.
    exists m'. split; [done|]. by destruct R as [->|(st & _ & ->)].
  - intros id m' H. apply Sh. destruct (X id m' H) as (m & Hm & [->|(st & N & ->)]); [by apply F3|].
    by apply shows_status; [apply F3|].
  - intros id m' H. destruct (X id m' H) as (m & Hm & [->|(st & N & ->)]); apply B; by eapply (F4 id m).
  - intros id m' c H Hc. destruct (X id m' H) as (m & Hm & R).
    assert (Delivery.chunk_id m = Some c /\ Delivery.batch_id m' = Delivery.batch_id m) as [Hc' ->]
      by (by destruct R as [->|(st & _ & ->)]).
    destruct (F5 id m c Hm Hc') as (r & Hr & Br). destruct (C c r Hr) as (r' & Hr' & Br'). exists r'. split; congruence.
Qed.

(** ** Transactions that only restate *)

Lemma restate_messages f (s : db) :
  (forall id, option_Forall2 restated (messages s !! id) (f (messages s) !! id)) -> restate s (set_messages f s).
Proof. intros H. split_and!; [done | done | done | done | by eauto | done]. Qed.

Lemma restate_batches f (s : db) :
  (forall id, is_Some (batches s !! id) -> is_Some (f (batches s) !! id)) -> restate s (set_batches f s).
Proof. intros H. split_and!; [done | done | done | done | by eauto |]. intros id. reflexivity. Qed.

Lemma restate_chunks f (s : db) :
  (forall c r, chunks s !! c = Some r -> exists r', f (chunks s) !! c = Some r' /\
     ReportChunk.batch_id r' = ReportChunk.batch_id r) -> restate s (set_chunks f s).
Proof. intros H. split_and!; [done | done | done | done | done |]. intros id. reflexivity. Qed.

Lemma restate_same (s s' : db) :
  announced s' = announced s -> events s' = events s -> projections s' = projections s -> messages s' = messages s ->
  batches s' = batches s -> chunks s' = chunks s -> restate s s'.
Proof. intros N E P M B C. split_and!; [done | done | done | by rewrite B | rewrite C; by eauto |]. intros id. rewrite M. reflexivity. Qed.

Lemma restate_insert_batch id b (s : db) : restate s (set_batches (<[id := b]>) s).
Proof. apply restate_batches. intros i H. destruct (decide (i = id)) as [->|]; by rewrite ?lookup_insert_eq, ?lookup_insert_ne. Qed.

Lemma restate_alter_batch g id (s : db) : restate s (set_batches (alter g id) s).
Proof.
  apply restate_batches. intros i H. destruct (decide (i = id)) as [->|]; [|by rewrite lookup_alter_ne].
  rewrite lookup_alter_eq. by apply fmap_is_Some.
Qed.

Lemma restate_alter_chunk g id (s : db) :
  (forall c, ReportChunk.batch_id (g c) = ReportChunk.batch_id c) -> restate s (set_chunks (alter g id) s).
Proof.
  intros G. apply restate_chunks. intros c r H. destruct (decide (c = id)) as [->|]; [|rewrite lookup_alter_ne by done; by exists r].
  rewrite lookup_alter_eq, H. by exists (g r).
Qed.

Lemma restate_insert_chunk id c c' (s : db) :
  chunks s !! id = Some c -> ReportChunk.batch_id c' = ReportChunk.batch_id c -> restate s (set_chunks (<[id := c']>) s).
Proof.
  intros H B. apply restate_chunks. intros i r Hi. destruct (decide (i = id)) as [->|]; [|rewrite lookup_insert_ne by done; by exists r].
  rewrite lookup_insert_eq. exists c'. split; [done | congruence].
Qed.

Lemma restate_insert_message id m m' (s : db) :
  messages s !! id = Some m -> restated m m' -> restate s (set_messages (<[id := m']>) s).
Proof.
  intros H R. apply restate_messages. intros i. destruct (decide (i = id)) as [->|]; [|rewrite lookup_insert_ne by done; reflexivity].
  rewrite lookup_insert_eq, H. by constructor.
Qed.

Lemma within_uuid : within restate gen_random_uuid.
Proof. unfold gen_random_uuid. within_tac. apply within_modify. intros s. by apply restate_same. Qed.
Hint Resolve within_uuid : within.

Lemma announced_note n s : announced (add_note n s) = announced s ++ omap announced_key [n].
Proof. unfold announced. simpl notes. by rewrite omap_app. Qed.

Lemma within_note n : announced_key n = None -> within (E:=exc) restate (modify (add_note n)).
Proof.
  intros N. apply within_modify. intros s. apply restate_same; try done. rewrite announced_note. simpl. rewrite N.
  apply app_nil_r.
Qed.
Hint Extern 1 (within restate (modify (add_note _))) => apply within_note; reflexivity : within.

Lemma within_dirty at_ : within restate (mark_dirty at_).
Proof. apply within_modify. intros s. by apply restate_same. Qed.
Hint Resolve within_dirty : within.

Lemma within_update_counts id o n : within restate (update_counts id o n).
Proof. apply within_modify. intros s. apply restate_insert_batch. Qed.
Hint Resolve within_update_counts : within.

Lemma within_recount id rule : within restate (recount id rule).
Proof. unfold recount. within_tac. Qed.
Hint Resolve within_recount : within.

Lemma within_apply_delta id d : within restate (apply_delta id d).
Proof. unfold apply_delta. within_tac. Qed.
Hint Resolve within_apply_delta : within.

Lemma within_release_note id st : within restate (release_note id st).
Proof. by apply within_note. Qed.
Hint Resolve within_release_note : within.

Lemma within_refresh id src d : within restate (_refresh_batch id src d).
Proof. unfold _refresh_batch. within_tac. Qed.
Hint Resolve within_refresh : within.

Lemma within_update_status f to :
  (forall m, f m = true -> Delivery.report_event_key m = None \/ active_status (Delivery.status m) = true) ->
  within restate (update_status f to).
Proof.
  intros H. unfold update_status. within_tac. apply within_modify. intros s. apply restate_messages. intros id.
  rewrite lookup_fmap. destruct (messages s !! id) as [m|]; constructor. destruct (f m) eqn:E; [|by left].
  right. exists to. split; [by apply H | done].
Qed.

Lemma no_evidence_key m : NO_REPORT_EVIDENCE m = true -> Delivery.report_event_key m = None.
Proof. unfold NO_REPORT_EVIDENCE. intros H. bool_prop. done. Qed.

Lemma in_pending l m : in_status l m = true -> (forall st, st ∈ l -> active_status st = true) ->
  active_status (Delivery.status m) = true.
Proof. unfold in_status. intros H A. bool_prop. auto. Qed.
Ltac active := eapply in_pending; [eassumption|]; intros ? ?; repeat match goal with H : _ ∈ _ :: _ |- _ => apply elem_of_cons in H as [->|H] | H : _ ∈ [] |- _ => by apply not_elem_of_nil in H end; reflexivity.

Lemma within_sent c : within restate (messages_sent c).
Proof. apply within_update_status. intros m H. cbv beta in H. bool_prop. left. by apply no_evidence_key. Qed.

Lemma within_failed c b : within restate (_finalize_failed_messages c b).
Proof.
  unfold _finalize_failed_messages. apply within_bind; [apply _| |intros n; within_tac].
  apply within_update_status. intros m H. cbv beta in H. bool_prop. left. by apply no_evidence_key.
Qed.

Lemma within_resolve now c : within restate (resolve_submitted now c).
Proof.
  unfold resolve_submitted. intros s x s' H. stx. destruct (chunks s !! c) as [r|] eqn:C; [|by stx].
  destruct (bool_decide _); [|by stx]. stx.
  match goal with U : update_status _ _ ?s1 = _ |- _ => transitivity s1; [by eapply restate_insert_chunk|];
    eapply within_update_status; [|exact U] end.
  intros m H. cbv beta in H. bool_prop. right. active.
Qed.

Lemma within_terminal c : within restate (terminalize_unknown c).
Proof.
  unfold terminalize_unknown. intros s x s' H. stx. destruct (chunks s !! c) as [r|] eqn:C; [|by stx].
  destruct (_ && _); [|by stx]. apply stex_bind_ok in H as (? & s1 & H1 & H). injection H1 as <- <-.
  match type of H with _ ?s1 = _ => transitivity s1; [by eapply restate_insert_chunk|] end. revert H.
  match goal with |- ?p _ = _ -> _ => assert (W : within restate p); [|apply W] end.
  apply within_bind; [apply _| |intros n; within_tac].
  apply within_update_status. intros m H. cbv beta in H. bool_prop. right. active.
Qed.

Lemma within_exclude_one id : within restate (_exclude_one id).
Proof.
  unfold _exclude_one. intros s x s' H. stx. destruct (bool_decide _); [by stx|].
  apply stex_bind_ok in H as (? & s1 & H1 & H). injection H1 as <- <-.
  destruct (messages s !! id) as [m|] eqn:M; [|stx; by apply restate_same].
  destruct (in_status _ m) eqn:I; stx; [|by apply restate_same].
  etransitivity; [by apply (restate_same s (set_excluded (fun e => {[ id ]} ∪ e) s))|].
  eapply restate_insert_message; [exact M|]. right. exists MessageStatus.other. split; [|done]. right. active.
Qed.
Hint Resolve within_exclude_one : within.

Lemma within_exclude_each ids : within restate (exclude_each ids).
Proof. induction ids as [|id ids IH]; cbn [exclude_each]; within_tac. Qed.
Hint Resolve within_exclude_each : within.

Lemma within_settle id : within restate (_settle_batch id).
Proof. unfold _settle_batch. within_tac. Qed.
Hint Resolve within_settle : within.

Lemma within_fail_unchunked c : within restate (_fail_unchunked c).
Proof. apply within_modify. intros s. apply restate_alter_chunk. intros r. by case_match. Qed.
Hint Resolve within_fail_unchunked : within.

Lemma within_dispatch c hits : within restate (decide_dispatch c hits).
Proof. unfold decide_dispatch. within_tac. Qed.

Lemma within_claim now clk hours ex lk : within restate (_claim_due_timeout_batch now clk hours ex lk).
Proof. unfold _claim_due_timeout_batch. within_tac. apply within_modify. intros s. apply restate_insert_batch. Qed.

Lemma within_failure clk b g : within restate (_record_timeout_failure clk b g).
Proof. unfold _record_timeout_failure. within_tac. apply within_modify. intros s. apply restate_insert_batch. Qed.

Lemma within_expire_one now hours b id : within restate (expire_one now hours b id).
Proof.
  unfold expire_one. intros s x s' H. stx. destruct (messages s !! id) as [m|] eqn:M; [|by stx].
  destruct (_ && _) eqn:C; [|by stx]. bool_prop.
  apply stex_bind_ok in H as (? & s1 & E1 & H). injection E1 as <- <-. stx.
  etransitivity; [|match goal with D : mark_dirty _ _ = _ |- _ => by eapply within_dirty in D end].
  eapply restate_insert_message; [exact M|]. right. eexists. split; [left; by apply no_evidence_key | done].
Qed.
Hint Resolve within_expire_one : within.

Lemma within_expire_all now hours b ids : within restate (expire_all now hours b ids).
Proof. induction ids as [|id ids IH]; cbn [expire_all]; within_tac. Qed.
Hint Resolve within_expire_all : within.

(** ** Repairs have nothing to repair *)

Lemma trusted_event s id m k e :
  Delivery.report_event_key m = Some k -> TRUSTED_REPORT_EVIDENCE s id m = Some e -> events s !! k = Some e.
Proof.
  unfold TRUSTED_REPORT_EVIDENCE. intros ->. simpl. destruct (events s !! k); [|done]. simpl.
  destruct (projections s !! k); [|done]. simpl. case_match; [|done]. by intros [= ->].
Qed.

Lemma shown_event s id m k e : facts s -> messages s !! id = Some m -> Delivery.report_event_key m = Some k ->
  events s !! k = Some e -> displays m e.
Proof.
  intros F M K E. pose proof (f_shows s F id m M) as S. unfold shows in S. rewrite K in S.
  destruct S as (e' & E' & _ & D & _). congruence.
Qed.

Lemma displays_drifted m e : displays m e -> drifted m e = false.
Proof.
  intros (A & B & C & D). unfold drifted. rewrite A, B, C, D. by rewrite !bool_decide_eq_true_2.
Qed.

Lemma repair_one_idle s b id : facts s -> repair_one b id s = Ok ([], s).
Proof.
  intros F. unfold repair_one, mbind, stex_bind, get. destruct (messages s !! id) as [m|] eqn:M; [|done].
  destruct (Delivery.report_event_key m) as [k|] eqn:K; [|done].
  destruct (TRUSTED_REPORT_EVIDENCE s id m) as [e|] eqn:T; [|done].
  rewrite (displays_drifted m e), andb_false_r; [done|].
  eapply shown_event; [done | done | done | by eapply trusted_event].
Qed.

Lemma repair_idle s b ids : facts s -> _repair_report_projection b ids s = Ok (false, s).
Proof.
  intros F. assert (R : repair_message_projection_from_report b ids s = Ok ([], s)).
  { induction ids as [|id ids IH]; [done|]. cbn [repair_message_projection_from_report].
    unfold mbind, stex_bind at 1. rewrite (repair_one_idle s b id F). unfold stex_bind. by rewrite IH. }
  unfold _repair_report_projection, mbind, stex_bind at 1. by rewrite R.
Qed.

Lemma no_drift s id m : facts s -> messages s !! id = Some m -> prior_report_state_drift s id m = false.
Proof.
  intros F M. unfold prior_report_state_drift. destruct (TRUSTED_REPORT_EVIDENCE s id m) as [e|] eqn:T; [|done].
  destruct (Delivery.report_event_key m) as [k|] eqn:K; [|unfold TRUSTED_REPORT_EVIDENCE in T; by rewrite K in T].
  destruct (shown_event s id m k e F M K) as [-> _]; [by eapply trusted_event|]. by rewrite bool_decide_eq_true_2.
Qed.

(** ** Events and projections *)

Lemma facts_event s k e : facts s -> events s !! k = None -> from_report k e -> facts (set_events (<[k := e]>) s).
Proof.
  intros F N R. pose proof F as [F1 F2 F3 F4 F5].
  assert (O : forall k' e', events s !! k' = Some e' -> <[k := e]> (events s) !! k' = Some e').
  { intros k' e' H. rewrite lookup_insert_ne; [done | congruence]. }
  split; simpl.
  - intros k' e' [[<- <-]|[? H]]%lookup_insert_Some; [done | by apply F1].
  - intros k' p H. destruct (F2 k' p H) as [[e' E] M]. split; [|done]. exists e'. by apply O.
  - intros id m M. specialize (F3 id m M). unfold shows in *. destruct (Delivery.report_event_key m) as [k0|]; [|done].
    destruct F3 as (e0 & E0 & P0 & D & A). exists e0. split_and!; [by apply O | done | done |].
    intros k' e' (p & Hp & Hid) E'. simpl in *. destruct (F2 k' p Hp) as [[e'' E''] _].
    rewrite (O _ _ E'') in E'. injection E' as ->. apply A; [by exists p | done].
  - exact F4.
  - exact F5.
Qed.

Lemma facts_persist raw r s x s' : received r -> facts s -> _persist_event raw r s = Ok (x, s') ->
  facts s' /\ is_Some (events s' !! event_key r) /\ messages s' = messages s /\ projections s' = projections s /\
  batches s' = batches s /\ chunks s' = chunks s /\ notes s' = notes s /\ tokens s' = tokens s.
Proof.
  intros R F H. unfold _persist_event in H. stx. destruct (events s !! event_key r) as [e|] eqn:E; stx.
  - split; [done|]. split; [by exists e | done].
  - split; [|split; [|done]].
    + apply facts_event; [done | done |]. by exists r.
    + simpl. rewrite lookup_insert_eq. by eexists.
Qed.

Lemma wins_outranks r m e k : displays m e -> Delivery.report_event_key m = Some k ->
  report_wins r m = outranks (report_status r, report_time r, event_key r) (standing_of k e).
Proof.
  intros (_ & S & _ & T) K. unfold report_wins, standing_of, outranks. rewrite S, T, K. simpl.
  destruct (bool_decide_reflect (Some (ReportEvent.report_status e) = Some 1)) as [E|]; [|done].
  injection E as ->. simpl. destruct ((report_status r =? 2) || (report_status r =? 99)) eqn:F; [|done].
  destruct (report_status r =? 1) eqn:F1; [|done]. lia.
Qed.

Lemma wins_first r m : NO_REPORT_EVIDENCE m = true -> report_wins r m = true.
Proof. destruct m. unfold NO_REPORT_EVIDENCE, report_wins. simpl. intros H. bool_prop. by subst. Qed.

(** The message after a report was projected onto it. *)
Definition projected_message (r : ProtectedReport) (m : Delivery.t) : Delivery.t :=
  if report_wins r m
  then Delivery.set_report (message_status r) (report_status r) (report_desc r) (report_time r) (event_key r) m
  else m.

(** The two writes of a projection. *)
Definition project_writes (r : ProtectedReport) (id : Z * Z) (m : Delivery.t) (s : db) : db :=
  set_messages (<[id := projected_message r m]>)
    (set_projections (<[event_key r := ReportProjection.mk (Delivery.batch_id m) id (report_wins r m)]>) s).

Lemma projected_old r id m s i k :
  projected (project_writes r id m s) i k -> k = event_key r /\ i = id \/ projected s i k.
Proof.
  intros (p & Hp & Hi). simpl in Hp. apply lookup_insert_Some in Hp as [[<- <-]|[? Hp]]; [by left|].
  right. by exists p.
Qed.

(** Another message keeps showing what it showed. *)
Lemma shows_other r id m s i m' : projections s !! event_key r = None -> i <> id ->
  shows s i m' -> shows (project_writes r id m s) i m'.
Proof.
  intros P N. unfold shows. destruct (Delivery.report_event_key m') as [k|].
  - intros (e & E & Pk & D & A). exists e. split_and!; [done | | done |].
    + simpl. rewrite lookup_insert_ne; [done | congruence].
    + intros k' e' [[_ ?]|H]%projected_old E'; [done | by apply A].
  - intros [V A]. split; [done|]. intros k [[_ ?]|H]%projected_old; [done | by apply (A k)].
Qed.

(** The message itself shows the greater of the two reports. *)
Lemma shows_self r id m s e : projections s !! event_key r = None -> events s !! event_key r = Some e ->
  ReportEvent.report_status e = report_status r -> ReportEvent.message_status e = message_status r ->
  ReportEvent.report_desc e = report_desc r -> ReportEvent.report_time e = report_time r ->
  shows s id m -> shows (project_writes r id m s) id (projected_message r m).
Proof.
  intros P E S1 S2 S3 S4 S. unfold projected_message. destruct (report_wins r m) eqn:W.
  - unfold shows. cbn [Delivery.report_event_key Delivery.set_report]. exists e. split_and!; [done | simpl; by rewrite lookup_insert_eq, W | by rewrite <- S1, <- S2, <- S3, <- S4 |].
    intros k' e' [[-> _]|H]%projected_old E'; [by left|]. right. unfold shows in S.
    destruct (Delivery.report_event_key m) as [k0|] eqn:K; [|by destruct S as [_ S]; apply (S k') in H].
    destruct S as (e0 & E0 & _ & D & A). rewrite (wins_outranks r m e0 k0 D K) in W.
    unfold standing_of at 1. rewrite S1, S4. destruct (A k' e' H E') as [->|O]; [|by eapply outranks_trans].
    simpl in E'. rewrite E' in E0. by injection E0 as ->.
  - unfold shows in *. destruct (Delivery.report_event_key m) as [k0|] eqn:K.
    2:{ destruct S as [V _]. by rewrite (wins_first r m V) in W. }
    destruct S as (e0 & E0 & P0 & D & A). exists e0. assert (k0 <> event_key r) as N by congruence.
    split_and!; [done | simpl; by rewrite lookup_insert_ne | done |].
    intros k' e' [[-> _]|H]%projected_old E'; [|by apply A]. right. simpl in E'. rewrite E in E'. injection E' as <-.
    rewrite (wins_outranks r m e0 k0 D K) in W. unfold standing_of in *. rewrite S1, S4.
    apply outranks_total; [congruence | done].
Qed.

Lemma same_content r k e : genuine -> received r -> from_report k e -> event_key r = k ->
  ReportEvent.report_status e = report_status r /\ ReportEvent.message_status e = message_status r /\
  ReportEvent.report_desc e = report_desc r /\ ReportEvent.report_time e = report_time r.
Proof.
  intros [G1 G2] R (r' & R' & K' & -> & -> & -> & ->) K. destruct (G2 r' r R' R) as (A & B & C); [congruence|].
  split_and!; [done | | done | done]. by rewrite (G1 r' R'), (G1 r R), A.
Qed.

Lemma projected_message_same r m : Delivery.batch_id (projected_message r m) = Delivery.batch_id m /\
  Delivery.chunk_id (projected_message r m) = Delivery.chunk_id m.
Proof. unfold projected_message. by case_match. Qed.

Lemma facts_project r id m s : genuine -> received r -> facts s -> messages s !! id = Some m ->
  projections s !! event_key r = None -> is_Some (events s !! event_key r) ->
  facts (project_writes r id m s).
Proof.
  intros G R F M P [e E]. pose proof F as [F1 F2 F3 F4 F5].
  destruct (same_content r _ e G R (F1 _ _ E) eq_refl) as (S1 & S2 & S3 & S4).
  destruct (projected_message_same r m) as [B1 C1]. split; simpl.
  - exact F1.
  - intros k p H. apply lookup_insert_Some in H as [[<- <-]|[N H]]; simpl.
    + split; [by exists e|]. exists (projected_message r m). by rewrite lookup_insert_eq.
    + destruct (F2 k p H) as [X (m' & Hm & Hb)]. split; [done|].
      destruct (decide (ReportProjection.message p = id)) as [I|]; [|rewrite lookup_insert_ne by done; by exists m'].
      rewrite I in *.
      exists (projected_message r m). rewrite lookup_insert_eq. split; [done|]. rewrite B1.
      assert (m' = m) as -> by (rewrite M in Hm; by injection Hm). done.
  - intros i m' [[<- <-]|[N H]]%lookup_insert_Some; [by eapply shows_self; eauto | by apply shows_other; auto].
  - intros i m' [[<- <-]|[N H]]%lookup_insert_Some; [rewrite B1|]; by eapply F4.
  - intros i m' c [[<- <-]|[N H]]%lookup_insert_Some; [rewrite B1, C1|]; intros Hc; by eapply F5.
Qed.

(** ** Every transaction *)

Inductive op :=
| OpReport (now raw_id : Z) (r : ProtectedReport) (matches : list ((Z * Z) * Z * Z))
| OpUnmatched (raw_id : Z) (r : ProtectedReport)
| OpClaim (now clk hours : Z) (exclude_ids locked : list Z)
| OpExpire (now hours : Z) (message_limit : nat) (held : bool) (batch_id generation : Z)
| OpTimeoutFailure (clk batch_id generation : Z)
| OpSent (chunk_id : Z)
| OpFailed (chunk_id : Z)
| OpResolve (now chunk_id : Z)
| OpTerminal (chunk_id : Z)
| OpDispatch (chunk_id : Z) (hits : Z * Z -> bool)
| OpAccept (batch_id : Z) (status : BatchStatus.t) (items : list ((Z * Z) * text))
| OpChunk (chunk_id batch_id : Z) (custom_id : text) (ids : list (Z * Z)).

Definition void {A} (m : tx_ A) : tx_ unit := _ ← m; mret tt.

Definition transaction_of (o : op) : tx_ unit :=
  match o with
  | OpReport now raw r matches => void (apply_matched now raw r matches)
  | OpUnmatched raw r => persist_unmatched raw r
  | OpClaim now clk hours exclude locked => void (_claim_due_timeout_batch now clk hours exclude locked)
  | OpExpire now hours limit held b g => void (expire_claimed now hours limit held b g)
  | OpTimeoutFailure clk b g => _record_timeout_failure clk b g
  | OpSent c => void (messages_sent c)
  | OpFailed c => s ← get;
                  match chunks s !! c with
                  | Some r => _finalize_failed_messages c (ReportChunk.batch_id r)
                  | None => mret tt
                  end
  | OpResolve now c => resolve_submitted now c
  | OpTerminal c => terminalize_unknown c
  | OpDispatch c hits => decide_dispatch c hits
  | OpAccept b st items => accept_batch b st items
  | OpChunk c b custom ids => insert_chunk c b custom ids
  end.

Definition allowed (o : op) : Prop :=
  match o with
  | OpReport _ _ r _ | OpUnmatched _ r => received r
  | OpAccept _ st _ => finished_status st = false
  | _ => True
  end.

(** What the rest of the system may do: move chunks and attempts, and give a
    batch a status that is not a finished one. *)
Definition outside (s s' : db) : Prop :=
  messages s' = messages s /\ events s' = events s /\ projections s' = projections s /\ notes s' = notes s /\
  tokens s' = tokens s /\
  (forall c r, chunks s !! c = Some r -> exists r', chunks s' !! c = Some r' /\
     ReportChunk.batch_id r' = ReportChunk.batch_id r) /\
  (forall id, option_Forall2 (fun b b' => b' = b \/ exists st, finished_status st = false /\ b' = Counted.set_status st b)
                (batches s !! id) (batches s' !! id)).

Inductive step (s s' : db) : Prop :=
| Step o : allowed o -> s' = snd (transaction (transaction_of o) s) -> step s s'
| Outside : outside s s' -> step s s'.

Definition empty_db : db := mkDb ∅ ∅ ∅ [] ∅ ∅ ∅ ∅ ∅ 0 [].
Definition reachable (s : db) : Prop := rtc step empty_db s.

Definition announced_ok (s : db) : Prop :=
  NoDup (announced s) /\ forall k, k ∈ announced s -> is_Some (projections s !! k).

Lemma within_tail now hours b g ids : within restate
  (n ← expire_all now hours b ids;
   s ← get;
   let remaining := _batch_has_due_sent now hours b s in
   _ ← (if n =? 0 then mret tt else _refresh_batch b None (Some (UnknownDelta n)));
   _ ← modify (set_batches (alter (fun b => if Counted.generation b =? g
                                            then Counted.set_schedule (Counted.last_attempt_at b) None
                                                   (Counted.generation b) 0 b
                                            else b) b));
   mret (mkSweep sweep_changed b n remaining)).
Proof. within_tac. apply within_modify. intros s. apply restate_alter_batch. Qed.

(** Under the facts a sweep only restates. *)
Lemma expire_restates now hours limit held b g s x s' : facts s ->
  expire_claimed now hours limit held b g s = Ok (x, s') -> restate s s'.
Proof.
  intros F. unfold expire_claimed. unfold mbind at 1, stex_bind at 1, get at 1. cbv beta iota.
  destruct (batches s !! b) as [row|]; [|by intros H; stx]. destruct (_ || _); [by intros H; stx|].
  cbv zeta. unfold mbind at 1, stex_bind at 1. rewrite (repair_idle s b _ F). apply within_tail.
Qed.

(** The rest of a projection after its two writes. *)
Definition after_writes (now : Z) (r : ProtectedReport) (id : Z * Z) (batch_id : Z) (m : Delivery.t) (drift : bool)
    : tx_ ReportApplyResult :=
  if negb (report_wins r m) then mret (mkApplied batch_id false) else
  _ ← mark_dirty (snd id);
  _ ← _refresh_batch batch_id (Some (event_key r))
        (if drift then None else Some (StatusDelta (Delivery.status m) (message_status r)));
  _ ← modify (note_late_evidence now m);
  _ ← modify (add_note (MessageReport (event_key r) id (message_status r)));
  mret (mkApplied batch_id true).

Lemma project_split now r id m drift s : messages s !! id = Some m ->
  project_report now r id (Delivery.batch_id m) m drift s
  = after_writes now r id (Delivery.batch_id m) m drift (project_writes r id m s).
Proof.
  intros M. unfold project_report, after_writes, project_writes, projected_message.
  destruct (report_wins r m); [done|]. cbn -[insert]. unfold set_messages, set_projections. simpl. by rewrite insert_id.
Qed.

(** What a report that was accepted for processing did. *)
Lemma apply_cases now raw r matches s a s' : received r -> facts s ->
  apply_matched now raw r matches s = Ok (a, s') ->
  exists s1, _persist_event raw r s = Ok (tt, s1) /\ facts s1 /\ is_Some (events s1 !! event_key r) /\
    (s' = s1 \/ exists id m x, messages s1 !! id = Some m /\ projections s1 !! event_key r = None /\
       after_writes now r id (Delivery.batch_id m) m false (project_writes r id m s1) = Ok (x, s')).
Proof.
  intros R F H. unfold apply_matched in H. apply stex_bind_ok in H as ([] & s1 & P & H).
  destruct (facts_persist raw r s tt s1 R F P) as (F1 & E1 & _). exists s1. split_and!; [done..|].
  destruct matches as [|[[id b] c] [|]]; [by stx; left | | by stx; left].
  apply stex_bind_ok in H as (? & ? & G & H). injection G as <- <-. destruct (chunks s1 !! c) as [ch|]; [|by stx; left].
  apply stex_bind_ok in H as (may & ? & G & H). apply stex_lift_ok in G as [_ ->].
  destruct may; cbn [negb] in H; [|by stx; left]. unfold locked_message in H.
  destruct (messages s1 !! id) as [m|] eqn:M; cbn [mbind option_bind] in H; [|by stx; left].
  destruct (Delivery.batch_id m =? b) eqn:B; [|by stx; left]. apply Z.eqb_eq in B as <-.
  destruct (projections s1 !! event_key r) as [p|] eqn:Pr.
  - left. apply stex_bind_ok in H as (? & ? & G & H). rewrite (repair_idle s1 _ _ F1) in G. injection G as <- <-. by stx.
  - right. apply stex_bind_ok in H as (x & ? & G & H). rewrite (no_drift s1 id m F1 M), (project_split _ _ _ _ _ _ M) in G.
    exists id, m, x. split_and!; [done | done |]. by stx.
Qed.

Lemma within_late now m : within (E:=exc) restate (modify (note_late_evidence now m)).
Proof.
  apply within_modify. intros s. unfold note_late_evidence. destruct (Delivery.chunk_id m); [|done].
  apply restate_alter_chunk. intros c. by case_match.
Qed.
Hint Resolve within_late : within.

(** After its writes a report only restates, and is announced if it won. *)
Lemma after_writes_ok now r id b m drift s x s' : after_writes now r id b m drift s = Ok (x, s') ->
  exists s2, restate s s2 /\
    s' = if report_wins r m then add_note (MessageReport (event_key r) id (message_status r)) s2 else s2.
Proof.
  unfold after_writes. destruct (report_wins r m); cbn [negb]; intros H; [|stx; by eexists].
  assert (W : within restate (_ ← mark_dirty (snd id);
                _ ← _refresh_batch b (Some (event_key r))
                      (if drift then None else Some (StatusDelta (Delivery.status m) (message_status r)));
                modify (note_late_evidence now m))) by within_tac.
  apply stex_bind_ok in H as ([] & s1 & H1 & H). apply stex_bind_ok in H as ([] & s2 & H2 & H).
  apply stex_bind_ok in H as ([] & s3 & H3 & H). apply stex_bind_ok in H as ([] & s4 & H4 & H).
  injection H4 as <-. injection H as <- <-. exists s3. split; [|done]. apply (W s tt s3).
  apply stex_bind_ok. exists tt, s1. split; [done|]. apply stex_bind_ok. by exists tt, s2.
Qed.

(** What the facts and the announcements need of a step. *)
Definition sound (s : db) : Prop := facts s /\ announced_ok s.

Lemma sound_restate s s' : genuine -> sound s -> restate s s' -> sound s'.
Proof.
  intros G [F [N A]] R. split; [by eapply facts_restate|]. destruct R as (E & _ & P & _). unfold announced_ok.
  by rewrite E, P.
Qed.

Lemma facts_note n s : facts s -> facts (add_note n s).
Proof. by intros [F1 F2 F3 F4 F5]. Qed.

Lemma sound_report now raw r matches s a s' : genuine -> received r -> sound s ->
  apply_matched now raw r matches s = Ok (a, s') -> sound s'.
Proof.
  intros G R [F [N A]] H. destruct (apply_cases now raw r matches s a s' R F H) as (s1 & P & F1 & E1 & C).
  destruct (facts_persist raw r s tt s1 R F P) as (_ & _ & _ & Pr & _ & _ & Nt & _).
  assert (S1 : sound s1) by (split; [done|]; unfold announced_ok, announced; by rewrite Nt, Pr).
  destruct C as [->|(id & m & x & M & Fresh & W)]; [done|].
  destruct (after_writes_ok _ _ _ _ _ _ _ _ _ W) as (s2 & Rs & ->).
  assert (S2 : sound s2).
  { eapply sound_restate; [done | | exact Rs]. split; [by apply facts_project|]. destruct S1 as [_ [N1 A1]]. split; [done|].
    intros k K. simpl. destruct (decide (k = event_key r)) as [->|]; [rewrite lookup_insert_eq; by eexists|].
    rewrite lookup_insert_ne by done. by apply A1. }
  destruct (report_wins r m); [|done]. destruct S2 as [F2 [N2 A2]]. destruct Rs as (An & _ & P2 & _).
  split; [by apply facts_note|]. unfold announced_ok. rewrite announced_note. cbn [omap list_omap announced_key].
  assert (Pk : projections s2 !! event_key r = Some (ReportProjection.mk (Delivery.batch_id m) id (report_wins r m)))
    by (rewrite P2; simpl; by rewrite lookup_insert_eq).
  split.
  - apply NoDup_app. split_and!; [done | | apply NoDup_singleton]. intros k K ->%list_elem_of_singleton.
    rewrite An in K. destruct S1 as [_ [_ A1]]. destruct (A1 _ K) as [p Hp]. congruence.
  - intros k [K| ->%list_elem_of_singleton]%elem_of_app; [by apply A2 | by eexists].
Qed.

Lemma sound_unmatched raw r s x s' : received r -> sound s -> persist_unmatched raw r s = Ok (x, s') -> sound s'.
Proof.
  intros R [F [N A]] H. unfold persist_unmatched in H. apply stex_bind_ok in H as ([] & s1 & P & H).
  destruct (facts_persist raw r s tt s1 R F P) as (F1 & _ & _ & Pr & _ & _ & Nt & _).
  assert (S1 : sound s1) by (split; [done|]; unfold announced_ok, announced; by rewrite Nt, Pr).
  stx. destruct (unmatched s1 !! event_key r); stx; [done|]. destruct S1 as [[E1 E2 E3 E4 E5] ?]. by split.
Qed.

(** Messages that join without a report. *)
Lemma facts_accept b row items s : facts s ->
  (forall i, i ∈ items -> messages s !! fst i = None) ->
  facts (set_messages (fun m => foldr (fun (i : (Z * Z) * text) m =>
           <[fst i := Delivery.mk b None (snd i) MessageStatus.pending None None None None]> m) m items)
         (set_batches (<[b := row]>) s)).
Proof.
  intros F Fresh. pose proof F as [F1 F2 F3 F4 F5]. set (add := fun (i : (Z * Z) * text) m => _).
  assert (L : forall id m, foldr add (messages s) items !! id = Some m ->
            messages s !! id = Some m \/
            (messages s !! id = None /\ exists h, m = Delivery.mk b None h MessageStatus.pending None None None None)).
  { intros id m. clear - Fresh. induction items as [|i items IH]; [by left|]. simpl. unfold add at 1.
    intros [[<- <-]|[_ H]]%lookup_insert_Some.
    - right. split; [apply Fresh; set_solver | by eexists].
    - apply IH; [|done]. intros j J. apply Fresh. set_solver. }
  assert (K : forall id m, messages s !! id = Some m -> foldr add (messages s) items !! id = Some m).
  { intros id m H. clear - Fresh H. induction items as [|i items IH]; [done|]. simpl. unfold add at 1.
    rewrite lookup_insert_ne; [apply IH; intros j J; apply Fresh; set_solver|].
    intros <-. rewrite Fresh in H; [done | set_solver]. }
  split; simpl.
  - exact F1.
  - intros k p H. destruct (F2 k p H) as [? (m & Hm & Hb)]. split; [done|]. exists m. auto.
  - intros id m H. destruct (L id m H) as [O|[N [h ->]]]; [by apply F3|]. split; [done|]. intros k (p & Hp & <-).
    destruct (F2 k p Hp) as [_ (m & Hm & _)]. congruence.
  - intros id m H. destruct (L id m H) as [O|[N [h ->]]]; simpl; [|rewrite lookup_insert_eq; by eexists].
    destruct (decide (Delivery.batch_id m = b)) as [->|]; [rewrite lookup_insert_eq; by eexists|].
    rewrite lookup_insert_ne by done. by eapply F4.
  - intros id m c H Hc. destruct (L id m H) as [O|[N [h ->]]]; [by eapply F5 | done].
Qed.

Lemma facts_chunk c b custom ids s : facts s -> chunks s !! c = None ->
  facts (set_messages (fmap_at ids b c)
           (set_chunks (<[c := ReportChunk.mk b custom None ChunkStatus.pending None None]>) s)).
Proof.
  intros F N. pose proof F as [F1 F2 F3 F4 F5].
  assert (L : forall id m', fmap_at ids b c (messages s) !! id = Some m' -> exists m, messages s !! id = Some m /\
            (m' = m \/ (Delivery.batch_id m = b /\ m' = Delivery.set_chunk_id (Some c) m))).
  { intros id m'. unfold fmap_at. rewrite map_lookup_imap. destruct (messages s !! id) as [m|]; [|done]. simpl.
    intros [= <-]. exists m. split; [done|]. destruct (_ && _) eqn:E; [|by left]. bool_prop. by right. }
  split; simpl.
  - exact F1.
  - intros k p H. destruct (F2 k p H) as [? (m & Hm & Hb)]. split; [done|]. unfold fmap_at.
    rewrite map_lookup_imap, Hm. simpl. eexists. split; [done|]. by case_match.
  - intros id m' H. destruct (L id m' H) as (m & Hm & [->|[_ ->]]); [|]; exact (F3 id m Hm).
  - intros id m' H. destruct (L id m' H) as (m & Hm & [->|[_ ->]]); exact (F4 id m Hm).
  - intros id m' c' H Hc. destruct (L id m' H) as (m & Hm & [->|[Hb ->]]).
    + destruct (F5 id m c' Hm Hc) as (r & Hr & Br). exists r. rewrite lookup_insert_ne; [done | congruence].
    + injection Hc as <-. rewrite lookup_insert_eq. by eexists.
Qed.

Lemma sound_same s s' : facts s' -> notes s' = notes s -> projections s' = projections s -> sound s -> sound s'.
Proof. intros F N P [_ A]. split; [done|]. unfold announced_ok, announced in *. by rewrite N, P. Qed.

Lemma outside_restate s s' : outside s s' -> restate s s'.
Proof.
  intros (M & E & P & N & _ & C & B). split_and!; [unfold announced; by rewrite N | done | done | | done |].
  - intros id [b Hb]. specialize (B id). rewrite Hb in B. inversion B. by eexists.
  - intros id. rewrite M. reflexivity.
Qed.

Lemma void_ok {A} (m : tx_ A) s x s' : void m s = Ok (x, s') -> exists a, m s = Ok (a, s').
Proof. unfold void. intros H. stx. by eexists. Qed.

Lemma sound_transaction o s x s' : genuine -> allowed o -> sound s -> transaction_of o s = Ok (x, s') -> sound s'.
Proof.
  intros G Al S H. destruct o; cbn [transaction_of allowed] in *;
    try match goal with H : void _ _ = _ |- _ => apply void_ok in H as [? H] end.
  - by eapply sound_report.
  - by eapply sound_unmatched.
  - eapply sound_restate; [done | done |]. by eapply within_claim.
  - eapply sound_restate; [done | done |]. eapply expire_restates; [apply S | done].
  - eapply sound_restate; [done | done |]. by eapply within_failure.
  - eapply sound_restate; [done | done |]. by eapply within_sent.
  - eapply sound_restate; [done | done |]. apply stex_bind_ok in H as (? & ? & E & H). injection E as <- <-.
    destruct (chunks s !! chunk_id); [by eapply within_failed | by stx].
  - eapply sound_restate; [done | done |]. by eapply within_resolve.
  - eapply sound_restate; [done | done |]. by eapply within_terminal.
  - eapply sound_restate; [done | done |]. by eapply within_dispatch.
  - unfold accept_batch in H. stx. match goal with E : _ || _ || _ = false |- _ => apply orb_false_iff in E as [_ E]; rename E into Fr end.
    apply (sound_same s); [|done | done | exact S]. apply facts_accept; [apply S|]. intros i I.
    destruct (messages s !! fst i) eqn:E; [|done]. exfalso. apply not_true_iff_false in Fr. apply Fr. apply existsb_exists.
    exists i. split; [by apply list_elem_of_In|]. by rewrite E, bool_decide_eq_true_2.
  - unfold insert_chunk in H. stx. bool_prop. apply (sound_same s); [|done | done | exact S].
    apply facts_chunk; [apply S|]. apply eq_None_not_Some. done.
Qed.

Lemma sound_step s s' : genuine -> step s s' -> sound s -> sound s'.
Proof.
  intros G [o Al ->|O] S; [|eapply sound_restate; [done | done | by apply outside_restate]].
  unfold transaction. destruct (transaction_of o s) as [[x s1]|e] eqn:E; [|done]. by eapply sound_transaction.
Qed.

Lemma sound_empty : sound empty_db.
Proof. split; [split; done|]. split; [constructor|]. by intros k ?%elem_of_nil. Qed.

Lemma sound_reachable s : genuine -> reachable s -> sound s.
Proof. intros G R. eapply (rtc_invariant step sound); [|exact R | apply sound_empty]. intros s1 s2 S1 St. by eapply sound_step. Qed.
End received.

(** Events with the same key say the same in any two histories. *)
Lemma event_content received s1 s2 k e1 e2 : genuine received -> facts received s1 -> facts received s2 ->
  events s1 !! k = Some e1 -> events s2 !! k = Some e2 ->
  ReportEvent.report_status e1 = ReportEvent.report_status e2 /\
  ReportEvent.message_status e1 = ReportEvent.message_status e2 /\
  ReportEvent.report_desc e1 = ReportEvent.report_desc e2 /\ ReportEvent.report_time e1 = ReportEvent.report_time e2.
Proof.
  intros G F1 F2 E1 E2. destruct (f_event _ _ F1 k e1 E1) as (r & R & K & -> & -> & -> & ->).
  destruct (same_content received r k e2 G R (f_event _ _ F2 k e2 E2) K) as (-> & -> & -> & ->). done.
Qed.

(** C5: The outcome of a message does not depend on the order of its reports.
    Take any two histories of the system, however reports, repeats of reports,
    timeouts, submissions and exclusions interleaved in each, in which the same
    reports were projected onto a message: the message shows the same report in
    both, and that report outranks every other one projected onto it. *)
Theorem reports_converge (received : ProtectedReport -> Prop) (s1 s2 : db) (id : Z * Z) (m1 m2 : Delivery.t) :
  genuine received -> reachable received s1 -> reachable received s2 ->
  messages s1 !! id = Some m1 -> messages s2 !! id = Some m2 ->
  (forall k, projected s1 id k <-> projected s2 id k) -> (exists k, projected s1 id k) ->
  exists k e, Delivery.report_event_key m1 = Some k /\ Delivery.report_event_key m2 = Some k /\
    projected s1 id k /\ events s1 !! k = Some e /\ displays m1 e /\ displays m2 e /\
    forall k' e', projected s1 id k' -> events s1 !! k' = Some e' ->
      k' = k \/ outranks (standing_of k e) (standing_of k' e') = true.
Proof.
  intros G R1 R2 M1 M2 Same [k0 K0]. pose proof (sound_reachable _ _ G R1) as [F1 _]. pose proof (sound_reachable _ _ G R2) as [F2 _].
  pose proof (f_shows _ _ F1 id m1 M1) as S1. pose proof (f_shows _ _ F2 id m2 M2) as S2. unfold shows in S1, S2.
  destruct (Delivery.report_event_key m1) as [k1|] eqn:K1; [|by destruct S1 as [_ S1]; apply S1 in K0].
  destruct (Delivery.report_event_key m2) as [k2|] eqn:K2; [|by destruct S2 as [_ S2]; apply Same, S2 in K0].
  destruct S1 as (e1 & E1 & P1 & D1 & A1), S2 as (e2 & E2 & P2 & D2 & A2).
  assert (Pr1 : projected s1 id k1) by (by eexists). assert (Pr2 : projected s2 id k2) by (by eexists).
  assert (In2 : exists e, events s1 !! k2 = Some e /\ standing_of k2 e = standing_of k2 e2).
  { apply Same in Pr2 as (p & Hp & _). destruct (f_projected _ _ F1 k2 p Hp) as [[e He] _]. exists e. split; [done|].
    by destruct (event_content received s1 s2 k2 e e2 G F1 F2 He E2) as (? & ? & ? & ?); unfold standing_of; congruence. }
  destruct In2 as (e21 & E21 & St). assert (In1 : exists e, events s2 !! k1 = Some e /\ standing_of k1 e = standing_of k1 e1).
  { pose proof (proj1 (Same k1) Pr1) as (p & Hp & _). destruct (f_projected _ _ F2 k1 p Hp) as [[e He] _]. exists e. split; [done|].
    by destruct (event_content received s1 s2 k1 e1 e G F1 F2 E1 He) as (? & ? & ? & ?); unfold standing_of; congruence. }
  destruct In1 as (e12 & E12 & St').
  assert (k2 = k1) as ->.
  { destruct (A1 k2 e21 (proj2 (Same k2) Pr2) E21) as [|O]; [done|]. destruct (A2 k1 e12 (proj1 (Same k1) Pr1) E12) as [|O']; [done|].
    rewrite St in O. rewrite St' in O'. pose proof (outranks_trans _ _ _ O O') as C. by rewrite outranks_irrefl in C. }
  exists k1, e1. split_and!; try done. destruct (event_content received s1 s2 k1 e1 e2 G F1 F2 E1 E2) as (C1 & C2 & C3 & C4).
  destruct D2 as (? & ? & ? & ?). unfold displays. rewrite C1, C2, C3, C4. done.
Qed.

(** Every report is announced to the application at most once, however often
    it is received, replayed or repaired, and only after it was projected. *)
Theorem announced_once (received : ProtectedReport -> Prop) (s : db) :
  genuine received -> reachable received s ->
  NoDup (announced s) /\ forall k, k ∈ announced s -> exists id, projected s id k.
Proof.
  intros G R. destruct (sound_reachable _ _ G R) as [_ [N A]]. split; [done|]. intros k K. destruct (A k K) as [p Hp].
  exists (ReportProjection.message p). by exists p.
Qed.

(** ** An example: a failure and a delivery, in both orders *)

Definition commit (o : op) (s : db) : db := snd (transaction (transaction_of o) s).
Definition history (ops : list op) : db := foldl (fun s o => commit o s) empty_db ops.

Lemma history_reachable received ops : Forall (allowed received) ops -> reachable received (history ops).
Proof.
  unfold history, reachable. intros H. assert (X : forall s, rtc (step received) empty_db s ->
    rtc (step received) empty_db (foldl (fun s o => commit o s) s ops)); [|by apply X].
  induction H as [|o ops Ho H IH]; intros s R; [done|]. simpl. apply IH. eapply rtc_r; [exact R|]. by apply (Step _ _ _ o).
Qed.

Definition example_report (c : Z) (status at_ : Z) : ProtectedReport :=
  mkReport (replicate 64 c) (replicate 64 49) (replicate 64 50) (tx "c-1") [] (replicate 64 51) (tx "138****0000") 1
    status (_message_status status) (tx "REPORT") at_ [replicate 64 51] (tx "zhihui").
Definition failure_report : ProtectedReport := example_report 97 2 20.
Definition delivery_report : ProtectedReport := example_report 98 1 10.
Definition both (r : ProtectedReport) : Prop := r = failure_report \/ r = delivery_report.

Lemma both_genuine : genuine both.
Proof.
  split; [by intros r [->| ->]|]. intros r r' [->| ->] [->| ->]; try done.
Qed.

Definition message_1 : Z * Z := (1, 0).
Definition sent_batch : list op :=
  [OpAccept 7 BatchStatus.queued [(message_1, replicate 64 51)]; OpChunk 3 7 (tx "c-1") [message_1]; OpSent 3].
Definition report_op (r : ProtectedReport) : op := OpReport 30 1 r [(message_1, 7, 3)].
Definition failed_first : db := history (sent_batch ++ [report_op failure_report; report_op delivery_report]).
Definition delivered_first : db :=
  history (sent_batch ++ [report_op delivery_report; report_op failure_report; report_op delivery_report]).

Lemma example_both : reachable both failed_first /\ reachable both delivered_first.
Proof. split; apply history_reachable; repeat constructor; solve [by left | by right]. Qed.

Definition shown (s : db) : option (MessageStatus.t * option text) :=
  (fun m => (Delivery.status m, Delivery.report_event_key m)) <$> messages s !! message_1.

Definition projected_keys (s : db) (id : Z * Z) : list text :=
  fst <$> List.filter (fun p : text * ReportProjection.t => bool_decide (ReportProjection.message (snd p) = id))
            (map_to_list (projections s)).

Lemma projected_iff s id k : projected s id k <-> k ∈ projected_keys s id.
Proof.
  unfold projected_keys. rewrite list_elem_of_fmap. split.
  - intros (p & Hp & <-). exists (k, p). split; [done|]. apply filter_in. split; [by apply elem_of_map_to_list|].
    by rewrite bool_decide_eq_true_2.
  - intros ([k' p] & -> & [H M]%filter_in). apply elem_of_map_to_list in H. bool_prop. by exists p.
Qed.

Lemma same_projected : projected_keys failed_first message_1 = projected_keys delivered_first message_1.
Proof. vm_compute. reflexivity. Qed.

Lemma some_projected : projected_keys failed_first message_1 <> [].
Proof. vm_compute. done. Qed.

Lemma reports_converge_witness :
  shown failed_first = Some (MessageStatus.delivered, Some (replicate 64 98)) /\
  shown delivered_first = Some (MessageStatus.delivered, Some (replicate 64 98)) /\
  forall m1 m2, messages failed_first !! message_1 = Some m1 -> messages delivered_first !! message_1 = Some m2 ->
    Delivery.report_event_key m1 = Delivery.report_event_key m2.
Proof.
  split; [vm_compute; reflexivity|]. split; [vm_compute; reflexivity|]. intros m1 m2 M1 M2.
  destruct (reports_converge both failed_first delivered_first message_1 m1 m2) as (k & e & K1 & K2 & _).
  - apply both_genuine.
  - apply example_both.
  - apply example_both.
  - exact M1.
  - exact M2.
  - intros k. rewrite !projected_iff, same_projected. reflexivity.
  - destruct (projected_keys failed_first message_1) as [|k l] eqn:E; [by destruct some_projected|].
    exists k. apply projected_iff. rewrite E. apply list_elem_of_here.
  - transitivity (Some k); [exact K1 | symmetry; exact K2].
Defined.

Lemma announced_once_witness : length (announced delivered_first) = 1%nat /\ NoDup (announced delivered_first).
Proof.
  split; [vm_compute; reflexivity|]. apply (announced_once both); [apply both_genuine | apply example_both].
Defined.
End ReportSafety.
