(* ===== verification/ReportCounts.v ===== *)
(** * The counters of a batch are exact

    The counters are kept by differences when a report or a timeout changes one
    message, and recounted by every other writer; the two agree, whatever
    interleaves, and a batch is only called finished when none of its messages
    is open. *)

From S2P Require Import Prelude PyText Category Routing Failover SendState UsageStore UsageRebuild ReportStore ReportSafety.

Module ReportCounts.
Import ReportStore ReportSafety.

(** ** Counting *)

Definition hit (b : Z) (f : MessageStatus.t -> bool) (m : Delivery.t) : Z :=
  b2i ((Delivery.batch_id m =? b) && f (Delivery.status m)).

Definition counts (b : Z) (f : MessageStatus.t -> bool) (M : gmap (Z * Z) Delivery.t) : Z :=
  Z.of_nat (size (filter (fun p : (Z * Z) * Delivery.t =>
    Delivery.batch_id (snd p) = b /\ f (Delivery.status (snd p)) = true) M)).

Lemma count_where_counts b f s : count_where b f s = counts b f (messages s).
Proof. done. Qed.

Lemma counts_nonneg b f M : 0 <= counts b f M.
Proof. unfold counts. lia. Qed.

Lemma counts_empty b f : counts b f ∅ = 0.
Proof. unfold counts. by rewrite map_filter_empty, map_size_empty. Qed.

Lemma hit_iff b f m : hit b f m = 1 <-> Delivery.batch_id m = b /\ f (Delivery.status m) = true.
Proof.
  unfold hit. destruct (_ && _) eqn:E; simpl; [bool_prop; naive_solver|]. split; [done|]. intros [B F].
  rewrite B, Z.eqb_refl, F in E. done.
Qed.

Lemma hit_range b f m : hit b f m = 0 \/ hit b f m = 1.
Proof. unfold hit. destruct (_ && _); auto. Qed.

Lemma counts_insert_new b f M id m : M !! id = None -> counts b f (<[id := m]> M) = counts b f M + hit b f m.
Proof.
  intros N. unfold counts. destruct (hit_range b f m) as [H|H].
  - rewrite map_filter_insert_False; [rewrite delete_id by done; lia|]. simpl. intros X. apply hit_iff in X. lia.
  - rewrite map_filter_insert_True by (by apply hit_iff in H). rewrite map_size_insert_None; [lia|].
    apply map_lookup_filter_None. by left.
Qed.

Lemma counts_insert b f M id m m' : M !! id = Some m ->
  counts b f (<[id := m']> M) = counts b f M - hit b f m + hit b f m'.
Proof.
  intros H. rewrite <- insert_delete_eq, counts_insert_new by apply lookup_delete_eq.
  rewrite <- (insert_delete_id M id m) at 2 by done. rewrite counts_insert_new by apply lookup_delete_eq. lia.
Qed.

Lemma counts_fmap_le b f (g : Delivery.t -> Delivery.t) M :
  (forall id m, M !! id = Some m -> hit b f (g m) <= hit b f m) -> counts b f (g <$> M) <= counts b f M.
Proof.
  induction M as [|id m M N IH] using map_ind; intros G; [by rewrite fmap_empty|].
  rewrite fmap_insert, !counts_insert_new; [| done | by rewrite lookup_fmap, N].
  assert (counts b f (g <$> M) <= counts b f M).
  { apply IH. intros i m' H. apply (G i). by rewrite lookup_insert_ne by congruence. }
  pose proof (G id m (lookup_insert_eq _ _ _)). lia.
Qed.

Lemma counts_fmap b f (g : Delivery.t -> Delivery.t) M :
  (forall id m, M !! id = Some m -> hit b f (g m) = hit b f m) -> counts b f (g <$> M) = counts b f M.
Proof.
  induction M as [|id m M N IH] using map_ind; intros G; [by rewrite fmap_empty|].
  rewrite fmap_insert, !counts_insert_new; [| done | by rewrite lookup_fmap, N].
  rewrite IH by (intros i m' H; apply (G i); by rewrite lookup_insert_ne by congruence).
  by rewrite (G id m (lookup_insert_eq _ _ _)).
Qed.

Lemma counts_imap b f (g : Z * Z -> Delivery.t -> Delivery.t) M :
  (forall id m, hit b f (g id m) = hit b f m) -> counts b f (map_imap (fun id m => Some (g id m)) M) = counts b f M.
Proof.
  intros G. induction M as [|id m M N IH] using map_ind; [by rewrite map_imap_empty|].
  rewrite (map_imap_insert_Some _ _ _ _ (g id m)) by done.
  rewrite !counts_insert_new; [rewrite G, IH; done | done |]. by rewrite map_lookup_imap, N.
Qed.

(** ** Exactness *)

(** The counters of a row against the messages. *)
Definition tallied (b : Z) (row : Counted.t) (M : gmap (Z * Z) Delivery.t) : Prop :=
  Counted.delivered row = counts b (is_ MessageStatus.delivered) M /\
  Counted.failed row = counts b (is_ MessageStatus.failed) M /\
  Counted.unknown_cnt row = counts b (is_ MessageStatus.unknown) M /\
  (forall a, Counted.active_message_count row = Some a -> a = counts b active_status M).

Definition closed_ok (b : Z) (row : Counted.t) (M : gmap (Z * Z) Delivery.t) : Prop :=
  finished_status (Counted.status row) = true -> counts b active_status M = 0.

Definition token_ok (row : Counted.t) (s : db) : Prop :=
  (forall t, Counted.active_message_count_token row = Some t -> t <= tokens s) /\
  (is_Some (Counted.active_message_count row) <-> is_Some (Counted.active_message_count_token row)).

Definition exact_row (s : db) (b : Z) (row : Counted.t) : Prop :=
  tallied b row (messages s) /\ closed_ok b row (messages s) /\ token_ok row s.

Definition counted (s : db) : Prop := forall b row, batches s !! b = Some row -> exact_row s b row.

(** All batches but [b] are exact, and [b] is if it is recounted. *)
Definition counted_but (b : Z) (s : db) : Prop :=
  (forall b' row, b' <> b -> batches s !! b' = Some row -> exact_row s b' row) /\
  (forall row, batches s !! b = Some row -> closed_ok b row (messages s) /\ token_ok row s).

Lemma counted_all_but b s : counted s -> counted_but b s.
Proof. intros C. split; [auto|]. intros row H. destruct (C b row H) as (_ & ? & ?). done. Qed.

(** A rule that calls a batch finished only when nothing is open or it was finished. *)
Definition honest (rule : status_rule) : Prop :=
  forall st n a u, finished_status (rule st n a u) = true -> a = 0 \/ finished_status st = true.

Lemma honest_rules : honest refresh_rule /\ honest failed_rule /\ honest terminal_rule /\ honest settle_rule.
Proof.
  assert (C : forall b st, finished_status (completed_or b st) = true ->
            finished_status b = true \/ finished_status st = true).
  { intros b st. unfold completed_or. destruct (bool_decide_reflect (b = BatchStatus.completed_unknown)) as [->|]; auto. }
  split_and!; intros st n a u H; apply C in H as [H|H]; auto; destruct (Z.eqb_spec a 0) as [->|N]; auto; simpl in H.
  - destruct (n =? 0); auto.
  - destruct (n =? 0); auto.
Qed.

Lemma update_counts_ok b old new s x s' :
  update_counts b old new s = Ok (x, s') -> Counted.active_message_count_token new <> Counted.active_message_count_token old ->
  s' = set_batches (<[b := new]>) s.
Proof.
  unfold update_counts, invalidate_legacy_batch_active_count. intros H N. injection H as <- <-.
  by rewrite bool_decide_eq_false_2.
Qed.

(** Rows of other batches after the token advanced. *)
Lemma counted_but_insert b row s : counted_but b s -> exact_row (set_tokens (tokens s + 1) s) b row ->
  counted (set_batches (<[b := row]>) (set_tokens (tokens s + 1) s)).
Proof.
  intros [O _] E b' row' H. simpl in H. apply lookup_insert_Some in H as [[<- <-]|[N H]]; [exact E|].
  destruct (O b' row' (not_eq_sym N) H) as (T & C & K1 & K2). split_and!; [done | done |]. split; [|done].
  intros t Ht. simpl. specialize (K1 t Ht). lia.
Qed.

Lemma fresh_token s row t : token_ok row s -> Counted.active_message_count_token row = t -> Some (tokens s + 1) <> t.
Proof. intros [K _] <- E. symmetry in E. apply K in E. lia. Qed.

Lemma recount_ok b rule s x s' : honest rule -> counted_but b s -> recount b rule s = Ok (x, s') -> counted s'.
Proof.
  intros R C H. unfold recount in H. apply stex_bind_ok in H as (? & ? & G & H). injection G as <- <-.
  destruct (batches s !! b) as [row|] eqn:B.
  2:{ stx. intros b' row' H'. apply C; [congruence | done]. }
  apply stex_bind_ok in H as (tk & s1 & G & H). unfold gen_random_uuid in G. stx.
  destruct (proj2 C row B) as [Cl Tk]. apply update_counts_ok in H as ->; [|by eapply fresh_token].
  apply counted_but_insert; [done|]. split; [|split].
  - split_and!; [done | done | done |]. by intros a [= <-].
  - unfold closed_ok. simpl. intros [A|A]%R; [done | by apply Cl].
  - split; [intros t [= <-]; simpl; lia|]. split; by eexists.
Qed.

(** The messages of a batch changed by a difference of its counts. *)
Definition shifted (s0 s : db) (b dd df du da : Z) : Prop :=
  batches s = batches s0 /\ tokens s = tokens s0 /\
  (forall b' f, b' <> b -> counts b' f (messages s) = counts b' f (messages s0)) /\
  counts b (is_ MessageStatus.delivered) (messages s) = counts b (is_ MessageStatus.delivered) (messages s0) + dd /\
  counts b (is_ MessageStatus.failed) (messages s) = counts b (is_ MessageStatus.failed) (messages s0) + df /\
  counts b (is_ MessageStatus.unknown) (messages s) = counts b (is_ MessageStatus.unknown) (messages s0) + du /\
  counts b active_status (messages s) = counts b active_status (messages s0) + da.

Lemma shifted_but s0 s b dd df du da : counted s0 -> shifted s0 s b dd df du da -> da <= 0 -> counted_but b s.
Proof.
  intros C (B & T & O & D & F & U & A) N. split.
  - intros b' row Nb H. rewrite B in H. destruct (C b' row H) as (X & Y & Z). unfold exact_row, tallied, closed_ok, token_ok in *.
    rewrite !(O b' _ Nb), T. done.
  - intros row H. rewrite B in H. destruct (C b row H) as (X & Y & Z). unfold closed_ok, token_ok in *. rewrite T. split; [|done].
    intros Fi. specialize (Y Fi). pose proof (counts_nonneg b active_status (messages s)). lia.
Qed.

Lemma delta_counted s0 s b d dd df du da used s' : counted s0 -> shifted s0 s b dd df du da -> da <= 0 ->
  delta_counts d = Ok (dd, df, du, da) -> apply_delta b d s = Ok (used, s') ->
  used = true /\ counted s' \/ used = false /\ s' = s.
Proof.
  intros C Sh N Dc H. pose proof (shifted_but _ _ _ _ _ _ _ C Sh N) as But. destruct Sh as (B & T & O & D & F & U & A).
  unfold apply_delta in H. rewrite Dc in H. apply stex_bind_ok in H as (? & ? & G & H). injection G as <- <-.
  apply stex_bind_ok in H as (? & ? & G & H). injection G as <- <-.
  destruct (batches s !! b) as [row|] eqn:R; [|stx; by right].
  destruct (Counted.active_message_count row) as [a|] eqn:Ac; [|stx; by right].
  destruct (Counted.active_message_count_token row) as [t|] eqn:Tk; [|stx; by right].
  apply stex_bind_ok in H as (tk & s1 & G & H). unfold gen_random_uuid in G. stx. left. split; [done|].
  destruct (proj2 But row R) as [Cl Tok].
  match goal with X : update_counts _ _ _ _ = _ |- _ => apply update_counts_ok in X as ->; [|rewrite Tk; by eapply fresh_token] end.
  pose proof R as R0. rewrite B in R0. destruct (C b row R0) as ((D0 & F0 & U0 & A0) & _ & _). specialize (A0 a Ac).
  apply counted_but_insert; [done|]. split; [|split].
  - split_and!; simpl; [lia | lia | lia |]. intros a' [= <-]. lia.
  - unfold closed_ok, completed_or. simpl. destruct (bool_decide_reflect (Counted.status row = BatchStatus.completed_unknown)) as [E|].
    + intros _. apply Cl. by rewrite E.
    + destruct (Z.eqb_spec (a + da) 0); [intros _; lia | exact Cl].
  - split; [intros t' [= <-]; simpl; lia|]. split; by eexists.
Qed.

(** Transactions that leave messages, batch counts and tokens alone. *)
Definition same_counts (M M' : gmap (Z * Z) Delivery.t) : Prop :=
  forall b, counts b (is_ MessageStatus.delivered) M' = counts b (is_ MessageStatus.delivered) M /\
    counts b (is_ MessageStatus.failed) M' = counts b (is_ MessageStatus.failed) M /\
    counts b (is_ MessageStatus.unknown) M' = counts b (is_ MessageStatus.unknown) M /\
    counts b active_status M' = counts b active_status M.

#[export] Instance same_counts_preorder : PreOrder same_counts.
Proof.
  split; [by intros M b|]. intros M1 M2 M3 H1 H2 b.
  destruct (H1 b) as (A1 & A2 & A3 & A4), (H2 b) as (B1 & B2 & B3 & B4). split_and!; congruence.
Qed.

Definition calm (s s' : db) : Prop :=
  same_counts (messages s) (messages s') /\ tokens s' = tokens s /\
  forall b row', batches s' !! b = Some row' -> exists row, batches s !! b = Some row /\
    Counted.delivered row' = Counted.delivered row /\ Counted.failed row' = Counted.failed row /\
    Counted.unknown_cnt row' = Counted.unknown_cnt row /\
    Counted.active_message_count row' = Counted.active_message_count row /\
    Counted.active_message_count_token row' = Counted.active_message_count_token row /\
    (finished_status (Counted.status row') = true -> finished_status (Counted.status row) = true).

#[export] Instance calm_preorder : PreOrder calm.
Proof.
  split.
  - intros s. split; [reflexivity|]. split; [done|]. intros b row H. by exists row.
  - intros s1 s2 s3 (M1 & T1 & B1) (M2 & T2 & B2). split; [by etransitivity|]. split; [congruence|]. intros b row3 H3.
    destruct (B2 b row3 H3) as (row2 & R2 & ? & ? & ? & ? & ? & ?). destruct (B1 b row2 R2) as (row1 & R1 & ? & ? & ? & ? & ? & ?).
    exists row1. split_and!; [done | congruence.. | auto].
Qed.

Lemma counted_calm s s' : counted s -> calm s s' -> counted s'.
Proof.
  intros C (M & T & B) b row' H. destruct (B b row' H) as (row & R & Ed & Ef & Eu & Ea & Et & Es).
  destruct (C b row R) as (X & Y & Z). unfold exact_row, tallied, closed_ok, token_ok in *.
  destruct (M b) as (Md & Mf & Mu & Ma). rewrite Ed, Ef, Eu, Ea, Et, Md, Mf, Mu, Ma, T. auto.
Qed.

Lemma calm_counts s s' : same_counts (messages s) (messages s') -> tokens s' = tokens s -> batches s' = batches s -> calm s s'.
Proof. intros M T B. split; [done|]. split; [done|]. intros b row. rewrite B. intros H. by exists row. Qed.

Lemma calm_unchanged s s' : messages s' = messages s -> tokens s' = tokens s -> batches s' = batches s -> calm s s'.
Proof. intros M. apply calm_counts. by rewrite M. Qed.

Lemma calm_schedule b f s :
  (forall row, exists l n g k, f row = Counted.set_schedule l n g k row) -> calm s (set_batches (alter f b) s).
Proof.
  intros F. split; [by intros ?|]. split; [done|]. intros b' row'. simpl. destruct (decide (b' = b)) as [->|].
  - rewrite lookup_alter_eq. destruct (batches s !! b) as [row|]; [|done]. intros [= <-]. exists row.
    destruct (F row) as (l & n & g & k & ->). done.
  - rewrite lookup_alter_ne by done. intros H. by exists row'.
Qed.

(** The refresh after a difference, or without one, leaves every batch exact. *)
Lemma refresh_notes_calm b src s x s' :
  (_ ← modify (add_note (BatchFinished b src));
   s ← get;
   match batches s !! b with
   | None => throw no_batch
   | Some r => if finished_status (Counted.status r) then release_note b (Counted.status r) else mret tt
   end) s = Ok (x, s') -> calm s s'.
Proof.
  intros H. apply stex_bind_ok in H as (? & s1 & G & H). injection G as <- <-.
  apply stex_bind_ok in H as (? & s1 & G & H). injection G as <- <-. destruct (batches _ !! b); [|by stx].
  destruct (finished_status _); [|stx; by apply calm_unchanged]. unfold release_note in H. stx. by apply calm_unchanged.
Qed.

Lemma refresh_ok s0 s b src d dd df du da x s' : counted s0 -> shifted s0 s b dd df du da -> da <= 0 ->
  delta_counts d = Ok (dd, df, du, da) -> _refresh_batch b src (Some d) s = Ok (x, s') -> counted s'.
Proof.
  intros C Sh N Dc H. unfold _refresh_batch in H. apply stex_bind_ok in H as (used & s1 & U & H).
  apply stex_bind_ok in H as ([] & s2 & R & H). apply refresh_notes_calm in H. eapply counted_calm; [|exact H].
  destruct (delta_counted _ _ _ _ _ _ _ _ _ _ C Sh N Dc U) as [[-> C1]|[-> ->]].
  - by injection R as <-.
  - eapply (recount_ok b refresh_rule); [apply honest_rules | by eapply shifted_but | exact R].
Qed.

(** ** Writers that recount *)

(** Messages of one batch left the open ones. *)
Definition moved (b : Z) (s0 s : db) : Prop :=
  batches s = batches s0 /\ tokens s = tokens s0 /\
  (forall b' f, b' <> b -> counts b' f (messages s) = counts b' f (messages s0)) /\
  counts b active_status (messages s) <= counts b active_status (messages s0).

#[export] Instance moved_preorder b : PreOrder (moved b).
Proof.
  split; [by intros s|]. intros s1 s2 s3 (B1 & T1 & O1 & A1) (B2 & T2 & O2 & A2).
  split_and!; [congruence | congruence | intros b' f N; rewrite O2 by done; auto | lia].
Qed.

Lemma moved_but b s0 s : counted s0 -> moved b s0 s -> counted_but b s.
Proof.
  intros C (B & T & O & A). split.
  - intros b' row N H. rewrite B in H. destruct (C b' row H) as (X & Y & Z). unfold exact_row, tallied, closed_ok, token_ok in *.
    rewrite !(O b' _ N), T. done.
  - intros row H. rewrite B in H. destruct (C b row H) as (X & Y & Z). unfold closed_ok, token_ok in *. rewrite T. split; [|done].
    intros Fi. specialize (Y Fi). pose proof (counts_nonneg b active_status (messages s)). lia.
Qed.

Lemma hit_elsewhere b f m : Delivery.batch_id m <> b -> hit b f m = 0.
Proof. intros N. unfold hit. by rewrite (proj2 (Z.eqb_neq _ _) N). Qed.

Lemma moved_insert b id m st s : messages s !! id = Some m -> Delivery.batch_id m = b -> active_status st = false ->
  moved b s (set_messages (<[id := Delivery.set_status st m]>) s).
Proof.
  intros M B A. split_and!; [done | done | |].
  - intros b' f N. simpl. rewrite (counts_insert b' f _ _ m) by done. rewrite !hit_elsewhere by (simpl; congruence). lia.
  - simpl. rewrite (counts_insert b active_status _ _ m) by done. unfold hit at 2. simpl. rewrite A, andb_false_r.
    destruct (hit_range b active_status m); simpl; lia.
Qed.

Lemma update_status_moved b f to s x s' : active_status to = false ->
  (forall id m, messages s !! id = Some m -> f m = true -> Delivery.batch_id m = b) ->
  update_status f to s = Ok (x, s') -> moved b s s' /\ (x = 0 -> messages s' = messages s).
Proof.
  intros A F H. unfold update_status in H. stx. split.
  - split_and!; [done | done | |].
    + intros b' g N. simpl. apply counts_fmap. intros id m M. destruct (f m) eqn:E; [|done].
      rewrite !hit_elsewhere; [done | |]; simpl; rewrite (F id m M E); congruence.
    + simpl. apply counts_fmap_le. intros id m M. destruct (f m) eqn:E; [|done]. unfold hit at 1. simpl.
      rewrite A, andb_false_r. destruct (hit_range b active_status m); simpl; lia.
  - intros None_. simpl. apply map_eq. intros id. rewrite lookup_fmap. destruct (messages s !! id) as [m|] eqn:M; [|done].
    simpl. destruct (f m) eqn:E; [|done]. exfalso.
    assert (I : (id, m) ∈ List.filter (fun p : (Z * Z) * Delivery.t => f (snd p)) (map_to_list (messages s)))
      by (apply filter_in; split; [by apply elem_of_map_to_list | done]).
    destruct (List.filter _ _); [by apply not_elem_of_nil in I | simpl in None_; lia].
Qed.

Lemma update_sent_calm f s x s' : (forall m, f m = true -> Delivery.status m = MessageStatus.pending) ->
  update_status f MessageStatus.sent s = Ok (x, s') -> calm s s'.
Proof.
  intros P H. unfold update_status in H. stx. apply calm_counts; [|done | done]. intros b. simpl.
  split_and!; apply counts_fmap; intros id m M; destruct (f m) eqn:E; try done; unfold hit; simpl; by rewrite (P m E).
Qed.

(** A batch is recounted and, if finished, announced. *)
Definition recount_then (b : Z) (rule : status_rule) (k : Counted.t -> tx_ unit) : tx_ unit :=
  _ ← recount b rule;
  s ← get;
  match batches s !! b with None => throw no_batch | Some row => k row end.

Lemma recount_then_ok b rule k s x s' : honest rule -> (forall row, within calm (k row)) -> counted_but b s ->
  recount_then b rule k s = Ok (x, s') -> counted s'.
Proof.
  intros R K C H. unfold recount_then in H. apply stex_bind_ok in H as ([] & s1 & Rc & H).
  apply stex_bind_ok in H as (? & ? & G & H). injection G as <- <-. destruct (batches s1 !! b) as [row|]; [|by stx].
  eapply counted_calm; [by eapply (recount_ok b rule)|]. by eapply K.
Qed.

Lemma calm_note n : within (E:=exc) calm (modify (add_note n)).
Proof. apply within_modify. intros s. by apply calm_unchanged. Qed.
Hint Resolve calm_note : within.

Lemma calm_release b st : within calm (release_note b st).
Proof. apply calm_note. Qed.
Hint Resolve calm_release : within.

Lemma counted_settle b s x s' : counted_but b s -> _settle_batch b s = Ok (x, s') -> counted s'.
Proof. apply (recount_then_ok b settle_rule); [apply honest_rules|]. intros row. within_tac. Qed.

Lemma of_chunk_batch received s c r : facts received s -> chunks s !! c = Some r ->
  forall id m, messages s !! id = Some m -> of_chunk c m = true -> Delivery.batch_id m = ReportChunk.batch_id r.
Proof.
  intros F C id m M O. unfold of_chunk in O. bool_prop. destruct (f_chunk _ _ F id m c M O) as (r' & C' & <-). congruence.
Qed.

Lemma counted_failed received s c r x s' : facts received s -> counted s -> chunks s !! c = Some r ->
  _finalize_failed_messages c (ReportChunk.batch_id r) s = Ok (x, s') -> counted s'.
Proof.
  intros F C Ch H. unfold _finalize_failed_messages in H. apply stex_bind_ok in H as (n & s1 & U & H).
  apply (update_status_moved (ReportChunk.batch_id r)) in U as [Mv Same]; [|done|].
  2:{ intros id m M O. cbv beta in O. bool_prop. by eapply of_chunk_batch. }
  destruct (Z.eqb_spec n 0) as [->|N].
  - stx. eapply counted_calm; [exact C|]. destruct Mv as (B & T & _). apply calm_unchanged; auto.
  - revert H. apply (recount_then_ok _ failed_rule); [apply honest_rules | | by eapply moved_but]. intros row. within_tac.
Qed.

Lemma counted_terminal received s c x s' : facts received s -> counted s -> terminalize_unknown c s = Ok (x, s') -> counted s'.
Proof.
  intros F C H. unfold terminalize_unknown in H. apply stex_bind_ok in H as (? & ? & G & H). injection G as <- <-.
  destruct (chunks s !! c) as [r|] eqn:Ch; [|stx; done]. destruct (_ && _); [|stx; done].
  apply stex_bind_ok in H as (? & s1 & G & H). injection G as <- <-. apply stex_bind_ok in H as (n & s2 & U & H).
  apply (update_status_moved (ReportChunk.batch_id r)) in U as [Mv _]; [|done|].
  2:{ intros id m M O. cbv beta in O. bool_prop. by eapply (of_chunk_batch received s c r). }
  apply stex_bind_ok in H as (? & ? & G & H). injection G as <- <-. apply stex_bind_ok in H as (? & ? & G & H).
  apply stex_lift_ok in G as [_ ->]. revert H. apply (recount_then_ok _ terminal_rule); [apply honest_rules | intros row; within_tac |].
  eapply moved_but; [|exact Mv]. exact C.
Qed.

Lemma exclude_one_moved b id m s x s' : messages s !! id = Some m -> Delivery.batch_id m = b ->
  _exclude_one id s = Ok (x, s') -> moved b s s' /\ (x = false -> messages s' = messages s) /\
  (forall id', id' <> id -> messages s' !! id' = messages s !! id').
Proof.
  intros M B H. unfold _exclude_one in H. apply stex_bind_ok in H as (? & ? & G & H). injection G as <- <-.
  destruct (bool_decide _); [by stx|]. apply stex_bind_ok in H as (? & s1 & G & H). injection G as <- <-.
  rewrite M in H. destruct (in_status _ m); stx; [|done]. split; [|split; [done|]].
  - apply (moved_insert b id m MessageStatus.other (set_excluded (fun e => {[ id ]} ∪ e) s)); done.
  - intros id' N. simpl. by rewrite lookup_insert_ne.
Qed.

Lemma exclude_each_moved b ids : forall s n s', NoDup ids ->
  (forall id, id ∈ ids -> exists m, messages s !! id = Some m /\ Delivery.batch_id m = b) ->
  exclude_each ids s = Ok (n, s') -> moved b s s' /\ 0 <= n /\ (n = 0 -> messages s' = messages s).
Proof.
  induction ids as [|id ids IH]; intros s n s' Nd In H; cbn [exclude_each] in H.
  { stx. done. }
  apply NoDup_cons in Nd as [Ni Nd]. apply stex_bind_ok in H as (x & s1 & X & H). apply stex_bind_ok in H as (k & s2 & K & H). stx.
  destruct (In id (list_elem_of_here _ _)) as (m & M & B). destruct (exclude_one_moved b id m s x s1 M B X) as (Mv & Z1 & Rest).
  destruct (IH s1 k s2 Nd) as (Mv' & Pk & Z2); [|done|].
  { intros i I. destruct (In i (list_elem_of_further _ _ _ I)) as (m' & M' & B'). exists m'. split; [|done].
    rewrite Rest; [done|]. intros ->. done. }
  split; [by etransitivity|]. destruct x; simpl; [split; lia|]. split; [lia|]. intros Zk. rewrite Z2 by lia. auto.
Qed.

Lemma calm_unchunked c : within calm (_fail_unchunked c).
Proof. apply within_modify. intros s. by apply calm_unchanged. Qed.

Lemma counted_dispatch received s c hits x s' : facts received s -> counted s -> decide_dispatch c hits s = Ok (x, s') -> counted s'.
Proof.
  intros F C H. unfold decide_dispatch in H. apply stex_bind_ok in H as (? & ? & G & H). injection G as <- <-.
  destruct (chunks s !! c) as [r|] eqn:Ch; [|stx]. destruct (negb _); [by stx|]. cbv zeta in H.
  set (pending := fst <$> _) in H.
  assert (Close : forall s1 y s2, counted s1 ->
            (_ ← _fail_unchunked c; _settle_batch (ReportChunk.batch_id r)) s1 = Ok (y, s2) -> counted s2).
  { intros s1 y s2 C1 H1. apply stex_bind_ok in H1 as (? & s3 & G & H1). apply calm_unchunked in G.
    eapply counted_settle; [|exact H1]. apply counted_all_but. by eapply counted_calm. }
  destruct (bool_decide (pending = [])); [by eapply Close|].
  apply stex_bind_ok in H as (n & s1 & E & H). apply stex_bind_ok in H as (? & s2 & S & H).
  assert (Mv : moved (ReportChunk.batch_id r) s s1 /\ 0 <= n /\ (n = 0 -> messages s1 = messages s)).
  { eapply exclude_each_moved; [| |exact E].
    - eapply sublist_NoDup; [|apply filter_sublist]. unfold pending.
      apply UsageRebuild.keys_filter, NoDup_fst_map_to_list.
    - intros id [I _]%filter_in. apply list_elem_of_fmap in I as ([i m] & -> & [I O]%filter_in).
      apply elem_of_map_to_list in I. exists m. split; [done|]. bool_prop. by eapply of_chunk_batch. }
  destruct Mv as (Mv & _ & Same). assert (C2 : counted s2).
  { destruct (Z.eqb_spec n 0) as [->|N].
    - stx. destruct Mv as (B & T & _). eapply counted_calm; [exact C|]. apply calm_unchanged; auto.
    - eapply counted_settle; [|exact S]. by eapply moved_but. }
  destruct (bool_decide _); [by eapply Close | by stx].
Qed.

(** ** Writers that count by differences *)

Lemma hit_here f m : hit (Delivery.batch_id m) f m = b2i (f (Delivery.status m)).
Proof. unfold hit. by rewrite Z.eqb_refl. Qed.

(** One message of a batch got another status. *)
Lemma shifted_insert s0 s id m m' :
  messages s0 !! id = Some m -> messages s = <[id := m']> (messages s0) -> Delivery.batch_id m' = Delivery.batch_id m ->
  batches s = batches s0 -> tokens s = tokens s0 ->
  let diff f := b2i (f (Delivery.status m')) - b2i (f (Delivery.status m)) in
  shifted s0 s (Delivery.batch_id m) (diff (is_ MessageStatus.delivered)) (diff (is_ MessageStatus.failed))
    (diff (is_ MessageStatus.unknown)) (diff active_status).
Proof.
  intros M E B Bs T. cbv zeta.
  assert (Here : forall f, counts (Delivery.batch_id m) f (messages s)
            = counts (Delivery.batch_id m) f (messages s0) + (b2i (f (Delivery.status m')) - b2i (f (Delivery.status m)))).
  { intros f. rewrite E, (counts_insert _ f _ _ m) by done. rewrite <- B at 3. rewrite !hit_here. lia. }
  split; [done|]. split; [done|]. split; [|split_and!; apply Here].
  intros b' f N. rewrite E, (counts_insert b' f _ _ m) by done. rewrite !hit_elsewhere by congruence. lia.
Qed.

Lemma report_status_inactive n : active_status (_message_status n) = false /\
  bool_decide (_message_status n ∈ [MessageStatus.delivered; MessageStatus.failed; MessageStatus.unknown;
                                    MessageStatus.other]) = true.
Proof. unfold _message_status. by repeat case_match. Qed.

Lemma counted_report received now raw r matches s a s' : genuine received -> received r -> facts received s -> counted s ->
  apply_matched now raw r matches s = Ok (a, s') -> counted s'.
Proof.
  intros G R F C H. destruct (apply_cases received now raw r matches s a s' R F H) as (s1 & P & F1 & E1 & Cs).
  destruct (facts_persist received raw r s tt s1 R F P) as (_ & _ & M1 & _ & B1 & _ & _ & T1).
  assert (C1 : counted s1) by (eapply counted_calm; [exact C|]; by apply calm_unchanged).
  destruct Cs as [->|(id & m & x & M & Fresh & W)]; [done|]. unfold after_writes, project_writes, projected_message in W.
  destruct (report_wins r m); cbn [negb] in W.
  2:{ stx. eapply counted_calm; [exact C1|]. apply calm_unchanged; [|done | done]. simpl. by rewrite insert_id. }
  apply stex_bind_ok in W as ([] & s2 & D & W). unfold mark_dirty in D. injection D as <-.
  apply stex_bind_ok in W as ([] & s3 & Rf & W). apply (counted_calm s3); cycle 1.
  { clear Rf. stx. unfold note_late_evidence. destruct (Delivery.chunk_id m); by apply calm_unchanged. }
  destruct G as [G _]. destruct (report_status_inactive (report_status r)) as [In Rs]. rewrite <- (G r R) in In, Rs.
  eapply refresh_ok; [exact C1 | | | | exact Rf].
  - eapply (shifted_insert s1 _ id m); [exact M | reflexivity | done | done | done].
  - change (b2i (active_status (message_status r)) - b2i (active_status (Delivery.status m)) <= 0).
    rewrite In. by destruct (active_status (Delivery.status m)).
  - simpl. by rewrite Rs.
Qed.

(** The timed-out messages of a batch moved from open to unknown. *)
Lemma expire_one_shifted now hours b id s n s' : expire_one now hours b id s = Ok (n, s') ->
  shifted s s' b 0 0 n (- n) /\ 0 <= n.
Proof.
  intros H. unfold expire_one in H. apply stex_bind_ok in H as (? & ? & G & H). injection G as <- <-.
  assert (Zero : shifted s s b 0 0 0 (- 0)) by (split_and!; [done | done | done | lia..]).
  destruct (messages s !! id) as [m|] eqn:M; [|stx; split; [done | lia]].
  destruct (_ && _) eqn:E; [|stx; split; [done | lia]]. bool_prop.
  apply stex_bind_ok in H as (? & s1 & G & H). injection G as <- <-. unfold mark_dirty in H. stx. split; [|lia].
  match goal with D : due_message _ _ _ _ = true |- _ => unfold due_message in D; bool_prop end.
  match goal with S : Delivery.status m = _ |- _ => rename S into St end.
  pose proof (shifted_insert s (set_dirty (fun d => {[ shanghai_date (snd id) ]} ∪ d)
      (set_messages (<[id := Delivery.set_status MessageStatus.unknown m]>) s)) id m (Delivery.set_status MessageStatus.unknown m)
      M eq_refl eq_refl eq_refl eq_refl) as Sh. cbv zeta in Sh. simpl in Sh. rewrite St in Sh. simpl in Sh.
  match goal with B : Delivery.batch_id m = b |- _ => rewrite B in Sh end. exact Sh.
Qed.

Lemma shifted_trans s1 s2 s3 b n k : shifted s1 s2 b 0 0 n (- n) -> shifted s2 s3 b 0 0 k (- k) -> shifted s1 s3 b 0 0 (n + k) (- (n + k)).
Proof.
  intros (B1 & T1 & O1 & D1 & F1 & U1 & A1) (B2 & T2 & O2 & D2 & F2 & U2 & A2).
  split_and!; [congruence | congruence | intros b' f N; rewrite O2 by done; auto | lia..].
Qed.

Lemma expire_all_shifted now hours b ids : forall s n s', expire_all now hours b ids s = Ok (n, s') ->
  shifted s s' b 0 0 n (- n) /\ 0 <= n.
Proof.
  induction ids as [|id ids IH]; intros s n s' H; cbn [expire_all] in H.
  { stx. split; [|lia]. split_and!; [done | done | done | lia..]. }
  apply stex_bind_ok in H as (k & s1 & H1 & H). apply stex_bind_ok in H as (j & s2 & H2 & H). stx.
  apply expire_one_shifted in H1 as [S1 P1]. apply IH in H2 as [S2 P2]. split; [by eapply shifted_trans | lia].
Qed.

Lemma shifted_zero s s' b : counted s -> shifted s s' b 0 0 0 (- 0) -> counted s'.
Proof.
  intros C (B & T & O & D & F & U & A). eapply counted_calm; [exact C|]. apply calm_counts; [|done | done].
  intros b'. destruct (decide (b' = b)) as [->|N]; [split_and!; lia | by rewrite !O].
Qed.

Lemma counted_expire received now hours limit held b g s x s' : facts received s -> counted s ->
  expire_claimed now hours limit held b g s = Ok (x, s') -> counted s'.
Proof.
  intros F C H. unfold expire_claimed in H. apply stex_bind_ok in H as (? & ? & G & H). injection G as <- <-.
  destruct (batches s !! b) as [row|]; [|by stx]. destruct (_ || _); [by stx|]. cbv zeta in H.
  apply stex_bind_ok in H as (? & ? & G & H). rewrite (repair_idle received s b _ F) in G. injection G as <- <-.
  apply stex_bind_ok in H as (n & s1 & E & H). apply expire_all_shifted in E as [Sh Pn].
  apply stex_bind_ok in H as (? & ? & G & H). injection G as <- <-. apply stex_bind_ok in H as ([] & s2 & R & H).
  assert (C2 : counted s2).
  { destruct (Z.eqb_spec n 0) as [->|N]; [stx; by eapply shifted_zero|].
    eapply (refresh_ok s s1 b None (UnknownDelta n)); [exact C | exact Sh | lia | | exact R].
    simpl. by rewrite (proj2 (Z.ltb_ge n 0)) by lia. }
  stx. eapply counted_calm; [exact C2|]. apply calm_schedule. intros row'.
  destruct (_ =? g); [do 4 eexists; reflexivity|].
  exists (Counted.last_attempt_at row'), (Counted.next_attempt_at row'), (Counted.generation row'), (Counted.failures row').
  by destruct row'.
Qed.

(** ** The remaining writers *)

Lemma in_one st m : in_status [st] m = true -> Delivery.status m = st.
Proof. unfold in_status. intros H. bool_prop. by apply list_elem_of_singleton. Qed.

Lemma counted_sent s c x s' : counted s -> messages_sent c s = Ok (x, s') -> counted s'.
Proof.
  intros C H. eapply counted_calm; [exact C|]. eapply update_sent_calm; [|exact H].
  intros m E. cbv beta in E. bool_prop. by apply in_one.
Qed.

Lemma counted_resolve now s c x s' : counted s -> resolve_submitted now c s = Ok (x, s') -> counted s'.
Proof.
  intros C H. unfold resolve_submitted in H. apply stex_bind_ok in H as (? & ? & G & H). injection G as <- <-.
  destruct (chunks s !! c) as [r|]; [|by stx]. destruct (bool_decide _); [|by stx].
  apply stex_bind_ok in H as (? & s1 & G & H). injection G as <- <-. apply stex_bind_ok in H as (? & s2 & U & H).
  injection H as <- <-. eapply counted_calm; [|eapply update_sent_calm; [|exact U]].
  - eapply counted_calm; [exact C|]. by apply calm_unchanged.
  - intros m E. cbv beta in E. bool_prop. by apply in_one.
Qed.

Lemma calm_reschedule b row l n g k s : batches s !! b = Some row ->
  calm s (set_batches (<[b := Counted.set_schedule l n g k row]>) s).
Proof.
  intros B. assert (E : set_batches (<[b := Counted.set_schedule l n g k row]>) s
    = set_batches (alter (Counted.set_schedule l n g k) b) s).
  { unfold set_batches. f_equal. apply map_eq. intros b'. destruct (decide (b' = b)) as [->|N].
    - by rewrite lookup_insert_eq, lookup_alter_eq, B.
    - by rewrite lookup_insert_ne, lookup_alter_ne. }
  rewrite E. apply calm_schedule. intros row'. by exists l, n, g, k.
Qed.

Lemma fairest_in l p : fairest l = Some p -> p ∈ l.
Proof.
  revert p. induction l as [|q l IH]; intros p H; [done|]. simpl in H. destruct (fairest l) as [q'|].
  - specialize (IH q' eq_refl). repeat case_match; simplify_eq; set_solver.
  - simplify_eq. set_solver.
Qed.

Lemma counted_claim now clk hours exclude locked s x s' : counted s ->
  _claim_due_timeout_batch now clk hours exclude locked s = Ok (x, s') -> counted s'.
Proof.
  intros C H. unfold _claim_due_timeout_batch in H. apply stex_bind_ok in H as (? & ? & G & H). injection G as <- <-.
  destruct (fairest _) as [[id b]|] eqn:Fr; [|by stx]. stx. eapply counted_calm; [exact C|]. apply calm_reschedule.
  apply fairest_in, list_elem_of_In, filter_In in Fr as [Fr _]. by apply elem_of_map_to_list, list_elem_of_In.
Qed.

Lemma counted_failure clk b g s x s' : counted s -> _record_timeout_failure clk b g s = Ok (x, s') -> counted s'.
Proof.
  intros C H. unfold _record_timeout_failure in H. apply stex_bind_ok in H as (? & ? & G & H). injection G as <- <-.
  destruct (batches s !! b) as [row|] eqn:B; [|by stx]. destruct (_ && _); [|by stx]. cbv zeta in H. stx.
  eapply counted_calm; [exact C|]. by apply calm_reschedule.
Qed.

Lemma counted_unmatched received raw r s x s' : received r -> facts received s -> counted s ->
  persist_unmatched raw r s = Ok (x, s') -> counted s'.
Proof.
  intros R F C H. unfold persist_unmatched in H. apply stex_bind_ok in H as ([] & s1 & P & H).
  destruct (facts_persist received raw r s tt s1 R F P) as (_ & _ & M1 & _ & B1 & _ & _ & T1).
  apply stex_bind_ok in H as (? & ? & G & H). injection G as <- <-. eapply counted_calm; [exact C|].
  destruct (unmatched s1 !! event_key r); stx; by apply calm_unchanged.
Qed.

Lemma counted_chunk c b custom ids s x s' : counted s -> insert_chunk c b custom ids s = Ok (x, s') -> counted s'.
Proof.
  intros C H. unfold insert_chunk in H. stx. eapply counted_calm; [exact C|]. apply calm_counts; [|done | done].
  intros b'. simpl. split_and!; apply counts_imap; intros id m; by destruct (_ && _).
Qed.

(** Messages of a new batch: no other batch has more, and none has a result. *)
Lemma counts_accepted b f b' items : forall M : gmap (Z * Z) Delivery.t,
  b' <> b \/ f MessageStatus.pending = false ->
  NoDup (fst <$> items) -> Forall (fun i => M !! fst i = None) items ->
  counts b' f (foldr (fun i m => <[fst i := Delivery.mk b None (snd i) MessageStatus.pending None None None None]> m) M items)
  = counts b' f M.
Proof.
  intros M Off. induction items as [|i items IH]; intros N A; [done|]. cbn [foldr]. cbn in N.
  apply NoDup_cons in N as [Ni N]. inversion_clear A as [|? ? A1 A2]. rewrite counts_insert_new, IH; [|done..|].
  - unfold hit. simpl. destruct Off as [Off | ->]; [|rewrite andb_false_r; simpl; lia]. destruct (Z.eqb_spec b b'); [congruence | simpl; lia].
  - clear IH N A2. revert Ni. induction items as [|j items IH]; intros Ni; [done|]. cbn in Ni |- *.
    apply not_elem_of_cons in Ni as [Nj Ni]. rewrite lookup_insert_ne by congruence. auto.
Qed.

Lemma counts_none (b : Z) (f : MessageStatus.t -> bool) (M : gmap (Z * Z) Delivery.t) :
  (forall id m, M !! id = Some m -> Delivery.batch_id m <> b) -> counts b f M = 0.
Proof.
  induction M as [|id m M N IH] using map_ind; intros E; [done|]. rewrite counts_insert_new by done.
  rewrite IH by (intros i m' H; apply (E i); by rewrite lookup_insert_ne by congruence).
  rewrite hit_elsewhere; [done|]. apply (E id), lookup_insert_eq.
Qed.

Lemma counted_accept received b st items s x s' : facts received s -> counted s -> finished_status st = false ->
  accept_batch b st items s = Ok (x, s') -> counted s'.
Proof.
  intros F C St H. unfold accept_batch in H. apply stex_bind_ok in H as (? & ? & G & H). injection G as <- <-.
  apply stex_bind_ok in H as ([] & s1 & G & H). apply stex_lift_ok in G as [G ->]. apply refuse_ok in G.
  apply orb_false_iff in G as [G Free]. apply orb_false_iff in G as [New Dup]. apply bool_decide_eq_false in New.
  apply negb_false_iff, bool_decide_eq_true in Dup. stx.
  assert (Fr : Forall (fun i => messages s !! fst i = None) items).
  { apply Forall_forall. intros i Hi. destruct (messages s !! fst i) eqn:E; [|done]. exfalso.
    apply not_true_iff_false in Free. apply Free, existsb_exists. exists i. split; [by apply list_elem_of_In|]. by rewrite E. }
  assert (Empty : forall f, counts b f (messages s) = 0).
  { intros f. apply counts_none. intros id m M <-. by apply New, (f_batch _ _ F id m M). }
  intros b' row. simpl. destruct (decide (b' = b)) as [->|N].
  - rewrite lookup_insert_eq. intros [= <-]. unfold exact_row, tallied, closed_ok, token_ok. simpl.
    rewrite St, !counts_accepted, !Empty by auto. split_and!; try done.
  - rewrite lookup_insert_ne by done. intros B. destruct (C b' row B) as (T & Cl & Tk).
    unfold exact_row, tallied, closed_ok. simpl. rewrite !counts_accepted by auto. done.
Qed.

Lemma counted_outside s s' : counted s -> outside s s' -> counted s'.
Proof.
  intros C (M & _ & _ & _ & T & _ & B) b row' H. specialize (B b). rewrite H in B.
  destruct (batches s !! b) as [row|] eqn:R; [|inversion B]. inversion B as [? ? X|]; subst.
  destruct (C b row R) as (Ta & Cl & Tk). unfold exact_row, closed_ok, token_ok. rewrite M, T.
  destruct X as [->|(st & St & ->)]; [done|]. split; [exact Ta|]. split; [|exact Tk]. simpl. by rewrite St.
Qed.

(** ** Every reachable database is exact *)

Lemma counted_transaction received o s x s' : genuine received -> allowed received o -> facts received s -> counted s ->
  transaction_of o s = Ok (x, s') -> counted s'.
Proof.
  intros G A F C H. destruct o; cbn [transaction_of allowed] in A, H; unfold void in H;
    try (apply stex_bind_ok in H as (? & ? & H & V); injection V as _ <-).
  - by eapply counted_report.
  - by eapply counted_unmatched.
  - by eapply counted_claim.
  - by eapply counted_expire.
  - by eapply counted_failure.
  - by eapply counted_sent.
  - apply stex_bind_ok in H as (? & ? & E & H). injection E as <- <-.
    destruct (chunks s !! chunk_id) as [r|] eqn:Ch; [by eapply counted_failed | by stx].
  - by eapply counted_resolve.
  - by eapply counted_terminal.
  - by eapply counted_dispatch.
  - by eapply counted_accept.
  - by eapply counted_chunk.
Qed.

Lemma counted_step received s s' : genuine received -> sound received s -> step received s s' -> counted s -> counted s'.
Proof.
  intros G [F _] [o A ->|O] C; [|by eapply counted_outside]. unfold transaction.
  destruct (transaction_of o s) as [[x s1]|e] eqn:E; [|done]. by eapply counted_transaction.
Qed.

Lemma counted_reachable received s : genuine received -> reachable received s -> counted s.
Proof.
  intros G R. enough (sound received s /\ counted s) as [_ ?]; [done|].
  eapply (rtc_invariant (step received) (fun s => sound received s /\ counted s)); [|exact R|].
  - intros s1 s2 [S C] St. split; [by eapply sound_step | by eapply counted_step].
  - split; [apply sound_empty | by intros b row].
Qed.

(** C6: Whatever reports, timeouts, vendor outcomes, blacklist exclusions and
    new batches were committed, in any order, and although most of them change
    the counters of a batch by differences, every batch of the database counts
    exactly its messages: [delivered], [failed] and [unknown_cnt] are the numbers
    of its messages in these statuses, a maintained [active_message_count] is the
    number of its open ones, and a batch whose status is a finished one has no
    open message. *)
Theorem batch_counters_exact received s b row : genuine received -> reachable received s -> batches s !! b = Some row ->
  Counted.delivered row = count_where b (is_ MessageStatus.delivered) s /\
  Counted.failed row = count_where b (is_ MessageStatus.failed) s /\
  Counted.unknown_cnt row = count_where b (is_ MessageStatus.unknown) s /\
  (forall a, Counted.active_message_count row = Some a -> a = count_where b active_status s) /\
  (finished_status (Counted.status row) = true -> count_where b active_status s = 0).
Proof.
  intros G R B. rewrite !count_where_counts.
  by destruct (counted_reachable received s G R b row B) as ((? & ? & ? & ?) & ? & _).
Qed.

Lemma batch_counters_exact_witness :
  batches failed_first !! 7 = Some (Counted.mk BatchStatus.completed 1 0 0 (Some 0) (Some 2) None None 0 0) /\
  count_where 7 (is_ MessageStatus.delivered) failed_first = 1.
Proof.
  assert (B : batches failed_first !! 7 = Some (Counted.mk BatchStatus.completed 1 0 0 (Some 0) (Some 2) None None 0 0)).
  { vm_compute. reflexivity. }
  split; [exact B|]. symmetry.
  exact (proj1 (batch_counters_exact both failed_first 7 _ both_genuine (proj1 example_both) B)).
Defined.
End ReportCounts.
