(* ===== verification/PyTime.v ===== *)
(** * Dates of the standard library

    An instant is a number of microseconds since the epoch.  The proleptic
    Gregorian calendar of [datetime] is computed from the day number, and
    the formats of [strftime] the program uses are injective. *)

From S2P Require Import Prelude PyText Redis.

Module PyTime.
Import Redis.

Definition SECOND : Z := 1000000.
Definition DAY : Z := 86400 * SECOND.

(** Year, month and day of a day since the epoch; the computation counts
    years from March, in eras of four hundred years. *)
Definition civil_of_era (doe : Z) : Z * Z * Z :=
  let century := Z.min 3 (doe / 36524) in
  let doc := doe - 36524 * century in
  let cycle := doc / 1461 in
  let dof := doc - 1461 * cycle in
  let year := Z.min 3 (dof / 365) in
  let doy := dof - 365 * year in
  let mp := (5 * doy + 2) / 153 in
  let d := doy - (153 * mp + 2) / 5 + 1 in
  let m := if mp <? 10 then mp + 3 else mp - 9 in
  let y := 100 * century + 4 * cycle + year in
  (if m <=? 2 then y + 1 else y, m, d).
Definition civil (day : Z) : Z * Z * Z :=
  let z := day + 719468 in
  let '(y, m, d) := civil_of_era (z mod 146097) in (z / 146097 * 400 + y, m, d).

(** The day of a date. *)
Definition era_day (y m d : Z) : Z :=
  let y := if m <=? 2 then y - 1 else y in
  let mp := if 2 <? m then m - 3 else m + 9 in
  365 * y + y / 4 - y / 100 + y / 400 + (153 * mp + 2) / 5 + d - 1.

(** [str(n).zfill(width)] of a number that is not negative *)
Definition zfill (width : nat) (n : Z) : text :=
  replicate (width - length (str_nat n)) 48 ++ str_nat n.

(** [datetime.min] and [datetime.max] in UTC *)
Definition MIN_INSTANT : Z := -62135596800 * SECOND.
Definition MAX_INSTANT : Z := 253402300800 * SECOND - 1.
Definition in_range (t : Z) : bool := between MIN_INSTANT MAX_INSTANT t.

(** [t.strftime("%Y-%m-%dT%H:%M:%S.%fZ")]; the year is not padded. *)
Definition format_utc (t : Z) : text :=
  let '(y, m, d) := civil (t / DAY) in
  let s := t mod DAY / SECOND in
  str_int y ++ tx "-" ++ zfill 2 m ++ tx "-" ++ zfill 2 d ++ tx "T" ++ zfill 2 (s / 3600) ++ tx ":"
  ++ zfill 2 (s / 60 mod 60) ++ tx ":" ++ zfill 2 (s mod 60) ++ tx "." ++ zfill 6 (t mod SECOND) ++ tx "Z".

(** ** The calendar is injective *)

(** A quotient of the computation, with its bounds. *)
Ltac quotient a n := pose proof (Z.div_mod a n ltac:(lia)); pose proof (Z.mod_pos_bound a n ltac:(lia)).

Lemma months_ok doy : 0 <= doy <= 365 -> let mp := (5 * doy + 2) / 153 in
  0 <= mp <= 11 /\ 1 <= doy - (153 * mp + 2) / 5 + 1 <= 31.
Proof. intros R. cbv zeta. quotient (5 * doy + 2) 153. quotient (153 * ((5 * doy + 2) / 153) + 2) 5. lia. Qed.

Lemma era_ok doe : 0 <= doe < 146097 -> let '(y, m, d) := civil_of_era doe in
  era_day y m d = doe /\ 1 <= m <= 12 /\ 1 <= d <= 31 /\ 0 <= y.
Proof.
  intros R. unfold civil_of_era. cbv zeta. set (century := Z.min 3 (doe / 36524)).
  assert (C : 0 <= century <= 3 /\ 0 <= doe - 36524 * century <= 36524 /\ (doe - 36524 * century = 36524 -> century = 3)).
  { quotient doe 36524. unfold century. lia. }
  set (doc := doe - 36524 * century) in *. set (cycle := doc / 1461).
  assert (Q : 0 <= cycle <= 24 /\ 0 <= doc - 1461 * cycle <= 1460) by (quotient doc 1461; unfold cycle; lia).
  set (dof := doc - 1461 * cycle) in *. set (year := Z.min 3 (dof / 365)).
  assert (Y : 0 <= year <= 3 /\ 0 <= dof - 365 * year <= 365) by (quotient dof 365; unfold year; lia).
  set (doy := dof - 365 * year) in *. destruct (months_ok doy ltac:(lia)) as [M D]. cbv zeta in M, D.
  set (mp := (5 * doy + 2) / 153) in *. set (y := 100 * century + 4 * cycle + year).
  assert (Yd : y / 4 = 25 * century + cycle /\ y / 100 = century /\ y / 400 = 0).
  { quotient y 4. quotient y 100. quotient y 400. unfold y in *. lia. }
  assert (E : 365 * y + y / 4 - y / 100 + y / 400 + doy = doe) by (unfold y, doy, dof, doc in *; lia).
  unfold era_day. destruct (Z.ltb_spec mp 10).
  - rewrite (proj2 (Z.leb_gt (mp + 3) 2)), (proj2 (Z.ltb_lt 2 (mp + 3))) by lia. replace (mp + 3 - 3) with mp by lia. lia.
  - rewrite (proj2 (Z.leb_le (mp - 9) 2)), (proj2 (Z.ltb_ge 2 (mp - 9))) by lia.
    replace (mp - 9 + 9) with mp by lia. replace (y + 1 - 1) with y by lia. lia.
Qed.

Lemma era_day_shift y m d k : era_day (400 * k + y) m d = 146097 * k + era_day y m d.
Proof.
  assert (D : forall x n, 0 < n -> 400 mod n = 0 -> (400 * k + x) / n = x / n + 400 / n * k).
  { intros x n P M. replace (400 * k + x) with (x + 400 / n * k * n); [by rewrite Z.div_add by lia|].
    pose proof (Z.div_mod 400 n ltac:(lia)) as Q. set (q := 400 / n) in *. clearbody q. rewrite M, Z.add_0_r in Q.
    transitivity (x + (n * q) * k); [ring | rewrite <- Q; ring]. }
  unfold era_day. cbv zeta. set (e := (153 * _ + 2) / 5). clearbody e. destruct (m <=? 2).
  - replace (400 * k + y - 1) with (400 * k + (y - 1)) by lia. rewrite (D (y - 1) 4), (D (y - 1) 100), (D (y - 1) 400) by done.
    change (400 / 400) with 1. change (400 / 4) with 100. change (400 / 100) with 4. lia.
  - rewrite (D y 4), (D y 100), (D y 400) by done. change (400 / 400) with 1. change (400 / 4) with 100. change (400 / 100) with 4. lia.
Qed.

Lemma civil_spec day : let '(y, m, d) := civil day in
  era_day y m d = day + 719468 /\ 1 <= m <= 12 /\ 1 <= d <= 31 /\ (0 <= day + 719468 -> 0 <= y).
Proof.
  unfold civil. set (z := day + 719468). pose proof (Z.div_mod z 146097 ltac:(lia)).
  pose proof (era_ok (z mod 146097) (Z.mod_pos_bound z 146097 ltac:(lia))) as O.
  destruct (civil_of_era (z mod 146097)) as [[y m] d].
  rewrite (Z.mul_comm _ 400), era_day_shift. assert (0 <= z -> 0 <= z / 146097) by (intros; by apply Z.div_pos). lia.
Qed.

Lemma civil_inj day day' : civil day = civil day' -> day = day'.
Proof.
  intros E. pose proof (civil_spec day) as S. pose proof (civil_spec day') as S'. rewrite <- E in S'.
  destruct (civil day) as [[y m] d]. lia.
Qed.

(** ** Texts cut at a separator *)

Lemma str_int_chars n c : c ∈ str_int n -> ascii_digit c = true \/ c = 45.
Proof.
  assert (D : forall k, 0 <= k -> c ∈ str_nat k -> ascii_digit c = true).
  { intros k K I. pose proof (unsigned_str_nat k K) as U. unfold unsigned in U.
    destruct (str_nat k) as [|d r]; [done|]. destruct (forallb ascii_digit (d :: r)) eqn:F; [|discriminate].
    rewrite forallb_forall in F. by apply F, list_elem_of_In. }
  unfold str_int. destruct (Z.ltb_spec n 0) as [L|L]; intros I; [|left; by eapply (D n)].
  apply elem_of_cons in I as [->|I]; [by right|]. left. eapply (D (- n)); [lia | done].
Qed.

Lemma cut_inj (c : Z) (a b a' b' : text) : c ∉ a -> c ∉ a' -> a ++ [c] ++ b = a' ++ [c] ++ b' -> a = a' /\ b = b'.
Proof.
  intros N N' E. apply (f_equal (partition c)) in E. simpl in E. rewrite !partition_app in E by done. by injection E.
Qed.

Lemma str_int_cut c n n' b b' : ascii_digit c = false -> c <> 45 -> str_int n ++ [c] ++ b = str_int n' ++ [c] ++ b' ->
  n = n' /\ b = b'.
Proof.
  intros D M E. apply cut_inj in E as [E ->]; [split; [by apply str_int_inj | done] | |];
    intros [X|X]%str_int_chars; congruence.
Qed.

(** ** The format is injective *)

Lemma zfill_digits w n c : 0 <= n -> c ∈ zfill w n -> ascii_digit c = true.
Proof.
  intros N [[-> _]%elem_of_replicate|I]%elem_of_app; [done|]. pose proof (unsigned_str_nat n N) as U. unfold unsigned in U.
  destruct (str_nat n) as [|d r]; [done|]. destruct (forallb ascii_digit (d :: r)) eqn:F; [|discriminate].
  rewrite forallb_forall in F. by apply F, list_elem_of_In.
Qed.

Lemma zfill_value w n : 0 <= n -> digits_value (zfill w n) = n.
Proof.
  intros N. unfold zfill, digits_value. rewrite foldl_app. assert (Z0 : forall k, foldl (fun acc c => acc * 10 + (c - 48)) 0 (replicate k 48) = 0).
  { induction k as [|k IH]; [done|]. exact IH. }
  rewrite Z0. pose proof (unsigned_str_nat n N) as U. unfold unsigned in U. destruct (str_nat n) as [|c r]; [done|].
  destruct (forallb ascii_digit (c :: r)); [|done]. by injection U.
Qed.

Lemma zfill_cut w c n n' b b' : 0 <= n -> 0 <= n' -> ascii_digit c = false ->
  zfill w n ++ [c] ++ b = zfill w n' ++ [c] ++ b' -> n = n' /\ b = b'.
Proof.
  intros N N' D E. apply cut_inj in E as [E ->].
  - split; [|done]. by rewrite <- (zfill_value w n), <- (zfill_value w n'), E.
  - intros I%zfill_digits; [congruence | done].
  - intros I%zfill_digits; [congruence | done].
Qed.

(** An instant from the parts of its format. *)
Lemma parts_sum t : let s := t mod DAY / SECOND in
  t = t / DAY * DAY + (s / 3600 * 3600 + s / 60 mod 60 * 60 + s mod 60) * SECOND + t mod SECOND /\
  0 <= s / 3600 /\ 0 <= s / 60 mod 60 /\ 0 <= s mod 60 /\ 0 <= t mod SECOND.
Proof.
  cbv zeta. unfold DAY, SECOND. set (r := t mod (86400 * 1000000)). quotient t (86400 * 1000000). fold r in H, H0.
  set (s := r / 1000000). quotient r 1000000. fold s in H1. quotient s 60. quotient s 3600. quotient (s / 60) 60.
  assert (s / 3600 = s / 60 / 60) by (by rewrite Z.div_div). quotient t 1000000.
  assert (t mod 1000000 = r mod 1000000).
  { rewrite H. replace (86400 * 1000000 * (t / (86400 * 1000000)) + r) with (r + 86400 * (t / (86400 * 1000000)) * 1000000) by ring.
    by rewrite Z.mod_add by lia. }
  lia.
Qed.

Lemma nat_cut n n' b b' : 0 <= n -> 0 <= n' -> str_int n ++ tx "-" ++ b = str_int n' ++ tx "-" ++ b' -> n = n' /\ b = b'.
Proof.
  assert (D : forall k, 0 <= k -> 45 ∉ str_int k).
  { intros k K. replace (str_int k) with (zfill 0 k); [by intros X%zfill_digits|]. unfold str_int, zfill.
    by rewrite (proj2 (Z.ltb_ge k 0)). }
  intros N N' E. apply cut_inj in E as [E ->]; [|by apply D..]. split; [by apply str_int_inj | done].
Qed.

(** Instants with the same text are the same. *)
Lemma format_utc_inj t t' : MIN_INSTANT <= t -> MIN_INSTANT <= t' -> format_utc t = format_utc t' -> t = t'.
Proof.
  intros R R' E. unfold format_utc in E. pose proof (civil_spec (t / DAY)) as C. pose proof (civil_spec (t' / DAY)) as C'.
  pose proof (civil_inj (t / DAY) (t' / DAY)) as I. destruct (civil (t / DAY)) as [[y m] d], (civil (t' / DAY)) as [[y' m'] d'].
  destruct (parts_sum t) as (S & P1 & P2 & P3 & P4), (parts_sum t') as (S' & P1' & P2' & P3' & P4').
  assert (719468 + t / DAY >= 0 /\ 719468 + t' / DAY >= 0) as [D D'].
  { unfold MIN_INSTANT, DAY, SECOND in *. quotient t (86400 * 1000000). quotient t' (86400 * 1000000). lia. }
  apply nat_cut in E as [-> E]; [|lia..]. apply zfill_cut in E as [-> E]; [|lia..|done].
  apply zfill_cut in E as [-> E]; [|lia..|done]. apply zfill_cut in E as [E1 E]; [|lia..|done].
  apply zfill_cut in E as [E2 E]; [|lia..|done]. apply zfill_cut in E as [E3 E]; [|lia..|done].
  apply zfill_cut in E as [E4 _]; [|lia..|done]. specialize (I eq_refl). rewrite S, S', I, E1, E2, E3, E4. done.
Qed.
End PyTime.
