(* ===== verification/Crypto.v ===== *)
(** * Protection of sensitive fields ([services/crypto.py])

    Key rings, the envelopes of ciphertexts, phone numbers and fingerprints.
    AES-GCM and HMAC-SHA-256 are libraries: the class [Ciphers] has their
    functions and [CipherLaws] what the code relies on.  A nonce is an argument
    where the code draws it.  [json.loads] is an argument of the reading of a
    key ring: only the shape of the document it returns is the program's. *)

From stdpp Require Import sorting.
From S2P Require Import Prelude PyText Utf8.

(** What the ciphers compute: [encrypt key nonce plaintext aad], the decryption
    or its refusal, and the hexadecimal digest of a keyed hash. *)
Class Ciphers := {
  aesgcm_encrypt : bytes -> bytes -> bytes -> bytes -> bytes;
  aesgcm_decrypt : bytes -> bytes -> bytes -> bytes -> option bytes;
  hmac_sha256 : bytes -> bytes -> text
}.

Definition DIGEST : regex := rhex 64.

Class CipherLaws `{Ciphers} := {
  gcm_inverse : forall k n p a, aesgcm_decrypt k n (aesgcm_encrypt k n p a) a = Some p;
  gcm_tag : forall k n p a, len (aesgcm_encrypt k n p a) = len p + 16;
  digest_shape : forall k m, fullmatch DIGEST (hmac_sha256 k m) = true
}.

Inductive json :=
| JNull | JBool (b : bool) | JInt (n : Z) | JFloat | JStr (s : text)
| JList (l : list json) | JObj (items : list (text * json)).

(** [document.get(key)] of an object *)
Fixpoint json_get (key : text) (items : list (text * json)) : json :=
  match items with
  | [] => JNull
  | (k, v) :: rest => if teqb k key then v else json_get key rest
  end.

Module Crypto.

Definition NONCE_SIZE : Z := 12.
Definition TAG_SIZE : Z := 16.
Definition MAX_KEY_VERSION : Z := 32767.
Definition BOUND_ENVELOPE_MAGIC : bytes := tx "SME2".

(** [^1\d{10}$]; [\d] is any decimal digit. *)
Definition PHONE_PATTERN : regex := RCat (rlit "1") (rrep 10 (RClass is_digit)).
(** [^[a-z][a-z0-9_.-]{0,63}$] *)
Definition CONTEXT_COMPONENT_PATTERN : regex :=
  RCat (RClass ascii_lower)
       (rupto 63 (RClass (fun c => ascii_lower c || ascii_digit c || (c =? 95) || (c =? 46) || (c =? 45)))).

Definition UnknownKeyVersionError (version : Z) : exc :=
  Exc (tx "UnknownKeyVersionError") (tx "unknown key version: " ++ str_int version).
Definition InvalidTag : exc := Exc (tx "InvalidTag") [].

Record EncryptedValue := mkEncrypted { payload : bytes; key_version : Z }.
Record ProtectedPhone := mkPhone { phone_enc : bytes; phone_hmac_of : text; phone_mask : text; phone_version : Z }.
Record EncryptionContext := mkContext { domain : text; table : text; column : text; object_id : text }.

(** ** The context bound to a ciphertext *)

Definition check_component (label : string) (value : text) : result exc unit :=
  require (fullmatch CONTEXT_COMPONENT_PATTERN value)
    (Exc (tx "ValueError") (tx "encryption context " ++ tx label ++ tx " is invalid")).

(** [json.dumps(document, separators=(",", ":"), sort_keys=True)] *)
Definition aad_document (c : EncryptionContext) (version : Z) : text :=
  [123] ++ json_string (tx "column") ++ [58] ++ json_string (column c) ++ [44]
  ++ json_string (tx "domain") ++ [58] ++ json_string (domain c) ++ [44]
  ++ json_string (tx "key_version") ++ [58] ++ str_int version ++ [44]
  ++ json_string (tx "object_id") ++ [58] ++ json_string (object_id c) ++ [44]
  ++ json_string (tx "schema_version") ++ [58] ++ tx "2" ++ [44]
  ++ json_string (tx "table") ++ [58] ++ json_string (table c) ++ [125].

Definition canonical_aad (c : EncryptionContext) (version : Z) : result exc bytes :=
  _ ← check_component "domain" (domain c);
  _ ← check_component "table" (table c);
  _ ← check_component "column" (column c);
  id ← utf8_encode (object_id c);
  _ ← refuse (bool_decide (object_id c = []) || (256 <? len id)) (ValueError "encryption context object_id is invalid");
  doc ← utf8_encode (aad_document c version);
  Ok (tx "sms-platform:envelope:" ++ doc).

(** ** Key rings *)

Record ParsedKeyring := mkRing { ring_active : Z; ring_keys : gmap Z bytes }.

Definition ring_error (label : string) (msg : string) : exc := Exc (tx "ValueError") (tx label ++ tx msg).

Definition _decode_key (encoded : json) (label : string) (version : Z) : result exc bytes :=
  let error msg := Exc (tx "ValueError") (tx label ++ tx " key version " ++ str_int version ++ tx msg) in
  match encoded with
  | JStr s =>
      match b64decode s with
      | Raise _ => Raise (error " is not valid base64")
      | Ok key => if len key =? 32 then Ok key else Raise (error " must decode to 32 bytes")
      end
  | _ => Raise (error " must be base64 text")
  end.

(** The loop over the items of the object. *)
Fixpoint decode_keys (label : string) (raw : list (text * json)) (keys : gmap Z bytes) : result exc (gmap Z bytes) :=
  match raw with
  | [] => Ok keys
  | (raw_version, encoded) :: rest =>
      match py_int raw_version with
      | None => Raise (ring_error label " keyring version must be an integer")
      | Some version =>
          _ ← refuse (negb (teqb (str_int version) raw_version) || negb (between 1 MAX_KEY_VERSION version))
                (Exc (tx "ValueError") (tx label ++ tx " keyring version is invalid: " ++ raw_version));
          key ← _decode_key encoded label version;
          decode_keys label rest (<[version := key]> keys)
      end
  end.

Definition _parse_keyring (loads : text -> result exc json) (secret : text) (label : string) : result exc ParsedKeyring :=
  if negb (starts_with (tx "{") secret) then
    key ← _decode_key (JStr secret) label 1;
    Ok (mkRing 1 {[ 1 := key ]})
  else
  match loads secret with
  | Raise (Exc cls msg) =>
      if teqb cls (tx "JSONDecodeError") then Raise (ring_error label " keyring is not valid JSON") else Raise (Exc cls msg)
  | Ok (JObj document) =>
      match json_get (tx "active_version") document, json_get (tx "keys") document with
      | JInt active, raw_keys =>
          _ ← require (between 1 MAX_KEY_VERSION active) (ring_error label " keyring active key version is out of range");
          match raw_keys with
          | JObj ((_ :: _) as items) =>
              keys ← decode_keys label items ∅;
              _ ← require (bool_decide (is_Some (keys !! active))) (ring_error label " keyring active key version is missing");
              Ok (mkRing active keys)
          | _ => Raise (ring_error label " keyring keys must be a non-empty object")
          end
      | _, _ => Raise (ring_error label " keyring active_version must be an integer")
      end
  | Ok _ => Raise (ring_error label " keyring must be an object")
  end.

(** ** The service *)

Record CryptoService := mkService { aes_keys : gmap Z bytes; hmac_keys : gmap Z bytes; active_version : Z }.

Definition mismatch : exc := ValueError "AES/HMAC keyring version mismatch".
Definition make_service (aes hmac : gmap Z bytes) (active : Z) : result exc CryptoService :=
  _ ← refuse (negb (bool_decide (dom aes = dom hmac)) || negb (bool_decide (is_Some (aes !! active)))) mismatch;
  Ok (mkService aes hmac active).

Definition from_secret_values (loads : text -> result exc json) (aes_secret hmac_secret : text)
    : result exc CryptoService :=
  aes ← _parse_keyring loads aes_secret "AES";
  hmac ← _parse_keyring loads hmac_secret "HMAC";
  _ ← refuse (negb (ring_active aes =? ring_active hmac) || negb (bool_decide (dom (ring_keys aes) = dom (ring_keys hmac))))
        mismatch;
  make_service (ring_keys aes) (ring_keys hmac) (ring_active aes).

Definition sorted_versions (keys : gmap Z bytes) : list Z := merge_sort Z.le (elements (dom keys)).
Definition key_versions (s : CryptoService) : list Z := sorted_versions (aes_keys s).

Definition _aad (version : Z) : bytes := tx "sms-platform:data:v" ++ str_int version.
Definition find_key (keys : gmap Z bytes) (version : Z) : result exc bytes :=
  match keys !! version with Some k => Ok k | None => Raise (UnknownKeyVersionError version) end.
Definition _aes_key (s : CryptoService) : Z -> result exc bytes := find_key (aes_keys s).
Definition _hmac_key (s : CryptoService) : Z -> result exc bytes := find_key (hmac_keys s).

Section ciphers.
Context `{Ciphers}.

Definition gcm_decrypt (key nonce ciphertext aad : bytes) : result exc bytes :=
  match aesgcm_decrypt key nonce ciphertext aad with Some p => Ok p | None => Raise InvalidTag end.

Definition encrypt_bytes_legacy (s : CryptoService) (nonce plaintext : bytes) : result exc EncryptedValue :=
  let version := active_version s in
  key ← _aes_key s version;
  Ok (mkEncrypted (nonce ++ aesgcm_encrypt key nonce plaintext (_aad version)) version).

Definition decrypt_bytes_legacy (s : CryptoService) (payload : bytes) (version : Z) : result exc bytes :=
  key ← _aes_key s version;
  _ ← refuse (len payload <? NONCE_SIZE + TAG_SIZE) (ValueError "ciphertext payload is too short");
  gcm_decrypt key (take (Z.to_nat NONCE_SIZE) payload) (drop (Z.to_nat NONCE_SIZE) payload) (_aad version).

Definition encrypt_bound_bytes (s : CryptoService) (nonce plaintext : bytes) (context : EncryptionContext)
    : result exc EncryptedValue :=
  let version := active_version s in
  key ← _aes_key s version;
  aad ← canonical_aad context version;
  Ok (mkEncrypted (BOUND_ENVELOPE_MAGIC ++ nonce ++ aesgcm_encrypt key nonce plaintext aad) version).

Definition decrypt_bound_bytes (s : CryptoService) (payload : bytes) (version : Z) (context : EncryptionContext)
    (allow_legacy : bool) : result exc bytes :=
  if starts_with BOUND_ENVELOPE_MAGIC payload then
    let encrypted := drop (length BOUND_ENVELOPE_MAGIC) payload in
    _ ← refuse (len encrypted <? NONCE_SIZE + TAG_SIZE) (ValueError "bound ciphertext payload is too short");
    key ← _aes_key s version;
    aad ← canonical_aad context version;
    gcm_decrypt key (take (Z.to_nat NONCE_SIZE) encrypted) (drop (Z.to_nat NONCE_SIZE) encrypted) aad
  else if negb allow_legacy then Raise (ValueError "legacy ciphertext requires controlled migration")
  else decrypt_bytes_legacy s payload version.

Definition encrypt_text (s : CryptoService) (nonce : bytes) (plaintext : text) : result exc EncryptedValue :=
  p ← utf8_encode plaintext; encrypt_bytes_legacy s nonce p.
Definition decrypt_text (s : CryptoService) (payload : bytes) (version : Z) : result exc text :=
  p ← decrypt_bytes_legacy s payload version; utf8_decode_strict p.

Definition encrypt_bound_text (s : CryptoService) (nonce : bytes) (plaintext : text) (context : EncryptionContext)
    : result exc EncryptedValue :=
  p ← utf8_encode plaintext; encrypt_bound_bytes s nonce p context.
Definition decrypt_bound_text (s : CryptoService) (payload : bytes) (version : Z) (context : EncryptionContext)
    (allow_legacy : bool) : result exc text :=
  p ← decrypt_bound_bytes s payload version context allow_legacy; utf8_decode_strict p.

(** [n.to_bytes(2, "big")] and [int.from_bytes(b, "big")] *)
Definition version_bytes (n : Z) : result exc bytes :=
  if between 0 65535 n then Ok [n / 256; n mod 256] else Raise (Exc (tx "OverflowError") (tx "int too big to convert")).
Definition int_of_bytes (b : bytes) : Z := foldl (fun acc x => acc * 256 + x) 0 b.
Definition KEY_VERSION_BYTES : Z := 2.

Definition packed (e : EncryptedValue) : result exc bytes :=
  v ← version_bytes (key_version e); Ok (v ++ payload e).
Definition unpack (p : bytes) : result exc (Z * bytes) :=
  _ ← refuse (len p <=? KEY_VERSION_BYTES) (ValueError "packed ciphertext payload is too short");
  Ok (int_of_bytes (take 2 p), drop 2 p).

Definition encrypt_packed_text_legacy (s : CryptoService) (nonce : bytes) (plaintext : text) : result exc bytes :=
  e ← encrypt_text s nonce plaintext; packed e.
Definition decrypt_packed_text_legacy (s : CryptoService) (p : bytes) : result exc text :=
  '(version, body) ← unpack p; decrypt_text s body version.
Definition encrypt_bound_packed_text (s : CryptoService) (nonce : bytes) (plaintext : text) (context : EncryptionContext)
    : result exc bytes :=
  e ← encrypt_bound_text s nonce plaintext context; packed e.
Definition decrypt_bound_packed_text (s : CryptoService) (p : bytes) (context : EncryptionContext) (allow_legacy : bool)
    : result exc text :=
  '(version, body) ← unpack p; decrypt_bound_text s body version context allow_legacy.

(** The reads of the migrations, which log the context *)
Definition decrypt_bound_with_legacy_migration (s : CryptoService) (payload : bytes) (version : Z) (context : EncryptionContext)
    : result exc bytes := decrypt_bound_bytes s payload version context true.
Definition decrypt_bound_text_with_legacy_migration (s : CryptoService) (payload : bytes) (version : Z)
    (context : EncryptionContext) : result exc text :=
  p ← decrypt_bound_with_legacy_migration s payload version context; utf8_decode_strict p.
Definition decrypt_bound_packed_text_with_legacy_migration (s : CryptoService) (p : bytes) (context : EncryptionContext)
    : result exc text :=
  '(version, body) ← unpack p; decrypt_bound_text_with_legacy_migration s body version context.

(** ** Phone numbers *)

Definition _validate_phone (phone : text) : result exc unit :=
  require (fullmatch PHONE_PATTERN phone) (ValueError "phone must match ^1\d{10}$").

Definition mask_phone (phone : text) : result exc text :=
  _ ← _validate_phone phone;
  Ok (take 3 phone ++ tx "****" ++ drop (length phone - 4) phone).

(** [s.encode("ascii")] *)
Definition ascii_encode (s : text) : result exc bytes :=
  if forallb (between 0 127) s then Ok s else Raise (Exc (tx "UnicodeEncodeError") (tx "ordinal not in range(128)")).

Definition phone_hmac (s : CryptoService) (phone : text) (version : option Z) : result exc text :=
  _ ← _validate_phone phone;
  key ← _hmac_key s (default (active_version s) version);
  p ← ascii_encode phone;
  Ok (hmac_sha256 key p).

Fixpoint hmac_each (s : CryptoService) (phone : text) (versions : list Z) : result exc (list (Z * text)) :=
  match versions with
  | [] => Ok []
  | v :: rest => h ← phone_hmac s phone (Some v); t ← hmac_each s phone rest; Ok ((v, h) :: t)
  end.
Definition hmac_candidates (s : CryptoService) (phone : text) : result exc (list (Z * text)) :=
  _ ← _validate_phone phone;
  hmac_each s phone (sorted_versions (hmac_keys s)).

Definition idempotency_fingerprint (s : CryptoService) (request : bytes) (version : option Z) : result exc text :=
  _ ← refuse (bool_decide (request = [])) (ValueError "canonical request must be non-empty bytes");
  let v := default (active_version s) version in
  key ← _hmac_key s v;
  Ok (hmac_sha256 key (tx "sms-platform:idempotency-request:v1:key:" ++ str_int v ++ [0] ++ request)).

(** [min(self._hmac_keys)] *)
Definition oldest_version (s : CryptoService) : result exc Z :=
  match sorted_versions (hmac_keys s) with
  | [] => Raise (ValueError "min() iterable argument is empty")
  | v :: _ => Ok v
  end.

Definition stable_hmac_fingerprint (s : CryptoService) (value : bytes) (fingerprint_domain : text)
    : result exc (Z * text) :=
  _ ← refuse (bool_decide (value = [])) (ValueError "canonical value must be non-empty bytes");
  _ ← require (fullmatch CONTEXT_COMPONENT_PATTERN fingerprint_domain) (ValueError "fingerprint domain is invalid");
  version ← oldest_version s;
  key ← _hmac_key s version;
  Ok (version, hmac_sha256 key (tx "sms-platform:fingerprint:" ++ fingerprint_domain ++ tx ":v1:key:"
                                ++ str_int version ++ [0] ++ value)).

Definition phone_context (table column phone_hmac : text) : EncryptionContext := mkContext (tx "phone") table column phone_hmac.

Definition protect_phone (s : CryptoService) (nonce : bytes) (phone table column : text) : result exc ProtectedPhone :=
  _ ← _validate_phone phone;
  h ← phone_hmac s phone (Some (active_version s));
  e ← encrypt_bound_text s nonce phone (phone_context table column h);
  m ← mask_phone phone;
  Ok (mkPhone (payload e) h m (key_version e)).

Definition decrypt_phone (s : CryptoService) (payload : bytes) (version : Z) (hmac table column : text)
    (allow_legacy : bool) : result exc text :=
  _ ← require (fullmatch DIGEST hmac) (ValueError "phone_hmac is invalid");
  phone ← decrypt_bound_text s payload version (phone_context table column hmac) allow_legacy;
  _ ← _validate_phone phone;
  h ← phone_hmac s phone (Some version);
  _ ← require (teqb h hmac) (ValueError "phone ciphertext and HMAC mismatch");
  Ok phone.
End ciphers.
End Crypto.
