(* ===== verification/CryptoSafety.v ===== *)
(** * Protected fields are read back

    A protected text is read back with its context, what one service reads is
    read after any rotation that keeps its keys, and no text opens with another
    context unless AES-GCM accepts a forgery;
    a phone number is found by its index under every key that is kept; the
    fingerprints that identify facts do not depend on the active key. *)

From stdpp Require Import sorting.
From S2P Require Import Prelude PyText Utf8 PyTime Crypto.

Module CryptoSafety.
Import PyTime Crypto.

(** ** The context is determined by what is authenticated *)

Lemma json_string_cut s s' r r' : json_string s ++ r = json_string s' ++ r' -> s = s' /\ r = r'.
Proof.
  unfold json_string. rewrite <- !app_assoc. intros E. apply (app_inv_head [34]) in E. by apply json_string_head in E.
Qed.

Lemma aad_document_inj c v c' v' : aad_document c v = aad_document c' v' -> c = c' /\ v = v'.
Proof.
  unfold aad_document. intros E. destruct c as [d t col o], c' as [d' t' col' o']. cbn [column domain object_id table] in E.
  apply (app_inv_head [123]), json_string_cut in E as [_ E]. apply (app_inv_head [58]), json_string_cut in E as [-> E].
  apply (app_inv_head [44]), json_string_cut in E as [_ E]. apply (app_inv_head [58]), json_string_cut in E as [-> E].
  apply (app_inv_head [44]), json_string_cut in E as [_ E]. apply (app_inv_head [58]) in E.
  apply str_int_cut in E as [-> E]; [|done..].
  apply json_string_cut in E as [_ E]. apply (app_inv_head [58]), json_string_cut in E as [-> E].
  apply (app_inv_head [44]), json_string_cut in E as [_ E]. apply (app_inv_head [58]), (app_inv_head (tx "2")) in E.
  apply (app_inv_head [44]), json_string_cut in E as [_ E]. apply (app_inv_head [58]), json_string_cut in E as [-> _].
  done.
Qed.

Lemma canonical_aad_inj c v c' v' a : canonical_aad c v = Ok a -> canonical_aad c' v' = Ok a -> c = c' /\ v = v'.
Proof.
  assert (D : forall c v, canonical_aad c v = Ok a ->
    exists d, utf8_encode (aad_document c v) = Ok d /\ a = tx "sms-platform:envelope:" ++ d).
  { clear c v c' v'. intros c v H. unfold canonical_aad in H. repeat (apply bind_ok in H as (? & ? & H)).
    injection H as <-. by eexists. }
  intros (d & E & ->)%D (d' & E' & X)%D. apply (app_inv_head (tx "sms-platform:envelope:")) in X as <-.
  eapply aad_document_inj, utf8_encode_inj; [exact E | exact E'].
Qed.

Section laws.
Context `{CipherLaws}.

(** ** Round trips *)

(** The service [s'] still has the keys of a version of [s]. *)
Definition keeps (s s' : CryptoService) (version : Z) : Prop :=
  aes_keys s' !! version = aes_keys s !! version /\ hmac_keys s' !! version = hmac_keys s !! version.

Lemma len_take (b : bytes) : len b = 12 -> Z.to_nat NONCE_SIZE = length b.
Proof. unfold len. intros E. change (Z.to_nat NONCE_SIZE) with 12%nat. lia. Qed.

Lemma open_envelope k nonce p aad : len nonce = 12 ->
  let e := nonce ++ aesgcm_encrypt k nonce p aad in
  (len e <? NONCE_SIZE + TAG_SIZE) = false /\
  gcm_decrypt k (take (Z.to_nat NONCE_SIZE) e) (drop (Z.to_nat NONCE_SIZE) e) aad = Ok p.
Proof.
  intros N. cbv zeta. split.
  - apply Z.ltb_ge. rewrite len_app, gcm_tag, N. pose proof (len_nonneg p). unfold NONCE_SIZE, TAG_SIZE. lia.
  - rewrite (len_take nonce) by done. rewrite take_app_length, drop_app_length. unfold gcm_decrypt. by rewrite gcm_inverse.
Qed.

Lemma encrypt_bound_ok s nonce p context e : encrypt_bound_bytes s nonce p context = Ok e ->
  exists k aad, aes_keys s !! active_version s = Some k /\ canonical_aad context (active_version s) = Ok aad /\
    e = mkEncrypted (BOUND_ENVELOPE_MAGIC ++ nonce ++ aesgcm_encrypt k nonce p aad) (active_version s).
Proof.
  unfold encrypt_bound_bytes. intros (k & K & (aad & A & [= <-])%bind_ok)%bind_ok. exists k, aad. unfold _aes_key, find_key in K.
  destruct (aes_keys s !! active_version s); by simplify_eq.
Qed.

Lemma decrypt_bound_magic s rest version context legacy :
  decrypt_bound_bytes s (BOUND_ENVELOPE_MAGIC ++ rest) version context legacy =
  (_ ← refuse (len rest <? NONCE_SIZE + TAG_SIZE) (ValueError "bound ciphertext payload is too short");
   key ← _aes_key s version;
   aad ← canonical_aad context version;
   gcm_decrypt key (take (Z.to_nat NONCE_SIZE) rest) (drop (Z.to_nat NONCE_SIZE) rest) aad).
Proof. reflexivity. Qed.

Lemma bound_bytes_round_trip s s' nonce p context legacy e : len nonce = 12 ->
  aes_keys s' !! active_version s = aes_keys s !! active_version s ->
  encrypt_bound_bytes s nonce p context = Ok e ->
  decrypt_bound_bytes s' (payload e) (key_version e) context legacy = Ok p.
Proof.
  intros N K (k & aad & Hk & A & ->)%encrypt_bound_ok. cbn [payload key_version].
  rewrite decrypt_bound_magic. destruct (open_envelope k nonce p aad N) as [L D]. rewrite L. simpl.
  unfold _aes_key, find_key. rewrite K, Hk, A. exact D.
Qed.

Lemma bound_text_trip s s' nonce p context legacy e : len nonce = 12 -> forallb code_point p = true ->
  aes_keys s' !! active_version s = aes_keys s !! active_version s ->
  encrypt_bound_text s nonce p context = Ok e ->
  decrypt_bound_text s' (payload e) (key_version e) context legacy = Ok p.
Proof.
  intros N P K (b & B & E)%bind_ok. unfold decrypt_bound_text.
  rewrite (bound_bytes_round_trip s s' nonce b context legacy e N K E). simpl. by eapply utf8_round_trip.
Qed.

Lemma version_bytes_trip n b rest : version_bytes n = Ok b -> rest <> [] -> unpack (b ++ rest) = Ok (n, rest).
Proof.
  unfold version_bytes, between. destruct (_ && _) eqn:R; [|done]. intros [= <-] E. bool_prop. unfold unpack.
  destruct rest as [|x rest]; [done|]. replace (_ <=? KEY_VERSION_BYTES) with false.
  2:{ symmetry. apply Z.leb_gt. unfold KEY_VERSION_BYTES, len. simpl. lia. }
  change (Ok (n / 256 * 256 + n mod 256, x :: rest) = Ok (n, x :: rest) :> result exc (Z * bytes)).
  pose proof (Z.div_mod n 256 ltac:(lia)). do 2 f_equal. lia.
Qed.

(** C36: A text sealed into one field, its key version in front, is read back
    with its context by every service that still has the key, in particular
    after the active key was rotated, whether or not the reader admits the
    envelopes of before the contexts. *)
Theorem packed_round_trip s s' nonce p context legacy b : len nonce = 12 -> forallb code_point p = true ->
  aes_keys s' !! active_version s = aes_keys s !! active_version s ->
  encrypt_bound_packed_text s nonce p context = Ok b ->
  decrypt_bound_packed_text s' b context legacy = Ok p.
Proof.
  intros N P K (e & E & (v & V & [= <-])%bind_ok)%bind_ok. unfold decrypt_bound_packed_text.
  pose proof (bound_text_trip s s' nonce p context legacy e N P K E) as D.
  rewrite (version_bytes_trip (key_version e)); [exact D | exact V|].
  apply bind_ok in E as (? & _ & (? & ? & _ & _ & ->)%encrypt_bound_ok). done.
Qed.

(** ** A ciphertext belongs to its context *)

(** AES-GCM accepts a ciphertext under associated data it was not made with. *)
Definition forgery (k nonce p aad aad' p' : bytes) : Prop :=
  aad' <> aad /\ aesgcm_decrypt k nonce (aesgcm_encrypt k nonce p aad) aad' = Some p'.

(** C35: A ciphertext sealed for one context (domain, table, column and object)
    opens, by the same service and under the version it was made with, for no
    other context, and to nothing but what was sealed, unless AES-GCM accepts,
    under the key of the service for that version, the associated data of the
    one context for a ciphertext made with those of the other, which differ:
    different contexts never give the same associated data. *)
Theorem bound_to_context s nonce p context context' legacy e p' : len nonce = 12 ->
  encrypt_bound_bytes s nonce p context = Ok e ->
  decrypt_bound_bytes s (payload e) (key_version e) context' legacy = Ok p' ->
  context' = context /\ p' = p \/
  context' <> context /\ exists k aad aad',
    aes_keys s !! key_version e = Some k /\
    canonical_aad context (key_version e) = Ok aad /\ canonical_aad context' (key_version e) = Ok aad' /\
    forgery k nonce p aad aad' p'.
Proof.
  intros N (k & aad & K & A & ->)%encrypt_bound_ok. cbn [payload key_version]. rewrite decrypt_bound_magic.
  destruct (open_envelope k nonce p aad N) as [L D]. rewrite L. simpl. unfold _aes_key, find_key. rewrite K. simpl.
  intros (aad' & A' & G)%bind_ok. rewrite (len_take nonce), take_app_length, drop_app_length in G by done.
  destruct (decide (aad' = aad)) as [->|Ne].
  - left. destruct (canonical_aad_inj context' _ context _ aad A' A) as [-> _]. split; [done|].
    unfold gcm_decrypt in G. rewrite gcm_inverse in G. by injection G.
  - right. split; [intros ->; congruence|]. exists k, aad, aad'. split_and!; [done..|]. split; [done|].
    unfold gcm_decrypt in G. case_match; by simplify_eq.
Qed.

(** ** Rotation of keys *)

(** [s'] has every key of [s], and its further versions are newer. *)
Definition grown (s s' : CryptoService) : Prop :=
  (forall v k, aes_keys s !! v = Some k -> aes_keys s' !! v = Some k) /\
  (forall v k, hmac_keys s !! v = Some k -> hmac_keys s' !! v = Some k) /\
  (forall v w, is_Some (hmac_keys s' !! v) -> hmac_keys s !! v = None -> is_Some (hmac_keys s !! w) -> w < v).

Lemma sorted_versions_in keys v : v ∈ sorted_versions keys <-> is_Some (keys !! v).
Proof. unfold sorted_versions. rewrite merge_sort_Permutation, elem_of_elements. by rewrite elem_of_dom. Qed.

Lemma oldest_least s v : oldest_version s = Ok v ->
  is_Some (hmac_keys s !! v) /\ forall w, is_Some (hmac_keys s !! w) -> v <= w.
Proof.
  unfold oldest_version. intros E. pose proof (Sorted_merge_sort Z.le (elements (dom (hmac_keys s)))) as S.
  apply Sorted_StronglySorted in S; [|intros ???; lia]. fold (sorted_versions (hmac_keys s)) in S.
  destruct (sorted_versions (hmac_keys s)) as [|u l] eqn:L; [done|]. injection E as ->. split.
  - apply sorted_versions_in. rewrite L. apply list_elem_of_here.
  - intros w W. apply sorted_versions_in in W. rewrite L in W. apply elem_of_cons in W as [->|W]; [lia|].
    inversion_clear S as [|? ? _ F]. by eapply Forall_forall in F.
Qed.

Lemma oldest_grown s s' v : grown s s' -> oldest_version s = Ok v -> oldest_version s' = Ok v.
Proof.
  intros (_ & K & Newer) [[k Hk] Least]%oldest_least. pose proof (K v k Hk) as Hk'.
  assert (I : v ∈ sorted_versions (hmac_keys s')) by (by apply sorted_versions_in; exists k).
  destruct (oldest_version s') as [u|e] eqn:E.
  2:{ unfold oldest_version in E. destruct (sorted_versions (hmac_keys s')); [by apply elem_of_nil in I | done]. }
  pose proof (oldest_least s' u E) as [U Least']. assert (u <= v) by (apply Least'; by exists k).
  destruct (hmac_keys s !! u) as [ku|] eqn:Hu.
  - assert (v <= u) by (apply Least; by exists ku). f_equal. lia.
  - assert (v < u) by (apply Newer; [done | done | by exists k]). lia.
Qed.

(** The fingerprints of facts do not depend on the active key. *)
Lemma fingerprint_grown s s' value d f : grown s s' -> stable_hmac_fingerprint s value d = Ok f ->
  stable_hmac_fingerprint s' value d = Ok f.
Proof.
  intros G. unfold stable_hmac_fingerprint. intros (? & V & (? & D & (v & O & (k & K & F)%bind_ok)%bind_ok)%bind_ok)%bind_ok.
  rewrite V. simpl. rewrite D. simpl. rewrite (oldest_grown s s' v G O). simpl. unfold _hmac_key, find_key in *.
  destruct (hmac_keys s !! v) as [k'|] eqn:Hk; [|done]. injection K as ->. destruct G as (_ & G & _). by rewrite (G v k Hk).
Qed.

Lemma phone_hmac_grown s s' phone v h : grown s s' -> phone_hmac s phone (Some v) = Ok h -> phone_hmac s' phone (Some v) = Ok h.
Proof.
  intros (_ & G & _). unfold phone_hmac. intros (? & V & (k & K & F)%bind_ok)%bind_ok. rewrite V. simpl in *.
  unfold _hmac_key, find_key in *. destruct (hmac_keys s !! v) as [k'|] eqn:Hk; [|done]. injection K as ->. by rewrite (G v k Hk).
Qed.

Lemma hmac_each_ok s phone vs : fullmatch PHONE_PATTERN phone = true -> ascii_encode phone = Ok phone ->
  Forall (fun v => is_Some (hmac_keys s !! v)) vs -> exists l, hmac_each s phone vs = Ok l /\
  forall v h, v ∈ vs -> phone_hmac s phone (Some v) = Ok h -> (v, h) ∈ l.
Proof.
  intros P A. induction vs as [|v vs IH]; intros F; [exists []; split; [done|]; by intros ? ? ?%elem_of_nil|].
  inversion_clear F as [|? ? [k Hk] F']. destruct (IH F') as (l & E & I).
  assert (Hv : phone_hmac s phone (Some v) = Ok (hmac_sha256 k phone)).
  { unfold phone_hmac, _validate_phone, _hmac_key, find_key. rewrite P. simpl. rewrite Hk. simpl. by rewrite A. }
  exists ((v, hmac_sha256 k phone) :: l). cbn [hmac_each]. rewrite Hv, E. split; [done|].
  intros w h [->|W]%elem_of_cons Hh; [rewrite Hv in Hh; injection Hh as <-; apply list_elem_of_here|].
  apply list_elem_of_further. auto.
Qed.

Lemma ascii_encode_ok p b : ascii_encode p = Ok b -> b = p /\ forallb (between 0 127) p = true.
Proof. unfold ascii_encode. destruct (forallb _ p) eqn:E; [by intros [= <-] | done]. Qed.

Lemma ascii_code_points p : forallb (between 0 127) p = true -> forallb code_point p = true.
Proof. intros A. apply forallb_forall. rewrite forallb_forall in A. intros c C%A. unfold code_point, between in *. bool_prop. by decide_bools. Qed.

Lemma protect_phone_ok s nonce phone t c p : protect_phone s nonce phone t c = Ok p ->
  fullmatch PHONE_PATTERN phone = true /\ forallb (between 0 127) phone = true /\
  phone_hmac s phone (Some (active_version s)) = Ok (phone_hmac_of p) /\ phone_version p = active_version s /\
  exists e, encrypt_bound_text s nonce phone (phone_context t c (phone_hmac_of p)) = Ok e /\
    phone_enc p = payload e /\ key_version e = active_version s.
Proof.
  unfold protect_phone. intros (? & V & (h & Hh & (e & E & (m & M & [= <-])%bind_ok)%bind_ok)%bind_ok)%bind_ok.
  assert (Ve : key_version e = active_version s).
  { apply bind_ok in E as (? & _ & (? & ? & _ & _ & ->)%encrypt_bound_ok). done. }
  cbn [phone_hmac_of phone_version phone_enc]. split; [by apply require_ok in V|]. split; [|by eauto 10].
  unfold phone_hmac in Hh. apply bind_ok in Hh as (? & _ & (? & _ & (? & A & _)%bind_ok)%bind_ok).
  by apply ascii_encode_ok in A as [_ A].
Qed.

(** An index made under a kept key is among the candidates. *)
Lemma candidate_kept s s' phone v h : grown s s' -> forallb (between 0 127) phone = true ->
  phone_hmac s phone (Some v) = Ok h -> exists l, hmac_candidates s' phone = Ok l /\ (v, h) ∈ l.
Proof.
  intros G A Hh. pose proof (phone_hmac_grown s s' _ _ _ G Hh) as Hh'.
  assert (P : fullmatch PHONE_PATTERN phone = true) by (by apply bind_ok in Hh as (? & ?%require_ok & _)).
  unfold hmac_candidates, _validate_phone. rewrite P. simpl.
  destruct (hmac_each_ok s' phone (sorted_versions (hmac_keys s')) P) as (l & L & I); [unfold ascii_encode; by rewrite A | |].
  { apply Forall_forall. intros w W. by apply sorted_versions_in. }
  exists l. split; [exact L|]. apply I; [|exact Hh']. apply sorted_versions_in.
  apply bind_ok in Hh' as (? & _ & (k & K & _)%bind_ok). simpl in K.
  unfold _hmac_key, find_key in K. destruct (hmac_keys s' !! v); [by eexists | done].
Qed.

Lemma aes_key_grown s s' v k : grown s s' -> _aes_key s v = Ok k -> _aes_key s' v = Ok k.
Proof. intros (G & _ & _). unfold _aes_key, find_key. destruct (aes_keys s !! v) as [k'|] eqn:E; [|done]. by rewrite (G v k' E). Qed.

Lemma legacy_grown s s' c v b : grown s s' -> decrypt_bytes_legacy s c v = Ok b -> decrypt_bytes_legacy s' c v = Ok b.
Proof. intros G (k & K & D)%bind_ok. unfold decrypt_bytes_legacy. by rewrite (aes_key_grown s s' v k G K). Qed.

Lemma bound_grown s s' c v context legacy b : grown s s' -> decrypt_bound_bytes s c v context legacy = Ok b ->
  decrypt_bound_bytes s' c v context legacy = Ok b.
Proof.
  intros G. unfold decrypt_bound_bytes. destruct (starts_with _ _); [|destruct (negb legacy); [done|by apply legacy_grown]].
  intros (? & R & (k & K & D)%bind_ok)%bind_ok. rewrite R. simpl. by rewrite (aes_key_grown s s' v k G K).
Qed.

Lemma bound_text_grown s s' c v context legacy p : grown s s' -> decrypt_bound_text s c v context legacy = Ok p ->
  decrypt_bound_text s' c v context legacy = Ok p.
Proof. intros G (b & B & D)%bind_ok. unfold decrypt_bound_text. by rewrite (bound_grown s s' _ _ _ _ _ G B). Qed.

Lemma phone_grown s s' c v h t col legacy phone : grown s s' -> decrypt_phone s c v h t col legacy = Ok phone ->
  decrypt_phone s' c v h t col legacy = Ok phone.
Proof.
  intros G (? & R & (x & B & (? & V & (y & Y & D)%bind_ok)%bind_ok)%bind_ok)%bind_ok. unfold decrypt_phone.
  rewrite R. simpl. rewrite (bound_text_grown s s' _ _ _ _ _ G B). simpl. rewrite V. simpl. by rewrite (phone_hmac_grown s s' _ _ _ G Y).
Qed.

Lemma protected_read s nonce phone t c p legacy : len nonce = 12 -> protect_phone s nonce phone t c = Ok p ->
  decrypt_phone s (phone_enc p) (phone_version p) (phone_hmac_of p) t c legacy = Ok phone.
Proof.
  intros N (P & A & Hh & Pv & e & E & Pe & Ve)%protect_phone_ok. unfold decrypt_phone.
  assert (S : fullmatch DIGEST (phone_hmac_of p) = true).
  { unfold phone_hmac in Hh. apply bind_ok in Hh as (? & _ & (? & _ & (? & _ & [= <-])%bind_ok)%bind_ok). apply digest_shape. }
  rewrite S. simpl. rewrite Pe, Pv, <- Ve.
  rewrite (bound_text_trip s s nonce phone _ legacy e N (ascii_code_points _ A)) by done.
  simpl. unfold _validate_phone. rewrite P. simpl. rewrite Ve, Hh. simpl. by rewrite teqb_refl.
Qed.

(** C34: Rotating the keys loses nothing.  Take a service that has every key of
    another one and whose further versions are newer.  Every ciphertext the
    other reads, bound to a context, of before the contexts, packed with its
    version or of a phone number, it reads to the same plaintext; each phone
    number the other protects it decrypts, and finds the stored index of the
    number among the candidates it looks up; and it gives a request under a
    stated version, and every fact, the fingerprint the other gave it. *)
Theorem rotation_transparent s s' : grown s s' ->
  (forall c v context legacy b, decrypt_bound_bytes s c v context legacy = Ok b ->
     decrypt_bound_bytes s' c v context legacy = Ok b) /\
  (forall c v b, decrypt_bytes_legacy s c v = Ok b -> decrypt_bytes_legacy s' c v = Ok b) /\
  (forall c context legacy p, decrypt_bound_packed_text s c context legacy = Ok p ->
     decrypt_bound_packed_text s' c context legacy = Ok p) /\
  (forall c p, decrypt_packed_text_legacy s c = Ok p -> decrypt_packed_text_legacy s' c = Ok p) /\
  (forall c v h t col legacy phone, decrypt_phone s c v h t col legacy = Ok phone ->
     decrypt_phone s' c v h t col legacy = Ok phone) /\
  (forall nonce phone t col p legacy, len nonce = 12 -> protect_phone s nonce phone t col = Ok p ->
     decrypt_phone s' (phone_enc p) (phone_version p) (phone_hmac_of p) t col legacy = Ok phone /\
     exists l, hmac_candidates s' phone = Ok l /\ (phone_version p, phone_hmac_of p) ∈ l) /\
  (forall request v f, idempotency_fingerprint s request (Some v) = Ok f ->
     idempotency_fingerprint s' request (Some v) = Ok f) /\
  (forall value d f, stable_hmac_fingerprint s value d = Ok f -> stable_hmac_fingerprint s' value d = Ok f).
Proof.
  intros G. split_and!.
  - intros *. by apply bound_grown.
  - intros *. by apply legacy_grown.
  - intros c context legacy p ([v body] & U & D)%bind_ok. unfold decrypt_bound_packed_text. rewrite U. simpl.
    by apply (bound_text_grown s s').
  - intros c p ([v body] & U & (b & B & D)%bind_ok)%bind_ok. unfold decrypt_packed_text_legacy, decrypt_text. rewrite U. simpl.
    by rewrite (legacy_grown s s' _ _ _ G B).
  - intros *. by apply phone_grown.
  - intros nonce phone t col p legacy N P. split; [by apply (phone_grown s s'), (protected_read s nonce)|].
    apply protect_phone_ok in P as (_ & A & Hh & Pv & _). rewrite Pv. by eapply candidate_kept.
  - intros request v f (? & R & (k & K & D)%bind_ok)%bind_ok. unfold idempotency_fingerprint. rewrite R. simpl in *.
    unfold _hmac_key, find_key in *. destruct (hmac_keys s !! v) as [k'|] eqn:Hk; [|done]. injection K as ->.
    destruct G as (_ & G & _). by rewrite (G v k Hk).
  - intros *. by apply fingerprint_grown.
Qed.
End laws.

(** ** Key rings *)

Definition key_ok (k : bytes) : Prop := len k = 32 /\ forallb is_byte k = true.
Definition keys_ok (keys : gmap Z bytes) : Prop := forall v k, keys !! v = Some k -> 1 <= v <= MAX_KEY_VERSION /\ key_ok k.

Lemma decode_key_ok encoded label v k : _decode_key encoded label v = Ok k -> key_ok k.
Proof.
  unfold _decode_key. destruct encoded; try done. destruct (b64decode s) as [key|] eqn:B; [|done].
  destruct (Z.eqb_spec (len key) 32); [|done]. intros [= <-]. split; [done | by eapply b64decode_bytes].
Qed.

Lemma decode_keys_ok label raw : forall keys keys', keys_ok keys -> decode_keys label raw keys = Ok keys' -> keys_ok keys'.
Proof.
  induction raw as [|[v e] raw IH]; intros keys keys' K E; cbn [decode_keys] in E; [by simplify_eq|].
  destruct (py_int v) as [n|]; [|done]. apply bind_ok in E as (? & R & (k & D & E)%bind_ok). apply refuse_ok in R.
  apply orb_false_iff in R as [_ R]. apply negb_false_iff in R. unfold between in R. bool_prop.
  eapply IH; [|exact E]. intros w k' [[<- <-]|[_ L]]%lookup_insert_Some; [split; [lia | by eapply decode_key_ok] | by apply K].
Qed.

Lemma parse_keyring_ok loads secret label r : _parse_keyring loads secret label = Ok r ->
  keys_ok (ring_keys r) /\ is_Some (ring_keys r !! ring_active r).
Proof.
  unfold _parse_keyring. destruct (negb _).
  { intros (k & D & [= <-])%bind_ok. simpl. split; [|by rewrite lookup_singleton_eq]. intros v k' [<- <-]%lookup_singleton_Some.
    split; [done | by eapply decode_key_ok]. }
  destruct (loads secret) as [[]|[cls msg]]; try done; [|by case_match]. destruct (json_get (tx "active_version") items); try done.
  intros (? & _ & E)%bind_ok. destruct (json_get (tx "keys") items) as [| | | | | |[|i l]]; try done.
  apply bind_ok in E as (keys & D & (? & R & [= <-])%bind_ok). apply require_ok, bool_decide_eq_true in R.
  split; [|exact R]. eapply decode_keys_ok; [|exact D]. done.
Qed.

(** Whatever the two secrets hold, a service that is built from them has
    the same versions of AES and HMAC keys, the active one among them, every
    version between 1 and 32767 and every key thirty-two bytes long; anything
    else is refused. *)
Theorem keyring_sound loads aes_secret hmac_secret s : from_secret_values loads aes_secret hmac_secret = Ok s ->
  dom (aes_keys s) = dom (hmac_keys s) /\ is_Some (aes_keys s !! active_version s) /\
  keys_ok (aes_keys s) /\ keys_ok (hmac_keys s).
Proof.
  unfold from_secret_values, make_service.
  intros (aes & A & (hm & B & (? & _ & (? & R & [= <-])%bind_ok)%bind_ok)%bind_ok)%bind_ok. simpl.
  apply refuse_ok, orb_false_iff in R as [R1 R2]. apply negb_false_iff, bool_decide_eq_true in R1, R2.
  apply parse_keyring_ok in A as [A _], B as [B _]. done.
Qed.

(** ** An example: a cipher with a check sum *)

Definition sum_tag (k n a : bytes) : bytes := replicate 15 0 ++ [sumZ (k ++ n ++ a) mod 256].
Definition sum_ciphers : Ciphers := {|
  aesgcm_encrypt k n p a := p ++ sum_tag k n a;
  aesgcm_decrypt k n c a :=
    if bool_decide (drop (length c - 16) c = sum_tag k n a) then Some (take (length c - 16) c) else None;
  hmac_sha256 k m := replicate 64 (48 + sumZ (k ++ m) mod 10)
|}.

Lemma sum_laws : @CipherLaws sum_ciphers.
Proof.
  split.
  - intros k n p a. simpl. assert (L : (length (p ++ sum_tag k n a) - 16)%nat = length p).
    { rewrite length_app. change (length (sum_tag k n a)) with 16%nat. lia. }
    rewrite L, drop_app_length, take_app_length. by rewrite bool_decide_eq_true_2.
  - intros k n p a. cbn [aesgcm_encrypt sum_ciphers]. by rewrite len_app.
  - intros k m. cbn [hmac_sha256 sum_ciphers]. pose proof (Z.mod_pos_bound (sumZ (k ++ m)) 10 ltac:(lia)) as B.
    set (d := sumZ (k ++ m) mod 10) in *. clearbody d.
    assert (D : d = 0 \/ d = 1 \/ d = 2 \/ d = 3 \/ d = 4 \/ d = 5 \/ d = 6 \/ d = 7 \/ d = 8 \/ d = 9) by lia.
    repeat destruct D as [->|D]; [vm_compute; reflexivity..|]. subst d. vm_compute. reflexivity.
Qed.

#[local] Existing Instance sum_ciphers.
#[local] Existing Instance sum_laws.

Definition old_key : bytes := replicate 32 7.
Definition new_key : bytes := replicate 32 9.
Definition first_service : CryptoService := mkService {[ 1 := old_key ]} {[ 1 := old_key ]} 1.
Definition second_service : CryptoService :=
  mkService {[ 1 := old_key; 2 := new_key ]} {[ 1 := old_key; 2 := new_key ]} 2.
Definition example_nonce : bytes := replicate 12 5.
Definition example_phone : text := tx "13800000000".
Definition example_context : EncryptionContext := mkContext (tx "phone") (tx "sms_message") (tx "phone_enc") (tx "x").

Lemma example_grown : grown first_service second_service.
Proof.
  split; [|split]; cbn [aes_keys hmac_keys first_service second_service].
  - by intros v k [<- <-]%lookup_singleton_Some.
  - by intros v k [<- <-]%lookup_singleton_Some.
  - intros v w [k [[<- <-]|[N L]]%lookup_insert_Some] E [k' [<- <-]%lookup_singleton_Some]; [done|].
    apply lookup_singleton_Some in L as [<- <-]. lia.
Qed.

Lemma packed_round_trip_witness : exists b, encrypt_bound_packed_text first_service example_nonce example_phone example_context = Ok b /\
  decrypt_bound_packed_text second_service b example_context false = Ok example_phone.
Proof.
  destruct (encrypt_bound_packed_text first_service example_nonce example_phone example_context) as [b|e] eqn:E.
  2:{ vm_compute in E. discriminate E. }
  exists b. split; [reflexivity|]. apply (packed_round_trip first_service second_service example_nonce); [reflexivity | reflexivity | reflexivity | exact E].
Defined.

(** The check sum is a bad tag: it accepts a context whose letters are those of
    another one in a different order. *)
Definition mixed_context : EncryptionContext := mkContext (tx "phone") (tx "sms_message") (tx "phone_cen") (tx "x").

Lemma bound_to_context_witness : exists e, encrypt_bound_bytes first_service example_nonce [1; 2] example_context = Ok e /\
  mixed_context <> example_context /\ exists k aad aad', aes_keys first_service !! key_version e = Some k /\
    canonical_aad example_context (key_version e) = Ok aad /\ canonical_aad mixed_context (key_version e) = Ok aad' /\
    forgery k example_nonce [1; 2] aad aad' [1; 2].
Proof.
  destruct (encrypt_bound_bytes first_service example_nonce [1; 2] example_context) as [e|] eqn:E; [|vm_compute in E; discriminate E].
  exists e. split; [reflexivity|].
  destruct (bound_to_context first_service example_nonce [1; 2] example_context mixed_context false e [1; 2] eq_refl E) as [[X _]|F].
  - vm_compute in E. injection E as <-. vm_compute. reflexivity.
  - discriminate X.
  - exact F.
Defined.

Lemma rotation_transparent_witness : exists p, protect_phone first_service example_nonce example_phone (tx "sms_message") (tx "phone_enc") = Ok p /\
  decrypt_phone second_service (phone_enc p) (phone_version p) (phone_hmac_of p) (tx "sms_message") (tx "phone_enc") false = Ok example_phone.
Proof.
  destruct (protect_phone first_service example_nonce example_phone (tx "sms_message") (tx "phone_enc")) as [p|] eqn:E;
    [|vm_compute in E; discriminate E].
  exists p. split; [reflexivity|].
  destruct (rotation_transparent first_service second_service example_grown) as (_ & _ & _ & _ & _ & R & _).
  exact (proj1 (R example_nonce example_phone _ _ p false eq_refl E)).
Defined.

Definition example_secret : text := tx "BwcHBwcHBwcHBwcHBwcHBwcHBwcHBwcHBwcHBwcHBwc=".
Definition no_json (s : text) : result exc json := Raise (Exc (tx "JSONDecodeError") []).

Lemma keyring_sound_witness : exists s, from_secret_values no_json example_secret example_secret = Ok s /\ keys_ok (aes_keys s).
Proof.
  destruct (from_secret_values no_json example_secret example_secret) as [s|] eqn:E; [|vm_compute in E; discriminate E].
  exists s. split; [reflexivity|]. exact (proj1 (proj2 (proj2 (keyring_sound no_json example_secret example_secret s E)))).
Defined.
End CryptoSafety.
