(* ===== verification/ReportParse.v ===== *)
(** * Reading the vendor's reports

    [vendor/identifiers.py], [services/masking.py] and the parsing side of
    [services/report_ingest.py]: an item of the vendor's answer becomes a
    [ProtectedReport] without plain identifiers, whose event key identifies the
    reported fact.

    [datetime.fromisoformat], the offset of the Shanghai time zone (the time
    zone database), SHA-256 and [str] of the values JSON has beside texts,
    numbers, booleans and [null] are arguments. *)

From stdpp Require Import sorting.
From S2P Require Import Prelude PyText Utf8 PyTime Crypto UsageStore ReportStore.

(** ** Identifiers of the vendor ([vendor/identifiers.py]) *)

Module Identifiers.
Import Crypto.

Definition word_char (c : Z) : bool := ascii_upper c || ascii_lower c || ascii_digit c.

(** [^[A-Za-z0-9_-]{1,64}$], [^[A-Za-z0-9]{0,36}$], [^[0-9]{0,6}$] *)
Definition VENDOR_TASK_ID : regex :=
  let c := RClass (fun c => word_char c || (c =? 95) || (c =? 45)) in RCat c (rupto 63 c).
Definition VENDOR_CUSTOM_ID : regex := rupto 36 (RClass word_char).
Definition VENDOR_EXT_CODE : regex := rupto 6 (RClass ascii_digit).
Definition VENDOR_IDENTIFIER_PSEUDONYM : regex := rhex 64.

(** [(?<![0-9A-Za-z])1\d{10}(?![0-9A-Za-z])] ([core/sensitive_text.py]) *)
Definition PHONE_AS_TOKEN (prev : option Z) (s : text) : option (text * text) :=
  if match prev with Some p => word_char p | None => false end then None else
  match s with
  | c :: s' =>
      if (c =? 49) && (length (take 10 s') =? 10)%nat && forallb is_digit (take 10 s')
         && match drop 10 s' with d :: _ => negb (word_char d) | [] => true end
      then Some (take 11 s, drop 11 s) else None
  | [] => None
  end.

Definition reject_phone_identifier (value : text) (field_name : string) : result exc unit :=
  require (no_match PHONE_AS_TOKEN None value) (Exc (tx "ValueError") (tx field_name ++ utx "不得包含手机号")).

Definition validate_vendor_task_id (value : text) : result exc text :=
  let normalized := strip value in
  _ ← require (fullmatch VENDOR_TASK_ID normalized) (ValueError "taskId format is invalid");
  _ ← reject_phone_identifier normalized "taskId";
  Ok normalized.

Definition validate_vendor_custom_id (value : text) : result exc text :=
  let normalized := strip value in
  _ ← require (fullmatch VENDOR_CUSTOM_ID normalized) (ValueError "customId format is invalid");
  _ ← reject_phone_identifier normalized "customId";
  Ok normalized.

Definition validate_vendor_ext_code (value : text) : result exc text :=
  _ ← require (fullmatch VENDOR_EXT_CODE value) (ValueError "extCode must be at most 6 digits");
  Ok value.

Section ciphers.
Context `{Ciphers}.

Definition vendor_identifier_pseudonym (s : CryptoService) (value domain : text) : result exc text :=
  b ← utf8_encode value;
  '(_, digest) ← stable_hmac_fingerprint s b domain;
  _ ← require (fullmatch VENDOR_IDENTIFIER_PSEUDONYM digest) (ValueError "vendor identifier fingerprint is invalid");
  Ok digest.

Definition protect_vendor_task_id (s : CryptoService) (value : text) : result exc (text * text) :=
  raw ← validate_vendor_task_id value;
  p ← vendor_identifier_pseudonym s raw (tx "vendor-task-id");
  Ok (raw, p).

Definition protect_vendor_custom_id (s : CryptoService) (value : text) : result exc (text * text) :=
  raw ← validate_vendor_custom_id value;
  if bool_decide (raw = []) then Ok ([], [])
  else p ← vendor_identifier_pseudonym s raw (tx "vendor-custom-id"); Ok (raw, p).

Definition degrade_vendor_identifier (s : CryptoService) (value domain : text) : result exc text :=
  vendor_identifier_pseudonym s (if bool_decide (value = []) then 0 :: tx "empty" else value) domain.
End ciphers.
End Identifiers.

Module ReportParse.
Import UsageStore.UsageStore(text_leb) Crypto Identifiers ReportStore.

(** [mask_phone_text] ([services/masking.py]) *)
Definition mask_phone_text (content : text) : text :=
  sub (phone_at is_digit) (fun m => take 3 m ++ tx "****" ++ drop (length m - 4) m) content.

(** Classes of exceptions below [ValueError] *)
Definition is_ValueError (e : exc) : bool :=
  let 'Exc cls _ := e in
  tmem cls [tx "ValueError"; tx "UnicodeEncodeError"; tx "UnicodeDecodeError"; tx "UnknownKeyVersionError"].

(** [try: r except ValueError: h] *)
Definition or_value_error {A} (r h : result exc A) : result exc A :=
  match r with
  | Ok a => Ok a
  | Raise e => if is_ValueError e then h else Raise e
  end.

(** [{str(key).strip(): value for key, value in item.items()}]: the last of
    two equal keys stays. *)
Definition _normalized (item : list (text * json)) : list (text * json) := (fun '(k, v) => (strip k, v)) <$> item.
Fixpoint last_value (key : text) (items : list (text * json)) : option json :=
  match items with
  | [] => None
  | (k, v) :: rest => match last_value key rest with
                      | Some w => Some w
                      | None => if teqb k key then Some v else None
                      end
  end.

(** [s.replace("Z", "+00:00")] *)
Definition replace_zulu (s : text) : text := s ≫= (fun c => if c =? 90 then tx "+00:00" else [c]).

(** [\d{4}-\d{2}-\d{2}[ T]\d{2}:\d{2}:\d{2}(?:\.\d{1,6})?] *)
Definition VENDOR_LOCAL_TIME : regex :=
  let d := RClass is_digit in
  rseq [rrep 4 d; rlit "-"; rrep 2 d; rlit "-"; rrep 2 d; RClass (fun c => (c =? 32) || (c =? 84));
        rrep 2 d; rlit ":"; rrep 2 d; rlit ":"; rrep 2 d; RAlt REps (rseq [rlit "."; d; rupto 5 d])].

Definition REPORT_STATUSES : list Z := [0; 1; 2; 3; 99].
Definition REQUIRED : list text :=
  [tx "taskId"; tx "customId"; tx "phone"; tx "reportStatus"; tx "reportDescription"; tx "reportTime"].

Section parse.
Context `{Ciphers}.
(** [datetime.fromisoformat]: the wall clock and the offset of an aware time *)
Context (fromisoformat : text -> option (Z * option Z)).
(** The offset of Asia/Shanghai at a wall clock *)
Context (shanghai_offset : Z -> Z).
(** [hashlib.sha256(b).hexdigest()] *)
Context (sha256 : bytes -> text).
(** [str] of a float, a list or an object *)
Context (other_str : json -> text).

Definition py_str (v : json) : text :=
  match v with
  | JStr s => s
  | JInt n => str_int n
  | JBool true => tx "True"
  | JBool false => tx "False"
  | JNull => tx "None"
  | _ => other_str v
  end.

(** The values of a fact, each behind the length of its encoding. *)
Fixpoint canonical (values : list text) : result exc text :=
  match values with
  | [] => Ok []
  | v :: rest =>
      b ← utf8_encode v;
      t ← canonical rest;
      Ok (str_int (len b) ++ tx ":" ++ v ++ t)
  end.

(** [report_time.astimezone(UTC)] *)
Definition to_utc (t : Z) : result exc Z :=
  if PyTime.in_range t then Ok t else Raise (Exc (tx "OverflowError") (tx "date value out of range")).

Definition _report_event_key (vendor_task_id custom_id canonical_phone_hmac : text) (report_status : Z)
    (report_desc : text) (report_time : Z) : result exc text :=
  t ← to_utc report_time;
  c ← canonical [vendor_task_id; custom_id; canonical_phone_hmac; str_int report_status; report_desc; PyTime.format_utc t];
  b ← utf8_encode c;
  Ok (sha256 b).

(** The instant of a report. *)
Definition parse_time (raw : text) : result exc Z :=
  match fromisoformat (replace_zulu raw) with
  | None => Raise (ValueError "reportTime format is invalid")
  | Some (wall, Some offset) => Ok (wall - offset)
  | Some (wall, None) =>
      _ ← require (fullmatch VENDOR_LOCAL_TIME raw) (ValueError "reportTime must include timezone");
      Ok (wall - shanghai_offset wall)
  end.

(** The task identifier for the event key, and the one that is stored. *)
Definition task_ids (s : CryptoService) (normalized : text) : result exc (text * text) :=
  or_value_error (protect_vendor_task_id s normalized)
    (p ← degrade_vendor_identifier s normalized (tx "vendor-task-id"); Ok (normalized, p)).

(** The identifier messages are matched by, empty if there is none, and the one
    that is stored. *)
Definition custom_ids (s : CryptoService) (normalized : text) : result exc (text * text) :=
  or_value_error
    (_ ← refuse (bool_decide (normalized = [])) (ValueError "customId is empty"); protect_vendor_custom_id s normalized)
    (p ← degrade_vendor_identifier s normalized (tx "vendor-custom-id"); Ok ([], p)).

Definition as_text (v : json) (error : string) : result exc text :=
  match v with JStr t => Ok t | _ => Raise (ValueError error) end.

(** [ReportIngestService._parse] of an item with its six fields *)
Definition parse_fields (s : CryptoService) (nonce : bytes) (task custom phone status desc time : json)
    : result exc ProtectedReport :=
  st ← match status with
       | JInt n => _ ← require (bool_decide (n ∈ REPORT_STATUSES)) (ValueError "reportStatus is outside the vendor contract"); Ok n
       | _ => Raise (ValueError "reportStatus must be an integer")
       end;
  raw_time ← as_text time "reportTime must be a string";
  report_time ← parse_time raw_time;
  let number := py_str phone in
  protected ← protect_phone s nonce number (tx "unmatched_report") (tx "phone_enc");
  candidates ← hmac_candidates s number;
  let report_desc := take 128 (mask_phone_text (py_str desc)) in
  raw_task ← as_text task "taskId must be a string";
  '(raw_task_id, vendor_task_id) ← task_ids s (strip raw_task);
  raw_custom ← as_text custom "customId must be a string";
  let normalized_custom := strip raw_custom in
  '(match_custom_id, custom_id) ← custom_ids s normalized_custom;
  oldest ← match candidates with
           | (_, h) :: _ => Ok h
           | [] => Raise (ValueError "min() iterable argument is empty")
           end;
  event_key ← _report_event_key raw_task_id normalized_custom oldest st report_desc report_time;
  Ok (mkReport event_key vendor_task_id custom_id match_custom_id (Crypto.phone_enc protected)
        (phone_hmac_of protected) (Crypto.phone_mask protected) (phone_version protected) st (_message_status st)
        report_desc report_time (snd <$> candidates) (tx "zhihui")).

Definition _parse (s : CryptoService) (nonce : bytes) (item : list (text * json)) : result exc ProtectedReport :=
  let value := _normalized item in
  match (fun k => last_value k value) <$> REQUIRED with
  | [Some task; Some custom; Some phone; Some status; Some desc; Some time] =>
      parse_fields s nonce task custom phone status desc time
  | _ => Raise (ValueError "report fields are incomplete")
  end.

(** [sorted] of a set of texts *)
Fixpoint insert_text (x : text) (l : list text) : list text :=
  match l with
  | [] => [x]
  | y :: l' => if teqb x y then l else if text_leb x y then x :: l else y :: insert_text x l'
  end.

Definition _collect_vendor_custom_ids (data : list (list (text * json))) : list text :=
  foldr insert_text [] (omap (fun item =>
    match last_value (tx "customId") (_normalized item) with
    | Some (JStr raw) => match validate_vendor_custom_id raw with
                         | Ok [] => None
                         | Ok n => Some n
                         | Raise _ => None
                         end
    | _ => None
    end) data).
End parse.
End ReportParse.
