(* ===== verification/ReportKey.v ===== *)
(** * The key of a reported fact

    Two parsed items with the same event key report the same fact, unless
    SHA-256 collides; the key of an item does not change when the keys of the
    platform are rotated; what is parsed satisfies the constraints of its table.
    So the events of the report tables are one row for each fact. *)

From S2P Require Import Prelude PyText Utf8 PyTime Crypto CryptoSafety ReportStore ReportSafety ReportParse.

Module ReportKey.
Import PyTime Crypto CryptoSafety Identifiers ReportStore ReportSafety ReportParse.

(** ** The text of a fact *)

Lemma utf8_width_pos c : 1 <= utf8_width c.
Proof. unfold utf8_width. repeat case_match; lia. Qed.

Lemma encoded_len_cons c v : len ((c :: v) ≫= utf8_char) = utf8_width c + len (v ≫= utf8_char).
Proof. change ((c :: v) ≫= utf8_char) with (utf8_char c ++ (v ≫= utf8_char)). by rewrite len_app, utf8_char_width. Qed.

(** Two beginnings of a text with encodings of the same length are the same. *)
Lemma same_beginning v : forall v' t t', v ++ t = v' ++ t' ->
  len (v ≫= utf8_char) = len (v' ≫= utf8_char) -> v = v' /\ t = t'.
Proof.
  induction v as [|c v IH]; intros [|c' v'] t t' E L; [done | | |].
  - rewrite encoded_len_cons in L. pose proof (utf8_width_pos c'). pose proof (len_nonneg (v' ≫= utf8_char)).
    change (len ([] ≫= utf8_char)) with 0 in L. lia.
  - rewrite encoded_len_cons in L. pose proof (utf8_width_pos c). pose proof (len_nonneg (v ≫= utf8_char)).
    change (len ([] ≫= utf8_char)) with 0 in L. lia.
  - simpl in E. injection E as -> E. rewrite !encoded_len_cons in L. destruct (IH v' t t' E) as [-> ->]; [lia | done].
Qed.

Lemma canonical_inj vs : forall vs' c, canonical vs = Ok c -> canonical vs' = Ok c -> vs = vs'.
Proof.
  assert (N : forall n x, [] <> str_int n ++ x).
  { intros n x E. symmetry in E. apply app_eq_nil in E as [X _]. pose proof (Redis.Redis.tonumber_str_int n) as T. rewrite X in T. done. }
  induction vs as [|v vs IH]; intros [|v' vs'] c E E'; cbn [canonical] in *.
  - done.
  - apply bind_ok in E' as (b & _ & (t & _ & X)%bind_ok). injection E as <-. injection X as X. symmetry in X. by apply N in X.
  - apply bind_ok in E as (b & _ & (t & _ & X)%bind_ok). injection E' as <-. injection X as X. symmetry in X. by apply N in X.
  - apply bind_ok in E as (b & B & (t & T & [= <-])%bind_ok). apply bind_ok in E' as (b' & B' & (t' & T' & X)%bind_ok).
    injection X as X. apply utf8_encode_ok in B as [_ ->], B' as [_ ->].
    apply str_int_cut in X as [L X]; [|done..]. symmetry in L. apply same_beginning in X as [-> ->]; [|done].
    by rewrite (IH vs' t).
Qed.

Section parse.
Context `{CipherLaws}.
Context (fromisoformat : text -> option (Z * option Z)) (shanghai_offset : Z -> Z).
Context (sha256 : bytes -> text) (other_str : json -> text).
Abbreviation _parse := (_parse fromisoformat shanghai_offset sha256 other_str).
Abbreviation parse_fields := (parse_fields fromisoformat shanghai_offset sha256 other_str).

Definition collision : Prop := exists b b', b <> b' /\ sha256 b = sha256 b'.

Lemma event_key_ok task custom hmac st desc t k : _report_event_key sha256 task custom hmac st desc t = Ok k ->
  in_range t = true /\ exists c b, canonical [task; custom; hmac; str_int st; desc; format_utc t] = Ok c /\
    utf8_encode c = Ok b /\ k = sha256 b.
Proof.
  unfold _report_event_key, to_utc. destruct (in_range t); [|done]. simpl.
  intros (c & C & (b & B & [= <-])%bind_ok)%bind_ok. split; [done|]. by exists c, b.
Qed.

Lemma event_key_inj task custom hmac st desc t task' custom' hmac' st' desc' t' k :
  _report_event_key sha256 task custom hmac st desc t = Ok k ->
  _report_event_key sha256 task' custom' hmac' st' desc' t' = Ok k ->
  (task = task' /\ custom = custom' /\ hmac = hmac' /\ st = st' /\ desc = desc' /\ t = t') \/ collision.
Proof.
  intros (R & c & b & C & B & ->)%event_key_ok (R' & c' & b' & C' & B' & E)%event_key_ok.
  destruct (decide (b = b')) as [<-|N]; [left | right; by exists b, b'].
  rewrite (utf8_encode_inj c' c b B' B) in C'. pose proof (canonical_inj _ _ _ C C') as X. injection X as -> -> -> X -> Y.
  apply Redis.Redis.str_int_inj in X as ->. unfold in_range, between in *. bool_prop.
  apply format_utc_inj in Y as ->; [done | lia | lia].
Qed.

(** What a parsed item shows. *)
Lemma parse_fields_ok s nonce task custom phone status desc time r :
  parse_fields s nonce task custom phone status desc time = Ok r ->
  exists raw_task raw_custom raw_time task_id h, task = JStr raw_task /\ custom = JStr raw_custom /\ time = JStr raw_time /\
    status = JInt (report_status r) /\ report_status r ∈ REPORT_STATUSES /\
    message_status r = _message_status (report_status r) /\
    parse_time fromisoformat shanghai_offset raw_time = Ok (report_time r) /\
    report_desc r = take 128 (mask_phone_text (py_str other_str desc)) /\
    task_ids s (strip raw_task) = Ok (task_id, vendor_task_id r) /\
    custom_ids s (strip raw_custom) = Ok (match_custom_id r, custom_id r) /\
    (exists p, protect_phone s nonce (py_str other_str phone) (tx "unmatched_report") (tx "phone_enc") = Ok p /\
       phone_hmac r = phone_hmac_of p /\ phone_mask r = Crypto.phone_mask p /\ key_version r = phone_version p) /\
    (exists l, hmac_candidates s (py_str other_str phone) = Ok l /\ phone_hmacs r = snd <$> l /\ head (snd <$> l) = Some h) /\
    _report_event_key sha256 task_id (strip raw_custom) h (report_status r) (report_desc r) (report_time r) = Ok (event_key r).
Proof.
  unfold ReportParse.parse_fields. intros (st & St & E)%bind_ok. destruct status; try done.
  apply bind_ok in St as (? & R%require_ok%bool_decide_eq_true & [= ->]). apply bind_ok in E as (raw_time & Rt & E).
  destruct time; try done. injection Rt as ->. apply bind_ok in E as (t & T & (p & P & (l & L & E)%bind_ok)%bind_ok). cbv zeta in E.
  apply bind_ok in E as (raw_task & Tk & ([task_id vt] & Ti & E)%bind_ok). destruct task; try done. injection Tk as ->.
  apply bind_ok in E as (raw_custom & Cu & ([mc ci] & Ci & E)%bind_ok). destruct custom; try done. injection Cu as ->.
  apply bind_ok in E as (h & Hh & (k & K & [= <-])%bind_ok). exists raw_task, raw_custom, raw_time, task_id, h. simpl.
  split_and!; try done; [by exists p|]. exists l. split_and!; [done | done|]. destruct l as [|[v h'] l]; [done|]. by injection Hh as ->.
Qed.

Lemma parse_ok s nonce item r : _parse s nonce item = Ok r -> exists task custom phone status desc time,
  parse_fields s nonce task custom phone status desc time = Ok r /\
  (fun k => last_value k (_normalized item)) <$> REQUIRED = Some <$> [task; custom; phone; status; desc; time].
Proof.
  unfold ReportParse._parse. intros E. repeat (case_match; try done). by eexists _, _, _, _, _, _.
Qed.

(** What the key of a parsed item was made from. *)
Lemma parsed_key s nonce item r : _parse s nonce item = Ok r -> exists task custom h,
  _report_event_key sha256 task custom h (report_status r) (report_desc r) (report_time r) = Ok (event_key r) /\
  message_status r = _message_status (report_status r) /\ head (phone_hmacs r) = Some h.
Proof.
  intros (? & ? & ? & ? & ? & ? & F & _)%parse_ok.
  apply parse_fields_ok in F as (? & c & ? & t & h & _ & _ & _ & _ & _ & M & _ & _ & _ & _ & _ & (l & _ & -> & Hh) & K).
  by exists t, (strip c), h.
Qed.

(** The event key identifies the reported fact.  If two items, read by the
    same or by different services with whatever keys, get the same key, then
    they report the same status, description and time for the same index of the
    phone number, unless two different texts with the same SHA-256 were found. *)
Theorem event_key_identifies s nonce item r s' nonce' item' r' :
  _parse s nonce item = Ok r -> _parse s' nonce' item' = Ok r' -> event_key r = event_key r' ->
  (report_status r = report_status r' /\ message_status r = message_status r' /\ report_desc r = report_desc r' /\
   report_time r = report_time r' /\ head (phone_hmacs r) = head (phone_hmacs r')) \/ collision.
Proof.
  intros (? & ? & h & K & M & Hh)%parsed_key (? & ? & h' & K' & M' & Hh')%parsed_key E. rewrite <- E in K'.
  destruct (event_key_inj _ _ _ _ _ _ _ _ _ _ _ _ _ K K') as [(_ & _ & -> & Es & Ed & Et)|C]; [left | by right].
  rewrite M, M', Hh, Hh', Es. done.
Qed.

(** The reports read from items are genuine. *)
Definition read_from (items : list (text * json) -> Prop) (r : ProtectedReport) : Prop :=
  exists s nonce item, items item /\ _parse s nonce item = Ok r.

Lemma read_genuine items : ~ collision -> genuine (read_from items).
Proof.
  intros N. split.
  - by intros r (s & nonce & item & _ & (? & ? & h & _ & M & _)%parsed_key).
  - intros r r' (s & nonce & item & _ & (? & ? & h & K & _)%parsed_key)
      (s' & nonce' & item' & _ & (? & ? & h' & K' & _)%parsed_key) E. rewrite <- E in K'.
    destruct (event_key_inj _ _ _ _ _ _ _ _ _ _ _ _ _ K K') as [(_ & _ & _ & ? & ? & ?)|C]; [done | by apply N in C].
Qed.

(** ** Rotation of the keys of the platform *)

(** A service as it is made from key rings. *)
Definition service_ok (s : CryptoService) : Prop :=
  dom (aes_keys s) = dom (hmac_keys s) /\ is_Some (aes_keys s !! active_version s) /\
  1 <= active_version s <= MAX_KEY_VERSION.

Lemma service_hmac s : service_ok s -> is_Some (hmac_keys s !! active_version s).
Proof. intros (D & A & _). apply elem_of_dom. rewrite <- D. by apply elem_of_dom. Qed.

Lemma service_oldest s : service_ok s -> exists v, oldest_version s = Ok v.
Proof.
  intros A%service_hmac%sorted_versions_in. unfold oldest_version.
  destruct (sorted_versions (hmac_keys s)) as [|v l]; [by apply elem_of_nil in A | by exists v].
Qed.

Lemma fingerprint_same s s' b d : service_ok s -> grown s s' -> stable_hmac_fingerprint s' b d = stable_hmac_fingerprint s b d.
Proof.
  intros [v O]%service_oldest G. pose proof (oldest_grown s s' v G O) as O'. destruct (oldest_least s v O) as [[k K] _].
  destruct G as (_ & Gk & _). unfold stable_hmac_fingerprint, _hmac_key, find_key. rewrite O, O'. simpl. by rewrite K, (Gk v k K).
Qed.

Lemma identifiers_same s s' x : service_ok s -> grown s s' -> task_ids s' x = task_ids s x /\ custom_ids s' x = custom_ids s x.
Proof.
  intros S G. unfold task_ids, custom_ids, protect_vendor_task_id, protect_vendor_custom_id, degrade_vendor_identifier.
  assert (V : forall v d, vendor_identifier_pseudonym s' v d = vendor_identifier_pseudonym s v d).
  { intros v d. unfold vendor_identifier_pseudonym. destruct (utf8_encode v); [|done]. simpl. by rewrite (fingerprint_same s s'). }
  split.
  - destruct (validate_vendor_task_id x); simpl; by rewrite !V.
  - destruct (validate_vendor_custom_id x); simpl; by rewrite !V.
Qed.

Lemma phone_hmac_ok s phone v : fullmatch PHONE_PATTERN phone = true -> forallb (between 0 127) phone = true ->
  is_Some (hmac_keys s !! v) -> exists h, Crypto.phone_hmac s phone (Some v) = Ok h /\ fullmatch DIGEST h = true.
Proof.
  intros P A [k K]. unfold Crypto.phone_hmac, _validate_phone, _hmac_key, find_key, ascii_encode. rewrite P. simpl.
  rewrite K. simpl. rewrite A. eexists. split; [reflexivity | apply digest_shape].
Qed.

(** The first candidate is the index under the oldest key. *)
Lemma first_candidate s phone : service_ok s -> fullmatch PHONE_PATTERN phone = true ->
  forallb (between 0 127) phone = true ->
  exists l v h, hmac_candidates s phone = Ok l /\ head (snd <$> l) = Some h /\ oldest_version s = Ok v /\
    Crypto.phone_hmac s phone (Some v) = Ok h.
Proof.
  intros S P A. destruct (service_oldest s S) as [v O]. unfold oldest_version in O. unfold hmac_candidates, _validate_phone.
  rewrite P. simpl. assert (F : Forall (fun v => is_Some (hmac_keys s !! v)) (sorted_versions (hmac_keys s))).
  { apply Forall_forall. intros w. by rewrite sorted_versions_in. }
  unfold oldest_version. destruct (sorted_versions (hmac_keys s)) as [|v' vs]; [done|]. injection O as ->.
  inversion_clear F as [|? ? K F']. destruct (phone_hmac_ok s phone v P A K) as (h & Hh & _).
  destruct (hmac_each_ok s phone vs) as (l & L & _); [done | unfold ascii_encode; by rewrite A | done|].
  exists ((v, h) :: l), v, h. cbn [hmac_each]. by rewrite Hh, L.
Qed.

Lemma digest_chars h : fullmatch DIGEST h = true -> len h = 64 /\ forallb (between 0 127) h = true.
Proof.
  intros D%fullmatch_spec%lang_repeat. destruct D as [L F]. split; [unfold len; lia|]. apply forallb_forall.
  rewrite forallb_forall in F. intros c C%F. unfold ascii_hex, ascii_digit, between in *. apply orb_true_iff in C as [C|C]; bool_prop; by decide_bools.
Qed.

Lemma json_ascii s : forallb (between 0 127) s = true -> forallb (between 0 127) (json_string s) = true.
Proof.
  intros A. unfold json_string. rewrite !forallb_app. simpl. rewrite andb_true_r.
  induction s as [|c s IH]; [done|]. cbn [forallb] in A. bool_prop.
  change ((c :: s) ≫= json_escape) with (json_escape c ++ (s ≫= json_escape)). rewrite forallb_app, IH, andb_true_r by done.
  unfold json_escape. repeat (case_match; [done|]). destruct (between 0 31 c) eqn:B; [|simpl; by rewrite andb_true_r].
  unfold between in B. bool_prop. rewrite forallb_app. cbn [forallb]. rewrite andb_true_r. unfold hex_char.
  pose proof (Z.div_mod c 16 ltac:(lia)). pose proof (Z.mod_pos_bound c 16 ltac:(lia)). change (forallb (between 0 127) (tx "\u00")) with true.
  unfold between. repeat case_match; bool_prop; by decide_bools.
Qed.

Lemma phone_aad h version : fullmatch DIGEST h = true -> exists a,
  canonical_aad (phone_context (tx "unmatched_report") (tx "phone_enc") h) version = Ok a.
Proof.
  intros [L A]%digest_chars. unfold canonical_aad, phone_context. cbn [domain table column object_id].
  change (check_component "domain" (tx "phone")) with (Ok tt : result exc unit).
  change (check_component "table" (tx "unmatched_report")) with (Ok tt : result exc unit).
  change (check_component "column" (tx "phone_enc")) with (Ok tt : result exc unit). cbn [mbind result_bind].
  rewrite (utf8_ascii h A). cbn [mbind result_bind]. rewrite L.
  replace (bool_decide (h = [])) with false by (symmetry; apply bool_decide_eq_false; by intros ->).
  cbn [orb]. change (256 <? 64) with false. cbn [refuse mbind result_bind].
  rewrite (utf8_ascii (aad_document _ version)); [by eexists|].
  unfold aad_document. cbn [domain table column object_id]. rewrite !forallb_app, !(json_ascii h A).
  assert (N : forallb (between 0 127) (str_int version) = true).
  { apply forallb_forall. intros c C%list_elem_of_In. apply str_int_chars in C as [C | ->]; [|done].
    unfold ascii_digit, between in *. bool_prop. by decide_bools. }
  by rewrite N.
Qed.

Lemma phone_length phone : fullmatch PHONE_PATTERN phone = true -> length phone = 11%nat.
Proof.
  intros P%fullmatch_spec. unfold PHONE_PATTERN in P. inversion P as [| |? ? a b A B| | | |]; subst.
  apply (lang_repeat 10) in B as [B _]. change (rlit "1") with (RCat (RClass (Z.eqb 49)) REps) in A.
  inversion A as [| |? ? a1 a2 A1 A2| | | |]; subst. inversion A1; subst. inversion A2; subst. simpl. by rewrite B.
Qed.

(** A number of the right form is protected. *)
Lemma protect_ok s nonce phone : service_ok s -> fullmatch PHONE_PATTERN phone = true ->
  forallb (between 0 127) phone = true ->
  exists p, protect_phone s nonce phone (tx "unmatched_report") (tx "phone_enc") = Ok p /\ len (Crypto.phone_mask p) = 11 /\
    phone_version p = active_version s /\ fullmatch DIGEST (phone_hmac_of p) = true.
Proof.
  intros S P A. destruct (phone_hmac_ok s phone (active_version s) P A (service_hmac s S)) as (h & Hh & Dh).
  destruct (phone_aad h (active_version s) Dh) as [a Ha]. destruct S as (_ & [k K] & _).
  unfold protect_phone, _validate_phone. rewrite P. cbn [require mbind result_bind]. rewrite Hh. cbn [mbind result_bind].
  unfold encrypt_bound_text, encrypt_bound_bytes, _aes_key, find_key. rewrite (utf8_ascii phone A), K. cbn [mbind result_bind].
  rewrite Ha. cbn [mbind result_bind]. unfold mask_phone, _validate_phone. rewrite P. cbn [require mbind result_bind].
  eexists. split; [reflexivity|]. cbn [Crypto.phone_mask phone_version phone_hmac_of key_version]. split; [|done].
  unfold len. rewrite !length_app, length_take, length_drop, (phone_length phone P). done.
Qed.

(** C33: Rotating the keys of the platform does not change what an item reports.
    A service with more and newer keys parses every item the former one parsed,
    gives it the same event key, the same pseudonyms, status, description, time
    and matching identifier, and still has the index the former one stored among
    the ones it looks messages up by: a report that is pulled again after the
    rotation is recognised. *)
Theorem event_key_stable s s' nonce nonce' item r : service_ok s -> service_ok s' -> grown s s' ->
  _parse s nonce item = Ok r -> exists r', _parse s' nonce' item = Ok r' /\
    event_key r' = event_key r /\ vendor_task_id r' = vendor_task_id r /\ custom_id r' = custom_id r /\
    match_custom_id r' = match_custom_id r /\ report_status r' = report_status r /\ report_desc r' = report_desc r /\
    report_time r' = report_time r /\ phone_hmac r ∈ phone_hmacs r'.
Proof.
  intros S S' G (task & custom & phone & status & desc & time & F & Req)%parse_ok. unfold ReportParse._parse. rewrite Req.
  cbn [fmap list_fmap]. clear Req.
  apply parse_fields_ok in F as (rt & rc & rm & tid & h & -> & -> & -> & -> & St & M & T & D & Ti & Ci & (p & P & Hp & _ & _) & (l & L & _ & Hl) & K).
  destruct (protect_phone_ok _ _ _ _ _ _ P) as (Pm & Pa & Ph & Pv & _). set (number := py_str other_str phone) in *.
  destruct (protect_ok s' nonce' number S' Pm Pa) as (p' & P' & _).
  destruct (first_candidate s number S Pm Pa) as (l0 & v & h0 & L0 & Hd & O & Hv). rewrite L in L0. injection L0 as <-.
  rewrite Hl in Hd. injection Hd as <-. destruct (first_candidate s' number S' Pm Pa) as (l' & v' & h' & L' & Hd' & O' & Hv').
  rewrite (oldest_grown s s' v G O) in O'. injection O' as <-. rewrite (phone_hmac_grown s s' number v h G Hv) in Hv'. injection Hv' as <-.
  destruct (identifiers_same s s' (strip rt) S G) as [It _], (identifiers_same s s' (strip rc) S G) as [_ Ic].
  unfold ReportParse.parse_fields. rewrite (bool_decide_eq_true_2 _ St). cbn [require mbind result_bind as_text].
  rewrite T. cbn [mbind result_bind]. fold number. rewrite P'. cbn [mbind result_bind]. rewrite L'. cbn [mbind result_bind as_text].
  rewrite It, Ti. cbn [mbind result_bind as_text]. rewrite Ic, Ci. cbn [mbind result_bind].
  destruct l' as [|[w hw] l'']; [done|]. injection Hd' as ->. cbn [mbind result_bind]. rewrite <- D, K. cbn [mbind result_bind].
  eexists. split; [reflexivity|]. cbn. split_and!; try done. rewrite Hp.
  destruct (candidate_kept s s' number _ _ G Pa Ph) as (l0 & L0 & I). rewrite L' in L0. injection L0 as <-.
  apply (list_elem_of_fmap_2 snd) in I. exact I.
Qed.

(** ** What is parsed can be stored *)

Lemma drop_while_fixed f s : match s with c :: _ => f c = false | [] => True end -> drop_while f s = s.
Proof. destruct s as [|c s]; [done|]. simpl. by intros ->. Qed.

Lemma drop_while_twice f s : drop_while f (drop_while f s) = drop_while f s.
Proof. apply drop_while_fixed. destruct (drop_while f s) eqn:E; [done|]. by apply drop_while_head in E. Qed.

Lemma strip_strip s : strip (strip s) = strip s.
Proof.
  unfold strip. set (a := drop_while is_space s). set (b := drop_while is_space (reverse a)).
  rewrite (drop_while_fixed is_space (reverse b)).
  - rewrite reverse_involutive. unfold b. by rewrite drop_while_twice.
  - destruct (reverse b) as [|c r] eqn:E; [done|]. assert (P : exists t, a = (c :: r) ++ t).
    { exists (reverse (take_while is_space (reverse a))). rewrite <- E, <- reverse_app. unfold b.
      by rewrite take_drop_while, reverse_involutive. }
    destruct P as [t P]. unfold a in P. simpl in P. by apply drop_while_head in P.
Qed.

Lemma pseudonym_shape s v d p : vendor_identifier_pseudonym s v d = Ok p -> fullmatch VENDOR_IDENTIFIER_PSEUDONYM p = true.
Proof.
  unfold vendor_identifier_pseudonym. intros (b & _ & ([? digest] & _ & (? & R%require_ok & [= <-])%bind_ok)%bind_ok)%bind_ok. done.
Qed.

Lemma task_ids_shape s x raw p : task_ids s x = Ok (raw, p) -> fullmatch VENDOR_IDENTIFIER_PSEUDONYM p = true.
Proof.
  unfold task_ids, or_value_error. destruct (protect_vendor_task_id s x) as [[raw' p']|e] eqn:E.
  - intros [= <- <-]. apply bind_ok in E as (? & _ & (? & P & [= _ <-])%bind_ok). by eapply pseudonym_shape.
  - destruct (is_ValueError e); [|done]. intros (? & P & [= _ <-])%bind_ok. by eapply pseudonym_shape.
Qed.

Lemma custom_ids_shape s x m p : custom_ids s (strip x) = Ok (m, p) -> fullmatch VENDOR_IDENTIFIER_PSEUDONYM p = true.
Proof.
  unfold custom_ids, or_value_error. destruct (_ ← _; protect_vendor_custom_id s (strip x)) as [[m' p']|e] eqn:E.
  - intros [= <- <-]. apply bind_ok in E as (? & N%refuse_ok%bool_decide_eq_false & (raw & V & E)%bind_ok).
    assert (R : raw = strip x).
    { unfold validate_vendor_custom_id in V. apply bind_ok in V as (? & _ & (? & _ & [= <-])%bind_ok). apply strip_strip. }
    rewrite R, (bool_decide_eq_false_2 _ N) in E. apply bind_ok in E as (? & P & [= _ <-]). by eapply pseudonym_shape.
  - destruct (is_ValueError e); [|done]. intros (? & P & [= _ <-])%bind_ok. by eapply pseudonym_shape.
Qed.

(** An item that is parsed can be stored.  Whatever the vendor sends, a
    report the parser accepts meets every cast and check constraint of its
    table: pseudonyms and digests of sixty-four hexadecimal digits, a mask of
    eleven characters, a description of at most 128, a status and a key version
    that fit their columns.  Only a NUL in the description is left to the
    database to refuse. *)
Theorem parse_storable s nonce item r : service_ok s -> (forall b, fullmatch DIGEST (sha256 b) = true) ->
  _parse s nonce item = Ok r -> contains 0 (report_desc r) = false -> event_valid r = true.
Proof.
  intros S Sha (task & custom & phone & status & desc & time & F & _)%parse_ok Nul.
  apply parse_fields_ok in F as (rt & rc & rm & tid & h & _ & _ & _ & _ & St & M & _ & D & Ti & Ci & (p & P & Hp & Pk & Vp) & _ & K).
  destruct (protect_phone_ok _ _ _ _ _ _ P) as (Pm & Pa & _). destruct (protect_ok s nonce _ S Pm Pa) as (p' & P' & L & V & Dg).
  rewrite P in P'. injection P' as <-. apply event_key_ok in K as (_ & ? & b & _ & _ & K).
  apply task_ids_shape in Ti. apply custom_ids_shape in Ci. change VENDOR_IDENTIFIER_PSEUDONYM with DIGEST in Ti, Ci.
  unfold event_valid. change UsageStore.UsageStore.HMAC_PATTERN with DIGEST. rewrite K, Sha, Hp, Dg, Ti, Ci.
  rewrite Nul, Pk, L, Vp, V, M. destruct S as (_ & _ & A). unfold between, MAX_KEY_VERSION in *. decide_bools.
  assert (Ld : len (report_desc r) <= 128).
  { rewrite D. unfold len. rewrite length_take. lia. }
  decide_bools. unfold REPORT_STATUSES in St. by repeat (apply elem_of_cons in St as [->|St]; [reflexivity|]); apply elem_of_nil in St.
Qed.
End parse.

(** ** An example item, before and after a rotation *)

#[local] Existing Instance sum_ciphers.
#[local] Existing Instance sum_laws.

Definition noon (s : text) : option (Z * option Z) := Some (43200 * SECOND, None).
Definition plus_eight (wall : Z) : Z := 28800 * SECOND.
Definition digit_sum (b : bytes) : text := replicate 64 (48 + sumZ b mod 10).
Definition no_text (v : json) : text := [].
Definition example_item : list (text * json) :=
  [(tx "taskId", JStr (tx "T-1")); (tx " customId ", JStr (tx "abc1")); (tx "phone", JInt 13800000000);
   (tx "reportStatus", JInt 1); (tx "reportDescription", JStr (tx "to 13912345678 ok"));
   (tx "reportTime", JStr (tx "1970-01-01 12:00:00"))].
Definition read_item (s : CryptoService) : result exc ProtectedReport :=
  _parse noon plus_eight digit_sum no_text s example_nonce example_item.

Lemma example_services : service_ok first_service /\ service_ok second_service.
Proof. split; (split; [reflexivity | split; [by eexists | done]]). Qed.

Lemma digit_sum_shape b : fullmatch DIGEST (digit_sum b) = true.
Proof. exact (@digest_shape sum_ciphers sum_laws [] b). Qed.

Definition first_read : ProtectedReport :=
  Eval vm_compute in match read_item first_service with Ok r => r | Raise _ => mkReport [] [] [] [] [] [] [] 0 0 (_message_status 3) [] 0 [] [] end.
Definition second_read : ProtectedReport :=
  Eval vm_compute in match read_item second_service with Ok r => r | Raise _ => mkReport [] [] [] [] [] [] [] 0 0 (_message_status 3) [] 0 [] [] end.

Lemma read_first : _parse noon plus_eight digit_sum no_text first_service example_nonce example_item = Ok first_read.
Proof. vm_compute. reflexivity. Qed.

Lemma read_second : _parse noon plus_eight digit_sum no_text second_service example_nonce example_item = Ok second_read.
Proof. vm_compute. reflexivity. Qed.

Lemma event_key_identifies_witness : report_desc first_read = tx "to 139****5678 ok" /\
  (report_time first_read = report_time second_read \/ collision digit_sum).
Proof.
  split; [vm_compute; reflexivity|].
  destruct (event_key_identifies noon plus_eight digit_sum no_text first_service example_nonce example_item first_read
              second_service example_nonce example_item second_read read_first read_second eq_refl)
    as [(_ & _ & _ & T & _)|C]; [left; exact T | right; exact C].
Defined.

Lemma event_key_stable_witness : exists r', read_item second_service = Ok r' /\ event_key r' = event_key first_read.
Proof.
  destruct (event_key_stable noon plus_eight digit_sum no_text first_service second_service example_nonce example_nonce example_item
    first_read (proj1 example_services) (proj2 example_services) example_grown read_first) as (r' & E' & K & _).
  exists r'. split; [exact E' | exact K].
Defined.

Lemma parse_storable_witness : event_valid first_read = true.
Proof.
  exact (parse_storable noon plus_eight digit_sum no_text first_service example_nonce example_item first_read
    (proj1 example_services) digit_sum_shape read_first eq_refl).
Defined.
End ReportKey.
