(* ===== verification/ReportIngest.v ===== *)
(** * Ingestion of a payload of reports ([services/report_ingest.py])

    [ReportIngestService.process_existing] as a program over the calls it
    makes: the repository, the heartbeat of the processing lease, the clock and
    the alerts.  The parser is [ReportParse._parse].  The theorem is that no
    report is lost: a payload is marked as processed only when every item of it
    was parsed and its report committed, and a payload that was not ends in an
    error mark or in the loss of its lease. *)

From S2P Require Import Prelude PyText Utf8 Effects Crypto CryptoSafety UsageStore ReportStore ReportSafety ReportParse ReportKey.

Module ReportIngest.
Import Crypto ReportStore ReportSafety ReportParse.

Definition item : Type := list (text * json).

Inductive call :=
| filter_known_custom_ids (custom_ids : list text)
| update_metadata (raw_id : Z) (custom_ids : list text) (item_count : Z)
| apply_report (raw_id : Z) (r : ProtectedReport)
| persist_unmatched (raw_id : Z) (r : ProtectedReport)
| mark_processed (raw_id : Z) (system_audit_intent : bool)
| mark_error (raw_id : Z) (error : text) (cause : option exc)
| raise_if_lost
| _alert_failure_rate (batch_id : Z)
| _alert_skipped (raw_id skipped : Z)
| deadline_passed
| urandom.

Definition answer (c : call) : Type :=
  match c with
  | filter_known_custom_ids _ => list text
  | apply_report _ _ => option ReportApplyResult
  | deadline_passed => bool
  | urandom => bytes
  | _ => unit
  end.

Abbreviation program := (prog answer exc).

(** [except RawLeaseLost: raise]; a cancellation is not an [Exception]. *)
Definition passes (e : exc) : bool :=
  let 'Exc cls _ := e in tmem cls [tx "RawLeaseLost"; tx "RawLeaseHeartbeatFailed"] || negb (is_exception e).
(** [except (ValueError, KeyError, TypeError)] of the parser *)
Definition skippable (e : exc) : bool :=
  let 'Exc cls _ := e in is_ValueError e || tmem cls [tx "KeyError"; tx "TypeError"].

(** The payload as a list of objects. *)
Fixpoint as_objects (l : list json) : option (list item) :=
  match l with
  | [] => Some []
  | JObj o :: rest => cons o <$> as_objects rest
  | _ => None
  end.
Definition as_items (data : json) : option (list item) :=
  match data with JList l => as_objects l | _ => None end.

(** [skipped] and [changed_batches], which outlive an exception. *)
Record progress := mkProgress { skipped : Z; changed_batches : list Z }.

Section ingest.
Context `{Ciphers}.
Context (fromisoformat : text -> option (Z * option Z)) (shanghai_offset : Z -> Z).
Context (sha256 : bytes -> text) (other_str : json -> text).
Context (crypto : CryptoService).
Abbreviation parse := (_parse fromisoformat shanghai_offset sha256 other_str crypto).

(** [except Exception: LOGGER...] around an alert *)
Definition silently (c : call) : program unit :=
  attempt (perform c) (fun r =>
    match r with Ok _ => mret tt | Raise e => if is_exception e then mret tt else raise e end).

(** [flush_failure_rates]: the alert of a batch fails silently. *)
Fixpoint flush_each (batches : list Z) : program unit :=
  match batches with
  | [] => mret tt
  | b :: rest => _ ← silently (_alert_failure_rate b); flush_each rest
  end.
Definition flush_failure_rates (p : progress) : program progress :=
  _ ← flush_each (sorting.merge_sort Z.le (remove_dups (changed_batches p)));
  mret (mkProgress (skipped p) []).

(** [beat.raise_if_lost()] where there is a heartbeat *)
Definition check_beat (beat : bool) : program unit := if beat then perform raise_if_lost else mret tt.

(** The report of an item is committed; the batch it changed, if any. *)
Definition commit_report (raw_id : Z) (r : ProtectedReport) : program (option Z) :=
  applied ← (if bool_decide (match_custom_id r = []) then mret None else perform (apply_report raw_id r));
  match applied with
  | None => _ ← perform (persist_unmatched raw_id r); mret None
  | Some a => mret (if changed a then Some (applied_batch a) else None)
  end.

(** What the commit of a report adds to the progress. *)
Definition add_changed (b : option Z) (p : progress) : progress :=
  mkProgress (skipped p) (match b with Some id => id :: changed_batches p | None => changed_batches p end).

(** A step of the [try] that does not change the progress. *)
Definition step {A} (p : progress) (m : program A) (f : A -> program (progress * option exc))
    : program (progress * option exc) :=
  attempt m (fun r => match r with Raise e => mret (p, Some e) | Ok a => f a end).

(** One item: the progress after it, and what it raised. *)
Definition one_item (beat : bool) (raw_id : Z) (it : item) (p : progress) : program (progress * option exc) :=
  step p (perform urandom) (fun nonce =>
    match parse nonce it with
    | Raise e =>
        if skippable e then mret (mkProgress (skipped p + 1) (changed_batches p), None) else mret (p, Some e)
    | Ok r =>
        step p (commit_report raw_id r) (fun b =>
          let p := add_changed b p in
          step p (check_beat beat) (fun _ => mret (p, None)))
    end).

(** The alerts are flushed every hundred items or after a second. *)
Definition flush_due (index : nat) : program bool :=
  if (index =? 0)%nat then mret false
  else if (Nat.modulo index 100 =? 0)%nat then mret true
  else perform deadline_passed.

Fixpoint each_item (beat : bool) (raw_id : Z) (index : nat) (items : list item) (p : progress)
    : program (progress * option exc) :=
  match items with
  | [] => mret (p, None)
  | it :: rest =>
      step p (check_beat beat) (fun _ =>
        step p (flush_due index) (fun due =>
          step p (if due then flush_failure_rates p else mret p) (fun p1 =>
            '(p2, failure) ← one_item beat raw_id it p1;
            match failure with
            | Some e => mret (p2, Some e)
            | None => each_item beat raw_id (S index) rest p2
            end)))
  end.

(** The body of the [try]. *)
Definition ingest_body (beat : bool) (raw_id : Z) (data : json) : program (progress * option exc) :=
  let none := mkProgress 0 [] in
  match as_items data with
  | None => mret (none, Some (ValueError "GetReport.data must be an object array"))
  | Some items =>
      step none (ids ← perform (filter_known_custom_ids (_collect_vendor_custom_ids items));
                 perform (update_metadata raw_id ids (Z.of_nat (length items)))) (fun _ =>
        each_item beat raw_id 0 items none)
  end.

Definition data_length (data : json) : Z :=
  match as_items data with Some items => Z.of_nat (length items) | None => 0 end.

Definition process_existing (beat : bool) (raw_id : Z) (data : json) (system_audit_intent : bool) : program Z :=
  '(p, failure) ← ingest_body beat raw_id data;
  match failure with
  | Some e =>
      if passes e then raise e else
      let 'Exc cls _ := e in
      _ ← flush_failure_rates p;
      _ ← perform (mark_error raw_id (cls ++ tx ": report persistence failed") (Some e));
      raise e
  | None =>
      p ← flush_failure_rates p;
      if negb (skipped p =? 0) then
        _ ← perform (mark_error raw_id (tx "skipped " ++ str_int (skipped p) ++ tx " invalid report items") None);
        _ ← silently (_alert_skipped raw_id (skipped p));
        mret (data_length data)
      else
        _ ← check_beat beat;
        _ ← perform (mark_processed raw_id system_audit_intent);
        mret (data_length data)
  end.

(** ** What a trace shows *)

Abbreviation trace := (list (Effects.entry answer exc)).

(** The report was committed: it was matched, or kept as unmatched. *)
Definition settled (tr : trace) (raw_id : Z) (r : ProtectedReport) : Prop :=
  (exists a, existT (apply_report raw_id r) (Ok (Some a)) ∈ tr) \/ existT (persist_unmatched raw_id r) (Ok tt) ∈ tr.

Definition stored (tr : trace) (raw_id : Z) (it : item) : Prop :=
  exists nonce r, parse nonce it = Ok r /\ settled tr raw_id r.

Lemma stored_mono (tr tr' : trace) raw_id it : tr ⊆ tr' -> stored tr raw_id it -> stored tr' raw_id it.
Proof. intros I (n & r & P & S). exists n, r. split; [done|]. destruct S as [[a A]|U]; [left; exists a | right]; set_solver. Qed.

Lemma stored_all (tr tr' : trace) raw_id items : tr ⊆ tr' -> Forall (stored tr raw_id) items -> Forall (stored tr' raw_id) items.
Proof. intros I F. eapply Forall_impl; [exact F|]. intros x. by apply stored_mono. Qed.

(** Not a mark of the payload. *)
Definition marks (c : call) : bool := match c with mark_processed _ _ | mark_error _ _ _ => true | _ => false end.
Definition unmarked (c : call) : bool := negb (marks c).

Section world.
Context (w : Effects.world answer exc).

(** A program only adds calls that do not mark, and ends with [Q]. *)
Definition leads {A} (p : program A) (Q : trace -> result exc A -> Prop) : Prop :=
  forall h, exists tr, fst (exec w h p) = h ++ tr /\ Forall (fun x : Effects.entry answer exc => unmarked (projT1 x) = true) tr /\
    Q tr (snd (exec w h p)).

Lemma leads_ret {A} (r : result exc A) (Q : trace -> result exc A -> Prop) : Q [] r -> leads (Ret r) Q.
Proof. intros q h. exists []. by rewrite app_nil_r. Qed.

Lemma leads_mono {A} (p : program A) (P Q : trace -> result exc A -> Prop) :
  (forall tr r, P tr r -> Q tr r) -> leads p P -> leads p Q.
Proof. intros I L h. destruct (L h) as (tr & E & F & q). exists tr. auto. Qed.

Lemma leads_perform c (Q : trace -> result exc (answer c) -> Prop) : unmarked c = true ->
  (forall r, Q [existT c r] r) -> leads (perform c) Q.
Proof. intros U q h. rewrite exec_perform. simpl. eexists. split; [reflexivity|]. split; [by constructor | apply q]. Qed.

Lemma leads_attempt {A B} (p : program A) (f : result exc A -> program B) (Q : trace -> result exc B -> Prop) :
  leads p (fun tr r => leads (f r) (fun tr' r' => Q (tr ++ tr') r')) -> leads (attempt p f) Q.
Proof.
  intros L h. rewrite exec_attempt. destruct (L h) as (tr & E & F & L'). destruct (L' (fst (exec w h p))) as (tr' & E' & F' & q).
  exists (tr ++ tr'). rewrite E', E, app_assoc. split; [done|]. split; [by apply Forall_app|]. by rewrite <- E.
Qed.

Lemma leads_bind {A B} (p : program A) (f : A -> program B) (Q : trace -> result exc B -> Prop) :
  leads p (fun tr r => match r with
                       | Ok a => leads (f a) (fun tr' r' => Q (tr ++ tr') r')
                       | Raise e => Q tr (Raise e)
                       end) -> leads (p ≫= f) Q.
Proof.
  intros L. apply leads_attempt. revert L. apply leads_mono. intros tr [a|e]; [done|]. intros q. apply leads_ret. by rewrite app_nil_r.
Qed.

Lemma leads_step {A} p (m : program A) f (Q : trace -> result exc (progress * option exc) -> Prop) :
  (forall tr e, Q tr (Ok (p, Some e))) ->
  leads m (fun tr r => forall a, r = Ok a -> leads (f a) (fun tr' r' => Q (tr ++ tr') r')) -> leads (step p m f) Q.
Proof.
  intros q L. apply leads_attempt. revert L. apply leads_mono. intros tr [a|e] K; [by apply K|].
  apply leads_ret. rewrite app_nil_r. apply q.
Qed.

Lemma leads_silently c (Q : trace -> result exc unit -> Prop) : unmarked c = true ->
  (forall tr, Q tr (Ok tt)) -> (forall tr e, passes e = true -> Q tr (Raise e)) -> leads (silently c) Q.
Proof.
  intros U q1 q2. apply leads_attempt, leads_perform; [done|]. intros [a|e]; [by apply leads_ret|].
  destruct (is_exception e) eqn:X; apply leads_ret; [done|]. apply q2. destruct e. unfold passes. rewrite X. apply orb_true_r.
Qed.

Lemma leads_flush p (Q : trace -> result exc progress -> Prop) :
  (forall tr, Q tr (Ok (mkProgress (skipped p) []))) -> (forall tr e, passes e = true -> Q tr (Raise e)) ->
  leads (flush_failure_rates p) Q.
Proof.
  intros q1 q2. unfold flush_failure_rates. apply leads_bind.
  assert (F : forall l, leads (flush_each l) (fun _ r => match r with Ok _ => True | Raise e => passes e = true end)).
  { induction l as [|b l IH]; [by apply leads_ret|]. apply leads_bind, leads_silently; [done| |done]. intros tr. exact IH. }
  eapply leads_mono; [|apply F]. intros tr [[]|e] K; [|by apply q2]. apply leads_ret. rewrite app_nil_r. apply q1.
Qed.

Lemma leads_beat beat (Q : trace -> result exc unit -> Prop) : (forall tr r, Q tr r) -> leads (check_beat beat) Q.
Proof. intros q. unfold check_beat. destruct beat; [by apply leads_perform | by apply leads_ret]. Qed.

Lemma leads_commit raw_id r :
  leads (commit_report raw_id r) (fun tr res => match res with Ok _ => settled tr raw_id r | Raise _ => True end).
Proof.
  unfold commit_report. apply leads_bind. destruct (bool_decide _).
  - apply leads_ret, leads_bind, leads_perform; [done|]. intros [[]|e]; [|done]. apply leads_ret. right. set_solver.
  - apply leads_perform; [done|]. intros [[a|]|e]; [|apply leads_bind, leads_perform; [done|]|done].
    + apply leads_ret. left. exists a. set_solver.
    + intros [[]|e]; [|done]. apply leads_ret. right. set_solver.
Qed.

(** An item that ended normally is skipped or stored. *)
Definition done_or_skipped (raw_id : Z) (items : list item) (p : progress) (tr : trace) (res : result exc (progress * option exc)) : Prop :=
  match res with
  | Ok (p', None) => skipped p <= skipped p' /\ (skipped p' = skipped p -> Forall (stored tr raw_id) items)
  | Ok (_, Some _) => True
  | Raise _ => False
  end.

Lemma leads_item beat raw_id it p : leads (one_item beat raw_id it p) (done_or_skipped raw_id [it] p).
Proof.
  unfold one_item. apply leads_step, leads_perform; [done..|]. intros x nonce ->.
  destruct (parse nonce it) as [r|e] eqn:P.
  - apply leads_step; [done|]. eapply leads_mono; [|apply leads_commit]. intros tr x' S b ->. cbv zeta.
    apply leads_step, leads_beat; [done|]. intros tr' x' [] ->. apply leads_ret. cbn [skipped done_or_skipped add_changed].
    split; [lia|]. intros _. constructor; [|done]. apply (stored_mono tr); [set_solver|]. by exists nonce, r.
  - destruct (skippable e); apply leads_ret; cbn; [lia | done].
Qed.

Lemma leads_due index (Q : trace -> result exc bool -> Prop) : (forall tr r, Q tr r) -> leads (flush_due index) Q.
Proof. intros q. unfold flush_due. repeat case_match; [by apply leads_ret..| by apply leads_perform]. Qed.

Lemma done_more raw_id items p p1 tr tr' res : skipped p1 = skipped p -> tr ⊆ tr' ->
  done_or_skipped raw_id items p1 tr res -> done_or_skipped raw_id items p tr' res.
Proof.
  intros E I. destruct res as [[p' [e|]]|e]; [done| |done]. cbn. rewrite E. intros [L S]. split; [done|].
  intros X. by apply (stored_all tr), S.
Qed.

Lemma leads_items beat raw_id items : forall index p, leads (each_item beat raw_id index items p) (done_or_skipped raw_id items p).
Proof.
  induction items as [|it items IH]; intros index p; cbn [each_item].
  { apply leads_ret. split; [lia|]. constructor. }
  apply leads_step, leads_beat; [done|]. intros tr1 x [] ->.
  apply leads_step, leads_due; [done|]. intros tr2 x due ->.
  assert (K : forall p1, skipped p1 = skipped p -> leads (
     '(p2, failure) ← one_item beat raw_id it p1;
      match failure with Some e => mret (p2, Some e) | None => each_item beat raw_id (S index) items p2 end)
     (done_or_skipped raw_id (it :: items) p)).
  { intros p1 S1. apply leads_bind. eapply leads_mono; [|apply leads_item]. intros tr [[p2 [e|]]|e] Q; [by apply leads_ret| |done].
    eapply leads_mono; [|apply IH]. intros tr' [[p3 [e|]]|e] Q'; [done| |done]. destruct Q as [L S], Q' as [L' S']. cbn. split; [lia|].
    intros E. constructor; [|eapply stored_all; [|apply S'; lia]; set_solver].
    assert (F : Forall (stored tr raw_id) [it]) by (apply S; lia). eapply stored_mono; [|exact (Forall_inv F)]. set_solver. }
  assert (G : forall tr0 p1, skipped p1 = skipped p -> leads (
     '(p2, failure) ← one_item beat raw_id it p1;
      match failure with Some e => mret (p2, Some e) | None => each_item beat raw_id (S index) items p2 end)
     (fun tr r => done_or_skipped raw_id (it :: items) p (tr1 ++ tr2 ++ tr0 ++ tr) r)).
  { intros tr0 p1 S1. eapply leads_mono; [|apply (K p1 S1)]. intros tr r. apply done_more; [done|set_solver]. }
  apply leads_step; [done|]. destruct due; [|apply leads_ret; intros p1 [= <-]; by apply G].
  apply leads_flush; [|done]. intros tr0 p1 [= <-]. by apply G.
Qed.

Lemma leads_body beat raw_id data :
  leads (ingest_body beat raw_id data) (fun tr res =>
    match res with
    | Ok (p, None) => exists items, as_items data = Some items /\ 0 <= skipped p /\
                        (skipped p = 0 -> Forall (stored tr raw_id) items)
    | Ok (_, Some _) => True
    | Raise _ => False
    end).
Proof.
  unfold ingest_body. destruct (as_items data) as [items|]; [|by apply leads_ret].
  apply leads_step; [done|]. apply leads_bind, leads_perform; [done|]. intros [ids|e]; [|done].
  apply leads_perform; [done|]. intros x [] ->.
  eapply leads_mono; [|apply leads_items]. intros tr [[p [e|]]|e] Q; [done | | done]. destruct Q as [L S]. exists items.
  split; [done|]. split; [done|]. intros E. eapply stored_all; [|by apply S]. set_solver.
Qed.
End world.

Lemma unmarked_not_in (tr : trace) c r : Forall (fun x : Effects.entry answer exc => unmarked (projT1 x) = true) tr ->
  existT c r ∈ tr -> marks c = false.
Proof. intros F I. rewrite Forall_forall in F. apply F in I. unfold unmarked in I. simpl in I. by destruct (marks c). Qed.

(** An error mark after unmarked calls is no other mark. *)
Lemma only_marked (tr : trace) raw_id e c x : Forall (fun x : Effects.entry answer exc => unmarked (projT1 x) = true) tr ->
  forall i r, existT (mark_processed raw_id i) r ∈ tr ++ [existT (mark_error raw_id e c) x] -> False.
Proof.
  intros U i r [I|I]%elem_of_app; [by apply (unmarked_not_in _ _ _ U) in I|].
  apply list_elem_of_singleton, (f_equal projT1) in I. done.
Qed.

Lemma flushed w p h : exists tr r, exec w h (flush_failure_rates p) = (h ++ tr, r) /\
  Forall (fun x : Effects.entry answer exc => unmarked (projT1 x) = true) tr /\
  match r with Ok p' => skipped p' = skipped p | Raise e => passes e = true end.
Proof.
  destruct (leads_flush w p (fun _ r => match r with Ok p' => skipped p' = skipped p | Raise e => passes e = true end)
    ltac:(done) ltac:(done) h) as (tr & E & U & Q).
  exists tr, (snd (exec w h (flush_failure_rates p))). split; [|done]. rewrite <- E. apply surjective_pairing.
Qed.

Lemma beaten w beat h : exists tr r, exec w h (check_beat beat) = (h ++ tr, r) /\
  Forall (fun x : Effects.entry answer exc => unmarked (projT1 x) = true) tr /\
  forall e, r = Raise e -> existT raise_if_lost (Raise e) ∈ h ++ tr.
Proof.
  unfold check_beat. destruct beat; [|exists [], (Ok tt); by rewrite app_nil_r].
  do 2 eexists. split; [apply (exec_perform w raise_if_lost)|]. split; [by constructor|]. intros e ->. set_solver.
Qed.

(** The payload got a mark, or its processing was interrupted. *)
Definition concluded (tr : trace) (raw_id : Z) (n : Z) (res : result exc Z) : Prop :=
  match res with
  | Ok m => m = n /\ ((exists i, existT (mark_processed raw_id i) (Ok tt) ∈ tr) \/
                      (exists e c, existT (mark_error raw_id e c) (Ok tt) ∈ tr))
  | Raise e => passes e = true \/ existT raise_if_lost (Raise e) ∈ tr \/
               (exists i, existT (mark_processed raw_id i) (Raise e) ∈ tr) \/
               (exists m c r, existT (mark_error raw_id m c) r ∈ tr)
  end.

(** Whatever the collaborators answer: a payload that is marked as processed is
    stored, and every run is concluded. *)
Lemma ingest_outcome w beat raw_id data intent :
  let '(tr, res) := exec w [] (process_existing beat raw_id data intent) in
  (forall i r, existT (mark_processed raw_id i) r ∈ tr ->
     exists items, as_items data = Some items /\ Forall (stored tr raw_id) items) /\
  concluded tr raw_id (data_length data) res.
Proof.
  unfold process_existing. rewrite exec_bind. destruct (leads_body w beat raw_id data []) as (tr & E & U & Q). simpl in E.
  destruct (exec w [] (ingest_body beat raw_id data)) as [h [[p [e|]]|e]]; simpl in E, Q; subst h; [| |done].
  - destruct (passes e) eqn:P.
    { unfold raise. cbn [exec]. split; [|by left]. intros i r I. by apply (unmarked_not_in _ _ _ U) in I. }
    destruct e as [cls msg]. rewrite exec_bind. destruct (flushed w p tr) as (tr' & y & -> & U' & Y).
    pose proof (Forall_app_2 _ _ _ U U') as U2. destruct y as [p'|e].
    2:{ split; [|by left]. intros i r I. by apply (unmarked_not_in _ _ _ U2) in I. }
    rewrite exec_bind, exec_perform.
    set (x := w (tr ++ tr') _). assert (M : existT (mark_error raw_id (cls ++ tx ": report persistence failed") (Some (Exc cls msg))) x
      ∈ (tr ++ tr') ++ [existT (mark_error raw_id (cls ++ tx ": report persistence failed") (Some (Exc cls msg))) x]) by set_solver.
    clearbody x. destruct x as [[]|e]; (split; [|right; right; right; by eauto]); intros i r I; exfalso;
      exact (only_marked _ _ _ _ _ U2 _ _ I).
  - destruct Q as (items & It & P0 & S). rewrite exec_bind. destruct (flushed w p tr) as (tr' & y & -> & U' & Y).
    pose proof (Forall_app_2 _ _ _ U U') as U2. destruct y as [p'|e].
    2:{ split; [|by left]. intros i r I. by apply (unmarked_not_in _ _ _ U2) in I. }
    rewrite Y. destruct (Z.eqb_spec (skipped p) 0) as [Z0|N]; cbn [negb].
    + rewrite exec_bind. destruct (beaten w beat (tr ++ tr')) as (tr2 & x & -> & U3 & B). destruct x as [[]|e].
      2:{ split; [|right; left; by apply B]. intros i r I. apply (unmarked_not_in _ _ _ (Forall_app_2 _ _ _ U2 U3)) in I. done. }
      rewrite exec_bind. unfold perform. cbn [exec]. set (x := w ((tr ++ tr') ++ tr2) _). clearbody x.
      assert (K : forall i r, existT (mark_processed raw_id i) r ∈ ((tr ++ tr') ++ tr2) ++ [existT (mark_processed raw_id intent) x] ->
        exists items, as_items data = Some items /\ Forall (stored (((tr ++ tr') ++ tr2) ++ [existT (mark_processed raw_id intent) x]) raw_id) items).
      { intros i r _. exists items. split; [done|]. eapply stored_all; [|by apply S]. set_solver. }
      destruct x as [[]|e]; (split; [exact K|]); [split; [done|]; left; exists intent | right; right; left; exists intent]; set_solver.
    + rewrite exec_bind. unfold perform at 1. cbn [exec]. set (c := mark_error _ _ _). set (x := w (tr ++ tr') c). clearbody x. destruct x as [[]|e].
      * cbn [fst snd]. rewrite exec_bind. unfold silently. rewrite exec_attempt, exec_perform. cbn [fst snd].
        set (y := w _ _). clearbody y. set (ca := _alert_skipped _ _) in *.
        match goal with |- context [?l ++ [existT ca y]] => set (tr3 := l ++ [existT ca y]) end.
        assert (N1 : forall i r, existT (mark_processed raw_id i) r ∈ tr3 ->
          exists items, as_items data = Some items /\ Forall (stored tr3 raw_id) items).
        { intros i r I. exfalso. apply elem_of_app in I as [I|I]; [exact (only_marked _ _ _ _ _ U2 _ _ I)|].
          apply list_elem_of_singleton, (f_equal projT1) in I. done. }
        assert (N2 : existT c (Ok tt) ∈ tr3) by (apply elem_of_app; left; apply elem_of_app; right; apply list_elem_of_here).
        destruct y as [y|e]; [|destruct (is_exception e)]; cbn [exec mret prog_ret raise]; (split; [exact N1|]);
          [split; [done|]; right; by do 2 eexists.. | right; right; right; by do 3 eexists].
      * split; [|right; right; right; do 3 eexists; apply elem_of_app; right; apply list_elem_of_here].
        intros i r I. exfalso. exact (only_marked _ _ _ _ _ U2 _ _ I).
Qed.

(** ** Over the tables of reports *)

(** No fact disappears. *)
Definition kept (s s' : db) : Prop := forall k, is_Some (events s !! k) -> is_Some (events s' !! k).

#[local] Instance kept_preorder : PreOrder kept.
Proof. split; [by intros s k|]. intros s1 s2 s3 A B k K. auto. Qed.

Lemma kept_restate {A} (m : tx_ A) : within restate m -> within kept m.
Proof. intros R s a s' E k K. destruct (R s a s' E) as (_ & -> & _). done. Qed.

Lemma kept_modify f : (forall s, events (f s) = events s) -> within (E:=exc) kept (modify f).
Proof. intros F. apply within_modify. intros s k. by rewrite F. Qed.

Lemma kept_dirty at_ : within kept (mark_dirty at_).
Proof. apply kept_restate, within_dirty. Qed.
Hint Resolve kept_dirty : within.

Lemma kept_refresh id src d : within kept (_refresh_batch id src d).
Proof. apply kept_restate, within_refresh. Qed.
Hint Resolve kept_refresh : within.

Lemma kept_repair b ids : within kept (_repair_report_projection b ids).
Proof.
  unfold _repair_report_projection. assert (R : within kept (repair_message_projection_from_report b ids)).
  { induction ids as [|id ids IH]; cbn [repair_message_projection_from_report]; unfold repair_one; within_tac; by apply kept_modify. }
  assert (N : forall rows, within kept (note_reports rows)).
  { induction rows as [|[[k id] st] rows IH]; cbn [note_reports]; within_tac. by apply kept_modify. }
  within_tac; auto.
Qed.
Hint Resolve kept_repair : within.

Lemma persist_keeps raw_id r : within kept (_persist_event raw_id r).
Proof.
  unfold _persist_event. within_tac. apply within_modify. intros s k [e K]. simpl.
  destruct (decide (k = event_key r)) as [->|N]; [by rewrite lookup_insert_eq | rewrite lookup_insert_ne by done; by exists e].
Qed.
Hint Resolve persist_keeps : within.

Lemma persist_stores raw_id r s s' : _persist_event raw_id r s = Ok (tt, s') -> is_Some (events s' !! event_key r).
Proof.
  unfold _persist_event. intros E. stx. destruct (events s !! event_key r) eqn:K; stx; [by eexists|]. simpl. by rewrite lookup_insert_eq.
Qed.

Lemma matched_rest now raw_id r matches s a s' : ReportStore.apply_matched now raw_id r matches s = Ok (a, s') ->
  is_Some (events s' !! event_key r) /\ kept s s'.
Proof.
  intros E. assert (K : within kept (ReportStore.apply_matched now raw_id r matches)).
  { unfold ReportStore.apply_matched, project_report. within_tac; try (by apply kept_modify).
    apply kept_modify. intros s0. unfold note_late_evidence. by destruct (Delivery.chunk_id _). }
  split; [|by eapply K]. unfold ReportStore.apply_matched in E. apply stex_bind_ok in E as ([] & s1 & P & E).
  apply persist_stores in P. revert E. match goal with |- ?m s1 = _ -> _ => assert (W : within kept m); [|intros E; by apply (W s1 a s' E)] end.
  unfold project_report. within_tac; try (by apply kept_modify). apply kept_modify. intros s0. unfold note_late_evidence.
  by destruct (Delivery.chunk_id _).
Qed.

Lemma kept_applied now raw_id r : within kept (ReportStore.apply_report now raw_id r).
Proof.
  intros s a s' E. unfold ReportStore.apply_report in E. apply stex_bind_ok in E as (? & ? & G & E).
  injection G as <- <-. by apply matched_rest in E as [_ K].
Qed.

Lemma kept_unmatched raw_id r : within kept (ReportStore.persist_unmatched raw_id r).
Proof. unfold ReportStore.persist_unmatched. within_tac. by apply kept_modify. Qed.

(** What a transaction answers: its result, or an error of the connection,
    before or after the commit. *)
Definition answered {A} (m : tx_ A) (r : result exc A) (s s' : db) : Prop :=
  (r, s') = transaction m s \/
  exists e, r = Raise e /\ (s' = s \/ s' = snd (transaction m s)).

(** What a call does to the database; the marks and the alerts are of other
    tables. *)
Definition served (c : call) : result exc (answer c) -> db -> db -> Prop :=
  match c with
  | apply_report raw_id r => fun a s s' => exists now, answered (ReportStore.apply_report now raw_id r) a s s'
  | persist_unmatched raw_id r => answered (ReportStore.persist_unmatched raw_id r)
  | _ => fun _ s s' => s' = s
  end.

(** The database from [s] to [s'] while the calls of a trace are served; other
    transactions take place before, between and after them, and delete no fact. *)
Inductive ran (s : db) : trace -> db -> Prop :=
| ran_nil s' : kept s s' -> ran s [] s'
| ran_call tr s1 c r s2 s3 :
    ran s tr s1 -> served c r s1 s2 -> kept s2 s3 -> ran s (tr ++ [existT c r]) s3.

Lemma kept_transaction {A} (m : tx_ A) s : within kept m -> kept s (snd (transaction m s)).
Proof. intros W. by apply (within_transaction kept). Qed.

Lemma served_kept c r s s' : served c r s s' -> kept s s'.
Proof.
  assert (K : forall A (m : tx_ A) a, within kept m -> answered m a s s' -> kept s s').
  { intros A m a W [E | (e & _ & [-> | ->])]; [|done|by apply kept_transaction].
    pose proof (kept_transaction m s W) as K. by rewrite <- E in K. }
  destruct c; cbn [served]; try (by intros ->).
  - intros [now X]. eapply K; [apply kept_applied | exact X].
  - apply K, kept_unmatched.
Qed.

Lemma ran_snoc s tr x s' : ran s (tr ++ [x]) s' -> exists s1 s2, ran s tr s1 /\ served (projT1 x) (projT2 x) s1 s2 /\ kept s2 s'.
Proof.
  intros R. inversion R as [? ? E | tr0 s1 c r s2 s3 R' S K E]; [by destruct tr|].
  apply app_inj_tail in E as [<- <-]. by exists s1, s2.
Qed.

(** The states around a call of the trace. *)
Lemma ran_at s t1 x t2 s' : ran s (t1 ++ x :: t2) s' ->
  exists s1 s2, served (projT1 x) (projT2 x) s1 s2 /\ kept s2 s'.
Proof.
  revert s'. induction t2 as [|y t2 IH] using rev_ind; intros s' R.
  - apply ran_snoc in R as (s1 & s2 & _ & S & K). by exists s1, s2.
  - rewrite app_comm_cons, app_assoc in R. apply ran_snoc in R as (s1 & s2 & R & S & K).
    destruct (IH _ R) as (s3 & s4 & S3 & K3). exists s3, s4. split; [done|].
    etrans; [exact K3|]. etrans; [by eapply served_kept | exact K].
Qed.

(** An answer that is no error comes from the transaction. *)
Lemma answered_ok {A} (m : tx_ A) a s s' : answered m (Ok a) s s' -> m s = Ok (a, s').
Proof.
  intros [E | (e & [=] & _)]. unfold transaction in E. destruct (m s) as [[b s1]|]; [|done]. by injection E as -> ->.
Qed.

(** A committed report is an event of the database from then on. *)
Lemma settled_kept s0 tr s raw_id r : ran s0 tr s -> settled tr raw_id r -> is_Some (events s !! event_key r).
Proof.
  intros R [[a A]|U].
  - apply list_elem_of_split in A as (t1 & t2 & ->). apply ran_at in R as (s1 & s2 & [now E] & K). apply K.
    apply answered_ok in E. unfold ReportStore.apply_report in E. apply stex_bind_ok in E as (? & ? & G & E).
    injection G as <- <-. by apply matched_rest in E as [X _].
  - apply list_elem_of_split in U as (t1 & t2 & ->). apply ran_at in R as (s1 & s2 & E & K). apply K.
    apply answered_ok in E. unfold ReportStore.persist_unmatched in E. apply stex_bind_ok in E as ([] & s3 & P & E).
    apply persist_stores in P. apply stex_bind_ok in E as (? & ? & G & E). injection G as <- <-.
    destruct (unmatched s3 !! event_key r); stx; exact P.
Qed.

(** C12: No report of a payload is lost, whatever the clock, the lease, the
    alerts and the marks answer, whatever other transactions change in between
    without deleting facts, and however the transactions on the report tables
    end: each may commit and answer, fail, lose its connection, or commit and
    lose its answer.  The payload is marked as processed only when every item
    of it was parsed and the fact it reports is a row of the event table; a run
    that returns has marked the payload as processed or as erroneous; and a run
    that raises has attempted one of the marks, or it was cancelled or lost its
    lease, whose new owner reads the payload again. *)
Theorem reports_not_lost w beat raw_id data intent tr res s0 s :
  exec w [] (process_existing beat raw_id data intent) = (tr, res) -> ran s0 tr s ->
  (forall i r, existT (mark_processed raw_id i) r ∈ tr ->
     exists items, as_items data = Some items /\
       Forall (fun it => exists nonce r, parse nonce it = Ok r /\ is_Some (events s !! event_key r)) items) /\
  concluded tr raw_id (data_length data) res.
Proof.
  intros E R. pose proof (ingest_outcome w beat raw_id data intent) as O. rewrite E in O. destruct O as [S K].
  split; [|exact K]. intros i r I. destruct (S i r I) as (items & It & F). exists items. split; [done|].
  eapply Forall_impl; [exact F|]. intros it (nonce & rep & P & St). exists nonce, rep. split; [done|]. by eapply settled_kept.
Qed.
End ingest.

(** ** An example: one item, no message for it *)

Definition example_data : json := JList [JObj ReportKey.example_item].

(** The repository answers as its transactions do, undisturbed. *)
Definition example_call (c : call) : tx_ unit :=
  match c with
  | apply_report raw_id r => void (ReportStore.apply_report 0 raw_id r)
  | persist_unmatched raw_id r => ReportStore.persist_unmatched raw_id r
  | _ => mret tt
  end.
Definition example_db (h : list (Effects.entry answer exc)) : db :=
  foldl (fun s x => snd (transaction (example_call (projT1 x)) s)) empty_db h.
Definition example_world : Effects.world answer exc := fun h c =>
  match c with
  | apply_report raw_id r => fst (transaction (ReportStore.apply_report 0 raw_id r) (example_db h))
  | persist_unmatched raw_id r => fst (transaction (ReportStore.persist_unmatched raw_id r) (example_db h))
  | filter_known_custom_ids _ => Ok []
  | deadline_passed => Ok false
  | urandom => Ok CryptoSafety.example_nonce
  | update_metadata _ _ _ | mark_processed _ _ | mark_error _ _ _ | raise_if_lost
  | _alert_failure_rate _ | _alert_skipped _ _ => Ok tt
  end.
Definition example_run : program Z :=
  @process_existing CryptoSafety.sum_ciphers ReportKey.noon ReportKey.plus_eight ReportKey.digit_sum ReportKey.no_text
    CryptoSafety.first_service true 1 example_data false.

Lemma example_processed : fst (exec example_world [] example_run) !! 8%nat = Some (existT (mark_processed 1 false) (Ok tt)).
Proof. vm_compute. reflexivity. Qed.

Lemma void_transaction {A} (m : tx_ A) s : snd (transaction (void m) s) = snd (transaction m s).
Proof. unfold transaction, void, mbind, stex_bind. by destruct (m s) as [[]|]. Qed.

Lemma example_ran (tr : list (Effects.entry answer exc)) :
  (forall t1 (x : Effects.entry answer exc) t2, tr = t1 ++ x :: t2 -> projT2 x = example_world t1 (projT1 x)) -> ran empty_db tr (example_db tr).
Proof.
  induction tr as [|[c r] tr IH] using rev_ind; intros C; [apply ran_nil; by intros k|].
  pose proof (C tr (existT c r) [] eq_refl) as E. cbn [projT1 projT2] in E. subst r.
  eapply ran_call; [apply IH; intros t1 x t2 ->; apply (C _ _ (t2 ++ [existT c (example_world (t1 ++ x :: t2) c)])); by rewrite <- app_assoc
                   | | by intros k].
  unfold example_db. rewrite foldl_app. cbn [foldl projT1]. fold (example_db tr).
  destruct c; cbn [served example_call example_world]; try reflexivity.
  - exists 0. left. rewrite void_transaction. symmetry. apply surjective_pairing.
  - left. symmetry. apply surjective_pairing.
Qed.

Lemma reports_not_lost_witness : exists items, as_items example_data = Some items /\
  Forall (fun it => exists nonce r,
    @_parse CryptoSafety.sum_ciphers ReportKey.noon ReportKey.plus_eight ReportKey.digit_sum ReportKey.no_text
      CryptoSafety.first_service nonce it = Ok r /\
    is_Some (events (example_db (fst (exec example_world [] example_run))) !! event_key r)) items.
Proof.
  pose proof (@reports_not_lost CryptoSafety.sum_ciphers ReportKey.noon ReportKey.plus_eight ReportKey.digit_sum ReportKey.no_text
    CryptoSafety.first_service example_world true 1 example_data false (fst (exec example_world [] example_run))
    (snd (exec example_world [] example_run)) empty_db (example_db (fst (exec example_world [] example_run)))
    (surjective_pairing _)) as T.
  pose proof (exec_answers example_world example_run) as C. pose proof example_processed as P.
  destruct T as [S _]; [exact (example_ran _ C)|]. exact (S false (Ok tt) (list_elem_of_lookup_2 _ _ _ P)).
Defined.
End ReportIngest.
