(* ===== verification/ReportSweep.v ===== *)
(** * The sweep of overdue reports

    [services/report_timeout.py] and the loop of
    [SqlReportRepository.expire_due_reports]: claimed batches are swept one
    after the other in transactions of their own, within bounds on batches,
    messages and time.  A sweep that says nothing is left has seen every batch
    without anything overdue. *)

From S2P Require Import Prelude PyText Failover Effects UsageStore ReportStore ReportSafety ReportCounts.

Module ReportSweep.
Import ReportStore ReportSafety ReportCounts.

(** ** The policy *)

Definition InvalidRuntimePolicy (msg : text) : exc := Exc (tx "InvalidRuntimePolicy") msg.
Definition MAX_TIMEOUT_HOURS : Z := 720.
Definition MAX_BATCH_LIMIT : Z := 500.
Definition MAX_MESSAGE_LIMIT : Z := 2000.
Definition MAX_ROUND_SECONDS : Z := 120.
Definition MAX_STATEMENT_TIMEOUT_MS : Z := 30000.
Definition MAX_LOCK_TIMEOUT_MS : Z := 10000.

(** [str.isdigit] of a text whose digits are decimal ones; what else it admits
    (superscripts) [int] refuses. *)
Definition isdigit_int (other_digit : Z -> bool) (s : text) : option (result exc Z) :=
  if negb (bool_decide (s = [])) && forallb (fun c => is_digit c || other_digit c) s
  then Some (match py_int s with Some n => Ok n | None => Raise (ValueError "invalid literal for int()") end)
  else None.

Definition parse_report_timeout_hours (other_digit : Z -> bool) (raw : option text) : result exc Z :=
  match raw with
  | None => Raise (InvalidRuntimePolicy (utx "report_timeout_hours 缺失"))
  | Some t =>
      match isdigit_int other_digit (strip t) with
      | None => Raise (InvalidRuntimePolicy (utx "report_timeout_hours 必须为正整数"))
      | Some v =>
          value ← v;
          _ ← refuse (value <? 1) (InvalidRuntimePolicy (utx "report_timeout_hours 必须为正整数"));
          _ ← refuse (MAX_TIMEOUT_HOURS <? value)
                (InvalidRuntimePolicy (utx "report_timeout_hours 不得大于 " ++ str_int MAX_TIMEOUT_HOURS));
          Ok value
      end
  end.

(** The time budget in milliseconds. *)
Record SweepBounds := mkBounds {
  batch_limit : Z;
  message_limit_per_batch : Z;
  max_round_ms : Z;
  statement_timeout_ms : Z;
  lock_timeout_ms : Z
}.

Definition _require_int (name : string) (raw minimum maximum : Z) : result exc Z :=
  _ ← refuse ((raw <? minimum) || (maximum <? raw))
        (InvalidRuntimePolicy (tx name ++ utx " 必须在 " ++ str_int minimum ++ tx "-" ++ str_int maximum ++ utx " 之间"));
  Ok raw.

Definition validate_sweep_bounds (batches messages round_ms statement lock : Z) : result exc SweepBounds :=
  b ← _require_int "batch_limit" batches 1 MAX_BATCH_LIMIT;
  m ← _require_int "message_limit_per_batch" messages 1 MAX_MESSAGE_LIMIT;
  _ ← refuse ((round_ms <=? 0) || (MAX_ROUND_SECONDS * 1000 <? round_ms))
        (InvalidRuntimePolicy (tx "max_round_seconds" ++ utx " 必须在 0 与 " ++ str_int MAX_ROUND_SECONDS ++ utx " 之间"));
  s ← _require_int "statement_timeout_ms" statement 100 MAX_STATEMENT_TIMEOUT_MS;
  l ← _require_int "lock_timeout_ms" lock 50 MAX_LOCK_TIMEOUT_MS;
  Ok (mkBounds b m round_ms s l).

(** ** The loop *)

Inductive call :=
| out_of_time
| _claim_due_timeout_batch (exclude_ids : list Z)
| expire_claimed (batch_id generation : Z)
| _record_timeout_failure (batch_id generation : Z)
| _due_batches_exist (exclude_ids : list Z).

Definition answer (c : call) : Type :=
  match c with
  | out_of_time | _due_batches_exist _ => bool
  | _claim_due_timeout_batch _ => option (Z * Z)
  | expire_claimed _ _ => _BatchSweepOutcome
  | _record_timeout_failure _ _ => unit
  end.
Abbreviation program := (prog answer exc).

Definition is_class (name : string) (e : exc) : bool := let 'Exc cls _ := e in teqb cls (tx name).

Definition _expire_one_due_batch (exclude_ids : list Z) : program _BatchSweepOutcome :=
  claim ← perform (_claim_due_timeout_batch exclude_ids);
  match claim with
  | None => mret (mkSweep sweep_empty 0 0 false)
  | Some (batch_id, generation) =>
      catch (perform (expire_claimed batch_id generation)) (fun e =>
        if is_class "CancelledError" e then raise e else
        _ ← perform (_record_timeout_failure batch_id generation);
        mret (mkSweep sweep_failed batch_id 0 false))
  end.

Record SweepResult := mkResult {
  candidates : Z;
  batches_changed : Z;
  messages_changed : Z;
  skipped_locked : Z;
  failed : Z;
  more_remaining : bool
}.
Definition some_left (r : SweepResult) : SweepResult :=
  mkResult (candidates r) (batches_changed r) (messages_changed r) (skipped_locked r) (failed r) true.
Definition storage_failed (r : SweepResult) : SweepResult :=
  mkResult (candidates r) (batches_changed r) (messages_changed r) (skipped_locked r) (failed r + 1) true.
Definition locked_left (r : SweepResult) : SweepResult :=
  mkResult (candidates r) (batches_changed r) (messages_changed r) (skipped_locked r + 1) (failed r) true.

(** A swept batch in the counts. *)
Definition count_outcome (o : _BatchSweepOutcome) (r : SweepResult) : SweepResult :=
  let n := ReportStore.messages_changed o in
  match kind o with
  | sweep_failed =>
      mkResult (candidates r + 1) (batches_changed r) (messages_changed r) (skipped_locked r) (failed r + 1) true
  | _ =>
      mkResult (candidates r + 1) (batches_changed r + if n =? 0 then 0 else 1) (messages_changed r + n)
        (skipped_locked r) (failed r) (more_remaining r || more_in_batch o)
  end.

(** The cancellation by the timer of the round, which its block turns into a
    [TimeoutError]. *)
Definition is_round_timeout (e : exc) : bool := let 'Exc cls msg := e in teqb cls (tx "CancelledError") && teqb msg (tx "timeout").

Definition add_visited (b : Z) (visited : list Z) : list Z := if bool_decide (b ∈ visited) then visited else b :: visited.

Fixpoint sweep_rounds (n : nat) (visited : list Z) (r : SweepResult) : program (list Z * SweepResult) :=
  match n with
  | O => mret (visited, r)
  | S n =>
      over ← perform out_of_time;
      if over : bool then mret (visited, some_left r) else
      attempt (_expire_one_due_batch visited) (fun res =>
        match res with
        | Raise e =>
            if is_round_timeout e then mret (visited, some_left r)
            else if is_class "CancelledError" e then raise e
            else if is_class "TimeoutError" e then mret (visited, some_left r)
            else mret (visited, storage_failed r)
        | Ok o =>
            match kind o with
            | sweep_empty =>
                attempt (perform (_due_batches_exist visited)) (fun res =>
                  match res with
                  | Raise e => if is_round_timeout e || is_class "TimeoutError" e then mret (visited, some_left r) else raise e
                  | Ok more => mret (visited, if more : bool then locked_left r else r)
                  end)
            | _ => sweep_rounds n (add_visited (sweep_batch o) visited) (count_outcome o r)
            end
        end)
  end.

Definition expire_due_reports (limit : nat) : program SweepResult :=
  '(visited, r) ← sweep_rounds limit [] (mkResult 0 0 0 0 0 false);
  mret (if (limit <=? length visited)%nat then some_left r else r).

(** [ReportTimeoutService.expire_due_reports] after its policy was read *)
Definition sweep (bounds : SweepBounds) : program SweepResult :=
  r ← expire_due_reports (Z.to_nat (batch_limit bounds));
  if (0 <? failed r) && (batches_changed r =? 0) && (messages_changed r =? 0)
  then raise (Exc (tx "ReportTimeoutStorageError") (tx "report timeout storage failed without commits"))
  else mret r.

(** ** Over the tables of reports *)

Abbreviation trace := (list (Effects.entry answer exc)).

(** What surrounds the call made after a history: its time, the clock of its
    statement, the rows other transactions hold and whether one holds the
    claimed row, and the database before it; and the database after the last
    call of a history. *)
Record environment := mkEnv {
  now_at : trace -> Z;
  clock_at : trace -> Z;
  locked_at : trace -> list Z;
  held_at : trace -> bool;
  before : trace -> db;
  after : trace -> db
}.

Section store.
Context (hours : Z) (message_limit : nat) (received : ProtectedReport -> Prop) (v : environment).

Definition tx_of (h : trace) (c : call) : tx_ (answer c) :=
  match c with
  | out_of_time => mret false
  | _claim_due_timeout_batch exclude =>
      ReportStore._claim_due_timeout_batch (now_at v h) (clock_at v h) hours exclude (locked_at v h)
  | expire_claimed b g => ReportStore.expire_claimed (now_at v h) hours message_limit (held_at v h) b g
  | _record_timeout_failure b g => ReportStore._record_timeout_failure (clock_at v h) b g
  | _due_batches_exist exclude => s ← get; mret (ReportStore._due_batches_exist (now_at v h) hours exclude s)
  end.

(** Between the calls other transactions of the system take place; a call
    answers as its transaction does, or raises, whether or not it committed;
    the timer of the round is free. *)
Definition backed (w : Effects.world answer exc) : Prop :=
  (forall h, rtc (step received) (after v h) (before v h)) /\
  forall h c, let out := transaction (tx_of h c) (before v h) in
    let s' := after v (h ++ [existT c (w h c)]) in
    match w h c with
    | Ok a => c = out_of_time /\ s' = before v h \/ out = (Ok a, s')
    | Raise _ => s' = before v h \/ s' = snd out
    end.

(** Nothing of a batch was overdue when one of the calls of the history ended. *)
Definition seen_clear (h : trace) (b : Z) : Prop :=
  exists h1 x h2, h = h1 ++ x :: h2 /\ _batch_has_due_sent (now_at v h1) hours b (after v (h1 ++ [x])) = false.

Lemma seen_more h h' b : seen_clear h b -> seen_clear (h ++ h') b.
Proof. intros (h1 & x & h2 & -> & D). exists h1, x, (h2 ++ h'). by rewrite <- app_assoc. Qed.

Lemma due_iff now b s : _batch_has_due_sent now hours b s = true <->
  exists id m, messages s !! id = Some m /\ Delivery.batch_id m = b /\ due_message now hours s m = true.
Proof.
  unfold _batch_has_due_sent. rewrite existsb_exists. split.
  - intros ([id m] & I & D). apply list_elem_of_In, elem_of_map_to_list in I. bool_prop. simpl in *. eauto.
  - intros (id & m & M & B & D). exists (id, m). split; [by apply list_elem_of_In, elem_of_map_to_list|]. simpl. by rewrite B, Z.eqb_refl, D.
Qed.

(** The messages and chunks are the same. *)
Definition still (s s' : db) : Prop := messages s' = messages s /\ chunks s' = chunks s.
#[local] Instance still_preorder : PreOrder still.
Proof. split; [by split|]. intros s1 s2 s3 [A B] [C D]. split; congruence. Qed.

Lemma still_due now s s' b : still s s' -> _batch_has_due_sent now hours b s' = _batch_has_due_sent now hours b s.
Proof. intros [M C]. unfold _batch_has_due_sent, due_message. by rewrite M, C. Qed.

Lemma still_refresh b src d : within still (_refresh_batch b src d).
Proof.
  unfold _refresh_batch, recount, apply_delta, update_counts, release_note, gen_random_uuid, delta_counts.
  within_tac; by apply within_modify.
Qed.

(** A swept batch: what it says is left is left. *)
Lemma expire_clear now lim h b g s o s' : facts received s ->
  ReportStore.expire_claimed now hours lim h b g s = Ok (o, s') ->
  kind o <> sweep_empty /\ kind o <> sweep_failed /\ sweep_batch o = b /\
  (more_in_batch o = false -> _batch_has_due_sent now hours b s' = false).
Proof.
  intros F H. unfold ReportStore.expire_claimed in H. apply stex_bind_ok in H as (? & ? & G & H). injection G as <- <-.
  destruct (batches s !! b) as [row|]; [|by stx]. destruct (_ || _); [by stx|]. cbv zeta in H.
  apply stex_bind_ok in H as (? & ? & G & H). rewrite (repair_idle received s b _ F) in G. injection G as <- <-.
  apply stex_bind_ok in H as (n & s1 & E & H).
  apply stex_bind_ok in H as (? & ? & G & H). injection G as <- <-. apply stex_bind_ok in H as ([] & s2 & R & H). stx.
  assert (S : still s1 (set_batches (alter (fun b => if Counted.generation b =? g
     then Counted.set_schedule (Counted.last_attempt_at b) None (Counted.generation b) 0 b else b) b) s2)).
  { transitivity s2; [|by split]. destruct (n =? 0); [by stx | by eapply still_refresh]. }
  simpl. split_and!; try done. intros M. by rewrite (still_due _ _ _ _ S).
Qed.

(** ** A run against the tables *)

Section run.
Context (G : genuine received) (w : Effects.world answer exc) (B : backed w).

Lemma transaction_sound h c s : sound received s -> sound received (snd (transaction (tx_of h c) s)).
Proof.
  intros S. unfold transaction. destruct (tx_of h c s) as [[x s']|e] eqn:E; [|done]. cbn [snd].
  destruct c; cbn [tx_of] in E; try (by stx).
  - eapply (sound_transaction received (OpClaim (now_at v h) (clock_at v h) hours exclude_ids (locked_at v h)));
      [done | done | exact S|]. cbn [transaction_of]. unfold void, mbind, stex_bind. by rewrite E.
  - eapply (sound_transaction received (OpExpire (now_at v h) hours message_limit (held_at v h) batch_id generation));
      [done | done | exact S|]. cbn [transaction_of]. unfold void, mbind, stex_bind. by rewrite E.
  - destruct x. eapply (sound_transaction received (OpTimeoutFailure (clock_at v h) batch_id generation)); [done | done | exact S | exact E].
Qed.

Lemma before_sound h : sound received (after v h) -> sound received (before v h).
Proof.
  intros S. destruct B as [R _]. specialize (R h). eapply (rtc_invariant (step received) (sound received)); [|exact R | exact S].
  intros s1 s2 S1 St. by eapply sound_step.
Qed.

Lemma after_sound h c : sound received (after v h) -> sound received (after v (h ++ [existT c (w h c)])).
Proof.
  intros S%before_sound. destruct B as [_ A]. specialize (A h c). cbv zeta in A. destruct (w h c) as [a|e].
  - destruct A as [[_ ->]|A]; [done|]. pose proof (transaction_sound h c _ S) as T. by rewrite A in T.
  - destruct A as [->| ->]; [done|]. by apply transaction_sound.
Qed.

Lemma answered h c a : w h c = Ok a -> c <> out_of_time ->
  tx_of h c (before v h) = Ok (a, after v (h ++ [existT c (Ok a)])).
Proof.
  intros W N. destruct B as [_ A]. specialize (A h c). cbv zeta in A. rewrite W in A. destruct A as [[? _]|A]; [done|].
  unfold transaction in A. destruct (tx_of h c (before v h)) as [[x s']|e]; [|done]. by injection A as -> ->.
Qed.

(** A claimed batch was not visited. *)
Lemma claimed_new h exclude b g : w h (_claim_due_timeout_batch exclude) = Ok (Some (b, g)) -> b ∉ exclude.
Proof.
  intros W. pose proof (answered h _ _ W ltac:(done)) as E. cbn [tx_of] in E.
  unfold ReportStore._claim_due_timeout_batch in E. apply stex_bind_ok in E as (? & ? & X & E). injection X as <- <-.
  destruct (fairest _) as [[id row]|] eqn:Fr; [|discriminate E]. injection E as -> _ _. apply fairest_in, filter_in in Fr as [_ C].
  unfold claimable in C. bool_prop. done.
Qed.

(** Nothing outside the visited batches is overdue. *)
Lemma none_left h visited b : sound received (after v h) -> w h (_due_batches_exist visited) = Ok false ->
  b ∉ visited -> seen_clear (h ++ [existT (_due_batches_exist visited) (Ok false)]) b.
Proof.
  intros [F _]%before_sound W N. pose proof (answered h _ _ W ltac:(done)) as E. cbn [tx_of] in E. injection E as X0 Ha.
  exists h, (existT (_due_batches_exist visited) (Ok false)), []. split; [done|].
  enough (D : _batch_has_due_sent (now_at v h) hours b (before v h) = false) by (rewrite Ha in D; exact D).
  apply not_true_iff_false. intros D. destruct (proj1 (due_iff _ b _) D) as (id & m & M & Bm & _).
  destruct (f_batch _ _ F id m M) as [row R]. rewrite Bm in R.
  apply not_true_iff_false in X0. apply X0. unfold ReportStore._due_batches_exist. apply existsb_exists.
  exists (b, row). split; [by apply list_elem_of_In, elem_of_map_to_list|]. simpl. apply andb_true_iff. split; [exact D|].
  by rewrite bool_decide_eq_false_2.
Qed.

(** The visited batches were seen without anything overdue as long as nothing
    was left. *)
Definition swept (h : trace) (visited : list Z) (r : SweepResult) : Prop :=
  sound received (after v h) /\ (more_remaining r = false -> forall b, b ∈ visited -> seen_clear h b).

Lemma swept_call h visited r c : swept h visited r -> swept (h ++ [existT c (w h c)]) visited r.
Proof. intros [S V]. split; [by apply after_sound|]. intros R b X. by apply seen_more, V. Qed.

(** How a sweep may raise: it was cancelled, or it read whether something is
    left, or the timer, and failed. *)
Definition broke (h : trace) (e : exc) : Prop :=
  is_class "CancelledError" e = true \/ existT out_of_time (Raise e) ∈ h \/
  exists visited, existT (_due_batches_exist visited) (Raise e) ∈ h.

(** One batch: it was not visited before and is swept now, or something is left. *)
Lemma one_batch h visited r : swept h visited r ->
  let '(h', res) := exec w h (_expire_one_due_batch visited) in
  swept h' visited r /\
  match res with
  | Ok o => kind o = sweep_empty \/
            kind o <> sweep_empty /\ (sweep_batch o ∉ visited) /\ swept h' (add_visited (sweep_batch o) visited) (count_outcome o r)
  | Raise _ => True
  end.
Proof.
  intros S. unfold _expire_one_due_batch. rewrite exec_bind. unfold perform at 1. cbn [exec].
  pose proof (swept_call h visited r (_claim_due_timeout_batch visited) S) as S1.
  set (h1 := h ++ [existT (_claim_due_timeout_batch visited) (w h (_claim_due_timeout_batch visited))]) in *.
  destruct (w h (_claim_due_timeout_batch visited)) as [[[b g]|]|e] eqn:W; [|split; [done|]; by left | done].
  pose proof (claimed_new h visited b g W) as N. rewrite exec_catch. unfold perform at 1. cbn [exec].
  pose proof (swept_call h1 visited r (expire_claimed b g) S1) as S2.
  set (h2 := h1 ++ [existT (expire_claimed b g) (w h1 (expire_claimed b g))]) in *.
  destruct (w h1 (expire_claimed b g)) as [o|e] eqn:W2.
  - pose proof (answered h1 _ _ W2 ltac:(done)) as E. cbn [tx_of] in E.
    apply expire_clear in E as (K1 & K2 & Bo & M); [|apply before_sound, S1]. split; [done|]. right. rewrite Bo. split; [done|].
    split; [done|]. split; [apply S2|]. unfold add_visited. rewrite bool_decide_eq_false_2 by done.
    unfold count_outcome. destruct (kind o); try done; cbn [more_remaining]; intros [R Mo]%orb_false_iff x [->|X]%elem_of_cons;
      first [by apply (proj2 S2) | exists h1, (existT (expire_claimed b g) (Ok o)), []; split; [done | by apply M]].
  - destruct (is_class "CancelledError" e); [done|]. rewrite exec_bind. unfold perform at 1. cbn [exec].
    pose proof (swept_call h2 visited r (_record_timeout_failure b g) S2) as S3.
    destruct (w h2 (_record_timeout_failure b g)) as [[]|e']; [|done]. split; [done|]. right. split_and!; [done..|]. split; [apply S3 | done].
Qed.

(** The end of the rounds: all of them were used, or every batch was seen
    without anything overdue, unless something is left. *)
Definition ended (n : nat) (visited : list Z) (h : trace) (res : result exc (list Z * SweepResult)) : Prop :=
  match res with
  | Ok out => more_remaining (snd out) = false ->
                length (fst out) = (length visited + n)%nat \/ forall b, seen_clear h b
  | Raise e => broke h e
  end.

Lemma rounds_ok n : forall h visited r, swept h visited r ->
  let '(h', res) := exec w h (sweep_rounds n visited r) in ended n visited h' res.
Proof.
  induction n as [|n IH]; intros h visited r S; cbn [sweep_rounds].
  { cbn [exec mret prog_ret]. intros _. left. simpl. lia. }
  rewrite exec_bind. unfold perform at 1. cbn [exec].
  pose proof (swept_call h visited r out_of_time S) as S'. set (h1 := h ++ [existT out_of_time (w h out_of_time)]) in *.
  destruct (w h out_of_time) as [[]|e]; [done| |right; left; apply elem_of_app; right; apply list_elem_of_here]. rewrite exec_attempt.
  pose proof (one_batch h1 visited r S') as O. destruct (exec w h1 (_expire_one_due_batch visited)) as [h2 res].
  destruct O as (S2 & O). cbn [fst snd]. destruct res as [o|e].
  - destruct O as [K|(Ke & N & Sw)].
    + rewrite K. rewrite exec_attempt. unfold perform. cbn [exec fst snd].
      pose proof (none_left h2 visited) as L. pose proof (swept_call h2 visited r (_due_batches_exist visited) S2) as S3.
      destruct (w h2 (_due_batches_exist visited)) as [[]|e] eqn:W; [done| |].
      * cbn [exec mret prog_ret]. intros R. right. intros b. destruct (decide (b ∈ visited)) as [X|X]; [by apply (proj2 S3 R)|].
        by apply L; [apply S2|..].
      * destruct (_ || _); [done|]. right; right. exists visited. apply elem_of_app; right; apply list_elem_of_here.
    + specialize (IH h2 _ _ Sw). assert (X : match kind o with
        | sweep_empty => False | _ => True end) by (by destruct (kind o)).
      destruct (kind o); [done|..]; (destruct (exec w h2 _) as [h3 [out|e]]; [|exact IH]; intros R; destruct (IH R) as [L|L]; [left|by right];
        rewrite L; unfold add_visited; rewrite bool_decide_eq_false_2 by done; simpl; lia).
  - destruct (is_round_timeout e); [done|]. destruct (is_class "CancelledError" e) eqn:C; [by left|].
    by destruct (is_class "TimeoutError" e).
Qed.
End run.

(** C38: A sweep never passes a used-up budget off as a finished job.  While any
    transactions of the system take place between its own, whatever rows others
    hold, whichever of its calls fail, before or after their commit, and
    whenever its time is up: if the sweep returns that nothing remains, then for
    every batch there was a moment during the sweep, the end of one of its
    calls, at which no message of the batch was overdue.  And a sweep that
    raises was cancelled, could not read its timer or whether something is
    left, or says that the storage failed before anything was committed. *)
Theorem sweep_honest w bounds h res : genuine received -> reachable received (after v []) -> backed w ->
  exec w [] (sweep bounds) = (h, res) ->
  match res with
  | Ok r => more_remaining r = false -> forall b, seen_clear h b
  | Raise e => broke h e \/ is_class "ReportTimeoutStorageError" e = true
  end.
Proof.
  intros G R B. unfold sweep, expire_due_reports. rewrite !exec_bind.
  assert (I : swept [] [] (mkResult 0 0 0 0 0 false)).
  { split; [by apply sound_reachable | by intros _ b ?%elem_of_nil]. }
  pose proof (rounds_ok G w B (Z.to_nat (batch_limit bounds)) [] [] _ I) as O.
  destruct (exec w [] (sweep_rounds _ _ _)) as [h1 [[visited r]|e]]; [|intros [= <- <-]; by left].
  cbn [exec mret prog_ret]. destruct (Nat.leb_spec (Z.to_nat (batch_limit bounds)) (length visited)) as [L|L].
  - destruct (_ && _); cbn [exec mret prog_ret raise]; intros [= <- <-]; [by right | done].
  - destruct (_ && _); cbn [exec mret prog_ret raise]; intros [= <- <-]; [by right|].
    intros M. destruct (O M) as [N|N]; [simpl in N; lia | done].
Qed.
End store.

(** ** An example: one overdue message *)

Definition overdue_db : db :=
  set_chunks (<[3 := ReportChunk.mk 7 (tx "c-1") None ChunkStatus.submitted (Some 0) None]>) (history sent_batch).
Definition example_now : Z := 100 * HOUR_US.

(** The calls in turn, undisturbed, at one instant. *)
Definition quiet (f : trace -> db) : environment :=
  mkEnv (fun _ => example_now) (fun _ => example_now) (fun _ => []) (fun _ => false) f f.
Definition example_db (h : trace) : db :=
  foldl (fun s x => match projT2 x with
                    | Ok _ => snd (transaction (tx_of 72 10 (quiet (fun _ => s)) [] (projT1 x)) s)
                    | Raise _ => s
                    end) overdue_db h.
Definition example_env : environment := quiet example_db.
Definition example_world : Effects.world answer exc := fun h c =>
  match c with
  | out_of_time => Ok false
  | c => fst (transaction (tx_of 72 10 example_env h c) (example_db h))
  end.
Definition example_bounds : SweepBounds := mkBounds 5 10 1000 100 50.

Lemma overdue_reachable : reachable both overdue_db.
Proof.
  eapply rtc_r; [apply (history_reachable both sent_batch); repeat constructor|]. apply Outside.
  split_and!; try done.
  - intros c r C. destruct (decide (c = 3)) as [->|N].
    + exists (ReportChunk.mk 7 (tx "c-1") None ChunkStatus.submitted (Some 0) None). vm_compute in C |- *. injection C as <-. done.
    + exists r. split; [|done]. unfold overdue_db. simpl. by rewrite lookup_insert_ne.
  - intros id. change (batches overdue_db) with (batches (history sent_batch)).
    destruct (batches (history sent_batch) !! id); constructor. by left.
Qed.

Lemma example_sweep_backed : backed 72 10 both example_env example_world.
Proof.
  split; [done|]. intros h c. cbv zeta. cbn [example_env quiet before after].
  assert (E : example_db (h ++ [existT c (example_world h c)]) =
    match example_world h c with Ok _ => snd (transaction (tx_of 72 10 example_env h c) (example_db h)) | Raise _ => example_db h end).
  { unfold example_db at 1. rewrite foldl_app. fold (example_db h). cbn [foldl projT1 projT2]. by destruct c. }
  rewrite E. destruct (example_world h c) as [a|e] eqn:W; [|by left]. destruct c; [by left| | | |];
    right; cbn [example_world] in W; rewrite <- W; apply surjective_pairing.
Qed.

Definition example_result : SweepResult := mkResult 1 1 1 0 0 false.

Lemma example_sweeps : snd (exec example_world [] (sweep example_bounds)) = Ok example_result.
Proof. vm_compute. reflexivity. Qed.

Lemma sweep_honest_witness :
  _batch_has_due_sent example_now 72 7 overdue_db = true /\
  seen_clear 72 example_env (fst (exec example_world [] (sweep example_bounds))) 7.
Proof.
  split; [vm_compute; reflexivity|].
  pose proof (sweep_honest 72 10 both example_env example_world example_bounds (fst (exec example_world [] (sweep example_bounds)))
    (Ok example_result) both_genuine overdue_reachable example_sweep_backed) as T.
  refine (T _ eq_refl 7). rewrite <- example_sweeps. apply surjective_pairing.
Defined.
End ReportSweep.
