(* ===== verification/RawLog.v ===== *)
(** * Stored payloads of the vendor: classification, leases, replays

    [services/raw_parse.py], [services/raw_lease.py] and the transactions on
    [raw_vendor_log] of [services/report_repository.py],
    [services/ops_repository.py] and [services/housekeeping_repository.py].
    Instants are numbers of microseconds; a lease identifier is a number no
    lease had before.  [casefold] (a Unicode table) is an argument of the
    classification; an exception is what the classification reads of it: the
    class names of its chain of causes and its message. *)

From S2P Require Import Prelude PyText.

Module Capture.

Inductive t := complete | complete_too_large | truncated | protocol_invalid | unknown_legacy.

#[export] Instance eq_dec : EqDecision t.
Proof. solve_decision. Defined.

Definition name (c : t) : text :=
  match c with
  | complete => tx "complete"
  | complete_too_large => tx "complete_too_large"
  | truncated => tx "truncated"
  | protocol_invalid => tx "protocol_invalid"
  | unknown_legacy => tx "unknown_legacy"
  end.

End Capture.
Export (hints) Capture.

Module ParseState.

Inductive t := unattempted | transient_failure | protocol_invalid | processed.

#[export] Instance eq_dec : EqDecision t.
Proof. solve_decision. Defined.

End ParseState.
Export (hints) ParseState.

Module Eligibility.

Inductive t := automatic | manual | never.

#[export] Instance eq_dec : EqDecision t.
Proof. solve_decision. Defined.

End Eligibility.
Export (hints) Eligibility.

(** ** Classification ([raw_parse.py]) *)

Module RawParse.

Definition NON_REPLAYABLE_CAPTURE_STATES : list Capture.t :=
  [Capture.truncated; Capture.protocol_invalid; Capture.unknown_legacy].
Definition is_non_replayable_capture (c : Capture.t) : bool := bool_decide (c ∈ NON_REPLAYABLE_CAPTURE_STATES).

Record RawParseDisposition := mkDisposition {
  parse_state : ParseState.t;
  replay_eligibility : Eligibility.t;
  reason : text
}.

(** The classes ([__mro__] names) along the chain of causes, and [str(exc)]. *)
Record failure := mkFailure { chain : list (list text); message : text }.

Definition _TRANSIENT_TYPE_NAMES : list text := tx <$>
  ["BrokenPipeError"; "CancelledError"; "CannotConnectNowError"; "ConnectionDoesNotExistError"; "ConnectionError";
   "ConnectionFailureError"; "ConnectionRefusedError"; "ConnectionResetError"; "DeadlockDetectedError";
   "IdleInTransactionSessionTimeoutError"; "InternalClientError"; "InterfaceError"; "LockNotAvailableError";
   "OperationalError"; "QueryCanceledError"; "SerializationError"; "TimeoutError"; "TooManyConnectionsError"]%string.
Definition _TRANSIENT_ERROR_MARKERS : list text := tx <$>
  ["advisory lock"; "broken pipe"; "cancellederror"; "connection does not exist"; "connection refused";
   "connection reset"; "could not connect"; "could not obtain lock"; "deadlock"; "interfaceerror"; "lease expired";
   "lock not available"; "lock timeout"; "locknotavailable"; "operationalerror"; "query canceled";
   "serializationerror"; "server closed the connection"; "too many connections"; "timeout"]%string.
Definition _PROTOCOL_ERROR_MARKERS : list text := tx <$>
  ["content-encoding is forbidden"; "duplicate or ambiguous json"; "envelope is invalid"; "envelope must be an object";
   "must be an object array"; "parsing failed"; "raw vendor envelope is invalid"; "vendor http status";
   "vendor response content-encoding"; "vendor response envelope"; "vendor response is not json";
   "vendor response msg is invalid"; "vendor response parsing failed"; "vendorapierror"; "vendorprotocolerror"]%string.
Definition _NEVER_ERROR_MARKERS : list text := tx <$>
  ["content-encoding is forbidden"; "protocol-invalid vendor response"; "raw payload integrity mismatch";
   "truncated vendor response"; "vendor http status"; "vendor response content-encoding"; "vendorapierror"]%string.

(** [p in s] *)
Fixpoint infix (p s : text) : bool :=
  starts_with p s || match s with [] => false | _ :: s' => infix p s' end.

Definition is_transient_dependency_error (f : failure) : bool :=
  existsb (existsb (fun c => tmem c _TRANSIENT_TYPE_NAMES)) (chain f).

(** [isinstance(exc, cls)] *)
Definition isinstance (f : failure) (cls : string) : bool :=
  match chain f with mro :: _ => tmem (tx cls) mro | [] => false end.
Definition type_name (f : failure) : text :=
  match chain f with (c :: _) :: _ => c | _ => [] end.

Definition _http_success (status : option Z) : option bool := (fun s => (200 <=? s) && (s <? 300)) <$> status.

Section casefold.
Context (casefold : text -> text).

Definition _error_text (error : text) : text := casefold (strip error).
Definition any_marker (markers : list text) (t : text) : bool := existsb (fun m => infix m t) markers.
Definition has (marker : string) (t : text) : bool := infix (tx marker) t.

Definition _classify_error_text (error : text) : RawParseDisposition :=
  let t := _error_text error in
  if has "truncated vendor response" t then mkDisposition ParseState.unattempted Eligibility.never (tx "capture_truncated")
  else if has "protocol-invalid vendor response" t
  then mkDisposition ParseState.protocol_invalid Eligibility.never (tx "capture_protocol_invalid")
  else if has "oversized payload" t then mkDisposition ParseState.unattempted Eligibility.manual (tx "complete_too_large")
  else if has "raw payload integrity mismatch" t
  then mkDisposition ParseState.protocol_invalid Eligibility.never (tx "integrity")
  else if any_marker _TRANSIENT_ERROR_MARKERS t
  then mkDisposition ParseState.transient_failure Eligibility.automatic (tx "transient_dependency")
  else if any_marker _NEVER_ERROR_MARKERS t then
    mkDisposition ParseState.protocol_invalid Eligibility.never
      (if has "content-encoding" t then tx "content_encoding"
       else if has "http status" t then tx "http_status"
       else if has "integrity" t then tx "integrity"
       else if has "vendorapierror" t then tx "vendor_api_envelope" else tx "deterministic_wire")
  else if any_marker _PROTOCOL_ERROR_MARKERS t || has "skipped " t
  then mkDisposition ParseState.protocol_invalid Eligibility.manual (tx "deterministic_parse")
  else mkDisposition ParseState.unattempted Eligibility.manual (tx "unclassifiable").

Definition _classify_exception (f : failure) (error : option text) : RawParseDisposition :=
  if is_transient_dependency_error f
  then mkDisposition ParseState.transient_failure Eligibility.automatic (tx "transient_dependency")
  else if isinstance f "VendorApiError"
  then mkDisposition ParseState.protocol_invalid Eligibility.never (tx "vendor_api_envelope")
  else if isinstance f "VendorProtocolError" then
    if has "content-encoding" (message f) || has "HTTP status" (message f)
    then mkDisposition ParseState.protocol_invalid Eligibility.never
           (if has "content-encoding" (message f) then tx "content_encoding" else tx "http_status")
    else mkDisposition ParseState.protocol_invalid Eligibility.manual (tx "vendor_protocol")
  else if isinstance f "ValueError" || isinstance f "TypeError" || isinstance f "KeyError" || isinstance f "UnicodeError"
  then mkDisposition ParseState.protocol_invalid Eligibility.manual (type_name f)
  else match error with
       | Some ((_ :: _) as e) => _classify_error_text e
       | _ => mkDisposition ParseState.unattempted Eligibility.manual (type_name f)
       end.

Definition identity : text := tx "identity".
(** [(content_encoding or "identity").strip().casefold() or "identity"] *)
Definition normal_encoding (content_encoding : option text) : text :=
  match casefold (strip (match content_encoding with Some ((_ :: _) as e) => e | _ => identity end)) with
  | [] => identity
  | e => e
  end.

Definition classify_raw_disposition (capture_state : option Capture.t) (http_status : option Z)
    (content_encoding : option text) (processed : bool) (error : option text) (exc : option failure) (historical : bool)
    : RawParseDisposition :=
  let state := default Capture.complete capture_state in
  if processed then mkDisposition ParseState.processed Eligibility.never (tx "already_processed")
  else if is_non_replayable_capture state then
    mkDisposition (if bool_decide (state = Capture.protocol_invalid) then ParseState.protocol_invalid else ParseState.unattempted)
      Eligibility.never (tx "capture_" ++ Capture.name state)
  else if negb (teqb (normal_encoding content_encoding) identity)
  then mkDisposition ParseState.protocol_invalid Eligibility.never (tx "content_encoding")
  else if bool_decide (_http_success http_status = Some false)
  then mkDisposition ParseState.protocol_invalid Eligibility.never (tx "http_status")
  else if bool_decide (state = Capture.complete_too_large)
  then mkDisposition ParseState.unattempted Eligibility.manual (tx "complete_too_large")
  else match exc with
       | Some f => _classify_exception f error
       | None =>
           match error with
           | Some ((_ :: _) as e) => _classify_error_text e
           | _ => if historical && bool_decide (_http_success http_status = None)
                  then mkDisposition ParseState.unattempted Eligibility.manual (tx "unclassifiable")
                  else mkDisposition ParseState.unattempted Eligibility.automatic (tx "unattempted")
           end
       end.

Definition persist_disposition (capture_state : option Capture.t) (http_status : option Z) (content_encoding : option text)
    (processed : bool) : RawParseDisposition :=
  classify_raw_disposition capture_state http_status content_encoding processed None None false.

Definition mark_error_column_values (error : text) (exc : option failure) : RawParseDisposition :=
  classify_raw_disposition None None None false (Some error) exc false.

Definition processed_disposition : RawParseDisposition :=
  mkDisposition ParseState.processed Eligibility.never (tx "already_processed").

Definition reevaluate_disposition (capture_state : option Capture.t) (http_status : option Z) (content_encoding : option text)
    (processed : bool) (decode_error : option failure) (decoded_ok : bool) : RawParseDisposition :=
  if processed then processed_disposition else
  let wire := persist_disposition capture_state http_status content_encoding false in
  if bool_decide (replay_eligibility wire = Eligibility.never) then wire else
  match decode_error with
  | Some f => classify_raw_disposition capture_state http_status content_encoding false None (Some f) false
  | None => if decoded_ok then wire
            else classify_raw_disposition capture_state http_status content_encoding false None None true
  end.
End casefold.

Definition claim_eligibilities (allow_manual : bool) : list Eligibility.t :=
  if allow_manual then [Eligibility.automatic; Eligibility.manual] else [Eligibility.automatic].

Definition eligibility_conflict_message (value : Eligibility.t) (system_producer : bool) : option text :=
  if bool_decide (value = Eligibility.never) then Some (utx "该 raw 禁止重放")
  else if system_producer && negb (bool_decide (value = Eligibility.automatic)) then Some (utx "该 raw 不具备自动重放资格")
  else if negb (bool_decide (value ∈ claim_eligibilities (negb system_producer))) then Some (utx "该 raw 不具备重放资格")
  else None.

Definition auto_replay_allowed (e : Eligibility.t) (capture_state : option Capture.t) (processed : bool)
    (replay_attempts max_attempts : Z) : bool :=
  if processed then false
  else match capture_state with
       | Some c => if bool_decide (c = Capture.complete)
                   then bool_decide (e = Eligibility.automatic) && (replay_attempts <? max_attempts) else false
       | None => bool_decide (e = Eligibility.automatic) && (replay_attempts <? max_attempts)
       end.

(** Captures that cannot be replayed ([raw_capture_legacy.py]) *)
Definition replay_forbidden_message (c : Capture.t) : option text :=
  match c with
  | Capture.truncated => Some (utx "截断 raw 不得当作正常可重放")
  | Capture.protocol_invalid => Some (utx "截断或协议异常 raw 不得当作正常可重放")
  | Capture.unknown_legacy => Some (utx "未分类历史 raw 不得当作正常可重放，需人工盘点后再提升")
  | Capture.complete | Capture.complete_too_large => None
  end.
Definition reevaluate_forbidden_message (c : Capture.t) : option text :=
  if is_non_replayable_capture c then Some (utx "截断或协议异常 raw 不得重新评估为可重放") else None.
End RawParse.

(** ** The table *)

Inductive audit_state := audit_pending | audit_completed.
#[export] Instance audit_state_eq : EqDecision audit_state.
Proof. solve_decision. Defined.

(** [raw_vendor_log]; the identifier is the key. *)
Module RawRow.

Record t := mk {
  source : text;
  payload_enc : list Z;
  payload_sha256 : text;
  key_version : Z;
  http_status : Z;
  content_encoding : text;
  custom_ids : list text;
  item_count : Z;
  processed : bool;
  lease_id : option Z;
  epoch : Z;
  expires_at : option Z;
  error : option text;
  replay_attempts : Z;
  capture : Capture.t;
  parse : ParseState.t;
  eligibility : Eligibility.t;
  audit : option audit_state
}.

(** [SET processed, error, processing_started_at=NULL, parse_state,
    replay_eligibility, processing_lease_id=NULL, processing_lease_expires_at=NULL];
    an eligibility [never] stays. *)
Definition terminal (done : bool) (e : option text) (p : ParseState.t) (el : Eligibility.t) (r : t) : t :=
  mk (source r) (payload_enc r) (payload_sha256 r) (key_version r) (http_status r) (content_encoding r) (custom_ids r) (item_count r) done None (epoch r)
    None e (replay_attempts r) (capture r) p
    (if bool_decide (eligibility r = Eligibility.never) then Eligibility.never else el) (audit r).
Definition set_audit (a : option audit_state) (r : t) : t :=
  mk (source r) (payload_enc r) (payload_sha256 r) (key_version r) (http_status r) (content_encoding r) (custom_ids r) (item_count r) (processed r)
    (lease_id r) (epoch r) (expires_at r) (error r) (replay_attempts r) (capture r) (parse r) (eligibility r) a.
Definition set_metadata (ids : list text) (n : Z) (r : t) : t :=
  mk (source r) (payload_enc r) (payload_sha256 r) (key_version r) (http_status r) (content_encoding r) ids n (processed r)
    (lease_id r) (epoch r) (expires_at r) (error r) (replay_attempts r) (capture r) (parse r) (eligibility r) (audit r).
Definition set_expiry (e : option Z) (r : t) : t :=
  mk (source r) (payload_enc r) (payload_sha256 r) (key_version r) (http_status r) (content_encoding r) (custom_ids r) (item_count r) (processed r)
    (lease_id r) (epoch r) e (error r) (replay_attempts r) (capture r) (parse r) (eligibility r) (audit r).
(** [CLAIM_LEASE_SET_SQL, replay_attempts=replay_attempts+1] *)
Definition claim (id expiry : Z) (r : t) : t :=
  mk (source r) (payload_enc r) (payload_sha256 r) (key_version r) (http_status r) (content_encoding r) (custom_ids r) (item_count r) (processed r)
    (Some id) (epoch r + 1) (Some expiry) None (replay_attempts r + 1) (capture r) (parse r) (eligibility r) (audit r).
Definition set_disposition (p : ParseState.t) (el : Eligibility.t) (e : option text) (r : t) : t :=
  mk (source r) (payload_enc r) (payload_sha256 r) (key_version r) (http_status r) (content_encoding r) (custom_ids r) (item_count r) (processed r)
    (lease_id r) (epoch r) (expires_at r) e (replay_attempts r) (capture r) p el (audit r).
End RawRow.

Module RawLog.
Import RawParse.

(** [worker_lease_event] *)
Inductive lease_event := fencing_miss (raw_id lease_id : Z) | heartbeat_lost (raw_id lease_id : Z).

(** The rows of [audit_log] about payloads. *)
Inductive audit_row :=
| raw_replay_requested (raw_id epoch : Z)
| raw_replay_system (raw_id epoch items : Z)
| raw_replay_human (raw_id items : Z)
| raw_reevaluate (raw_id : Z).
#[export] Instance audit_row_eq : EqDecision audit_row.
Proof. solve_decision. Defined.

(** The tables, the sequence of identifiers, the leases drawn so far and the
    identifiers of the chunks of the platform. *)
Record db := mkDb {
  rows : gmap Z RawRow.t;
  next_id : Z;
  leases : Z;
  events : list lease_event;
  audits : list audit_row;
  known : list text
}.
Definition set_rows f (s : db) : db := mkDb (f (rows s)) (next_id s) (leases s) (events s) (audits s) (known s).
Definition add_event e (s : db) : db := mkDb (rows s) (next_id s) (leases s) (events s ++ [e]) (audits s) (known s).
Definition add_audit a (s : db) : db := mkDb (rows s) (next_id s) (leases s) (events s) (audits s ++ [a]) (known s).
Definition draw_lease (s : db) : db := mkDb (rows s) (next_id s) (leases s + 1) (events s) (audits s) (known s).
Definition draw_id (s : db) : db := mkDb (rows s) (next_id s + 1) (leases s) (events s) (audits s) (known s).

(** A method of the repository: its result and the committed database.  A
    refused write commits the event of the miss before it raises. *)
Definition method (A : Type) : Type := db -> result exc A * db.

Record RawProcessingLease := mkLease { raw_id : Z; lease_id : Z; lease_epoch : Z }.

Definition RAW_LEASE_US : Z := 15 * 60 * 1000000.
Definition RawLeaseLost (msg : string) : exc := Exc (tx "RawLeaseLost") (tx msg).
Definition RawReplayConflict (msg : string) : exc := Exc (tx "RawReplayConflict") (utx msg).
Definition check_violation : exc := Exc (tx "IntegrityError") (tx "raw_vendor_log").

(** [processing_lease_id=... AND processing_lease_epoch=...] *)
Definition holds (l : RawProcessingLease) (r : RawRow.t) : bool :=
  bool_decide (RawRow.lease_id r = Some (lease_id l)) && (RawRow.epoch r =? lease_epoch l).

(** [CLAIM_LEASE_PREDICATE_SQL] *)
Definition lease_free (now : Z) (r : RawRow.t) : bool :=
  match RawRow.lease_id r, RawRow.expires_at r with
  | None, _ | _, None => true
  | Some _, Some e => e <=? now
  end.

(** [ck_raw_vendor_processed_consistency] *)
Definition consistent (r : RawRow.t) : bool :=
  if RawRow.processed r
  then bool_decide (RawRow.parse r = ParseState.processed) && bool_decide (RawRow.eligibility r = Eligibility.never)
  else negb (bool_decide (RawRow.parse r = ParseState.processed)).

(** [commit_fenced_raw_update]: an update by the holder of the lease; [guard]
    is the rest of its condition, [checked] what the triggers of the updated
    columns ask. *)
Definition commit_fenced_raw_update (l : RawProcessingLease) (guard : RawRow.t -> bool) (checked : bool)
    (f : RawRow.t -> RawRow.t) : method unit := fun s =>
  let lost := (Raise (RawLeaseLost "raw processing lease lost"), add_event (fencing_miss (raw_id l) (lease_id l)) s) in
  match rows s !! raw_id l with
  | Some r =>
      if holds l r && guard r
      then if checked && consistent (f r) then (Ok tt, set_rows (<[raw_id l := f r]>) s) else (Raise check_violation, s)
      else lost
  | None => lost
  end.

(** [enforce_raw_vendor_custom_ids] *)
Definition custom_id_known (s : db) (c : text) : bool :=
  fullmatch (rrep 32 (RClass (fun c => ascii_upper c || ascii_lower c || ascii_digit c))) c && tmem c (known s).

Section casefold.
Context (casefold : text -> text).

Record captured := mkCaptured {
  c_enc : list Z;
  c_sha256 : text;
  c_version : Z;
  c_http_status : Z;
  c_content_encoding : text;
  c_custom_ids : list text;
  c_item_count : Z;
  c_capture_state : Capture.t
}.

Definition new_row (source : text) (c : captured) (lease : option Z) (epoch : Z) (expires : option Z) : RawRow.t :=
  let d := persist_disposition casefold (Some (c_capture_state c)) (Some (c_http_status c)) (Some (c_content_encoding c)) false in
  RawRow.mk source (c_enc c) (c_sha256 c) (c_version c) (c_http_status c) (c_content_encoding c) (c_custom_ids c) (c_item_count c) false
    lease epoch expires None 0 (c_capture_state c) (parse_state d) (replay_eligibility d) None.

(** [persist_raw]: the payload, and a lease for its first processing.  The
    identifier of a lease is drawn whether the row is accepted or not. *)
Definition persist_raw (now : Z) (source : text) (acquire : bool) (c : captured)
    : method (Z * option RawProcessingLease) := fun s =>
  let s0 := if acquire then draw_lease s else s in
  let r := if acquire then new_row source c (Some (leases s)) 1 (Some (now + RAW_LEASE_US)) else new_row source c None 0 None in
  if between 100 599 (c_http_status c) && tmem (c_content_encoding c) [tx "identity"; tx "unsupported"]
     && forallb (custom_id_known s) (c_custom_ids c) && consistent r
  then (Ok (next_id s, if acquire then Some (mkLease (next_id s) (leases s) 1) else None),
        set_rows (<[next_id s := r]>) (draw_id s0))
  else (Raise check_violation, draw_id s0).

(** [renew_raw_lease] *)
Definition renew_raw_lease (now : Z) (l : RawProcessingLease) : method Z := fun s =>
  let lost := (Raise (RawLeaseLost "raw processing lease heartbeat lost"), add_event (heartbeat_lost (raw_id l) (lease_id l)) s) in
  match rows s !! raw_id l with
  | Some r => if holds l r
              then (Ok (now + RAW_LEASE_US), set_rows (<[raw_id l := RawRow.set_expiry (Some (now + RAW_LEASE_US)) r]>) s)
              else lost
  | None => lost
  end.

Definition record_heartbeat_failure (l : RawProcessingLease) : method unit := fun s =>
  (Ok tt, add_event (heartbeat_lost (raw_id l) (lease_id l)) s).

Definition update_metadata (source : text) (l : RawProcessingLease) (custom_ids : list text) (item_count : Z) : method unit := fun s =>
  commit_fenced_raw_update l (fun r => teqb (RawRow.source r) source) (forallb (custom_id_known s) custom_ids)
    (RawRow.set_metadata custom_ids item_count) s.

(** The replies' repository adds [AND source='reply'] to its terminal writes;
    the reports' one does not restrict them. *)
Definition terminal_guard (source : text) (r : RawRow.t) : bool :=
  negb (teqb source (tx "reply")) || teqb (RawRow.source r) source.

(** [mark_processed] *)
Definition mark_processed (source : text) (l : RawProcessingLease) (system_audit_intent : bool) : method unit :=
  commit_fenced_raw_update l (terminal_guard source) true (fun r =>
    let r' := RawRow.terminal true None ParseState.processed Eligibility.never r in
    if system_audit_intent then RawRow.set_audit (Some audit_pending) r' else r').

Definition parse_name (p : ParseState.t) : text :=
  match p with
  | ParseState.unattempted => tx "unattempted"
  | ParseState.transient_failure => tx "transient_failure"
  | ParseState.protocol_invalid => tx "protocol_invalid"
  | ParseState.processed => tx "processed"
  end.
Definition eligibility_name (e : Eligibility.t) : text :=
  match e with
  | Eligibility.automatic => tx "automatic"
  | Eligibility.manual => tx "manual"
  | Eligibility.never => tx "never"
  end.

(** The error column of a report payload holds no text of the exception. *)
Definition REPORT_ERROR_TYPES : list text := tx <$>
  ["OperationalError"; "DataError"; "IntegrityError"; "InterfaceError"; "TimeoutError"; "ConnectionError";
   "VendorProtocolError"; "VendorApiError"; "ValueError"; "TypeError"; "RuntimeError"]%string.
Fixpoint before_colon (s : text) : text :=
  match s with [] => [] | c :: s' => if c =? 58 then [] else c :: before_colon s' end.
Definition report_error_column (error : text) (d : RawParseDisposition) : text :=
  (if tmem (before_colon error) REPORT_ERROR_TYPES then before_colon error else tx "ReportProcessingError")
  ++ tx ": report " ++ parse_name (parse_state d) ++ tx "; replay=" ++ eligibility_name (replay_eligibility d).

Definition mark_failed (guard : RawRow.t -> bool) (l : RawProcessingLease) (shown : text) (d : RawParseDisposition) : method unit :=
  commit_fenced_raw_update l guard true (RawRow.terminal false (Some shown) (parse_state d) (replay_eligibility d)).

(** [mark_error] of the reports and of the replies, [mark_replay_error] *)
Definition mark_report_error (l : RawProcessingLease) (error : text) (cause : option failure) : method unit :=
  let d := mark_error_column_values casefold error cause in
  mark_failed (terminal_guard (tx "report")) l (report_error_column error d) d.
Definition mark_reply_error (l : RawProcessingLease) (error : text) (cause : option failure) : method unit :=
  mark_failed (terminal_guard (tx "reply")) l (take 256 error) (mark_error_column_values casefold (take 256 error) cause).
Definition mark_replay_error (l : RawProcessingLease) (error : text) (cause : option failure) : method unit :=
  mark_failed (fun _ => true) l (take 256 error) (mark_error_column_values casefold (take 256 error) cause).

(** [claim_raw_for_replay]: [None] if there is no such row, otherwise the row
    and the lease, if it was claimed. *)
Definition claimable (now : Z) (allow_manual : bool) (r : RawRow.t) : bool :=
  negb (RawRow.processed r)
  && bool_decide (RawRow.capture r ∈ (if allow_manual then [Capture.complete; Capture.complete_too_large] else [Capture.complete]))
  && bool_decide (RawRow.eligibility r ∈ claim_eligibilities allow_manual)
  && lease_free now r.

Definition claim_raw_for_replay (now id : Z) (allow_manual : bool) : method (option (RawRow.t * option RawProcessingLease)) := fun s =>
  match rows s !! id with
  | None => (Ok None, draw_lease s)
  | Some r =>
      if claimable now allow_manual r then
        let r' := RawRow.claim (leases s) (now + RAW_LEASE_US) r in
        let s1 := set_rows (<[id := r']>) (draw_lease s) in
        if consistent r' then
          (Ok (Some (r', Some (mkLease id (leases s) (RawRow.epoch r')))),
           if allow_manual then add_audit (raw_replay_requested id (RawRow.epoch r')) s1 else s1)
        else (Raise check_violation, draw_lease s)
      else (Ok (Some (r, None)), draw_lease s)
  end.

(** [apply_raw_reevaluation] *)
Definition apply_raw_reevaluation (now id : Z) (expected_processed : bool) (expected_parse : ParseState.t)
    (expected_eligibility : Eligibility.t) (d : RawParseDisposition) (error : option text) : method unit := fun s =>
  if expected_processed && (negb (bool_decide (parse_state d = ParseState.processed))
                            || negb (bool_decide (replay_eligibility d = Eligibility.never)))
  then (Raise (RawReplayConflict "已处理 raw 不得改回可重放状态"), s) else
  match rows s !! id with
  | None => (Raise (RawReplayConflict "原始报文不存在"), s)
  | Some r =>
      if bool_decide (RawRow.processed r = expected_processed) && bool_decide (RawRow.parse r = parse_state d)
         && bool_decide (RawRow.eligibility r = replay_eligibility d) && bool_decide (raw_reevaluate id ∈ audits s)
      then (Ok tt, s)
      else if negb (lease_free now r) then (Raise (RawLeaseLost "raw processing lease held"), s)
      else if negb (bool_decide (RawRow.processed r = expected_processed) && bool_decide (RawRow.parse r = expected_parse)
                    && bool_decide (RawRow.eligibility r = expected_eligibility))
      then (Raise (RawReplayConflict "raw 状态已变化，请刷新后重试"), s)
      else
        let r' := RawRow.set_disposition (parse_state d) (replay_eligibility d) error r in
        if consistent r' then (Ok tt, add_audit (raw_reevaluate id) (set_rows (<[id := r']>) s))
        else (Raise check_violation, s)
  end.

(** [audit_raw_replay]; the system's entry is unique for its lease epoch. *)
Definition system_entry (id epoch : Z) (a : audit_row) : bool :=
  match a with raw_replay_system i e _ => (i =? id) && (e =? epoch) | _ => false end.

Definition audit_raw_replay_system (id items : Z) (lease_epoch : option Z) : method unit := fun s =>
  let epoch := default (default 0 (RawRow.epoch <$> rows s !! id)) lease_epoch in
  let s1 := if existsb (system_entry id epoch) (audits s) then s else add_audit (raw_replay_system id epoch items) s in
  match rows s !! id with
  | Some r =>
      match RawRow.audit r with
      | Some audit_pending => (Ok tt, set_rows (<[id := RawRow.set_audit (Some audit_completed) r]>) s1)
      | Some audit_completed => (Ok tt, s1)
      | None => (Raise (RuntimeError "system raw replay audit incomplete"), s)
      end
  | None => (Raise (RuntimeError "system raw replay audit incomplete"), s)
  end.

Definition audit_raw_replay_human (id items : Z) : method unit := fun s =>
  match rows s !! id with
  | Some r => if bool_decide (raw_replay_requested id (RawRow.epoch r) ∈ audits s)
              then (Ok tt, add_audit (raw_replay_human id items) s)
              else (Raise (RuntimeError "raw replay original intent unavailable"), s)
  | None => (Raise (RuntimeError "raw replay original intent unavailable"), s)
  end.

(** The plan [raw] of the housekeeping: a processed row whose audit is not owed;
    [old] says that its age allows it and no uncertain chunk names it. *)
Definition cleanup_raw (cutoff id : Z) (old : bool) : method unit := fun s =>
  match rows s !! id with
  | Some r => if old && RawRow.processed r
                 && match RawRow.expires_at r with None => true | Some e => e <=? cutoff end
                 && negb (bool_decide (RawRow.audit r = Some audit_pending))
              then (Ok tt, set_rows (delete id) s) else (Ok tt, s)
  | None => (Ok tt, s)
  end.
End casefold.
End RawLog.
