(* ===== verification/RawSafety.v ===== *)
(** * Leases, settlement and audits of the stored payloads

    The methods of [RawLog] as the steps of a machine, in any order and with any
    arguments.  What a step does to one row is a [move]; the invariant [row_ok]
    is kept by every move.  A lease that was superseded or settled never writes
    again, a settled payload stays settled, the holder of a lease can always
    settle, and an audit that is owed is not lost. *)

From S2P Require Import Prelude PyText RawLog.
Import RawParse RawLog.

Section machine.
Context (casefold : text -> text).

Inductive op :=
| OPersist (now : Z) (source : text) (acquire : bool) (c : captured)
| ORenew (now : Z) (l : RawProcessingLease)
| OHeartbeatFailure (l : RawProcessingLease)
| OMetadata (source : text) (l : RawProcessingLease) (custom_ids : list text) (item_count : Z)
| OProcessed (source : text) (l : RawProcessingLease) (system_audit_intent : bool)
| OReportError (l : RawProcessingLease) (error : text) (cause : option failure)
| OReplyError (l : RawProcessingLease) (error : text) (cause : option failure)
| OReplayError (l : RawProcessingLease) (error : text) (cause : option failure)
| OClaim (now id : Z) (allow_manual : bool)
| OReevaluate (now id : Z) (processed : bool) (p : ParseState.t) (e : Eligibility.t) (d : RawParseDisposition) (error : option text)
| OAuditSystem (id items : Z) (epoch : option Z)
| OAuditHuman (id items : Z)
| OCleanup (cutoff id : Z) (old : bool).

Definition forget {A} (x : result exc A * db) : result exc unit * db :=
  (match x.1 with Ok _ => Ok tt | Raise e => Raise e end, x.2).

Definition call (o : op) (s : db) : result exc unit * db :=
  match o with
  | OPersist now source acquire c => forget (persist_raw casefold now source acquire c s)
  | ORenew now l => forget (renew_raw_lease now l s)
  | OHeartbeatFailure l => record_heartbeat_failure l s
  | OMetadata source l ids n => update_metadata source l ids n s
  | OProcessed source l intent => mark_processed source l intent s
  | OReportError l e cause => mark_report_error casefold l e cause s
  | OReplyError l e cause => mark_reply_error casefold l e cause s
  | OReplayError l e cause => mark_replay_error casefold l e cause s
  | OClaim now id m => forget (claim_raw_for_replay now id m s)
  | OReevaluate now id processed p e d error => apply_raw_reevaluation now id processed p e d error s
  | OAuditSystem id items epoch => audit_raw_replay_system id items epoch s
  | OAuditHuman id items => audit_raw_replay_human id items s
  | OCleanup cutoff id old => cleanup_raw cutoff id old s
  end.

Definition run (o : op) (s : db) : db := (call o s).2.
Definition runs (l : list op) (s : db) : db := foldl (fun s o => run o s) s l.
Definition start (ids : list text) : db := mkDb ∅ 1 0 [] [] ids.

(** ** What a step does to one row *)

Inductive move (drawn drawn' : Z) (entered : Prop) (r : RawRow.t) : RawRow.t -> Prop :=
| move_same : move drawn drawn' entered r r
| move_renew e : is_Some (RawRow.lease_id r) -> move drawn drawn' entered r (RawRow.set_expiry e r)
| move_metadata ids n : is_Some (RawRow.lease_id r) -> move drawn drawn' entered r (RawRow.set_metadata ids n r)
| move_processed : is_Some (RawRow.lease_id r) ->
    move drawn drawn' entered r (RawRow.terminal true None ParseState.processed Eligibility.never r)
| move_intent : is_Some (RawRow.lease_id r) ->
    move drawn drawn' entered r (RawRow.set_audit (Some audit_pending) (RawRow.terminal true None ParseState.processed Eligibility.never r))
| move_failed e d : is_Some (RawRow.lease_id r) ->
    consistent (RawRow.terminal false (Some e) (parse_state d) (replay_eligibility d) r) = true ->
    move drawn drawn' entered r (RawRow.terminal false (Some e) (parse_state d) (replay_eligibility d) r)
| move_claim now m e : claimable now m r = true -> drawn < drawn' -> move drawn drawn' entered r (RawRow.claim drawn e r)
| move_reevaluate d e : consistent (RawRow.set_disposition (parse_state d) (replay_eligibility d) e r) = true ->
    move drawn drawn' entered r (RawRow.set_disposition (parse_state d) (replay_eligibility d) e r)
| move_audited : RawRow.audit r = Some audit_pending -> entered -> move drawn drawn' entered r (RawRow.set_audit (Some audit_completed) r).
#[local] Hint Constructors move : core.

Definition fresh_row (drawn drawn' : Z) (r : RawRow.t) : Prop :=
  exists source c lease epoch e, r = new_row casefold source c lease epoch e
    /\ ((lease = None /\ epoch = 0) \/ (lease = Some drawn /\ epoch = 1 /\ drawn < drawn')).

(** The system's audit of the row [id] is in the log. *)
Definition entered (id : Z) (s : db) : Prop := exists epoch items, raw_replay_system id epoch items ∈ audits s.

(** The row [id] before and after a step. *)
Inductive row_step (s s' : db) (id : Z) : option RawRow.t -> option RawRow.t -> Prop :=
| row_kept r r' : move (leases s) (leases s') (entered id s') r r' -> row_step s s' id (Some r) (Some r')
| row_absent : row_step s s' id None None
| row_new r : id = next_id s -> id < next_id s' -> consistent r = true -> fresh_row (leases s) (leases s') r ->
    row_step s s' id None (Some r)
| row_deleted r : RawRow.processed r = true -> RawRow.audit r <> Some audit_pending -> row_step s s' id (Some r) None.
#[local] Hint Constructors row_step : core.

Record stepped (s s' : db) : Prop := {
  stepped_leases : leases s <= leases s';
  stepped_ids : next_id s <= next_id s';
  stepped_audits : audits s' = audits s \/ exists a, audits s' = audits s ++ [a]
    /\ forall id epoch items, a = raw_replay_system id epoch items -> existsb (system_entry id epoch) (audits s) = false;
  stepped_rows : forall id, row_step s s' id (rows s !! id) (rows s' !! id)
}.

Lemma stepped_same s s' :
  rows s' = rows s -> leases s <= leases s' -> next_id s <= next_id s' -> audits s' = audits s -> stepped s s'.
Proof. intros E L N A. split; [done|done|auto|]. intros id. rewrite E. destruct (rows s !! id); auto. Qed.

Lemma stepped_insert s s' i r r' :
  rows s !! i = Some r -> rows s' = <[i := r']> (rows s) -> leases s <= leases s' -> next_id s <= next_id s' ->
  (audits s' = audits s \/ exists a, audits s' = audits s ++ [a]
    /\ forall id epoch items, a = raw_replay_system id epoch items -> existsb (system_entry id epoch) (audits s) = false) ->
  move (leases s) (leases s') (entered i s') r r' -> stepped s s'.
Proof.
  intros E E' L N A M. split; [done|done|done|]. intros id. rewrite E'. destruct (decide (i = id)) as [<-|D].
  - rewrite lookup_insert_eq, E. auto.
  - rewrite lookup_insert_ne by done. destruct (rows s !! id); auto.
Qed.

(** Closes the branches that change no row. *)
Ltac unchanged := apply stepped_same; simpl; (done || lia).
(** An insertion whose move is left. *)
Ltac inserted :=
  eapply stepped_insert; simpl; [done|done|lia|lia|first [by left|right; eexists; split; [done|]; by intros ? ? ? [=]]|].

Lemma holds_leased l r : holds l r = true -> is_Some (RawRow.lease_id r).
Proof. unfold holds. intros [H _]%andb_prop. apply bool_decide_eq_true in H. rewrite H. eauto. Qed.

Lemma fenced_stepped l guard checked f s :
  (forall drawn drawn' e r, is_Some (RawRow.lease_id r) -> consistent (f r) = true -> move drawn drawn' e r (f r)) ->
  stepped s (commit_fenced_raw_update l guard checked f s).2.
Proof.
  intros M. unfold commit_fenced_raw_update. destruct (rows s !! raw_id l) as [r|] eqn:E; [|unchanged].
  destruct (holds l r) eqn:Hl; [|unchanged]. destruct (guard r); [|unchanged].
  destruct checked; [|unchanged]. destruct (consistent (f r)) eqn:C; [|unchanged].
  inserted. apply M; [|done]. by eapply holds_leased.
Qed.

Lemma renewed_stepped now l s : stepped s (forget (renew_raw_lease now l s)).2.
Proof.
  unfold renew_raw_lease, forget. destruct (rows s !! raw_id l) as [r|] eqn:E; [|unchanged].
  destruct (holds l r) eqn:Hl; [|unchanged]. inserted.
  constructor. by eapply holds_leased.
Qed.

Lemma claimed_stepped now i m s : stepped s (forget (claim_raw_for_replay now i m s)).2.
Proof.
  unfold claim_raw_for_replay, forget. destruct (rows s !! i) as [r|] eqn:E; [|unchanged].
  destruct (claimable now m r) eqn:C; [|unchanged]. cbv zeta.
  destruct (consistent _); [|unchanged].
  destruct m; inserted; (eapply move_claim; [done|lia]).
Qed.

Lemma reevaluated_stepped now i processed p e d error s :
  stepped s (apply_raw_reevaluation now i processed p e d error s).2.
Proof.
  unfold apply_raw_reevaluation. destruct (processed && _); [unchanged|].
  destruct (rows s !! i) as [r|] eqn:E; [|unchanged].
  do 3 (case_match; [unchanged|]). cbv zeta. destruct (consistent _) eqn:C; [|unchanged].
  inserted. auto.
Qed.

Lemma system_entry_in id epoch l :
  existsb (system_entry id epoch) l = true -> exists items, raw_replay_system id epoch items ∈ l.
Proof.
  intros (a & Hin%list_elem_of_In & H)%existsb_exists. destruct a as [| i e items| |]; try done.
  apply andb_prop in H as [->%Z.eqb_eq ->%Z.eqb_eq]. eauto.
Qed.

Lemma entry_added s id epoch items :
  existsb (system_entry id epoch) (audits s) = false ->
  exists a, audits s ++ [raw_replay_system id epoch items] = audits s ++ [a]
    /\ forall id epoch items, a = raw_replay_system id epoch items -> existsb (system_entry id epoch) (audits s) = false.
Proof. intros E. eexists. split; [done|]. by intros ? ? ? [= <- <- <-]. Qed.

Lemma audited_stepped i items epoch s : stepped s (audit_raw_replay_system i items epoch s).2.
Proof.
  unfold audit_raw_replay_system. cbv zeta. destruct (rows s !! i) as [r|] eqn:E; [|unchanged].
  destruct (existsb _ _) eqn:X; destruct (RawRow.audit r) as [[]|] eqn:A; try unchanged.
  - inserted. apply move_audited; [done|]. apply system_entry_in in X as [items' X]. eexists _, _. exact X.
  - eapply stepped_insert; simpl; [done|done|lia|lia|right; by apply entry_added|].
    apply move_audited; [done|]. eexists _, _. apply elem_of_app. right. by left.
  - split; simpl; [lia|lia|right; by apply entry_added|]. intros id. destruct (rows s !! id); auto.
Qed.

Lemma human_stepped i items s : stepped s (audit_raw_replay_human i items s).2.
Proof.
  unfold audit_raw_replay_human. destruct (rows s !! i); [|unchanged]. case_bool_decide; [|unchanged].
  split; simpl; [lia|lia|right; eexists; split; [done|]; by intros ? ? ? [=]|]. intros id. destruct (rows s !! id); auto.
Qed.

Lemma cleaned_stepped cutoff i old s : stepped s (cleanup_raw cutoff i old s).2.
Proof.
  unfold cleanup_raw. destruct (rows s !! i) as [r|] eqn:E; [|unchanged].
  destruct (_ && negb _) eqn:C; [|unchanged].
  apply andb_prop in C as [C A]. apply andb_prop in C as [C _]. apply andb_prop in C as [_ P].
  split; simpl; [lia|lia|auto|]. intros id.
  destruct (decide (i = id)) as [<-|N]; [|rewrite lookup_delete_ne by done; destruct (rows s !! id); auto].
  rewrite lookup_delete_eq, E. constructor; [done|]. by apply negb_true_iff, bool_decide_eq_false in A.
Qed.

Definition ids_ok (s : db) : Prop := forall id r, rows s !! id = Some r -> id < next_id s.

Lemma persisted_stepped now source acquire c s : ids_ok s -> stepped s (forget (persist_raw casefold now source acquire c s)).2.
Proof.
  intros I. unfold persist_raw, forget. cbv zeta.
  destruct (_ && consistent _) eqn:C; [|destruct acquire; unchanged].
  apply andb_prop in C as [_ C].
  assert (N : rows s !! next_id s = None).
  { destruct (rows s !! next_id s) eqn:E; [|done]. apply I in E. lia. }
  destruct acquire; (split; simpl; [lia|lia|auto|]; intros id);
    (destruct (decide (next_id s = id)) as [<-|D]; [|rewrite lookup_insert_ne by done; destruct (rows s !! id); auto]);
    rewrite N, lookup_insert_eq; (constructor; simpl; [done|lia|done|]);
    eexists _, _, _, _, _; (split; [done|]); [right|left]; split_and?; (done || lia).
Qed.

Lemma run_stepped o s : ids_ok s -> stepped s (run o s).
Proof.
  intros I. unfold run. destruct o; cbn [call].
  - by apply persisted_stepped.
  - apply renewed_stepped.
  - unchanged.
  - apply fenced_stepped. auto.
  - apply fenced_stepped. destruct system_audit_intent; auto.
  - apply fenced_stepped. auto.
  - apply fenced_stepped. auto.
  - apply fenced_stepped. auto.
  - apply claimed_stepped.
  - apply reevaluated_stepped.
  - apply audited_stepped.
  - apply human_stepped.
  - apply cleaned_stepped.
Qed.

(** ** The invariant of a row *)

Record row_ok (drawn : Z) (r : RawRow.t) : Prop := {
  ok_consistent : consistent r = true;
  ok_held : forall l, RawRow.lease_id r = Some l -> RawRow.processed r = false /\ l < drawn;
  ok_audit : RawRow.audit r <> None -> RawRow.processed r = true
}.
Definition ok (s : db) : Prop := ids_ok s /\ forall id r, rows s !! id = Some r -> row_ok (leases s) r.

Lemma processed_columns r :
  consistent r = true -> RawRow.processed r = true ->
  RawRow.parse r = ParseState.processed /\ RawRow.eligibility r = Eligibility.never.
Proof.
  unfold consistent. intros C P. rewrite P in C. apply andb_prop in C as [A B].
  by apply bool_decide_eq_true in A, B.
Qed.

Lemma terminal_consistent r : consistent (RawRow.terminal true None ParseState.processed Eligibility.never r) = true.
Proof. unfold consistent, RawRow.terminal. destruct (RawRow.eligibility r); reflexivity. Qed.

Lemma move_ok drawn drawn' e r r' : move drawn drawn' e r r' -> drawn <= drawn' -> row_ok drawn r -> row_ok drawn' r'.
Proof.
  intros M Hd [C L A].
  assert (L' : forall l, RawRow.lease_id r = Some l -> RawRow.processed r = false /\ l < drawn').
  { intros l E. apply L in E as [? ?]. split; [done|lia]. }
  destruct M as [|e' H|ids n H|H|H|e' d H C'|now m e' H Hlt|d e' C'|H He]; split; simpl; try done.
  - apply terminal_consistent.
  - apply terminal_consistent.
  - intros X. apply A in X. destruct H as [l H]. apply L in H as [H _]. congruence.
  - intros l [= <-]. split; [|lia]. apply andb_prop in H as [H _]. apply andb_prop in H as [H _].
    apply andb_prop in H as [H _]. by apply negb_true_iff in H.
  - intros _. apply A. by rewrite H.
Qed.

Lemma fresh_ok drawn drawn' r : fresh_row drawn drawn' r -> consistent r = true -> row_ok drawn' r.
Proof.
  intros (source & c & lease & epoch & e & -> & H) C. split; [done| |done].
  simpl. intros l ->. split; [done|]. destruct H as [[[=] _]|([= ->] & _ & H)]. done.
Qed.

Lemma run_ok o s : ok s -> ok (run o s).
Proof.
  intros [I R]. destruct (run_stepped o s I) as [Hl Hn _ Hr]. split; intros id r' E; specialize (Hr id); rewrite E in Hr.
  - inversion Hr as [r ? M Hs|  |? Hid Hlt ?|]; subst; [|done]. symmetry in Hs. apply I in Hs. lia.
  - inversion Hr as [r ? M Hs| |? Hid Hlt C F|]; subst; [|by eapply fresh_ok].
    eapply move_ok; [done|done|]. by eapply R.
Qed.

Lemma runs_ok l s : ok s -> ok (runs l s).
Proof. revert s. induction l as [|o l IH]; intros s H; [done|]. apply IH, run_ok, H. Qed.

Lemma start_ok ids : ok (start ids).
Proof. split; intros id r E; cbn in E; by rewrite lookup_empty in E. Qed.

(** ** Superseded leases *)

Definition held (l : RawProcessingLease) (s : db) : bool :=
  match rows s !! raw_id l with Some r => holds l r | None => false end.

(** The calls that write with the lease [l]. *)
Definition writes_with (l : RawProcessingLease) (o : op) : Prop :=
  match o with
  | ORenew _ l' | OMetadata _ l' _ _ | OProcessed _ l' _ | OReportError l' _ _ | OReplyError l' _ _ | OReplayError l' _ _ => l' = l
  | _ => False
  end.

(** The calls that end the lease [l]: a claim of its row that succeeds, or a
    terminal write with it that succeeds. *)
Definition ends_lease (l : RawProcessingLease) (o : op) (s : db) : Prop :=
  match o with
  | OClaim now id m => id = raw_id l /\ exists r l', (claim_raw_for_replay now id m s).1 = Ok (Some (r, Some l'))
  | OProcessed _ l' _ | OReportError l' _ _ | OReplyError l' _ _ | OReplayError l' _ _ => l' = l /\ (call o s).1 = Ok tt
  | _ => False
  end.

Lemma fenced_lost l guard checked f s :
  held l s = false ->
  exists msg, (commit_fenced_raw_update l guard checked f s).1 = Raise (RawLeaseLost msg)
    /\ rows (commit_fenced_raw_update l guard checked f s).2 = rows s.
Proof.
  unfold held, commit_fenced_raw_update. intros H. destruct (rows s !! raw_id l) as [r|]; [rewrite H|]; simpl; eauto.
Qed.

Lemma lost_refused l o s :
  held l s = false -> writes_with l o -> exists msg, (call o s).1 = Raise (RawLeaseLost msg) /\ rows (call o s).2 = rows s.
Proof.
  intros H. destruct o; cbn [writes_with call]; try done; intros ->; try (by apply fenced_lost).
  unfold held in H. unfold forget, renew_raw_lease.
  destruct (rows s !! raw_id l) as [r|]; [rewrite H|]; simpl; eauto.
Qed.

Lemma move_lease drawn drawn' e r r' :
  move drawn drawn' e r r' ->
  (RawRow.lease_id r' = RawRow.lease_id r /\ RawRow.epoch r' = RawRow.epoch r) \/ RawRow.lease_id r' = None
  \/ RawRow.lease_id r' = Some drawn.
Proof. intros []; simpl; auto. Qed.

Lemma holds_false l r : RawRow.lease_id r <> Some (lease_id l) -> holds l r = false.
Proof. intros H. unfold holds. by rewrite bool_decide_eq_false_2. Qed.

Lemma lost_run l o s : ok s -> lease_id l < leases s -> held l s = false -> held l (run o s) = false.
Proof.
  intros [I R] Hl H. destruct (run_stepped o s I) as [_ _ _ Hr]. specialize (Hr (raw_id l)). unfold held in *.
  destruct (rows (run o s) !! raw_id l) as [r'|]; [|done].
  inversion Hr as [r ? M Hs| |? ? ? ? F|]; subst.
  - rewrite <- Hs in H. apply move_lease in M as [[A B]|[A|A]].
    + unfold holds in *. by rewrite A, B.
    + apply holds_false. by rewrite A.
    + apply holds_false. rewrite A. intros [= E]. lia.
  - apply holds_false. destruct F as (source & c & lease & epoch & e & -> & [[-> _]|(-> & _)]); simpl; [done|].
    intros [= E]. lia.
Qed.

Lemma lost_runs l os s : ok s -> lease_id l < leases s -> held l s = false -> held l (runs os s) = false.
Proof.
  revert s. induction os as [|o os IH]; intros s Ho Hl H; [done|]. cbn. apply IH.
  - by apply run_ok.
  - destruct (run_stepped o s (proj1 Ho)). lia.
  - by apply lost_run.
Qed.

Lemma fenced_ended l guard checked f s :
  (forall r, RawRow.lease_id (f r) = None) ->
  (commit_fenced_raw_update l guard checked f s).1 = Ok tt -> held l (commit_fenced_raw_update l guard checked f s).2 = false.
Proof.
  intros Hf. unfold commit_fenced_raw_update, held. destruct (rows s !! raw_id l) as [r|]; [|done].
  destruct (_ && guard r); [|done]. destruct (_ && consistent _); [|done]. simpl. intros _.
  rewrite lookup_insert_eq. apply holds_false. by rewrite Hf.
Qed.

Lemma ends_held l o s : lease_id l < leases s -> ends_lease l o s -> held l (run o s) = false.
Proof.
  intros Hl. unfold run. destruct o; cbn [ends_lease call]; try done;
    try (intros [-> E]; apply fenced_ended; [|done]; intros r; try destruct system_audit_intent; reflexivity).
  intros [-> (r & l' & E)]. unfold claim_raw_for_replay in *. unfold held, forget.
  destruct (rows s !! raw_id l) as [r0|]; [|done]. destruct (claimable _ _ _); [|done].
  cbv zeta in *. destruct (consistent _); [|done]. destruct allow_manual; simpl; rewrite lookup_insert_eq;
    apply holds_false; simpl; intros [= X]; lia.
Qed.

(** C11: Fencing of the stored payloads.  Once a lease has been superseded by a
    claim of its row, or has written its terminal state, then after any calls of
    the repository by anyone every further write with it (a renewal, the
    metadata, a settlement or an error) raises [RawLeaseLost] and changes no row. *)
Theorem raw_fencing ids before o after l w :
  let s := runs before (start ids) in
  lease_id l < leases s -> ends_lease l o s -> writes_with l w ->
  let s' := runs after (run o s) in
  exists msg, (call w s').1 = Raise (RawLeaseLost msg) /\ rows (call w s').2 = rows s'.
Proof.
  intros s Hl He Hw s'. apply (lost_refused l); [|done].
  assert (Hs : ok s) by (unfold s; apply runs_ok, start_ok).
  assert (Hd : leases s <= leases (run o s)) by apply (run_stepped o s (proj1 Hs)).
  apply lost_runs; [by apply run_ok|lia|by apply ends_held].
Qed.

(** ** Settled payloads *)

Definition settled (id : Z) (s : db) : Prop :=
  id < next_id s /\ forall r, rows s !! id = Some r -> RawRow.processed r = true.

Lemma move_settled drawn drawn' e r r' :
  move drawn drawn' e r r' -> row_ok drawn r -> RawRow.processed r = true -> RawRow.processed r' = true.
Proof.
  intros M [_ L _] P. destruct M as [| | | | |e' d [l H] C'|now m e' H Hlt| |]; try done.
  apply L in H as [H _]. congruence.
Qed.

Lemma settled_run id o s : ok s -> settled id s -> settled id (run o s).
Proof.
  intros [I R] [Hn H]. destruct (run_stepped o s I) as [_ Hn' _ Hr]. split; [lia|]. intros r' E.
  specialize (Hr id). rewrite E in Hr. inversion Hr as [r ? M Hs| |? -> ? ? F|]; subst; [|lia].
  symmetry in Hs. eapply move_settled; [done|by eapply R|by apply H].
Qed.

Lemma settled_runs id os s : ok s -> settled id s -> settled id (runs os s).
Proof.
  revert s. induction os as [|o os IH]; intros s Ho H; [done|]. cbn. apply IH; [by apply run_ok|by apply settled_run].
Qed.

Lemma processed_unclaimed now id m s :
  (forall r, rows s !! id = Some r -> RawRow.processed r = true) ->
  (claim_raw_for_replay now id m s).1 = Ok ((fun r => (r, None)) <$> rows s !! id).
Proof.
  intros H. unfold claim_raw_for_replay. destruct (rows s !! id) as [r|]; [|done].
  unfold claimable. by rewrite (H r).
Qed.

(** A settled payload stays settled: after any calls by anyone, its row is
    processed, never eligible for a replay and not leased, or has been removed
    by the retention; its identifier is not reused, and no claim, automatic or
    manual, ever obtains a lease on it. *)
Theorem raw_settled_once ids before after id r :
  let s := runs before (start ids) in
  rows s !! id = Some r -> RawRow.processed r = true ->
  let s' := runs after s in
  (forall r', rows s' !! id = Some r' ->
     RawRow.processed r' = true /\ RawRow.parse r' = ParseState.processed
     /\ RawRow.eligibility r' = Eligibility.never /\ RawRow.lease_id r' = None)
  /\ forall now m, (claim_raw_for_replay now id m s').1 = Ok ((fun r => (r, None)) <$> rows s' !! id).
Proof.
  intros s E P s'.
  assert (Hs : ok s) by (unfold s; apply runs_ok, start_ok).
  assert (Hs' : ok s') by by apply runs_ok.
  assert (H : settled id s').
  { apply settled_runs; [done|]. split; [by eapply Hs|]. intros r0 E0. congruence. }
  split; [|intros now m; apply processed_unclaimed, H]. intros r' E'.
  destruct Hs' as [_ R]. destruct (R id r' E') as [C L _]. pose proof (proj2 H r' E') as P'.
  destruct (processed_columns r' C P') as [A B]. split_and!; try done.
  destruct (RawRow.lease_id r') eqn:X; [|done]. destruct (L _ eq_refl) as [? _]. congruence.
Qed.

(** ** The holder can settle *)

Lemma classified_unprocessed e cause : parse_state (mark_error_column_values casefold e cause) <> ParseState.processed.
Proof.
  unfold mark_error_column_values, classify_raw_disposition, _classify_exception, _classify_error_text. cbv zeta.
  repeat case_match; cbn; discriminate.
Qed.

Definition settles (l : RawProcessingLease) (source : text) (o : op) : Prop :=
  match o with
  | OProcessed src l' _ => l' = l /\ src = source
  | OReportError l' _ _ => l' = l /\ source = tx "report"
  | OReplyError l' _ _ => l' = l /\ source = tx "reply"
  | OReplayError l' _ _ => l' = l
  | _ => False
  end.

Lemma fenced_holder l guard f s r :
  rows s !! raw_id l = Some r -> holds l r = true -> guard r = true -> consistent (f r) = true ->
  commit_fenced_raw_update l guard true f s = (Ok tt, set_rows (<[raw_id l := f r]>) s).
Proof. intros E H G C. unfold commit_fenced_raw_update. by rewrite E, H, G, C. Qed.

Lemma own_guard r : terminal_guard (RawRow.source r) r = true.
Proof. unfold terminal_guard. apply orb_true_iff. right. apply teqb_refl. Qed.

Lemma failed_consistent r e c m el :
  consistent (RawRow.terminal false e (parse_state (mark_error_column_values casefold m c)) el r) = true.
Proof. unfold consistent. cbn. apply negb_true_iff, bool_decide_eq_false, classified_unprocessed. Qed.

(** The holder of a lease can always settle its payload: no check of the
    database refuses the write, whatever the error and whatever happened to
    the rest of the table, and afterwards the row is not leased and is processed
    exactly when it was settled as processed. *)
Theorem raw_holder_settles s l r o :
  rows s !! raw_id l = Some r -> holds l r = true -> settles l (RawRow.source r) o ->
  (call o s).1 = Ok tt
  /\ exists r', rows (call o s).2 !! raw_id l = Some r' /\ RawRow.lease_id r' = None
       /\ RawRow.processed r' = match o with OProcessed _ _ _ => true | _ => false end.
Proof.
  intros E H. destruct o; cbn [settles call]; try done.
  - intros [-> ->]. unfold mark_processed. erewrite fenced_holder; [|done|done|apply own_guard|].
    + split; [done|]. eexists. cbn. rewrite lookup_insert_eq. split; [done|]. by destruct system_audit_intent.
    + destruct system_audit_intent; apply terminal_consistent.
  - intros [-> G]. unfold mark_report_error, mark_failed. cbv zeta.
    erewrite fenced_holder; [|done|done|rewrite <- G; apply own_guard|apply failed_consistent].
    split; [done|]. eexists. cbn. rewrite lookup_insert_eq. split; done.
  - intros [-> G]. unfold mark_reply_error, mark_failed.
    erewrite fenced_holder; [|done|done|rewrite <- G; apply own_guard|apply failed_consistent].
    split; [done|]. eexists. cbn. rewrite lookup_insert_eq. split; done.
  - intros ->. unfold mark_replay_error, mark_failed.
    erewrite fenced_holder; [|done|done|done|apply failed_consistent].
    split; [done|]. eexists. cbn. rewrite lookup_insert_eq. split; done.
Qed.

(** ** Audits that are owed *)

Definition owed (id : Z) (s : db) : Prop := exists r, rows s !! id = Some r /\ RawRow.audit r = Some audit_pending.

Lemma entered_run o s id : ok s -> entered id s -> entered id (run o s).
Proof.
  intros [I _] (e & n & H). destruct (run_stepped o s I) as [_ _ A _]. exists e, n.
  destruct A as [->|(a & -> & _)]; [done|]. apply elem_of_app. by left.
Qed.

Lemma owed_run o s id : ok s -> owed id s -> owed id (run o s) \/ entered id (run o s).
Proof.
  intros [I R] (r & E & A). destruct (run_stepped o s I) as [_ _ _ Hr]. specialize (Hr id). rewrite E in Hr. unfold owed.
  destruct (rows (run o s) !! id) as [r'|] eqn:E'; inversion Hr as [? ? M| | |? P N]; subst; [|done].
  destruct M as [| | | | | | | |X D]; try (left; eexists; split; [done|exact A || reflexivity]; fail). by right.
Qed.

Lemma owed_runs os s id : ok s -> owed id s \/ entered id s -> owed id (runs os s) \/ entered id (runs os s).
Proof.
  revert s. induction os as [|o os IH]; intros s Ho H; [done|]. cbn. apply IH; [by apply run_ok|].
  destruct H as [H|H]; [by apply owed_run|right; by apply entered_run].
Qed.

(** The payload and the epoch an entry of the system is about. *)
Definition system_key (a : audit_row) : option (Z * Z) :=
  match a with raw_replay_system id epoch _ => Some (id, epoch) | _ => None end.
Definition system_keys (s : db) : list (Z * Z) := omap system_key (audits s).

Lemma no_entry id epoch l : existsb (system_entry id epoch) l = false -> (id, epoch) ∉ omap system_key l.
Proof.
  intros H (a & Hin & E)%list_elem_of_omap. destruct a; try done. injection E as -> ->.
  enough (existsb (system_entry id epoch) l = true) by congruence.
  apply existsb_exists. eexists. split; [by apply list_elem_of_In|]. cbn. by rewrite !Z.eqb_refl.
Qed.

Lemma keys_run o s : ok s -> NoDup (system_keys s) -> NoDup (system_keys (run o s)).
Proof.
  intros [I _] H. destruct (run_stepped o s I) as [_ _ A _]. unfold system_keys in *.
  destruct A as [->|(a & -> & N)]; [done|]. rewrite omap_app. destruct a; cbn; rewrite ?app_nil_r; try done.
  apply NoDup_app. split_and!; [done| |by apply NoDup_singleton].
  intros x Hx ->%list_elem_of_singleton. revert Hx. apply no_entry. by eapply N.
Qed.

Lemma keys_runs os s : ok s -> NoDup (system_keys s) -> NoDup (system_keys (runs os s)).
Proof.
  revert s. induction os as [|o os IH]; intros s Ho H; [done|]. cbn. apply IH; [by apply run_ok|by apply keys_run].
Qed.

(** The audit of a payload the system replayed is not lost and not doubled.
    Once its settlement has recorded that the audit is owed, then after any
    calls by anyone either the row is still there and still owes it, so the next
    scan finds it and the retention leaves it, or the log has the system's
    entry; and the log has at most one such entry for a payload and an epoch. *)
Theorem raw_audit_not_lost ids before after id :
  let s := runs before (start ids) in
  owed id s ->
  let s' := runs after s in
  (owed id s' \/ entered id s') /\ NoDup (system_keys s').
Proof.
  intros s H s'. assert (Hs : ok s) by (unfold s; apply runs_ok, start_ok).
  split; [by apply owed_runs; auto|].
  apply keys_runs; [done|]. unfold s. apply keys_runs; [apply start_ok|]. apply NoDup_nil_2.
Qed.
End machine.

(** ** A payload of a report that was captured, superseded, settled *)

Definition example_captured : captured := mkCaptured [1; 2; 3] (tx "00") 1 200 (tx "identity") [] 0 Capture.complete.
Definition example_lease : RawProcessingLease := mkLease 1 0 1.
Definition first_poll : list op := [OPersist 0 (tx "report") true example_captured].
Definition system_replay : list op :=
  [OPersist 0 (tx "report") false example_captured; OClaim 5 1 false; OProcessed (tx "report") example_lease true].

Abbreviation fold_id := (fun t : text => t).

Lemma raw_fencing_witness :
  (call fold_id (OProcessed (tx "report") example_lease false)
     (runs fold_id [] (run fold_id (OClaim RAW_LEASE_US 1 false) (runs fold_id first_poll (start []))))).1
  = Raise (RawLeaseLost "raw processing lease lost").
Proof.
  destruct (raw_fencing fold_id [] first_poll (OClaim RAW_LEASE_US 1 false) [] example_lease
              (OProcessed (tx "report") example_lease false)) as [msg _].
  - by vm_compute.
  - split; [done|]. eexists _, _. by vm_compute.
  - done.
  - by vm_compute.
Defined.

Lemma raw_settled_once_witness :
  RawRow.processed <$> rows (runs fold_id [OClaim 9 1 true] (runs fold_id system_replay (start []))) !! 1 = Some true.
Proof.
  destruct (rows (runs fold_id system_replay (start [])) !! 1) as [r|] eqn:E; [|by vm_compute in E].
  assert (P : RawRow.processed r = true) by (vm_compute in E; by injection E as <-).
  destruct (raw_settled_once fold_id [] system_replay [OClaim 9 1 true] 1 r E P) as [H _].
  destruct (rows (runs fold_id [OClaim 9 1 true] (runs fold_id system_replay (start []))) !! 1) as [r'|] eqn:E'.
  - cbn. f_equal. by apply (H r' eq_refl).
  - by vm_compute in E'.
Defined.

Lemma raw_holder_settles_witness :
  (call fold_id (OReportError example_lease (tx "VendorApiError: x") None) (runs fold_id first_poll (start []))).1 = Ok tt.
Proof.
  destruct (rows (runs fold_id first_poll (start [])) !! 1) as [r|] eqn:E; [|by vm_compute in E].
  apply (raw_holder_settles fold_id _ example_lease r (OReportError example_lease (tx "VendorApiError: x") None) E).
  - vm_compute in E. by injection E as <-.
  - vm_compute in E. by injection E as <-.
Defined.

Lemma raw_audit_not_lost_witness :
  owed 1 (runs fold_id [OCleanup 100 1 true] (runs fold_id system_replay (start [])))
  \/ entered 1 (runs fold_id [OCleanup 100 1 true] (runs fold_id system_replay (start []))).
Proof.
  apply (raw_audit_not_lost fold_id [] system_replay [OCleanup 100 1 true] 1).
  eexists. split; [by vm_compute|done].
Defined.
