(* ===== verification/RawReplay.v ===== *)
(** * Replays of the stored payloads

    [services/raw_replay.py] over the methods of [RawLog], and the envelope of
    the vendor's answers of [vendor/zhihui.py] ([decode_pulled_payload]).
    [json.loads] with its [object_pairs_hook], SHA-256, the ciphers and
    [str.casefold] are arguments, as are the two processors of the service
    (its protocol [ExistingRawProcessor]; [ReportIngest] is the one of the
    reports).  The theorems hold for all of them: a processor is consulted only
    about a payload this call has claimed and whose digest is right, a payload
    whose digest is wrong is never replayed again, and every replay that returns
    has its audit entry. *)

From S2P Require Import Prelude PyText Utf8 VendorCodes Crypto CryptoSafety ReportParse RawLog RawSafety.

(** ** The envelope *)

Module Envelope.
Import Codes.

Definition VendorProtocolError (msg : text) : exc := Exc (tx "VendorProtocolError") msg.
Definition VendorApiError (code : Z) : exc :=
  if existsb (fun p => fst p =? code) ERROR_POLICIES
  then Exc (tx "VendorApiError") (tx "vendor error code=" ++ str_int code ++ tx ": " ++ description (policy_for code))
  else VendorProtocolError (tx "unknown vendor error code").

(** [_strict_json_object]; the keys kept so far are the dictionary's. *)
Fixpoint strict_pairs (pairs : list (text * json)) (raw_keys normalized_keys : list text) : result exc (list (text * json)) :=
  match pairs with
  | [] => Ok []
  | (raw_key, item) :: rest =>
      let normalized := strip raw_key in
      if bool_decide (normalized = []) || tmem raw_key raw_keys || tmem normalized normalized_keys
      then Raise (VendorProtocolError (tx "vendor response contains duplicate or ambiguous JSON keys"))
      else kept ← strict_pairs rest (raw_key :: raw_keys) (normalized :: normalized_keys); Ok ((normalized, item) :: kept)
  end.
Definition _strict_json_object (pairs : list (text * json)) : result exc json :=
  items ← strict_pairs pairs [] []; Ok (JObj items).

(** [except (ValueError, UnicodeError)] of the parser *)
Definition not_json (e : exc) : bool :=
  let 'Exc cls _ := e in ReportParse.is_ValueError e || teqb cls (tx "JSONDecodeError").

Section loads.
Context (loads : (list (text * json) -> result exc json) -> bytes -> result exc json).

Definition _decode_vendor_envelope (raw_body : bytes) (status_code : Z) (content_encoding : text) : result exc json :=
  if negb (teqb content_encoding (tx "identity"))
  then Raise (VendorProtocolError (tx "vendor response content-encoding is forbidden"))
  else if status_code =? 429 then Raise (VendorApiError 429)
  else if negb ((200 <=? status_code) && (status_code <? 300))
  then Raise (VendorProtocolError (tx "vendor HTTP status " ++ str_int status_code))
  else match loads _strict_json_object raw_body with
       | Raise e => Raise (if not_json e then VendorProtocolError (tx "vendor response is not JSON") else e)
       | Ok (JObj items) =>
           match json_get (tx "code") items with
           | JInt code =>
               if negb (tmem (tx "data") (fst <$> items))
               then Raise (VendorProtocolError (tx "vendor response envelope is invalid"))
               else match json_get (tx "msg") items with
                    | JNull | JStr _ => if code =? 0 then Ok (json_get (tx "data") items) else Raise (VendorApiError code)
                    | _ => Raise (VendorProtocolError (tx "vendor response msg is invalid"))
                    end
           | _ => Raise (VendorProtocolError (tx "vendor response envelope is invalid"))
           end
       | Ok _ => Raise (VendorProtocolError (tx "vendor response envelope must be an object"))
       end.
End loads.

(** [except VendorError] *)
Definition is_VendorError (e : exc) : bool :=
  let 'Exc cls _ := e in tmem cls [tx "VendorApiError"; tx "VendorProtocolError"].
End Envelope.

(** ** The service *)

Module RawReplay.
Import Crypto RawParse RawLog Envelope.

#[export] Instance method_ret : MRet method := fun A a s => (Ok a, s).
#[export] Instance method_bind : MBind method := fun A B f m s =>
  match m s with (Ok a, s') => f a s' | (Raise e, s') => (Raise e, s') end.
Definition raise {A} (e : exc) : method A := fun s => (Raise e, s).
Definition pure {A} (r : result exc A) : method A := fun s => (r, s).
(** [try: m; except ...: raise ...] *)
Definition translate {A} (f : exc -> exc) (m : method A) : method A := fun s =>
  match m s with (Raise e, s') => (Raise (f e), s') | x => x end.

Definition conflict (msg : text) : exc := Exc (tx "RawReplayConflict") msg.
Definition RawIntegrityConflict (msg : string) : exc := Exc (tx "RawIntegrityConflict") (tx msg).
Definition RawReplayNotFound (id : Z) : exc := Exc (tx "RawReplayNotFound") (str_int id).
Definition RawReplaySystemAuditIncomplete : exc := Exc (tx "RawReplaySystemAuditIncomplete") (tx "system raw replay audit incomplete").

Definition is_RawLeaseLost (e : exc) : bool :=
  let 'Exc cls _ := e in tmem cls [tx "RawLeaseLost"; tx "RawLeaseHeartbeatFailed"].
Definition is_Exception (e : exc) : bool := let 'Exc cls _ := e in negb (teqb cls (tx "CancelledError")).

(** [ExistingRawProcessor.process_existing] *)
Definition processor : Type := RawProcessingLease -> json -> bool -> method Z.

Definition _require_replay_actors (actor : text) (system_producer : bool) (principal : option text) : result exc unit :=
  if system_producer
  then refuse (bool_decide (is_Some principal)) (RuntimeError "system raw replay cannot bind a human principal")
  else refuse (negb (bool_decide (principal = Some actor))) (RuntimeError "raw replay audit principal unavailable").

Definition has_human_raw_replay_audit (id : Z) : method bool := fun s =>
  (Ok (existsb (fun a => match a with
                         | raw_replay_system i _ _ | raw_replay_human i _ => i =? id
                         | _ => false
                         end) (audits s)), s).

Definition _write_system_audit (id items epoch : Z) : method unit :=
  translate (fun e => if is_Exception e then RawReplaySystemAuditIncomplete else e)
    (audit_raw_replay_system id items (Some epoch)).

Section service.
Context `{Ciphers} (crypto : CryptoService) (sha256 : bytes -> text).
Context (loads : (list (text * json) -> result exc json) -> bytes -> result exc json).
Context (casefold : text -> text).

Definition raw_context (r : RawRow.t) : EncryptionContext :=
  mkContext (tx "vendor-raw") (tx "raw_vendor_log") (tx "payload_enc") (RawRow.source r ++ tx ":" ++ RawRow.payload_sha256 r).
Definition plaintext (r : RawRow.t) : result exc bytes :=
  decrypt_bound_bytes crypto (RawRow.payload_enc r) (RawRow.key_version r) (raw_context r) true.
Definition decoded (r : RawRow.t) (raw : bytes) : result exc json :=
  _decode_vendor_envelope loads raw (RawRow.http_status r) (RawRow.content_encoding r).

Definition _integrity_error {A} (l : RawProcessingLease) (msg : string) : method A :=
  _ ← mark_replay_error casefold l (tx msg) None; raise (RawIntegrityConflict msg).

(** The payload was not claimed. *)
Definition unclaimed (id : Z) (r : RawRow.t) (system_producer : bool) : method Z :=
  if is_non_replayable_capture (RawRow.capture r) then raise (conflict (utx "截断或协议异常 raw 不得当作正常可重放"))
  else if RawRow.processed r then
    if system_producer then
      if bool_decide (RawRow.audit r = Some audit_pending)
      then _ ← _write_system_audit id (RawRow.item_count r) (RawRow.epoch r); mret (RawRow.item_count r)
      else raise (conflict (utx "仅未处理 raw 可重放"))
    else
      found ← has_human_raw_replay_audit id;
      if found : bool then raise (conflict (utx "仅未处理 raw 可重放"))
      else _ ← audit_raw_replay_human id (RawRow.item_count r); mret (RawRow.item_count r)
  else match eligibility_conflict_message (RawRow.eligibility r) system_producer with
       | Some refused => raise (conflict refused)
       | None => raise (conflict (utx "raw 正在处理中，请稍后重试"))
       end.

Section processors.
Context (reports replies : processor).

(** The processing of a decoded payload by its processor. *)
Definition processed_by (l : RawProcessingLease) (r : RawRow.t) (data : json) (system_producer : bool) : method Z :=
  translate (fun e => if is_RawLeaseLost e then conflict (utx "raw 处理权已被接管") else e)
    (if teqb (RawRow.source r) (tx "report") then reports l data system_producer
     else if teqb (RawRow.source r) (tx "reply") then replies l data system_producer
     else _integrity_error l "raw source is invalid").

Definition claimed (id : Z) (l : RawProcessingLease) (r : RawRow.t) (system_producer : bool) : method Z :=
  if is_non_replayable_capture (RawRow.capture r) then raise (conflict (utx "截断或协议异常 raw 不得当作正常可重放"))
  else if RawRow.processed r then raise (conflict (utx "仅未处理 raw 可重放"))
  else match eligibility_conflict_message (RawRow.eligibility r) system_producer with
       | Some refused => raise (conflict refused)
       | None =>
           raw ← pure (plaintext r);
           if negb (teqb (sha256 raw) (RawRow.payload_sha256 r)) then _integrity_error l "raw payload integrity mismatch" else
           match decoded r raw with
           | Raise e => if is_VendorError e then _integrity_error l "raw vendor envelope is invalid" else raise e
           | Ok data =>
               count ← processed_by l r data system_producer;
               _ ← (if system_producer then _write_system_audit id count (lease_epoch l) else audit_raw_replay_human id count);
               mret count
           end
       end.

Definition replay (now id : Z) (actor : text) (system_producer : bool) (principal : option text) : method Z :=
  _ ← pure (_require_replay_actors actor system_producer principal);
  claim ← claim_raw_for_replay now id (negb system_producer);
  match claim with
  | None => raise (RawReplayNotFound id)
  | Some (r, lease) =>
      match replay_forbidden_message (RawRow.capture r) with
      | Some forbidden => raise (conflict forbidden)
      | None => match lease with
                | None => unclaimed id r system_producer
                | Some l => claimed id l r system_producer
                end
      end
  end.
End processors.

(** [reevaluate]: the error of the decoding as the classification reads it.
    The context of the first message is a [ValueError], which is not among
    the transient classes. *)
Definition failure_of (e : exc) : failure :=
  let 'Exc cls msg := e in mkFailure [[cls; tx "VendorError"; tx "RuntimeError"; tx "Exception"]] msg.
Definition integrity_failure : failure :=
  mkFailure [[tx "RawIntegrityConflict"; tx "RawReplayConflict"; tx "RuntimeError"; tx "Exception"]]
    (tx "raw payload integrity mismatch").

Definition evidence (r : RawRow.t) : result exc (option failure * option text * bool) :=
  let wire := persist_disposition casefold (Some (RawRow.capture r)) (Some (RawRow.http_status r))
                (Some (RawRow.content_encoding r)) (RawRow.processed r) in
  if RawRow.processed r || bool_decide (replay_eligibility wire = Eligibility.never) then Ok (None, None, false) else
  raw ← plaintext r;
  if negb (teqb (sha256 raw) (RawRow.payload_sha256 r))
  then Ok (Some integrity_failure, Some (tx "raw payload integrity mismatch"), false)
  else match decoded r raw with
       | Ok _ => Ok (None, None, true)
       | Raise ((Exc cls _) as e) =>
           if is_VendorError e then Ok (Some (failure_of e), Some (cls ++ tx ": vendor response parsing failed"), false)
           else Raise e
       end.

Definition reevaluate (now id : Z) (actor principal : text) : method RawParseDisposition :=
  _ ← pure (refuse (negb (teqb principal actor)) (RuntimeError "raw reevaluate audit principal unavailable"));
  found ← (fun s => (Ok (rows s !! id), s) : result exc (option RawRow.t) * db);
  match found with
  | None => raise (RawReplayNotFound id)
  | Some r =>
      match reevaluate_forbidden_message (RawRow.capture r) with
      | Some forbidden => raise (conflict forbidden)
      | None =>
          '(decode_error, error_text, decoded_ok) ← pure (evidence r);
          let d := reevaluate_disposition casefold (Some (RawRow.capture r)) (Some (RawRow.http_status r))
                     (Some (RawRow.content_encoding r)) (RawRow.processed r) decode_error decoded_ok in
          let error := if decoded_ok || RawRow.processed r then None
                       else match error_text with Some t => Some t | None => RawRow.error r end in
          _ ← translate (fun e => if is_RawLeaseLost e then conflict (utx "raw 正在处理中，请稍后重试") else e)
                (apply_raw_reevaluation now id (RawRow.processed r) (RawRow.parse r) (RawRow.eligibility r) d error);
          mret d
      end
  end.
End service.
End RawReplay.

(** ** Properties *)

Module RawReplaySafety.
Import Crypto RawParse RawLog Envelope RawReplay.

Section service.
Context `{Ciphers} (crypto : CryptoService) (sha256 : bytes -> text).
Context (loads : (list (text * json) -> result exc json) -> bytes -> result exc json).
Context (casefold : text -> text).

Abbreviation replayed := (replay crypto sha256 loads casefold).

Lemma method_bind_raise {A B} (m : method A) (f : A -> method B) s e s' : m s = (Raise e, s') -> (m ≫= f) s = (Raise e, s').
Proof. intros E. unfold mbind, method_bind. by rewrite E. Qed.

Lemma method_bind_run {A B} (m : method A) (f : A -> method B) s a s' : m s = (Ok a, s') -> (m ≫= f) s = f a s'.
Proof. intros E. unfold mbind, method_bind. by rewrite E. Qed.

Lemma method_bind_ok {A B} (m : method A) (f : A -> method B) s b s'' :
  (m ≫= f) s = (Ok b, s'') -> exists a s', m s = (Ok a, s') /\ f a s' = (Ok b, s'').
Proof. unfold mbind, method_bind. destruct (m s) as [[a|e] s']; naive_solver. Qed.

Lemma claimed_agree p1 q1 p2 q2 id l r system s :
  (forall raw data, plaintext crypto r = Ok raw -> sha256 raw = RawRow.payload_sha256 r -> decoded loads r raw = Ok data -> False) ->
  claimed crypto sha256 loads casefold p1 q1 id l r system s = claimed crypto sha256 loads casefold p2 q2 id l r system s.
Proof.
  intros N. unfold claimed. destruct (is_non_replayable_capture _); [done|]. destruct (RawRow.processed r); [done|].
  destruct (eligibility_conflict_message _ _); [done|]. destruct (plaintext crypto r) as [raw|e] eqn:P; [|done].
  unfold mbind, method_bind, pure. destruct (teqb (sha256 raw) _) eqn:D; [|done]. cbn [negb]. destruct (decoded loads r raw) as [data|e] eqn:X; [|done].
  exfalso. eapply N; [done|by apply teqb_spec|done].
Qed.

Lemma readable r :
  (exists raw data, plaintext crypto r = Ok raw /\ sha256 raw = RawRow.payload_sha256 r /\ decoded loads r raw = Ok data)
  \/ forall raw data, plaintext crypto r = Ok raw -> sha256 raw = RawRow.payload_sha256 r -> decoded loads r raw = Ok data -> False.
Proof.
  destruct (plaintext crypto r) as [raw|e]; [|by right].
  destruct (decide (sha256 raw = RawRow.payload_sha256 r)) as [D|D]; [|right; intros ? ? [= <-]; done].
  destruct (decoded loads r raw) as [data|e] eqn:X; [left; eauto|]. right. intros ? ? [= <-] _ Y. congruence.
Qed.

(** C32: A processor is consulted only about a payload that this call has
    claimed.  If the outcome of a replay depends on the processors at all, then the
    row was unprocessed, eligible and free when the call claimed it, its
    payload decrypts under the context of the row, the digest of the plaintext
    is the recorded one and the vendor's envelope is valid. *)
Theorem replay_guarded p1 q1 p2 q2 now id actor system principal s :
  replayed p1 q1 now id actor system principal s <> replayed p2 q2 now id actor system principal s ->
  exists r raw data,
    rows s !! id = Some r /\ claimable now (negb system) r = true
    /\ plaintext crypto r = Ok raw /\ sha256 raw = RawRow.payload_sha256 r /\ decoded loads r raw = Ok data.
Proof.
  unfold replay. unfold mbind, method_bind, pure.
  destruct (_require_replay_actors actor system principal) as [[]|e]; [|done].
  unfold claim_raw_for_replay. destruct (rows s !! id) as [r|]; [|done].
  destruct (claimable now (negb system) r) eqn:C; [|done].
  destruct (readable r) as [(raw & data & P)|X]; [intros _; exists r, raw, data; tauto|].
  intros N. exfalso. apply N. clear N. cbv zeta. destruct (consistent _); [|done].
  destruct (replay_forbidden_message _); [done|]. by apply claimed_agree.
Qed.

(** ** A digest that does not match *)

Lemma claimable_replayable now m r :
  claimable now m r = true ->
  RawRow.processed r = false /\ is_non_replayable_capture (RawRow.capture r) = false
  /\ eligibility_conflict_message (RawRow.eligibility r) (negb m) = None /\ replay_forbidden_message (RawRow.capture r) = None.
Proof.
  unfold claimable. intros [[[P C]%andb_prop E]%andb_prop _]%andb_prop.
  apply negb_true_iff in P. split; [done|].
  destruct m, (RawRow.capture r), (RawRow.eligibility r); try done; by vm_compute in C, E.
Qed.

Lemma claim_run now id m s r :
  rows s !! id = Some r -> claimable now m r = true -> consistent r = true ->
  exists s1 e, claim_raw_for_replay now id m s
    = (Ok (Some (RawRow.claim (leases s) e r, Some (mkLease id (leases s) (RawRow.epoch r + 1)))), s1)
    /\ rows s1 = <[id := RawRow.claim (leases s) e r]> (rows s).
Proof.
  intros E C K. unfold claim_raw_for_replay. rewrite E, C. cbv zeta.
  assert (K' : forall e, consistent (RawRow.claim (leases s) e r) = true) by (intros e; exact K). rewrite K'.
  destruct m; eexists _, _; (split; [done|]); done.
Qed.

Lemma integrity_text (t : text) :
  t = tx "raw payload integrity mismatch" -> replay_eligibility (_classify_error_text (fun _ => t) t) = Eligibility.never.
Proof. intros ->. by vm_compute. Qed.

Lemma integrity_never :
  casefold (tx "raw payload integrity mismatch") = tx "raw payload integrity mismatch" ->
  replay_eligibility (mark_error_column_values casefold (take 256 (tx "raw payload integrity mismatch")) None) = Eligibility.never.
Proof.
  intros F. replace (take 256 (tx "raw payload integrity mismatch")) with (tx "raw payload integrity mismatch") by by vm_compute.
  unfold mark_error_column_values, classify_raw_disposition.
  destruct (negb (teqb (normal_encoding casefold None) identity)); [done|].
  transitivity (replay_eligibility (_classify_error_text casefold (tx "raw payload integrity mismatch"))); [done|].
  rewrite <- (integrity_text (tx "raw payload integrity mismatch") eq_refl). unfold _classify_error_text, _error_text.
  replace (strip (tx "raw payload integrity mismatch")) with (tx "raw payload integrity mismatch") by by vm_compute.
  by rewrite F.
Qed.

(** A payload whose plaintext has another digest is not processed and not
    replayed again: the replay raises [RawIntegrityConflict] without consulting a
    processor, releases the lease and leaves the row unprocessed with the
    eligibility [never], so that no later claim, automatic or manual, obtains
    it from this state. *)
Theorem replay_mismatch_final p q now id actor system principal s r raw :
  rows s !! id = Some r -> claimable now (negb system) r = true -> consistent r = true ->
  _require_replay_actors actor system principal = Ok tt ->
  plaintext crypto r = Ok raw -> sha256 raw <> RawRow.payload_sha256 r ->
  casefold (tx "raw payload integrity mismatch") = tx "raw payload integrity mismatch" ->
  exists s' r', replayed p q now id actor system principal s = (Raise (RawIntegrityConflict "raw payload integrity mismatch"), s')
    /\ rows s' !! id = Some r' /\ RawRow.processed r' = false /\ RawRow.lease_id r' = None
    /\ forall later m, claimable later m r' = false.
Proof.
  intros E C K A P D F.
  destruct (claimable_replayable _ _ _ C) as (Hp & Hc & He & Hf). rewrite negb_involutive in He.
  destruct (claim_run now id (negb system) s r E C K) as (s1 & e & Hclaim & Hs1).
  unfold replay. rewrite (method_bind_run _ _ _ tt s) by (unfold pure; by rewrite A).
  rewrite (method_bind_run _ _ _ _ _ Hclaim). cbn [RawRow.capture RawRow.claim]. rewrite Hf.
  unfold claimed. cbn [RawRow.capture RawRow.claim RawRow.processed RawRow.eligibility]. rewrite Hc, Hp, He.
  rewrite (method_bind_run _ _ _ raw s1) by (unfold pure; by rewrite <- P).
  cbn [RawRow.payload_sha256 RawRow.claim]. apply teqb_false in D. rewrite D. cbn [negb].
  unfold _integrity_error, mark_replay_error, mark_failed.
  rewrite (method_bind_run _ _ _ tt _
    (fenced_holder (mkLease id (leases s) (RawRow.epoch r + 1)) _ _ s1 (RawRow.claim (leases s) e r)
       ltac:(rewrite Hs1; apply lookup_insert_eq) ltac:(unfold holds; cbn; by rewrite bool_decide_eq_true_2, Z.eqb_refl)
       eq_refl (failed_consistent casefold _ _ _ _ _))).
  eexists _, _. split; [done|]. split; [cbn [snd rows set_rows raw_id]; apply lookup_insert_eq|]. split; [done|]. split; [done|].
  intros later m. unfold claimable. apply andb_false_iff. left. apply andb_false_iff. right.
  apply bool_decide_eq_false. cbn [RawRow.eligibility RawRow.terminal RawRow.claim]. rewrite integrity_never by done.
  destruct (bool_decide _), m; vm_compute; intros X; by inversion X as [|? ? ? X1]; inversion X1 as [|? ? ? X2]; inversion X2.
Qed.

(** ** Audits of the replays *)

Lemma translate_ok {A} (f : exc -> exc) (m : method A) s a s' : translate f m s = (Ok a, s') -> m s = (Ok a, s').
Proof. unfold translate. destruct (m s) as [[]]; congruence. Qed.

Lemma system_audited id items epoch s s' :
  audit_raw_replay_system id items (Some epoch) s = (Ok tt, s') -> exists n, raw_replay_system id epoch n ∈ audits s'.
Proof.
  unfold audit_raw_replay_system. cbn [default]. cbv zeta. intros X.
  assert (H' : exists n, raw_replay_system id epoch n ∈ audits (if existsb (system_entry id epoch) (audits s) then s
                           else add_audit (raw_replay_system id epoch items) s)).
  { destruct (existsb _ _) eqn:B; [by apply system_entry_in|]. exists items. cbn. apply elem_of_app. right. by left. }
  destruct (rows s !! id) as [r|]; [|done]. destruct (RawRow.audit r) as [[]|]; try done; injection X as <-; exact H'.
Qed.

Lemma human_audited id items s s' :
  audit_raw_replay_human id items s = (Ok tt, s') -> raw_replay_human id items ∈ audits s'.
Proof.
  unfold audit_raw_replay_human. destruct (rows s !! id); [|done]. case_bool_decide; [|done].
  intros [= <-]. cbn. apply elem_of_app. right. by left.
Qed.

(** What the log holds when a replay has returned [n]. *)
Definition audited (id n : Z) (system : bool) (s : db) : Prop :=
  if system then exists epoch items, raw_replay_system id epoch items ∈ audits s else raw_replay_human id n ∈ audits s.

Lemma unclaimed_audited id r system s n s' : unclaimed id r system s = (Ok n, s') -> audited id n system s'.
Proof.
  unfold unclaimed. destruct (is_non_replayable_capture _); [done|]. destruct (RawRow.processed r).
  - destruct system.
    + case_bool_decide; [|done]. intros ([] & s1 & W & [= <- <-])%method_bind_ok.
      apply translate_ok, system_audited in W as [k W]. cbn. eauto.
    + intros (found & s1 & _ & X)%method_bind_ok. destruct found; [done|].
      apply method_bind_ok in X as ([] & s2 & W & [= <- <-]). by apply human_audited in W.
  - by destruct (eligibility_conflict_message _ _).
Qed.

Lemma claimed_audited p q id l r system s n s' :
  claimed crypto sha256 loads casefold p q id l r system s = (Ok n, s') -> audited id n system s'.
Proof.
  unfold claimed. destruct (is_non_replayable_capture _); [done|]. destruct (RawRow.processed r); [done|].
  destruct (eligibility_conflict_message _ _); [done|]. intros (raw & s1 & _ & X)%method_bind_ok.
  destruct (negb _); [apply method_bind_ok in X as (? & ? & _ & [=])|].
  destruct (decoded loads r raw) as [data|e].
  - apply method_bind_ok in X as (count & s2 & _ & X). apply method_bind_ok in X as ([] & s3 & W & [= <- <-]).
    destruct system; [|by apply human_audited in W]. apply translate_ok, system_audited in W as [k W]. cbn. eauto.
  - destruct (is_VendorError e); [|done]. apply method_bind_ok in X as (? & ? & _ & [=]).
Qed.

(** A replay that returns is in the audit log: a replay of the system has
    the system's entry of the payload, a replay by an operator has an entry with the
    number of items it returned, whatever the processors do. *)
Theorem replay_audited p q now id actor system principal s n s' :
  replayed p q now id actor system principal s = (Ok n, s') -> audited id n system s'.
Proof.
  unfold replay. intros ([] & s1 & _ & X)%method_bind_ok. apply method_bind_ok in X as (claim & s2 & _ & X).
  destruct claim as [[r lease]|]; [|done]. destruct (replay_forbidden_message _); [done|].
  destruct lease as [l|]; [by eapply claimed_audited|by eapply unclaimed_audited].
Qed.
End service.
End RawReplaySafety.

(** ** A payload of one object, replayed by the system *)

Module RawReplayExample.
Import Crypto CryptoSafety RawParse RawLog Envelope RawReplay RawReplaySafety.
#[local] Existing Instance sum_ciphers.

Definition sha256 (b : bytes) : text := replicate 64 (48 + len b mod 10).
Definition body : bytes := tx "{}".
Definition loads (hook : list (text * json) -> result exc json) (b : bytes) : result exc json :=
  hook [(tx "code", JInt 0); (tx "msg ", JStr (tx "ok")); (tx "data", JList [])].

Definition stored (digest : text) : captured :=
  let context := mkContext (tx "vendor-raw") (tx "raw_vendor_log") (tx "payload_enc") (tx "report:" ++ digest) in
  match encrypt_bound_bytes first_service example_nonce body context with
  | Ok e => mkCaptured (payload e) digest (key_version e) 200 (tx "identity") [] 0 Capture.complete
  | Raise _ => mkCaptured [] digest 1 200 (tx "identity") [] 0 Capture.complete
  end.
Definition state (digest : text) : db := run (fun t => t) (OPersist 0 (tx "report") false (stored digest)) (start []).

(** The processor settles the row and counts two items. *)
Definition settling : processor := fun l data intent => _ ← mark_processed (tx "report") l intent; mret 2.
Definition idle : processor := fun l data intent => raise (RuntimeError "idle").

Abbreviation replays := (replay first_service sha256 loads (fun t => t)).

Lemma replay_guarded_witness :
  exists r raw data, rows (state (sha256 body)) !! 1 = Some r /\ claimable 5 false r = true
    /\ plaintext first_service r = Ok raw /\ sha256 raw = RawRow.payload_sha256 r /\ decoded loads r raw = Ok data.
Proof.
  apply (replay_guarded first_service sha256 loads (fun t => t) settling settling idle idle 5 1 (tx "system") true None).
  intros X. apply (f_equal fst) in X. by vm_compute in X.
Defined.

Lemma replay_audited_witness :
  exists n s', replays settling idle 5 1 (tx "system") true None (state (sha256 body)) = (Ok n, s') /\ audited 1 n true s'.
Proof.
  destruct (replays settling idle 5 1 (tx "system") true None (state (sha256 body))) as [[n|e] s'] eqn:E.
  - exists n, s'. split; [done|].
    apply (replay_audited first_service sha256 loads (fun t => t) settling idle 5 1 (tx "system") true None
             (state (sha256 body)) n s' E).
  - exfalso. apply (f_equal fst) in E. by vm_compute in E.
Defined.

Lemma replay_mismatch_final_witness :
  exists s' r', replays settling idle 5 1 (tx "system") true None (state (tx "11"))
    = (Raise (RawIntegrityConflict "raw payload integrity mismatch"), s')
    /\ rows s' !! 1 = Some r' /\ RawRow.processed r' = false /\ RawRow.lease_id r' = None
    /\ forall later m, claimable later m r' = false.
Proof.
  destruct (rows (state (tx "11")) !! 1) as [r|] eqn:E; [|by vm_compute in E].
  apply (replay_mismatch_final first_service sha256 loads (fun t => t) settling idle 5 1 (tx "system") true None
           (state (tx "11")) r body E); try (vm_compute in E; injection E as <-; by vm_compute); by vm_compute.
Defined.
End RawReplayExample.
