(* ===== verification/Callbacks.v ===== *)
(** * Result callbacks: tasks, leases, authority

    [services/callback_repository.py], [services/callback_batch_event.py],
    [services/callback_authority.py], [services/callback_retry_eligibility.py],
    the writes of [services/app_repository.py] on the callback configuration and
    the triggers of the schema around them.  Instants are numbers of
    microseconds; a UUID is a number no row had before, [uuid_text] prints it.
    The event a task is announced with goes to the outbox of [Outbox] in the
    same transaction. *)

From S2P Require Import Prelude PyText OutboxContract Outbox.

Module TaskStatus.

Inductive t := pending | retrying | done | dead.

#[export] Instance eq_dec : EqDecision t.
Proof. solve_decision. Defined.

End TaskStatus.
Export (hints) TaskStatus.

(** [callback_task.event] *)
Module CallbackEvent.

Inductive t := batch_finished | message_report.

#[export] Instance eq_dec : EqDecision t.
Proof. solve_decision. Defined.

End CallbackEvent.
Export (hints) CallbackEvent.

(** [callback_task]: the parallel arrays of references are one list, the two
    columns of the lease one pair. *)
Module Task.

Record t := mk {
  event_id : Z;
  app_id : Z;
  event : CallbackEvent.t;
  batch_id : Z;
  source_report_event_key : option text;
  refs : list (Z * Z * text);
  url : text;
  secret : list Z;
  secret_version : Z;
  status : TaskStatus.t;
  retry_count : Z;
  next_retry_at : option Z;
  lease : option (Z * Z);
  takeover_count : Z;
  last_http_code : option Z;
  last_error : option text;
  created_at : Z;
  finished_at : option Z
}.

Definition set_refs (v : list (Z * Z * text)) (t : t) : Task.t :=
  mk (event_id t) (app_id t) (event t) (batch_id t) (source_report_event_key t) v (url t) (secret t) (secret_version t)
    (status t) (retry_count t) (next_retry_at t) (lease t) (takeover_count t) (last_http_code t) (last_error t)
    (created_at t) (finished_at t).

(** The columns of the delivery. *)
Definition set_state (st : TaskStatus.t) (retries : Z) (next : option Z) (l : option (Z * Z)) (takeovers : Z)
    (http : option Z) (err : option text) (finished : option Z) (t : t) : Task.t :=
  mk (event_id t) (app_id t) (event t) (batch_id t) (source_report_event_key t) (refs t) (url t) (secret t)
    (secret_version t) st retries next l takeovers http err (created_at t) finished.
End Task.

(** The callback columns of [app]. *)
Module App.

Record t := mk {
  active : bool;
  callback_url : option text;
  callback_secret_enc : option (list Z);
  callback_report_enabled : bool
}.
#[export] Instance eq_dec : EqDecision t.
Proof. solve_decision. Defined.
End App.
Export (hints) App.

(** The columns of [sms_batch] a callback reads. *)
Module FinishedBatch.

Inductive status := completed | completed_unknown | cancelled | expired | rejected | unfinished.
#[export] Instance status_eq : EqDecision status.
Proof. solve_decision. Defined.

Record t := mk {
  app_id : Z;
  batch_no : text;
  biz_id : option text;
  category : text;
  state : status;
  total : Z;
  delivered : Z;
  failed : Z;
  unknown_cnt : Z
}.
End FinishedBatch.
Export (hints) FinishedBatch.

(** [callback_batch_event]: a row without a summary is a legacy one. *)
Module Snapshot.

Record t := mk {
  batch_id : Z;
  source_report_event_key : option text;
  recovered_from_task_id : option Z;
  summary : option FinishedBatch.t;
  finished_at : Z
}.
End Snapshot.

(** [callback_report_event] *)
Module ReportFact.

Record t := mk {
  batch_id : Z;
  message_id : Z;
  message_created_at : Z;
  message_status : text;
  report_desc : text;
  report_time : Z
}.
End ReportFact.

Module Callbacks.
Import OutboxContract Outbox.

(** [callback_authority_lease] of an application *)
Record authority := mkAuthority { au_task : Z; au_lease : Z; au_expires : Z }.

Inductive lease_event := LeaseEvent (task_id : Z) (kind : text) (lease_id : option Z).
Inductive audit_row := callback_retry (task_id : Z) | callback_finished_recover (task_id source : Z) (created : bool).

Record db := mkDb {
  apps : gmap Z App.t;
  batches : gmap Z FinishedBatch.t;
  tasks : gmap Z Task.t;
  snapshots : gmap Z Snapshot.t;
  facts : gmap text ReportFact.t;
  authorities : gmap Z authority;
  next_task : Z;
  next_uuid : Z;
  lease_events : list lease_event;
  audits : list audit_row;
  outbox : Outbox.db
}.

Definition set_apps f (s : db) : db := mkDb (f (apps s)) (batches s) (tasks s) (snapshots s) (facts s) (authorities s) (next_task s) (next_uuid s) (lease_events s) (audits s) (outbox s).
Definition set_batches f (s : db) : db := mkDb (apps s) (f (batches s)) (tasks s) (snapshots s) (facts s) (authorities s) (next_task s) (next_uuid s) (lease_events s) (audits s) (outbox s).
Definition set_tasks f (s : db) : db := mkDb (apps s) (batches s) (f (tasks s)) (snapshots s) (facts s) (authorities s) (next_task s) (next_uuid s) (lease_events s) (audits s) (outbox s).
Definition set_snapshots f (s : db) : db := mkDb (apps s) (batches s) (tasks s) (f (snapshots s)) (facts s) (authorities s) (next_task s) (next_uuid s) (lease_events s) (audits s) (outbox s).
Definition set_facts f (s : db) : db := mkDb (apps s) (batches s) (tasks s) (snapshots s) (f (facts s)) (authorities s) (next_task s) (next_uuid s) (lease_events s) (audits s) (outbox s).
Definition set_authorities f (s : db) : db := mkDb (apps s) (batches s) (tasks s) (snapshots s) (facts s) (f (authorities s)) (next_task s) (next_uuid s) (lease_events s) (audits s) (outbox s).
Definition add_lease_event e (s : db) : db := mkDb (apps s) (batches s) (tasks s) (snapshots s) (facts s) (authorities s) (next_task s) (next_uuid s) (lease_events s ++ [e]) (audits s) (outbox s).
Definition add_audit a (s : db) : db := mkDb (apps s) (batches s) (tasks s) (snapshots s) (facts s) (authorities s) (next_task s) (next_uuid s) (lease_events s) (audits s ++ [a]) (outbox s).
Definition set_outbox v (s : db) : db := mkDb (apps s) (batches s) (tasks s) (snapshots s) (facts s) (authorities s) (next_task s) (next_uuid s) (lease_events s) (audits s) v.

Definition tx_ (A : Type) : Type := stex db exc A.
Definition fresh_uuid : tx_ Z := fun s =>
  Ok (next_uuid s, mkDb (apps s) (batches s) (tasks s) (snapshots s) (facts s) (authorities s) (next_task s) (next_uuid s + 1) (lease_events s) (audits s) (outbox s)).
Definition fresh_task : tx_ Z := fun s =>
  Ok (next_task s, mkDb (apps s) (batches s) (tasks s) (snapshots s) (facts s) (authorities s) (next_task s + 1) (next_uuid s) (lease_events s) (audits s) (outbox s)).
Definition in_outbox {A} (m : stex Outbox.db exc A) : tx_ A := fun s =>
  match m (outbox s) with Ok (a, o) => Ok (a, set_outbox o s) | Raise e => Raise e end.

Definition violation (name : string) : exc := Exc (tx "IntegrityError") (tx name).
Definition secs (n : Z) : Z := n * 1000000.
Definition MINUTE : Z := 60000000.

(** ** The configuration a task was made for *)

(** [a.status=1 AND a.callback_url=t.url AND a.callback_secret_enc=t.callback_secret_enc
    AND (t.event<>'message.report' OR a.callback_report_enabled=true)] *)
Definition matches (a : App.t) (t : Task.t) : bool :=
  App.active a && bool_decide (App.callback_url a = Some (Task.url t))
  && bool_decide (App.callback_secret_enc a = Some (Task.secret t))
  && (negb (bool_decide (Task.event t = CallbackEvent.message_report)) || App.callback_report_enabled a).

(** [((get_byte(s,0) << 8) + get_byte(s,1))::smallint], positive by a constraint *)
Definition key_version_of (s : list Z) : result exc Z :=
  match s with
  | a :: b :: _ => let v := a * 256 + b in
                   if between 1 32767 v then Ok v else Raise (violation "chk_callback_secret_key_version")
  | _ => Raise (Exc (tx "DataError") (tx "index out of valid range"))
  end.

Definition new_task (event_id app_id : Z) (event : CallbackEvent.t) (batch_id : Z) (source : option text)
    (refs : list (Z * Z * text)) (url : text) (secret : list Z) (version now : Z) : Task.t :=
  Task.mk event_id app_id event batch_id source refs url secret version TaskStatus.pending 0 None None 0 None None now None.

Section tasks.
Context (uuid_text : Z -> text).

(** [OutboxEventSpec(event_type="callback.ready", ...)] *)
Definition ready_spec (task_id : Z) (dedup : text) (correlation : option Z) : OutboxEventSpec :=
  mkSpec (tx "callback.ready") (tx "callback_task") (str_int task_id) (tx "app.tasks.deliver_callback") (tx "callback")
    [AInt task_id] dedup 12 correlation.
Definition attempt_key (task_id n : Z) : text := tx "callback:" ++ str_int task_id ++ tx ":attempt:" ++ str_int n.

(** The insertion of a task and of its first event. *)
Definition insert_task (now app_id : Z) (url : text) (secret : list Z) (event : CallbackEvent.t)
    (batch_id : Z) (source : option text) (refs : list (Z * Z * text)) : tx_ Z :=
  version ← lift (key_version_of secret);
  event_id ← fresh_uuid;
  id ← fresh_task;
  _ ← modify (set_tasks (<[id := new_task event_id app_id event batch_id source refs url secret version now]>));
  mret id.

Definition announce (now id correlation : Z) : tx_ unit :=
  _ ← in_outbox (enqueue_outbox now None (ready_spec id (attempt_key id 0) (Some correlation)) 0 false);
  mret tt.

(** ** Producers *)

Definition max_opt (l : list Z) : option Z :=
  foldr (fun x acc => Some (match acc with Some y => Z.max x y | None => x end)) None l.
(** [... ORDER BY id DESC LIMIT 1] *)
Definition newest (P : Task.t -> bool) (m : gmap Z Task.t) : option Z :=
  max_opt (fst <$> filter (fun p => P p.2 = true) (map_to_list m)).

(** The task of the running minute that can take one more reference. *)
Definition open_task (now batch_id : Z) (s : db) (t : Task.t) : bool :=
  bool_decide (Task.event t = CallbackEvent.message_report) && (Task.batch_id t =? batch_id)
  && bool_decide (Task.status t = TaskStatus.pending) && (Task.retry_count t =? 0)
  && (now - now mod MINUTE <=? Task.created_at t) && (Z.of_nat (length (Task.refs t)) <? 500)
  && match apps s !! Task.app_id t with
     | Some a => App.active a && App.callback_report_enabled a
                 && bool_decide (App.callback_url a = Some (Task.url t))
                 && bool_decide (App.callback_secret_enc a = Some (Task.secret t))
     | None => false
     end.

(** [enqueue_message_report] *)
Definition enqueue_message_report (now correlation batch_id message_id created_at : Z) (event_key message_status report_desc : text)
    (report_time : Z) : tx_ unit :=
  s ← get;
  if bool_decide (is_Some (facts s !! event_key)) then mret tt else
  _ ← modify (set_facts (<[event_key := ReportFact.mk batch_id message_id created_at message_status report_desc report_time]>));
  match newest (open_task now batch_id s) (tasks s) with
  | Some id =>
      modify (set_tasks (alter (fun t => Task.set_refs (Task.refs t ++ [(message_id, created_at, event_key)]) t) id))
  | None =>
      match batches s !! batch_id with
      | None => mret tt
      | Some b =>
          match apps s !! FinishedBatch.app_id b with
          | Some (App.mk true (Some url) (Some secret) true) =>
              id ← insert_task now (FinishedBatch.app_id b) url secret CallbackEvent.message_report batch_id None
                     [(message_id, created_at, event_key)];
              announce now id correlation
          | _ => mret tt
          end
      end
  end.

Definition terminal (st : FinishedBatch.status) : bool := negb (bool_decide (st = FinishedBatch.unfinished)).

(** [ck_cbe_payload] of a summary *)
Definition payload_valid (b : FinishedBatch.t) : bool :=
  terminal (FinishedBatch.state b) && tmem (FinishedBatch.category b) [tx "verify"; tx "notice"; tx "market"]
  && (0 <=? FinishedBatch.total b) && (0 <=? FinishedBatch.delivered b) && (0 <=? FinishedBatch.failed b)
  && (0 <=? FinishedBatch.unknown_cnt b).

(** [candidate] of the two statements on finished batches *)
Definition candidate (batch_id : Z) (s : db) : option (FinishedBatch.t * text * list Z) :=
  b ← batches s !! batch_id;
  if terminal (FinishedBatch.state b) then
    match apps s !! FinishedBatch.app_id b with
    | Some (App.mk true (Some url) (Some secret) _) => Some (b, url, secret)
    | _ => None
    end
  else None.

Definition recovery (s : db) (id : Z) : bool :=
  match snapshots s !! id with Some n => bool_decide (is_Some (Snapshot.recovered_from_task_id n)) | None => false end.

(** A first announcement of the batch, which no report caused. *)
Definition initial_task (batch_id : Z) (s : db) (p : Z * Task.t) : bool :=
  bool_decide (Task.event p.2 = CallbackEvent.batch_finished) && (Task.batch_id p.2 =? batch_id)
  && bool_decide (Task.source_report_event_key p.2 = None) && negb (recovery s p.1).
(** [uk_cb_batch_source_event] *)
Definition announced_for (batch_id : Z) (key : text) (p : Z * Task.t) : bool :=
  bool_decide (Task.event p.2 = CallbackEvent.batch_finished) && (Task.batch_id p.2 =? batch_id)
  && bool_decide (Task.source_report_event_key p.2 = Some key).

Definition already_announced (batch_id : Z) (source : option text) (s : db) : bool :=
  match source with
  | None => existsb (initial_task batch_id s) (map_to_list (tasks s))
  | Some key => existsb (announced_for batch_id key) (map_to_list (tasks s))
  end.

Definition insert_finished (now clk batch_id : Z) (source : option text) (from : option Z) (b : FinishedBatch.t) (url : text)
    (secret : list Z) : tx_ Z :=
  _ ← lift (require (payload_valid b) (violation "ck_cbe_payload"));
  id ← insert_task now (FinishedBatch.app_id b) url secret CallbackEvent.batch_finished batch_id source [];
  _ ← modify (set_snapshots (<[id := Snapshot.mk batch_id source from (Some b) clk]>));
  mret id.

(** [callback_batch_event.enqueue_batch_finished]; [clk] is the clock of the
    statement, [now] that of the transaction. *)
Definition enqueue_batch_finished (now clk correlation batch_id : Z) (source : option text) : tx_ unit :=
  s ← get;
  match candidate batch_id s with
  | None => mret tt
  | Some (b, url, secret) =>
      if already_announced batch_id source s then mret tt else
      id ← insert_finished now clk batch_id source None b url secret;
      announce now id correlation
  end.

(** ** Recovery of a finished batch without a summary *)

Definition Rejected (msg reason : string) : exc := Exc (tx "FinishedRecoveryRejected:" ++ tx reason) (utx msg).

Definition find_recovery (source_task : Z) (s : db) : option (Z * Task.t) :=
  List.find (fun p => match snapshots s !! p.1 with
                      | Some n => bool_decide (Snapshot.recovered_from_task_id n = Some source_task)
                      | None => false
                      end) (map_to_list (tasks s)).

Definition CONFIG_REVOKED : text := tx "CallbackConfigRevoked".

(** [_reject_unfinished] *)
Definition configured (a : App.t) : bool :=
  App.active a && bool_decide (is_Some (App.callback_url a)) && bool_decide (is_Some (App.callback_secret_enc a)).
Definition _reject_unfinished (batch_id : Z) (s : db) : exc :=
  let not_terminal := Rejected "批次尚未终态，不能补发汇总" "batch_not_terminal" in
  match batches s !! batch_id with
  | Some b =>
      match apps s !! FinishedBatch.app_id b with
      | Some a => if terminal (FinishedBatch.state b) && negb (configured a)
                  then Rejected "应用未启用或回调配置不完整，不能补发" "app_unavailable" else not_terminal
      | None => not_terminal
      end
  | None => not_terminal
  end.

(** [FinishedRecoveryService._recover]: the task of the new event and whether it
    was created by this call. *)
Definition _recover (now clk correlation task_id : Z) : tx_ (Z * bool) :=
  s ← get;
  match tasks s !! task_id with
  | None => throw (Rejected "回调任务不存在" "not_found")
  | Some t =>
      _ ← lift (refuse (negb (bool_decide (Task.event t = CallbackEvent.batch_finished)))
                  (Rejected "只有批次终态可以补发汇总" "not_legacy"));
      _ ← lift (require (bool_decide (is_Some (batches s !! Task.batch_id t)))
                  (Rejected "批次尚未终态，不能补发汇总" "batch_not_terminal"));
      _ ← lift (refuse (bool_decide (Task.last_error t = Some CONFIG_REVOKED))
                  (Rejected "旧回调已因配置变更永久撤销，不能由它补发新事件" "config_revoked"));
      _ ← lift (require (match snapshots s !! task_id with
                         | Some n => bool_decide (Snapshot.summary n = None)
                         | None => false
                         end) (Rejected "这条批次终态已有冻结汇总，不能另补一条" "not_legacy"));
      match find_recovery task_id s with
      | Some (id, _) =>
          _ ← modify (add_audit (callback_finished_recover id task_id false));
          mret (id, false)
      | None =>
          match candidate (Task.batch_id t) s with
          | None => throw (_reject_unfinished (Task.batch_id t) s)
          | Some (b, url, secret) =>
              id ← insert_finished now clk (Task.batch_id t) None (Some task_id) b url secret;
              _ ← announce now id correlation;
              _ ← modify (add_audit (callback_finished_recover id task_id true));
              mret (id, true)
          end
      end
  end.

(** ** Delivery *)

(** A method: its result and what was committed. *)
Definition method (A : Type) : Type := db -> result exc A * db.

Definition CallbackLeaseLost : exc := Exc (tx "CallbackLeaseLost") (tx "callback fencing token lost").
(** [_fencing_miss] *)
Definition _fencing_miss {A} (task_id lease_id : Z) : method A := fun s =>
  (Raise CallbackLeaseLost, add_lease_event (LeaseEvent task_id (tx "fencing_miss") (Some lease_id)) s).

(** The condition under which a task is due. *)
Definition due (now : Z) (t : Task.t) : bool :=
  bool_decide (Task.status t = TaskStatus.pending)
  || bool_decide (Task.status t = TaskStatus.retrying)
     && match Task.lease t with
        | None => match Task.next_retry_at t with Some n => n <=? now | None => false end
        | Some (_, expires) => expires <=? now
        end.

Record CallbackClaim := mkClaim { cl_task : Z; cl_app : Z; cl_retry_count : Z; cl_lease : Z; cl_expires : Z }.

Definition claim_task (now lease_id lease_seconds : Z) (t : Task.t) : Task.t :=
  Task.set_state TaskStatus.retrying (Task.retry_count t) None (Some (lease_id, now + secs lease_seconds))
    (Task.takeover_count t + if bool_decide (is_Some (Task.lease t)) then 1 else 0) (Task.last_http_code t)
    (Task.last_error t) (Task.finished_at t) t.

(** [claim] *)
Definition claim (now task_id lease_seconds : Z) : tx_ (option CallbackClaim) :=
  _ ← lift (refuse (lease_seconds <? 3) (ValueError "callback lease must be at least 3 seconds"));
  lease_id ← fresh_uuid;
  s ← get;
  match tasks s !! task_id with
  | Some t =>
      if due now t then
        _ ← modify (set_tasks (<[task_id := claim_task now lease_id lease_seconds t]>));
        _ ← modify (add_lease_event (LeaseEvent task_id (if bool_decide (is_Some (Task.lease t)) then tx "takeover" else tx "acquired")
                                       (Some lease_id)));
        mret (Some (mkClaim task_id (Task.app_id t) (Task.retry_count t) lease_id (now + secs lease_seconds)))
      else mret None
  | None => mret None
  end.

(** [status='retrying' AND lease_id=:lease_id AND lease_expires_at>now()] *)
Definition holds (now lease_id : Z) (t : Task.t) : bool :=
  bool_decide (Task.status t = TaskStatus.retrying)
  && match Task.lease t with Some (l, e) => (l =? lease_id) && (now <? e) | None => false end.

Definition held (now task_id lease_id : Z) (s : db) : option Task.t :=
  match tasks s !! task_id with Some t => if holds now lease_id t then Some t else None | None => None end.

(** [heartbeat] *)
Definition heartbeat (now task_id lease_id lease_seconds : Z) : method bool := fun s =>
  match held now task_id lease_id s with
  | Some t =>
      let e := now + secs lease_seconds in
      (Ok true,
       set_authorities (fmap (fun a => if (au_task a =? task_id) && (au_lease a =? lease_id) then mkAuthority task_id lease_id e else a))
         (set_tasks (<[task_id := Task.set_state (Task.status t) (Task.retry_count t) (Task.next_retry_at t) (Some (lease_id, e))
                        (Task.takeover_count t) (Task.last_http_code t) (Task.last_error t) (Task.finished_at t) t]>) s))
  | None => (Ok false, add_lease_event (LeaseEvent task_id (tx "heartbeat_lost") (Some lease_id)) s)
  end.

(** A write of the holder: the new row, and what else the transaction does. *)
Definition fenced (now task_id lease_id : Z) (guard : Task.t -> bool) (f : Task.t -> Task.t) (rest : tx_ unit) : method unit := fun s =>
  match held now task_id lease_id s with
  | Some t =>
      if guard t then
        match rest (set_tasks (<[task_id := f t]>) s) with
        | Ok (_, s') => (Ok tt, s')
        | Raise e => (Raise e, s)
        end
      else _fencing_miss task_id lease_id s
  | None => _fencing_miss task_id lease_id s
  end.

Definition mark_done (now task_id lease_id http_code : Z) : method unit :=
  fenced now task_id lease_id (fun _ => true)
    (fun t => Task.set_state TaskStatus.done (Task.retry_count t) None None (Task.takeover_count t) (Some http_code) None (Some now) t)
    (mret tt).

Definition mark_authority_busy (now ambient task_id lease_id retry_count delay_s : Z) : method unit :=
  fenced now task_id lease_id (fun t => Task.retry_count t =? retry_count)
    (fun t => Task.set_state TaskStatus.retrying (Task.retry_count t) (Some (now + secs delay_s)) None (Task.takeover_count t) None
                (Some (tx "CallbackAuthorityBusy")) (Task.finished_at t) t)
    (_ ← in_outbox (enqueue_outbox now (Some ambient)
                      (ready_spec task_id (tx "callback:" ++ str_int task_id ++ tx ":authority-busy:" ++ uuid_text lease_id) None)
                      delay_s false);
     mret tt).

(** [SAFE_ERROR] and [_safe_error] *)
Definition SAFE_ERROR : regex :=
  RCat (RClass (fun c => ascii_upper c || ascii_lower c))
    (rupto 63 (RClass (fun c => ascii_upper c || ascii_lower c || ascii_digit c || (c =? 95)))).
Definition _safe_error (error : option text) : option text :=
  (fun e => if fullmatch SAFE_ERROR e then e else tx "CallbackError") <$> error.

Definition mark_retry (now ambient task_id lease_id retry_count delay_s : Z) (http_code : option Z) (error : option text) : method unit :=
  fenced now task_id lease_id (fun t => Task.retry_count t =? retry_count)
    (fun t => Task.set_state TaskStatus.retrying (Task.retry_count t + 1) (Some (now + secs delay_s)) None (Task.takeover_count t)
                http_code (_safe_error error) (Task.finished_at t) t)
    (_ ← in_outbox (enqueue_outbox now (Some ambient) (ready_spec task_id (attempt_key task_id (retry_count + 1)) None) delay_s true);
     mret tt).

Definition mark_dead (now task_id lease_id retry_count : Z) (http_code : option Z) (error : option text) : method unit :=
  fenced now task_id lease_id (fun t => Task.retry_count t =? retry_count)
    (fun t => Task.set_state TaskStatus.dead (Task.retry_count t) None None (Task.takeover_count t) http_code (_safe_error error)
                (Some now) t)
    (modify (add_lease_event (LeaseEvent task_id (tx "dead") (Some lease_id)))).

(** ** Manual retries *)

Definition legacy (task_id : Z) (s : db) : bool :=
  match snapshots s !! task_id with Some n => bool_decide (Snapshot.summary n = None) | None => false end.

(** The condition of the update. *)
Definition retry_allowed (task_id : Z) (t : Task.t) (s : db) : bool :=
  bool_decide (Task.status t = TaskStatus.dead) && negb (bool_decide (Task.last_error t = Some CONFIG_REVOKED))
  && match apps s !! Task.app_id t with Some a => matches a t | None => false end
  && negb (legacy task_id s).

(** [RETRY_BLOCK_REASON_SQL] *)
Definition retry_block_reason (task_id : Z) (t : Task.t) (a : App.t) (s : db) : option text :=
  if bool_decide (Task.last_error t = Some CONFIG_REVOKED) then Some (tx "config_revoked")
  else if legacy task_id s then Some (tx "legacy_snapshot_unavailable")
  else if negb (bool_decide (Task.status t = TaskStatus.dead)) then Some (tx "not_dead")
  else if negb (App.active a) then Some (tx "app_disabled")
  else if negb (bool_decide (App.callback_url a = Some (Task.url t)))
          || negb (bool_decide (App.callback_secret_enc a = Some (Task.secret t))) then Some (tx "config_changed")
  else if bool_decide (Task.event t = CallbackEvent.message_report) && negb (App.callback_report_enabled a)
       then Some (tx "detail_disabled")
  else None.

Definition CallbackRetryConflict (reason : text) : exc := Exc (tx "CallbackRetryConflict") reason.

Definition manual_retry (task_id : Z) : tx_ unit :=
  s ← get;
  match tasks s !! task_id with
  | None => throw (Exc (tx "CallbackTaskNotFound") (utx "回调任务不存在"))
  | Some t =>
      if retry_allowed task_id t s then
        _ ← modify (set_tasks (<[task_id := Task.set_state TaskStatus.pending 0 None None (Task.takeover_count t) None None None t]>));
        _ ← modify (add_audit (callback_retry task_id));
        modify (add_lease_event (LeaseEvent task_id (tx "manual_retry") None))
      else
        match apps s !! Task.app_id t with
        | None => throw (Exc (tx "CallbackTaskNotFound") (utx "回调任务不存在"))
        | Some a => throw (CallbackRetryConflict (default (tx "not_dead") (retry_block_reason task_id t a s)))
        end
  end.

(** ** The authority of a delivery *)

Definition AUTHORITY_US : Z := 30 * 1000000.
Definition drop_expired (now app_id : Z) (m : gmap Z authority) : gmap Z authority :=
  match m !! app_id with
  | Some a => if au_expires a <=? now then delete app_id m else m
  | None => m
  end.
Definition CallbackAuthorityBusy (msg : string) : exc := Exc (tx "CallbackAuthorityBusy") (utx msg).

(** [acquire_authority] *)
Definition acquire_authority (now task_id lease_id : Z) : tx_ bool :=
  s ← get;
  match tasks s !! task_id with
  | None => mret false
  | Some t =>
      let app_id := Task.app_id t in
      let left := drop_expired now app_id (authorities s) in
      let free := bool_decide (left !! app_id = None) && negb (existsb (fun p => au_task p.2 =? task_id) (map_to_list left)) in
      if holds now lease_id t && match apps s !! app_id with Some a => matches a t | None => false end && free then
        _ ← modify (set_authorities (fun _ => <[app_id := mkAuthority task_id lease_id (now + AUTHORITY_US)]> left));
        mret true
      else
        _ ← modify (set_authorities (fun _ => left));
        match left !! app_id with
        | Some _ => throw (CallbackAuthorityBusy "callback authority lease is busy")
        | None => mret false
        end
  end.

(** [confirm_authority] *)
Definition confirm_authority (now task_id lease_id : Z) : tx_ bool :=
  s ← get;
  match tasks s !! task_id with
  | None => mret false
  | Some t =>
      if holds now lease_id t && match apps s !! Task.app_id t with Some a => matches a t | None => false end then
        match authorities s !! Task.app_id t with
        | Some a =>
            if (au_task a =? task_id) && (au_lease a =? lease_id) && (now <? au_expires a) then
              _ ← modify (set_authorities (<[Task.app_id t := mkAuthority task_id lease_id (now + AUTHORITY_US)]>));
              mret true
            else mret false
        | None => mret false
        end
      else mret false
  end.

(** [release_authority] *)
Definition release_authority (task_id lease_id : Z) : tx_ unit :=
  modify (set_authorities (filter (fun p => negb ((au_task p.2 =? task_id) && (au_lease p.2 =? lease_id)) = true))).

(** ** Changes of the configuration *)

(** [revoke_callback_tasks_on_app_change] *)
Definition revoked (app_id : Z) (old new : App.t) (t : Task.t) : bool :=
  (Task.app_id t =? app_id) && bool_decide (Task.status t ∈ [TaskStatus.pending; TaskStatus.retrying])
  && (negb (bool_decide (App.callback_url old = App.callback_url new))
      || negb (bool_decide (App.callback_secret_enc old = App.callback_secret_enc new))
      || (App.active old && negb (App.active new))
      || (App.callback_report_enabled old && negb (App.callback_report_enabled new)
          && bool_decide (Task.event t = CallbackEvent.message_report))).
Definition revoke_task (now : Z) (t : Task.t) : Task.t :=
  Task.set_state TaskStatus.dead 0 None None (Task.takeover_count t) None (Some CONFIG_REVOKED) (Some now) t.

(** An authorized write of the columns: [ensure_callback_authority_idle], the
    update and its trigger. *)
Definition write_app (now app_id : Z) (guard : App.t -> bool) (f : App.t -> App.t) : tx_ unit :=
  s ← get;
  let left := drop_expired now app_id (authorities s) in
  _ ← lift (refuse (bool_decide (is_Some (left !! app_id))) (CallbackAuthorityBusy "回调正在投递，请稍后重试配置变更"));
  match apps s !! app_id with
  | None => throw (Exc (tx "AppNotFound") (utx "应用不存在"))
  | Some a =>
      _ ← lift (require (guard a) (Exc (tx "AppNotFound") (utx "应用不存在或已停用")));
      _ ← modify (set_authorities (fun _ => left));
      _ ← modify (set_apps (<[app_id := f a]>));
      modify (set_tasks (fmap (fun t => if revoked app_id a (f a) t then revoke_task now t else t)))
  end.
Definition app_update (now app_id : Z) (url : option text) (report_enabled active : bool) : tx_ unit :=
  write_app now app_id (fun _ => true) (fun a => App.mk active url (App.callback_secret_enc a) report_enabled).
Definition app_disable (now app_id : Z) : tx_ unit :=
  write_app now app_id (fun _ => true) (fun a => App.mk false (App.callback_url a) (App.callback_secret_enc a) (App.callback_report_enabled a)).
Definition rotate_callback_secret (now app_id : Z) (secret : list Z) : tx_ unit :=
  write_app now app_id App.active (fun a => App.mk (App.active a) (App.callback_url a) (Some secret) (App.callback_report_enabled a)).

(** ** Retention ([PLANS["callbacks"]] of the housekeeping); [old] says that its
    age allows it. *)
Definition cleanup_task (task_id : Z) (old : bool) : tx_ unit :=
  s ← get;
  match tasks s !! task_id with
  | Some t =>
      if old && bool_decide (Task.status t ∈ [TaskStatus.done; TaskStatus.dead])
         && negb (existsb (fun p => bool_decide (Snapshot.recovered_from_task_id p.2 = Some task_id)) (map_to_list (snapshots s)))
      then
        _ ← modify (set_tasks (delete task_id));
        _ ← modify (set_snapshots (delete task_id));
        modify (set_authorities (filter (fun p => negb (au_task p.2 =? task_id) = true)))
      else mret tt
  | None => mret tt
  end.

(** [PLANS["callback_events"]]: a report no task refers to. *)
Definition referred (s : db) (event_key : text) : bool :=
  existsb (fun p => existsb (fun r => bool_decide (r.2 = event_key)) (Task.refs p.2)) (map_to_list (tasks s)).
Definition cleanup_fact (event_key : text) (old : bool) : tx_ unit :=
  s ← get;
  if old && negb (referred s event_key) then modify (set_facts (delete event_key)) else mret tt.
End tasks.
End Callbacks.
