(* ===== verification/CallbackSafety.v ===== *)
(** * Safety of the result callbacks

    The transactions of [Callbacks] as the steps of a machine, in any order, at
    any instants and with any arguments.  A step is described by [stepped]: what
    it can do to a task, to the lease on it, to the configuration of an
    application and to the authorities.  A worker whose lease ended cannot write,
    a delivery in flight has the configuration it was made for, every report is in
    one task, and the summary of a finished batch is frozen. *)

From S2P Require Import Prelude PyText OutboxContract Outbox Callbacks.

Module CallbackSafety.
Import Callbacks.

Section machine.
Context (uuid_text : Z -> text).

Inductive op :=
| OApp (id : Z) (a : App.t)
| OBatch (id : Z) (b : FinishedBatch.t)
| OLegacy (t : Task.t) (finished_at : Z)
| OReport (now correlation batch_id message_id created_at : Z) (event_key message_status report_desc : text) (report_time : Z)
| OFinished (now clk correlation batch_id : Z) (source : option text)
| ORecover (now clk correlation task_id : Z)
| OClaim (now task_id lease_seconds : Z)
| OHeartbeat (now task_id lease_id lease_seconds : Z)
| ODone (now task_id lease_id http_code : Z)
| OBusy (now ambient task_id lease_id retry_count delay_s : Z)
| ORetry (now ambient task_id lease_id retry_count delay_s : Z) (http_code : option Z) (error : option text)
| ODead (now task_id lease_id retry_count : Z) (http_code : option Z) (error : option text)
| OManual (task_id : Z)
| OAcquire (now task_id lease_id : Z)
| OConfirm (now task_id lease_id : Z)
| ORelease (task_id lease_id : Z)
| OUpdate (now app_id : Z) (url : option text) (report_enabled active : bool)
| ODisable (now app_id : Z)
| ORotate (now app_id : Z) (secret : list Z)
| OCleanup (task_id : Z) (old : bool)
| OCleanupFact (event_key : text) (old : bool).

Definition forget {A} (x : result exc A * db) : result exc unit * db :=
  (match x.1 with Ok _ => Ok tt | Raise e => Raise e end, x.2).

(** A task from before the summaries, as the migration left it. *)
Definition legacy_task (t : Task.t) (finished_at : Z) (s : db) : db :=
  if bool_decide (Task.event t = CallbackEvent.batch_finished) && bool_decide (Task.lease t = None)
     && bool_decide (Task.refs t = [])
  then match transaction fresh_task s with
       | (Ok id, s1) => set_snapshots (<[id := Snapshot.mk (Task.batch_id t) (Task.source_report_event_key t) None None finished_at]>)
                          (set_tasks (<[id := t]>) s1)
       | (Raise _, s1) => s1
       end
  else s.

Definition call (o : op) (s : db) : result exc unit * db :=
  match o with
  | OApp id a => (Ok tt, if bool_decide (apps s !! id = None) then set_apps (<[id := a]>) s else s)
  | OBatch id b => (Ok tt, set_batches (<[id := b]>) s)
  | OLegacy t at_ => (Ok tt, legacy_task t at_ s)
  | OReport now c b m at_ k st d t => transaction (enqueue_message_report now c b m at_ k st d t) s
  | OFinished now clk c b source => transaction (enqueue_batch_finished now clk c b source) s
  | ORecover now clk c id => forget (transaction (_recover now clk c id) s)
  | OClaim now id n => forget (transaction (claim now id n) s)
  | OHeartbeat now id l n => forget (heartbeat now id l n s)
  | ODone now id l code => mark_done now id l code s
  | OBusy now ambient id l n d => mark_authority_busy uuid_text now ambient id l n d s
  | ORetry now ambient id l n d code e => mark_retry now ambient id l n d code e s
  | ODead now id l n code e => mark_dead now id l n code e s
  | OManual id => transaction (manual_retry id) s
  | OAcquire now id l => forget (transaction (acquire_authority now id l) s)
  | OConfirm now id l => forget (transaction (confirm_authority now id l) s)
  | ORelease id l => transaction (release_authority id l) s
  | OUpdate now id url r a => transaction (app_update now id url r a) s
  | ODisable now id => transaction (app_disable now id) s
  | ORotate now id secret => transaction (rotate_callback_secret now id secret) s
  | OCleanup id old => transaction (cleanup_task id old) s
  | OCleanupFact k old => transaction (cleanup_fact k old) s
  end.
Definition run (o : op) (s : db) : db := (call o s).2.
Definition runs (l : list op) (s : db) : db := foldl (fun s o => run o s) s l.
Definition start (o : Outbox.db) : db := mkDb ∅ ∅ ∅ ∅ ∅ ∅ 1 0 [] [] o.

(** ** What a step can do *)

(** The columns no statement changes. *)
Definition fixed (t t' : Task.t) : Prop :=
  Task.app_id t' = Task.app_id t /\ Task.event t' = Task.event t /\ Task.batch_id t' = Task.batch_id t
  /\ Task.source_report_event_key t' = Task.source_report_event_key t
  /\ Task.url t' = Task.url t /\ Task.secret t' = Task.secret t.
(** ... and the references, which only a report adds to. *)
Definition same_refs (t t' : Task.t) : Prop := Task.refs t' = Task.refs t.

Definition lease_of (t : Task.t) : option Z := fst <$> Task.lease t.

(** What happens to the lease of a task: it is kept, ended, or replaced by a
    new one. *)
Definition lease_step (drawn drawn' : Z) (t t' : Task.t) : Prop :=
  (lease_of t' = lease_of t /\ (lease_of t <> None -> Task.status t' = Task.status t))
  \/ lease_of t' = None
  \/ (lease_of t' = Some drawn /\ drawn < drawn' /\ Task.status t' = TaskStatus.retrying).

(** A reference that is added by a report not received before. *)
Definition reference : Type := Z * Z * text.
Definition added_key (s s' : db) (r : reference) : Prop := facts s !! r.2 = None /\ is_Some (facts s' !! r.2).

(** What holds of an inserted task of a finished batch: a summary that is the first
    of its kind, or no summary. *)
Definition first_of_kind (s : db) (t : Task.t) (n : Snapshot.t) : Prop :=
  Snapshot.batch_id n = Task.batch_id t /\ Snapshot.source_report_event_key n = Task.source_report_event_key t
  /\ (Snapshot.summary n = None
      \/ (Snapshot.recovered_from_task_id n = None /\ already_announced (Task.batch_id t) (Task.source_report_event_key t) s = false)
      \/ (exists from, Snapshot.recovered_from_task_id n = Some from /\ Task.source_report_event_key t = None
                        /\ find_recovery from s = None)).

Inductive task_step (added : option (Z * reference)) (s s' : db) (id : Z) : option Task.t -> option Task.t -> Prop :=
| task_kept t t' : fixed t t' -> same_refs t t' -> lease_step (next_uuid s) (next_uuid s') t t' ->
    task_step added s s' id (Some t) (Some t')
| task_absent : task_step added s s' id None None
| task_reference t r : added = Some (id, r) -> added_key s s' r -> (length (Task.refs t) < 500)%nat ->
    task_step added s s' id (Some t) (Some (Task.set_refs (Task.refs t ++ [r]) t))
| task_report t r : added = Some (id, r) -> added_key s s' r -> id = next_task s -> id < next_task s' -> Task.lease t = None ->
    Task.refs t = [r] -> Task.event t = CallbackEvent.message_report -> snapshots s' !! id = snapshots s !! id ->
    task_step added s s' id None (Some t)
| task_finished t n : id = next_task s -> id < next_task s' -> Task.lease t = None -> Task.refs t = [] ->
    Task.event t = CallbackEvent.batch_finished -> snapshots s' !! id = Some n -> first_of_kind s t n ->
    task_step added s s' id None (Some t)
| task_deleted t : (forall a au, authorities s' !! a = Some au -> au_task au <> id) -> snapshots s' !! id = None ->
    task_step added s s' id (Some t) None.
#[local] Hint Constructors task_step : core.

(** The place of a reference. *)
Definition at_place (s : db) (id : Z) (i : nat) (r : reference) : Prop := exists t, tasks s !! id = Some t /\ Task.refs t !! i = Some r.

(** An authority row of the new state. *)
Definition authority_step (s : db) (a : Z) (au : authority) : Prop :=
  (exists old, authorities s !! a = Some old /\ au_task old = au_task au /\ au_lease old = au_lease au)
  \/ (exists t x, tasks s !! au_task au = Some t /\ Task.app_id t = a /\ apps s !! a = Some x /\ matches x t = true).

Record stepped_by (added : option (Z * reference)) (s s' : db) : Prop := {
  st_uuid : next_uuid s <= next_uuid s';
  st_next : next_task s <= next_task s';
  st_tasks : forall id, task_step added s s' id (tasks s !! id) (tasks s' !! id);
  st_facts : forall k f, facts s !! k = Some f -> facts s' !! k = Some f \/ (forall id i r, at_place s id i r -> r.2 <> k);
  st_snapshots : forall id, id <> next_task s -> is_Some (tasks s' !! id) -> snapshots s' !! id = snapshots s !! id;
  st_apps : forall a x, apps s !! a = Some x -> apps s' !! a = Some x \/ authorities s' !! a = None;
  st_auth : forall a au, authorities s' !! a = Some au -> authority_step s a au
}.
Definition stepped (s s' : db) : Prop := exists added, stepped_by added s s'.

Lemma fixed_refl t : fixed t t.
Proof. unfold fixed. tauto. Qed.
Lemma lease_step_refl d d' t : lease_step d d' t t.
Proof. left. auto. Qed.
#[local] Hint Resolve fixed_refl lease_step_refl : core.

Lemma task_still added s s' id : task_step added s s' id (tasks s !! id) (tasks s !! id).
Proof. destruct (tasks s !! id); [apply task_kept|]; done || auto. Qed.
#[local] Hint Resolve task_still : core.

Lemma auth_still s a au : authorities s !! a = Some au -> authority_step s a au.
Proof. intros E. left. eauto. Qed.

(** A step that changes neither tasks nor configurations, and at most removes
    authorities. *)
Lemma stepped_aside s s' :
  tasks s' = tasks s -> apps s' = apps s -> next_task s <= next_task s' -> next_uuid s <= next_uuid s' ->
  facts s' = facts s -> snapshots s' = snapshots s ->
  (forall a au, authorities s' !! a = Some au -> authority_step s a au) -> stepped s s'.
Proof.
  intros T A N U F S H. exists None. split; [done|done| | | | |done].
  - intros id. rewrite T. auto.
  - intros k f. left. by rewrite F.
  - intros id _ _. by rewrite S.
  - intros a x E. left. by rewrite A.
Qed.

(** A step that writes one task. *)
Lemma stepped_write s s' i t t' :
  tasks s !! i = Some t -> tasks s' = <[i := t']> (tasks s) -> apps s' = apps s -> next_task s <= next_task s' ->
  next_uuid s <= next_uuid s' -> facts s' = facts s -> snapshots s' = snapshots s ->
  fixed t t' -> same_refs t t' -> lease_step (next_uuid s) (next_uuid s') t t' ->
  (forall a au, authorities s' !! a = Some au -> authority_step s a au) -> stepped s s'.
Proof.
  intros E T A N U F S X Q L H. exists None. split; [done|done| | | | |done].
  - intros id. rewrite T. destruct (decide (i = id)) as [<-|D].
    + rewrite lookup_insert_eq, E. by apply task_kept.
    + rewrite lookup_insert_ne by done. auto.
  - intros k f. left. by rewrite F.
  - intros id _ _. by rewrite S.
  - intros a x Ha. left. by rewrite A.
Qed.

Lemma stepped_refl s : stepped s s.
Proof. apply stepped_aside; try done. intros a au E. by apply auth_still. Qed.

Lemma stepped_transaction {A} (m : tx_ A) s :
  (forall a s', m s = Ok (a, s') -> stepped s s') -> stepped s (transaction m s).2.
Proof.
  intros H. unfold transaction. destruct (m s) as [[a s']|e] eqn:E; cbn; [by eapply H|apply stepped_refl].
Qed.
Lemma stepped_forget {A} (x : result exc A * db) s : stepped s x.2 -> stepped s (forget x).2.
Proof. done. Qed.

Definition ids_ok (s : db) : Prop := forall id t, tasks s !! id = Some t -> id < next_task s.
Lemma next_free s : ids_ok s -> tasks s !! next_task s = None.
Proof. intros I. destruct (tasks s !! next_task s) eqn:E; [|done]. apply I in E. lia. Qed.

(** What an insertion leaves. *)
Definition inserted (s s' : db) (t : Task.t) : Prop :=
  tasks s' = <[next_task s := t]> (tasks s) /\ Task.lease t = None /\ apps s' = apps s /\ authorities s' = authorities s
  /\ next_task s' = next_task s + 1 /\ next_uuid s <= next_uuid s'.

(** A step that inserts one task of a finished batch. *)
Lemma stepped_finished s s' t n :
  ids_ok s -> inserted s s' t -> facts s' = facts s -> snapshots s' = <[next_task s := n]> (snapshots s) ->
  Task.refs t = [] -> Task.event t = CallbackEvent.batch_finished -> first_of_kind s t n -> stepped s s'.
Proof.
  intros I (T & L & A & H & N & U) F S R E K. exists None. split; [done|lia| | | | |].
  - intros id. rewrite T. destruct (decide (next_task s = id)) as [<-|D].
    + rewrite lookup_insert_eq, next_free by done. apply (task_finished _ _ _ _ _ n); try (done || lia). by rewrite S, lookup_insert_eq.
    + rewrite lookup_insert_ne by done. auto.
  - intros k f. left. by rewrite F.
  - intros id D _. by rewrite S, lookup_insert_ne.
  - intros a x Ha. left. by rewrite A.
  - intros a au. rewrite H. apply auth_still.
Qed.

(** A step that inserts one task of a report. *)
Lemma stepped_report s s' t r f :
  ids_ok s -> inserted s s' t -> facts s !! r.2 = None -> facts s' = <[r.2 := f]> (facts s) -> snapshots s' = snapshots s ->
  Task.refs t = [r] -> Task.event t = CallbackEvent.message_report -> stepped s s'.
Proof.
  intros I (T & L & A & H & N & U) K F S R E. exists (Some (next_task s, r)). split; [done|lia| | | | |].
  - intros id. rewrite T. destruct (decide (next_task s = id)) as [<-|D].
    + rewrite lookup_insert_eq, next_free by done. apply (task_report _ _ _ _ _ r); try (done || lia); [|by rewrite S].
      split; [done|]. rewrite F, lookup_insert_eq. eauto.
    + rewrite lookup_insert_ne by done. auto.
  - intros k g Hg. left. rewrite F, lookup_insert_ne; [done|]. intros <-. congruence.
  - intros id _ _. by rewrite S.
  - intros a x Ha. left. by rewrite A.
  - intros a au. rewrite H. apply auth_still.
Qed.

(** A report that is added to a task. *)
Lemma stepped_reference s r f i t :
  facts s !! r.2 = None -> tasks s !! i = Some t -> (length (Task.refs t) < 500)%nat ->
  stepped s (set_tasks (<[i := Task.set_refs (Task.refs t ++ [r]) t]>) (set_facts (<[r.2 := f]>) s)).
Proof.
  intros K E L. exists (Some (i, r)). split; cbn; [lia|lia| | |done|by left|].
  - intros id. destruct (decide (i = id)) as [<-|D].
    + rewrite lookup_insert_eq, E. constructor; [done| |done]. split; [done|]. cbn. rewrite lookup_insert_eq. eauto.
    + rewrite lookup_insert_ne by done. auto.
  - intros k g Hg. left. rewrite lookup_insert_ne; [done|]. intros <-. congruence.
  - intros a au Ha. by apply auth_still.
Qed.

(** A report no task is made for. *)
Lemma stepped_fact s k f : facts s !! k = None -> stepped s (set_facts (<[k := f]>) s).
Proof.
  intros K. exists None. split; cbn; [lia|lia|auto| |done|by left|].
  - intros k' g Hg. left. rewrite lookup_insert_ne; [done|]. intros <-. congruence.
  - intros a au Ha. by apply auth_still.
Qed.

Lemma insert_task_ok now app url secret ev b source refs s id s' :
  insert_task now app url secret ev b source refs s = Ok (id, s') ->
  id = next_task s /\ facts s' = facts s /\ snapshots s' = snapshots s /\
  exists v e, inserted s s' (new_task e app ev b source refs url secret v now).
Proof.
  intros (v & s1 & E & X)%stex_bind_ok. apply stex_lift_ok in E as [_ ->].
  apply stex_bind_ok in X as (e & s2 & [= <- <-] & X). apply stex_bind_ok in X as (i & s3 & [= <- <-] & X).
  apply stex_bind_ok in X as (u & s4 & [= <- <-] & [= <- <-]).
  split; [done|]. split; [done|]. split; [done|]. exists v, (next_uuid s). unfold inserted. cbn. split_and!; (done || lia).
Qed.

Lemma in_outbox_ok {A} (m : stex Outbox.db exc A) s a s' : in_outbox m s = Ok (a, s') -> exists o, s' = set_outbox o s.
Proof. unfold in_outbox. destruct (m (outbox s)) as [[x o]|]; [|done]. intros [= <- <-]. eauto. Qed.

Lemma announce_ok now id c s u s' : announce now id c s = Ok (u, s') -> exists o, s' = set_outbox o s.
Proof. intros (x & s1 & E & [= _ <-])%stex_bind_ok. by apply in_outbox_ok in E. Qed.

Lemma insert_finished_ok now clk b source from batch url secret s id s' :
  insert_finished now clk b source from batch url secret s = Ok (id, s') ->
  id = next_task s /\ facts s' = facts s /\ snapshots s' = <[next_task s := Snapshot.mk b source from (Some batch) clk]> (snapshots s) /\
  payload_valid batch = true /\
  exists v e, inserted s s' (new_task e (FinishedBatch.app_id batch) CallbackEvent.batch_finished b source [] url secret v now).
Proof.
  intros (u & s1 & E & X)%stex_bind_ok. apply stex_lift_ok in E as [E ->]. apply require_ok in E.
  apply stex_bind_ok in X as (i & s2 & X & Y). apply insert_task_ok in X as (-> & F & N & v & e & T & L & A & H & K & U).
  apply stex_bind_ok in Y as (w & s3 & [= <- <-] & [= <- <-]). cbn. rewrite N, F.
  split_and!; try done. exists v, e. unfold inserted. cbn. split_and!; done.
Qed.

Lemma alter_as_insert (f : Task.t -> Task.t) (m : gmap Z Task.t) i t : m !! i = Some t -> alter f i m = <[i := f t]> m.
Proof.
  intros E. apply map_eq. intros j. destruct (decide (i = j)) as [<-|D].
  - by rewrite lookup_alter_eq, lookup_insert_eq, E.
  - by rewrite lookup_alter_ne, lookup_insert_ne.
Qed.
Lemma alter_absent (f : Task.t -> Task.t) (m : gmap Z Task.t) i : m !! i = None -> alter f i m = m.
Proof.
  intros E. apply map_eq. intros j. destruct (decide (i = j)) as [<-|D].
  - by rewrite lookup_alter_eq, E.
  - by rewrite lookup_alter_ne.
Qed.

Lemma max_opt_in l id : max_opt l = Some id -> id ∈ l.
Proof.
  revert id. induction l as [|x l IH]; [done|]. intros id. cbn. change (foldr _ None l) with (max_opt l).
  destruct (max_opt l) as [y|].
  - intros [= <-]. destruct (Z.max_spec x y) as [[_ ->]|[_ ->]]; [right; by apply IH|left].
  - intros [= <-]. left.
Qed.
Lemma newest_some P m id : newest P m = Some id -> exists t, m !! id = Some t /\ P t = true.
Proof.
  intros Hin%max_opt_in. apply list_elem_of_fmap in Hin as ([i t] & -> & Hin). apply list_elem_of_filter in Hin as [HP Hin].
  exists t. split; [by apply elem_of_map_to_list|done].
Qed.

Lemma open_room now b s t : open_task now b s t = true -> (length (Task.refs t) < 500)%nat.
Proof.
  unfold open_task. intros [H _]%andb_prop. apply andb_prop in H as [_ H]. apply Z.ltb_lt in H. lia.
Qed.

(** What the other tables hold does not matter. *)
Lemma stepped_ext s s' s'' :
  tasks s'' = tasks s' -> apps s'' = apps s' -> authorities s'' = authorities s' -> next_task s'' = next_task s' ->
  next_uuid s'' = next_uuid s' -> facts s'' = facts s' -> snapshots s'' = snapshots s' -> stepped s s' -> stepped s s''.
Proof.
  intros ET EA EH EN EU EF ES [added [U N T F S A H]]. exists added. split; rewrite ?EN, ?EU, ?ET, ?EA, ?EH, ?EF, ?ES; try done.
  - intros id. specialize (T id). destruct T; econstructor; unfold added_key in *; rewrite ?EU, ?EN, ?EH, ?EF, ?ES; done.
Qed.
Lemma stepped_audit s s' a : stepped s s' -> stepped s (add_audit a s').
Proof. by apply stepped_ext. Qed.
Lemma stepped_outbox s s' o : stepped s s' -> stepped s (set_outbox o s').
Proof. by apply stepped_ext. Qed.

Lemma report_stepped now c b m at_ k st d t s : ids_ok s -> stepped s (transaction (enqueue_message_report now c b m at_ k st d t) s).2.
Proof.
  intros I. apply stepped_transaction. intros [] s'. unfold enqueue_message_report.
  intros (s0 & s1 & [= <- <-] & X)%stex_bind_ok. case_bool_decide as K; [injection X as <-; apply stepped_refl|].
  assert (N : facts s !! k = None) by (destruct (facts s !! k); [exfalso; eauto|done]).
  apply stex_bind_ok in X as (u & s2 & [= _ <-] & X).
  destruct (newest _ _) as [id|] eqn:E.
  - apply newest_some in E as (x & E & P). injection X as <-.
    replace (set_tasks _ _) with (set_tasks (<[id := Task.set_refs (Task.refs x ++ [(m, at_, k)]) x]>)
      (set_facts (<[k := ReportFact.mk b m at_ st d t]>) s)).
    + apply (stepped_reference s (m, at_, k)); [done|done|by eapply open_room].
    + unfold set_tasks. cbn. by erewrite alter_as_insert.
  - destruct (batches s !! b) as [x|]; [|injection X as <-; by apply stepped_fact].
    destruct (apps s !! FinishedBatch.app_id x) as [[[] [url|] [secret|] []]|]; try (injection X as <-; by apply stepped_fact).
    apply stex_bind_ok in X as (id & s3 & X & Y). apply insert_task_ok in X as (_ & F & S & v & e & Ins).
    apply announce_ok in Y as [o ->]. apply stepped_outbox. eapply (stepped_report s s3 _ (m, at_, k)); [done|exact Ins|done|exact F|exact S|done|done].
Qed.

Lemma finished_stepped now clk c b source s : ids_ok s -> stepped s (transaction (enqueue_batch_finished now clk c b source) s).2.
Proof.
  intros I. apply stepped_transaction. intros [] s'. unfold enqueue_batch_finished.
  intros (s0 & s1 & [= <- <-] & X)%stex_bind_ok.
  destruct (candidate b s) as [[[x url] secret]|]; [|injection X as <-; apply stepped_refl].
  destruct (already_announced b source s) eqn:Ann; [injection X as <-; apply stepped_refl|].
  apply stex_bind_ok in X as (id & s2 & X & Y). apply insert_finished_ok in X as (_ & F & S & _ & v & e & Ins).
  apply announce_ok in Y as [o ->]. apply stepped_outbox.
  eapply stepped_finished; [done|exact Ins|done|exact S|done|done|]. split; [done|]. split; [done|]. right. by left.
Qed.

Lemma recover_stepped now clk c id s : ids_ok s -> stepped s (transaction (_recover now clk c id) s).2.
Proof.
  intros I. apply stepped_transaction. intros r s'. unfold _recover.
  intros (s0 & s1 & [= <- <-] & X)%stex_bind_ok. destruct (tasks s !! id) as [t|]; [|done].
  do 4 (apply stex_bind_ok in X as (? & ? & E & X); apply stex_lift_ok in E as [_ ->]).
  destruct (find_recovery id s) as [[i ?]|] eqn:Rec.
  - apply stex_bind_ok in X as (? & ? & [= _ <-] & [= _ <-]). apply stepped_audit, stepped_refl.
  - destruct (candidate _ s) as [[[fb url] secret]|]; [|done].
    apply stex_bind_ok in X as (i & s2 & X & Y). apply insert_finished_ok in X as (_ & F & S & _ & v & e & Ins).
    apply stex_bind_ok in Y as (u & s3 & Y & Z). apply announce_ok in Y as [o ->].
    apply stex_bind_ok in Z as (w & s4 & [= _ <-] & [= _ <-]). apply stepped_audit, stepped_outbox.
    eapply stepped_finished; [done|exact Ins|done|exact S|done|done|]. split; [done|]. split; [done|]. right. right. by exists id.
Qed.

Lemma claim_stepped now id n s : stepped s (transaction (claim now id n) s).2.
Proof.
  apply stepped_transaction. intros r s'. unfold claim. intros (u & s0 & E & X)%stex_bind_ok. apply stex_lift_ok in E as [_ ->].
  apply stex_bind_ok in X as (l & s1 & [= <- <-] & X). apply stex_bind_ok in X as (s2 & s3 & [= <- <-] & X). cbn in X.
  destruct (tasks s !! id) as [t|] eqn:E.
  - destruct (due now t).
    + apply stex_bind_ok in X as (? & ? & [= _ <-] & X). apply stex_bind_ok in X as (? & ? & [= _ <-] & [= _ <-]).
      eapply (stepped_write s _ id t); cbn; [done|done|done|lia|lia|done|done|repeat split|done| |].
      * right. right. cbn. split_and!; (done || lia).
      * intros a au Ha. by apply auth_still.
    + injection X as _ <-. apply stepped_aside; cbn; try (done || lia). intros a au Ha. by apply auth_still.
  - injection X as _ <-. apply stepped_aside; cbn; try (done || lia). intros a au Ha. by apply auth_still.
Qed.

Lemma held_some now id l s t : held now id l s = Some t -> tasks s !! id = Some t /\ holds now l t = true.
Proof. unfold held. destruct (tasks s !! id) as [x|]; [|done]. destruct (holds now l x) eqn:E; [|done]. by intros [= <-]. Qed.

Lemma holds_lease now l t : holds now l t = true -> lease_of t = Some l /\ Task.status t = TaskStatus.retrying.
Proof.
  unfold holds, lease_of. intros [A B]%andb_prop. apply bool_decide_eq_true in A. destruct (Task.lease t) as [[x e]|]; [|done].
  apply andb_prop in B as [->%Z.eqb_eq _]. done.
Qed.

Lemma stepped_event s s' e : stepped s s' -> stepped s (add_lease_event e s').
Proof. by apply stepped_ext. Qed.

Lemma heartbeat_stepped now id l n s : stepped s (heartbeat now id l n s).2.
Proof.
  unfold heartbeat. destruct (held now id l s) as [t|] eqn:E; [|cbn; apply stepped_event, stepped_refl].
  apply held_some in E as [E H]. apply holds_lease in H as [L St]. cbn.
  eapply (stepped_write s _ id t); cbn; [done|done|done|lia|lia|done|done|repeat split|done| |].
  - left. cbn. by rewrite L.
  - intros a au. rewrite lookup_fmap. destruct (authorities s !! a) as [old|] eqn:Ha; [|done]. intros [= <-].
    left. exists old. split; [done|]. destruct (_ && _) eqn:C; [|done]. by apply andb_prop in C as [->%Z.eqb_eq ->%Z.eqb_eq].
Qed.

(** The writes of a holder end its lease. *)
Lemma callback_fenced_stepped now id l guard f rest s :
  (forall t, fixed t (f t) /\ same_refs t (f t) /\ Task.lease (f t) = None) ->
  (forall s0 u s', rest s0 = Ok (u, s') -> exists o e, s' = set_outbox o s0 \/ s' = add_lease_event e s0 \/ s' = s0) ->
  stepped s (fenced now id l guard f rest s).2.
Proof.
  intros Hf Hr. unfold fenced. destruct (held now id l s) as [t|] eqn:E; [|cbn; apply stepped_event, stepped_refl].
  apply held_some in E as [E _]. destruct (guard t); [|cbn; apply stepped_event, stepped_refl].
  destruct (rest _) as [[u s']|] eqn:R; [|apply stepped_refl]. apply Hr in R as (o & e & R).
  assert (W : stepped s (set_tasks <[id:=f t]> s)).
  { eapply (stepped_write s _ id t); cbn; [done|done|done|lia|lia|done|done|apply Hf|apply Hf| |].
    - right. left. unfold lease_of. by rewrite (proj2 (proj2 (Hf t))).
    - intros a au Ha. by apply auth_still. }
  destruct R as [->|[->| ->]]; cbn; [by eapply (stepped_ext s (set_tasks <[id:=f t]> s))|by apply stepped_event|done].
Qed.

Lemma rest_outbox {A} (m : stex Outbox.db exc A) : forall s0 u s', (_ ← in_outbox m; mret tt : tx_ unit) s0 = Ok (u, s') ->
  exists o e, s' = set_outbox o s0 \/ s' = add_lease_event e s0 \/ s' = s0.
Proof.
  intros s0 u s' (x & s1 & E & [= _ <-])%stex_bind_ok. apply in_outbox_ok in E as [o ->].
  exists o, (LeaseEvent 0 [] None). auto.
Qed.

Lemma manual_stepped id s : stepped s (transaction (manual_retry id) s).2.
Proof.
  apply stepped_transaction. intros [] s'. unfold manual_retry. intros (s0 & s1 & [= <- <-] & X)%stex_bind_ok.
  destruct (tasks s !! id) as [t|] eqn:E; [|done]. destruct (retry_allowed id t s); [|by destruct (apps s !! _)].
  apply stex_bind_ok in X as (? & ? & [= _ <-] & X). apply stex_bind_ok in X as (? & ? & [= _ <-] & [= <-]).
  eapply (stepped_write s _ id t); cbn; [done|done|done|lia|lia|done|done|repeat split|done|by right; left|].
  intros a au Ha. by apply auth_still.
Qed.

Lemma drop_expired_some now a m i au : drop_expired now a m !! i = Some au -> m !! i = Some au.
Proof.
  unfold drop_expired. destruct (m !! a) as [x|]; [|done]. destruct (au_expires x <=? now); [|done].
  destruct (decide (a = i)) as [<-|D]; [by rewrite lookup_delete_eq|by rewrite lookup_delete_ne].
Qed.

Lemma config_of a t s : match apps s !! a with Some x => matches x t | None => false end = true ->
  exists x, apps s !! a = Some x /\ matches x t = true.
Proof. destruct (apps s !! a); [eauto|done]. Qed.

Lemma acquire_stepped now id l s : stepped s (transaction (acquire_authority now id l) s).2.
Proof.
  apply stepped_transaction. intros r s'. unfold acquire_authority. intros (s0 & s1 & [= <- <-] & X)%stex_bind_ok.
  destruct (tasks s !! id) as [t|] eqn:E; [|injection X as _ <-; apply stepped_refl]. cbv zeta in X.
  destruct (_ && _) eqn:C.
  - apply stex_bind_ok in X as (? & ? & [= _ <-] & [= _ <-]). apply andb_prop in C as [C _]. apply andb_prop in C as [_ C].
    apply config_of in C as (cfg & Hcfg & M). apply stepped_aside; cbn; try (done || lia).
    intros a au. destruct (decide (Task.app_id t = a)) as [<-|D].
    + rewrite lookup_insert_eq. intros [= <-]. right. cbn. eauto 10.
    + rewrite lookup_insert_ne by done. intros Ha%drop_expired_some. by apply auth_still.
  - apply stex_bind_ok in X as (? & ? & [= _ <-] & X). destruct (drop_expired _ _ _ !! _) eqn:D; [done|]. injection X as _ <-.
    apply stepped_aside; cbn; try (done || lia). intros a au Ha%drop_expired_some. by apply auth_still.
Qed.

Lemma confirm_stepped now id l s : stepped s (transaction (confirm_authority now id l) s).2.
Proof.
  apply stepped_transaction. intros r s'. unfold confirm_authority. intros (s0 & s1 & [= <- <-] & X)%stex_bind_ok.
  destruct (tasks s !! id) as [t|] eqn:E; [|injection X as _ <-; apply stepped_refl].
  destruct (_ && _) eqn:C; [|injection X as _ <-; apply stepped_refl].
  destruct (authorities s !! Task.app_id t) as [au0|] eqn:H0; [|injection X as _ <-; apply stepped_refl].
  destruct (_ && _ && _); [|injection X as _ <-; apply stepped_refl].
  apply stex_bind_ok in X as (? & ? & [= _ <-] & [= _ <-]). apply andb_prop in C as [_ C].
  apply config_of in C as (cfg & Hcfg & M). apply stepped_aside; cbn; try (done || lia).
  intros a au. destruct (decide (Task.app_id t = a)) as [<-|D].
  - rewrite lookup_insert_eq. intros [= <-]. right. cbn. eauto 10.
  - rewrite lookup_insert_ne by done. intros Ha. by apply auth_still.
Qed.

Lemma release_stepped id l s : stepped s (transaction (release_authority id l) s).2.
Proof.
  apply stepped_aside; cbn; try (done || lia). intros a au [Ha _]%map_lookup_filter_Some. by apply auth_still.
Qed.

Lemma write_stepped now a guard f s : stepped s (transaction (write_app now a guard f) s).2.
Proof.
  apply stepped_transaction. intros [] s'. unfold write_app. intros (s0 & s1 & [= <- <-] & X)%stex_bind_ok. cbv zeta in X.
  apply stex_bind_ok in X as (? & ? & B & X). apply stex_lift_ok in B as [B ->]. apply refuse_ok, bool_decide_eq_false in B.
  destruct (apps s !! a) as [cfg|] eqn:E; [|done].
  apply stex_bind_ok in X as (? & ? & G & X). apply stex_lift_ok in G as [_ ->].
  do 2 (apply stex_bind_ok in X as (? & ? & [= _ <-] & X)). injection X as <-.
  exists None. split; cbn; [lia|lia| |by left|done| |].
  - intros id. cbn. rewrite lookup_fmap. destruct (tasks s !! id) as [t|]; [|constructor]. cbn.
    destruct (revoked a cfg (f cfg) t); apply task_kept; (done || (by right; left) || by left).
  - intros i y Hy. destruct (decide (a = i)) as [<-|D].
    + right. cbn. destruct (drop_expired now a (authorities s) !! a) eqn:L; [|done]. exfalso. apply B. eauto.
    + left. by rewrite lookup_insert_ne.
  - intros i au Ha%drop_expired_some. by apply auth_still.
Qed.

Lemma cleanup_stepped id old s : stepped s (transaction (cleanup_task id old) s).2.
Proof.
  apply stepped_transaction. intros [] s'. unfold cleanup_task. intros (s0 & s1 & [= <- <-] & X)%stex_bind_ok.
  destruct (tasks s !! id) as [t|] eqn:E; [|injection X as <-; apply stepped_refl].
  destruct (_ && _); [|injection X as <-; apply stepped_refl].
  do 2 (apply stex_bind_ok in X as (? & ? & [= _ <-] & X)). injection X as <-.
  exists None. split; cbn; [lia|lia| |by left| | |].
  - intros i. destruct (decide (id = i)) as [<-|D].
    + rewrite lookup_delete_eq, E. constructor; cbn; [|by rewrite lookup_delete_eq].
      intros a au [_ Ha]%map_lookup_filter_Some. cbn in Ha. apply negb_true_iff, Z.eqb_neq in Ha. done.
    + rewrite lookup_delete_ne by done. auto.
  - intros i _ [tk Hx]. rewrite lookup_delete_ne; [done|]. intros <-. by rewrite lookup_delete_eq in Hx.
  - intros a cfg Hc. by left.
  - intros a au [Ha _]%map_lookup_filter_Some. by apply auth_still.
Qed.

Lemma app_stepped id x s : stepped s (if bool_decide (apps s !! id = None) then set_apps (<[id := x]>) s else s).
Proof.
  case_bool_decide as H; [|apply stepped_refl]. exists None. split; cbn; [lia|lia|auto|by left|done| |].
  - intros a y E. left. rewrite lookup_insert_ne; [done|]. intros ->. congruence.
  - intros a au Ha. by apply auth_still.
Qed.

Lemma legacy_stepped t at_ s : ids_ok s -> stepped s (legacy_task t at_ s).
Proof.
  intros I. unfold legacy_task. destruct (_ && _) eqn:C; [|apply stepped_refl]. cbn.
  apply andb_prop in C as [C R%bool_decide_eq_true]. apply andb_prop in C as [E%bool_decide_eq_true L%bool_decide_eq_true].
  eapply stepped_finished; [done| |done|done|done|done|]; cbn; [|by repeat split; left].
  unfold inserted. cbn. split_and!; (done || lia).
Qed.

Lemma existsb_none {A} (P : A -> bool) l x : existsb P l = false -> x ∈ l -> P x = false.
Proof.
  intros E Hin. destruct (P x) eqn:X; [|done]. assert (existsb P l = true) by (apply existsb_exists; exists x; by rewrite <- list_elem_of_In).
  congruence.
Qed.

Lemma cleanup_fact_stepped k old s : stepped s (transaction (cleanup_fact k old) s).2.
Proof.
  apply stepped_transaction. intros [] s'. unfold cleanup_fact. intros (s0 & s1 & [= <- <-] & X)%stex_bind_ok.
  destruct (_ && _) eqn:C; injection X as <-; [|apply stepped_refl]. apply andb_prop in C as [_ C%negb_true_iff].
  exists None. split; cbn; [lia|lia|auto| |done|by left|intros a au Ha; by apply auth_still].
  intros k' f Hf. destruct (decide (k = k')) as [<-|D]; [right|left; by rewrite lookup_delete_ne].
  intros id i r (t & E & R) Er. apply elem_of_map_to_list in E. apply (existsb_none _ _ _ C) in E. cbn in E.
  apply list_elem_of_lookup_2 in R. apply (existsb_none _ _ _ E) in R. by apply bool_decide_eq_false in R.
Qed.

Lemma callback_run_stepped o s : ids_ok s -> stepped s (run o s).
Proof.
  intros I. unfold run. destruct o; cbn [call snd].
  - apply app_stepped.
  - apply stepped_aside; try done. intros a au Ha. by apply auth_still.
  - by apply legacy_stepped.
  - by apply report_stepped.
  - by apply finished_stepped.
  - apply stepped_forget. by apply recover_stepped.
  - apply stepped_forget, claim_stepped.
  - apply stepped_forget, heartbeat_stepped.
  - apply callback_fenced_stepped; [by repeat split|]. intros s0 u s' [= <- <-]. exists (outbox s0), (LeaseEvent 0 [] None). auto.
  - apply callback_fenced_stepped; [by repeat split|]. apply rest_outbox.
  - apply callback_fenced_stepped; [by repeat split|]. apply rest_outbox.
  - apply callback_fenced_stepped; [by repeat split|]. intros s0 u s' [= <- <-]. eexists (outbox s0), _. eauto.
  - apply manual_stepped.
  - apply stepped_forget, acquire_stepped.
  - apply stepped_forget, confirm_stepped.
  - apply release_stepped.
  - apply write_stepped.
  - apply write_stepped.
  - apply write_stepped.
  - apply cleanup_stepped.
  - apply cleanup_fact_stepped.
Qed.

(** ** The invariants *)

Lemma stepped_ids s s' : ids_ok s -> stepped s s' -> ids_ok s'.
Proof.
  intros I [added [U N T F S A H]] id t E. specialize (T id). rewrite E in T. specialize (I id).
  inversion T; subst; try lia; match goal with X : Some _ = tasks s !! id |- _ => symmetry in X; apply I in X; lia end.
Qed.

(** A place of the new state is one of the old, or the one a report took. *)
Definition next_place (s : db) (id : Z) : nat := match tasks s !! id with Some t => length (Task.refs t) | None => 0 end.
Lemma place_step added s s' id i r : stepped_by added s s' -> at_place s' id i r ->
  at_place s id i r \/ (added = Some (id, r) /\ added_key s s' r /\ i = next_place s id).
Proof.
  intros [_ _ T _ _ _ _] (t' & E & R). specialize (T id). unfold at_place, next_place. rewrite E in T.
  destruct (tasks s !! id) as [t|]; inversion T; subst; clear T.
  - left. exists t. split; [done|]. unfold same_refs in *. congruence.
  - cbn in R. apply lookup_snoc_Some in R as [[L R]|[-> <-]]; [left; eauto|by right].
  - match goal with X : Task.refs _ = _ |- _ => rewrite X in R end. destruct i; [|done]. injection R as <-. by right.
  - match goal with X : Task.refs _ = _ |- _ => rewrite X in R end. done.
Qed.

Record refs_ok (s : db) : Prop := {
  known : forall id i r, at_place s id i r -> is_Some (facts s !! r.2);
  one_place : forall id i r id' i' r', at_place s id i r -> at_place s id' i' r' -> r.2 = r'.2 -> id = id' /\ i = i';
  bounded : forall id t, tasks s !! id = Some t -> (length (Task.refs t) <= 500)%nat
}.

Lemma stepped_refs s s' : refs_ok s -> stepped s s' -> refs_ok s'.
Proof.
  intros [K O B] [added St]. split.
  - intros id i r P. destruct (place_step _ _ _ _ _ _ St P) as [Q|(_ & [_ Q] & _)]; [|done].
    destruct (K _ _ _ Q) as [f F]. destruct (st_facts _ _ _ St _ _ F) as [H|H]; [eauto|by apply H in Q].
  - intros id i r id' i' r' P P' E. destruct (place_step _ _ _ _ _ _ St P) as [Q|(A & [N _] & ->)];
      destruct (place_step _ _ _ _ _ _ St P') as [Q'|(A' & [N' _] & ->)].
    + by apply (O _ _ r _ _ r').
    + apply K in Q. rewrite E, N' in Q. by destruct Q.
    + apply K in Q'. rewrite <- E, N in Q'. by destruct Q'.
    + rewrite A in A'. injection A' as -> ->. done.
  - intros id t' E. pose proof (st_tasks _ _ _ St id) as T. rewrite E in T.
    inversion T as [t ? F R L| |t ? ? ? ?|? ? ? ? ? ? ? Q|? ? ? ? ? Q|]; subst.
    + rewrite R. symmetry in H. by apply B in H.
    + cbn. rewrite length_app. cbn. lia.
    + rewrite Q. cbn. lia.
    + rewrite Q. cbn. lia.
Qed.

(** The summary of a task of a finished batch. *)
Definition summary_at (s : db) (id : Z) (t : Task.t) (n : Snapshot.t) : Prop :=
  tasks s !! id = Some t /\ Task.event t = CallbackEvent.batch_finished /\ snapshots s !! id = Some n.
Definition of_task (t : Task.t) (n : Snapshot.t) : Prop :=
  Snapshot.batch_id n = Task.batch_id t /\ Snapshot.source_report_event_key n = Task.source_report_event_key t.
(** Two summaries of the same occasion: the end of a batch, a late report of
    it, or the recovery of one task. *)
Definition same_occasion (n n' : Snapshot.t) : Prop :=
  is_Some (Snapshot.summary n) /\ is_Some (Snapshot.summary n')
  /\ Snapshot.recovered_from_task_id n = Snapshot.recovered_from_task_id n'
  /\ (Snapshot.recovered_from_task_id n = None ->
      Snapshot.batch_id n = Snapshot.batch_id n' /\ Snapshot.source_report_event_key n = Snapshot.source_report_event_key n').

Record snaps_ok (s : db) : Prop := {
  has_row : forall id t, tasks s !! id = Some t -> Task.event t = CallbackEvent.batch_finished ->
    exists n, snapshots s !! id = Some n /\ of_task t n;
  one_occasion : forall id t n id' t' n', summary_at s id t n -> summary_at s id' t' n' -> same_occasion n n' -> id = id'
}.

(** No summary of the same occasion was there. *)
Lemma first_is_first s t n id' t' n' : snaps_ok s -> first_of_kind s t n -> summary_at s id' t' n' -> same_occasion n n' -> False.
Proof.
  intros [R _] (B & K & C) (E & F & S) (Z1 & Z2 & Fr & Same). assert (Hin : (id', t') ∈ map_to_list (tasks s)) by by apply elem_of_map_to_list.
  destruct (R _ _ E F) as (m & Sm & Bm & Km). rewrite S in Sm. injection Sm as <-.
  destruct C as [C|[[N A]|(from & N & _ & A)]].
  - rewrite C in Z1. by destruct Z1.
  - destruct (Same N) as [Sb Sk]. rewrite N in Fr. unfold already_announced in A.
    destruct (Task.source_report_event_key t) as [key|] eqn:Kt; apply (existsb_none _ _ _ A) in Hin.
    + unfold announced_for in Hin. cbn in Hin. rewrite !bool_decide_eq_true_2, andb_true_r in Hin by congruence. cbn in Hin. apply Z.eqb_neq in Hin. congruence.
    + unfold initial_task, recovery in Hin. cbn in Hin. rewrite S, <- Fr in Hin.
      rewrite (bool_decide_eq_true_2 _ F), (bool_decide_eq_true_2 (Task.source_report_event_key t' = None)) in Hin by congruence.
      rewrite (bool_decide_eq_false_2 (is_Some None)) in Hin by (by intros []).
      cbn in Hin. rewrite !andb_true_r in Hin. apply Z.eqb_neq in Hin. congruence.
  - unfold find_recovery in A. apply List.find_none with (x := (id', t')) in A; [|by apply list_elem_of_In].
    cbn in A. rewrite S, bool_decide_eq_true_2 in A by congruence. done.
Qed.

(** A summary of the new state was there, or is the first of its occasion. *)
Lemma summary_step added s s' id t' n : ids_ok s -> stepped_by added s s' -> summary_at s' id t' n ->
  (exists t, summary_at s id t n /\ fixed t t') \/ (id = next_task s /\ first_of_kind s t' n).
Proof.
  intros I [_ _ T _ S _ _] (E & F & Sn). specialize (T id). rewrite E in T. unfold summary_at.
  assert (Old : forall t, tasks s !! id = Some t -> snapshots s !! id = Some n).
  { intros t Ht. apply I in Ht. rewrite <- S; [done|lia|eauto]. }
  destruct (tasks s !! id) as [t|] eqn:Et; inversion T; subst; clear T.
  - left. exists t. split; [|done]. destruct H1 as (_ & <- & _). eauto.
  - left. exists t. split; [|done]. eauto.
  - congruence.
  - right. split; [done|]. congruence.
Qed.

Lemma stepped_snaps s s' : ids_ok s -> snaps_ok s -> stepped s s' -> snaps_ok s'.
Proof.
  intros I O [added St]. split.
  - intros id t' E F. pose proof (st_tasks _ _ _ St id) as T. rewrite E in T.
    destruct (tasks s !! id) as [t|] eqn:Et; inversion T; subst; clear T.
    + destruct H1 as (_ & F1 & F2 & F3 & _). destruct (has_row s O id t Et) as (n & Sn & B & K); [congruence|].
      exists n. rewrite (st_snapshots _ _ _ St id); [|apply I in Et; lia|eauto]. split; [done|]. split; congruence.
    + destruct (has_row s O id t Et F) as (n & Sn & B & K).
      exists n. rewrite (st_snapshots _ _ _ St id); [|apply I in Et; lia|eauto]. done.
    + congruence.
    + match goal with X : first_of_kind _ _ _ |- _ => destruct X as (B & K & _) end. by exists n.
  - intros id t n id' t' n' A A' Oc.
    destruct (summary_step _ _ _ _ _ _ I St A) as [(x & X & _)|[-> X]];
      destruct (summary_step _ _ _ _ _ _ I St A') as [(x' & X' & _)|[-> X']].
    + by apply (one_occasion s O id x n id' x' n').
    + exfalso. eapply first_is_first; [done|exact X'|exact X|]. destruct Oc as (? & ? & ? & Q). repeat split; try done; symmetry; apply Q; congruence.
    + exfalso. by eapply first_is_first.
    + done.
Qed.

(** ** Sequences of calls *)

Record ok (s : db) : Prop := { ok_ids : ids_ok s; ok_refs : refs_ok s; ok_snaps : snaps_ok s }.

Lemma callback_run_ok o s : ok s -> ok (run o s).
Proof.
  intros [I R S]. pose proof (callback_run_stepped o s I) as X.
  split; [by eapply stepped_ids|by eapply stepped_refs|by eapply stepped_snaps].
Qed.
Lemma runs_cons o l s : runs (o :: l) s = runs l (run o s).
Proof. done. Qed.
Lemma runs_app l1 l2 s : runs (l1 ++ l2) s = runs l2 (runs l1 s).
Proof. apply foldl_app. Qed.
Lemma callback_runs_ok l s : ok s -> ok (runs l s).
Proof. revert s. induction l as [|o l IH]; intros s H; [done|]. apply IH. by apply callback_run_ok. Qed.
Lemma callback_start_ok o : ok (start o).
Proof. split; [done|split|split]; try done. by intros ? ? ? (? & ? & _). by intros ? ? ? ? ? ? (? & ? & _). by intros ? ? ? ? ? ? (? & _). Qed.

(** What is left of a task: its fixed columns, its summary, its references and
    the reports they name. *)
Definition carried (s s' : db) (id : Z) (t : Task.t) : Prop :=
  id < next_task s' /\ forall t', tasks s' !! id = Some t' ->
    fixed t t' /\ snapshots s' !! id = snapshots s !! id /\ Task.refs t `prefix_of` Task.refs t'
    /\ forall i r f, Task.refs t !! i = Some r -> facts s !! r.2 = Some f -> facts s' !! r.2 = Some f.

Lemma fixed_trans t1 t2 t3 : fixed t1 t2 -> fixed t2 t3 -> fixed t1 t3.
Proof. intros (? & ? & ? & ? & ? & ?) (? & ? & ? & ? & ? & ?). split_and!; congruence. Qed.

Lemma carried_step s s' s'' id t : carried s s' id t -> stepped s' s'' -> carried s s'' id t.
Proof.
  intros [L C] [added St]. split; [pose proof (st_next _ _ _ St); lia|]. intros t'' E.
  rewrite (st_snapshots _ _ _ St id); [|lia|eauto]. pose proof (st_tasks _ _ _ St id) as T. rewrite E in T.
  destruct (tasks s' !! id) as [t'|] eqn:Et.
  - destruct (C t' eq_refl) as (F & S & P & Q).
    assert (Q' : forall i r f, Task.refs t !! i = Some r -> facts s !! r.2 = Some f -> facts s'' !! r.2 = Some f).
    { intros i r f R Hf. destruct (st_facts _ _ _ St _ _ (Q _ _ _ R Hf)) as [H|H]; [done|].
      exfalso. apply (H id i r); [|done]. exists t'. split; [done|]. by eapply prefix_lookup_Some. }
    inversion T as [? ? F' R' _| |? r _ _ _| | |]; subst; clear T.
    + split_and!; [by eapply fixed_trans|done|by rewrite R'|done].
    + split_and!; [done|done| |done]. cbn. by apply prefix_app_r.
  - inversion T; lia.
Qed.

Lemma runs_carried l s s' id t : ok s' -> carried s s' id t -> carried s (runs l s') id t.
Proof.
  revert s'. induction l as [|o l IH]; intros s' K C; [done|]. apply IH; [by apply callback_run_ok|].
  eapply carried_step; [exact C|]. apply callback_run_stepped, K.
Qed.
Lemma carried_refl s id t : ids_ok s -> tasks s !! id = Some t -> carried s s id t.
Proof. intros I E. split; [by eapply I|]. rewrite E. intros t' [= <-]. done. Qed.

(** The lease [l] on a task was drawn and is over. *)
Definition lease_over (id l : Z) (s : db) : Prop := l < next_uuid s /\ forall t, tasks s !! id = Some t -> lease_of t <> Some l.

Lemma over_step id l s s' : lease_over id l s -> stepped s s' -> lease_over id l s'.
Proof.
  intros [D O] [added [U _ T _ _ _ _]]. split; [lia|]. intros t' E. specialize (T id). rewrite E in T.
  destruct (tasks s !! id) as [t|]; inversion T as [? ? _ _ L| |? r _ _ _|? ? _ _ _ _ L|? ? _ _ L|]; subst; clear T.
  - specialize (O t eq_refl). destruct L as [[-> _]|[->|(-> & _ & _)]]; [done|done|]. intros [= X]. lia.
  - by apply (O t).
  - unfold lease_of. by rewrite L.
  - unfold lease_of. by rewrite L.
Qed.
Lemma runs_over l id lease s : ok s -> lease_over id lease s -> lease_over id lease (runs l s).
Proof.
  revert s. induction l as [|o l IH]; intros s K O; [done|]. apply IH; [by apply callback_run_ok|].
  eapply over_step; [done|]. apply callback_run_stepped, K.
Qed.

Lemma over_held now id l s : lease_over id l s -> held now id l s = None.
Proof.
  intros [_ O]. unfold held. destruct (tasks s !! id) as [t|]; [|done]. destruct (holds now l t) eqn:H; [|done].
  apply holds_lease in H as [H _]. by apply (O t) in H.
Qed.
Lemma over_holds now id l s t : lease_over id l s -> tasks s !! id = Some t -> holds now l t = false.
Proof. intros O E. pose proof (over_held now id l s O) as H. unfold held in H. rewrite E in H. by destruct (holds now l t). Qed.
Lemma over_fenced now id l guard f rest s : lease_over id l s ->
  fenced now id l guard f rest s = (Raise CallbackLeaseLost, add_lease_event (LeaseEvent id (tx "fencing_miss") (Some l)) s).
Proof. intros O. unfold fenced. by rewrite over_held. Qed.

(** ** An authority that is not over *)

(** What does not end an authority of [task_id] under [lease_id], confirmed at
    [from] until [until]: a call within that time, no release, and no heartbeat
    with a shorter term. *)
Definition within (from until task_id lease_id : Z) (o : op) : Prop :=
  match o with
  | OHeartbeat now id l n => id = task_id -> l = lease_id -> until <= now + secs n
  | OConfirm now _ _ => from <= now
  | OAcquire now _ _ | OUpdate now _ _ _ _ | ODisable now _ | ORotate now _ _ => now < until
  | ORelease id l => ~ (id = task_id /\ l = lease_id)
  | OCleanup id _ => id <> task_id
  | _ => True
  end.
Definition authorized (a task_id lease_id until : Z) (s : db) : Prop :=
  exists au, authorities s !! a = Some au /\ au_task au = task_id /\ au_lease au = lease_id /\ until <= au_expires au.

Lemma authorized_same a id l until s s' : authorities s' = authorities s -> authorized a id l until s -> authorized a id l until s'.
Proof. unfold authorized. by intros ->. Qed.
Lemma authorized_transaction {A} a id l until (m : tx_ A) s :
  (forall r s', m s = Ok (r, s') -> authorized a id l until s') -> authorized a id l until s -> authorized a id l until (transaction m s).2.
Proof. intros H K. unfold transaction. destruct (m s) as [[r s']|e] eqn:E; cbn; [by eapply H|done]. Qed.

(** A call that leaves the authorities as they are. *)
Definition spares (o : op) : Prop :=
  match o with OHeartbeat _ _ _ _ | OAcquire _ _ _ | OConfirm _ _ _ | ORelease _ _ | OUpdate _ _ _ _ _ | ODisable _ _ | ORotate _ _ _ | OCleanup _ _ => False | _ => True end.

Lemma transaction_keeps {A} (m : tx_ A) s :
  (forall r s', m s = Ok (r, s') -> authorities s' = authorities s) -> authorities (transaction m s).2 = authorities s.
Proof. intros H. unfold transaction. destruct (m s) as [[r s']|e] eqn:E; cbn; [by eapply H|done]. Qed.
Lemma fenced_keeps now id l guard f rest s :
  (forall s0 u s', rest s0 = Ok (u, s') -> exists o e, s' = set_outbox o s0 \/ s' = add_lease_event e s0 \/ s' = s0) ->
  authorities (fenced now id l guard f rest s).2 = authorities s.
Proof.
  intros Hr. unfold fenced. destruct (held _ _ _ s); [|done]. destruct (guard _); [|done].
  destruct (rest _) as [[u s']|] eqn:R; [|done]. by apply Hr in R as (o & e & [->|[->| ->]]).
Qed.

Lemma report_keeps now c b m at_ k st d t s r s' : enqueue_message_report now c b m at_ k st d t s = Ok (r, s') -> authorities s' = authorities s.
Proof.
  unfold enqueue_message_report. intros (s0 & s1 & [= <- <-] & X)%stex_bind_ok. case_bool_decide; [by injection X as _ <-|].
  apply stex_bind_ok in X as (u & s2 & [= _ <-] & X). destruct (newest _ _); [by injection X as _ <-|].
  destruct (batches s !! b) as [x|]; [|by injection X as _ <-].
  destruct (apps s !! FinishedBatch.app_id x) as [[[] [url|] [secret|] []]|]; try (by injection X as _ <-).
  apply stex_bind_ok in X as (id & s3 & X & Y). apply insert_task_ok in X as (_ & _ & _ & v & e & _ & _ & _ & Au & _).
  by apply announce_ok in Y as [o ->].
Qed.
Lemma finished_keeps now clk c b source s r s' : enqueue_batch_finished now clk c b source s = Ok (r, s') -> authorities s' = authorities s.
Proof.
  unfold enqueue_batch_finished. intros (s0 & s1 & [= <- <-] & X)%stex_bind_ok.
  destruct (candidate b s) as [[[x url] secret]|]; [|by injection X as _ <-]. destruct (already_announced b source s); [by injection X as _ <-|].
  apply stex_bind_ok in X as (id & s2 & X & Y). apply insert_finished_ok in X as (_ & _ & _ & _ & v & e & _ & _ & _ & Au & _).
  by apply announce_ok in Y as [o ->].
Qed.
Lemma recover_keeps now clk c id s r s' : _recover now clk c id s = Ok (r, s') -> authorities s' = authorities s.
Proof.
  unfold _recover. intros (s0 & s1 & [= <- <-] & X)%stex_bind_ok. destruct (tasks s !! id) as [t|]; [|done].
  do 4 (apply stex_bind_ok in X as (? & ? & E & X); apply stex_lift_ok in E as [_ ->]).
  destruct (find_recovery id s) as [[i ?]|].
  - by apply stex_bind_ok in X as (? & ? & [= _ <-] & [= _ <-]).
  - destruct (candidate _ s) as [[[fb url] secret]|]; [|done].
    apply stex_bind_ok in X as (i & s2 & X & Y). apply insert_finished_ok in X as (_ & _ & _ & _ & v & e & _ & _ & _ & Au & _).
    apply stex_bind_ok in Y as (u & s3 & Y & Z). apply announce_ok in Y as [o ->].
    by apply stex_bind_ok in Z as (w & s4 & [= _ <-] & [= _ <-]).
Qed.
Lemma claim_keeps now id n s r s' : claim now id n s = Ok (r, s') -> authorities s' = authorities s.
Proof.
  unfold claim. intros (u & s0 & E & X)%stex_bind_ok. apply stex_lift_ok in E as [_ ->].
  apply stex_bind_ok in X as (l & s1 & [= <- <-] & X). apply stex_bind_ok in X as (s2 & s3 & [= <- <-] & X). cbn in X.
  destruct (tasks s !! id) as [t|]; [|by injection X as _ <-]. destruct (due now t); [|by injection X as _ <-].
  apply stex_bind_ok in X as (? & ? & [= _ <-] & X). by apply stex_bind_ok in X as (? & ? & [= _ <-] & [= _ <-]).
Qed.
Lemma manual_keeps id s r s' : manual_retry id s = Ok (r, s') -> authorities s' = authorities s.
Proof.
  unfold manual_retry. intros (s0 & s1 & [= <- <-] & X)%stex_bind_ok.
  destruct (tasks s !! id) as [t|]; [|done]. destruct (retry_allowed id t s); [|by destruct (apps s !! _)].
  apply stex_bind_ok in X as (? & ? & [= _ <-] & X). by apply stex_bind_ok in X as (? & ? & [= _ <-] & [= _ <-]).
Qed.

Lemma spared o s : spares o -> authorities (run o s) = authorities s.
Proof.
  unfold run. destruct o; cbn [call spares snd]; try done; intros _.
  - by case_bool_decide.
  - unfold legacy_task. by destruct (_ && _).
  - apply transaction_keeps. intros. by eapply report_keeps.
  - apply transaction_keeps. intros. by eapply finished_keeps.
  - unfold forget. cbn. apply transaction_keeps. intros. by eapply recover_keeps.
  - unfold forget. cbn. apply transaction_keeps. intros. by eapply claim_keeps.
  - apply fenced_keeps. intros s0 u s' [= <- <-]. exists (outbox s0), (LeaseEvent 0 [] None). auto.
  - apply fenced_keeps, rest_outbox.
  - apply fenced_keeps, rest_outbox.
  - apply fenced_keeps. intros s0 u s' [= <- <-]. eexists (outbox s0), _. eauto.
  - apply transaction_keeps. intros. by eapply manual_keeps.
  - apply transaction_keeps. intros r s'. unfold cleanup_fact. intros (s0 & s1 & [= <- <-] & X)%stex_bind_ok.
    by destruct (_ && _); injection X as _ <-.
Qed.

Lemma drop_live now a b m au : m !! b = Some au -> now < au_expires au -> drop_expired now a m !! b = Some au.
Proof.
  intros E L. unfold drop_expired. destruct (m !! a) as [x|] eqn:X; [|done]. destruct (au_expires x <=? now) eqn:C; [|done].
  apply Z.leb_le in C. rewrite lookup_delete_ne; [done|]. intros ->. rewrite E in X. injection X as <-. lia.
Qed.

Lemma write_authorized now a id l until b guard f s : now < until -> authorized a id l until s ->
  authorized a id l until (transaction (write_app now b guard f) s).2.
Proof.
  intros L Au. apply authorized_transaction; [|done]. destruct Au as (au & E & T & Le & Un).
  intros [] s'. unfold write_app. intros (s0 & s1 & [= <- <-] & X)%stex_bind_ok. cbv zeta in X.
  apply stex_bind_ok in X as (? & ? & B & X). apply stex_lift_ok in B as [_ ->].
  destruct (apps s !! b) as [cfg|]; [|done]. apply stex_bind_ok in X as (? & ? & G & X). apply stex_lift_ok in G as [_ ->].
  do 2 (apply stex_bind_ok in X as (? & ? & [= _ <-] & X)). injection X as <-.
  exists au. cbn. split; [|done]. apply drop_live; [done|lia].
Qed.

Lemma acquire_authorized now a id l until i k s : now < until -> authorized a id l until s ->
  authorized a id l until (transaction (acquire_authority now i k) s).2.
Proof.
  intros L Au. apply authorized_transaction; [|done]. destruct Au as (au & E & T & Le & Un).
  intros r s'. unfold acquire_authority. intros (s0 & s1 & [= <- <-] & X)%stex_bind_ok.
  destruct (tasks s !! i) as [t|]; [|injection X as _ <-; by exists au]. cbv zeta in X.
  assert (D : drop_expired now (Task.app_id t) (authorities s) !! a = Some au) by (apply drop_live; [done|lia]).
  destruct (_ && _) eqn:C; apply stex_bind_ok in X as (? & ? & [= _ <-] & X).
  - injection X as _ <-. exists au. cbn. split; [|done]. rewrite lookup_insert_ne; [done|]. intros <-.
    apply andb_prop in C as [_ C]. apply andb_prop in C as [C%bool_decide_eq_true _]. congruence.
  - destruct (drop_expired _ _ _ !! _) in X; [done|]. injection X as _ <-. by exists au.
Qed.

Lemma confirm_authorized now a id l from i k s : from <= now -> authorized a id l (from + AUTHORITY_US) s ->
  authorized a id l (from + AUTHORITY_US) (transaction (confirm_authority now i k) s).2.
Proof.
  intros L Au. apply authorized_transaction; [|done]. pose proof Au as (au & E & T & Le & Un).
  intros r s'. unfold confirm_authority. intros (s0 & s1 & [= <- <-] & X)%stex_bind_ok.
  destruct (tasks s !! i) as [t|]; [|by injection X as _ <-]. destruct (_ && _); [|by injection X as _ <-].
  destruct (authorities s !! Task.app_id t) as [au0|] eqn:H0; [|by injection X as _ <-].
  destruct (_ && _ && _) eqn:C; [|by injection X as _ <-]. apply stex_bind_ok in X as (? & ? & [= _ <-] & [= _ <-]).
  unfold authorized. cbn. destruct (decide (Task.app_id t = a)) as [<-|D]; [|rewrite lookup_insert_ne by done; by exists au].
  rewrite lookup_insert_eq. rewrite E in H0. injection H0 as <-. apply andb_prop in C as [C _]. apply andb_prop in C as [C1%Z.eqb_eq C2%Z.eqb_eq].
  eexists. split; [done|]. cbn. split_and!; [congruence|congruence|lia].
Qed.

Lemma authorized_run from a id l s o : within from (from + AUTHORITY_US) id l o ->
  authorized a id l (from + AUTHORITY_US) s -> authorized a id l (from + AUTHORITY_US) (run o s).
Proof.
  intros W Au. destruct o; try (by apply (authorized_same _ _ _ _ s); [apply spared|]); cbn [within] in W; unfold run; cbn [call].
  - destruct Au as (au & E & T & Le & Un). unfold forget, heartbeat. cbn. destruct (held _ _ _ _) as [t|] eqn:H; cbn; [|by exists au].
    unfold authorized. cbn. rewrite lookup_fmap, E. cbn. eexists. split; [done|]. destruct (_ && _) eqn:C; [|done].
    apply andb_prop in C as [C1%Z.eqb_eq C2%Z.eqb_eq]. cbn. split_and!; [congruence|congruence|]. apply W; congruence.
  - by apply (acquire_authorized _ a id l).
  - by apply (confirm_authorized _ a id l).
  - destruct Au as (au & E & T & Le & Un). exists au. cbn. split; [|done]. apply map_lookup_filter_Some. split; [done|]. cbn.
    apply negb_true_iff, not_true_iff_false. intros [C1%Z.eqb_eq C2%Z.eqb_eq]%andb_prop. apply W. split; congruence.
  - by apply (write_authorized _ a id l).
  - by apply (write_authorized _ a id l).
  - by apply (write_authorized _ a id l).
  - apply authorized_transaction; [|done]. destruct Au as (au & E & T & Le & Un). intros [] s'. unfold cleanup_task.
    intros (s0 & s1 & [= <- <-] & X)%stex_bind_ok. destruct (tasks s !! task_id); [|injection X as <-; by exists au].
    destruct (_ && _); [|injection X as <-; by exists au]. do 2 (apply stex_bind_ok in X as (? & ? & [= _ <-] & X)). injection X as <-.
    exists au. cbn. split; [|done]. apply map_lookup_filter_Some. split; [done|]. cbn. apply negb_true_iff, Z.eqb_neq. congruence.
Qed.

Lemma get_then {A} (k : db -> tx_ A) s : (s0 ← get; k s0) s = k s s.
Proof. done. Qed.
Lemma transaction_done {A} (m : tx_ A) s a s' : transaction m s = (Ok a, s') -> m s = Ok (a, s').
Proof. unfold transaction. destruct (m s) as [[x y]|]; [|done]. by intros [= <- <-]. Qed.

Lemma authorized_runs from a id l cfg after s : ok s -> authorized a id l (from + AUTHORITY_US) s -> apps s !! a = Some cfg ->
  Forall (within from (from + AUTHORITY_US) id l) after -> apps (runs after s) !! a = Some cfg.
Proof.
  revert s. induction after as [|o after IH]; intros s K Au C W; [done|]. inversion W as [|? ? Wo W']; subst.
  pose proof (authorized_run _ _ _ _ _ _ Wo Au) as Au'. apply IH; [by apply callback_run_ok|done| |done].
  destruct (callback_run_stepped o s (ok_ids s K)) as [added St]. destruct (st_apps _ _ _ St a cfg C) as [|N]; [done|].
  destruct Au' as (au & E & _). congruence.
Qed.

(** ** What a delivery relies on *)

(** C13: Once a worker's authority for a task was confirmed, the application's
    address, secret and switches are those the task was made for during the thirty
    seconds the authority has left, whatever other workers, reports and
    administrators do in that time: a change of the configuration is refused until
    the worker releases it.  The calls considered are all those of the machine at
    instants of that time, except a release by the worker itself, a heartbeat of it
    with a shorter term, and the deletion of the task. *)
Theorem callback_authority ob before t0 id l t s1 after :
  let s := runs before (start ob) in
  tasks s !! id = Some t -> transaction (confirm_authority t0 id l) s = (Ok true, s1) ->
  Forall (within t0 (t0 + AUTHORITY_US) id l) after ->
  exists cfg, apps (runs after s1) !! Task.app_id t = Some cfg /\ matches cfg t = true.
Proof.
  cbv zeta. intros E C W. pose proof (callback_runs_ok before _ (callback_start_ok ob)) as K. set (s := runs before (start ob)) in *. clearbody s.
  pose proof (callback_run_ok (OConfirm t0 id l) s K) as K1. unfold run in K1. cbn [call] in K1. unfold forget in K1. cbn in K1. rewrite C in K1. cbn in K1.
  apply transaction_done in C. unfold confirm_authority in C. rewrite get_then, E in C. destruct (holds _ _ _ && _) eqn:G; [|done].
  apply andb_prop in G as [_ G]. apply config_of in G as (cfg & Hc & M).
  destruct (authorities s !! Task.app_id t) as [au|]; [|done]. destruct (_ && _ && _); [|done].
  apply stex_bind_ok in C as (? & ? & [= _ <-] & [= <-]).
  exists cfg. split; [|done]. eapply (authorized_runs t0 _ id l); [done| |done|done].
  eexists. cbn. rewrite lookup_insert_eq. split; [done|]. cbn. split_and!; (done || lia).
Qed.

(** C19: A worker whose lease on a task is over, because another worker took the
    task over, the task was settled or put off, or its configuration was revoked,
    cannot write it again at any later time: each of its four writes raises
    [CallbackLeaseLost] and records a fencing miss, its heartbeat answers false,
    and it is given no authority to deliver. *)
Theorem callback_fencing ob before after id l now :
  let s := runs before (start ob) in
  lease_over id l s ->
  let s' := runs after s in
  let missed := (Raise CallbackLeaseLost, add_lease_event (LeaseEvent id (tx "fencing_miss") (Some l)) s') in
  (forall code, mark_done now id l code s' = missed)
  /\ (forall ambient n delay, mark_authority_busy uuid_text now ambient id l n delay s' = missed)
  /\ (forall ambient n delay code e, mark_retry now ambient id l n delay code e s' = missed)
  /\ (forall n code e, mark_dead now id l n code e s' = missed)
  /\ (forall n, (heartbeat now id l n s').1 = Ok false)
  /\ (transaction (acquire_authority now id l) s').1 <> Ok true
  /\ (transaction (confirm_authority now id l) s').1 = Ok false.
Proof.
  cbv zeta. intros O. pose proof (runs_over after id l _ (callback_runs_ok before _ (callback_start_ok ob)) O) as O'.
  set (s' := runs after (runs before (start ob))) in *. clearbody s'.
  split_and!; try (intros; by apply over_fenced).
  - intros n. unfold heartbeat. by rewrite over_held.
  - unfold transaction, acquire_authority. rewrite get_then. destruct (tasks s' !! id) as [t|] eqn:E; [|done]. rewrite (over_holds now id l s' t) by done. cbn.
    unfold mbind, stex_bind. cbn. by destruct (drop_expired _ _ _ !! _).
  - unfold transaction, confirm_authority. rewrite get_then. destruct (tasks s' !! id) as [t|] eqn:E; [|done]. by rewrite (over_holds now id l s' t).
Qed.

(** C14: Every report that is told to an application is told in one task: no two
    places of the tasks hold the same report, a task holds at most five hundred,
    and as long as a task exists its places hold the same reports and these are
    stored as they were. *)
Theorem report_told_once ob before after :
  let s := runs before (start ob) in let s' := runs after s in
  (forall id i r id' i' r', at_place s id i r -> at_place s id' i' r' -> r.2 = r'.2 -> id = id' /\ i = i')
  /\ (forall id t, tasks s !! id = Some t -> (length (Task.refs t) <= 500)%nat)
  /\ (forall id i r, at_place s id i r -> is_Some (tasks s' !! id) ->
       at_place s' id i r /\ exists f, facts s !! r.2 = Some f /\ facts s' !! r.2 = Some f).
Proof.
  cbv zeta. pose proof (callback_runs_ok before _ (callback_start_ok ob)) as K. set (s := runs before (start ob)) in *. clearbody s.
  split_and!; [apply (one_place s (ok_refs s K))|apply (bounded s (ok_refs s K))|].
  intros id i r P [t' E']. destruct (known s (ok_refs s K) id i r P) as [f F]. destruct P as (t & E & R).
  destruct (runs_carried after s s id t K (carried_refl _ _ _ (ok_ids s K) E)) as [_ C].
  destruct (C t' E') as (_ & _ & Pre & Q). split; [exists t'; split; [done|]; by eapply prefix_lookup_Some|eauto].
Qed.

(** C20: The summary of a finished batch is frozen when its task is made: as long
    as the task exists its summary is the same row and the task names the same
    application, batch, report, address and secret.  There is one summary for the
    end of a batch, one for each late report of it and one for each task that is
    recovered. *)
Theorem summary_frozen ob before after :
  let s := runs before (start ob) in let s' := runs after s in
  (forall id t n, summary_at s id t n -> of_task t n
     /\ forall t', tasks s' !! id = Some t' -> snapshots s' !! id = Some n /\ fixed t t')
  /\ (forall id t n id' t' n', summary_at s id t n -> summary_at s id' t' n' -> same_occasion n n' -> id = id').
Proof.
  cbv zeta. pose proof (callback_runs_ok before _ (callback_start_ok ob)) as K. set (s := runs before (start ob)) in *. clearbody s.
  split; [|apply (one_occasion s (ok_snaps s K))]. intros id t n (E & F & S). split.
  - destruct (has_row s (ok_snaps s K) id t E F) as (m & Sm & O). rewrite S in Sm. by injection Sm as <-.
  - intros t' E'. destruct (runs_carried after s s id t K (carried_refl _ _ _ (ok_ids s K) E)) as [_ C].
    destruct (C t' E') as (X & -> & _). done.
Qed.

(** A manual retry of a task puts it back to pending exactly when the console
    shows no reason against it, and otherwise is refused with the reason shown. *)
Theorem manual_retry_agrees id t a s : tasks s !! id = Some t -> apps s !! Task.app_id t = Some a ->
  match retry_block_reason id t a s with
  | Some reason => transaction (manual_retry id) s = (Raise (CallbackRetryConflict reason), s)
  | None => exists s', transaction (manual_retry id) s = (Ok tt, s')
              /\ tasks s' = <[id := Task.set_state TaskStatus.pending 0 None None (Task.takeover_count t) None None None t]> (tasks s)
  end.
Proof.
  intros E A. unfold transaction, manual_retry. rewrite get_then, E. unfold retry_allowed, retry_block_reason, matches. rewrite A.
  repeat (case_bool_decide; cbn); destruct (legacy id s), (App.active a), (App.callback_report_enabled a); cbn; done || eauto.
Qed.
End machine.

(** ** A deployment: an application, a batch that ended, two reports of it *)

Definition uuid_example (n : Z) : text := tx "00000000-0000-4000-8000-00000000000" ++ str_int n.
Definition app_example : App.t := App.mk true (Some (tx "https://app.example/cb")) (Some [0; 1; 7]) true.
Definition batch_example : FinishedBatch.t :=
  FinishedBatch.mk 1 (tx "B1") None (tx "notice") FinishedBatch.completed 2 1 1 0.
Definition second (n : Z) : Z := n * 1000000.
Definition told : list op :=
  [OApp 1 app_example; OBatch 5 batch_example;
   OReport (second 10) 900 5 71 3 (tx "k1") (tx "delivered") (tx "DELIVRD") 8;
   OReport (second 11) 901 5 72 3 (tx "k2") (tx "failed") (tx "UNDELIV") 9;
   OFinished (second 12) (second 12) 902 5 None].
(** The first worker claims the task of the reports and takes the authority. *)
Definition delivering : list op := told ++ [OClaim (second 20) 1 30; OAcquire (second 20) 1 2].
(** Another worker takes the task over. *)
Definition taken_over : list op := delivering ++ [OClaim (second 60) 1 30].
Definition state_example (l : list op) : db := runs uuid_example l (start Outbox.empty_db).
Definition task_example (l : list op) (id : Z) : Task.t :=
  default (new_task 0 0 CallbackEvent.message_report 0 None [] [] [] 0 0) (tasks (state_example l) !! id).
Definition meanwhile : list op :=
  [OUpdate (second 22) 1 (Some (tx "https://other.example/cb")) true true; OHeartbeat (second 30) 1 2 30;
   ORotate (second 31) 1 [0; 1; 8]; OClaim (second 31) 1 30].

Lemma callback_authority_witness :
  exists cfg, apps (runs uuid_example meanwhile (transaction (confirm_authority (second 21) 1 2) (state_example delivering)).2)
                !! Task.app_id (task_example delivering 1) = Some cfg
              /\ matches cfg (task_example delivering 1) = true.
Proof.
  refine (callback_authority uuid_example Outbox.empty_db delivering (second 21) 1 2 (task_example delivering 1) _ meanwhile _ _ _).
  - vm_compute. reflexivity.
  - vm_compute. reflexivity.
  - repeat constructor; unfold within; vm_compute; congruence.
Defined.

Lemma taken_over_example : lease_over 1 2 (runs uuid_example taken_over (start Outbox.empty_db)).
Proof.
  split; [vm_compute; reflexivity|]. intros t E. replace t with (task_example taken_over 1); [vm_compute; congruence|].
  unfold task_example, state_example. by rewrite E.
Qed.

Lemma callback_fencing_witness :
  let s := runs uuid_example [] (runs uuid_example taken_over (start Outbox.empty_db)) in
  mark_done (second 61) 1 2 200 s = (Raise CallbackLeaseLost, add_lease_event (LeaseEvent 1 (tx "fencing_miss") (Some 2)) s).
Proof. exact (proj1 (callback_fencing uuid_example Outbox.empty_db taken_over [] 1 2 (second 61) taken_over_example) 200). Defined.

Definition later : list op := [OClaim (second 20) 1 30; OAcquire (second 20) 1 2; OClaim (second 60) 1 30; OCleanupFact (tx "k2") true].
Lemma report_told_once_witness :
  at_place (runs uuid_example later (runs uuid_example told (start Outbox.empty_db))) 1 1 (72, 3, tx "k2").
Proof.
  destruct (report_told_once uuid_example Outbox.empty_db told later) as (_ & _ & H). apply H.
  - exists (task_example told 1). split; vm_compute; reflexivity.
  - exists (task_example taken_over 1). vm_compute. reflexivity.
Defined.

Definition corrected : list op := [OBatch 5 (FinishedBatch.mk 1 (tx "B1") None (tx "notice") FinishedBatch.completed 2 2 0 0)].
Definition summary_example : Snapshot.t := Snapshot.mk 5 None None (Some batch_example) (second 12).
Lemma summary_frozen_witness :
  snapshots (runs uuid_example corrected (runs uuid_example told (start Outbox.empty_db))) !! 2 = Some summary_example.
Proof.
  destruct (summary_frozen uuid_example Outbox.empty_db told corrected) as [H _].
  destruct (H 2 (task_example told 2) summary_example) as [_ F].
  - split_and!; vm_compute; reflexivity.
  - destruct (F (task_example told 2)) as [S _]; [vm_compute; reflexivity|exact S].
Defined.

Lemma manual_retry_agrees_witness :
  transaction (manual_retry 1) (state_example told) = (Raise (CallbackRetryConflict (tx "not_dead")), state_example told).
Proof.
  pose proof (manual_retry_agrees 1 (task_example told 1) app_example (state_example told)) as H.
  replace (retry_block_reason 1 (task_example told 1) app_example (state_example told)) with (Some (tx "not_dead")) in H
    by (vm_compute; reflexivity).
  apply H; vm_compute; reflexivity.
Defined.
End CallbackSafety.
