(* ===== verification/CallbackDelivery.v ===== *)
(** * Delivery of a callback ([services/callback.py])

    The body of a callback, its signature and the sequence of calls around the
    one request that is sent, as a program over the repository, the address
    validator, the clock and the transport.  The transport is a program of its
    own: it tries the approved addresses one after the other within one
    deadline. *)

From S2P Require Import Prelude PyText Utf8 Redis PyTime Effects Crypto CryptoSafety.

Module CallbackBody.
Import Crypto.

Record CallbackTaskRef := mkRef {
  task_id : Z;
  event_id : text;
  app_name : text;
  event : text;
  url : text;
  callback_secret_enc : bytes;
  callback_secret_key_version : Z;
  signature_version : Z;
  correlation_id : option text
}.
Record BatchFinishedData := mkFinished {
  fd_batch_no : text;
  fd_biz_id : option text;
  fd_category : text;
  fd_status : text;
  fd_total : Z;
  fd_delivered : Z;
  fd_failed : Z;
  fd_unknown : Z;
  fd_finished_at : Z;
  fd_unknown_count : option Z;
  fd_manual_resolution_required : bool
}.
Record CallbackMessage := mkMessage {
  cm_phone_enc : bytes;
  cm_phone_hmac : text;
  cm_key_version : Z;
  cm_status : text;
  cm_report_desc : text;
  cm_report_time : Z
}.
Record MessageReportData := mkReport { mr_batch_no : text; mr_biz_id : option text; mr_items : list CallbackMessage }.
Record CallbackMaterial := mkMaterial {
  task : CallbackTaskRef;
  batch : option BatchFinishedData;
  message_report : option MessageReportData
}.

(** The values of a body. *)
Inductive value :=
| VNull | VBool (b : bool) | VInt (n : Z) | VText (s : text)
| VList (l : list value) | VDict (items : list (text * value)).

(** The order of strings, and the keys of an object in that order. *)
Fixpoint text_leb (a b : text) : bool :=
  match a, b with
  | [], _ => true
  | _ :: _, [] => false
  | x :: a, y :: b => if x =? y then text_leb a b else x <? y
  end.
Fixpoint insert_key {A} (p : text * A) (l : list (text * A)) : list (text * A) :=
  match l with
  | [] => [p]
  | q :: r => if text_leb p.1 q.1 then p :: l else q :: insert_key p r
  end.
Definition sort_keys {A} (l : list (text * A)) : list (text * A) := foldr insert_key [] l.

Fixpoint separated (sep : text) (l : list text) : text :=
  match l with
  | [] => []
  | [x] => x
  | x :: r => x ++ sep ++ separated sep r
  end.

(** [json.dumps(body, ensure_ascii=False, separators=(",", ":"), sort_keys=True)] *)
Fixpoint dumps (v : value) : text :=
  match v with
  | VNull => tx "null"
  | VBool b => if b then tx "true" else tx "false"
  | VInt n => str_int n
  | VText s => json_string s
  | VList l => tx "[" ++ separated (tx ",") (dumps <$> l) ++ tx "]"
  | VDict items =>
      tx "{" ++ separated (tx ",") ((fun p => json_string p.1 ++ tx ":" ++ p.2) <$> sort_keys ((fun p => (p.1, dumps p.2)) <$> items))
      ++ tx "}"
  end.

(** [t.isoformat()] of a time in UTC, as the driver returns it. *)
Definition isoformat (t : Z) : text :=
  let '(y, m, d) := PyTime.civil (t / PyTime.DAY) in
  let s := t mod PyTime.DAY / PyTime.SECOND in
  PyTime.zfill 4 y ++ tx "-" ++ PyTime.zfill 2 m ++ tx "-" ++ PyTime.zfill 2 d ++ tx "T" ++ PyTime.zfill 2 (s / 3600) ++ tx ":"
  ++ PyTime.zfill 2 (s / 60 mod 60) ++ tx ":" ++ PyTime.zfill 2 (s mod 60)
  ++ (if t mod PyTime.SECOND =? 0 then [] else tx "." ++ PyTime.zfill 6 (t mod PyTime.SECOND)) ++ tx "+00:00".

Definition optional (s : option text) : value := match s with Some s => VText s | None => VNull end.

Section crypto.
Context `{Ciphers} (crypto : CryptoService).

Definition item_body (m : CallbackMessage) : result exc value :=
  phone ← decrypt_phone crypto (cm_phone_enc m) (cm_key_version m) (cm_phone_hmac m) (tx "sms_message") (tx "phone_enc") false;
  Ok (VDict [(tx "phone", VText phone); (tx "status", VText (cm_status m)); (tx "report_desc", VText (cm_report_desc m));
             (tx "report_time", VText (isoformat (cm_report_time m)))]).
Fixpoint each_item (l : list CallbackMessage) : result exc (list value) :=
  match l with
  | [] => Ok []
  | m :: r => v ← item_body m; vs ← each_item r; Ok (v :: vs)
  end.

Definition finished_body (r : CallbackTaskRef) (b : BatchFinishedData) : value :=
  VDict [(tx "event_id", VText (event_id r)); (tx "event", VText (tx "batch.finished")); (tx "batch_no", VText (fd_batch_no b));
         (tx "biz_id", optional (fd_biz_id b)); (tx "category", VText (fd_category b)); (tx "status", VText (fd_status b));
         (tx "total", VInt (fd_total b)); (tx "delivered", VInt (fd_delivered b)); (tx "failed", VInt (fd_failed b));
         (tx "unknown", VInt (fd_unknown b)); (tx "unknown_count", VInt (default (fd_unknown b) (fd_unknown_count b)));
         (tx "manual_resolution_required",
            VBool (fd_manual_resolution_required b || teqb (fd_status b) (tx "completed_unknown")));
         (tx "finished_at", VText (isoformat (fd_finished_at b)))].

(** [CallbackDelivery._body] *)
Definition _body (m : CallbackMaterial) : result exc value :=
  let r := task m in
  match (if teqb (event r) (tx "batch.finished") then batch m else None) with
  | Some b => Ok (finished_body r b)
  | None =>
      match (if teqb (event r) (tx "message.report") then message_report m else None) with
      | Some d =>
          items ← each_item (mr_items d);
          Ok (VDict [(tx "event_id", VText (event_id r)); (tx "event", VText (tx "message.report"));
                     (tx "batch_no", VText (mr_batch_no d)); (tx "biz_id", optional (mr_biz_id d)); (tx "items", VList items)])
      | None => Raise (ValueError "callback material does not match event")
      end
  end.
End crypto.
End CallbackBody.

Module CallbackDelivery.
Import Crypto CallbackBody.

(** An exception: its class, the SQLSTATE of the driver's error behind it and
    its own, and whether [except Exception] catches it. *)
Record error := mkError { cls : text; orig_sqlstate : option text; sqlstate : option text; is_exception : bool }.
Definition of_exc (e : exc) : error := let 'Exc c _ := e in mkError c None None true.

Definition upper (s : text) : text := (fun c => if ascii_lower c then c - 32 else c) <$> s.
(** [_safe_failure_kind] *)
Definition _safe_failure_kind (e : error) : text :=
  match (match orig_sqlstate e with Some ((_ :: _) as s) => Some s | _ => sqlstate e end) with
  | Some s =>
      if (len s =? 5) && forallb (fun c => ascii_lower c || ascii_upper c || ascii_digit c) s
      then cls e ++ tx "_" ++ upper s else cls e
  | None => cls e
  end.

(** What the validator of addresses approves. *)
Inductive target := Plain (url : text) | Approved (url hostname : text) (addresses : list text).
Definition target_url (t : target) : text := match t with Plain u | Approved u _ _ => u end.
Definition approved_ips (t : target) : list text := match t with Plain _ => [] | Approved _ _ a => a end.
Definition original_hostname (t : target) : option text := match t with Plain _ => None | Approved _ h _ => Some h end.

(** A time of the clock, in microseconds, and whether it has an offset. *)
Record moment := mkMoment { instant : Z; aware : bool }.

Record request := mkRequest {
  rq_url : text;
  rq_body : bytes;
  rq_headers : list (text * text);
  rq_follow_redirects : bool;
  rq_approved_ips : list text;
  rq_hostname : option text
}.
Record DeliveryOutcome := mkOutcome { success : bool; http_code : option Z; outcome_error : option text }.

Inductive call :=
| AcquireAuthority (task_id lease_id : Z)
| LoadMaterial (task_id lease_id : Z)
| ValidateForOutbound (url : text)
| ConfirmAuthority (task_id lease_id : Z)
| Clock
| Post (r : request)
| ReleaseAuthority (task_id lease_id : Z).
Definition answer (c : call) : Type :=
  match c with
  | AcquireAuthority _ _ | ConfirmAuthority _ _ => bool
  | LoadMaterial _ _ => option CallbackMaterial
  | ValidateForOutbound _ => target
  | Clock => moment
  | Post _ => Z
  | ReleaseAuthority _ _ => unit
  end.
Abbreviation program := (prog answer error).
Abbreviation trace := (list (Effects.entry answer error)).
(** A call with its answer. *)
Definition ev (c : call) (a : result error (answer c)) : Effects.entry answer error := existT c a.

Definition lift {A} (r : result exc A) : program A :=
  Ret (match r with Ok a => Ok a | Raise e => Raise (of_exc e) end).
Definition throw {A} (e : exc) : program A := raise (of_exc e).

Section delivery.
Context `{Ciphers} (crypto : CryptoService).

(** [json.dumps(body, ...).encode()] *)
Definition raw_body (m : CallbackMaterial) : result exc bytes := v ← _body crypto m; utf8_encode (dumps v).

Definition secret_context (m : CallbackMaterial) : EncryptionContext :=
  mkContext (tx "callback-secret") (tx "app") (tx "callback_secret_enc") (app_name (task m)).

(** [str(int(moment.timestamp()))]; exact as long as the float has the
    microseconds. *)
Definition timestamp (t : moment) : text := str_int (instant t ÷ 1000000).

(** From the time of the clock to the request. *)
Definition signed_request (m : CallbackMaterial) (t : target) (raw : bytes) (now : moment) : result exc request :=
  let r := task m in
  _ ← require (aware now) (ValueError "callback clock must include timezone");
  _ ← require (int_of_bytes (take 2 (callback_secret_enc r)) =? callback_secret_key_version r)
        (ValueError "callback secret version mismatch");
  secret ← decrypt_bound_packed_text crypto (callback_secret_enc r) (secret_context m) false;
  _ ← require (signature_version r =? 1) (ValueError "unsupported callback signature version");
  key ← utf8_encode secret;
  Ok (mkRequest (target_url t) raw
        [(tx "Content-Type", tx "application/json; charset=utf-8");
         (tx "X-Sms-Event-Id", event_id r);
         (tx "X-Sms-Correlation-Id", default (event_id r) (correlation_id r));
         (tx "X-Sms-Timestamp", timestamp now);
         (tx "X-Sms-Signature", hmac_sha256 key (timestamp now ++ tx "." ++ raw));
         (tx "X-Sms-Signature-Version", str_int (signature_version r));
         (tx "X-Sms-Secret-Version", str_int (callback_secret_key_version r))]
        false (approved_ips t) (original_hostname t)).

(** What is done under the authority. *)
Definition authorized_delivery (task_id lease_id : Z) : program DeliveryOutcome :=
  found ← perform (LoadMaterial task_id lease_id);
  match found : option CallbackMaterial with
  | None => throw (LookupError "callback task unavailable")
  | Some m =>
      approved ← perform (ValidateForOutbound (url (task m)));
      confirmed ← perform (ConfirmAuthority task_id lease_id);
      if (confirmed : bool) then
        raw ← lift (raw_body m);
        now ← perform Clock;
        r ← lift (signed_request m approved raw now);
        status ← perform (Post r);
        mret (mkOutcome ((200 <=? status) && (status <? 300)) (Some status) None)
      else throw (LookupError "callback authority changed before delivery")
  end.

Definition on_error (e : error) : program DeliveryOutcome :=
  if is_exception e then mret (mkOutcome false None (Some (_safe_failure_kind e))) else raise e.
Definition swallow (e : error) : program unit := if is_exception e then mret tt else raise e.

(** [CallbackDelivery.deliver]; the first call decides what [finally] does. *)
Definition under (task_id lease_id : Z) (acquired : bool) : program DeliveryOutcome :=
  if acquired then authorized_delivery task_id lease_id else throw (LookupError "callback authority unavailable").
Definition give_back (task_id lease_id : Z) (acquired : result error bool) : program unit :=
  match acquired with
  | Ok true => catch (perform (ReleaseAuthority task_id lease_id)) swallow
  | _ => mret tt
  end.
Definition deliver (task_id lease_id : Z) : program DeliveryOutcome :=
  attempt (perform (AcquireAuthority task_id lease_id)) (fun acquired : result error bool =>
    finally (catch (a ← Ret acquired; under task_id lease_id a) on_error) (give_back task_id lease_id acquired)).

(** ** What a run of it does *)

(** The calls before the request, with their answers. *)
Definition preparation (task_id lease_id : Z) (m : CallbackMaterial) (t : target) (now : moment) : trace :=
  [ev (AcquireAuthority task_id lease_id) (Ok true);
   ev (LoadMaterial task_id lease_id) (Ok (Some m));
   ev (ValidateForOutbound (url (task m))) (Ok t);
   ev (ConfirmAuthority task_id lease_id) (Ok true);
   ev Clock (Ok now)].

Definition is_post (c : call) : bool := match c with Post _ => true | _ => false end.
Definition is_release (c : call) : bool := match c with ReleaseAuthority _ _ => true | _ => false end.

(** A run of the part under the authority: without a request it does not
    succeed; with one, the calls before it are those of [preparation]. *)
Definition unsent (tr : trace) (out : result error DeliveryOutcome) : Prop :=
  Forall (fun x => is_post (projT1 x) = false /\ is_release (projT1 x) = false) tr /\ exists e, out = Raise e.
Definition sent (task_id lease_id : Z) (tr : trace) (out : result error DeliveryOutcome) : Prop :=
  exists m t now raw r a,
    ev (AcquireAuthority task_id lease_id) (Ok true) :: tr = preparation task_id lease_id m t now ++ [ev (Post r) a]
    /\ raw_body m = Ok raw /\ signed_request m t raw now = Ok r
    /\ out = match a with
             | Ok status => Ok (mkOutcome ((200 <=? status) && (status <? 300)) (Some status) None)
             | Raise e => Raise e
             end.

Context (w : Effects.world answer error).

(** [Q] holds of the trace and the result of [p] after [h]. *)
Definition leads {A} (h : trace) (p : program A) (Q : trace -> result error A -> Prop) : Prop :=
  Q (fst (exec w h p)) (snd (exec w h p)).

Lemma leads_call {A} c (k : answer c -> program A) h Q :
  (forall a, leads (h ++ [ev c (Ok a)]) (k a) Q) -> (forall e, Q (h ++ [ev c (Raise e)]) (Raise e)) ->
  leads h (perform c ≫= k) Q.
Proof.
  intros K E. unfold leads. rewrite exec_bind, exec_perform. destruct (w h c) as [a|e]; [apply K|apply E].
Qed.
Lemma leads_lift {A B} (r : result exc A) (k : A -> program B) h Q :
  (forall a, r = Ok a -> leads h (k a) Q) -> (forall e, Q h (Raise e)) -> leads h (lift r ≫= k) Q.
Proof. intros K E. unfold leads. destruct r as [a|e]; [by apply K|apply E]. Qed.

Definition after (h : trace) (task_id lease_id : Z) (h' : trace) (out : result error DeliveryOutcome) : Prop :=
  exists tr, h' = h ++ tr /\ (unsent tr out \/ sent task_id lease_id tr out).
Lemma after_unsent h task_id lease_id tr e :
  Forall (fun x => is_post (projT1 x) = false /\ is_release (projT1 x) = false) tr -> after h task_id lease_id (h ++ tr) (Raise e).
Proof. intros F. exists tr. split; [done|]. left. split; [done|eauto]. Qed.
Ltac nothing_sent := rewrite <- ?app_assoc; apply after_unsent; by repeat constructor.

Lemma authorized_delivery_run task_id lease_id h : leads h (authorized_delivery task_id lease_id) (after h task_id lease_id).
Proof.
  apply leads_call; [|intros e; nothing_sent]. intros [m|]; [|unfold leads; nothing_sent].
  apply leads_call; [|intros e; nothing_sent]. intros t.
  apply leads_call; [|intros e; nothing_sent]. intros []; [|unfold leads; nothing_sent].
  apply leads_lift; [|intros e; nothing_sent]. intros raw R.
  apply leads_call; [|intros e; nothing_sent]. intros now.
  apply leads_lift; [|intros e; nothing_sent]. intros r S.
  apply leads_call; [intros status|intros e]; unfold leads; rewrite <- !app_assoc.
  all: eexists; split; [done|]; right; exists m, t, now, raw, r; eexists; by repeat split.
Qed.

(** What the handlers make of a result, and of that of the release. *)
Definition caught (out : result error DeliveryOutcome) : result error DeliveryOutcome :=
  match out with
  | Ok o => Ok o
  | Raise e => if is_exception e then Ok (mkOutcome false None (Some (_safe_failure_kind e))) else Raise e
  end.
Definition finished (b : result error unit) (out : result error DeliveryOutcome) : result error DeliveryOutcome :=
  match b with
  | Ok _ => caught out
  | Raise e => if is_exception e then caught out else Raise e
  end.

Lemma exec_caught p h : exec w h (catch p on_error) = (fst (exec w h p), caught (snd (exec w h p))).
Proof.
  rewrite exec_catch. destruct (exec w h p) as [h' [o|e]]; [done|]. cbn. unfold on_error. by destruct (is_exception e).
Qed.

Lemma exec_given_back task_id lease_id h :
  exec w h (give_back task_id lease_id (Ok true)) =
  let b := w h (ReleaseAuthority task_id lease_id) in
  (h ++ [ev (ReleaseAuthority task_id lease_id) b],
   match b with Ok u => Ok u | Raise e => if is_exception e then Ok tt else Raise e end).
Proof.
  unfold give_back. rewrite exec_catch. change (exec w h (perform _)) with
    (h ++ [ev (ReleaseAuthority task_id lease_id) (w h (ReleaseAuthority task_id lease_id))] : trace,
     w h (ReleaseAuthority task_id lease_id)).
  cbv zeta. destruct (w h _) as [[]|e]; [done|].
  unfold swallow. by destruct (is_exception e).
Qed.

Lemma exec_deliver task_id lease_id :
  exec w [] (deliver task_id lease_id) =
  let a := w [] (AcquireAuthority task_id lease_id) in
  let h := [ev (AcquireAuthority task_id lease_id) a] in
  let x := exec w h (o ← Ret a; under task_id lease_id o) in
  match exec w (fst x) (give_back task_id lease_id a) with
  | (h', Ok _) => (h', caught (snd x))
  | (h', Raise e) => (h', Raise e)
  end.
Proof.
  unfold deliver. rewrite exec_attempt. cbv zeta. change (exec w [] (perform _)) with
    ([ev (AcquireAuthority task_id lease_id) (w [] (AcquireAuthority task_id lease_id))] : trace,
     w [] (AcquireAuthority task_id lease_id)).
  cbn [fst snd app]. rewrite exec_finally, exec_caught. done.
Qed.

Lemma deliver_run task_id lease_id :
  (exists a, a <> Ok true /\ exec w [] (deliver task_id lease_id) =
     ([ev (AcquireAuthority task_id lease_id) a],
      caught (match a with Ok _ => Raise (of_exc (LookupError "callback authority unavailable")) | Raise e => Raise e end)))
  \/ (exists tr out b, (unsent tr out \/ sent task_id lease_id tr out) /\ exec w [] (deliver task_id lease_id) =
       (ev (AcquireAuthority task_id lease_id) (Ok true) :: tr ++ [ev (ReleaseAuthority task_id lease_id) b], finished b out)).
Proof.
  rewrite exec_deliver. cbv zeta. destruct (w [] (AcquireAuthority task_id lease_id)) as [[]|e].
  - right. set (h := [ev (AcquireAuthority task_id lease_id) (Ok true)] : trace).
    destruct (authorized_delivery_run task_id lease_id h) as (tr & E & C).
    exists tr, (snd (exec w h (authorized_delivery task_id lease_id))), (w (h ++ tr) (ReleaseAuthority task_id lease_id)). split; [done|].
    change (match exec w (fst (exec w h (authorized_delivery task_id lease_id))) (give_back task_id lease_id (Ok true)) with
            | (h', Ok _) => (h', caught (snd (exec w h (authorized_delivery task_id lease_id))))
            | (h', Raise e) => (h', Raise e)
            end = (h ++ tr ++ [ev (ReleaseAuthority task_id lease_id) (w (h ++ tr) (ReleaseAuthority task_id lease_id))],
                   finished (w (h ++ tr) (ReleaseAuthority task_id lease_id)) (snd (exec w h (authorized_delivery task_id lease_id))))).
    rewrite app_assoc, E, exec_given_back. cbv zeta. destruct (w (h ++ tr) _) as [[]|e]; [done|]. cbn. by destruct (is_exception e).
  - left. by exists (Ok false).
  - left. by exists (Raise e).
Qed.

Lemma caught_exception out e : caught out = Raise e -> is_exception e = false.
Proof. destruct out as [o|e']; [done|]. cbn. destruct (is_exception e') eqn:X; [done|]. by intros [= <-]. Qed.

(** An element that is the only one of its kind in a list is found at one place. *)
Lemma split_unique {A} (P : A -> bool) l x l' pre y post :
  Forall (fun z => P z = false) l -> Forall (fun z => P z = false) l' -> P x = true -> P y = true ->
  l ++ x :: l' = pre ++ y :: post -> pre = l /\ y = x /\ post = l'.
Proof.
  intros F F' X Y. revert pre. induction F as [|z l Z F IH]; intros [|p pre]; cbn; intros [= E1 E2]; subst.
  - done.
  - exfalso. rewrite Forall_forall in F'. rewrite (F' y) in Y; [done|]. apply elem_of_app. right. left.
  - congruence.
  - destruct (IH pre E2) as (-> & -> & ->). done.
Qed.

Definition post_entry (x : Effects.entry answer error) : bool := is_post (projT1 x).
Definition given (x : Effects.entry answer error) : bool :=
  match x with existT (AcquireAuthority _ _) (Ok true) => true | _ => false end.
Definition entry_request (x : Effects.entry answer error) : option request :=
  match projT1 x with Post r => Some r | _ => None end.

Lemma unsent_posts tr out : unsent tr out -> Forall (fun x => post_entry x = false) tr.
Proof. intros [F _]. eapply Forall_impl; [exact F|]. by intros x []. Qed.

Lemma sent_request task_id lease_id tr out b pre r a post :
  sent task_id lease_id tr out ->
  ev (AcquireAuthority task_id lease_id) (Ok true) :: tr ++ [ev (ReleaseAuthority task_id lease_id) b]
    = pre ++ ev (Post r) a :: post ->
  exists m t now raw, pre = preparation task_id lease_id m t now /\ raw_body m = Ok raw /\ signed_request m t raw now = Ok r
    /\ post = [ev (ReleaseAuthority task_id lease_id) b].
Proof.
  intros (m & t & now & raw & r' & a' & E & R & S & _) X. rewrite app_comm_cons, E, <- app_assoc in X. cbn [app] in X.
  apply (split_unique post_entry (preparation task_id lease_id m t now)) in X as (-> & X & ->); [|by repeat constructor..].
  apply (f_equal entry_request) in X. cbn in X. injection X as ->. exists m, t, now, raw. done.
Qed.

Lemma sent_success task_id lease_id tr out b o :
  sent task_id lease_id tr out -> finished b out = Ok o -> success o = true ->
  exists r status, ev (Post r) (Ok status) ∈ ev (AcquireAuthority task_id lease_id) (Ok true) :: tr
    /\ http_code o = Some status /\ 200 <= status < 300.
Proof.
  intros (m & t & now & raw & r & a & E & _ & _ & ->) X Y. rewrite E. exists r.
  assert (C : caught (match a with
                      | Ok status => Ok (mkOutcome ((200 <=? status) && (status <? 300)) (Some status) None)
                      | Raise e => Raise e
                      end) = Ok o) by (destruct b as [|e]; [done|]; cbn in X; by destruct (is_exception e)).
  destruct a as [status|e]; cbn in C; [|destruct (is_exception e); [|done]; injection C as <-; done].
  injection C as <-. cbn in Y. apply andb_prop in Y as [Y1%Z.leb_le Y2%Z.ltb_lt].
  exists status. split; [|done]. apply elem_of_app. right. left.
Qed.

(** A callback is sent only under a confirmed authority.  In every run,
    whatever the repository, the validator, the clock and the transport answer, a
    request is preceded by the authority of this lease, the material of the task, the
    approval of its address, and the confirmation of the authority, in this order
    and with nothing after the confirmation but the clock; the request is the signed
    body of that material for the approved address; nothing but the release of the
    authority follows it.  The authority is released at the end exactly when it
    was given, a success is an answer between 200 and 299 to that request, and
    the only exceptions that leave are those no handler for exceptions catches. *)
Theorem delivery_guarded task_id lease_id :
  let (tr, out) := exec w [] (deliver task_id lease_id) in
  (forall pre r a post, tr = pre ++ ev (Post r) a :: post ->
     exists m t now raw b, pre = preparation task_id lease_id m t now /\ raw_body m = Ok raw
       /\ signed_request m t raw now = Ok r /\ post = [ev (ReleaseAuthority task_id lease_id) b])
  /\ (ev (AcquireAuthority task_id lease_id) (Ok true) ∈ tr <->
        exists b, last tr = Some (ev (ReleaseAuthority task_id lease_id) b))
  /\ (forall o, out = Ok o -> success o = true ->
        exists r status, ev (Post r) (Ok status) ∈ tr /\ http_code o = Some status /\ 200 <= status < 300)
  /\ (forall e, out = Raise e -> is_exception e = false).
Proof.
  destruct (deliver_run task_id lease_id) as [(a & N & E)|(tr & out & b & C & E)]; rewrite E; clear E.
  - split_and!.
    + intros [|x [|]] r a' post; discriminate.
    + split; [|intros [b [=]]]. intros [X|X]%elem_of_cons; [|by apply elem_of_nil in X].
      apply (f_equal given) in X. cbn in X. by destruct a as [[]|].
    + intros o X Y. exfalso. destruct a as [[]|e]; cbn in X; try destruct (is_exception e); naive_solver.
    + intros e. apply caught_exception.
  - split_and!.
    + intros pre r a post X. destruct C as [C|C]; [|destruct (sent_request _ _ _ _ _ _ _ _ _ C X) as (m & t & now & raw & P); naive_solver].
      exfalso. assert (F : Forall (fun x => post_entry x = false)
        (ev (AcquireAuthority task_id lease_id) (Ok true) :: tr ++ [ev (ReleaseAuthority task_id lease_id) b])).
      { constructor; [done|]. apply Forall_app. split; [by eapply unsent_posts|by repeat constructor]. }
      rewrite X in F. apply Forall_app in F as [_ F]. by inversion F.
    + split; [intros _; exists b; rewrite app_comm_cons; apply last_snoc|intros _; left].
    + intros o X Y. destruct C as [[_ [e ->]]|C].
      * exfalso. destruct b as [|e']; cbn in X; [destruct (is_exception e)|destruct (is_exception e'), (is_exception e)]; naive_solver.
      * destruct (sent_success _ _ _ _ _ _ C X Y) as (r & status & Hin & H1 & H2). exists r, status. split; [|done].
        rewrite app_comm_cons. apply elem_of_app. by left.
    + intros e. destruct b as [|e']; cbn; [apply caught_exception|].
      destruct (is_exception e') eqn:X; [apply caught_exception|by intros [= <-]].
Qed.
End delivery.
End CallbackDelivery.

(** ** The transport *)

Module CallbackTransport.
Import CallbackDelivery.

(** A connection attempt: the address, or [None] for the name of the URL, the
    time left and the number of addresses it is divided by for connecting. *)
Record sending := mkSending { sd_ip : option text; sd_remaining : Z; sd_addresses : nat }.
Inductive call := Now | Send (s : sending).
Definition answer (c : call) : Type := Z.
Abbreviation program := (prog answer error).
Definition ev (c : call) (a : result error Z) : Effects.entry answer error := existT c a.

Definition ConnectTimeout : error := mkError (tx "ConnectTimeout") None None true.
Definition AssertionError : error := mkError (tx "AssertionError") None None true.
(** [except (httpx.ConnectError, httpx.ConnectTimeout)] *)
Definition connect_error (e : error) : bool := tmem (cls e) [tx "ConnectError"; tx "ConnectTimeout"].

Fixpoint try_each (targets : list (option text)) (deadline : Z) (last_connect_error : option error) : program Z :=
  match targets with
  | [] => raise (default AssertionError last_connect_error)
  | ip :: rest =>
      now ← perform Now;
      let remaining := deadline - now in
      if remaining <=? 0 then raise (default ConnectTimeout last_connect_error) else
      catch (perform (Send (mkSending ip remaining (length targets))))
        (fun e => if connect_error e then try_each rest deadline (Some e) else raise e)
  end.

(** [HttpxCallbackTransport.post] *)
Definition targets (approved_ips : list text) : list (option text) :=
  match approved_ips with [] => [None] | _ => Some <$> approved_ips end.
Definition post (timeout : Z) (r : request) : program Z :=
  now ← perform Now;
  if rq_follow_redirects r then raise (of_exc (ValueError "callback redirects are forbidden")) else
  try_each (targets (rq_approved_ips r)) (now + timeout) None.

(** The sendings of a trace, with their answers. *)
Definition sending_of (x : Effects.entry answer error) : option (sending * result error Z) :=
  match projT1 x with Send s => Some (s, projT2 x) | Now => None end.
Definition sendings (tr : list (Effects.entry answer error)) : list (sending * result error Z) := omap sending_of tr.
Definition refused (a : result error Z) : bool := match a with Raise e => connect_error e | Ok _ => false end.

(** ** The bounds of an answer *)

(** An answer: its status, its headers, the values [response.headers.get] has of
    two of them, and the pieces of its body. *)
Record response := mkResponse {
  status_code : Z;
  header_items : list (text * text);
  content_encoding : text;
  content_length : option text;
  chunks : list bytes
}.
(** [len(s.encode("ascii", "ignore"))] and [len(s.encode("latin-1", "ignore"))] *)
Definition encodable (limit : Z) (s : text) : Z := len (List.filter (fun c => c <? limit) s).
Definition header_bytes (l : list (text * text)) : Z :=
  foldr (fun p n => encodable 128 p.1 + encodable 256 p.2 + 4 + n) 0 l.

Fixpoint read_body (limit received : Z) (l : list bytes) : result exc unit :=
  match l with
  | [] => Ok tt
  | c :: r =>
      let received := received + len c in
      if limit <? received then Raise (ValueError "callback response body exceeds limit") else read_body limit received r
  end.

(** [HttpxCallbackTransport._bounded_status] *)
Definition declared_ok (max_body : Z) (declared : option text) : result exc unit :=
  match declared with
  | None => Ok tt
  | Some s =>
      match py_int s with
      | None => Raise (ValueError "callback response content-length is invalid")
      | Some n =>
          _ ← refuse (n <? 0) (ValueError "callback response content-length is invalid");
          refuse (max_body <? n) (ValueError "callback response body exceeds limit")
      end
  end.
Definition _bounded_status (casefold : text -> text) (max_header max_body : Z) (r : response) : result exc Z :=
  _ ← refuse (max_header <? header_bytes (header_items r)) (ValueError "callback response headers exceed limit");
  _ ← require (tmem (casefold (strip (content_encoding r))) [[]; tx "identity"])
        (ValueError "callback response content-encoding is forbidden");
  _ ← declared_ok max_body (content_length r);
  _ ← read_body max_body 0 (chunks r);
  Ok (status_code r).

Definition body_bytes (l : list bytes) : Z := foldr (fun c n => len c + n) 0 l.

Lemma body_bytes_nonneg l : 0 <= body_bytes l.
Proof. induction l as [|c l IH]; [done|]. change (0 <= len c + body_bytes l). unfold len. lia. Qed.
Lemma read_body_ok limit received l : received <= limit -> read_body limit received l = Ok tt <-> received + body_bytes l <= limit.
Proof.
  revert received. induction l as [|c l IH]; intros received R; [cbn; split; [lia|done]|].
  pose proof (body_bytes_nonneg l). change (body_bytes (c :: l)) with (len c + body_bytes l). cbn [read_body].
  destruct (limit <? received + len c) eqn:X; [apply Z.ltb_lt in X; split; [done|lia]|].
  apply Z.ltb_ge in X. rewrite IH by done. lia.
Qed.

(** An answer counts exactly when it is small and plain: its status is read if
    and only if the headers and the whole body are within their limits, the
    body is not encoded, and a length it declares is a number within the limit; no
    other part of the answer is used. *)
Theorem bounded_status_exact casefold max_header max_body r status : 0 <= max_body ->
  _bounded_status casefold max_header max_body r = Ok status <->
  status = status_code r /\ header_bytes (header_items r) <= max_header /\ casefold (strip (content_encoding r)) ∈ [[]; tx "identity"]
  /\ (forall s, content_length r = Some s -> exists n, py_int s = Some n /\ 0 <= n <= max_body)
  /\ body_bytes (chunks r) <= max_body.
Proof.
  intros B. unfold _bounded_status.
  destruct (Z.ltb_spec max_header (header_bytes (header_items r))) as [X|X]; [split; [done|lia]|]. cbn [refuse].
  unfold tmem, require. case_bool_decide as I; [|split; [done|naive_solver]]. cbn.
  assert (D : declared_ok max_body (content_length r) = Ok tt <->
              forall s, content_length r = Some s -> exists n, py_int s = Some n /\ 0 <= n <= max_body).
  { unfold declared_ok, refuse. destruct (content_length r) as [s|]; [|naive_solver].
    destruct (py_int s) as [n|] eqn:P; [|naive_solver]. destruct (Z.ltb_spec n 0), (Z.ltb_spec max_body n); cbn; naive_solver lia. }
  pose proof (read_body_ok max_body 0 (chunks r) B) as Rb.
  destruct (declared_ok max_body (content_length r)) as [[]|e]; [|cbn; naive_solver].
  destruct (read_body max_body 0 (chunks r)) as [[]|e]; cbn; naive_solver.
Qed.

Section world.
Context (w : Effects.world answer error).

(** [l] is a run over the addresses: every sending but the last was refused. *)
Definition one_after_the_other (tgts : list (option text)) (l : list (sending * result error Z)) : Prop :=
  ((fun p => sd_ip p.1) <$> l) `prefix_of` tgts
  /\ (forall i p q, l !! i = Some p -> l !! S i = Some q -> refused p.2 = true)
  /\ Forall (fun p => 0 < sd_remaining p.1) l.

Lemma one_more tgts ip s a l : sd_ip s = ip -> 0 < sd_remaining s -> refused a = true -> one_after_the_other tgts l ->
  one_after_the_other (ip :: tgts) ((s, a) :: l).
Proof.
  intros <- R A (P & N & F). split_and!; [by apply prefix_cons| |by constructor].
  intros [|i] p q; cbn; [intros [= <-] _; done|apply N].
Qed.
Lemma only_one tgts ip s a : sd_ip s = ip -> 0 < sd_remaining s -> one_after_the_other (ip :: tgts) [(s, a)].
Proof. intros <- R. split_and!; [apply prefix_cons, prefix_nil|by intros [|i] p q|by repeat constructor]. Qed.
Lemma none_sent tgts : one_after_the_other tgts [].
Proof. split_and!; [apply prefix_nil|by intros i p q|constructor]. Qed.

(** What is said of a run that starts after [h]. *)
Definition ran (h : list (Effects.entry answer error)) (tgts : list (option text)) (x : list (Effects.entry answer error) * result error Z) : Prop :=
  exists tr, x.1 = h ++ tr /\ one_after_the_other tgts (sendings tr)
    /\ (forall status, x.2 = Ok status -> exists s, last (sendings tr) = Some (s, Ok status)).

Lemma sendings_app l l' : sendings (l ++ l') = sendings l ++ sendings l'.
Proof. apply omap_app. Qed.

Lemma ran_later h tgts x e : sendings e = [] -> ran (h ++ e) tgts x -> ran h tgts x.
Proof.
  intros E (tr & X & O & L). exists (e ++ tr). rewrite sendings_app, E. cbn. by rewrite X, <- app_assoc.
Qed.
Lemma ran_refused h tgts x ip s e : sd_ip s = ip -> 0 < sd_remaining s -> connect_error e = true ->
  ran (h ++ [ev (Send s) (Raise e)]) tgts x -> ran h (ip :: tgts) x.
Proof.
  intros I R C (tr & X & O & L). exists (ev (Send s) (Raise e) :: tr). split; [by rewrite X, <- app_assoc|]. cbn.
  split; [by apply one_more|]. intros status Hs. destruct (L status Hs) as [s' Ls]. exists s'.
  change (last ((s, Raise e) :: sendings tr) = Some (s', Ok status)). by destruct (sendings tr).
Qed.

Lemma exec_call {A} c (k : answer c -> program A) h :
  exec w h (perform c ≫= k) =
  match w h c with Ok a => exec w (h ++ [ev c (Ok a)]) (k a) | Raise e => (h ++ [ev c (Raise e)], Raise e) end.
Proof. rewrite exec_bind, exec_perform. by destruct (w h c). Qed.
Lemma exec_caught_call c (k : error -> program (answer c)) h :
  exec w h (catch (perform c) k) =
  match w h c with Ok a => (h ++ [ev c (Ok a)], Ok a) | Raise e => exec w (h ++ [ev c (Raise e)]) (k e) end.
Proof. rewrite exec_catch, exec_perform. by destruct (w h c). Qed.

Lemma try_each_run deadline tgts : forall h le, ran h tgts (exec w h (try_each tgts deadline le)).
Proof.
  induction tgts as [|ip rest IH]; intros h le.
  - exists []. rewrite app_nil_r. split; [done|]. split; [apply none_sent|done].
  - cbn [try_each]. rewrite (exec_call Now). destruct (w h Now) as [now|e].
    2: { exists [ev Now (Raise e)]. split; [done|]. split; [apply none_sent|done]. }
    destruct (deadline - now <=? 0) eqn:D.
    { exists [ev Now (Ok now)]. split; [done|]. split; [apply none_sent|done]. }
    apply Z.leb_gt in D. apply (ran_later h _ _ [ev Now (Ok now)]); [done|].
    set (s := mkSending ip (deadline - now) (length (ip :: rest))).
    rewrite (exec_caught_call (Send s)). destruct (w _ (Send s)) as [status|e].
    + eexists. split; [done|]. split; [by apply only_one|]. cbn. intros st [= <-]. eauto.
    + destruct (connect_error e) eqn:C; [by eapply (ran_refused _ _ _ ip s)|].
      eexists. split; [done|]. split; [by apply only_one|done].
Qed.

(** The transport offers a callback to one server.  In every run the request
    goes to the approved addresses in their order, to the next one only when the
    connection to the one before was not made, each time with time left; a status
    is the answer of the last one asked, and a request that may be redirected is not
    sent at all. *)
Theorem post_offered_once timeout r :
  let (tr, out) := exec w [] (post timeout r) in
  one_after_the_other (targets (rq_approved_ips r)) (sendings tr)
  /\ (forall status, out = Ok status -> exists s, last (sendings tr) = Some (s, Ok status))
  /\ (rq_follow_redirects r = true -> sendings tr = []).
Proof.
  unfold post. rewrite (exec_call Now). destruct (w [] Now) as [now|e].
  2: { split; [apply none_sent|]. by split. }
  destruct (rq_follow_redirects r); [split; [apply none_sent|]; by split|].
  destruct (try_each_run (now + timeout) (targets (rq_approved_ips r)) ([] ++ [ev Now (Ok now)]) None) as (tr & X & O & L).
  destruct (exec w _ _) as [h out]. cbn in X, L. subst h. split; [exact O|]. split; [|done].
  intros status Hs. destruct (L status Hs) as [s Ls]. eauto.
Qed.
End world.
End CallbackTransport.

(** ** A finished batch, delivered *)

Module CallbackExample.
Import Crypto CryptoSafety CallbackBody CallbackDelivery.
#[local] Existing Instance sum_ciphers.

Definition context : EncryptionContext := mkContext (tx "callback-secret") (tx "app") (tx "callback_secret_enc") (tx "orders").
Definition secret_enc : bytes :=
  match encrypt_bound_packed_text first_service example_nonce (tx "s3cret") context with Ok b => b | Raise _ => [] end.
Definition example_material : CallbackMaterial :=
  mkMaterial
    (mkRef 7 (tx "11111111-1111-4111-8111-111111111111") (tx "orders") (tx "batch.finished") (tx "https://app.example/cb") secret_enc
       (int_of_bytes (take 2 secret_enc)) 1 None)
    (Some (mkFinished (tx "B1") None (tx "notice") (tx "completed") 2 1 1 0 1700000000000000 (Some 0) false)) None.

(** Everything is given; the server answers 204. *)
Definition willing : Effects.world answer error := fun h c =>
  match c return result error (answer c) with
  | AcquireAuthority _ _ | ConfirmAuthority _ _ => Ok true
  | LoadMaterial _ _ => Ok (Some example_material)
  | ValidateForOutbound u => Ok (Approved u (tx "app.example") [tx "10.0.0.5"])
  | Clock => Ok (mkMoment 1700000005000000 true)
  | Post _ => Ok 204
  | ReleaseAuthority _ _ => Ok tt
  end.

(** The outcome is a success, so that a request was sent and answered. *)
Lemma delivery_guarded_witness :
  exists r status, ev (Post r) (Ok status) ∈ fst (exec willing [] (deliver first_service 7 3)) /\ Some 204 = Some status /\ 200 <= status < 300.
Proof.
  pose proof (delivery_guarded first_service willing 7 3) as H.
  assert (E : snd (exec willing [] (deliver first_service 7 3)) = Ok (mkOutcome true (Some 204) None)) by (vm_compute; reflexivity).
  destruct (exec willing [] (deliver first_service 7 3)) as [tr out]. cbn [fst snd] in *.
  destruct H as (_ & _ & H & _). exact (H (mkOutcome true (Some 204) None) E eq_refl).
Defined.

Lemma bounded_status_exact_witness :
  CallbackTransport._bounded_status (fun t => t) 100 3
    (CallbackTransport.mkResponse 200 [(tx "Content-Length", tx "2")] [] (Some (tx "2")) [tx "o"; tx "k"]) = Ok 200.
Proof.
  apply (CallbackTransport.bounded_status_exact (fun t => t) 100 3); [done|]. cbn. split_and!; [done|by vm_compute|left| |done].
  intros s [= <-]. exists 2. by vm_compute.
Defined.
End CallbackExample.
