(* ===== verification/CallbackWorker.v ===== *)
(** * The callback worker ([services/callback_worker.py])

    One call of the worker claims a task, has it delivered once, and writes
    one of four results.  The race between the delivery and the loss of the lease
    is its answer: an outcome, or none when the lease was lost first.  The number
    of retries of a task never exceeds the schedule, and a task is given up only
    at its end. *)

From S2P Require Import Prelude PyText OutboxContract Outbox Effects Crypto Callbacks CallbackSafety CallbackDelivery.

Module CallbackWorker.
Import Callbacks CallbackSafety.
Import CallbackDelivery (DeliveryOutcome, mkOutcome, success, http_code, outcome_error).

Definition RETRY_DELAYS_S : list Z := [60; 300; 900; 3600; 3600].
Definition CALLBACK_LEASE_SECONDS : Z := 30.
Definition CALLBACK_AUTHORITY_BUSY_DELAY_S : Z := 1.

Section worker.
Context (uuid_text : Z -> text) (retry_delays_s : list Z).

(** The write that settles a claim, at the instant [now]. *)
Definition settle (now ambient : Z) (c : CallbackClaim) (o : DeliveryOutcome) : op :=
  match success o, http_code o with
  | true, Some code => ODone now (cl_task c) (cl_lease c) code
  | _, _ =>
      if bool_decide (outcome_error o = Some (tx "CallbackAuthorityBusy"))
      then OBusy now ambient (cl_task c) (cl_lease c) (cl_retry_count c) CALLBACK_AUTHORITY_BUSY_DELAY_S
      else match (if cl_retry_count c <? Z.of_nat (length retry_delays_s) then retry_delays_s !! Z.to_nat (cl_retry_count c) else None) with
           | Some delay => ORetry now ambient (cl_task c) (cl_lease c) (cl_retry_count c) delay (http_code o) (outcome_error o)
           | None => ODead now (cl_task c) (cl_lease c) (cl_retry_count c) (http_code o) (outcome_error o)
           end
  end.
(** A task that is given up is reported. *)
Definition alerts (o : op) : bool := match o with ODead _ _ _ _ _ _ => true | _ => false end.

(** [CallbackWorker._process_claim] and [process]: the number of tasks processed
    and whether [callback_dead] was reported.  [meanwhile] is what others do
    between the claim and the result. *)
Definition _process_claim (now ambient : Z) (c : CallbackClaim) (raced : option DeliveryOutcome) (s : db) : result exc (Z * bool) * db :=
  match raced with
  | None => (Raise (Exc (tx "CallbackLeaseLost") (tx "callback lease lost during delivery")), s)
  | Some o =>
      match call uuid_text (settle now ambient c o) s with
      | (Ok _, s') => (Ok (1, alerts (settle now ambient c o)), s')
      | (Raise e, s') => (Raise e, s')
      end
  end.
Definition process (claimed_at now ambient task_id : Z) (meanwhile : list op) (raced : CallbackClaim -> option DeliveryOutcome) (s : db)
    : result exc (Z * bool) * db :=
  match transaction (claim claimed_at task_id CALLBACK_LEASE_SECONDS) s with
  | (Raise e, s') => (Raise e, s')
  | (Ok None, s') => (Ok (0, false), s')
  | (Ok (Some c), s') => _process_claim now ambient c (raced c) (runs uuid_text meanwhile s')
  end.

(** ** Retries *)

Abbreviation scheduled := (Z.of_nat (length retry_delays_s)).

(** What holds of a task: the retries are within the schedule, and it is dead only
    after the last of them or because its configuration was revoked. *)
Definition within_schedule (t : Task.t) : Prop :=
  0 <= Task.retry_count t <= scheduled
  /\ (Task.status t = TaskStatus.dead -> Task.retry_count t = scheduled \/ Task.last_error t = Some CONFIG_REVOKED).
Definition all_within (s : db) : Prop := forall id t, tasks s !! id = Some t -> within_schedule t.

(** The results are written by workers; a migrated task is not dead. *)
Definition by_worker (o : op) : Prop :=
  match o with
  | ODone _ _ _ _ | OBusy _ _ _ _ _ _ | ORetry _ _ _ _ _ _ _ _ | ODead _ _ _ _ _ _ =>
      exists now ambient c out, 0 <= cl_retry_count c /\ o = settle now ambient c out
  | OLegacy t _ => 0 <= Task.retry_count t <= scheduled /\ Task.status t <> TaskStatus.dead
  | _ => True
  end.

Lemma settle_cases now ambient c o : 0 <= cl_retry_count c ->
  match settle now ambient c o with
  | ORetry _ _ _ _ n _ _ _ => n < scheduled
  | ODead _ _ _ n _ _ => scheduled <= n
  | _ => True
  end.
Proof.
  intros N. unfold settle. destruct (success o), (http_code o); try done; case_bool_decide; try done.
  all: destruct (Z.ltb_spec (cl_retry_count c) scheduled) as [L|L]; [|done].
  all: destruct (lookup_lt_is_Some_2 retry_delays_s (Z.to_nat (cl_retry_count c)) ltac:(lia)) as [d ->]; done.
Qed.

Lemma all_transaction {A} (m : tx_ A) s :
  (forall r s', m s = Ok (r, s') -> all_within s') -> all_within s -> all_within (transaction m s).2.
Proof. intros H K. unfold transaction. destruct (m s) as [[r s']|e] eqn:E; cbn; [by eapply H|done]. Qed.
Lemma all_same s s' : tasks s' = tasks s -> all_within s -> all_within s'.
Proof. intros E K id t. rewrite E. apply K. Qed.
Lemma all_insert s s' i t : tasks s' = <[i := t]> (tasks s) -> within_schedule t -> all_within s -> all_within s'.
Proof.
  intros E W K id x. rewrite E. destruct (decide (i = id)) as [<-|D].
  - rewrite lookup_insert_eq. by intros [= <-].
  - rewrite lookup_insert_ne by done. apply K.
Qed.

Lemma new_within e app ev b source refs url secret v now : within_schedule (new_task e app ev b source refs url secret v now).
Proof. split; cbn; [lia|done]. Qed.

Lemma all_inserted s s' e app ev b source refs url secret v now :
  inserted s s' (new_task e app ev b source refs url secret v now) -> all_within s -> all_within s'.
Proof. intros (T & _) K. eapply all_insert; [exact T|apply new_within|exact K]. Qed.

Lemma all_report now c b m at_ k st d t s : all_within s -> all_within (transaction (enqueue_message_report now c b m at_ k st d t) s).2.
Proof.
  intros K. apply all_transaction; [|done]. intros [] s'. unfold enqueue_message_report.
  intros (s0 & s1 & [= <- <-] & X)%stex_bind_ok. case_bool_decide; [by injection X as <-|].
  apply stex_bind_ok in X as (u & s2 & [= _ <-] & X). destruct (newest _ _) as [id|] eqn:E.
  - apply newest_some in E as (x & E & _). injection X as <-.
    eapply (all_insert s _ id); [cbn; by erewrite alter_as_insert| |done]. apply (K _ _ E).
  - destruct (batches s !! b) as [x|]; [|by injection X as <-].
    destruct (apps s !! FinishedBatch.app_id x) as [[[] [url|] [secret|] []]|]; try (by injection X as <-).
    apply stex_bind_ok in X as (id & s3 & X & Y). apply insert_task_ok in X as (_ & _ & _ & v & e & Ins).
    apply announce_ok in Y as [o ->]. eapply (all_same s3); [done|]. by eapply all_inserted.
Qed.

Lemma all_finished now clk c b source s : all_within s -> all_within (transaction (enqueue_batch_finished now clk c b source) s).2.
Proof.
  intros K. apply all_transaction; [|done]. intros [] s'. unfold enqueue_batch_finished.
  intros (s0 & s1 & [= <- <-] & X)%stex_bind_ok.
  destruct (candidate b s) as [[[x url] secret]|]; [|by injection X as <-]. destruct (already_announced b source s); [by injection X as <-|].
  apply stex_bind_ok in X as (id & s2 & X & Y). apply insert_finished_ok in X as (_ & _ & _ & _ & v & e & Ins).
  apply announce_ok in Y as [o ->]. eapply (all_same s2); [done|]. by eapply all_inserted.
Qed.

Lemma all_recover now clk c id s : all_within s -> all_within (transaction (_recover now clk c id) s).2.
Proof.
  intros K. apply all_transaction; [|done]. intros r s'. unfold _recover.
  intros (s0 & s1 & [= <- <-] & X)%stex_bind_ok. destruct (tasks s !! id) as [t|]; [|done].
  do 4 (apply stex_bind_ok in X as (? & ? & E & X); apply stex_lift_ok in E as [_ ->]).
  destruct (find_recovery id s) as [[i ?]|]; [by apply stex_bind_ok in X as (? & ? & [= _ <-] & [= _ <-])|].
  destruct (candidate _ s) as [[[fb url] secret]|]; [|done].
  apply stex_bind_ok in X as (i & s2 & X & Y). apply insert_finished_ok in X as (_ & _ & _ & _ & v & e & Ins).
  apply stex_bind_ok in Y as (u & s3 & Y & Z). apply announce_ok in Y as [o ->].
  apply stex_bind_ok in Z as (u' & s4 & [= _ <-] & [= _ <-]). eapply (all_same s2); [done|]. by eapply all_inserted.
Qed.

Lemma all_claim now id n s : all_within s -> all_within (transaction (claim now id n) s).2.
Proof.
  intros K. apply all_transaction; [|done]. intros r s'. unfold claim. intros (u & s0 & E & X)%stex_bind_ok. apply stex_lift_ok in E as [_ ->].
  apply stex_bind_ok in X as (l & s1 & [= <- <-] & X). apply stex_bind_ok in X as (s2 & s3 & [= <- <-] & X). cbn in X.
  destruct (tasks s !! id) as [t|] eqn:E; [|by injection X as _ <-]. destruct (due now t); [|by injection X as _ <-].
  apply stex_bind_ok in X as (? & ? & [= _ <-] & X). apply stex_bind_ok in X as (? & ? & [= _ <-] & [= _ <-]).
  eapply (all_insert s _ id); [done| |done]. destruct (K _ _ E) as [R _]. by split.
Qed.

Lemma all_heartbeat now id l n s : all_within s -> all_within (heartbeat now id l n s).2.
Proof.
  intros K. unfold heartbeat. destruct (held now id l s) as [t|] eqn:E; [|done]. apply held_some in E as [E _].
  eapply (all_insert s _ id); [done|apply (K _ _ E)|done].
Qed.

Lemma all_fenced now id l guard f rest s :
  (forall t, tasks s !! id = Some t -> guard t = true -> within_schedule t -> within_schedule (f t)) ->
  (forall s0 u s', rest s0 = Ok (u, s') -> tasks s' = tasks s0) ->
  all_within s -> all_within (fenced now id l guard f rest s).2.
Proof.
  intros Hf Hr K. unfold fenced. destruct (held now id l s) as [t|] eqn:E; [|done]. apply held_some in E as [E _].
  destruct (guard t) eqn:G; [|done]. destruct (rest _) as [[u s']|] eqn:R; [|done]. apply Hr in R.
  eapply (all_insert s _ id); [exact R| |done]. apply Hf; [done|done|]. by eapply K.
Qed.

Lemma rest_tasks {A} (m : stex Outbox.db exc A) s0 u s' : (_ ← in_outbox m; mret tt : tx_ unit) s0 = Ok (u, s') -> tasks s' = tasks s0.
Proof. intros (x & s1 & E & [= _ <-])%stex_bind_ok. by apply in_outbox_ok in E as [o ->]. Qed.

Lemma all_settled now ambient c o s : 0 <= cl_retry_count c -> all_within s -> all_within (run uuid_text (settle now ambient c o) s).
Proof.
  intros N K. pose proof (settle_cases now ambient c o N) as C. unfold run.
  destruct (settle now ambient c o) eqn:E; try (exfalso; revert E; unfold settle; by repeat case_match); cbn [call].
  - apply all_fenced; [|by intros ? ? ? [= _ <-]|done]. intros t _ _ [R _]. by split.
  - apply all_fenced; [|intros ? ? ?; apply rest_tasks|done]. intros t _ _ [R _]. by split.
  - apply all_fenced; [|intros ? ? ?; apply rest_tasks|done]. intros t _ G%Z.eqb_eq [R _]. split; [cbn; lia|done].
  - apply all_fenced; [|by intros ? ? ? [= _ <-]|done]. intros t _ G%Z.eqb_eq [R _]. split; cbn; [lia|]. intros _. left. lia.
Qed.

Lemma all_manual id s : all_within s -> all_within (transaction (manual_retry id) s).2.
Proof.
  intros K. apply all_transaction; [|done]. intros [] s'. unfold manual_retry. intros (s0 & s1 & [= <- <-] & X)%stex_bind_ok.
  destruct (tasks s !! id) as [t|] eqn:E; [|done]. destruct (retry_allowed id t s); [|by destruct (apps s !! _)].
  apply stex_bind_ok in X as (? & ? & [= _ <-] & X). apply stex_bind_ok in X as (? & ? & [= _ <-] & [= <-]).
  eapply (all_insert s _ id); [done| |done]. split; cbn; [lia|done].
Qed.

Lemma all_write now a guard f s : all_within s -> all_within (transaction (write_app now a guard f) s).2.
Proof.
  intros K. apply all_transaction; [|done]. intros [] s'. unfold write_app. intros (s0 & s1 & [= <- <-] & X)%stex_bind_ok. cbv zeta in X.
  apply stex_bind_ok in X as (? & ? & B & X). apply stex_lift_ok in B as [_ ->].
  destruct (apps s !! a) as [cfg|]; [|done]. apply stex_bind_ok in X as (? & ? & G & X). apply stex_lift_ok in G as [_ ->].
  do 2 (apply stex_bind_ok in X as (? & ? & [= _ <-] & X)). injection X as <-.
  intros id t'. cbn. rewrite lookup_fmap. destruct (tasks s !! id) as [t|] eqn:E; [|done]. intros [= <-].
  destruct (revoked a cfg (f cfg) t); [|by eapply K]. split; cbn; [lia|]. intros _. by right.
Qed.

Lemma all_cleanup id old s : all_within s -> all_within (transaction (cleanup_task id old) s).2.
Proof.
  intros K. apply all_transaction; [|done]. intros [] s'. unfold cleanup_task. intros (s0 & s1 & [= <- <-] & X)%stex_bind_ok.
  destruct (tasks s !! id) as [t|]; [|by injection X as <-]. destruct (_ && _); [|by injection X as <-].
  do 2 (apply stex_bind_ok in X as (? & ? & [= _ <-] & X)). injection X as <-.
  intros i tk. cbn. intros [_ E]%lookup_delete_Some. by eapply K.
Qed.

(** Calls that write no task. *)
Lemma all_authority now id l s :
  all_within s -> all_within (transaction (acquire_authority now id l) s).2 /\ all_within (transaction (confirm_authority now id l) s).2.
Proof.
  intros K. split; apply all_transaction; try done; intros r s'.
  - unfold acquire_authority. intros (s0 & s1 & [= <- <-] & X)%stex_bind_ok. destruct (tasks s !! id) as [t|]; [|by injection X as _ <-].
    cbv zeta in X. destruct (_ && _); apply stex_bind_ok in X as (? & ? & [= _ <-] & X); [by injection X as _ <-|].
    destruct (drop_expired _ _ _ !! _) in X; [done|by injection X as _ <-].
  - unfold confirm_authority. intros (s0 & s1 & [= <- <-] & X)%stex_bind_ok. destruct (tasks s !! id) as [t|]; [|by injection X as _ <-].
    destruct (_ && _); [|by injection X as _ <-]. destruct (authorities s !! _); [|by injection X as _ <-].
    destruct (_ && _ && _); [|by injection X as _ <-]. by apply stex_bind_ok in X as (? & ? & [= _ <-] & [= _ <-]).
Qed.

Lemma all_run o s : by_worker o -> all_within s -> all_within (run uuid_text o s).
Proof.
  intros W K. destruct o; cbn [by_worker] in W; try (destruct W as (? & ? & c & out & N & ->); by apply all_settled); unfold run; cbn [call snd].
  - by case_bool_decide.
  - done.
  - unfold legacy_task. destruct (_ && _); [|done]. eapply (all_insert s _ (next_task s)); [done| |done].
    split; [apply W|]. intros D. by destruct (proj2 W).
  - by apply all_report.
  - by apply all_finished.
  - by apply all_recover.
  - by apply all_claim.
  - by apply all_heartbeat.
  - by apply all_manual.
  - by apply all_authority.
  - by apply all_authority.
  - done.
  - by apply all_write.
  - by apply all_write.
  - by apply all_write.
  - by apply all_cleanup.
  - apply all_transaction; [|done]. intros r s'. unfold cleanup_fact. intros (s0 & s1 & [= <- <-] & X)%stex_bind_ok.
    by destruct (_ && _); injection X as _ <-.
Qed.

Lemma all_runs l s : Forall by_worker l -> all_within s -> all_within (runs uuid_text l s).
Proof.
  intros F. revert s. induction F as [|o l W F IH]; intros s K; [done|]. apply IH. by apply all_run.
Qed.

Lemma not_due now id n s t : tasks s !! id = Some t -> 3 <= n -> due now t = false -> (transaction (claim now id n) s).1 = Ok None.
Proof.
  intros E N D. unfold transaction, claim, refuse. assert (X : (n <? 3) = false) by (apply Z.ltb_ge; lia). rewrite X.
  unfold mbind, stex_bind. cbn. by rewrite E, D.
Qed.

(** The retries of a callback follow the schedule.  Whatever workers,
    reports, administrators and clean-ups do in any order, a task has been retried at most
    as often as the schedule has delays, and it is given up only after
    the last of them or because the configuration it was made for was
    revoked. *)
Theorem retries_bounded ob l id t :
  Forall by_worker l -> tasks (runs uuid_text l (start ob)) !! id = Some t -> within_schedule t.
Proof. intros F E. eapply (all_runs l (start ob)); [done|by intros ? ? ?|exact E]. Qed.

(** After a delivery that failed and has a retry left, the task is put off: its
    counter is one higher, it has no holder, and no worker obtains it before the
    delay of the schedule has passed. *)
Theorem retry_waits now ambient c o s delay s' :
  success o = false -> outcome_error o <> Some (tx "CallbackAuthorityBusy") ->
  0 <= cl_retry_count c -> retry_delays_s !! Z.to_nat (cl_retry_count c) = Some delay ->
  _process_claim now ambient c (Some o) s = (Ok (1, false), s') ->
  (exists t, tasks s' !! cl_task c = Some t /\ Task.retry_count t = cl_retry_count c + 1 /\ lease_of t = None)
  /\ forall later n, 3 <= n -> later < now + secs delay -> (transaction (claim later (cl_task c) n) s').1 = Ok None.
Proof.
  intros F B N D. unfold _process_claim.
  assert (E : settle now ambient c o = ORetry now ambient (cl_task c) (cl_lease c) (cl_retry_count c) delay (http_code o) (outcome_error o)).
  { unfold settle. rewrite F, bool_decide_eq_false_2 by done. pose proof (lookup_lt_Some _ _ _ D).
    destruct (Z.ltb_spec (cl_retry_count c) scheduled); [by rewrite D|lia]. }
  rewrite E. cbn [call alerts]. unfold mark_retry, fenced. destruct (held _ _ _ s) as [t|] eqn:H; [|done].
  destruct (Task.retry_count t =? cl_retry_count c) eqn:G; [|done]. apply Z.eqb_eq in G.
  destruct ((_ ← in_outbox _; mret tt) _) as [[[] s1]|] eqn:R; [|done]. intros [= <-]. apply rest_tasks in R.
  set (t' := Task.set_state _ _ _ _ _ _ _ _ t) in R.
  assert (T : tasks s1 !! cl_task c = Some t') by (rewrite R; cbn; apply lookup_insert_eq).
  split; [exists t'; split; [done|]; split; [cbn; lia|done]|]. intros later n L3 L.
  apply (not_due later _ n s1 t'); [done|done|]. cbn. apply Z.leb_gt. lia.
Qed.
End worker.

(** ** A delivery that fails *)

Definition example_claim : CallbackClaim := mkClaim 1 1 0 2 (second 50).
Definition server_error : DeliveryOutcome := mkOutcome false (Some 500) None.
Definition failing : list op := told ++ [OClaim (second 20) 1 30; settle RETRY_DELAYS_S (second 21) 77 example_claim server_error].

Lemma retries_bounded_witness : within_schedule RETRY_DELAYS_S (task_example failing 1).
Proof.
  refine (retries_bounded uuid_example RETRY_DELAYS_S Outbox.empty_db failing 1 (task_example failing 1) _ _).
  - unfold failing, told. cbn [app]. do 6 (constructor; [exact I|]). constructor; [|constructor].
    exists (second 21), 77, example_claim, server_error. by split.
  - vm_compute. reflexivity.
Defined.

Definition claimed_once : db := state_example (told ++ [OClaim (second 20) 1 30]).
Definition after_failure : db :=
  (_process_claim uuid_example RETRY_DELAYS_S (second 21) 77 example_claim (Some server_error) claimed_once).2.
Lemma first_failure :
  _process_claim uuid_example RETRY_DELAYS_S (second 21) 77 example_claim (Some server_error) claimed_once = (Ok (1, false), after_failure).
Proof. vm_compute. reflexivity. Qed.
Lemma retry_waits_witness : (transaction (claim (second 80) 1 30) after_failure).1 = Ok None.
Proof.
  pose proof (retry_waits uuid_example RETRY_DELAYS_S (second 21) 77 example_claim server_error claimed_once 60 after_failure
    eq_refl ltac:(discriminate) ltac:(cbn; lia) eq_refl first_failure) as [_ H].
  exact (H (second 80) 30 ltac:(lia) ltac:(vm_compute; reflexivity)).
Defined.
End CallbackWorker.
